(* ===== verification/_CoqProject ===== *)
-Q . S2P
Prelude.v
Net.v
Text.v
Urls.v
OrderedMap.v
ReplayRegistry.v
SeenQueries.v
Crypto.v
Signed.v
EndpointRecord.v
CapacityProtocol.v
MeshProtocol.v
Messages.v
Identity.v
RustOrd.v
Watch.v
CapacityQueries.v
CapacityService.v
Location.v
Attachments.v
Registration.v
WorkloadStream.v
WorkloadControl.v
Routes.v
Biscuit.v
WorkloadIdentity.v
ProxyGrant.v
Admission.v
Reconciliation.v
Gossip.v
Trust.v
TrustSafety.v
AgentIds.v
ServiceDiscovery.v
ServiceCache.v
ServiceNames.v
ServiceCacheSafety.v
ServiceCacheSample.v
WorkloadPayloads.v
Connector.v
AgentMessages.v
AgentControl.v
Tasks.v
RawRelay.v
ProxyRuntime.v
ProxySafety.v
ProxySample.v
AgentStore.v
Quantities.v
Manifest.v
Rego.v
Policy.v
Confinement.v
ServiceManifest.v
NetDisplay.v
HttpConnect.v
HttpSafety.v
WorkloadNetwork.v
NetworkSafety.v
NetworkSample.v
Dns.v
DnsSafety.v
DnsSample.v
SidecarSettings.v
Sidecar.v
AgentState.v
AgentService.v
Deployed.v
AgentReplay.v
AgentUsage.v
AgentInvariant.v
AgentSafety.v
AgentInterrupted.v
AgentRequests.v
AgentRestart.v
AgentSample.v
DeployedSample.v
