(* ===== verification/Prelude.v ===== *)
(** * Podmesh: a verification library

    Podmesh runs multi-tenant workloads on an open mesh of machines.  Agents
    execute workloads and stay attached to schedulers; a scheduler answers a
    placement by gossiping a signed capacity query, collecting the agents'
    signed offers and selecting one; proxies route traffic to the workloads'
    sidecars, for tenants that proved who they are and granted the proxy that
    role.  The sources are the crates under src/: podmesh-scheduler,
    podmesh-agent, podmesh-proxy, podmesh-sidecar, podctl, and the shared
    crates protocol, crypto, iroh_support, axum_support and metrics.

    ** How the code is modelled

    Each component is a Module of its own file.  A struct is a Record, an enum
    an Inductive type, a HashMap a [gmap], a HashSet a [gset], a VecDeque a
    list, an unsigned integer a [Z] whose saturating and wrapping operations are
    written out with their width, and a byte vector a list of bytes.  A method
    that takes [&mut self], or works under one lock, is a function from a state
    to a state and a result; a fallible function returns [result].  Where a
    function gives up its lock and takes it again, what other tasks do in
    between is an argument, a list of operations of the same component.  Clock
    readings, random identifiers and the outcome of network calls are
    arguments.  Metrics, log lines and lock poisoning are left out: no modelled
    operation panics while it holds a lock.  Errors are the source's messages,
    or an inductive type with one constructor per message where theorems tell
    them apart.

    Code outside the repository is a type class of operations with a second
    class for the documented laws the theorems use, and each has a concrete
    instance against which the witnesses compute: [Crypto.Primitives] (Ed25519,
    X25519, XChaCha20-Poly1305, base64), [Signed.Postcard] (the postcard
    encoding of a type), [Identity.Iroh] (endpoint identifiers and addresses),
    [Watch.Watch] (tokio's watch channel), [Registration.Blake3],
    [Biscuit.BiscuitAuth] (Biscuit tokens), [WorkloadIdentity.Json],
    [Gossip.Hex], [AgentStore.Redb] (transactions of the database),
    [Manifest.YamlSupport] (serde_yaml and serde_json values),
    [Rego.RegoEngine] (what the policy rules leave to the engine),
    [Urls.UrlParser] (the url crate), [HttpConnect.HttpParser] (httparse),
    [Dns.DnsNames] and [Dns.Hickory] (hickory's names and messages),
    [ServiceCache.Base32], and [ProxyRuntime.ProxyCodecs] and
    [WorkloadNetwork.PeerCodecs] (the encodings of the messages of proxies and
    sidecars).  The standard library is not such code: Net.v defines the address
    parsers and the string functions, Text.v the functions on text, RustOrd.v
    the orderings, sorting and [min_by].

    ** Files

    - Prelude.v: results and the [ensure!] and [try!] notations, machine
      integers, bytes, sizes of lists, maps and sets, hint databases, tactics.
    - Net.v, Text.v, RustOrd.v, Watch.v: standard library and channel
      interfaces; Urls.v: what the code reads of a URL.
    - OrderedMap.v: the invariant of a map with an insertion queue.
    - ReplayRegistry.v: shared/protocol/src/replay_registry.rs.
    - SeenQueries.v: podmesh-agent/src/machine/seen.rs.
    - Crypto.v: shared/crypto/src/domain.rs and the signing and sealing
      functions of lib.rs.
    - Signed.v: the pattern all signed messages follow, proved once for the
      class [SignedMessage]; EndpointRecord.v, CapacityProtocol.v and
      MeshProtocol.v: endpoint_record.rs, capacity.rs, placement.rs,
      machine_relay.rs and scheduler_mesh.rs of shared/protocol/src, with their
      instances of it; Messages.v: the theorems about these messages.
    - Identity.v: endpoint addresses (shared/iroh_support/src/lib.rs) and what
      a scheduler signs (machine/identity.rs).
    - CapacityQueries.v, CapacityService.v: machine/query.rs, coordinator.rs
      and placement.rs of podmesh-scheduler.
    - Location.v, Attachments.v: machine/location.rs and attachments.rs.
    - Registration.v, Routes.v: sidecar_registration.rs of shared/protocol and
      routes.rs of podmesh-proxy.
    - Biscuit.v, WorkloadIdentity.v, ProxyGrant.v: biscuit_keys.rs,
      workload_identity.rs and proxy_grant.rs of shared/protocol, and
      proxy_grants.rs of podmesh-proxy.
    - Admission.v: tenant_sessions.rs, iroh_runtime/tenant_gate.rs and the
      registration handler of iroh_runtime/handlers.rs in podmesh-proxy.
    - WorkloadStream.v: workload_stream.rs and workload_body.rs, the frames and
      the bodies on a workload stream; WorkloadControl.v: machine/envelope.rs
      and workload_control.rs, sealing and accepting typed messages;
      WorkloadPayloads.v: the messages and their validation (http_proxy.rs,
      egress.rs, machine/messages.rs, proxy_endpoint_discovery.rs,
      peer_control.rs).  All of shared/protocol/src.
    - ProxyRuntime.v: iroh_runtime.rs, iroh_runtime/handlers.rs,
      iroh_runtime/tenant_gate.rs, iroh_runtime/egress.rs, egress_target.rs and
      the grant handler of restapi.rs in podmesh-proxy, as tasks over one shared
      state; ProxySafety.v: the theorems; ProxySample.v: a concrete run.
    - Reconciliation.v: reconciliation.rs and the workload list request of
      shared/protocol, and machine/reconciliation.rs with its service,
      responder and handler.
    - Gossip.v: scheduler_gossip.rs of shared/protocol, machine/members.rs,
      member_issuers.rs, peer_pins.rs, discovery.rs, gossip_messages.rs and
      relay/access.rs.
    - AgentIds.v, AgentMessages.v, AgentControl.v: the identifiers, the owner
      requests and the agent answers of agent.rs, agent_control.rs and
      agent_control_relay.rs of shared/protocol; ServiceDiscovery.v and
      Connector.v: service_discovery.rs and workload_connector.rs.
    - Tasks.v: programs of atomic steps, pools of tasks that interleave and can
      be dropped at any step, and the proof rules for them.
    - AgentStore.v, AgentState.v, AgentService.v: store.rs, service.rs,
      service/enrollment.rs and machine/control.rs of podmesh-agent.  The
      theorems about them: AgentReplay.v (the replay cache), AgentUsage.v and
      AgentInvariant.v (the invariant), AgentSafety.v (every interleaving),
      AgentInterrupted.v (a dropped update), AgentRequests.v (single requests),
      AgentRestart.v (restoration); AgentSample.v: a concrete agent.
    - Quantities.v, Manifest.v, Rego.v, Policy.v: manifest_resources.rs,
      manifest_yaml.rs, podmesh_annotations.rs and manifest_policy.rs of
      shared/protocol, the Rego rules included; Confinement.v: what the rules
      guarantee.
    - ServiceManifest.v: service_discovery/manifest.rs; NetDisplay.v: how
      addresses print; Sidecar.v: sidecar.rs of podmesh-agent,
      sidecar_metadata.rs and the pod name of runtime.rs; Deployed.v: the agent
      service over that manifest code, and what reaches the runtime;
      DeployedSample.v: concrete manifests.
    - ServiceCache.v: service_cache.rs and service_cache/state.rs of
      podmesh-sidecar; ServiceNames.v: the names of services and how they are
      resolved; ServiceCacheSafety.v: every sequence of operations, saves and
      restarts; ServiceCacheSample.v: a concrete cache.
    - RawRelay.v: raw_relay.rs of shared/iroh_support, the relay of a tunnel.
    - HttpConnect.v: http_connect_proxy.rs and the transparent requests of
      egress_proxy.rs in podmesh-sidecar; HttpSafety.v: what reaches a tunnel.
    - WorkloadNetwork.v: authorization.rs, peer_connector.rs,
      workload_network.rs and connector_control.rs of podmesh-sidecar, as tasks
      over one shared state; NetworkSafety.v: every interleaving and every
      restart; NetworkSample.v: two lives of a sidecar.
    - Dns.v: dns.rs of podmesh-sidecar, the workload's resolver, as tasks over
      one shared state; DnsSafety.v: every interleaving; DnsSample.v: a run.
    - SidecarSettings.v: the configuration in lib.rs of podmesh-sidecar, with
      the check of the control socket, and listeners_conflict of shared/metrics.
    - Trust.v: trust.rs of podctl, the registry of trusted agents and proxies,
      its text and its file; TrustSafety.v: the theorems about it.

    ** What is proved

    - Stores: over every sequence of operations the replay registry, the query
      table, the location registry, the attachment sessions, the grant store and
      the reconciliation registry keep their invariants and their bounds; a
      replayed nonce is refused; a seen query is recognised until it expires or
      is evicted; a reconciliation reports what the mesh answered.
    - Mesh: relay trust beyond the configured keys follows the pinned peers, an
      announced scheduler vouches for itself only, and nobody takes over a
      member's identity by gossip.
    - Messages: what is signed verifies, what is encoded decodes to itself, and
      what is accepted is bounded, fresh, and signed over its own content by the
      key it names, under a domain no other kind of message shares.
    - Placement: an answer meets the caller's criteria although queries are
      shared and other tasks interleave; no agent is handed out twice; the wait
      ends when it should; an unpublished query does not linger.
    - Proxy: a route is installed only for a connection that proved its tenant
      and while the tenant's grant is live; no owner takes another's routing key
      or hostname; selection is fair and prefers the most specific route.  In
      every interleaving of the proxy's tasks, requests are forwarded only to
      endpoints their owner authorised, tunnels are opened only for proven and
      granted tenants, and connections, permits, routes, grants and nonces stay
      within their bounds.
    - Workload messages: what is sealed is accepted, what is accepted was signed
      by the key it names for this receiver, and it is accepted once; a body
      arrives as it was sent or its receiver sees an error.
    - Agent: in every interleaving of requests, dropped tasks and crashes the
      agent promises no more than its capacity, unless an update was rolled
      back, the store holds what a restart needs, and a workload is changed only
      under its guard and never changes its owner; a restart keeps every record
      it can read; requests tell nothing about the workloads of others, and
      identities are issued only for the keys on record; the encrypted store
      refines a plain map.
    - Manifests: an accepted manifest is one confined pod, its containers keep
      the limits they declare and get defaults for those they do not, and their
      sum is measured exactly; what is deployed is that pod with the sidecar
      beside it, under a name no other workload has.
    - Sidecar: the cache holds only verified records of its owner, resolves a
      name exactly when one catalog entry claims it, keeps saved addresses over
      restarts and never goes back to an older record.  In every interleaving a
      sidecar's application is reached only by workloads of its tenant on the
      ports of its own catalog, tunnels lead only to such workloads, the
      credential only renews, and over all its lives no two records it publishes
      carry the same number.  A tunnel asked for with CONNECT or a proxied
      request gets what the application sent, however it was split; a relay
      delivers a prefix of what it read, and ends once it is told to.  The
      resolver drops a packet or serves it within its time, keeps names of the
      mesh from the servers outside, and answers them only with addresses a
      lease of the tenant backs, verified and alive by the clock of that moment.
    - podctl: the decision whom to deploy to accepts exactly the agents that were
      configured, a proxy is accepted only as it was stored, an update of
      the registry changes what it says or nothing, a crash leaves the old or the
      new file, and what is printed parses to itself.
    - Some theorems exhibit behaviour the code does not intend: a container
      without a name that no rule reports, a command replayed in the seconds
      after its expiry, a rolled back update that exceeds the capacity, a
      dropped update that is never finished, a port of the sidecar that its
      metrics listener may take, an init container that passes for
      the sidecar, a stale record that silences proxy discovery, an envelope
      replayed when the least retention is configured, a failed
      handshake that leaves its session behind, a failed reconciliation that
      keeps its slot, an unreachable agent whose answer is refused at the limit,
      a stale eviction slot, a count that is not published when nobody listens,
      and a renewed grant removed by a concurrent reader.

    ** Bounds

    Runs are lists of operations of any length, by induction, so no fuel is
    chosen.  A task of the agent waits for a workload's guard at most a given
    number of retries, and [AgentRequests.serve_terminates] says how many steps
    a request takes at most; how long a step waits is the environment's.  The
    loops of the source are structural recursion on the list they consume.  [CapacityService.wait_for_offers] recurses on its schedule of
    polls and says which polls end it, and so does
    [Reconciliation.await_complete].  Integer ranges appear as hypotheses only
    where a result depends on them (the request counter of the route table, the
    range of timestamps a Biscuit can hold).

    ** What is not modelled

    Network and file I/O, process start-up, HTTP handlers and metrics.  Of the
    sidecar, the nftables rules and the loop and streams of its connections to
    the proxies; of podctl, its commands; the rate limiter, which counts in
    floating point; and running podman. *)

From Stdlib Require Import ZArith Lia.
From Stdlib Require Strings.Byte.
From stdpp Require Export prelude gmap strings list fin_maps.
Export Stdlib.ZArith.ZArith Stdlib.micromega.Lia.

Open Scope Z_scope.

(** ** Results

    Rust's [Result<A, E>].  An [anyhow] error is its message, or a constructor
    of an inductive type for each message where theorems tell them apart. *)
Inductive result (E A : Type) : Type :=
| Ok (a : A)
| Err (e : E).
Arguments Ok {E A} a.
Arguments Err {E A} e.

#[export] Instance result_ret {E} : MRet (result E) := fun A a => Ok a.
#[export] Instance result_bind {E} : MBind (result E) := fun A B f r =>
  match r with Ok a => f a | Err e => Err e end.

Definition is_ok {E A} (r : result E A) : bool :=
  match r with Ok _ => true | Err _ => false end.

(** Rust's [Option::context] / [ok_or]. *)
Definition ok_or {E A} (o : option A) (e : E) : result E A :=
  match o with Some a => Ok a | None => Err e end.

Declare Scope rust_scope.
Delimit Scope rust_scope with rust.

(** [ensure!(c, ...)], [bail!] and the early returns of the source: when [c]
    fails the function ends with [r], otherwise it goes on with [k]. *)
Notation "'ensure!' c 'else' r ;; k" := (if c then k else r)
  (at level 10, c at level 99, r at level 99, k at level 200,
   format "'[v' 'ensure!'  c  'else'  r  ;; '/' k ']'") : rust_scope.

(** The [?] operator on a pure result inside a function that threads a state:
    an error ends the function with the state reached so far. *)
Notation "'try!' x := r 'in' s ;; k" :=
  (match r with Ok x => k | Err e => (s, Err e) end)
  (at level 10, x name, r at level 99, s at level 99, k at level 200,
   format "'[v' 'try!'  x  :=  r  'in'  s  ;; '/' k ']'") : rust_scope.

Open Scope rust_scope.

(** ** Machine integers

    Integers are [Z]; the operations of the source that depend on the width
    (saturating addition and subtraction, clamping) are written out. *)
Definition u16_max : Z := 2 ^ 16 - 1.
Definition u32_max : Z := 2 ^ 32 - 1.
Definition u64_max : Z := 2 ^ 64 - 1.
(** [usize] on the 64-bit targets the project builds for. *)
Definition usize_max : Z := 2 ^ 64 - 1.

Definition saturating_add (max a b : Z) : Z := Z.min (a + b) max.
Definition saturating_sub (a b : Z) : Z := Z.max (a - b) 0.
Definition clamp (x lo hi : Z) : Z := if x <? lo then lo else if hi <? x then hi else x.

(** Range membership, Rust's [(lo..=hi).contains(&x)]. *)
Definition in_range (lo hi x : Z) : bool := (lo <=? x) && (x <=? hi).

(** [Instant] and [Duration] are counts of nanoseconds. *)
Definition from_secs (s : Z) : Z := s * 1000000000.

Definition len {A} (l : list A) : Z := Z.of_nat (length l).
Definition map_len {K V} `{Countable K} (m : gmap K V) : Z := Z.of_nat (size m).
Definition set_len {K} `{Countable K} (s : gset K) : Z := Z.of_nat (size s).

#[global] Arguments len : simpl never.
#[global] Arguments map_len : simpl never.
#[global] Arguments set_len : simpl never.
#[global] Arguments Z.add : simpl never.
#[global] Arguments Z.sub : simpl never.
#[global] Arguments Z.mul : simpl never.
#[global] Arguments saturating_add : simpl never.
#[global] Arguments saturating_sub : simpl never.

(** Strings: [str::len] is the length in bytes. *)
Definition str_len (s : string) : Z := Z.of_nat (String.length s).
Definition str_is_empty (s : string) : bool := bool_decide (s = EmptyString).

Definition contains_key {K V} `{Countable K} (k : K) (m : gmap K V) : bool :=
  bool_decide (is_Some (m !! k)).

(** [HashMap::retain] and [Vec::retain]/[VecDeque::retain] with a boolean test. *)
Definition map_retain {K V} `{Countable K} (f : K -> V -> bool) (m : gmap K V) : gmap K V :=
  filter (fun kv => f kv.1 kv.2 = true) m.
Definition list_retain {A} (f : A -> bool) (l : list A) : list A :=
  filter (fun x => f x = true) l.

(** ** Bytes

    [u8] is [Byte.byte]; a [Vec<u8>] or [&[u8]] is a list of them. *)
Abbreviation byte := Corelib.Init.Byte.byte.
Abbreviation bytes := (list byte).

#[export] Instance byte_eq_dec : EqDecision byte := Byte.byte_eq_dec.

Definition byte_to_Z (b : byte) : Z := Z.of_N (Byte.to_N b).
Definition byte_of_Z (z : Z) : byte :=
  match Byte.of_N (Z.to_N (z mod 256)) with Some b => b | None => Byte.x00 end.

#[export] Instance byte_countable : Countable byte.
Proof.
  apply (inj_countable Byte.to_N Byte.of_N). intros b. apply Byte.of_to_N.
Defined.

Definition as_bytes (s : string) : bytes := String.list_byte_of_string s.

(** [to_le_bytes], [to_be_bytes] and their inverses. *)
Definition u16_le_bytes (x : Z) : bytes := [byte_of_Z x; byte_of_Z (x / 256)].
Definition u32_be_bytes (x : Z) : bytes :=
  [byte_of_Z (x / 16777216); byte_of_Z (x / 65536); byte_of_Z (x / 256); byte_of_Z x].
Definition u32_from_be (b : bytes) : Z :=
  fold_left (fun acc x => acc * 256 + byte_to_Z x) b 0.
Definition u32_le_bytes (x : Z) : bytes :=
  [byte_of_Z x; byte_of_Z (x / 256); byte_of_Z (x / 65536); byte_of_Z (x / 16777216)].

(** [<[u8; n]>::try_from(slice)]: a slice of exactly [n] bytes. *)
Definition try_into {E} (n : Z) (b : bytes) (e : E) : result E bytes :=
  if len b =? n then Ok b else Err e.

(** ** Automation *)
Create HintDb podmesh.

Ltac split_and_all := repeat match goal with H : _ /\ _ |- _ => destruct H end.

(** Case analysis on every [if] and [match] of the goal and the hypotheses. *)
Ltac crush_cases :=
  repeat (case_match || case_bool_decide || case_decide); simplify_eq/=.

(** Turns the boolean tests of a successful check into propositions. *)
Ltac bool_props :=
  repeat match goal with
  | H : (_ && _)%bool = true |- _ => apply andb_true_iff in H as [? ?]
  | H : (_ =? _) = true |- _ => apply Z.eqb_eq in H
  | H : (_ =? _) = false |- _ => apply Z.eqb_neq in H
  | H : (_ <=? _) = true |- _ => apply Z.leb_le in H
  | H : (_ <=? _) = false |- _ => apply Z.leb_gt in H
  | H : (_ <? _) = true |- _ => apply Z.ltb_lt in H
  | H : (_ <? _) = false |- _ => apply Z.ltb_ge in H
  | H : bool_decide _ = true |- _ => apply bool_decide_eq_true in H
  | H : bool_decide _ = false |- _ => apply bool_decide_eq_false in H
  | H : negb _ = true |- _ => apply negb_true_iff in H
  | H : negb _ = false |- _ => apply negb_false_iff in H
  | H : str_is_empty _ = _ |- _ => unfold str_is_empty in H
  end.

Lemma filter_sublist_mono {A} (F : A -> Prop) `{forall x, Decision (F x)} (k l : list A) :
  k `sublist_of` l -> filter F k `sublist_of` filter F l.
Proof.
  induction 1 as [|x k l _ IH|x k l _ IH]; [done| |]; rewrite ?filter_cons; case_decide; try done; by constructor.
Qed.

Lemma byte_to_Z_range b : 0 <= byte_to_Z b < 256.
Proof.
  unfold byte_to_Z. pose proof (Byte.to_N_bounded b). lia.
Qed.

Lemma byte_to_of_Z z : byte_to_Z (byte_of_Z z) = z mod 256.
Proof.
  unfold byte_to_Z, byte_of_Z. pose proof (Z.mod_pos_bound z 256 ltac:(lia)).
  destruct (Byte.of_N _) eqn:E.
  - apply Byte.to_of_N in E. rewrite E. lia.
  - apply Byte.of_N_None_iff in E. lia.
Qed.

Lemma byte_to_Z_inj b1 b2 : byte_to_Z b1 = byte_to_Z b2 -> b1 = b2.
Proof.
  unfold byte_to_Z. intros Heq%N2Z.inj.
  pose proof (Byte.of_to_N b1). pose proof (Byte.of_to_N b2). congruence.
Qed.

Lemma u16_le_bytes_inj x y :
  0 <= x < 65536 -> 0 <= y < 65536 -> u16_le_bytes x = u16_le_bytes y -> x = y.
Proof.
  intros Hx Hy [= H1%(f_equal byte_to_Z) H2%(f_equal byte_to_Z)].
  rewrite !byte_to_of_Z in *.
  Z.to_euclidean_division_equations. lia.
Qed.

Lemma u32_from_to_be x : 0 <= x < 2 ^ 32 -> u32_from_be (u32_be_bytes x) = x.
Proof.
  intros Hx. unfold u32_from_be, u32_be_bytes. cbn [fold_left]. rewrite !byte_to_of_Z.
  replace (x / 65536) with (x / 256 / 256) by (rewrite Z.div_div by lia; done).
  replace (x / 16777216) with (x / 256 / 256 / 256) by (rewrite !Z.div_div by lia; done).
  rewrite (Z.mod_small (x / 256 / 256 / 256)) by (Z.to_euclidean_division_equations; lia).
  pose proof (Z.div_mod x 256). pose proof (Z.div_mod (x / 256) 256).
  pose proof (Z.div_mod (x / 256 / 256) 256). lia.
Qed.

Lemma u32_le_bytes_inj x y :
  0 <= x < 2 ^ 32 -> 0 <= y < 2 ^ 32 -> u32_le_bytes x = u32_le_bytes y -> x = y.
Proof.
  intros Hx Hy Heq. rewrite <- (u32_from_to_be x), <- (u32_from_to_be y) by done.
  unfold u32_le_bytes in Heq. unfold u32_be_bytes. by injection Heq as -> -> -> ->.
Qed.

Lemma as_bytes_inj s1 s2 : as_bytes s1 = as_bytes s2 -> s1 = s2.
Proof.
  intros Heq%(f_equal String.string_of_list_byte).
  by rewrite !String.string_of_list_byte_of_string in Heq.
Qed.

Lemma len_nil {A} : len (@nil A) = 0.
Proof. done. Qed.
Lemma len_cons {A} (x : A) l : len (x :: l) = len l + 1.
Proof. unfold len. cbn [length]. lia. Qed.
Lemma len_app {A} (l1 l2 : list A) : len (l1 ++ l2) = len l1 + len l2.
Proof. unfold len. rewrite length_app. lia. Qed.
Lemma len_nonneg {A} (l : list A) : 0 <= len l.
Proof. unfold len. lia. Qed.
Lemma len_map {A B} (f : A -> B) (l : list A) : len (f <$> l) = len l.
Proof. unfold len. by rewrite length_fmap. Qed.

#[export] Hint Rewrite @len_nil @len_cons @len_app @len_map : podmesh_len.

(** Normalises lengths in the goal and the hypotheses, then calls [lia]. *)
Ltac len_lia := autorewrite with podmesh_len in *; lia.

Lemma contains_key_true {K V} `{Countable K} (k : K) (m : gmap K V) :
  contains_key k m = true <-> is_Some (m !! k).
Proof. apply bool_decide_eq_true. Qed.

Lemma contains_key_false {K V} `{Countable K} (k : K) (m : gmap K V) :
  contains_key k m = false <-> m !! k = None.
Proof. unfold contains_key. rewrite bool_decide_eq_false. symmetry. apply eq_None_not_Some. Qed.

Lemma map_len_nonneg {K V} `{Countable K} (m : gmap K V) : 0 <= map_len m.
Proof. unfold map_len. lia. Qed.

Lemma map_len_empty {K V} `{Countable K} : map_len (∅ : gmap K V) = 0.
Proof. unfold map_len. by rewrite map_size_empty. Qed.

Lemma map_len_insert_new {K V} `{Countable K} (m : gmap K V) k v :
  m !! k = None -> map_len (<[k:=v]> m) = map_len m + 1.
Proof. intros Hk. unfold map_len. rewrite map_size_insert_None by done. lia. Qed.

Lemma map_len_insert_old {K V} `{Countable K} (m : gmap K V) k v :
  is_Some (m !! k) -> map_len (<[k:=v]> m) = map_len m.
Proof. intros Hk. unfold map_len. by rewrite map_size_insert_Some. Qed.

Lemma map_len_insert_le {K V} `{Countable K} (m : gmap K V) k v :
  map_len m <= map_len (<[k:=v]> m) <= map_len m + 1.
Proof.
  destruct (m !! k) eqn:E.
  - rewrite map_len_insert_old by eauto. lia.
  - rewrite map_len_insert_new by done. lia.
Qed.

Lemma map_len_delete {K V} `{Countable K} (m : gmap K V) k :
  is_Some (m !! k) -> map_len (delete k m) = map_len m - 1.
Proof.
  intros [v Hk]. unfold map_len.
  rewrite <- (insert_delete_id m k v) at 2 by done.
  rewrite map_size_insert_None by apply lookup_delete_eq. lia.
Qed.

Lemma lookup_map_retain {K V} `{Countable K} (f : K -> V -> bool) (m : gmap K V) k v :
  map_retain f m !! k = Some v <-> m !! k = Some v /\ f k v = true.
Proof. unfold map_retain. by rewrite map_lookup_filter_Some. Qed.

Lemma lookup_map_retain_if {K V} `{Countable K} (f : K -> V -> bool) (m : gmap K V) k :
  map_retain f m !! k = match m !! k with
                        | Some v => if f k v then Some v else None
                        | None => None
                        end.
Proof.
  apply option_eq. intros v. rewrite lookup_map_retain.
  destruct (m !! k) as [w|]; [destruct (f k w) eqn:E|]; naive_solver congruence.
Qed.

Lemma map_retain_subseteq {K V} `{Countable K} (f : K -> V -> bool) (m : gmap K V) :
  map_retain f m ⊆ m.
Proof. apply map_filter_subseteq. Qed.

Lemma map_len_subseteq {K V} `{Countable K} (m1 m2 : gmap K V) :
  m1 ⊆ m2 -> map_len m1 <= map_len m2.
Proof.
  intros Hsub. unfold map_len. rewrite <- !size_dom.
  apply inj_le, subseteq_size, subseteq_dom, Hsub.
Qed.

Lemma map_len_delete_le {K V} `{Countable K} (m : gmap K V) k :
  map_len (delete k m) <= map_len m.
Proof. apply map_len_subseteq, delete_subseteq. Qed.

Lemma map_len_retain_le {K V} `{Countable K} (f : K -> V -> bool) (m : gmap K V) :
  map_len (map_retain f m) <= map_len m.
Proof. apply map_len_subseteq, map_retain_subseteq. Qed.

Lemma elem_of_list_retain {A} (f : A -> bool) (l : list A) x :
  x ∈ list_retain f l <-> x ∈ l /\ f x = true.
Proof. unfold list_retain. rewrite list_elem_of_filter. tauto. Qed.

Lemma NoDup_list_retain {A} (f : A -> bool) (l : list A) :
  NoDup l -> NoDup (list_retain f l).
Proof. apply NoDup_filter. Qed.

(** A list without duplicates splits around an element in one way only. *)
Lemma NoDup_split_unique {A} (x : A) l1 l2 k1 k2 :
  NoDup (l1 ++ x :: l2) -> l1 ++ x :: l2 = k1 ++ x :: k2 -> l1 = k1 /\ l2 = k2.
Proof.
  revert k1. induction l1 as [|y l1 IH]; intros [|z k1] Hnd Heq; simplify_eq/=.
  - done.
  - apply NoDup_cons in Hnd as [Hni _]. destruct Hni. apply elem_of_app. right. left.
  - apply NoDup_cons in Hnd as [Hni _]. destruct Hni. apply elem_of_app. right. left.
  - apply NoDup_cons in Hnd as [_ Hnd]. destruct (IH k1 Hnd) as [-> ->]; done.
Qed.

(** The sum of a measure over the values of a map. *)
Definition map_sum {K V} `{Countable K} (f : V -> Z) (m : gmap K V) : Z :=
  map_fold (fun _ v acc => f v + acc) 0 m.

Lemma map_sum_empty {K V} `{Countable K} (f : V -> Z) : map_sum f (∅ : gmap K V) = 0.
Proof. unfold map_sum. by rewrite map_fold_empty. Qed.

Lemma map_sum_insert_new {K V} `{Countable K} (f : V -> Z) (m : gmap K V) k v :
  m !! k = None -> map_sum f (<[k:=v]> m) = f v + map_sum f m.
Proof. intros Hk. unfold map_sum. rewrite map_fold_insert_L; [done|intros; lia|done]. Qed.

Lemma map_sum_delete {K V} `{Countable K} (f : V -> Z) (m : gmap K V) k v :
  m !! k = Some v -> map_sum f (delete k m) = map_sum f m - f v.
Proof.
  intros Hk. rewrite <- (insert_delete_id m k v Hk) at 2.
  rewrite map_sum_insert_new by apply lookup_delete_eq. lia.
Qed.

Lemma map_sum_insert_old {K V} `{Countable K} (f : V -> Z) (m : gmap K V) k v v' :
  m !! k = Some v -> map_sum f (<[k:=v']> m) = map_sum f m - f v + f v'.
Proof.
  intros Hk. rewrite <- insert_delete_eq, map_sum_insert_new by apply lookup_delete_eq.
  rewrite (map_sum_delete _ _ _ _ Hk). lia.
Qed.

Lemma map_sum_nonneg {K V} `{Countable K} (f : V -> Z) (m : gmap K V) :
  (forall k v, m !! k = Some v -> 0 <= f v) -> 0 <= map_sum f m.
Proof.
  induction m as [|k v m Hk IH] using map_ind; intros Hf; [by rewrite map_sum_empty|].
  rewrite map_sum_insert_new by done. pose proof (Hf k v (lookup_insert_eq _ _ _)).
  assert (0 <= map_sum f m); [|lia]. apply IH. intros k' v' Hk'. apply (Hf k').
  rewrite lookup_insert_ne; [done|congruence].
Qed.

#[export] Hint Resolve map_len_nonneg map_len_delete_le map_len_retain_le
  map_len_insert_le NoDup_list_retain : podmesh.
