(* ===== verification/Net.v ===== *)
(** * Standard-library string and address functions

    The parts of Rust's [core] that the sources call on text: prefix tests,
    splitting, ASCII classes and the parsers behind
    [str::parse::<SocketAddr>()] and [str::parse::<IpAddr>()]
    (core::net::parser).  They are definitions, not parameters, because the
    programs' checks depend on what they accept. *)

From S2P Require Import Prelude.
From Stdlib Require Import Ascii.

Module Net.

Abbreviation chars := (list ascii).

Definition chars_of (s : string) : chars := String.list_ascii_of_string s.
Definition of_chars (l : chars) : string := String.string_of_list_ascii l.

Definition code (c : ascii) : Z := Z.of_N (N_of_ascii c).

(** [u8::is_ascii_whitespace]: space, tab, line feed, form feed, return. *)
Definition is_ascii_whitespace (c : ascii) : bool :=
  let n := code c in (n =? 32) || (n =? 9) || (n =? 10) || (n =? 12) || (n =? 13).
Definition is_ascii_control (c : ascii) : bool := (code c <? 32) || (code c =? 127).
Definition is_ascii_digit (c : ascii) : bool := in_range 48 57 (code c).
Definition is_ascii_lowercase (c : ascii) : bool := in_range 97 122 (code c).
Definition is_ascii_uppercase (c : ascii) : bool := in_range 65 90 (code c).
Definition is_ascii_alphabetic (c : ascii) : bool := is_ascii_lowercase c || is_ascii_uppercase c.
Definition is_ascii_alphanumeric (c : ascii) : bool := is_ascii_alphabetic c || is_ascii_digit c.
Definition is_ascii_hexdigit (c : ascii) : bool :=
  is_ascii_digit c || in_range 97 102 (code c) || in_range 65 70 (code c).
Definition is_ascii_graphic (c : ascii) : bool := in_range 33 126 (code c).

Definition to_ascii_lower (c : ascii) : ascii :=
  if is_ascii_uppercase c then ascii_of_N (Z.to_N (code c + 32)) else c.

Definition to_ascii_lowercase (s : string) : string := of_chars (to_ascii_lower <$> chars_of s).
Definition eq_ignore_ascii_case (a b : string) : bool :=
  bool_decide (to_ascii_lowercase a = to_ascii_lowercase b).

Definition any_char (f : ascii -> bool) (s : string) : bool := existsb f (chars_of s).
Definition all_char (f : ascii -> bool) (s : string) : bool := forallb f (chars_of s).

Definition starts_with (pre s : string) : bool := String.prefix pre s.

Fixpoint split_chars (sep : ascii) (l : chars) : list chars :=
  match l with
  | [] => [[]]
  | c :: l =>
      match split_chars sep l with
      | [] => [[c]]
      | w :: ws => if bool_decide (c = sep) then [] :: w :: ws else (c :: w) :: ws
      end
  end.

(** [str::split(sep)]. *)
Definition split (sep : ascii) (s : string) : list string := of_chars <$> split_chars sep (chars_of s).

(** [str::split_once(sep)]. *)
Fixpoint split_once_chars (sep : ascii) (l : chars) : option (chars * chars) :=
  match l with
  | [] => None
  | c :: l =>
      if bool_decide (c = sep) then Some ([], l)
      else match split_once_chars sep l with
           | Some (a, b) => Some (c :: a, b)
           | None => None
           end
  end.
Definition split_once (sep : ascii) (s : string) : option (string * string) :=
  match split_once_chars sep (chars_of s) with
  | Some (a, b) => Some (of_chars a, of_chars b)
  | None => None
  end.

Fixpoint trim_start_chars (f : ascii -> bool) (l : chars) : chars :=
  match l with
  | [] => []
  | c :: l' => if f c then trim_start_chars f l' else l
  end.
Definition trim_end_chars (f : ascii -> bool) (l : chars) : chars :=
  rev (trim_start_chars f (rev l)).

(** [char::is_whitespace] on the UTF-8 bytes of one, two and three byte
    characters, and [str::trim], which strips such characters at both ends. *)
Definition whitespace1 (c : ascii) : bool := in_range 9 13 (code c) || (code c =? 32).
Definition whitespace2 (a b : ascii) : bool :=
  (code a =? 0xc2) && ((code b =? 0x85) || (code b =? 0xa0)).
Definition whitespace3 (a b c : ascii) : bool :=
  ((code a =? 0xe1) && (code b =? 0x9a) && (code c =? 0x80)) ||
  ((code a =? 0xe2) && (code b =? 0x80) &&
   (in_range 0x80 0x8a (code c) || (code c =? 0xa8) || (code c =? 0xa9) || (code c =? 0xaf))) ||
  ((code a =? 0xe2) && (code b =? 0x81) && (code c =? 0x9f)) ||
  ((code a =? 0xe3) && (code b =? 0x80) && (code c =? 0x80)).

Fixpoint trim_front (w2 : ascii -> ascii -> bool) (w3 : ascii -> ascii -> ascii -> bool) (l : chars) : chars :=
  match l with
  | [] => []
  | a :: l1 =>
    if whitespace1 a then trim_front w2 w3 l1 else
    match l1 with
    | [] => l
    | b :: l2 =>
      if w2 a b then trim_front w2 w3 l2 else
      match l2 with
      | [] => l
      | c :: l3 => if w3 a b c then trim_front w2 w3 l3 else l
      end
    end
  end.

Definition trim (s : string) : string :=
  of_chars (rev (trim_front (fun b a => whitespace2 a b) (fun c b a => whitespace3 a b c)
    (rev (trim_front whitespace2 whitespace3 (chars_of s))))).

(** [str::trim_end_matches(c)]. *)
Definition trim_end_matches (c : ascii) (s : string) : string :=
  of_chars (trim_end_chars (fun x => bool_decide (x = c)) (chars_of s)).

(** [str::ends_with] and [str::strip_suffix] with a string. *)
Definition ends_with (suf s : string) : bool :=
  String.prefix (of_chars (rev (chars_of suf))) (of_chars (rev (chars_of s))).
Definition strip_suffix (suf s : string) : option string :=
  if ends_with suf s then Some (of_chars (take (String.length s - String.length suf) (chars_of s)))
  else None.

(** [format!("{byte:02x}")] of every byte. *)
Definition hex_digit (n : Z) : ascii := ascii_of_N (Z.to_N (if n <? 10 then 48 + n else 87 + n)).
Definition hex_lower (b : bytes) : string :=
  of_chars (flat_map (fun x => [hex_digit (byte_to_Z x / 16); hex_digit (byte_to_Z x mod 16)]) b).

(** [String::from_utf8]: the well-formed byte sequences of the Unicode standard. *)
Definition continuation (b : byte) : bool := in_range 0x80 0xbf (byte_to_Z b).
Fixpoint utf8_valid (l : bytes) : bool :=
  match l with
  | [] => true
  | a :: l1 =>
      let x := byte_to_Z a in
      if x <? 0x80 then utf8_valid l1 else
      match l1 with
      | [] => false
      | b :: l2 =>
          let y := byte_to_Z b in
          if in_range 0xc2 0xdf x then continuation b && utf8_valid l2 else
          match l2 with
          | [] => false
          | c :: l3 =>
              if in_range 0xe0 0xef x then
                in_range (if x =? 0xe0 then 0xa0 else 0x80) (if x =? 0xed then 0x9f else 0xbf) y &&
                continuation c && utf8_valid l3
              else
              match l3 with
              | [] => false
              | d :: l4 =>
                  in_range 0xf0 0xf4 x &&
                  in_range (if x =? 0xf0 then 0x90 else 0x80) (if x =? 0xf4 then 0x8f else 0xbf) y &&
                  continuation c && continuation d && utf8_valid l4
              end
          end
      end
  end.
Definition from_utf8 (l : bytes) : option string :=
  if utf8_valid l then Some (String.string_of_list_byte l) else None.

(** ** core::net::parser *)

Definition parser (A : Type) : Type := chars -> option (A * chars).

Definition to_digit (radix : Z) (c : ascii) : option Z :=
  let n := code c in
  let d := if in_range 48 57 n then Some (n - 48)
           else if in_range 97 122 n then Some (n - 87)
           else if in_range 65 90 n then Some (n - 55) else None in
  match d with Some v => if v <? radix then Some v else None | None => None end.

Fixpoint digits (radix : Z) (l : chars) : list Z * chars :=
  match l with
  | c :: l' =>
      match to_digit radix c with
      | Some d => let (ds, rest) := digits radix l' in (d :: ds, rest)
      | None => ([], l)
      end
  | [] => ([], [])
  end.

Definition number_of (radix : Z) (ds : list Z) : Z := fold_left (fun acc d => acc * radix + d) ds 0.

(** [read_number(radix, max_digits, allow_zero_prefix)] at a type whose largest
    value is [limit]. *)
Definition read_number (limit radix : Z) (max_digits : option Z) (allow_zero_prefix : bool)
    : parser Z := fun l =>
  let (ds, rest) := digits radix l in
  let too_long := match max_digits with Some m => m <? len ds | None => false end in
  if (len ds =? 0) || too_long then None
  else if negb allow_zero_prefix && bool_decide (head l = Some "0"%char) && (1 <? len ds) then None
  else if number_of radix ds <=? limit then Some (number_of radix ds, rest) else None.

Definition read_given_char (c : ascii) : parser unit := fun l =>
  match l with x :: l' => if bool_decide (x = c) then Some (tt, l') else None | [] => None end.

Definition read_separator {A} (sep : ascii) (index : nat) (inner : parser A) : parser A := fun l =>
  match index with
  | O => inner l
  | _ => match read_given_char sep l with Some (_, l') => inner l' | None => None end
  end.

Definition read_octet : parser Z := read_number 255 10 (Some 3) false.

Definition read_ipv4_addr : parser (list Z) := fun l =>
  '(a, l) ← read_octet l; '(b, l) ← read_separator "." 1 read_octet l;
  '(c, l) ← read_separator "." 2 read_octet l; '(d, l) ← read_separator "." 3 read_octet l;
  Some ([a; b; c; d], l).

(** [read_groups]: [n] groups are still free, [i] have been read. *)
Fixpoint read_groups (n i : nat) (l : chars) : list Z * bool * chars :=
  match n with
  | O => ([], false, l)
  | S n' =>
      let v4 := match n' with O => None | S _ => read_separator ":" i read_ipv4_addr l end in
      match v4 with
      | Some ([a; b; c; d], rest) => ([a * 256 + b; c * 256 + d], true, rest)
      | _ =>
          match read_separator ":" i (read_number 65535 16 (Some 4) true) l with
          | Some (g, rest) =>
              let '(gs, v4, rest) := read_groups n' (S i) rest in (g :: gs, v4, rest)
          | None => ([], false, l)
          end
      end
  end.

Definition read_ipv6_addr : parser (list Z) := fun l =>
  let '(head, head_v4, rest) := read_groups 8 0 l in
  if Nat.eqb (length head) 8 then Some (head, rest)
  else if head_v4 then None
  else
    '(_, rest) ← read_given_char ":" rest; '(_, rest) ← read_given_char ":" rest;
    let '(tail, _, rest) := read_groups (8 - (length head + 1)) 0 rest in
    Some (head ++ replicate (8 - length head - length tail) 0 ++ tail, rest).

Inductive SocketAddr :=
| V4 (octets : list Z) (port : Z)
| V6 (groups : list Z) (scope_id port : Z).

Inductive IpAddr :=
| IpV4 (octets : list Z)
| IpV6 (groups : list Z).

#[export] Instance SocketAddr_eq_dec : EqDecision SocketAddr.
Proof. solve_decision. Defined.
#[export] Instance IpAddr_eq_dec : EqDecision IpAddr.
Proof. solve_decision. Defined.

Definition read_port : parser Z := fun l =>
  '(_, l) ← read_given_char ":" l; read_number 65535 10 None true l.

Definition read_socket_addr_v4 : parser SocketAddr := fun l =>
  '(ip, l) ← read_ipv4_addr l; '(port, l) ← read_port l; Some (V4 ip port, l).

Definition read_scope_id : parser Z := fun l =>
  '(_, l) ← read_given_char "%" l; read_number u32_max 10 None true l.

Definition read_socket_addr_v6 : parser SocketAddr := fun l =>
  '(_, l) ← read_given_char "[" l; '(ip, l) ← read_ipv6_addr l;
  let (scope, l) := match read_scope_id l with Some r => r | None => (0, l) end in
  '(_, l) ← read_given_char "]" l; '(port, l) ← read_port l; Some (V6 ip scope port, l).

(** A parse succeeds when it consumes the whole input. *)
Definition complete {A} (r : option (A * chars)) : option A :=
  match r with Some (a, []) => Some a | _ => None end.

Definition or_else {A} (p q : parser A) : parser A := fun l =>
  match p l with Some r => Some r | None => q l end.

Definition parse_socket_addr (s : string) : option SocketAddr :=
  complete (or_else read_socket_addr_v4 read_socket_addr_v6 (chars_of s)).

Definition parse_ip_addr (s : string) : option IpAddr :=
  complete (or_else (fun l => '(a, l) ← read_ipv4_addr l; Some (IpV4 a, l))
                    (fun l => '(a, l) ← read_ipv6_addr l; Some (IpV6 a, l)) (chars_of s)).

(** [str::parse::<Ipv4Addr>()] refuses anything longer than 15 bytes. *)
Definition parse_ipv4_addr (s : string) : option (list Z) :=
  if 15 <? str_len s then None else complete (read_ipv4_addr (chars_of s)).

Example parse_v4 : parse_socket_addr "127.0.0.1:4000" = Some (V4 [127; 0; 0; 1] 4000).
Proof. reflexivity. Qed.
Example parse_v4_leading_zero : parse_socket_addr "127.0.0.01:4000" = None.
Proof. reflexivity. Qed.
Example parse_v6 : parse_socket_addr "[::ffff:1.2.3.4]:443" = Some (V6 [0; 0; 0; 0; 0; 65535; 258; 772] 0 443).
Proof. reflexivity. Qed.
Example parse_v6_scope : parse_socket_addr "[fe80::1%3]:443" = Some (V6 [65152; 0; 0; 0; 0; 0; 0; 1] 3 443).
Proof. reflexivity. Qed.
Example parse_port_overflow : parse_socket_addr "1.2.3.4:65536" = None.
Proof. reflexivity. Qed.

End Net.
