(* ===== verification/Text.v ===== *)
(** * Rust's text functions

    [str::lines], [split_ascii_whitespace], [find] and [rfind], and the lemmas
    on strings as lists of characters that the parsers and printers share. *)

From S2P Require Import Prelude Net.
From Stdlib Require Import Ascii.

Module Text.
Import Net.

(** ** Strings as lists *)
Lemma chars_of_app a b : chars_of (a +:+ b) = chars_of a ++ chars_of b.
Proof. unfold chars_of. induction a as [|c a IH]; [done|]. exact (f_equal (cons c) IH). Qed.

Lemma chars_of_inj a b : chars_of a = chars_of b -> a = b.
Proof.
  unfold chars_of. intros H. by rewrite <- (String.string_of_list_ascii_of_string a), H, String.string_of_list_ascii_of_string.
Qed.

Lemma chars_of_of_chars l : chars_of (of_chars l) = l.
Proof. apply String.list_ascii_of_string_of_list_ascii. Qed.

Lemma of_chars_of s : of_chars (chars_of s) = s.
Proof. apply String.string_of_list_ascii_of_string. Qed.

Lemma of_chars_app a b : of_chars (a ++ b) = of_chars a +:+ of_chars b.
Proof. apply chars_of_inj. by rewrite chars_of_app, !chars_of_of_chars. Qed.

Lemma as_bytes_app a b : as_bytes (a +:+ b) = as_bytes a ++ as_bytes b.
Proof. unfold as_bytes. induction a as [|c a IH]; [done|]. exact (f_equal (cons _) IH). Qed.

Lemma append_assoc a b c : a +:+ (b +:+ c) = (a +:+ b) +:+ c.
Proof. apply chars_of_inj. rewrite !chars_of_app. apply app_assoc. Qed.

Lemma length_chars s : length (chars_of s) = String.length s.
Proof. unfold chars_of. induction s; cbn; congruence. Qed.

(** A property of all characters, by evaluating it on each. *)
Lemma forall_ascii (Q : ascii -> bool) :
  forallb Q (ascii_of_nat <$> seq 0 256) = true -> forall c, Q c = true.
Proof.
  intros Hall c. rewrite forallb_forall in Hall. apply Hall, list_elem_of_In, list_elem_of_fmap.
  exists (nat_of_ascii c). split; [by rewrite ascii_nat_embedding|].
  apply elem_of_seq. pose proof (nat_ascii_bounded c). lia.
Qed.

(** ** Splitting *)

(** What precedes the first separator, and what follows it. *)
Fixpoint break_at (sep : ascii) (l : chars) : chars * option chars :=
  match l with
  | [] => ([], None)
  | c :: l => if bool_decide (c = sep) then ([], Some l)
              else let (a, b) := break_at sep l in (c :: a, b)
  end.

Lemma break_at_app sep a b : Forall (fun c => c <> sep) a -> break_at sep (a ++ sep :: b) = (a, Some b).
Proof. induction 1 as [|c a Hc Ha IH]; cbn; [by rewrite bool_decide_true|]. by rewrite bool_decide_false, IH. Qed.

Lemma break_at_none sep a : Forall (fun c => c <> sep) a -> break_at sep a = (a, None).
Proof. induction 1 as [|c a Hc Ha IH]; cbn; [done|]. by rewrite bool_decide_false, IH. Qed.

Lemma break_at_spec sep l a r : break_at sep l = (a, r) ->
  Forall (fun c => c <> sep) a /\ l = a ++ match r with Some b => sep :: b | None => [] end.
Proof.
  revert a r. induction l as [|c l IH]; intros a r; cbn; [intros [= <- <-]; split; [constructor|done]|].
  case_bool_decide as Hc; [intros [= <- <-]; subst; split; [constructor|done]|].
  destruct (break_at sep l) as [a' r'] eqn:E. intros [= <- <-]. destruct (IH _ _ eq_refl) as [? ->].
  split; [by constructor|done].
Qed.

(** [str::lines]: the text up to each line feed, without the carriage return
    before it; what follows the last line feed is a line if it is not empty. *)
Definition newline : ascii := ascii_of_nat 10.
Definition carriage_return : ascii := ascii_of_nat 13.

Definition strip_cr (l : chars) : chars :=
  match rev l with c :: r => if bool_decide (c = carriage_return) then rev r else l | [] => l end.

Fixpoint lines_fuel (n : nat) (l : chars) : list chars :=
  match n, l with
  | O, _ | _, [] => []
  | S n, _ => match break_at newline l with
              | (a, Some b) => strip_cr a :: lines_fuel n b
              | (a, None) => [a]
              end
  end.
Definition lines (s : string) : list string := of_chars <$> lines_fuel (String.length s) (chars_of s).

(** The fuel is enough: each line takes at least one character. *)
Lemma lines_fuel_enough n m l : (length l <= n)%nat -> (length l <= m)%nat -> lines_fuel n l = lines_fuel m l.
Proof.
  revert m l. induction n as [|n IH]; intros m l Hn Hm; [destruct l; [by destruct m|cbn in Hn; lia]|].
  destruct m as [|m]; [destruct l; [done|cbn in Hm; lia]|]. destruct l as [|c l]; [done|].
  cbn [lines_fuel]. destruct (break_at newline (c :: l)) as [a [b|]] eqn:E; [|done].
  apply break_at_spec in E as [_ E]. assert (Hb : (length b < length (c :: l))%nat) by (rewrite E, length_app; cbn; lia).
  f_equal. apply IH; cbn in *; lia.
Qed.

(** A line that is printed and ended with a line feed is read back. *)
Lemma lines_cons a s : Forall (fun c => c <> newline /\ c <> carriage_return) (chars_of a) ->
  lines (a +:+ of_chars [newline] +:+ s) = a :: lines s.
Proof.
  intros Ha. unfold lines. set (t := a +:+ of_chars [newline] +:+ s).
  assert (Ht : chars_of t = chars_of a ++ newline :: chars_of s) by (unfold t; by rewrite !chars_of_app, chars_of_of_chars).
  assert (Hl : String.length t = S (String.length a + String.length s)).
  { rewrite <- !length_chars, Ht, length_app. cbn. lia. }
  rewrite Ht, Hl. assert (Hne : chars_of a ++ newline :: chars_of s <> []) by by destruct (chars_of a).
  cbn [lines_fuel]. destruct (chars_of a ++ newline :: chars_of s) as [|c l] eqn:E; [done|]. rewrite <- E.
  rewrite break_at_app by (eapply Forall_impl; [done|]; naive_solver). cbn [fmap list_fmap]. f_equal.
  - unfold strip_cr. destruct (rev (chars_of a)) as [|c' r] eqn:Er; [apply of_chars_of|].
    rewrite bool_decide_false; [apply of_chars_of|]. rewrite Forall_forall in Ha.
    apply (Ha c'). rewrite <- (rev_involutive (chars_of a)), Er. cbn. set_solver.
  - f_equal. apply lines_fuel_enough; rewrite ?length_chars; lia.
Qed.

Lemma lines_nil : lines "" = [].
Proof. done. Qed.

(** [str::split_ascii_whitespace]. *)
Fixpoint words_acc (acc : chars) (l : chars) : list chars :=
  match l with
  | [] => if bool_decide (acc = []) then [] else [rev acc]
  | c :: l => if is_ascii_whitespace c then (if bool_decide (acc = []) then [] else [rev acc]) ++ words_acc [] l
              else words_acc (c :: acc) l
  end.
Definition split_ascii_whitespace (s : string) : list string := of_chars <$> words_acc [] (chars_of s).

Definition solid (l : chars) : Prop := Forall (fun c => is_ascii_whitespace c = false) l.

Lemma words_acc_solid acc w l : solid w -> words_acc acc (w ++ l) = words_acc (rev w ++ acc) l.
Proof.
  intros Hw. revert acc. induction Hw as [|c w Hc Hw IH]; intros acc; [done|]. cbn. rewrite Hc, IH. by rewrite <- app_assoc.
Qed.

Lemma words_acc_cons w l : w <> [] -> solid w -> words_acc [] (w ++ " "%char :: l) = w :: words_acc [] l.
Proof.
  intros Hne Hw. rewrite words_acc_solid by done. rewrite app_nil_r. cbn [words_acc]. change (is_ascii_whitespace " ") with true. cbv iota.
  rewrite bool_decide_false; [by rewrite rev_involutive|]. intros E. apply Hne. by rewrite <- (rev_involutive w), E.
Qed.

Lemma words_acc_last w : w <> [] -> solid w -> words_acc [] w = [w].
Proof.
  intros Hne Hw. rewrite <- (app_nil_r w) at 1. rewrite words_acc_solid by done. rewrite app_nil_r. cbn.
  rewrite bool_decide_false; [by rewrite rev_involutive|]. intros E. apply Hne. by rewrite <- (rev_involutive w), E.
Qed.

(** [str::split_whitespace]: at characters of the whole Unicode white space. *)
Definition flush (acc : chars) : list chars := if bool_decide (acc = []) then [] else [rev acc].
Fixpoint unicode_words (acc : chars) (l : chars) : list chars :=
  match l with
  | [] => flush acc
  | a :: l1 =>
      if whitespace1 a then flush acc ++ unicode_words [] l1 else
      match l1 with
      | [] => unicode_words (a :: acc) l1
      | b :: l2 =>
          if whitespace2 a b then flush acc ++ unicode_words [] l2 else
          match l2 with
          | [] => unicode_words (a :: acc) l1
          | c :: l3 => if whitespace3 a b c then flush acc ++ unicode_words [] l3 else unicode_words (a :: acc) l1
          end
      end
  end.
Definition split_whitespace (s : string) : list string := of_chars <$> unicode_words [] (chars_of s).

Lemma flush_word acc : acc <> [] -> flush acc = [rev acc].
Proof. intros H. unfold flush. by rewrite bool_decide_false. Qed.

(** A word consists of characters of its text. *)
Lemma unicode_words_in acc l w : w ∈ unicode_words acc l -> forall c, c ∈ w -> c ∈ acc \/ c ∈ l.
Proof.
  remember (length l) as n eqn:Hn. revert acc l Hn. induction n as [n IH] using lt_wf_ind. intros acc l -> Hw c Hc.
  assert (Hf : forall acc', w ∈ flush acc' -> c ∈ acc').
  { intros acc'. unfold flush. case_bool_decide; [set_solver|]. intros ->%list_elem_of_singleton.
    apply list_elem_of_In, in_rev, list_elem_of_In. done. }
  assert (Hk : forall acc' l', (length l' < length l)%nat -> w ∈ unicode_words acc' l' -> c ∈ acc' \/ c ∈ l').
  { intros acc' l' Hl Hin. by eapply (IH (length l')). }
  destruct l as [|a [|b [|d l]]]; cbn [unicode_words] in Hw; repeat case_match;
    rewrite ?elem_of_app in Hw; repeat match type of Hw with _ \/ _ => destruct Hw as [Hw|Hw] end;
    first [apply Hf in Hw; set_solver | apply Hk in Hw; [set_solver|cbn; lia] | set_solver].
Qed.

(** ** Splitting at the last separator, [str::rfind]. *)
Definition rsplit_at (sep : ascii) (s : string) : option (string * string) :=
  match break_at sep (rev (chars_of s)) with
  | (after, Some before) => Some (of_chars (rev before), of_chars (rev after))
  | (_, None) => None
  end.

Lemma rsplit_at_app sep a b : sep ∉ chars_of b -> rsplit_at sep (a +:+ of_chars [sep] +:+ b) = Some (a, b).
Proof.
  intros Hb. unfold rsplit_at. rewrite !chars_of_app, chars_of_of_chars, !rev_app_distr, <- app_assoc. cbn [rev app].
  rewrite break_at_app; [by rewrite !rev_involutive, !of_chars_of|].
  apply Forall_forall. intros c Hc ->. apply Hb. by apply list_elem_of_In, in_rev, list_elem_of_In.
Qed.

(** ** Trimming *)

(** Text that starts and ends with visible ASCII characters is left alone. *)
Definition visible (c : ascii) : bool := is_ascii_graphic c.

Lemma trim_front_visible w2 w3 c l :
  (forall x, w2 c x = false) -> (forall x y, w3 c x y = false) -> visible c = true ->
  trim_front w2 w3 (c :: l) = c :: l.
Proof.
  intros H2 H3 Hc. cbn. assert (whitespace1 c = false) as ->.
  { unfold visible, is_ascii_graphic, whitespace1, in_range in *. bool_props. apply orb_false_iff. split.
    - apply andb_false_iff. right. apply Z.leb_gt. lia.
    - apply Z.eqb_neq. lia. }
  destruct l as [|a l]; [done|]. rewrite H2. destruct l as [|b l]; [done|]. by rewrite H3.
Qed.

Lemma visible_code c : visible c = true -> 33 <= code c <= 126.
Proof. unfold visible, is_ascii_graphic, in_range. intros H. bool_props. lia. Qed.

Lemma code_ne c n : code c < n -> (code c =? n) = false.
Proof. intros. apply Z.eqb_neq. lia. Qed.

Lemma trim_visible s a b l : chars_of s = a :: l -> last (a :: l) = Some b -> visible a = true -> visible b = true -> trim s = s.
Proof.
  intros Hs Hb Va Vb. apply visible_code in Va as Ca, Vb as Cb. unfold trim. rewrite Hs.
  rewrite (trim_front_visible whitespace2 whitespace3); [| | |done].
  2: { intros x. unfold whitespace2. by rewrite (code_ne a) by lia. }
  2: { intros x y. unfold whitespace3. by rewrite !(code_ne a) by lia. }
  apply last_Some in Hb as [r Hr]. rewrite Hr, rev_app_distr. cbn [rev app].
  rewrite trim_front_visible; [| | |done].
  - change (b :: rev r) with (rev [b] ++ rev r). rewrite <- rev_app_distr, rev_involutive, <- Hr, <- Hs. apply of_chars_of.
  - intros x. unfold whitespace2. by rewrite !(code_ne b), andb_false_r by lia.
  - intros x y. unfold whitespace3. rewrite !(code_ne b) by lia. unfold in_range.
    assert ((128 <=? code b) = false) as -> by (apply Z.leb_gt; lia). cbn. by rewrite !andb_false_r.
Qed.
End Text.
