(* ===== verification/Urls.v ===== *)
(** * URLs

    The parts of [reqwest::Url] (the url crate) that the sources look at, as an
    interface, with what its documentation says of origins. *)

From S2P Require Import Prelude Net Text.

Module Urls.

Record Url := {
  scheme : string;
  username : string;
  password : option string;
  host_str : option string;
  port_or_known_default : option Z;
  path : string;
  query : option string;
  fragment : option string;
  (** [origin().ascii_serialization()] *)
  origin : string
}.

(** [Url::parse]. *)
Class UrlParser := { url_parse : string -> result string Url }.

Definition web_scheme (u : Url) : bool := bool_decide (scheme u = "http") || bool_decide (scheme u = "https").

Class UrlLaws (U : UrlParser) : Prop := {
  (** The serialization of the origin of a web URL is a URL with that origin and nothing else. *)
  origin_parses i u : url_parse i = Ok u -> web_scheme u = true -> is_Some (host_str u) ->
    exists u', url_parse (origin u) = Ok u' /\ origin u' = origin u /\ web_scheme u' = true /\
      username u' = "" /\ password u' = None /\ is_Some (host_str u') /\ path u' = "/" /\
      query u' = None /\ fragment u' = None;
  (** It is ASCII text without spaces, and not empty. *)
  origin_visible i u : url_parse i = Ok u -> web_scheme u = true ->
    origin u <> "" /\ Net.all_char Text.visible (origin u) = true
}.
End Urls.
