(* ===== verification/OrderedMap.v ===== *)
(** * A map with an insertion queue

    Several stores of the program pair a [HashMap] with a [VecDeque] of its
    keys in insertion order, so that a full store can drop its oldest key:
    [PeerNonces] and [ReplayState] (shared/protocol/src/replay_registry.rs) and
    [SeenQueries] (podmesh-agent/src/machine/seen.rs).  This file holds the
    invariant they share and the lemmas by which their operations keep it. *)

From S2P Require Import Prelude.

Section OrderedMap.
Context {K V : Type} `{Countable K}.
Implicit Types (m : gmap K V) (q : list K).

(** The queue lists every key of the map exactly once. *)
Definition ordered (m : gmap K V) (q : list K) : Prop :=
  NoDup q /\ forall k, k ∈ q <-> is_Some (m !! k).

Lemma ordered_empty : ordered ∅ [].
Proof. split; [constructor|]. intros k. rewrite lookup_empty. split; [by intros ?%not_elem_of_nil|by intros []]. Qed.

Lemma ordered_len m q : ordered m q -> len q = map_len m.
Proof.
  intros [Hnd Hk]. unfold len, map_len. f_equal.
  assert (dom m = list_to_set q) as Hdom.
  { apply set_eq. intros k. by rewrite elem_of_dom, elem_of_list_to_set, Hk. }
  rewrite <- size_dom, Hdom. symmetry. by apply size_list_to_set.
Qed.

Lemma ordered_push m q k v :
  ordered m q -> m !! k = None -> ordered (<[k:=v]> m) (q ++ [k]).
Proof.
  intros [Hnd Hk] Hnone. split.
  - apply NoDup_app. split; [done|]. split; [|apply NoDup_singleton].
    intros x Hx ->%list_elem_of_singleton. apply Hk in Hx. rewrite Hnone in Hx. by destruct Hx.
  - intros x. rewrite elem_of_app, list_elem_of_singleton, Hk, lookup_insert_is_Some.
    destruct (decide (k = x)); naive_solver.
Qed.

Lemma ordered_pop m k q : ordered m (k :: q) -> ordered (delete k m) q.
Proof.
  intros [Hnd Hk]. apply NoDup_cons in Hnd as [Hni Hnd]. split; [done|].
  intros x. rewrite lookup_delete_is_Some, <- Hk, elem_of_cons. split.
  - intros Hx. split; [|by right]. intros ->. done.
  - intros [? [->|]]; done.
Qed.

(** Overwriting the value of a key that is already queued. *)
Lemma ordered_update m q k v :
  ordered m q -> is_Some (m !! k) -> ordered (<[k:=v]> m) q.
Proof.
  intros [Hnd Hk] Hs. split; [done|]. intros x.
  rewrite Hk, lookup_insert_is_Some. destruct (decide (k = x)); naive_solver.
Qed.

(** [map.retain(f); queue.retain(|k| map.contains_key(k))]. *)
Lemma ordered_retain m q (m' : gmap K V) :
  ordered m q -> (forall k, is_Some (m' !! k) -> is_Some (m !! k)) ->
  ordered m' (list_retain (fun k => contains_key k m') q).
Proof.
  intros [Hnd Hk] Hsub. split; [by apply NoDup_list_retain|].
  intros k. rewrite elem_of_list_retain, contains_key_true, Hk. naive_solver.
Qed.

Lemma ordered_nil_inv m : ordered m [] -> m = ∅.
Proof.
  intros [_ Hk]. apply map_empty. intros k. apply eq_None_not_Some.
  intros Hs%Hk. by apply not_elem_of_nil in Hs.
Qed.

Lemma ordered_head m k q : ordered m (k :: q) -> is_Some (m !! k).
Proof. intros [_ Hk]. apply Hk. left. Qed.

End OrderedMap.

#[export] Hint Resolve ordered_empty ordered_push ordered_pop ordered_update : podmesh.
