(* ===== verification/ReplayRegistry.v ===== *)
(** * Replay protection for workload envelopes

    Models shared/protocol/src/replay_registry.rs: the limits and their
    validation, the per-peer nonce window ([PeerNonces]) and the process-wide
    registry ([PeerReplayRegistry]) with its eviction of expired and oldest
    peers.  The mutex makes each call atomic, so a history of calls is a list
    of requests run one after the other. *)

From S2P Require Import Prelude OrderedMap.

Module Replay.

Definition DEFAULT_REPLAY_MAX_PEERS : Z := 10000.
Definition DEFAULT_REPLAY_NONCES_PER_PEER : Z := 1000.
Definition DEFAULT_REPLAY_MAX_NONCE_BYTES : Z := 128.
Definition DEFAULT_REPLAY_RETENTION : Z := from_secs 120.
Definition MAX_REPLAY_PEERS : Z := 10000.
Definition MAX_REPLAY_NONCES_PER_PEER : Z := 1000.
Definition MIN_REPLAY_NONCE_BYTES : Z := 36.
Definition MAX_REPLAY_NONCE_BYTES : Z := 128.
Definition MIN_REPLAY_RETENTION : Z := from_secs 60.
Definition MAX_REPLAY_RETENTION : Z := from_secs 300.

Inductive replay_error :=
| PeerLimitRange | NonceLimitRange | NonceByteRange | RetentionRange
| PeerIdEmpty | NonceEmpty | NonceTooLong | ReplayDetected.

Record ReplayLimits := {
  max_peers : Z;
  nonces_per_peer : Z;
  max_nonce_bytes : Z;
  retention : Z
}.

Definition default_limits : ReplayLimits := {|
  max_peers := DEFAULT_REPLAY_MAX_PEERS;
  nonces_per_peer := DEFAULT_REPLAY_NONCES_PER_PEER;
  max_nonce_bytes := DEFAULT_REPLAY_MAX_NONCE_BYTES;
  retention := DEFAULT_REPLAY_RETENTION |}.

Definition validate (l : ReplayLimits) : result replay_error ReplayLimits :=
  ensure! in_range 1 MAX_REPLAY_PEERS (max_peers l) else Err PeerLimitRange ;;
  ensure! in_range 1 MAX_REPLAY_NONCES_PER_PEER (nonces_per_peer l) else Err NonceLimitRange ;;
  ensure! in_range MIN_REPLAY_NONCE_BYTES MAX_REPLAY_NONCE_BYTES (max_nonce_bytes l)
    else Err NonceByteRange ;;
  ensure! in_range MIN_REPLAY_RETENTION MAX_REPLAY_RETENTION (retention l)
    else Err RetentionRange ;;
  Ok l.

Record PeerNonces := {
  seen : gmap string Z;
  order : list string
}.

Definition empty_nonces : PeerNonces := {| seen := ∅; order := [] |}.

(** The [while let] loop of [prune_expired]: it consumes the queue from the
    front until it meets a nonce that is still inside the retention window. *)
Fixpoint prune_loop (now ret : Z) (s : gmap string Z) (q : list string) : PeerNonces :=
  match q with
  | [] => {| seen := s; order := [] |}
  | nonce :: rest =>
      match s !! nonce with
      | Some recorded =>
          if ret <=? saturating_sub now recorded
          then prune_loop now ret (delete nonce s) rest
          else {| seen := s; order := q |}
      | None => prune_loop now ret s rest
      end
  end.

Definition prune_expired (p : PeerNonces) (now ret : Z) : PeerNonces :=
  prune_loop now ret (seen p) (order p).

Definition insert_nonce (p : PeerNonces) (nonce : string) (now limit : Z) : PeerNonces :=
  let p :=
    if limit <=? len (order p) then
      match order p with
      | oldest :: rest => {| seen := delete oldest (seen p); order := rest |}
      | [] => p
      end
    else p in
  {| seen := <[nonce := now]> (seen p); order := order p ++ [nonce] |}.

Record ReplayState := {
  peers : gmap string PeerNonces;
  peer_order : list string
}.

Definition empty_state : ReplayState := {| peers := ∅; peer_order := [] |}.

Record PeerReplayRegistry := { limits : ReplayLimits; state : ReplayState }.

Definition new_registry (l : ReplayLimits) : result replay_error PeerReplayRegistry :=
  match validate l with
  | Ok l => Ok {| limits := l; state := empty_state |}
  | Err e => Err e
  end.

Definition prune_expired_peers (l : ReplayLimits) (st : ReplayState) (now : Z) : ReplayState :=
  let kept :=
    map_retain (fun _ p => negb (bool_decide (seen p = ∅)))
      ((fun p => prune_expired p now (retention l)) <$> peers st) in
  {| peers := kept; peer_order := list_retain (fun id => contains_key id kept) (peer_order st) |}.

(** Drops the oldest peer when the registry is still full. *)
Definition evict_oldest_peer (l : ReplayLimits) (st : ReplayState) : ReplayState :=
  if max_peers l <=? map_len (peers st) then
    match peer_order st with
    | oldest :: rest => {| peers := delete oldest (peers st); peer_order := rest |}
    | [] => st
    end
  else st.

Definition check_and_insert (l : ReplayLimits) (st : ReplayState)
    (peer_id nonce : string) (now : Z) : ReplayState * result replay_error unit :=
  ensure! negb (str_is_empty peer_id) else (st, Err PeerIdEmpty) ;;
  ensure! negb (str_is_empty nonce) else (st, Err NonceEmpty) ;;
  ensure! str_len nonce <=? max_nonce_bytes l else (st, Err NonceTooLong) ;;
  match peers st !! peer_id with
  | Some peer =>
      let peer := prune_expired peer now (retention l) in
      let pruned := {| peers := <[peer_id := peer]> (peers st); peer_order := peer_order st |} in
      ensure! negb (contains_key nonce (seen peer)) else (pruned, Err ReplayDetected) ;;
      let peer := insert_nonce peer nonce now (nonces_per_peer l) in
      ({| peers := <[peer_id := peer]> (peers st); peer_order := peer_order st |}, Ok tt)
  | None =>
      let st := if max_peers l <=? map_len (peers st) then prune_expired_peers l st now else st in
      let st := evict_oldest_peer l st in
      let peer := insert_nonce empty_nonces nonce now (nonces_per_peer l) in
      ({| peers := <[peer_id := peer]> (peers st); peer_order := peer_order st ++ [peer_id] |}, Ok tt)
  end.

(** A request as a caller presents it. *)
Record request := { req_peer : string; req_nonce : string; req_now : Z }.

Definition serve (l : ReplayLimits) (st : ReplayState) (r : request) : ReplayState :=
  (check_and_insert l st (req_peer r) (req_nonce r) (req_now r)).1.

Fixpoint serve_all (l : ReplayLimits) (st : ReplayState) (rs : list request) : ReplayState :=
  match rs with
  | [] => st
  | r :: rs => serve_all l (serve l st r) rs
  end.

(** ** Invariant *)

Definition limits_valid (l : ReplayLimits) : Prop := validate l = Ok l.

Definition nonces_wf (l : ReplayLimits) (p : PeerNonces) : Prop :=
  ordered (seen p) (order p) /\ len (order p) <= nonces_per_peer l.

Definition state_wf (l : ReplayLimits) (st : ReplayState) : Prop :=
  ordered (peers st) (peer_order st) /\
  map_len (peers st) <= max_peers l /\
  map_Forall (fun _ p => nonces_wf l p) (peers st).

Lemma validate_ok l : limits_valid l ->
  1 <= max_peers l <= MAX_REPLAY_PEERS /\
  1 <= nonces_per_peer l <= MAX_REPLAY_NONCES_PER_PEER /\
  MIN_REPLAY_NONCE_BYTES <= max_nonce_bytes l <= MAX_REPLAY_NONCE_BYTES /\
  MIN_REPLAY_RETENTION <= retention l <= MAX_REPLAY_RETENTION.
Proof.
  unfold limits_valid, validate, in_range. intros Hv.
  repeat (case_match; [|done]). lia.
Qed.

(** What pruning does to a well-formed window: it drops a prefix of the queue
    whose nonces are all past retention, and nothing else. *)
Lemma prune_loop_spec now ret s q :
  ordered s q ->
  let p := prune_loop now ret s q in
  ordered (seen p) (order p) /\
  (exists pre, q = pre ++ order p /\
     (forall n, n ∈ pre -> exists t, s !! n = Some t /\ ret <= saturating_sub now t) /\
     (forall n, n ∉ pre -> seen p !! n = s !! n) /\
     (forall n, n ∈ pre -> seen p !! n = None)) /\
  (forall n q', order p = n :: q' ->
     exists t, seen p !! n = Some t /\ saturating_sub now t < ret).
Proof.
  revert s. induction q as [|n q IH]; intros s Ho; cbn.
  - split; [done|]. split; [|done]. exists []. split; [done|].
    split; [by intros ? ?%not_elem_of_nil|]. split; [done|by intros ? ?%not_elem_of_nil].
  - destruct (ordered_head _ _ _ Ho) as [t Ht]. rewrite Ht.
    destruct (ret <=? saturating_sub now t) eqn:E; apply Z.leb_le in E || apply Z.leb_gt in E.
    + destruct (IH (delete n s)) as (Ho' & (pre & Hq & Hexp & Hkeep & Hgone) & Hfront);
        [by apply ordered_pop|].
      split; [done|]. split; [|done]. exists (n :: pre). split; [by cbn; f_equal|].
      assert (n ∉ pre) as Hn.
      { intros Hin. destruct (Hexp _ Hin) as (? & Hl & _). by rewrite lookup_delete_eq in Hl. }
      split; [|split].
      * intros x [->|Hx]%elem_of_cons; [by eauto|].
        destruct (Hexp _ Hx) as (t' & [_ Hl]%lookup_delete_Some & ?); eauto.
      * intros x Hx. apply not_elem_of_cons in Hx as [Hne Hx].
        rewrite Hkeep by done. by rewrite lookup_delete_ne.
      * intros x [->|Hx]%elem_of_cons; [|by apply Hgone].
        rewrite Hkeep by done. apply lookup_delete_eq.
    + split; [done|]. split.
      * exists []. split; [done|]. split; [by intros ? ?%not_elem_of_nil|].
        split; [done|by intros ? ?%not_elem_of_nil].
      * intros n' q' [= <- <-]. eauto.
Qed.

Lemma prune_expired_wf l p now :
  nonces_wf l p -> nonces_wf l (prune_expired p now (retention l)).
Proof.
  intros [Ho Hl]. unfold prune_expired.
  destruct (prune_loop_spec now (retention l) _ _ Ho) as (Ho' & (pre & Hq & _) & _).
  split; [done|]. apply (f_equal len) in Hq. pose proof (len_nonneg pre). len_lia.
Qed.

Lemma insert_nonce_wf l p nonce now :
  1 <= nonces_per_peer l -> nonces_wf l p -> seen p !! nonce = None ->
  nonces_wf l (insert_nonce p nonce now (nonces_per_peer l)).
Proof.
  intros Hlim [Ho Hl] Hn. unfold insert_nonce.
  destruct (nonces_per_peer l <=? len (order p)) eqn:E;
    [apply Z.leb_le in E|apply Z.leb_gt in E].
  - destruct (order p) as [|old q] eqn:Eq; [len_lia|]. split; cbn.
    + apply ordered_push; [by eapply ordered_pop|].
      by apply lookup_delete_None; right.
    + len_lia.
  - split; cbn; [by apply ordered_push|]. len_lia.
Qed.

Lemma empty_nonces_wf l : 1 <= nonces_per_peer l -> nonces_wf l empty_nonces.
Proof. split; [apply ordered_empty|]. cbn [order empty_nonces]. len_lia. Qed.

Lemma prune_expired_peers_wf l st now :
  state_wf l st -> state_wf l (prune_expired_peers l st now).
Proof.
  intros (Ho & Hlen & Hall). split; [|split]; cbn.
  - apply (ordered_retain (V := PeerNonces) (peers st)); [done|].
    intros k [v [Hv _]%lookup_map_retain]. rewrite lookup_fmap_Some in Hv.
    destruct Hv as (? & _ & ->). eauto.
  - etrans; [apply map_len_retain_le|]. unfold map_len in *. by rewrite map_size_fmap.
  - intros k p [(p' & <- & Hp)%lookup_fmap_Some _]%lookup_map_retain.
    by apply prune_expired_wf, (Hall k).
Qed.

(** After eviction there is room for one more peer. *)
Lemma evict_oldest_peer_wf l st :
  1 <= max_peers l -> state_wf l st ->
  state_wf l (evict_oldest_peer l st) /\ map_len (peers (evict_oldest_peer l st)) < max_peers l.
Proof.
  intros Hlim (Ho & Hlen & Hall). unfold evict_oldest_peer.
  destruct (max_peers l <=? map_len (peers st)) eqn:E;
    [apply Z.leb_le in E|apply Z.leb_gt in E; done].
  pose proof (ordered_len _ _ Ho) as Hq.
  destruct (peer_order st) as [|old q]; [len_lia|].
  pose proof (map_len_delete _ _ (ordered_head _ _ _ Ho)) as Hd. cbn. split; [|lia].
  split; [by eapply ordered_pop|]. split; [cbn; lia|]. by apply map_Forall_delete.
Qed.

Lemma peers_retained_None l st now id :
  peers st !! id = None -> peers (prune_expired_peers l st now) !! id = None.
Proof.
  intros Hn. cbn. apply map_lookup_filter_None. left. by rewrite lookup_fmap, Hn.
Qed.

Lemma evict_None l st id :
  peers st !! id = None -> peers (evict_oldest_peer l st) !! id = None.
Proof.
  intros Hn. unfold evict_oldest_peer. repeat case_match; try done.
  cbn. apply lookup_delete_None. by right.
Qed.

Lemma check_and_insert_wf l st peer_id nonce now :
  limits_valid l -> state_wf l st ->
  state_wf l (check_and_insert l st peer_id nonce now).1.
Proof.
  intros (Hp & Hn & _)%validate_ok Hwf. unfold check_and_insert.
  do 3 (case_match; [|done]). destruct (peers st !! peer_id) as [p|] eqn:E.
  - destruct Hwf as (Ho & Hlen & Hall).
    pose proof (prune_expired_wf l p now (Hall _ _ E)) as Hp'.
    case_match eqn:Hc; unfold state_wf; cbn; (split; [by apply ordered_update; eauto|]);
      (split; [by rewrite map_len_insert_old by eauto|]); apply map_Forall_insert_2; auto.
    apply insert_nonce_wf; [lia|done|]. by apply contains_key_false, negb_true_iff.
  - assert (state_wf l (if max_peers l <=? map_len (peers st) then prune_expired_peers l st now else st)
      /\ peers (if max_peers l <=? map_len (peers st) then prune_expired_peers l st now else st) !! peer_id = None)
      as [Hwf' Hnone'].
    { case_match; [|done]. split; [by apply prune_expired_peers_wf|by apply peers_retained_None]. }
    revert Hwf' Hnone'. generalize (if max_peers l <=? map_len (peers st) then prune_expired_peers l st now else st).
    intros st' Hwf' Hnone'.
    destruct (evict_oldest_peer_wf l st' ltac:(lia) Hwf') as [(Ho & Hlen & Hall) Hroom].
    pose proof (evict_None l st' peer_id Hnone') as Hnone''. unfold state_wf; cbn.
    split; [by apply ordered_push|]. split; [rewrite map_len_insert_new by done; cbn; lia|].
    apply map_Forall_insert_2; [|done]. apply insert_nonce_wf; [lia|by apply empty_nonces_wf; lia|].
    apply lookup_empty.
Qed.

(** ** A recorded nonce stays recorded

    [guarded l st p n t0 a b]: peer [p] has [n] recorded at [t0] with at most
    [a] nonces queued behind it, and at most [b] peers are tracked. *)
Definition guarded (st : ReplayState) (p n : string) (t0 a b : Z) : Prop :=
  exists pn pre post,
    peers st !! p = Some pn /\ order pn = pre ++ n :: post /\ seen pn !! n = Some t0 /\
    len post <= a /\ map_len (peers st) <= b.

Lemma prune_keeps l pn n t0 now pre post :
  nonces_wf l pn -> order pn = pre ++ n :: post -> seen pn !! n = Some t0 ->
  saturating_sub now t0 < retention l ->
  exists pre', order (prune_expired pn now (retention l)) = pre' ++ n :: post /\
    seen (prune_expired pn now (retention l)) !! n = Some t0.
Proof.
  intros [Ho _] Hord Hseen Hage. unfold prune_expired.
  destruct (prune_loop_spec now (retention l) _ _ Ho) as (Ho' & (d & Hq & Hexp & Hkeep & _) & _).
  set (p' := prune_loop now (retention l) (seen pn) (order pn)) in *.
  assert (n ∉ d) as Hnd.
  { intros Hin. destruct (Hexp _ Hin) as (t & Ht & ?). rewrite Hseen in Ht. simplify_eq. lia. }
  assert (seen p' !! n = Some t0) as Hs by (by rewrite Hkeep).
  assert (n ∈ order p') as Hin by (apply Ho'; eauto).
  apply list_elem_of_split in Hin as (x & y & Hxy).
  exists x. split; [|done]. rewrite Hxy. f_equal. f_equal.
  rewrite Hxy, app_assoc, Hord in Hq.
  destruct Ho as [Hnodup _]. rewrite Hord in Hnodup.
  by destruct (NoDup_split_unique _ _ _ _ _ Hnodup Hq) as [_ ->].
Qed.

Lemma insert_keeps l pn n t0 n' now pre post :
  order pn = pre ++ n :: post -> seen pn !! n = Some t0 -> nonces_wf l pn ->
  len post + 1 < nonces_per_peer l -> n' <> n ->
  let pn' := insert_nonce pn n' now (nonces_per_peer l) in
  exists pre', order pn' = pre' ++ n :: (post ++ [n']) /\ seen pn' !! n = Some t0.
Proof.
  intros Hord Hseen [[Hnd _] Hl] Hpost Hne. unfold insert_nonce.
  destruct (nonces_per_peer l <=? len (order pn)) eqn:E;
    [apply Z.leb_le in E|apply Z.leb_gt in E]; cbn.
  - rewrite Hord in *. destruct pre as [|old pre]; [cbn in *; len_lia|]. cbn in *.
    apply NoDup_cons in Hnd as [Hni _].
    exists pre. split; [by rewrite <- app_assoc|].
    rewrite lookup_insert_ne by done. rewrite lookup_delete_ne; [done|].
    intros ->. apply Hni, elem_of_app. right. left.
  - exists pre. rewrite Hord, <- app_assoc, lookup_insert_ne by done. done.
Qed.

Lemma serve_guarded_same l st p n t0 a b nonce now :
  state_wf l st -> guarded st p n t0 a b ->
  0 < retention l -> now - t0 < retention l -> a + 1 < nonces_per_peer l -> 0 <= a ->
  guarded (check_and_insert l st p nonce now).1 p n t0 (a + 1) b.
Proof.
  intros (_ & _ & Hall) (pn & pre & post & Hp & Hord & Hseen & Ha & Hb) Hr Hage Hroom Ha0.
  assert (guarded st p n t0 (a + 1) b) as Hweak by (exists pn, pre, post; repeat split; auto; lia).
  unfold check_and_insert. do 3 (case_match; [|done]). rewrite Hp.
  pose proof (prune_expired_wf l pn now (Hall _ _ Hp)) as Hwf'.
  destruct (prune_keeps l pn n t0 now pre post (Hall _ _ Hp) Hord Hseen) as (pre1 & Hord1 & Hseen1);
    [unfold saturating_sub; lia|].
  case_match eqn:Hc.
  - apply negb_true_iff, contains_key_false in Hc.
    destruct (insert_keeps l _ n t0 nonce now pre1 post Hord1 Hseen1 Hwf') as (pre2 & Hord2 & Hseen2);
      [lia|intros ->; congruence|].
    exists (insert_nonce (prune_expired pn now (retention l)) nonce now (nonces_per_peer l)), pre2, (post ++ [nonce]). cbn.
    rewrite lookup_insert_eq, map_len_insert_old by eauto. repeat split; auto. len_lia.
  - exists (prune_expired pn now (retention l)), pre1, post. cbn.
    rewrite lookup_insert_eq, map_len_insert_old by eauto. repeat split; auto. lia.
Qed.

Lemma serve_guarded_other l st p n t0 a b p' nonce now :
  p' <> p -> guarded st p n t0 a b -> b < max_peers l ->
  guarded (check_and_insert l st p' nonce now).1 p n t0 a (b + 1).
Proof.
  intros Hne (pn & pre & post & Hp & Hord & Hseen & Ha & Hb) Hroom.
  assert (guarded st p n t0 a (b + 1)) as Hweak by (exists pn, pre, post; repeat split; auto; lia).
  unfold check_and_insert. do 3 (case_match; [|done]).
  assert ((max_peers l <=? map_len (peers st)) = false) as Hnf by (apply Z.leb_gt; lia).
  destruct (peers st !! p') as [q|] eqn:Hq.
  - case_match; exists pn, pre, post; cbn; rewrite lookup_insert_ne, map_len_insert_old by eauto;
      repeat split; auto; lia.
  - unfold evict_oldest_peer. rewrite Hnf, Hnf. exists pn, pre, post. cbn.
    rewrite lookup_insert_ne, map_len_insert_new by done. repeat split; auto; lia.
Qed.

(** Requests of a history that come from [p], and the others. *)
Definition from_peer (p : string) (rs : list request) : list request :=
  list_retain (fun r => bool_decide (req_peer r = p)) rs.
Definition from_others (p : string) (rs : list request) : list request :=
  list_retain (fun r => negb (bool_decide (req_peer r = p))) rs.

Lemma serve_all_guarded l st p n t0 a b rs :
  limits_valid l -> state_wf l st -> guarded st p n t0 a b -> 0 <= a ->
  Forall (fun r => req_now r - t0 < retention l) rs ->
  a + len (from_peer p rs) < nonces_per_peer l ->
  b + len (from_others p rs) <= max_peers l ->
  exists a' b', guarded (serve_all l st rs) p n t0 a' b' /\ state_wf l (serve_all l st rs).
Proof.
  intros Hv. pose proof (validate_ok l Hv) as (_ & _ & _ & Hret). unfold MIN_REPLAY_RETENTION, from_secs in Hret.
  revert st a b. induction rs as [|r rs IH]; intros st a b Hwf Hg Ha Hage Hp Ho; [cbn; eauto|].
  apply Forall_cons in Hage as [Hage1 Hage]. cbn [serve_all].
  pose proof (check_and_insert_wf l st (req_peer r) (req_nonce r) (req_now r) Hv Hwf) as Hwf'.
  unfold from_peer, from_others, list_retain in Hp, Ho. rewrite filter_cons in Hp, Ho.
  pose proof (len_nonneg (from_peer p rs)). pose proof (len_nonneg (from_others p rs)).
  unfold from_peer, from_others, list_retain in *.
  destruct (decide (req_peer r = p)) as [Heq|Hne].
  - rewrite decide_True in Hp by (by apply bool_decide_eq_true).
    rewrite decide_False in Ho by (by rewrite bool_decide_true).
    apply (IH _ (a + 1) b); auto; [|lia|len_lia].
    unfold serve. rewrite Heq. apply serve_guarded_same; auto; [lia|len_lia].
  - rewrite decide_False in Hp by (by rewrite bool_decide_false).
    rewrite decide_True in Ho by (by rewrite bool_decide_false).
    apply (IH _ a (b + 1)); auto; [|len_lia].
    apply serve_guarded_other; auto. len_lia.
Qed.

Lemma insert_nonce_last p nonce now limit :
  exists pre, order (insert_nonce p nonce now limit) = pre ++ [nonce] /\
    seen (insert_nonce p nonce now limit) !! nonce = Some now.
Proof.
  unfold insert_nonce. eexists. split; [cbn; reflexivity|]. cbn. apply lookup_insert_eq.
Qed.

Lemma accepted_guarded l st p n t0 st1 :
  check_and_insert l st p n t0 = (st1, Ok tt) ->
  guarded st1 p n t0 0 (map_len (peers st1)).
Proof.
  unfold check_and_insert. intros Hc. do 3 (case_match; [|done]).
  destruct (peers st !! p) as [q|] eqn:Hq; [case_match; [|done]|]; simplify_eq.
  - destruct (insert_nonce_last (prune_expired q t0 (retention l)) n t0 (nonces_per_peer l)) as (pre & Ho & Hs).
    eexists _, pre, []. cbn. rewrite lookup_insert_eq. repeat split; eauto; lia || len_lia.
  - destruct (insert_nonce_last empty_nonces n t0 (nonces_per_peer l)) as (pre & Ho & Hs).
    eexists _, pre, []. cbn [peers]. rewrite lookup_insert_eq. repeat split; eauto; lia || len_lia.
Qed.

Lemma guarded_refused l st0 st p n t0 a b t :
  state_wf l st -> guarded st p n t0 a b -> 0 < retention l -> t - t0 < retention l ->
  (check_and_insert l st0 p n t0).2 = Ok tt ->
  (check_and_insert l st p n t).2 = Err ReplayDetected.
Proof.
  intros (_ & _ & Hall) (pn & pre & post & Hp & Hord & Hseen & _) Hr Hage.
  unfold check_and_insert at 1. intros Hacc. unfold check_and_insert.
  do 3 (case_match; [|done]). clear Hacc. rewrite Hp.
  destruct (prune_keeps l pn n t0 t pre post (Hall _ _ Hp) Hord Hseen) as (pre1 & _ & Hseen1);
    [unfold saturating_sub; lia|].
  case_match eqn:Hc; [|done]. apply negb_true_iff, contains_key_false in Hc. congruence.
Qed.

Lemma serve_all_wf l st rs :
  limits_valid l -> state_wf l st -> state_wf l (serve_all l st rs).
Proof.
  intros Hv. revert st. induction rs as [|r rs IH]; intros st Hwf; [done|].
  cbn. apply IH. by apply check_and_insert_wf.
Qed.

Lemma empty_state_wf l : limits_valid l -> state_wf l empty_state.
Proof.
  intros (Hp & _)%validate_ok. split; [apply ordered_empty|]. cbn.
  rewrite map_len_empty. split; [lia|apply map_Forall_empty].
Qed.

(** Whatever requests arrive, in whatever order and with whatever clock
    readings, the registry built by [PeerReplayRegistry::new] keeps at most
    [max_peers] peers, at most [nonces_per_peer] nonces for each, and its two
    levels of queues list exactly the recorded keys, each once. *)
Theorem registry_bounded (l : ReplayLimits) (reg : PeerReplayRegistry) (rs : list request) :
  new_registry l = Ok reg ->
  let st := serve_all (limits reg) (state reg) rs in
  map_len (peers st) <= MAX_REPLAY_PEERS /\
  ordered (peers st) (peer_order st) /\
  (forall id p, peers st !! id = Some p ->
     map_len (seen p) <= nonces_per_peer l /\ ordered (seen p) (order p)).
Proof.
  unfold new_registry. destruct (validate l) as [l'|] eqn:Hval; [|done]. intros [= <-]. cbn.
  assert (l' = l) as -> by (revert Hval; unfold validate; repeat case_match; congruence).
  pose proof (validate_ok l Hval) as (Hmax & _).
  destruct (serve_all_wf l empty_state rs Hval (empty_state_wf l Hval)) as (Ho & Hlen & Hall).
  split; [lia|]. split; [done|]. intros id p Hp. destruct (Hall id p Hp) as [Ho' Hl'].
  by rewrite <- (ordered_len _ _ Ho').
Qed.

(** A nonce that was accepted is refused while it is retained. *)
Lemma refused_again (l : ReplayLimits) (st0 st1 : ReplayState) (p n : string) (t0 t : Z)
    (mid : list request) :
  limits_valid l -> state_wf l st0 ->
  check_and_insert l st0 p n t0 = (st1, Ok tt) ->
  Forall (fun r => req_now r - t0 < retention l) mid ->
  t - t0 < retention l ->
  len (from_peer p mid) < nonces_per_peer l ->
  map_len (peers st1) + len (from_others p mid) <= max_peers l ->
  (check_and_insert l (serve_all l st1 mid) p n t).2 = Err ReplayDetected.
Proof.
  intros Hv Hwf0 Hacc Hage Ht Hp Ho.
  pose proof (validate_ok l Hv) as (_ & _ & _ & Hret). unfold MIN_REPLAY_RETENTION, from_secs in Hret.
  assert (state_wf l st1) as Hwf1.
  { pose proof (check_and_insert_wf l st0 p n t0 Hv Hwf0) as H. by rewrite Hacc in H. }
  destruct (serve_all_guarded l st1 p n t0 0 (map_len (peers st1)) mid) as (a & b & Hg & Hwf);
    try done; [by eapply accepted_guarded|].
  eapply guarded_refused; eauto; [lia|]. by rewrite Hacc.
Qed.

(** C40. Replay protection.  Once a nonce of a peer has been accepted at [t0],
    presenting it again before the retention has elapsed is refused as a replay,
    whatever is served in between, as long as the peer itself sent fewer than
    [nonces_per_peer] requests meanwhile and the requests of other peers did
    not fill the registry. *)
Theorem replay_refused (l : ReplayLimits) (st0 st1 : ReplayState) (p n : string) (t0 t : Z)
    (mid : list request) :
  limits_valid l -> state_wf l st0 ->
  check_and_insert l st0 p n t0 = (st1, Ok tt) ->
  Forall (fun r => req_now r - t0 < retention l) mid ->
  t - t0 < retention l ->
  len (from_peer p mid) < nonces_per_peer l ->
  map_len (peers st1) + len (from_others p mid) <= max_peers l ->
  (check_and_insert l (serve_all l st1 mid) p n t).2 = Err ReplayDetected.
Proof. apply refused_again. Qed.

Definition nonce_a : string := "aaaaaaaa-aaaa-aaaa-aaaa-aaaaaaaaaaaa".
Definition nonce_b : string := "bbbbbbbb-bbbb-bbbb-bbbb-bbbbbbbbbbbb".

Lemma registry_bounded_witness :
  map_len (peers (serve_all default_limits empty_state
    [ {| req_peer := "peer-a"; req_nonce := nonce_a; req_now := 0 |};
      {| req_peer := "peer-b"; req_nonce := nonce_a; req_now := 5 |} ])) <= 10000.
Proof.
  destruct (registry_bounded default_limits {| limits := default_limits; state := empty_state |}
    [ {| req_peer := "peer-a"; req_nonce := nonce_a; req_now := 0 |};
      {| req_peer := "peer-b"; req_nonce := nonce_a; req_now := 5 |} ]) as [H _];
    [reflexivity|exact H].
Defined.

Lemma replay_refused_witness :
  (check_and_insert default_limits
     (serve_all default_limits
        (check_and_insert default_limits empty_state "peer-a" nonce_a 0).1
        [ {| req_peer := "peer-a"; req_nonce := nonce_b; req_now := 7 |};
          {| req_peer := "peer-b"; req_nonce := nonce_a; req_now := 8 |} ])
     "peer-a" nonce_a 9).2 = Err ReplayDetected.
Proof.
  apply (replay_refused default_limits empty_state
    (check_and_insert default_limits empty_state "peer-a" nonce_a 0).1 "peer-a" nonce_a 0 9).
  - reflexivity.
  - by apply empty_state_wf.
  - vm_compute. reflexivity.
  - repeat constructor.
  - reflexivity.
  - reflexivity.
  - vm_compute. discriminate.
Defined.
End Replay.
