(* ===== verification/SeenQueries.v ===== *)
(** * Deduplication of capacity queries at the agent

    Models podmesh-agent/src/machine/seen.rs: the bounded memory of the
    (signer, query id) pairs an agent has already answered. *)

From S2P Require Import Prelude OrderedMap.

Module Seen.

Inductive seen_error := CapacityIsZero.

Record SeenQueries := {
  entries : gmap (string * string) Z;
  order : list (string * string);
  capacity : Z
}.

Definition new (capacity : Z) : SeenQueries :=
  {| entries := ∅; order := []; capacity := capacity |}.

Definition remove_expired (s : SeenQueries) (now_secs : Z) : SeenQueries :=
  let kept := map_retain (fun _ expiry => now_secs <=? expiry) (entries s) in
  {| entries := kept;
     order := list_retain (fun key => contains_key key kept) (order s);
     capacity := capacity s |}.

Definition insert (s : SeenQueries) (signer query_id : string)
    (expires_at_secs now_secs : Z) : SeenQueries * result seen_error bool :=
  let s := remove_expired s now_secs in
  let key := (signer, query_id) in
  if contains_key key (entries s) then (s, Ok false) else
  ensure! 0 <? capacity s else (s, Err CapacityIsZero) ;;
  let s :=
    if map_len (entries s) =? capacity s then
      match order s with
      | evicted :: rest =>
          {| entries := delete evicted (entries s); order := rest; capacity := capacity s |}
      | [] => s
      end
    else s in
  ({| entries := <[key := expires_at_secs]> (entries s);
      order := order s ++ [key];
      capacity := capacity s |}, Ok true).

Definition wf (s : SeenQueries) : Prop :=
  ordered (entries s) (order s) /\ map_len (entries s) <= capacity s.

Lemma remove_expired_wf s now : wf s -> wf (remove_expired s now).
Proof.
  intros [Ho Hl]. split; cbn.
  - apply (ordered_retain (entries s)); [done|]. intros k [v [Hv _]%lookup_map_retain]. eauto.
  - etrans; [apply map_len_retain_le|done].
Qed.

(** The key an eviction gives up, if any. *)
Definition evicted_key (s : SeenQueries) : option (string * string) :=
  if map_len (entries s) =? capacity s then head (order s) else None.

(** The state after the eviction step is the state without [evicted_key], and
    has room for the new entry. *)
Lemma evict_room (s : SeenQueries) :
  wf s -> 0 < capacity s ->
  let s' := if map_len (entries s) =? capacity s then
              match order s with
              | evicted :: rest =>
                  {| entries := delete evicted (entries s); order := rest; capacity := capacity s |}
              | [] => s
              end
            else s in
  ordered (entries s') (order s') /\ map_len (entries s') < capacity s' /\ capacity s' = capacity s /\
  (forall k, entries s' !! k = if decide (evicted_key s = Some k) then None else entries s !! k).
Proof.
  intros [Ho Hl] Hc. unfold evicted_key. destruct (map_len (entries s) =? capacity s) eqn:E;
    [apply Z.eqb_eq in E|apply Z.eqb_neq in E].
  - pose proof (ordered_len _ _ Ho). destruct (order s) as [|k q]; [len_lia|].
    pose proof (map_len_delete _ _ (ordered_head _ _ _ Ho)). cbn.
    split; [by eapply ordered_pop|]. split; [lia|]. split; [done|]. intros x.
    rewrite lookup_delete. repeat case_decide; congruence.
  - repeat split; try apply Ho; try lia.
Qed.

(** One call of [SeenQueries::insert] on a store within its capacity: the
    answer is [false] exactly for a pair recorded with an expiry that has not
    passed, [true] for any other pair, and never an error while the capacity is
    positive; a new pair is then recorded with its expiry, no unexpired pair is
    lost except the oldest one of a full store, and the capacity is never
    exceeded. *)
Theorem insert_spec (s : SeenQueries) (signer query_id : string) (expiry now : Z) :
  wf s -> 0 < capacity s ->
  let live k := exists e, entries s !! k = Some e /\ now <= e in
  let s' := (insert s signer query_id expiry now).1 in
  let r := (insert s signer query_id expiry now).2 in
  wf s' /\
  (r = Ok false <-> live (signer, query_id)) /\
  (r = Ok true <-> ~ live (signer, query_id)) /\
  (r = Ok true -> entries s' !! (signer, query_id) = Some expiry) /\
  (forall k e, k <> (signer, query_id) -> entries s !! k = Some e -> now <= e ->
     r = Ok false \/ Some k <> evicted_key (remove_expired s now) -> entries s' !! k = Some e).
Proof.
  intros Hwf Hc live s' r. subst s' r. pose proof (remove_expired_wf s now Hwf) as Hwf'.
  assert (forall k e, entries (remove_expired s now) !! k = Some e <->
    entries s !! k = Some e /\ now <= e) as Hkept.
  { intros k e. cbn. rewrite lookup_map_retain. by rewrite Z.leb_le. }
  assert (live (signer, query_id) <-> is_Some (entries (remove_expired s now) !! (signer, query_id))) as Hlive.
  { unfold live, is_Some. by setoid_rewrite Hkept. }
  unfold insert. destruct (contains_key _ _) eqn:Ek.
  - apply contains_key_true in Ek. apply Hlive in Ek.
    split; [done|]. split; [by split|]. split; [by split|]. split; [done|].
    intros k e _ Hk He _. by apply Hkept.
  - apply contains_key_false in Ek.
    assert (~ live (signer, query_id)) as Hnl by (rewrite Hlive, Ek; by intros []).
    replace (0 <? capacity (remove_expired s now)) with true by (symmetry; by apply Z.ltb_lt).
    destruct (evict_room (remove_expired s now) Hwf' Hc) as (Ho & Hroom & Hcap & Hlk).
    revert Ho Hroom Hcap Hlk. cbv zeta. generalize (if map_len (entries (remove_expired s now)) =? capacity (remove_expired s now) then
      match order (remove_expired s now) with [] => remove_expired s now
      | evicted :: rest => {| entries := delete evicted (entries (remove_expired s now)); order := rest;
                              capacity := capacity (remove_expired s now) |} end
      else remove_expired s now).
    intros s' Ho Hroom Hcap Hlk.
    assert (entries s' !! (signer, query_id) = None) as Hn by (rewrite Hlk; by case_decide).
    split.
    { split; cbn; [by apply ordered_push|]. rewrite map_len_insert_new by done. lia. }
    split; [by split|]. split; [by split|]. split; [intros _; apply lookup_insert_eq|].
    intros k e Hne Hk He Hev. cbn. rewrite lookup_insert_ne by done. rewrite Hlk.
    rewrite decide_False by (destruct Hev as [?|Hev]; [done|by intros ?; apply Hev]). by apply Hkept.
Qed.

Definition sample : SeenQueries :=
  {| entries := {[("a", "1") := 10; ("b", "2") := 4]}; order := [("b", "2"); ("a", "1")]; capacity := 2 |}.

Lemma sample_wf : wf sample.
Proof.
  split; [|by vm_compute]. split; [by apply (bool_decide_unpack _); vm_compute|].
  intros k. cbn. rewrite elem_of_cons, list_elem_of_singleton, lookup_insert_is_Some, lookup_singleton_is_Some.
  destruct (decide (("a", "1") = k)); naive_solver.
Qed.

Lemma insert_spec_witness :
  0 < capacity sample /\ entries (insert sample "c" "3" 12 9).1 !! ("c", "3") = Some 12.
Proof.
  split; [reflexivity|].
  pose proof (insert_spec sample "c" "3" 12 9 sample_wf ltac:(reflexivity)) as H.
  cbv zeta in H. destruct H as (_ & _ & _ & H & _). apply H. vm_compute. reflexivity.
Defined.

End Seen.
