(* ===== verification/Crypto.v ===== *)
(** * Signatures and sealed payloads

    Models shared/crypto/src/domain.rs (the signature domains and the bytes
    Ed25519 signs) and the signing, sealing and opening functions of
    shared/crypto/src/lib.rs.  The primitives come from other crates
    (ed25519-dalek, x25519-dalek, chacha20poly1305, blake3, base64) and are the
    operations of the class [Primitives]; what the code relies on of them is
    the class [PrimitiveLaws].  Randomness is an argument. *)

From S2P Require Import Prelude.

(** [anyhow::Error], by its message. *)
Abbreviation Result A := (result string A).

Module Crypto.

Definition SEALED_BLOB_VERSION : byte := Byte.x04.
Definition KEM_KDF_CONTEXT : string := "podmesh 2026-01-01 sealed-box v4 xchacha20poly1305 key".
Definition ED25519_PUBLIC_KEY_SIZE : Z := 32.
Definition ED25519_PRIVATE_KEY_SIZE : Z := 32.
Definition ED25519_SIGNATURE_SIZE : Z := 64.
Definition X25519_PUBLIC_KEY_SIZE : Z := 32.
Definition XCHACHA20_NONCE_SIZE : Z := 24.
Definition POLY1305_TAG_SIZE : Z := 16.
Definition SEALED_HEADER_LEN : Z := 1 + X25519_PUBLIC_KEY_SIZE + XCHACHA20_NONCE_SIZE + 4.

Inductive SignatureDomain :=
| AdmissionRequest | Reservation | DeploymentGrant | DeploymentReceipt
| UpdateRequest | UpdateResponse | WorkloadCommand | WorkloadCommandResponse
| WorkloadListRequest | WorkloadListResponse | AgentLocationQuery
| SchedulerReconciliationQuery | SchedulerReconciliationResponse
| CapacityQuery | CapacityOffer | EndpointRecord | ConnectorIdentity
| ServiceCatalog | ReplicaServiceRecord | MachineRelayGrant
| AgentAttachmentHello | WorkloadEnvelope | SidecarRegistration.

Definition label (d : SignatureDomain) : string :=
  match d with
  | AdmissionRequest => "podmesh/sig/v1/admission-request"
  | Reservation => "podmesh/sig/v1/reservation"
  | DeploymentGrant => "podmesh/sig/v1/deployment-grant"
  | DeploymentReceipt => "podmesh/sig/v1/deployment-receipt"
  | UpdateRequest => "podmesh/sig/v1/update-request"
  | UpdateResponse => "podmesh/sig/v1/update-response"
  | WorkloadCommand => "podmesh/sig/v1/workload-command"
  | WorkloadCommandResponse => "podmesh/sig/v1/workload-command-response"
  | WorkloadListRequest => "podmesh/sig/v1/workload-list-request"
  | WorkloadListResponse => "podmesh/sig/v1/workload-list-response"
  | AgentLocationQuery => "podmesh/sig/v1/agent-location-query"
  | SchedulerReconciliationQuery => "podmesh/sig/v1/scheduler-reconciliation-query"
  | SchedulerReconciliationResponse => "podmesh/sig/v1/scheduler-reconciliation-response"
  | CapacityQuery => "podmesh/sig/v1/capacity-query"
  | CapacityOffer => "podmesh/sig/v1/capacity-offer"
  | EndpointRecord => "podmesh/sig/v1/endpoint-record"
  | ConnectorIdentity => "podmesh/sig/v1/connector-identity"
  | ServiceCatalog => "podmesh/sig/v1/service-catalog"
  | ReplicaServiceRecord => "podmesh/sig/v1/replica-service-record"
  | MachineRelayGrant => "podmesh/sig/v1/machine-relay-grant"
  | AgentAttachmentHello => "podmesh/sig/v1/agent-attachment-hello"
  | WorkloadEnvelope => "podmesh/sig/v1/workload-envelope"
  | SidecarRegistration => "podmesh/sig/v1/sidecar-registration"
  end.

Definition bind (d : SignatureDomain) (message : bytes) : bytes :=
  let lbl := as_bytes (label d) in
  u16_le_bytes (len lbl mod 65536) ++ lbl ++ message.

(** The operations of the crates the code calls. *)
Class Primitives := {
  (** base64, STANDARD engine *)
  base64_encode : bytes -> string;
  base64_decode : string -> option bytes;
  (** ed25519-dalek: [SigningKey::verifying_key], [sign],
      [VerifyingKey::from_bytes], [is_weak], [verify_strict] *)
  ed_public : bytes -> bytes;
  ed_sign : bytes -> bytes -> bytes;
  ed_key_valid : bytes -> bool;
  ed_key_weak : bytes -> bool;
  ed_verify_strict : bytes -> bytes -> bytes -> bool;
  (** x25519-dalek: public key, agreement, [was_contributory] *)
  x_public : bytes -> bytes;
  x_diffie_hellman : bytes -> bytes -> bytes;
  x_was_contributory : bytes -> bool;
  (** blake3::derive_key *)
  derive_key : string -> bytes -> bytes;
  (** chacha20poly1305: [new_from_slice], [encrypt], [decrypt] with
      key, nonce, message and associated data *)
  aead_key_ok : bytes -> bool;
  aead_encrypt : bytes -> bytes -> bytes -> bytes -> option bytes;
  aead_decrypt : bytes -> bytes -> bytes -> bytes -> option bytes
}.

(** Their documented behaviour. *)
Class PrimitiveLaws (P : Primitives) : Prop := {
  base64_roundtrip b : base64_decode (base64_encode b) = Some b;
  base64_len b : len b <= str_len (base64_encode b) <= 4 * ((len b + 2) / 3);
  ed_sign_len sk m : len sk = 32 -> len (ed_sign sk m) = 64;
  ed_public_len sk : len sk = 32 -> len (ed_public sk) = 32;
  ed_public_valid sk : len sk = 32 -> ed_key_valid (ed_public sk) = true;
  ed_sign_verifies sk m : len sk = 32 -> ed_key_weak (ed_public sk) = false ->
    ed_verify_strict (ed_public sk) m (ed_sign sk m) = true;
  x_public_len sk : len sk = 32 -> len (x_public sk) = 32;
  x_agreement a b : len a = 32 -> len b = 32 ->
    x_diffie_hellman a (x_public b) = x_diffie_hellman b (x_public a);
  derive_key_ok ctx m : aead_key_ok (derive_key ctx m) = true;
  aead_roundtrip k n m aad c : aead_encrypt k n m aad = Some c -> aead_decrypt k n c aad = Some m
}.

Section Operations.
Context {P : Primitives}.

Definition b64_encode (data : bytes) : string := base64_encode data.

Definition b64_decode (data : string) : Result bytes :=
  ok_or (base64_decode data) "base64 decode error".

Definition signing_key_from (sk_bytes : bytes) : Result bytes :=
  try_into ED25519_PRIVATE_KEY_SIZE sk_bytes "Invalid private key size".

Definition verifying_key_from (pub_bytes : bytes) : Result bytes :=
  match try_into ED25519_PUBLIC_KEY_SIZE pub_bytes "Invalid public key size" with
  | Err e => Err e
  | Ok pub_arr =>
      ensure! ed_key_valid pub_arr else Err "Invalid public key" ;;
      ensure! negb (ed_key_weak pub_arr) else Err "Ed25519 public key is of small order" ;;
      Ok pub_arr
  end.

Definition sign_domain (sk_bytes : bytes) (domain : SignatureDomain) (message : bytes)
    : Result bytes :=
  match signing_key_from sk_bytes with
  | Err e => Err e
  | Ok signing_key => Ok (ed_sign signing_key (bind domain message))
  end.

Definition verify_domain (pub_bytes : bytes) (domain : SignatureDomain)
    (message sig_bytes : bytes) : Result unit :=
  match try_into ED25519_SIGNATURE_SIZE sig_bytes "Invalid signature size" with
  | Err e => Err e
  | Ok sig_arr =>
      match verifying_key_from pub_bytes with
      | Err e => Err e
      | Ok key =>
          if ed_verify_strict key (bind domain message) sig_arr then Ok tt
          else Err "signature verification failed"
      end
  end.

Definition sign_domain_b64 (sk_bytes pk_bytes : bytes) (domain : SignatureDomain)
    (message : bytes) : Result (string * string) :=
  ensure! len pk_bytes =? ED25519_PUBLIC_KEY_SIZE else Err "Invalid public key size" ;;
  match sign_domain sk_bytes domain message with
  | Err e => Err e
  | Ok signature => Ok (b64_encode signature, b64_encode pk_bytes)
  end.

Definition validate_kem_pubkey (pub_bytes : bytes) : Result unit :=
  if negb (len pub_bytes =? X25519_PUBLIC_KEY_SIZE) then Err "Invalid X25519 public key" else Ok tt.

Definition kem_key_bytes (b : bytes) (what : string) : Result bytes :=
  try_into X25519_PUBLIC_KEY_SIZE b what.

Definition derive_sealed_key (shared_secret ephemeral_pub recipient_pub : bytes) : bytes :=
  derive_key KEM_KDF_CONTEXT (shared_secret ++ ephemeral_pub ++ recipient_pub).

(** [ephemeral] is the secret [EphemeralSecret::random_from_rng] draws. *)
Definition encapsulate_to_pubkey (ephemeral pub_bytes : bytes) : Result (bytes * bytes) :=
  match kem_key_bytes pub_bytes "recipient public key" with
  | Err e => Err e
  | Ok recipient_public =>
      let shared_secret := x_diffie_hellman ephemeral recipient_public in
      ensure! x_was_contributory shared_secret
        else Err "recipient X25519 public key is low order" ;;
      Ok (x_public ephemeral, shared_secret)
  end.

Definition decapsulate_share (priv_bytes ephemeral_pub_bytes : bytes) : Result bytes :=
  match kem_key_bytes priv_bytes "private key" with
  | Err e => Err e
  | Ok priv_arr =>
      match kem_key_bytes ephemeral_pub_bytes "ephemeral public key" with
      | Err e => Err e
      | Ok ephemeral_pub_arr =>
          let shared_secret := x_diffie_hellman priv_arr ephemeral_pub_arr in
          ensure! x_was_contributory shared_secret
            else Err "sender X25519 ephemeral key is low order" ;;
          Ok shared_secret
      end
  end.

(** [nonce] is what [OsRng::fill_bytes] writes. *)
Definition encrypt_payload_with_key (nonce key payload : bytes) : Result (bytes * bytes) :=
  ensure! aead_key_ok key else Err "invalid key length for XChaCha20-Poly1305" ;;
  match aead_encrypt key nonce payload [] with
  | None => Err "XChaCha20-Poly1305 encrypt error"
  | Some ciphertext => Ok (ciphertext, nonce)
  end.

Definition decrypt_payload_with_key (key nonce_bytes ciphertext : bytes) : Result bytes :=
  ensure! aead_key_ok key else Err "invalid key length for XChaCha20-Poly1305" ;;
  match try_into XCHACHA20_NONCE_SIZE nonce_bytes "invalid nonce length" with
  | Err e => Err e
  | Ok nonce_array => ok_or (aead_decrypt key nonce_array ciphertext []) "XChaCha20-Poly1305 decrypt error"
  end.

Definition encrypt_payload_for_recipient (ephemeral nonce_bytes recipient_pub payload : bytes)
    : Result bytes :=
  match encapsulate_to_pubkey ephemeral recipient_pub with
  | Err e => Err e
  | Ok (ephemeral_pub, shared_secret) =>
      let key := derive_sealed_key shared_secret ephemeral_pub recipient_pub in
      ensure! aead_key_ok key else Err "invalid key length for XChaCha20-Poly1305" ;;
      let total := len payload + POLY1305_TAG_SIZE in
      ensure! total <=? usize_max else Err "payload too large to seal" ;;
      ensure! total <=? u32_max else Err "payload too large to seal" ;;
      let ciphertext_len := total in
      let header := SEALED_BLOB_VERSION :: ephemeral_pub ++ nonce_bytes ++ u32_be_bytes ciphertext_len in
      match aead_encrypt key nonce_bytes payload header with
      | None => Err "XChaCha20-Poly1305 encrypt error"
      | Some ciphertext =>
          ensure! len ciphertext =? ciphertext_len
            else Err "sealed ciphertext length disagrees with the authenticated header" ;;
          Ok (header ++ ciphertext)
      end
  end.

(** [slice b i j] is [b[i..j]]. *)
Definition slice (b : bytes) (i j : nat) : bytes := take (j - i) (drop i b).

Definition decrypt_payload_from_recipient_blob (blob priv_kem_bytes : bytes) : Result bytes :=
  ensure! SEALED_HEADER_LEN <=? len blob else Err "sealed blob too short" ;;
  ensure! bool_decide (head blob = Some SEALED_BLOB_VERSION)
    else Err "unsupported sealed-blob version" ;;
  let ephemeral_pub := slice blob 1 33 in
  match try_into XCHACHA20_NONCE_SIZE (slice blob 33 57) "invalid sealed-blob nonce" with
  | Err e => Err e
  | Ok nonce_bytes =>
      let declared_len := u32_from_be (slice blob 57 61) in
      let ciphertext := drop 61 blob in
      ensure! len ciphertext =? declared_len
        else Err "sealed blob length disagrees with declared ciphertext length" ;;
      match decapsulate_share priv_kem_bytes ephemeral_pub with
      | Err e => Err e
      | Ok shared =>
          match kem_key_bytes priv_kem_bytes "private key" with
          | Err e => Err e
          | Ok recipient_secret =>
              let key := derive_sealed_key shared ephemeral_pub (x_public recipient_secret) in
              ensure! aead_key_ok key else Err "key error" ;;
              ok_or (aead_decrypt key nonce_bytes ciphertext (take 61 blob))
                "XChaCha20-Poly1305 decrypt error"
          end
      end
  end.

End Operations.

#[export] Instance SignatureDomain_eq_dec : EqDecision SignatureDomain.
Proof. solve_decision. Defined.

(** ** Domain separation *)

Definition all_domains : list SignatureDomain :=
  [AdmissionRequest; Reservation; DeploymentGrant; DeploymentReceipt; UpdateRequest;
   UpdateResponse; WorkloadCommand; WorkloadCommandResponse; WorkloadListRequest;
   WorkloadListResponse; AgentLocationQuery; SchedulerReconciliationQuery;
   SchedulerReconciliationResponse; CapacityQuery; CapacityOffer; EndpointRecord;
   ConnectorIdentity; ServiceCatalog; ReplicaServiceRecord; MachineRelayGrant;
   AgentAttachmentHello; WorkloadEnvelope; SidecarRegistration].

(** The domain a label names. *)
Definition domain_of_label (s : string) : option SignatureDomain :=
  List.find (fun d => bool_decide (label d = s)) all_domains.

Lemma domain_of_label_label d : domain_of_label (label d) = Some d.
Proof. by destruct d; vm_compute. Qed.

Lemma label_inj d1 d2 : label d1 = label d2 -> d1 = d2.
Proof. intros Heq%(f_equal domain_of_label). rewrite !domain_of_label_label in Heq. congruence. Qed.

Lemma label_len_bound d : 0 <= len (as_bytes (label d)) < 65536.
Proof. by destruct d; vm_compute. Qed.

(** Domain separation: the byte string that Ed25519 signs determines both
    the signature domain and the message, so a signature made for one kind of
    message is over different bytes than any message of another kind. *)
Theorem bind_injective (d1 d2 : SignatureDomain) (m1 m2 : bytes) :
  bind d1 m1 = bind d2 m2 -> d1 = d2 /\ m1 = m2.
Proof.
  unfold bind. intros Heq. pose proof (label_len_bound d1). pose proof (label_len_bound d2).
  rewrite !Z.mod_small in Heq by done.
  apply app_inj_1 in Heq as [Hlen Heq]; [|done].
  apply u16_le_bytes_inj in Hlen; [|done..].
  apply app_inj_1 in Heq as [Hlabel Hm]; [|unfold len in Hlen; lia].
  split; [by apply label_inj, as_bytes_inj|done].
Qed.

Lemma bind_injective_witness :
  CapacityOffer = CapacityOffer /\ [Byte.x07] = [Byte.x07].
Proof. apply (bind_injective CapacityOffer CapacityOffer [Byte.x07] [Byte.x07]). reflexivity. Defined.

Section Theorems.
Context {P : Primitives} {L : PrimitiveLaws P}.

Lemma try_into_ok {E} n b (e : E) : len b = n -> try_into n b e = Ok b.
Proof. intros <-. unfold try_into. by rewrite Z.eqb_refl. Qed.

Lemma try_into_inv {E} n b (e : E) b' : try_into n b e = Ok b' -> len b = n /\ b' = b.
Proof. unfold try_into. case_match eqn:Hn; [|done]. apply Z.eqb_eq in Hn. naive_solver. Qed.

(** A signature that verifies is one the key accepts. *)
Lemma verify_domain_inv public d m sig :
  verify_domain public d m sig = Ok tt -> ed_verify_strict public (bind d m) sig = true.
Proof.
  unfold verify_domain, verifying_key_from. intros Hv. repeat (case_match; try done).
  repeat match goal with Ht : try_into _ _ _ = Ok _ |- _ => apply try_into_inv in Ht as [_ ->] end.
  by simplify_eq.
Qed.

Lemma b64_roundtrip b : b64_decode (b64_encode b) = Ok b.
Proof. unfold b64_decode, b64_encode. by rewrite base64_roundtrip. Qed.

(** A signature made with a private key verifies under its public key. *)
Lemma sign_verify_domain sk d m s :
  ed_key_weak (ed_public sk) = false -> sign_domain sk d m = Ok s ->
  verify_domain (ed_public sk) d m s = Ok tt /\ len s = 64.
Proof.
  intros Hweak. unfold sign_domain, signing_key_from.
  destruct (try_into _ sk _) as [sk'|] eqn:Hsk; [|done].
  apply try_into_inv in Hsk as [Hlen ->]. intros [= <-].
  unfold verify_domain, verifying_key_from.
  pose proof (ed_sign_len sk (bind d m) Hlen) as Hs.
  rewrite !try_into_ok by (done || by apply ed_public_len).
  rewrite ed_public_valid, Hweak by done. cbn. by rewrite ed_sign_verifies.
Qed.

Lemma encapsulate_agrees eph sk ep sh :
  len eph = 32 -> len sk = 32 -> encapsulate_to_pubkey eph (x_public sk) = Ok (ep, sh) ->
  ep = x_public eph /\ decapsulate_share sk ep = Ok sh.
Proof.
  intros He Hs. unfold encapsulate_to_pubkey, decapsulate_share, kem_key_bytes.
  rewrite try_into_ok by (by apply x_public_len). case_match eqn:Hc; [|done]. intros [= <- <-].
  split; [done|]. rewrite !try_into_ok by (done || by apply x_public_len).
  by rewrite (x_agreement sk eph), Hc.
Qed.

(** The layout of a sealed blob: version, 32 bytes of ephemeral key, 24 bytes
    of nonce, 4 bytes of length, then the ciphertext. *)
Lemma blob_layout (ep nonce ct : bytes) (n : Z) :
  len ep = 32 -> len nonce = 24 ->
  let header := SEALED_BLOB_VERSION :: ep ++ nonce ++ u32_be_bytes n in
  slice (header ++ ct) 1 33 = ep /\ slice (header ++ ct) 33 57 = nonce /\
  slice (header ++ ct) 57 61 = u32_be_bytes n /\ drop 61 (header ++ ct) = ct /\
  take 61 (header ++ ct) = header /\ len header = SEALED_HEADER_LEN.
Proof.
  intros Hep Hn header. unfold slice, header. cbn [app].
  assert (length ep = 32%nat) as Hep' by (unfold len in Hep; lia).
  assert (length nonce = 24%nat) as Hn' by (unfold len in Hn; lia).
  rewrite <- !app_assoc. repeat split.
  - replace (33 - 1)%nat with 32%nat by lia. cbn [drop]. rewrite drop_0, take_app_le, take_ge by lia. done.
  - replace 33%nat with (S (32)) by lia. cbn [drop].
    rewrite drop_app_ge, Hep' by lia. rewrite Nat.sub_diag, drop_0, take_app_le, take_ge by lia. done.
  - replace 57%nat with (S 56) by lia. cbn [drop]. rewrite drop_app_ge, Hep' by lia.
    rewrite drop_app_ge, Hn' by lia. done.
  - replace 61%nat with (S 60) by lia. cbn [drop]. rewrite drop_app_ge, Hep' by lia.
    rewrite drop_app_ge, Hn' by lia. done.
  - replace 61%nat with (S 60) by lia. cbn [take]. f_equal.
    rewrite take_app_ge, Hep' by lia. rewrite take_app_ge, Hn' by lia. done.
  - unfold SEALED_HEADER_LEN, X25519_PUBLIC_KEY_SIZE, XCHACHA20_NONCE_SIZE.
    unfold len. cbn. rewrite !length_app. cbn. lia.
Qed.

Lemma sealed_opens (ephemeral nonce sk payload blob : bytes) :
  len ephemeral = 32 -> len nonce = 24 -> len sk = 32 ->
  encrypt_payload_for_recipient ephemeral nonce (x_public sk) payload = Ok blob ->
  decrypt_payload_from_recipient_blob blob sk = Ok payload.
Proof.
  intros He Hn Hs. unfold encrypt_payload_for_recipient.
  destruct (encapsulate_to_pubkey _ _) as [[ep sh]|] eqn:Henc; [|done].
  destruct (encapsulate_agrees _ _ _ _ He Hs Henc) as [-> Hdec].
  case_match eqn:Hkey; [|done]. case_match; [|done]. case_match eqn:Hu32; [|done].
  destruct (aead_encrypt _ _ _ _) as [ct|] eqn:Haead; [|done].
  case_match eqn:Hlen; [|done]. intros Hblob. apply Z.eqb_eq in Hlen.
  pose proof (blob_layout (x_public ephemeral) nonce ct (len payload + POLY1305_TAG_SIZE)
    (x_public_len _ He) Hn) as (H1 & H2 & H3 & H4 & H5 & H6).
  set (header := _ :: _) in *. assert (blob = header ++ ct) as -> by (injection Hblob; done).
  pose proof (len_nonneg ct). apply Z.leb_le in Hu32. unfold u32_max in Hu32.
  unfold decrypt_payload_from_recipient_blob.
  rewrite len_app, H6. replace (SEALED_HEADER_LEN <=? _) with true by (symmetry; apply Z.leb_le; lia).
  rewrite bool_decide_true by done. rewrite H1, H2, H3, H4, H5, Hdec.
  rewrite try_into_ok, u32_from_to_be by (done || lia). rewrite Hlen, Z.eqb_refl.
  unfold kem_key_bytes. rewrite try_into_ok by done. rewrite Hkey.
  by erewrite aead_roundtrip.
Qed.

(** Sealing round trip: whatever [encrypt_payload_for_recipient] produces
    for the public key of a 32-byte X25519 secret is opened by
    [decrypt_payload_from_recipient_blob] with that secret, to the payload. *)
Theorem seal_open_roundtrip (ephemeral nonce sk payload blob : bytes) :
  len ephemeral = 32 -> len nonce = 24 -> len sk = 32 ->
  encrypt_payload_for_recipient ephemeral nonce (x_public sk) payload = Ok blob ->
  decrypt_payload_from_recipient_blob blob sk = Ok payload.
Proof. apply sealed_opens. Qed.

End Theorems.

(** A sealed blob has no slack: appending bytes to a blob that opens makes
    it refused, whatever the bytes and whatever the key. *)
Theorem sealed_blob_exact {P : Primitives} (blob extra sk sk' payload : bytes) :
  decrypt_payload_from_recipient_blob blob sk = Ok payload -> extra <> [] ->
  decrypt_payload_from_recipient_blob (blob ++ extra) sk' =
    Err "sealed blob length disagrees with declared ciphertext length".
Proof.
  unfold decrypt_payload_from_recipient_blob. intros Hopen Hextra.
  case_match eqn:Hshort; [|done]. apply Z.leb_le in Hshort.
  assert (61 <= length blob)%nat as Hl
    by (unfold SEALED_HEADER_LEN, X25519_PUBLIC_KEY_SIZE, XCHACHA20_NONCE_SIZE, len in Hshort; lia).
  case_match eqn:Hver; [|done].
  destruct (try_into _ _ _) as [nonce|] eqn:Hnonce; [|done].
  case_match eqn:Hdecl; [|done]. clear Hopen. apply Z.eqb_eq in Hdecl.
  pose proof (len_nonneg extra).
  replace (SEALED_HEADER_LEN <=? len (blob ++ extra)) with true
    by (symmetry; apply Z.leb_le; len_lia).
  assert (forall i j, (i <= j <= 61)%nat -> slice (blob ++ extra) i j = slice blob i j) as Hslice.
  { intros i j Hij. unfold slice. rewrite drop_app_le, take_app_le; [done| |lia].
    rewrite length_drop. lia. }
  destruct blob as [|b blob]; [cbn in Hl; lia|]. cbn [app head] in *. rewrite Hver.
  change (b :: blob ++ extra) with ((b :: blob) ++ extra).
  rewrite !Hslice by lia. rewrite Hnonce.
  rewrite drop_app_le, len_app by done.
  destruct (_ =? _) eqn:E; [|done]. apply Z.eqb_eq in E.
  destruct extra; [done|]. rewrite len_cons in *. pose proof (len_nonneg extra). lia.
Qed.

(** ** A concrete instance

    Small functions that satisfy the laws, so that the theorems can be
    evaluated: base64 is the identity on bytes, a signature is the key and the
    message padded to 64 bytes, the agreement is bytewise addition and the
    cipher appends 16 zero bytes. *)
Module Toy.

Definition pad (n : nat) (b : bytes) : bytes := take n (b ++ replicate n Byte.x00).

#[export] Instance prims : Primitives := {|
  base64_encode := String.string_of_list_byte;
  base64_decode := fun s => Some (as_bytes s);
  ed_public := fun sk => sk;
  ed_sign := fun sk m => pad 64 (sk ++ m);
  ed_key_valid := fun _ => true;
  ed_key_weak := fun _ => false;
  ed_verify_strict := fun pk m s => bool_decide (s = pad 64 (pk ++ m));
  x_public := fun sk => sk;
  x_diffie_hellman := zip_with (fun a b => byte_of_Z (byte_to_Z a + byte_to_Z b));
  x_was_contributory := fun _ => true;
  derive_key := fun _ m => pad 32 m;
  aead_key_ok := fun k => true;
  aead_encrypt := fun _ _ m _ => Some (m ++ replicate 16 Byte.x00);
  aead_decrypt := fun _ _ c _ => Some (take (length c - 16) c)
|}.

Lemma pad_len n b : length (pad n b) = n.
Proof. unfold pad. rewrite length_take, length_app, length_replicate. lia. Qed.

#[export] Instance laws : PrimitiveLaws prims.
Proof.
  split; cbn -[replicate]; try done.
  - intros b. f_equal. apply String.list_byte_of_string_of_list_byte.
  - intros b. assert (str_len (String.string_of_list_byte b) = len b) as ->.
    { unfold str_len, len. f_equal. induction b as [|x b IH]; [done|]. cbn. by f_equal. }
    pose proof (len_nonneg b). Z.to_euclidean_division_equations. lia.
  - intros sk m _. unfold len. by rewrite pad_len.
  - intros sk m _ _. by rewrite bool_decide_true.
  - intros a b _ _. clear. revert b. induction a as [|x a IH]; intros [|y b]; cbn; [done..|].
    rewrite IH. do 2 f_equal. lia.
  - intros k n m aad c Hc. assert (c = m ++ replicate 16 Byte.x00) as -> by congruence.
    f_equal. rewrite length_app, length_replicate.
    rewrite take_app_le, take_ge by lia. done.
Qed.

Definition sample_key (n : Z) : bytes := replicate 32 (byte_of_Z n).
Definition sample_nonce : bytes := replicate 24 Byte.x09.

End Toy.

#[local] Existing Instances Toy.prims Toy.laws.

Lemma seal_open_roundtrip_witness :
  decrypt_payload_from_recipient_blob
    (SEALED_BLOB_VERSION :: Toy.sample_key 5 ++ Toy.sample_nonce ++ u32_be_bytes 18 ++
       [Byte.x41; Byte.x42] ++ replicate 16 Byte.x00) (Toy.sample_key 7) = Ok [Byte.x41; Byte.x42].
Proof.
  apply (seal_open_roundtrip (Toy.sample_key 5) Toy.sample_nonce (Toy.sample_key 7)); [done..|].
  vm_compute. reflexivity.
Defined.

Lemma sealed_blob_exact_witness :
  decrypt_payload_from_recipient_blob
    ((SEALED_BLOB_VERSION :: Toy.sample_key 5 ++ Toy.sample_nonce ++ u32_be_bytes 18 ++
       [Byte.x41; Byte.x42] ++ replicate 16 Byte.x00) ++ [Byte.x01]) (Toy.sample_key 7)
  = Err "sealed blob length disagrees with declared ciphertext length".
Proof.
  apply (sealed_blob_exact _ _ (Toy.sample_key 7) _ [Byte.x41; Byte.x42]); [vm_compute; reflexivity|discriminate].
Defined.

End Crypto.
