(* ===== verification/Signed.v ===== *)
(** * Signed wire messages

    Every signed message of shared/protocol follows one pattern: the signer
    fills in its public key, validates the unsigned content, signs the encoding
    of the message with an empty signature under the message's domain, and
    validates the result; the verifier validates, decodes key and signature and
    checks the signature over the same bytes.  [SignedMessage] is the interface
    each message type implements, [sign] and [verify] are the pattern, and the
    theorems about it are proved here once.  The message files define their own
    functions from their own source and show that they are this pattern. *)

From S2P Require Import Prelude Crypto.

(** postcard::to_allocvec and postcard::from_bytes at a type. *)
Class Postcard (A : Type) := {
  to_allocvec : A -> option bytes;
  from_postcard : bytes -> option A
}.
Class PostcardLaws (A : Type) (C : Postcard A) : Prop :=
  postcard_roundtrip : forall a b, to_allocvec a = Some b -> from_postcard b = Some a.

Module Signed.
Import Crypto.

Class SignedMessage (A : Type) := {
  domain : SignatureDomain;
  pubkey_of : A -> string;
  signature_of : A -> string;
  with_pubkey : string -> A -> A;
  with_signature : string -> A -> A;
  validate_unsigned : A -> Z -> Result unit;
  (** the size-checked encoding of a value *)
  encode : A -> Result bytes;
  key_error : string;
  signature_error : string
}.

Class SignedMessageLaws (A : Type) (M : SignedMessage A) : Prop := {
  signature_with_signature s a : signature_of (with_signature s a) = s;
  pubkey_with_signature s a : pubkey_of (with_signature s a) = pubkey_of a;
  pubkey_with_pubkey s a : pubkey_of (with_pubkey s a) = s;
  with_signature_twice s s' a : with_signature s (with_signature s' a) = with_signature s a;
  validate_unsigned_signature s a now :
    validate_unsigned (with_signature s a) now = validate_unsigned a now
}.

Section Pattern.
Context {P : Primitives} {A : Type} {M : SignedMessage A}.

Definition canonical_bytes (a : A) : Result bytes := encode (with_signature "" a).

Definition validate_signature_fields (key sig : string) : Result unit :=
  k ← b64_decode key;
  ensure! len k =? 32 else Err key_error ;;
  s ← b64_decode sig;
  ensure! len s =? 64 else Err signature_error ;;
  Ok tt.

Definition validate (a : A) (now : Z) : Result unit :=
  _ ← validate_unsigned a now;
  validate_signature_fields (pubkey_of a) (signature_of a).

Definition sign (a : A) (signing_public signing_private : bytes) (now : Z) : Result A :=
  let a := with_signature "" (with_pubkey (b64_encode signing_public) a) in
  _ ← validate_unsigned a now;
  canonical ← canonical_bytes a;
  signature ← sign_domain signing_private domain canonical;
  let a := with_signature (b64_encode signature) a in
  _ ← validate a now;
  Ok a.

Definition verify_signature (a : A) : Result unit :=
  public ← b64_decode (pubkey_of a);
  signature ← b64_decode (signature_of a);
  canonical ← canonical_bytes a;
  verify_domain public domain canonical signature.

Definition verify (a : A) (now : Z) : Result unit :=
  _ ← validate a now; verify_signature a.

End Pattern.

(** Inverts a bind of results in a hypothesis. *)
Lemma bind_ok {E A B} (r : result E A) (f : A -> result E B) b :
  r ≫= f = Ok b -> exists a, r = Ok a /\ f a = Ok b.
Proof. destruct r; cbn; [eauto|done]. Qed.

Lemma bind_eq {E A B} (a : A) (f : A -> result E B) : Ok a ≫= f = f a.
Proof. done. Qed.

Lemma bind_tt_iff {A} (r : Result A) (k : A -> Result unit) :
  (x ← r; k x) = Ok tt <-> exists x, r = Ok x /\ k x = Ok tt.
Proof. destruct r; cbn; naive_solver. Qed.

Lemma ensure_iff (c : bool) (e : string) (k : Result unit) :
  (ensure! c else Err e ;; k) = Ok tt <-> c = true /\ k = Ok tt.
Proof. destruct c; naive_solver. Qed.

(** Splits every bind and every [ensure!] of a successful result. *)
Ltac result_inv H :=
  repeat first
    [ apply bind_ok in H; let x := fresh "x" in let Hx := fresh "Hx" in destruct H as (x & Hx & H)
    | match type of H with
      | (if ?c then _ else _) = Ok _ => let Hc := fresh "Hc" in destruct c eqn:Hc; [|discriminate H]
      end ].

(** The [ensure!] tests alone. *)
Ltac ensure_inv H :=
  repeat match type of H with
  | (if ?c then _ else _) = Ok _ => let Hc := fresh "Hc" in destruct c eqn:Hc; [|discriminate H]
  end.

(** Like [result_inv], but without looking inside the functions called. *)
Ltac result_steps H :=
  repeat match type of H with
  | (if ?c then _ else _) = Ok _ => let Hc := fresh "Hc" in destruct c eqn:Hc; [|discriminate H]
  | mbind _ _ = Ok _ =>
      let x := fresh "x" in let Hx := fresh "Hx" in apply bind_ok in H; destruct H as (x & Hx & H);
      try match type of x with unit => destruct x end
  end.

(** The same check with the canonical bytes computed before the key and the
    signature are decoded: [validate] has already decoded both. *)
Lemma verify_canonical_first {P : Primitives} {A} {M : SignedMessage A} (a : A) now :
  (_ ← validate a now;
   canonical ← canonical_bytes a;
   public ← b64_decode (pubkey_of a);
   signature ← b64_decode (signature_of a);
   verify_domain public domain canonical signature) = verify a now.
Proof.
  unfold verify, validate, verify_signature, validate_signature_fields.
  destruct (validate_unsigned a now); [cbn|done].
  destruct (b64_decode (pubkey_of a)); [cbn|done]. case_match; [|done].
  destruct (b64_decode (signature_of a)); [cbn|done]. case_match; [cbn|done].
  by destruct (canonical_bytes a).
Qed.

Section PatternTheorems.
Context {P : Primitives} {L : PrimitiveLaws P}.
Context {A : Type} {M : SignedMessage A} {ML : SignedMessageLaws A M}.

(** What a signer with a matching key pair produces is accepted by a verifier
    at the same instant. *)
Lemma sign_verify (a a' : A) pk sk now :
  pk = ed_public sk -> ed_key_weak pk = false ->
  sign a pk sk now = Ok a' -> verify a' now = Ok tt.
Proof.
  intros -> Hweak. unfold sign. intros H. apply bind_ok in H as (? & _ & H).
  apply bind_ok in H as (canonical & Hcan & H). apply bind_ok in H as (sig & Hsig & H).
  apply bind_ok in H as (u & Hval & [= <-]). destruct u. unfold verify. rewrite Hval, bind_eq.
  unfold verify_signature, canonical_bytes in *.
  rewrite pubkey_with_signature, pubkey_with_signature, pubkey_with_pubkey, b64_roundtrip, bind_eq.
  rewrite signature_with_signature, b64_roundtrip, bind_eq.
  rewrite !with_signature_twice in *. rewrite Hcan, bind_eq.
  by eapply sign_verify_domain.
Qed.

(** A message that verifies carries a valid signature, by the key it names,
    over its own canonical bytes. *)
Lemma verify_inv (a : A) now :
  verify a now = Ok tt ->
  validate_unsigned a now = Ok tt /\
  exists public sig canonical,
    b64_decode (pubkey_of a) = Ok public /\ b64_decode (signature_of a) = Ok sig /\
    canonical_bytes a = Ok canonical /\ len public = 32 /\ len sig = 64 /\
    ed_verify_strict public (bind domain canonical) sig = true.
Proof.
  unfold verify, validate, verify_signature, validate_signature_fields. intros H.
  apply bind_ok in H as ([] & Hval & H). apply bind_ok in Hval as ([] & Hun & Hf).
  split; [done|]. apply bind_ok in H as (public & Hp & H). apply bind_ok in H as (sig & Hs & H).
  apply bind_ok in H as (canonical & Hc & H). exists public, sig, canonical.
  rewrite Hp, bind_eq in Hf. destruct (len public =? 32) eqn:H32; [|done].
  rewrite Hs, bind_eq in Hf. destruct (len sig =? 64) eqn:H64; [|done].
  apply Z.eqb_eq in H32, H64. repeat split; try done. by apply verify_domain_inv.
Qed.

End PatternTheorems.

(** ** A concrete codec

    The values of a list, encoded by their position in it. *)
Module Table.
Section Table.
Context {A : Type} `{EqDecision A}.

Definition codec (l : list A) : Postcard A := {|
  to_allocvec := fun a =>
    match list_find (eq a) l with
    | Some (i, _) => if Nat.ltb i 256 then Some [byte_of_Z (Z.of_nat i)] else None
    | None => None
    end;
  from_postcard := fun b => match b with [x] => l !! Z.to_nat (byte_to_Z x) | _ => None end
|}.

Lemma codec_laws (l : list A) : PostcardLaws A (codec l).
Proof.
  intros a b. cbn. destruct (list_find (eq a) l) as [[i x]|] eqn:Hf; [|done].
  apply list_find_Some in Hf as (Hl & -> & _). case_match eqn:Hi; [|done]. intros [= <-].
  apply Nat.leb_le in Hi. rewrite byte_to_of_Z, Z.mod_small by lia. by rewrite Nat2Z.id.
Qed.
End Table.
End Table.

End Signed.
