(* ===== verification/EndpointRecord.v ===== *)
(** * Endpoint records

    Models shared/protocol/src/endpoint_record.rs: the self-signed record of an
    Iroh endpoint, its validation, signing, verification and encoding. *)

From S2P Require Import Prelude Net Crypto Signed.

Module EndpointRecord.
Import Crypto Net.

Definition ENDPOINT_RECORD_VERSION : Z := 1.
Definition IROH_ENDPOINT_ID_BYTES : Z := 32.
Definition MAX_ENDPOINT_DIRECT_ADDRESSES : Z := 8.
Definition MAX_ENDPOINT_DIRECT_ADDRESS_LEN : Z := 128.
Definition MAX_ENDPOINT_RELAY_URL_LEN : Z := 2048.
Definition MAX_ENDPOINT_RECORD_BYTES : Z := 4 * 1024.
Definition MAX_ENDPOINT_RECORD_LIFETIME_SECS : Z := 60 * 60.
Definition MAX_ENDPOINT_RECORD_CLOCK_SKEW_SECS : Z := 60.

Record EndpointRecord := {
  version : Z;
  endpoint_id : bytes;
  relay_url : option string;
  direct_addresses : list string;
  signing_pubkey : string;
  issued_at_secs : Z;
  expires_at_secs : Z;
  signature : string
}.

Definition set_signature (s : string) (r : EndpointRecord) : EndpointRecord :=
  {| version := version r; endpoint_id := endpoint_id r; relay_url := relay_url r;
     direct_addresses := direct_addresses r; signing_pubkey := signing_pubkey r;
     issued_at_secs := issued_at_secs r; expires_at_secs := expires_at_secs r; signature := s |}.
Definition set_signing_pubkey (s : string) (r : EndpointRecord) : EndpointRecord :=
  {| version := version r; endpoint_id := endpoint_id r; relay_url := relay_url r;
     direct_addresses := direct_addresses r; signing_pubkey := s;
     issued_at_secs := issued_at_secs r; expires_at_secs := expires_at_secs r;
     signature := signature r |}.

Definition validate_relay_url (value : string) : Result unit :=
  ensure! negb (str_is_empty value) && (str_len value <=? MAX_ENDPOINT_RELAY_URL_LEN)
    else Err "relay URL length is invalid" ;;
  ensure! starts_with "https://" value || starts_with "http://" value
    else Err "relay URL must use HTTP or HTTPS" ;;
  ensure! negb (any_char (fun b => is_ascii_whitespace b || is_ascii_control b) value)
    else Err "relay URL contains invalid characters" ;;
  Ok tt.

(** The loop over the addresses, with the set of those already parsed. *)
Fixpoint validate_address_loop (unique : list SocketAddr) (addresses : list string) : Result unit :=
  match addresses with
  | [] => Ok tt
  | address :: rest =>
      ensure! negb (str_is_empty address) && (str_len address <=? MAX_ENDPOINT_DIRECT_ADDRESS_LEN)
        else Err "direct endpoint address length is invalid" ;;
      parsed ← ok_or (parse_socket_addr address) "invalid direct endpoint address";
      if bool_decide (parsed ∈ unique) then Err "duplicate direct endpoint address"
      else validate_address_loop (parsed :: unique) rest
  end.

Definition validate_direct_addresses (addresses : list string) : Result unit :=
  ensure! len addresses <=? MAX_ENDPOINT_DIRECT_ADDRESSES
    else Err "too many direct endpoint addresses" ;;
  validate_address_loop [] addresses.

Definition validate_encoded_size (b : bytes) : Result unit :=
  ensure! (0 <? len b) && (len b <=? MAX_ENDPOINT_RECORD_BYTES)
    else Err "endpoint record encoded size is invalid" ;;
  Ok tt.

Definition validate_unsigned (r : EndpointRecord) (now_secs : Z) : Result unit :=
  ensure! version r =? ENDPOINT_RECORD_VERSION else Err "unsupported endpoint record version" ;;
  ensure! len (endpoint_id r) =? IROH_ENDPOINT_ID_BYTES
    else Err "endpoint ID must contain 32 bytes" ;;
  ensure! bool_decide (is_Some (relay_url r)) || negb (bool_decide (direct_addresses r = []))
    else Err "endpoint record must contain a relay or direct address" ;;
  _ ← match relay_url r with Some url => validate_relay_url url | None => Ok tt end;
  _ ← validate_direct_addresses (direct_addresses r);
  ensure! issued_at_secs r <=? saturating_add u64_max now_secs MAX_ENDPOINT_RECORD_CLOCK_SKEW_SECS
    else Err "endpoint record issue time is too far in the future" ;;
  ensure! now_secs <=? expires_at_secs r else Err "endpoint record expired" ;;
  ensure! issued_at_secs r <=? expires_at_secs r
    else Err "endpoint record expiry precedes issue time" ;;
  ensure! saturating_sub (expires_at_secs r) (issued_at_secs r) <=? MAX_ENDPOINT_RECORD_LIFETIME_SECS
    else Err "endpoint record lifetime exceeds limit" ;;
  Ok tt.

Section Operations.
Context {P : Primitives} {C : Postcard EndpointRecord}.

Definition validate_signature_fields (r : EndpointRecord) : Result unit :=
  signing_public ← b64_decode (signing_pubkey r);
  ensure! len signing_public =? 32 else Err "signing public key must decode to 32 bytes" ;;
  sig ← b64_decode (signature r);
  ensure! len sig =? 64 else Err "signature must decode to 64 bytes" ;;
  Ok tt.

Definition validate (r : EndpointRecord) (now_secs : Z) : Result unit :=
  _ ← validate_unsigned r now_secs; validate_signature_fields r.

Definition validate_structure (r : EndpointRecord) : Result unit :=
  _ ← validate_unsigned r (issued_at_secs r); validate_signature_fields r.

Definition canonical_bytes (r : EndpointRecord) : Result bytes :=
  b ← ok_or (to_allocvec (set_signature "" r)) "serialize canonical endpoint record";
  _ ← validate_encoded_size b;
  Ok b.

Definition sign (r : EndpointRecord) (signing_public signing_private : bytes) (now_secs : Z)
    : Result EndpointRecord :=
  let r := set_signature "" (set_signing_pubkey (b64_encode signing_public) r) in
  _ ← validate_unsigned r now_secs;
  canonical ← canonical_bytes r;
  sig ← sign_domain signing_private Crypto.EndpointRecord canonical;
  let r := set_signature (b64_encode sig) r in
  _ ← validate r now_secs;
  Ok r.

Definition verify_signature (r : EndpointRecord) : Result unit :=
  signing_public ← b64_decode (signing_pubkey r);
  sig ← b64_decode (signature r);
  canonical ← canonical_bytes r;
  verify_domain signing_public Crypto.EndpointRecord canonical sig.

Definition verify (r : EndpointRecord) (now_secs : Z) : Result unit :=
  _ ← validate r now_secs; verify_signature r.

Definition verify_structure (r : EndpointRecord) : Result unit :=
  _ ← validate_structure r; verify_signature r.

Definition to_bytes (r : EndpointRecord) (now_secs : Z) : Result bytes :=
  _ ← verify r now_secs;
  b ← ok_or (to_allocvec r) "serialize endpoint record";
  _ ← validate_encoded_size b;
  Ok b.

Definition from_bytes (b : bytes) (now_secs : Z) : Result EndpointRecord :=
  _ ← validate_encoded_size b;
  r ← ok_or (from_postcard b) "decode endpoint record";
  _ ← verify r now_secs;
  Ok r.

(** The record as an instance of the signing pattern. *)
#[global] Instance signed_endpoint : Signed.SignedMessage EndpointRecord := {|
  Signed.domain := Crypto.EndpointRecord;
  Signed.pubkey_of := signing_pubkey;
  Signed.signature_of := signature;
  Signed.with_pubkey := set_signing_pubkey;
  Signed.with_signature := set_signature;
  Signed.validate_unsigned := validate_unsigned;
  Signed.encode := fun r => b ← ok_or (to_allocvec r) "serialize canonical endpoint record";
                            _ ← validate_encoded_size b; Ok b;
  Signed.key_error := "signing public key must decode to 32 bytes";
  Signed.signature_error := "signature must decode to 64 bytes"
|}.

#[global] Instance signed_endpoint_laws : Signed.SignedMessageLaws EndpointRecord signed_endpoint.
Proof. by split. Qed.

Lemma record_sign_pattern r pk sk now : sign r pk sk now = Signed.sign r pk sk now.
Proof. done. Qed.
Lemma record_verify_pattern r now : verify r now = Signed.verify r now.
Proof. done. Qed.

End Operations.
End EndpointRecord.
