(* ===== verification/CapacityProtocol.v ===== *)
(** * Capacity and placement messages

    Models shared/protocol/src/capacity.rs (the gossiped capacity query and the
    agent's offer) and shared/protocol/src/placement.rs (the request a client
    or peer sends and the response carrying the chosen offer). *)

From S2P Require Import Prelude Net Crypto Signed EndpointRecord.

Module Capacity.
Import Crypto.
Import EndpointRecord (EndpointRecord, IROH_ENDPOINT_ID_BYTES).

Definition CAPACITY_PROTOCOL_VERSION : Z := 1.
Definition MAX_CAPACITY_MESSAGE_BYTES : Z := 16 * 1024.
Definition MAX_CAPACITY_QUERY_LIFETIME_SECS : Z := 15.
Definition MAX_CAPACITY_OFFER_LIFETIME_SECS : Z := 15.
Definition MAX_CAPACITY_CLOCK_SKEW_SECS : Z := 5.
Definition MAX_CAPACITY_CAPABILITIES : Z := 32.
Definition MAX_CAPACITY_CAPABILITY_LEN : Z := 64.
Definition MAX_CAPACITY_EXCLUDED_ENDPOINTS : Z := 64.
Definition MAX_CAPACITY_ID_LEN : Z := 128.
Definition MAX_CAPACITY_NONCE_LEN : Z := 128.

Definition validate_common (version : Z) (id : string)
    (issued_at_secs expires_at_secs max_lifetime_secs now_secs : Z) : Result unit :=
  ensure! version =? CAPACITY_PROTOCOL_VERSION else Err "unsupported capacity protocol version" ;;
  ensure! negb (str_is_empty id) && (str_len id <=? MAX_CAPACITY_ID_LEN)
    else Err "capacity ID length is invalid" ;;
  ensure! issued_at_secs <=? saturating_add u64_max now_secs MAX_CAPACITY_CLOCK_SKEW_SECS
    else Err "capacity message issue time is too far in the future" ;;
  ensure! now_secs <=? expires_at_secs else Err "capacity message expired" ;;
  ensure! issued_at_secs <=? expires_at_secs else Err "capacity expiry precedes issue time" ;;
  ensure! saturating_sub expires_at_secs issued_at_secs <=? max_lifetime_secs
    else Err "capacity message lifetime exceeds limit" ;;
  Ok tt.

Fixpoint capability_loop (unique : list string) (capabilities : list string) : Result unit :=
  match capabilities with
  | [] => Ok tt
  | capability :: rest =>
      ensure! negb (str_is_empty capability) && (str_len capability <=? MAX_CAPACITY_CAPABILITY_LEN)
        else Err "capacity capability length is invalid" ;;
      ensure! negb (bool_decide (capability ∈ unique)) else Err "duplicate capacity capability" ;;
      capability_loop (capability :: unique) rest
  end.

Definition validate_capabilities (capabilities : list string) : Result unit :=
  ensure! len capabilities <=? MAX_CAPACITY_CAPABILITIES else Err "too many capacity capabilities" ;;
  capability_loop [] capabilities.

Fixpoint exclusion_loop (unique : list bytes) (endpoint_ids : list bytes) : Result unit :=
  match endpoint_ids with
  | [] => Ok tt
  | endpoint_id :: rest =>
      ensure! len endpoint_id =? IROH_ENDPOINT_ID_BYTES
        else Err "excluded endpoint ID must contain 32 bytes" ;;
      ensure! negb (bool_decide (endpoint_id ∈ unique)) else Err "duplicate excluded endpoint ID" ;;
      exclusion_loop (endpoint_id :: unique) rest
  end.

Definition validate_exclusions (endpoint_ids : list bytes) : Result unit :=
  ensure! len endpoint_ids <=? MAX_CAPACITY_EXCLUDED_ENDPOINTS
    else Err "too many excluded endpoints" ;;
  exclusion_loop [] endpoint_ids.

Definition validate_message_size (b : bytes) : Result unit :=
  ensure! (0 <? len b) && (len b <=? MAX_CAPACITY_MESSAGE_BYTES)
    else Err "capacity message encoded size is invalid" ;;
  Ok tt.

Definition encode_bounded {A} `{Postcard A} (value : A) (field : string) : Result bytes :=
  b ← ok_or (to_allocvec value) field;
  _ ← validate_message_size b;
  Ok b.

Section SignatureFields.
Context {P : Primitives}.

Definition validate_signature_fields (signing_pubkey signature : string) : Result unit :=
  k ← b64_decode signing_pubkey;
  ensure! len k =? 32 else Err "signing key must decode to 32 bytes" ;;
  s ← b64_decode signature;
  ensure! len s =? 64 else Err "signature must decode to 64 bytes" ;;
  Ok tt.

Definition verify_signature (signing_pubkey signature : string) (domain : SignatureDomain)
    (canonical : bytes) : Result unit :=
  public ← b64_decode signing_pubkey;
  signature ← b64_decode signature;
  verify_domain public domain canonical signature.
End SignatureFields.

(** ** Queries *)
Module Query.

Record CapacityQuery := {
  version : Z;
  query_id : string;
  nonce : string;
  cpu_milli : Z;
  memory_bytes : Z;
  storage_bytes : Z;
  required_capabilities : list string;
  excluded_endpoint_ids : list bytes;
  reply_endpoint : EndpointRecord;
  issued_at_secs : Z;
  expires_at_secs : Z;
  signing_pubkey : string;
  signature : string
}.

Definition set_signature (s : string) (q : CapacityQuery) : CapacityQuery :=
  {| version := version q; query_id := query_id q; nonce := nonce q; cpu_milli := cpu_milli q;
     memory_bytes := memory_bytes q; storage_bytes := storage_bytes q;
     required_capabilities := required_capabilities q;
     excluded_endpoint_ids := excluded_endpoint_ids q; reply_endpoint := reply_endpoint q;
     issued_at_secs := issued_at_secs q; expires_at_secs := expires_at_secs q;
     signing_pubkey := signing_pubkey q; signature := s |}.
Definition set_signing_pubkey (s : string) (q : CapacityQuery) : CapacityQuery :=
  {| version := version q; query_id := query_id q; nonce := nonce q; cpu_milli := cpu_milli q;
     memory_bytes := memory_bytes q; storage_bytes := storage_bytes q;
     required_capabilities := required_capabilities q;
     excluded_endpoint_ids := excluded_endpoint_ids q; reply_endpoint := reply_endpoint q;
     issued_at_secs := issued_at_secs q; expires_at_secs := expires_at_secs q;
     signing_pubkey := s; signature := signature q |}.

Section Operations.
Context {P : Primitives} {CR : Postcard EndpointRecord} {CQ : Postcard CapacityQuery}.

Definition validate_unsigned (q : CapacityQuery) (now_secs : Z) : Result unit :=
  _ ← validate_common (version q) (query_id q) (issued_at_secs q) (expires_at_secs q)
        MAX_CAPACITY_QUERY_LIFETIME_SECS now_secs;
  ensure! negb (str_is_empty (nonce q)) && (str_len (nonce q) <=? MAX_CAPACITY_NONCE_LEN)
    else Err "capacity query nonce length is invalid" ;;
  ensure! (0 <? cpu_milli q) && (0 <? memory_bytes q) && (0 <? storage_bytes q)
    else Err "capacity query resources must be non-zero" ;;
  _ ← validate_capabilities (required_capabilities q);
  _ ← validate_exclusions (excluded_endpoint_ids q);
  _ ← EndpointRecord.verify (reply_endpoint q) now_secs;
  ensure! bool_decide (EndpointRecord.signing_pubkey (reply_endpoint q) = signing_pubkey q)
    else Err "capacity query signer is not bound to reply endpoint" ;;
  Ok tt.

Definition validate (q : CapacityQuery) (now_secs : Z) : Result unit :=
  _ ← validate_unsigned q now_secs; validate_signature_fields (signing_pubkey q) (signature q).

Definition canonical_bytes (q : CapacityQuery) : Result bytes :=
  encode_bounded (set_signature "" q) "canonical capacity query".

Definition sign (q : CapacityQuery) (signing_public signing_private : bytes) (now_secs : Z)
    : Result CapacityQuery :=
  let q := set_signature "" (set_signing_pubkey (b64_encode signing_public) q) in
  _ ← validate_unsigned q now_secs;
  canonical ← canonical_bytes q;
  sig ← sign_domain signing_private Crypto.CapacityQuery canonical;
  let q := set_signature (b64_encode sig) q in
  _ ← validate q now_secs;
  Ok q.

(** [self.canonical_bytes()?] is an argument of [verify_signature], so it is
    evaluated before the key and the signature are decoded. *)
Definition verify (q : CapacityQuery) (now_secs : Z) : Result unit :=
  _ ← validate q now_secs;
  canonical ← canonical_bytes q;
  verify_signature (signing_pubkey q) (signature q) Crypto.CapacityQuery canonical.

Definition to_bytes (q : CapacityQuery) (now_secs : Z) : Result bytes :=
  _ ← verify q now_secs; encode_bounded q "capacity query".

Definition from_bytes (b : bytes) (now_secs : Z) : Result CapacityQuery :=
  _ ← validate_message_size b;
  value ← ok_or (from_postcard b) "decode capacity query";
  _ ← verify value now_secs;
  Ok value.

#[global] Instance signed_query : Signed.SignedMessage CapacityQuery := {|
  Signed.domain := Crypto.CapacityQuery;
  Signed.pubkey_of := signing_pubkey;
  Signed.signature_of := signature;
  Signed.with_pubkey := set_signing_pubkey;
  Signed.with_signature := set_signature;
  Signed.validate_unsigned := validate_unsigned;
  Signed.encode := fun q => encode_bounded q "canonical capacity query";
  Signed.key_error := "signing key must decode to 32 bytes";
  Signed.signature_error := "signature must decode to 64 bytes"
|}.

#[global] Instance signed_query_laws : Signed.SignedMessageLaws CapacityQuery signed_query.
Proof. by split. Qed.

(** Signing changes nothing but the signature fields. *)
Lemma query_sign_id q pk sk now q' : sign q pk sk now = Ok q' -> query_id q' = query_id q.
Proof.
  unfold sign. cbn zeta. intros H. repeat (apply Signed.bind_ok in H as (? & _ & H)).
  by injection H as <-.
Qed.

Lemma query_verify_pattern q now : verify q now = Signed.verify q now.
Proof. by rewrite <- (Signed.verify_canonical_first q now). Qed.

End Operations.
End Query.

(** ** Offers *)
Module Offer.

Record CapacityOffer := {
  version : Z;
  query_id : string;
  agent_endpoint : EndpointRecord;
  kem_pubkey : string;
  available_cpu_milli : Z;
  available_memory_bytes : Z;
  available_storage_bytes : Z;
  capabilities : list string;
  issued_at_secs : Z;
  expires_at_secs : Z;
  signing_pubkey : string;
  signature : string
}.

Definition set_signature (s : string) (o : CapacityOffer) : CapacityOffer :=
  {| version := version o; query_id := query_id o; agent_endpoint := agent_endpoint o;
     kem_pubkey := kem_pubkey o; available_cpu_milli := available_cpu_milli o;
     available_memory_bytes := available_memory_bytes o;
     available_storage_bytes := available_storage_bytes o; capabilities := capabilities o;
     issued_at_secs := issued_at_secs o; expires_at_secs := expires_at_secs o;
     signing_pubkey := signing_pubkey o; signature := s |}.
Definition set_signing_pubkey (s : string) (o : CapacityOffer) : CapacityOffer :=
  {| version := version o; query_id := query_id o; agent_endpoint := agent_endpoint o;
     kem_pubkey := kem_pubkey o; available_cpu_milli := available_cpu_milli o;
     available_memory_bytes := available_memory_bytes o;
     available_storage_bytes := available_storage_bytes o; capabilities := capabilities o;
     issued_at_secs := issued_at_secs o; expires_at_secs := expires_at_secs o;
     signing_pubkey := s; signature := signature o |}.

Section Operations.
Context {P : Primitives} {CR : Postcard EndpointRecord} {CO : Postcard CapacityOffer}.

Definition validate_unsigned (o : CapacityOffer) (now_secs : Z) : Result unit :=
  _ ← validate_common (version o) (query_id o) (issued_at_secs o) (expires_at_secs o)
        MAX_CAPACITY_OFFER_LIFETIME_SECS now_secs;
  _ ← EndpointRecord.verify (agent_endpoint o) now_secs;
  ensure! bool_decide (EndpointRecord.signing_pubkey (agent_endpoint o) = signing_pubkey o)
    else Err "capacity offer signer is not bound to agent endpoint" ;;
  kem_public ← b64_decode (kem_pubkey o);
  ensure! len kem_public =? 32 else Err "KEM public key must decode to 32 bytes" ;;
  validate_capabilities (capabilities o).

Definition validate (o : CapacityOffer) (now_secs : Z) : Result unit :=
  _ ← validate_unsigned o now_secs; validate_signature_fields (signing_pubkey o) (signature o).

Definition canonical_bytes (o : CapacityOffer) : Result bytes :=
  encode_bounded (set_signature "" o) "canonical capacity offer".

Definition sign (o : CapacityOffer) (signing_public signing_private : bytes) (now_secs : Z)
    : Result CapacityOffer :=
  let o := set_signature "" (set_signing_pubkey (b64_encode signing_public) o) in
  _ ← validate_unsigned o now_secs;
  canonical ← canonical_bytes o;
  sig ← sign_domain signing_private Crypto.CapacityOffer canonical;
  let o := set_signature (b64_encode sig) o in
  _ ← validate o now_secs;
  Ok o.

Definition verify (o : CapacityOffer) (now_secs : Z) : Result unit :=
  _ ← validate o now_secs;
  canonical ← canonical_bytes o;
  verify_signature (signing_pubkey o) (signature o) Crypto.CapacityOffer canonical.

Definition to_bytes (o : CapacityOffer) (now_secs : Z) : Result bytes :=
  _ ← verify o now_secs; encode_bounded o "capacity offer".

Definition from_bytes (b : bytes) (now_secs : Z) : Result CapacityOffer :=
  _ ← validate_message_size b;
  value ← ok_or (from_postcard b) "decode capacity offer";
  _ ← verify value now_secs;
  Ok value.

#[global] Instance signed_offer : Signed.SignedMessage CapacityOffer := {|
  Signed.domain := Crypto.CapacityOffer;
  Signed.pubkey_of := signing_pubkey;
  Signed.signature_of := signature;
  Signed.with_pubkey := set_signing_pubkey;
  Signed.with_signature := set_signature;
  Signed.validate_unsigned := validate_unsigned;
  Signed.encode := fun o => encode_bounded o "canonical capacity offer";
  Signed.key_error := "signing key must decode to 32 bytes";
  Signed.signature_error := "signature must decode to 64 bytes"
|}.

#[global] Instance signed_offer_laws : Signed.SignedMessageLaws CapacityOffer signed_offer.
Proof. by split. Qed.

Lemma offer_verify_pattern o now : verify o now = Signed.verify o now.
Proof. by rewrite <- (Signed.verify_canonical_first o now). Qed.

End Operations.
End Offer.

(** ** Placement *)
Module Placement.

Definition PLACEMENT_PROTOCOL_VERSION : Z := 1.
Definition MAX_PLACEMENT_REQUEST_LIFETIME_SECS : Z := 15.
Definition MAX_PLACEMENT_CLOCK_SKEW_SECS : Z := 5.

Record PlacementRequest := {
  version : Z;
  request_id : string;
  cpu_milli : Z;
  memory_bytes : Z;
  storage_bytes : Z;
  required_capabilities : list string;
  excluded_endpoint_ids : list bytes;
  issued_at_secs : Z;
  expires_at_secs : Z
}.

Inductive PlacementError := NoCapacity | Busy | Internal.

Record PlacementResponse := {
  resp_version : Z;
  resp_request_id : string;
  offer : option Offer.CapacityOffer;
  error : option PlacementError
}.

Definition selected (request_id : string) (o : Offer.CapacityOffer) : PlacementResponse :=
  {| resp_version := PLACEMENT_PROTOCOL_VERSION; resp_request_id := request_id;
     offer := Some o; error := None |}.
Definition failed (request_id : string) (e : PlacementError) : PlacementResponse :=
  {| resp_version := PLACEMENT_PROTOCOL_VERSION; resp_request_id := request_id;
     offer := None; error := Some e |}.

Fixpoint capability_loop (seen : list string) (capabilities : list string) : Result unit :=
  match capabilities with
  | [] => Ok tt
  | capability :: rest =>
      ensure! negb (str_is_empty capability) && (str_len capability <=? MAX_CAPACITY_CAPABILITY_LEN)
        else Err "placement capability length is invalid" ;;
      ensure! negb (bool_decide (capability ∈ seen)) else Err "duplicate placement capability" ;;
      capability_loop (capability :: seen) rest
  end.

Fixpoint exclusion_loop (seen : list bytes) (endpoint_ids : list bytes) : Result unit :=
  match endpoint_ids with
  | [] => Ok tt
  | endpoint_id :: rest =>
      ensure! len endpoint_id =? IROH_ENDPOINT_ID_BYTES
        else Err "excluded placement EndpointId must contain 32 bytes" ;;
      ensure! negb (bool_decide (endpoint_id ∈ seen)) else Err "duplicate excluded placement endpoint" ;;
      exclusion_loop (endpoint_id :: seen) rest
  end.

Definition validate_request (r : PlacementRequest) (now_secs : Z) : Result unit :=
  ensure! version r =? PLACEMENT_PROTOCOL_VERSION else Err "unsupported placement protocol version" ;;
  ensure! negb (str_is_empty (request_id r)) && (str_len (request_id r) <=? MAX_CAPACITY_ID_LEN)
    else Err "placement request ID length is invalid" ;;
  ensure! (0 <? cpu_milli r) && (0 <? memory_bytes r) && (0 <? storage_bytes r)
    else Err "placement resources must be non-zero" ;;
  ensure! len (required_capabilities r) <=? MAX_CAPACITY_CAPABILITIES
    else Err "too many placement capabilities" ;;
  _ ← capability_loop [] (required_capabilities r);
  ensure! len (excluded_endpoint_ids r) <=? MAX_CAPACITY_EXCLUDED_ENDPOINTS
    else Err "too many excluded placement endpoints" ;;
  _ ← exclusion_loop [] (excluded_endpoint_ids r);
  ensure! issued_at_secs r <=? saturating_add u64_max now_secs MAX_PLACEMENT_CLOCK_SKEW_SECS
    else Err "placement request issue time is too far in the future" ;;
  ensure! now_secs <=? expires_at_secs r else Err "placement request expired" ;;
  ensure! (issued_at_secs r <=? expires_at_secs r) &&
          (expires_at_secs r - issued_at_secs r <=? MAX_PLACEMENT_REQUEST_LIFETIME_SECS)
    else Err "placement request lifetime is invalid" ;;
  Ok tt.

Definition validate_size (b : bytes) : Result unit :=
  ensure! (0 <? len b) && (len b <=? MAX_CAPACITY_MESSAGE_BYTES)
    else Err "placement message encoded size is invalid" ;;
  Ok tt.

Definition placement_encode_bounded {A} `{Postcard A} (value : A) (field : string) : Result bytes :=
  b ← ok_or (to_allocvec value) field;
  _ ← validate_size b;
  Ok b.

Section Operations.
Context {P : Primitives} {CR : Postcard EndpointRecord} {CO : Postcard Offer.CapacityOffer}.
Context {CReq : Postcard PlacementRequest} {CResp : Postcard PlacementResponse}.

Definition request_to_bytes (r : PlacementRequest) (now_secs : Z) : Result bytes :=
  _ ← validate_request r now_secs; placement_encode_bounded r "placement request".

Definition request_from_bytes (b : bytes) (now_secs : Z) : Result PlacementRequest :=
  _ ← validate_size b;
  r ← ok_or (from_postcard b) "decode placement request";
  _ ← validate_request r now_secs;
  Ok r.

Definition validate_response (r : PlacementResponse) (now_secs : Z) : Result unit :=
  ensure! resp_version r =? PLACEMENT_PROTOCOL_VERSION
    else Err "unsupported placement response version" ;;
  ensure! negb (str_is_empty (resp_request_id r)) && (str_len (resp_request_id r) <=? MAX_CAPACITY_ID_LEN)
    else Err "placement response ID length is invalid" ;;
  ensure! xorb (bool_decide (is_Some (offer r))) (bool_decide (is_Some (error r)))
    else Err "placement response must contain exactly one result" ;;
  match offer r with
  | Some o =>
      ensure! Offer.version o =? CAPACITY_PROTOCOL_VERSION
        else Err "invalid placement offer version" ;;
      Offer.verify o now_secs
  | None => Ok tt
  end.

Definition response_to_bytes (r : PlacementResponse) (now_secs : Z) : Result bytes :=
  _ ← validate_response r now_secs; placement_encode_bounded r "placement response".

Definition response_from_bytes (b : bytes) (now_secs : Z) : Result PlacementResponse :=
  _ ← validate_size b;
  r ← ok_or (from_postcard b) "decode placement response";
  _ ← validate_response r now_secs;
  Ok r.

End Operations.
End Placement.
End Capacity.
