(* ===== verification/MeshProtocol.v ===== *)
(** * Attachment handshake and machine relay grants

    Models shared/protocol/src/scheduler_mesh.rs (the hello an agent signs to
    attach to a scheduler and the acknowledgement it gets back) and
    shared/protocol/src/machine_relay.rs (the grants that admit a machine onto
    a relay). *)

From S2P Require Import Prelude Net Crypto Signed EndpointRecord.

Module Mesh.
Import Crypto Net.
Import EndpointRecord (EndpointRecord, IROH_ENDPOINT_ID_BYTES).

Inductive MachineRole := Scheduler | Agent | Podctl | Proxy | Sidecar.

#[export] Instance MachineRole_eq_dec : EqDecision MachineRole.
Proof. solve_decision. Defined.

Definition is_machine_relay_allowed (role : MachineRole) : bool :=
  match role with Scheduler | Agent | Podctl => true | _ => false end.

(** ** Machine relay grants *)
Module Grant.

Definition MACHINE_RELAY_GRANT_VERSION : Z := 1.
Definition MAX_MACHINE_RELAY_GRANT_BYTES : Z := 2 * 1024.
(** [4 * MAX_MACHINE_RELAY_GRANT_BYTES.div_ceil(3)] *)
Definition MAX_MACHINE_RELAY_AUTH_TOKEN_LEN : Z := 4 * ((MAX_MACHINE_RELAY_GRANT_BYTES + 2) / 3).
Definition MAX_MACHINE_RELAY_GRANT_LIFETIME_SECS : Z := 5 * 60.
Definition MAX_MACHINE_RELAY_CLOCK_SKEW_SECS : Z := 30.
Definition MAX_MACHINE_RELAY_AUDIENCE_LEN : Z := 2048.
Definition MAX_MACHINE_RELAY_TOKEN_ID_LEN : Z := 128.

Record MachineRelayGrant := {
  version : Z;
  subject_endpoint_id : bytes;
  role : MachineRole;
  relay_audience : string;
  issued_at_secs : Z;
  expires_at_secs : Z;
  token_id : string;
  issuer_pubkey : string;
  signature : string
}.

Definition set_signature (s : string) (g : MachineRelayGrant) : MachineRelayGrant :=
  {| version := version g; subject_endpoint_id := subject_endpoint_id g; role := role g;
     relay_audience := relay_audience g; issued_at_secs := issued_at_secs g;
     expires_at_secs := expires_at_secs g; token_id := token_id g;
     issuer_pubkey := issuer_pubkey g; signature := s |}.
Definition set_issuer_pubkey (s : string) (g : MachineRelayGrant) : MachineRelayGrant :=
  {| version := version g; subject_endpoint_id := subject_endpoint_id g; role := role g;
     relay_audience := relay_audience g; issued_at_secs := issued_at_secs g;
     expires_at_secs := expires_at_secs g; token_id := token_id g;
     issuer_pubkey := s; signature := signature g |}.

Definition validate_audience (value : string) : Result unit :=
  ensure! negb (str_is_empty value) && (str_len value <=? MAX_MACHINE_RELAY_AUDIENCE_LEN)
    else Err "relay grant audience length is invalid" ;;
  ensure! starts_with "https://" value || starts_with "http://" value
    else Err "relay grant audience must use HTTP or HTTPS" ;;
  ensure! negb (any_char (fun b => is_ascii_whitespace b || is_ascii_control b) value)
    else Err "relay grant audience contains invalid characters" ;;
  Ok tt.

Definition validate_encoded_size (b : bytes) : Result unit :=
  ensure! (0 <? len b) && (len b <=? MAX_MACHINE_RELAY_GRANT_BYTES)
    else Err "machine relay grant encoded size is invalid" ;;
  Ok tt.

Definition validate_unsigned (g : MachineRelayGrant) (now_secs : Z) : Result unit :=
  ensure! version g =? MACHINE_RELAY_GRANT_VERSION
    else Err "unsupported machine relay grant version" ;;
  ensure! len (subject_endpoint_id g) =? IROH_ENDPOINT_ID_BYTES
    else Err "relay grant subject must contain 32 bytes" ;;
  _ ← validate_audience (relay_audience g);
  ensure! negb (str_is_empty (token_id g)) && (str_len (token_id g) <=? MAX_MACHINE_RELAY_TOKEN_ID_LEN)
    else Err "relay grant token ID length is invalid" ;;
  ensure! issued_at_secs g <=? saturating_add u64_max now_secs MAX_MACHINE_RELAY_CLOCK_SKEW_SECS
    else Err "relay grant issue time is too far in the future" ;;
  ensure! now_secs <=? expires_at_secs g else Err "relay grant expired" ;;
  ensure! issued_at_secs g <=? expires_at_secs g else Err "relay grant expiry precedes issue time" ;;
  ensure! saturating_sub (expires_at_secs g) (issued_at_secs g) <=? MAX_MACHINE_RELAY_GRANT_LIFETIME_SECS
    else Err "relay grant lifetime exceeds limit" ;;
  Ok tt.

Section Operations.
Context {P : Primitives} {C : Postcard MachineRelayGrant}.

Definition canonical_bytes (g : MachineRelayGrant) : Result bytes :=
  b ← ok_or (to_allocvec (set_signature "" g)) "serialize canonical machine relay grant";
  _ ← validate_encoded_size b;
  Ok b.

Definition validate (g : MachineRelayGrant) (now_secs : Z) : Result unit :=
  _ ← validate_unsigned g now_secs;
  k ← b64_decode (issuer_pubkey g);
  ensure! len k =? 32 else Err "relay grant issuer key must decode to 32 bytes" ;;
  s ← b64_decode (signature g);
  ensure! len s =? 64 else Err "relay grant signature must decode to 64 bytes" ;;
  Ok tt.

Definition sign (g : MachineRelayGrant) (issuer_public issuer_private : bytes) (now_secs : Z)
    : Result MachineRelayGrant :=
  let g := set_signature "" (set_issuer_pubkey (b64_encode issuer_public) g) in
  _ ← validate_unsigned g now_secs;
  canonical ← canonical_bytes g;
  sig ← sign_domain issuer_private Crypto.MachineRelayGrant canonical;
  let g := set_signature (b64_encode sig) g in
  _ ← validate g now_secs;
  Ok g.

Definition verify (g : MachineRelayGrant) (trusted_issuers : list bytes)
    (expected_subject_endpoint_id : bytes) (expected_relay_audience : string) (now_secs : Z)
    : Result unit :=
  _ ← validate g now_secs;
  ensure! bool_decide (subject_endpoint_id g = expected_subject_endpoint_id)
    else Err "relay grant subject does not match authenticated endpoint" ;;
  ensure! bool_decide (relay_audience g = expected_relay_audience)
    else Err "relay grant audience does not match relay" ;;
  ensure! is_machine_relay_allowed (role g) else Err "role is not allowed on machine relay" ;;
  issuer_public ← b64_decode (issuer_pubkey g);
  ensure! existsb (fun trusted => bool_decide (trusted = issuer_public)) trusted_issuers
    else Err "relay grant issuer is not trusted" ;;
  sig ← b64_decode (signature g);
  canonical ← canonical_bytes g;
  verify_domain issuer_public Crypto.MachineRelayGrant canonical sig.

Definition to_bytes (g : MachineRelayGrant) (now_secs : Z) : Result bytes :=
  _ ← validate g now_secs;
  b ← ok_or (to_allocvec g) "serialize machine relay grant";
  _ ← validate_encoded_size b;
  Ok b.

Definition from_bytes (b : bytes) (now_secs : Z) : Result MachineRelayGrant :=
  _ ← validate_encoded_size b;
  g ← ok_or (from_postcard b) "decode machine relay grant";
  _ ← validate g now_secs;
  Ok g.

Definition to_auth_token (g : MachineRelayGrant) (now_secs : Z) : Result string :=
  b ← to_bytes g now_secs; Ok (b64_encode b).

Definition from_auth_token (token : string) (now_secs : Z) : Result MachineRelayGrant :=
  ensure! negb (str_is_empty token) && (str_len token <=? MAX_MACHINE_RELAY_AUTH_TOKEN_LEN)
    else Err "machine relay authorization token length is invalid" ;;
  b ← b64_decode token; from_bytes b now_secs.

#[global] Instance signed_grant : Signed.SignedMessage MachineRelayGrant := {|
  Signed.domain := Crypto.MachineRelayGrant;
  Signed.pubkey_of := issuer_pubkey;
  Signed.signature_of := signature;
  Signed.with_pubkey := set_issuer_pubkey;
  Signed.with_signature := set_signature;
  Signed.validate_unsigned := validate_unsigned;
  Signed.encode := fun g => b ← ok_or (to_allocvec g) "serialize canonical machine relay grant";
                            _ ← validate_encoded_size b; Ok b;
  Signed.key_error := "relay grant issuer key must decode to 32 bytes";
  Signed.signature_error := "relay grant signature must decode to 64 bytes"
|}.

#[global] Instance signed_grant_laws : Signed.SignedMessageLaws MachineRelayGrant signed_grant.
Proof. by split. Qed.

Lemma grant_sign_pattern g pk sk now : sign g pk sk now = Signed.sign g pk sk now.
Proof. done. Qed.

End Operations.
End Grant.

(** ** The attachment handshake *)
Module Hello.

Definition SCHEDULER_MESH_PROTOCOL_VERSION : Z := 1.
Definition MAX_AGENT_ATTACHMENT_BYTES : Z := 8 * 1024.
Definition MAX_AGENT_ATTACHMENT_LIFETIME_SECS : Z := 60.
Definition MAX_AGENT_ATTACHMENT_NONCE_LEN : Z := 128.
Definition MAX_AGENT_ATTACHMENT_CLOCK_SKEW_SECS : Z := 5.
Definition MAX_ATTACHMENT_RELAY_GRANTS : Z := 16.

Record AgentAttachmentHello := {
  version : Z;
  role : MachineRole;
  agent_endpoint : EndpointRecord;
  nonce : string;
  issued_at_secs : Z;
  expires_at_secs : Z;
  signing_pubkey : string;
  signature : string
}.

Definition set_signature (s : string) (h : AgentAttachmentHello) : AgentAttachmentHello :=
  {| version := version h; role := role h; agent_endpoint := agent_endpoint h; nonce := nonce h;
     issued_at_secs := issued_at_secs h; expires_at_secs := expires_at_secs h;
     signing_pubkey := signing_pubkey h; signature := s |}.
Definition set_signing_pubkey (s : string) (h : AgentAttachmentHello) : AgentAttachmentHello :=
  {| version := version h; role := role h; agent_endpoint := agent_endpoint h; nonce := nonce h;
     issued_at_secs := issued_at_secs h; expires_at_secs := expires_at_secs h;
     signing_pubkey := s; signature := signature h |}.

Record AgentAttachmentAck := {
  ack_version : Z;
  relay_grants : list string;
  refresh_after_secs : Z
}.

Definition validate_size (b : bytes) : Result unit :=
  ensure! (0 <? len b) && (len b <=? MAX_AGENT_ATTACHMENT_BYTES)
    else Err "agent attachment encoded size is invalid" ;;
  Ok tt.

Definition encode_bounded {A} `{Postcard A} (value : A) : Result bytes :=
  b ← ok_or (to_allocvec value) "serialize agent attachment hello";
  _ ← validate_size b;
  Ok b.

Section Operations.
Context {P : Primitives} {CR : Postcard EndpointRecord} {CH : Postcard AgentAttachmentHello}.
Context {CA : Postcard AgentAttachmentAck}.

Definition validate_unsigned (h : AgentAttachmentHello) (now_secs : Z) : Result unit :=
  ensure! version h =? SCHEDULER_MESH_PROTOCOL_VERSION else Err "unsupported agent attachment version" ;;
  ensure! bool_decide (role h = Agent) else Err "agent attachment requires the agent role" ;;
  _ ← EndpointRecord.verify (agent_endpoint h) now_secs;
  ensure! bool_decide (EndpointRecord.signing_pubkey (agent_endpoint h) = signing_pubkey h)
    else Err "agent attachment signer is not bound to endpoint record" ;;
  ensure! negb (str_is_empty (nonce h)) && (str_len (nonce h) <=? MAX_AGENT_ATTACHMENT_NONCE_LEN)
    else Err "agent attachment nonce length is invalid" ;;
  ensure! issued_at_secs h <=? saturating_add u64_max now_secs MAX_AGENT_ATTACHMENT_CLOCK_SKEW_SECS
    else Err "agent attachment issue time is too far in the future" ;;
  ensure! now_secs <=? expires_at_secs h else Err "agent attachment expired" ;;
  ensure! (issued_at_secs h <=? expires_at_secs h) &&
          (expires_at_secs h - issued_at_secs h <=? MAX_AGENT_ATTACHMENT_LIFETIME_SECS)
    else Err "agent attachment lifetime is invalid" ;;
  Ok tt.

Definition validate (h : AgentAttachmentHello) (now_secs : Z) : Result unit :=
  _ ← validate_unsigned h now_secs;
  k ← b64_decode (signing_pubkey h);
  ensure! len k =? 32 else Err "agent attachment signing key must decode to 32 bytes" ;;
  s ← b64_decode (signature h);
  ensure! len s =? 64 else Err "agent attachment signature must decode to 64 bytes" ;;
  Ok tt.

Definition canonical_bytes (h : AgentAttachmentHello) : Result bytes :=
  encode_bounded (set_signature "" h).

Definition sign (h : AgentAttachmentHello) (signing_public signing_private : bytes) (now_secs : Z)
    : Result AgentAttachmentHello :=
  let h := set_signature "" (set_signing_pubkey (b64_encode signing_public) h) in
  _ ← validate_unsigned h now_secs;
  canonical ← canonical_bytes h;
  sig ← sign_domain signing_private Crypto.AgentAttachmentHello canonical;
  let h := set_signature (b64_encode sig) h in
  _ ← validate h now_secs;
  Ok h.

Definition verify (h : AgentAttachmentHello) (now_secs : Z) : Result unit :=
  _ ← validate h now_secs;
  public ← b64_decode (signing_pubkey h);
  sig ← b64_decode (signature h);
  canonical ← canonical_bytes h;
  verify_domain public Crypto.AgentAttachmentHello canonical sig.

Definition to_bytes (h : AgentAttachmentHello) (now_secs : Z) : Result bytes :=
  _ ← verify h now_secs; encode_bounded h.

Definition from_bytes (b : bytes) (now_secs : Z) : Result AgentAttachmentHello :=
  _ ← validate_size b;
  h ← ok_or (from_postcard b) "decode agent attachment hello";
  _ ← verify h now_secs;
  Ok h.

(** The loop over the grants of an acknowledgement. *)
Fixpoint grant_length_loop (grants : list string) : Result unit :=
  match grants with
  | [] => Ok tt
  | grant :: rest =>
      ensure! negb (str_is_empty grant) && (str_len grant <=? Grant.MAX_MACHINE_RELAY_AUTH_TOKEN_LEN)
        else Err "attachment relay grant length is invalid" ;;
      grant_length_loop rest
  end.

Definition ack_validate (a : AgentAttachmentAck) (now_secs : Z) : Result unit :=
  ensure! ack_version a =? SCHEDULER_MESH_PROTOCOL_VERSION
    else Err "unsupported agent attachment acknowledgement version" ;;
  ensure! len (relay_grants a) <=? MAX_ATTACHMENT_RELAY_GRANTS
    else Err "too many attachment relay grants" ;;
  ensure! now_secs <? refresh_after_secs a
    else Err "agent attachment refresh deadline must be in the future" ;;
  grant_length_loop (relay_grants a).

Definition ack_to_bytes (a : AgentAttachmentAck) (now_secs : Z) : Result bytes :=
  _ ← ack_validate a now_secs; encode_bounded a.

Definition ack_from_bytes (b : bytes) (now_secs : Z) : Result AgentAttachmentAck :=
  _ ← validate_size b;
  a ← ok_or (from_postcard b) "decode agent attachment ack";
  _ ← ack_validate a now_secs;
  Ok a.

#[global] Instance signed_hello : Signed.SignedMessage AgentAttachmentHello := {|
  Signed.domain := Crypto.AgentAttachmentHello;
  Signed.pubkey_of := signing_pubkey;
  Signed.signature_of := signature;
  Signed.with_pubkey := set_signing_pubkey;
  Signed.with_signature := set_signature;
  Signed.validate_unsigned := validate_unsigned;
  Signed.encode := encode_bounded;
  Signed.key_error := "agent attachment signing key must decode to 32 bytes";
  Signed.signature_error := "agent attachment signature must decode to 64 bytes"
|}.

#[global] Instance signed_hello_laws : Signed.SignedMessageLaws AgentAttachmentHello signed_hello.
Proof. by split. Qed.

Lemma hello_verify_pattern h now : verify h now = Signed.verify h now.
Proof. done. Qed.

End Operations.
End Hello.
End Mesh.
