(* ===== verification/Messages.v ===== *)
(** * Theorems about the wire messages

    Signing, verification and encoding of endpoint records, capacity queries
    and offers, attachment hellos, relay grants and placement messages: what an
    honest signer produces is accepted, encodings round-trip, and acceptance
    implies the time window, the size bounds and the signer bindings. *)

From S2P Require Import Prelude Net Crypto Signed EndpointRecord CapacityProtocol MeshProtocol.

Module Messages.
Import Crypto Capacity Mesh.

Section Theorems.
Context {P : Primitives} {L : PrimitiveLaws P}.
Context {CR : Postcard EndpointRecord.EndpointRecord} {CRL : PostcardLaws _ CR}.
Context {CQ : Postcard Query.CapacityQuery} {CQL : PostcardLaws _ CQ}.
Context {CO : Postcard Offer.CapacityOffer} {COL : PostcardLaws _ CO}.
Context {CH : Postcard Hello.AgentAttachmentHello} {CHL : PostcardLaws _ CH}.
Context {CA : Postcard Hello.AgentAttachmentAck} {CAL : PostcardLaws _ CA}.
Context {CG : Postcard Grant.MachineRelayGrant} {CGL : PostcardLaws _ CG}.
Context {CPR : Postcard Placement.PlacementRequest} {CPRL : PostcardLaws _ CPR}.
Context {CPS : Postcard Placement.PlacementResponse} {CPSL : PostcardLaws _ CPS}.

(** A grant that was signed for its own subject and audience. *)
Lemma grant_sign_verify g g' pk sk trusted now :
  pk = ed_public sk -> ed_key_weak pk = false -> pk ∈ trusted ->
  is_machine_relay_allowed (Grant.role g) = true ->
  Grant.sign g pk sk now = Ok g' ->
  Grant.verify g' trusted (Grant.subject_endpoint_id g) (Grant.relay_audience g) now = Ok tt.
Proof.
  intros Hpk Hweak Hin Hrole Hsign.
  pose proof (Signed.sign_verify g g' pk sk now Hpk Hweak Hsign) as Hv.
  assert (Grant.subject_endpoint_id g' = Grant.subject_endpoint_id g /\
    Grant.relay_audience g' = Grant.relay_audience g /\ Grant.role g' = Grant.role g /\
    Grant.issuer_pubkey g' = b64_encode pk) as (Hsub & Haud & Hr & Hk).
  { unfold Grant.sign in Hsign. do 4 (apply Signed.bind_ok in Hsign as (? & _ & Hsign)).
    by injection Hsign as <-. }
  unfold Signed.verify in Hv. apply Signed.bind_ok in Hv as ([] & Hval & Hv).
  unfold Grant.verify. change (Grant.validate g' now) with (Signed.validate g' now).
  rewrite Hval, Signed.bind_eq, Hsub, Haud, Hr, Hrole. rewrite !bool_decide_true by done.
  unfold Signed.verify_signature in Hv. cbn [Signed.pubkey_of Grant.signed_grant] in Hv.
  rewrite Hk, b64_roundtrip, Signed.bind_eq in *.
  assert (existsb (fun trusted => bool_decide (trusted = pk)) trusted = true) as ->.
  { apply existsb_exists. exists pk. split; [by apply list_elem_of_In|by apply bool_decide_true]. }
  exact Hv.
Qed.

(** Whatever an honest signer signs is accepted at that time: for every
    key pair whose public key is not of small order, an endpoint record, a
    capacity query, a capacity offer and an attachment hello that [sign]
    returns all pass [verify], and a relay grant signed by a trusted issuer for
    a machine role passes [verify] for its own subject and audience. *)
Theorem signed_messages_verify (pk sk : bytes) (now : Z) :
  pk = ed_public sk -> ed_key_weak pk = false ->
  (forall r r', EndpointRecord.sign r pk sk now = Ok r' -> EndpointRecord.verify r' now = Ok tt) /\
  (forall q q', Query.sign q pk sk now = Ok q' -> Query.verify q' now = Ok tt) /\
  (forall o o', Offer.sign o pk sk now = Ok o' -> Offer.verify o' now = Ok tt) /\
  (forall h h', Hello.sign h pk sk now = Ok h' -> Hello.verify h' now = Ok tt) /\
  (forall g g' trusted, pk ∈ trusted -> is_machine_relay_allowed (Grant.role g) = true ->
     Grant.sign g pk sk now = Ok g' ->
     Grant.verify g' trusted (Grant.subject_endpoint_id g) (Grant.relay_audience g) now = Ok tt).
Proof.
  intros Hpk Hweak. split; [|split; [|split; [|split]]].
  - intros r r' Hs. rewrite EndpointRecord.record_verify_pattern. by apply (Signed.sign_verify r r' pk sk now).
  - intros q q' Hs. rewrite Query.query_verify_pattern. by apply (Signed.sign_verify q q' pk sk now).
  - intros o o' Hs. rewrite Offer.offer_verify_pattern. by apply (Signed.sign_verify o o' pk sk now).
  - intros h h' Hs. rewrite Hello.hello_verify_pattern. by apply (Signed.sign_verify h h' pk sk now).
  - intros g g' trusted Hin Hrole Hs. by eapply grant_sign_verify.
Qed.

(** Encoding followed by decoding, for a message whose validity check is [v]
    and whose size check is [size]. *)
Lemma encode_decode {A} `{CL : PostcardLaws A} (v : A -> Result unit) (size : bytes -> Result unit)
    (a : A) (b : bytes) (e e' : string) :
  (_ ← v a; b ← ok_or (to_allocvec a) e; _ ← size b; Ok b) = Ok b ->
  (_ ← size b; r ← ok_or (from_postcard b) e'; _ ← v r; Ok r) = Ok a.
Proof.
  intros H. apply Signed.bind_ok in H as ([] & Hv & H). apply Signed.bind_ok in H as (b' & Hb & H).
  apply Signed.bind_ok in H as ([] & Hsize & [= ->]). rewrite Hsize, Signed.bind_eq.
  unfold ok_or in Hb. case_match eqn:He; simplify_eq.
  rewrite (postcard_roundtrip _ _ He). cbn. by rewrite Hv.
Qed.

Lemma grant_token_roundtrip g t now :
  Grant.to_auth_token g now = Ok t -> Grant.from_auth_token t now = Ok g.
Proof.
  unfold Grant.to_auth_token. intros H. apply Signed.bind_ok in H as (b & Hb & [= <-]).
  assert (0 < len b <= Grant.MAX_MACHINE_RELAY_GRANT_BYTES) as Hlen.
  { revert Hb. unfold Grant.to_bytes, Grant.validate_encoded_size. intros Hb.
    apply Signed.bind_ok in Hb as (_ & _ & Hb). apply Signed.bind_ok in Hb as (b' & _ & Hb).
    case_match eqn:E; [|done]. cbn in Hb. simplify_eq. lia. }
  unfold Grant.from_auth_token. pose proof (base64_len b) as [Hlo Hhi].
  unfold b64_encode at 1 2, str_is_empty. rewrite bool_decide_false by (intros Hz; rewrite Hz in Hlo; change (str_len EmptyString) with 0 in Hlo; lia).
  replace (str_len _ <=? _) with true.
  - cbn [negb andb]. rewrite b64_roundtrip. cbn.
    by apply (encode_decode (fun g => Grant.validate g now) Grant.validate_encoded_size g b
      "serialize machine relay grant").
  - symmetry. apply Z.leb_le. etrans; [exact Hhi|]. unfold Grant.MAX_MACHINE_RELAY_AUTH_TOKEN_LEN.
    unfold Grant.MAX_MACHINE_RELAY_GRANT_BYTES in *. Z.to_euclidean_division_equations. lia.
Qed.

(** Every message round-trips through its encoding: the bytes [to_bytes]
    returns decode, at the same time, to the message they came from.  This
    includes the base64 form of relay grants and both placement messages. *)
Theorem messages_roundtrip (now : Z) :
  (forall r b, EndpointRecord.to_bytes r now = Ok b -> EndpointRecord.from_bytes b now = Ok r) /\
  (forall q b, Query.to_bytes q now = Ok b -> Query.from_bytes b now = Ok q) /\
  (forall o b, Offer.to_bytes o now = Ok b -> Offer.from_bytes b now = Ok o) /\
  (forall h b, Hello.to_bytes h now = Ok b -> Hello.from_bytes b now = Ok h) /\
  (forall a b, Hello.ack_to_bytes a now = Ok b -> Hello.ack_from_bytes b now = Ok a) /\
  (forall g b, Grant.to_bytes g now = Ok b -> Grant.from_bytes b now = Ok g) /\
  (forall g t, Grant.to_auth_token g now = Ok t -> Grant.from_auth_token t now = Ok g) /\
  (forall r b, Placement.request_to_bytes r now = Ok b -> Placement.request_from_bytes b now = Ok r) /\
  (forall r b, Placement.response_to_bytes r now = Ok b -> Placement.response_from_bytes b now = Ok r).
Proof.
  repeat split.
  - intros r b. by apply (encode_decode (fun r => EndpointRecord.verify r now) EndpointRecord.validate_encoded_size).
  - intros q b. by apply (encode_decode (fun q => Query.verify q now) validate_message_size).
  - intros o b. by apply (encode_decode (fun o => Offer.verify o now) validate_message_size).
  - intros h b. by apply (encode_decode (fun h => Hello.verify h now) Hello.validate_size).
  - intros a b. by apply (encode_decode (fun a => Hello.ack_validate a now) Hello.validate_size).
  - intros g b. by apply (encode_decode (fun g => Grant.validate g now) Grant.validate_encoded_size).
  - intros g t. apply grant_token_roundtrip.
  - intros r b. by apply (encode_decode (fun r => Placement.validate_request r now) Placement.validate_size).
  - intros r b. by apply (encode_decode (fun r => Placement.validate_response r now) Placement.validate_size).
Qed.

(** ** What acceptance implies *)

(** Turns the boolean tests of a successful validation into propositions. *)
Ltac tests :=
  repeat match goal with
  | H : (_ && _)%bool = true |- _ => apply andb_true_iff in H as [? ?]
  | H : (_ =? _) = true |- _ => apply Z.eqb_eq in H
  | H : (_ <=? _) = true |- _ => apply Z.leb_le in H
  | H : (_ <? _) = true |- _ => apply Z.ltb_lt in H
  | H : bool_decide _ = true |- _ => apply bool_decide_eq_true in H
  | H : negb _ = true |- _ => apply negb_true_iff in H
  | H : str_is_empty _ = _ |- _ => unfold str_is_empty in H
  | H : bool_decide _ = false |- _ => apply bool_decide_eq_false in H
  end.

Lemma address_loop_ok unique addresses :
  EndpointRecord.validate_address_loop unique addresses = Ok tt ->
  exists parsed, mapM Net.parse_socket_addr addresses = Some parsed /\ NoDup parsed /\
    (forall a, a ∈ parsed -> a ∉ unique).
Proof.
  revert unique. induction addresses as [|s l IH]; intros unique H; cbn in H.
  - exists []. split; [done|]. split; [constructor|]. by intros ? ?%not_elem_of_nil.
  - case_match; [|done]. unfold ok_or in H. destruct (Net.parse_socket_addr s) as [p|] eqn:Hp; [|done].
    cbn in H. case_bool_decide as Hd; [done|]. destruct (IH _ H) as (ps & Hps & Hnd & Hdis).
    exists (p :: ps). cbn. rewrite Hp. cbn. rewrite Hps. split; [done|]. split.
    + constructor; [|done]. intros Hin%Hdis. apply Hin. left.
    + intros a [->|Ha]%elem_of_cons; [done|]. intros Hu. apply (Hdis a Ha). by right.
Qed.

Lemma capability_loop_ok unique l :
  capability_loop unique l = Ok tt -> NoDup l /\ (forall c, c ∈ l -> c ∉ unique /\ c <> EmptyString).
Proof.
  revert unique. induction l as [|c l IH]; intros unique H; cbn in H.
  - split; [constructor|]. by intros ? ?%not_elem_of_nil.
  - case_match eqn:Hc; [|done]. case_match eqn:Hd; [|done]. tests.
    destruct (IH _ H) as [Hnd Hdis]. split.
    + constructor; [|done]. intros [Hin _]%Hdis. apply Hin. left.
    + intros x [->|Hx]%elem_of_cons; [done|]. destruct (Hdis x Hx) as [Hu ?].
      split; [|done]. intros ?. apply Hu. by right.
Qed.

(** The time window shared by the messages. *)
Lemma window_ok issued expires now skew life :
  issued <= saturating_add u64_max now skew -> now <= expires ->
  saturating_sub expires issued <= life -> issued <= expires ->
  issued <= now + skew /\ now <= expires <= issued + life /\ expires <= now + skew + life.
Proof. unfold saturating_add, saturating_sub. lia. Qed.

Definition signed_by (key : string) (sig : string) (d : SignatureDomain) (canonical : bytes) : Prop :=
  exists public s, b64_decode key = Ok public /\ b64_decode sig = Ok s /\
    len public = 32 /\ len s = 64 /\ ed_verify_strict public (bind d canonical) s = true.

(** An endpoint record that verifies at time [now] names a 32-byte
    endpoint, offers a relay or at least one address, lists at most eight
    addresses that all parse to distinct socket addresses, was issued at most a
    minute ahead of the verifier's clock, has not expired, lives at most an
    hour, and carries a signature by the key it names over its own content. *)
Theorem accepted_record (r : EndpointRecord.EndpointRecord) (now : Z) :
  EndpointRecord.verify r now = Ok tt ->
  EndpointRecord.version r = 1 /\ len (EndpointRecord.endpoint_id r) = 32 /\
  (is_Some (EndpointRecord.relay_url r) \/ EndpointRecord.direct_addresses r <> []) /\
  len (EndpointRecord.direct_addresses r) <= 8 /\
  (exists parsed, mapM Net.parse_socket_addr (EndpointRecord.direct_addresses r) = Some parsed /\ NoDup parsed) /\
  EndpointRecord.issued_at_secs r <= now + 60 /\
  now <= EndpointRecord.expires_at_secs r <= EndpointRecord.issued_at_secs r + 3600 /\
  (exists canonical, EndpointRecord.canonical_bytes r = Ok canonical /\
     signed_by (EndpointRecord.signing_pubkey r) (EndpointRecord.signature r) Crypto.EndpointRecord canonical).
Proof.
  rewrite EndpointRecord.record_verify_pattern.
  intros (Hun & public & sig & canonical & Hk & Hs & Hc & Hk32 & Hs64 & Hv)%Signed.verify_inv.
  change (EndpointRecord.validate_unsigned r now = Ok tt) in Hun.
  unfold EndpointRecord.validate_unsigned in Hun. Signed.result_inv Hun. tests.
  pose proof (window_ok (EndpointRecord.issued_at_secs r) (EndpointRecord.expires_at_secs r) now 60 3600
    ltac:(assumption) ltac:(assumption) ltac:(assumption) ltac:(assumption)) as (Hw1 & Hw2 & _).
  unfold EndpointRecord.validate_direct_addresses in Hx0. destruct x0. Signed.result_inv Hx0. tests.
  destruct (address_loop_ok _ _ Hx0) as (parsed & Hp & Hnd & _).
  split; [done|]. split; [done|]. split.
  { apply orb_true_iff in Hc2 as [?|?]; tests; auto. }
  split; [done|]. split; [eauto|]. split; [done|]. split; [done|].
  exists canonical. split; [done|]. exists public, sig. done.
Qed.

(** Verification is the structural check plus freshness: for a record
    whose issue time is a [u64], [verify] at [now] succeeds exactly when
    [verify_structure] does and the record was not issued too far ahead of
    [now] and has not expired.  So a record that verified once is still read
    back by [verify_structure] at any later time. *)
Theorem verify_is_structure_and_freshness (r : EndpointRecord.EndpointRecord) (now : Z) :
  0 <= EndpointRecord.issued_at_secs r <= u64_max ->
  EndpointRecord.verify r now = Ok tt <->
  EndpointRecord.verify_structure r = Ok tt /\
  EndpointRecord.issued_at_secs r <= saturating_add u64_max now 60 /\
  now <= EndpointRecord.expires_at_secs r.
Proof.
  intros Hu64. unfold EndpointRecord.verify, EndpointRecord.verify_structure.
  unfold EndpointRecord.validate, EndpointRecord.validate_structure, EndpointRecord.validate_unsigned.
  unfold EndpointRecord.MAX_ENDPOINT_RECORD_CLOCK_SKEW_SECS.
  assert (EndpointRecord.issued_at_secs r <=? saturating_add u64_max (EndpointRecord.issued_at_secs r) 60 = true) as Hself.
  { apply Z.leb_le. unfold saturating_add. lia. }
  rewrite Hself.
  destruct (EndpointRecord.version r =? _); [|cbn; naive_solver].
  destruct (len (EndpointRecord.endpoint_id r) =? _); [|cbn; naive_solver].
  destruct (_ || _)%bool; [|cbn; naive_solver].
  destruct (match EndpointRecord.relay_url r with Some _ => _ | None => _ end); [cbn|cbn; naive_solver].
  destruct (EndpointRecord.validate_direct_addresses _); [cbn|cbn; naive_solver].
  destruct (EndpointRecord.issued_at_secs r <=? saturating_add u64_max now 60) eqn:E1; tests;
    [|apply Z.leb_gt in E1; cbn; split; [done|lia]].
  destruct (now <=? EndpointRecord.expires_at_secs r) eqn:E2; tests;
    [|apply Z.leb_gt in E2; cbn; split; [done|lia]].
  destruct (EndpointRecord.issued_at_secs r <=? EndpointRecord.expires_at_secs r); [|cbn; naive_solver].
  destruct (saturating_sub _ _ <=? _); [|cbn; naive_solver]. naive_solver.
Qed.

(** A capacity offer that verifies is bound to the agent it names: its
    agent record itself verifies at that time and carries the same signing key
    as the offer, the sealing key is 32 bytes, the offer expires within fifteen
    seconds of being issued and twenty of the verifier's clock, and it lists at
    most 32 distinct non-empty capabilities. *)
Theorem accepted_offer (o : Offer.CapacityOffer) (now : Z) :
  Offer.verify o now = Ok tt ->
  EndpointRecord.verify (Offer.agent_endpoint o) now = Ok tt /\
  EndpointRecord.signing_pubkey (Offer.agent_endpoint o) = Offer.signing_pubkey o /\
  (exists kem, b64_decode (Offer.kem_pubkey o) = Ok kem /\ len kem = 32) /\
  now <= Offer.expires_at_secs o <= Offer.issued_at_secs o + 15 /\
  Offer.expires_at_secs o <= now + 20 /\
  len (Offer.capabilities o) <= 32 /\ NoDup (Offer.capabilities o) /\
  (forall c, c ∈ Offer.capabilities o -> c <> EmptyString) /\
  (exists canonical, Offer.canonical_bytes o = Ok canonical /\
     signed_by (Offer.signing_pubkey o) (Offer.signature o) Crypto.CapacityOffer canonical).
Proof.
  rewrite Offer.offer_verify_pattern.
  intros (Hun & public & sig & canonical & Hk & Hs & Hc & Hk32 & Hs64 & Hv)%Signed.verify_inv.
  change (Offer.validate_unsigned o now = Ok tt) in Hun.
  unfold Offer.validate_unsigned in Hun. Signed.result_inv Hun. tests. destruct x, x0.
  unfold validate_common in Hx. Signed.result_inv Hx. unfold validate_capabilities in Hun.
  Signed.result_inv Hun. tests.
  pose proof (window_ok (Offer.issued_at_secs o) (Offer.expires_at_secs o) now 5 15
    ltac:(assumption) ltac:(assumption) ltac:(assumption) ltac:(assumption)) as (Hw1 & Hw2 & Hw3).
  destruct (capability_loop_ok _ _ Hun) as [Hnd Hcap].
  split; [done|]. split; [done|]. split; [eauto|]. split; [done|]. split; [lia|].
  split; [done|]. split; [done|]. split; [intros c ?; by apply Hcap|].
  exists canonical. split; [done|]. exists public, sig. done.
Qed.

(** A relay admits a grant exactly for the subject and audience it was
    issued for: [verify] succeeds if and only if the grant is well formed and
    fresh, names the authenticated endpoint and this relay, has a machine role,
    and is signed by a trusted issuer. *)
Theorem grant_authorization (g : Grant.MachineRelayGrant) (trusted : list bytes)
    (subject : bytes) (audience : string) (now : Z) :
  Grant.verify g trusted subject audience now = Ok tt <->
  Grant.validate g now = Ok tt /\
  Grant.subject_endpoint_id g = subject /\ Grant.relay_audience g = audience /\
  (Grant.role g = Scheduler \/ Grant.role g = Agent \/ Grant.role g = Podctl) /\
  exists issuer sig canonical,
    issuer ∈ trusted /\ b64_decode (Grant.issuer_pubkey g) = Ok issuer /\
    b64_decode (Grant.signature g) = Ok sig /\ Grant.canonical_bytes g = Ok canonical /\
    verify_domain issuer Crypto.MachineRelayGrant canonical sig = Ok tt.
Proof.
  unfold Grant.verify. split.
  - intros H. apply Signed.bind_ok in H as ([] & Hval & H). Signed.result_inv H. tests.
    split; [done|]. split; [done|]. split; [done|]. split.
    { unfold is_machine_relay_allowed in Hc1. destruct (Grant.role g); auto; done. }
    apply existsb_exists in Hc2 as (k & Hk & Heq). tests. subst k.
    exists x, x0, x1. split; [by apply list_elem_of_In|]. repeat (split; [done|]).
    unfold verify_domain. by rewrite Hx2, Hx3, Hc3.
  - intros (Hval & Hsub & Haud & Hrole & issuer & sig & canonical & Hin & Hi & Hs & Hc & Hv).
    rewrite Hval, Signed.bind_eq. rewrite !bool_decide_true by done.
    replace (is_machine_relay_allowed (Grant.role g)) with true
      by (by destruct Hrole as [->|[->| ->]]).
    rewrite Hi, Signed.bind_eq. replace (existsb _ trusted) with true.
    + by rewrite Hs, Signed.bind_eq, Hc, Signed.bind_eq.
    + symmetry. apply existsb_exists. exists issuer.
      split; [by apply list_elem_of_In|by apply bool_decide_true].
Qed.

End Theorems.

(** ** Concrete messages *)
Module Sample.
Import Crypto.Toy.

Definition sk : bytes := sample_key 3.

Definition record0 : EndpointRecord.EndpointRecord := {|
  EndpointRecord.version := 1; EndpointRecord.endpoint_id := sample_key 7;
  EndpointRecord.relay_url := Some "https://relay.example";
  EndpointRecord.direct_addresses := ["127.0.0.1:4000"; "[::1]:4000"];
  EndpointRecord.signing_pubkey := b64_encode (P := prims) sk;
  EndpointRecord.issued_at_secs := 1000; EndpointRecord.expires_at_secs := 1060;
  EndpointRecord.signature := "" |}.
Definition record1 : EndpointRecord.EndpointRecord :=
  EndpointRecord.set_signature
    (b64_encode (P := prims) (ed_sign (Primitives := prims) sk (bind Crypto.EndpointRecord [Byte.x00]))) record0.

#[export] Instance EndpointRecord_eq_dec : EqDecision EndpointRecord.EndpointRecord.
Proof. solve_decision. Defined.
#[export] Instance record_codec : Postcard EndpointRecord.EndpointRecord := Signed.Table.codec [record0; record1].

Definition offer0 : Offer.CapacityOffer := {|
  Offer.version := 1; Offer.query_id := "q1"; Offer.agent_endpoint := record1;
  Offer.kem_pubkey := b64_encode (P := prims) (sample_key 9); Offer.available_cpu_milli := 2000;
  Offer.available_memory_bytes := 4096; Offer.available_storage_bytes := 8192;
  Offer.capabilities := ["linux"; "gpu"]; Offer.issued_at_secs := 1000; Offer.expires_at_secs := 1010;
  Offer.signing_pubkey := b64_encode (P := prims) sk; Offer.signature := "" |}.
Definition offer1 : Offer.CapacityOffer :=
  Offer.set_signature
    (b64_encode (P := prims) (ed_sign (Primitives := prims) sk (bind Crypto.CapacityOffer [Byte.x00]))) offer0.

#[export] Instance CapacityOffer_eq_dec : EqDecision Offer.CapacityOffer.
Proof. solve_decision. Defined.
#[export] Instance offer_codec : Postcard Offer.CapacityOffer := Signed.Table.codec [offer0; offer1].

Definition grant0 : Grant.MachineRelayGrant := {|
  Grant.version := 1; Grant.subject_endpoint_id := sample_key 7; Grant.role := Agent;
  Grant.relay_audience := "https://relay.example"; Grant.issued_at_secs := 1000;
  Grant.expires_at_secs := 1200; Grant.token_id := "t1";
  Grant.issuer_pubkey := b64_encode (P := prims) sk; Grant.signature := "" |}.
Definition grant1 : Grant.MachineRelayGrant :=
  Grant.set_signature
    (b64_encode (P := prims) (ed_sign (Primitives := prims) sk (bind Crypto.MachineRelayGrant [Byte.x00]))) grant0.

#[export] Instance Grant_eq_dec : EqDecision Grant.MachineRelayGrant.
Proof. solve_decision. Defined.
#[export] Instance grant_codec : Postcard Grant.MachineRelayGrant := Signed.Table.codec [grant0; grant1].

(** The other message types, with empty tables. *)
#[export] Instance query_codec : Postcard Query.CapacityQuery :=
  {| to_allocvec := fun _ => None; from_postcard := fun _ => None |}.
#[export] Instance hello_codec : Postcard Hello.AgentAttachmentHello :=
  {| to_allocvec := fun _ => None; from_postcard := fun _ => None |}.
#[export] Instance ack_codec : Postcard Hello.AgentAttachmentAck :=
  {| to_allocvec := fun _ => None; from_postcard := fun _ => None |}.
#[export] Instance request_codec : Postcard Placement.PlacementRequest :=
  {| to_allocvec := fun _ => None; from_postcard := fun _ => None |}.
#[export] Instance response_codec : Postcard Placement.PlacementResponse :=
  {| to_allocvec := fun _ => None; from_postcard := fun _ => None |}.

#[export] Existing Instances prims laws.
#[export] Instance record_codec_laws : PostcardLaws _ record_codec := Signed.Table.codec_laws _.
#[export] Instance offer_codec_laws : PostcardLaws _ offer_codec := Signed.Table.codec_laws _.
#[export] Instance grant_codec_laws : PostcardLaws _ grant_codec := Signed.Table.codec_laws _.
#[export] Instance query_codec_laws : PostcardLaws _ query_codec.
Proof. done. Qed.
#[export] Instance hello_codec_laws : PostcardLaws _ hello_codec.
Proof. done. Qed.
#[export] Instance ack_codec_laws : PostcardLaws _ ack_codec.
Proof. done. Qed.
#[export] Instance request_codec_laws : PostcardLaws _ request_codec.
Proof. done. Qed.
#[export] Instance response_codec_laws : PostcardLaws _ response_codec.
Proof. done. Qed.

End Sample.

Section Witnesses.
Import Sample.

Lemma signed_messages_verify_witness :
  EndpointRecord.verify record1 1000 = Ok tt /\ Offer.verify offer1 1000 = Ok tt /\
  Grant.verify grant1 [sk] (Crypto.Toy.sample_key 7) "https://relay.example" 1000 = Ok tt.
Proof.
  pose proof (signed_messages_verify sk sk 1000 eq_refl eq_refl) as (Hr & _ & Ho & _ & Hg).
  split; [apply (Hr record0); vm_compute; reflexivity|].
  split; [apply (Ho offer0); vm_compute; reflexivity|].
  apply (Hg grant0); [left|reflexivity|vm_compute; reflexivity].
Defined.

Lemma messages_roundtrip_witness : EndpointRecord.from_bytes [Byte.x01] 1000 = Ok record1.
Proof.
  pose proof (messages_roundtrip 1000) as (H & _). apply H. vm_compute. reflexivity.
Defined.

Lemma accepted_record_witness : len (EndpointRecord.endpoint_id record1) = 32.
Proof.
  destruct (accepted_record record1 1030) as (_ & H & _); [vm_compute; reflexivity|exact H].
Defined.

Lemma verify_is_structure_and_freshness_witness :
  EndpointRecord.verify_structure record1 = Ok tt.
Proof.
  destruct (verify_is_structure_and_freshness record1 1030) as [H _]; [vm_compute; split; discriminate|].
  destruct H as [H _]; [vm_compute; reflexivity|exact H].
Defined.

Lemma accepted_offer_witness : NoDup (Offer.capabilities offer1).
Proof.
  destruct (accepted_offer offer1 1005) as (_ & _ & _ & _ & _ & _ & H & _); [vm_compute; reflexivity|exact H].
Defined.

End Witnesses.
End Messages.
