(* ===== verification/Identity.v ===== *)
(** * Endpoints and scheduler identity

    [Iroh] is the interface of the iroh crate the sources use: endpoint
    identifiers and dialable addresses.  On top of it this file models
    [endpoint_addr] and [endpoint_addr_hint] (shared/iroh_support/src/lib.rs)
    and the record- and grant-issuing functions of
    podmesh-scheduler/src/machine/identity.rs. *)

From S2P Require Import Prelude Net Crypto Signed EndpointRecord MeshProtocol.

(** What the code uses of the iroh crate. *)
Class Iroh := {
  EndpointId : Type;
  endpoint_id_eq_dec :: EqDecision EndpointId;
  endpoint_id_countable :: Countable EndpointId;
  id_as_bytes : EndpointId -> bytes;
  id_from_bytes : bytes -> option EndpointId;
  (** [EndpointAddr]: its id, its relay URLs and IP addresses as displayed,
      and the builders, which fail when the text does not parse. *)
  EndpointAddr : Type;
  addr_id : EndpointAddr -> EndpointId;
  addr_relay_urls : EndpointAddr -> list string;
  addr_ip_addrs : EndpointAddr -> list string;
  addr_new : EndpointId -> EndpointAddr;
  addr_with_relay_url : EndpointAddr -> string -> option EndpointAddr;
  addr_with_ip_addr : EndpointAddr -> Net.SocketAddr -> EndpointAddr
}.

(** Identifiers are 32-byte public keys; building an address keeps its id. *)
Class IrohLaws (I : Iroh) : Prop := {
  id_bytes_len e : len (id_as_bytes e) = 32;
  id_roundtrip e : id_from_bytes (id_as_bytes e) = Some e;
  id_from_bytes_inv b e : id_from_bytes b = Some e -> id_as_bytes e = b;
  addr_new_id e : addr_id (addr_new e) = e;
  addr_with_relay_id a u a' : addr_with_relay_url a u = Some a' -> addr_id a' = addr_id a;
  addr_with_ip_id a s : addr_id (addr_with_ip_addr a s) = addr_id a
}.

Lemma id_as_bytes_inj {I : Iroh} {L : IrohLaws I} (e1 e2 : EndpointId) :
  id_as_bytes e1 = id_as_bytes e2 -> e1 = e2.
Proof. intros Heq%(f_equal id_from_bytes). rewrite !id_roundtrip in Heq. congruence. Qed.

Module Identity.
Import Crypto Mesh.
Import EndpointRecord (EndpointRecord, ENDPOINT_RECORD_VERSION, MAX_ENDPOINT_DIRECT_ADDRESSES).

Section Addresses.
Context {I : Iroh} {P : Primitives} {C : Postcard EndpointRecord}.

(** The loop adding the direct addresses. *)
Fixpoint add_direct (address : EndpointAddr) (direct : list string) : Result EndpointAddr :=
  match direct with
  | [] => Ok address
  | d :: rest =>
      parsed ← ok_or (Net.parse_socket_addr d) "invalid endpoint direct address";
      add_direct (addr_with_ip_addr address parsed) rest
  end.

Definition endpoint_addr_hint (record : EndpointRecord) : Result EndpointAddr :=
  _ ← EndpointRecord.verify_structure record;
  endpoint_bytes ← try_into EndpointRecord.IROH_ENDPOINT_ID_BYTES (EndpointRecord.endpoint_id record)
                     "endpoint record ID length is invalid";
  endpoint_id ← ok_or (id_from_bytes endpoint_bytes) "endpoint record contains an invalid EndpointId";
  address ← match EndpointRecord.relay_url record with
            | Some relay_url => ok_or (addr_with_relay_url (addr_new endpoint_id) relay_url)
                                  "invalid endpoint relay URL"
            | None => Ok (addr_new endpoint_id)
            end;
  add_direct address (EndpointRecord.direct_addresses record).

Definition endpoint_addr (record : EndpointRecord) (now_secs : Z) : Result EndpointAddr :=
  _ ← EndpointRecord.verify record now_secs;
  endpoint_addr_hint record.

Lemma add_direct_id {L : IrohLaws I} a l a' : add_direct a l = Ok a' -> addr_id a' = addr_id a.
Proof.
  revert a. induction l as [|d l IH]; intros a H; cbn in H; [congruence|].
  destruct (Net.parse_socket_addr d); cbn in H; [|done]. by rewrite (IH _ H), addr_with_ip_id.
Qed.

(** A dialable address always has the id its record names. *)
Lemma endpoint_addr_id {L : IrohLaws I} r now a :
  endpoint_addr r now = Ok a -> id_as_bytes (addr_id a) = EndpointRecord.endpoint_id r.
Proof.
  unfold endpoint_addr, endpoint_addr_hint. intros H.
  apply Signed.bind_ok in H as (_ & _ & H). apply Signed.bind_ok in H as (_ & _ & H).
  apply Signed.bind_ok in H as (b & Hb & H). apply Signed.bind_ok in H as (e & He & H).
  apply Signed.bind_ok in H as (a0 & Ha0 & H). rewrite (add_direct_id _ _ _ H).
  apply try_into_inv in Hb as [_ ->]. unfold ok_or in *.
  destruct (id_from_bytes _) as [e'|] eqn:E; simplify_eq. apply id_from_bytes_inv in E.
  destruct (EndpointRecord.relay_url r) as [u|].
  - destruct (addr_with_relay_url _ _) eqn:Eu; simplify_eq.
    by rewrite (addr_with_relay_id _ _ _ Eu), addr_new_id.
  - simplify_eq. by rewrite addr_new_id.
Qed.

End Addresses.

(** The identity a scheduler loads at start; the transport secret is
    represented by the endpoint id derived from it. *)
Record SchedulerIdentity `{Iroh} := {
  transport_id : EndpointId;
  signing_public : bytes;
  signing_private : bytes;
  advertise_addresses : list string
}.

Section Issue.
Context {I : Iroh} {P : Primitives}.
Context {CR : Postcard EndpointRecord} {CG : Postcard Grant.MachineRelayGrant}.

(** [token_id] is what [Uuid::new_v4] draws. *)
Definition issue_relay_grant (identity : SchedulerIdentity) (token_id : string)
    (subject : EndpointId) (role : MachineRole) (audience : string) (now_secs : Z)
    : Result Grant.MachineRelayGrant :=
  Grant.sign
    {| Grant.version := Grant.MACHINE_RELAY_GRANT_VERSION;
       Grant.subject_endpoint_id := id_as_bytes subject;
       Grant.role := role;
       Grant.relay_audience := audience;
       Grant.issued_at_secs := now_secs;
       Grant.expires_at_secs := now_secs + Grant.MAX_MACHINE_RELAY_GRANT_LIFETIME_SECS;
       Grant.token_id := token_id;
       Grant.issuer_pubkey := "";
       Grant.signature := "" |}
    (signing_public identity) (signing_private identity) now_secs.

Definition endpoint_record (identity : SchedulerIdentity) (address : EndpointAddr)
    (now_secs expires_at_secs : Z) : Result EndpointRecord :=
  ensure! bool_decide (addr_id address = transport_id identity)
    else Err "scheduler reply address does not match persistent transport identity" ;;
  let relay_url := head (addr_relay_urls address) in
  let direct_addresses :=
    if bool_decide (advertise_addresses identity = [])
    then take (Z.to_nat MAX_ENDPOINT_DIRECT_ADDRESSES) (addr_ip_addrs address)
    else take (Z.to_nat MAX_ENDPOINT_DIRECT_ADDRESSES) (advertise_addresses identity) in
  EndpointRecord.sign
    {| EndpointRecord.version := ENDPOINT_RECORD_VERSION;
       EndpointRecord.endpoint_id := id_as_bytes (transport_id identity);
       EndpointRecord.relay_url := relay_url;
       EndpointRecord.direct_addresses := direct_addresses;
       EndpointRecord.signing_pubkey := "";
       EndpointRecord.issued_at_secs := now_secs;
       EndpointRecord.expires_at_secs := expires_at_secs;
       EndpointRecord.signature := "" |}
    (signing_public identity) (signing_private identity) now_secs.

End Issue.
End Identity.

(** A small instance of the interface: identifiers are 32 copies of a byte. *)
Module ToyIroh.

#[export] Instance iroh : Iroh := {|
  EndpointId := byte;
  id_as_bytes := fun b => replicate 32 b;
  id_from_bytes := fun l =>
    match l with
    | b :: _ => if bool_decide (l = replicate 32 b) then Some b else None
    | [] => None
    end;
  EndpointAddr := byte * list string * list string;
  addr_id := fun a => a.1.1;
  addr_relay_urls := fun a => a.1.2;
  addr_ip_addrs := fun a => a.2;
  addr_new := fun b => (b, [], []);
  addr_with_relay_url := fun a u => Some (a.1.1, a.1.2 ++ [u], a.2);
  addr_with_ip_addr := fun a _ => a
|}.

#[export] Instance iroh_laws : IrohLaws iroh.
Proof.
  split; cbn -[replicate]; try done.
  - intros e. cbn. by rewrite bool_decide_true.
  - intros [|b l] e; [done|]. case_bool_decide as H; [|done]. by intros [= <-].
  - by intros a u a' [= <-].
Qed.

End ToyIroh.
