(* ===== verification/RustOrd.v ===== *)
(** * Rust's orderings

    [Ord::cmp] on integers, byte vectors and strings, [Ordering::then_with],
    [Iterator::min_by] and [slice::sort_unstable] (core and alloc), with the
    laws of a comparison as a type class. *)

From S2P Require Import Prelude.
From stdpp Require Import sorting.

Module RustOrd.

(** [Ord for [u8]]: lexicographic, a proper prefix first. *)
Fixpoint bytes_compare (a b : bytes) : comparison :=
  match a, b with
  | [], [] => Eq
  | [], _ => Lt
  | _, [] => Gt
  | x :: a', y :: b' =>
      match Z.compare (byte_to_Z x) (byte_to_Z y) with
      | Eq => bytes_compare a' b'
      | c => c
      end
  end.

(** [Ord for str] compares the UTF-8 bytes. *)
Definition str_compare (a b : string) : comparison := bytes_compare (as_bytes a) (as_bytes b).

Definition then_with (c1 c2 : comparison) : comparison :=
  match c1 with Eq => c2 | c => c end.

(** [Iterator::min_by] keeps the first of several minimal elements. *)
Definition min_by {A} (cmp : A -> A -> comparison) (l : list A) : option A :=
  match l with
  | [] => None
  | x :: l' => Some (fold_left (fun a b => match cmp a b with Gt => b | _ => a end) l' x)
  end.

(** [max_by] keeps the last of several maximal elements. *)
Definition max_by {A} (cmp : A -> A -> comparison) (l : list A) : option A :=
  match l with
  | [] => None
  | x :: l' => Some (fold_left (fun a b => match cmp a b with Gt => a | _ => b end) l' x)
  end.

Definition cmp_le {A} (cmp : A -> A -> comparison) (a b : A) : Prop := cmp a b <> Gt.

#[export] Instance cmp_le_dec {A} (cmp : A -> A -> comparison) : RelDecision (cmp_le cmp).
Proof. intros a b. unfold cmp_le. destruct (cmp a b); [left|left|right]; congruence. Defined.

(** The order in which [sort_unstable] leaves equal elements is unspecified;
    for the orders sorted here equal elements are identical. *)
Definition sort_unstable {A} (cmp : A -> A -> comparison) (l : list A) : list A :=
  merge_sort (cmp_le cmp) l.

(** A comparison that orders its type totally, up to [Eq]. *)
Class CompareLaws {A} (cmp : A -> A -> comparison) : Prop := {
  cmp_opp a b : cmp b a = CompOpp (cmp a b);
  cmp_trans a b c : cmp a b = Lt -> cmp b c = Lt -> cmp a c = Lt;
  cmp_eq_l a b c : cmp a b = Eq -> cmp a c = cmp b c
}.

#[global] Arguments cmp_opp {A} cmp {_} a b.
#[global] Arguments cmp_trans {A} cmp {_} a b c.
#[global] Arguments cmp_eq_l {A} cmp {_} a b c.

Section Laws.
Context {A} (cmp : A -> A -> comparison) {L : CompareLaws cmp}.

Lemma cmp_refl a : cmp a a = Eq.
Proof. pose proof (cmp_opp cmp a a). by destruct (cmp a a). Qed.

Lemma cmp_eq_r a b c : cmp a b = Eq -> cmp c a = cmp c b.
Proof. intros H. rewrite (cmp_opp cmp a c), (cmp_opp cmp b c). by rewrite (cmp_eq_l cmp _ _ c H). Qed.

#[export] Instance cmp_le_trans : Transitive (cmp_le cmp).
Proof.
  intros a b c Hab Hbc. unfold cmp_le in *.
  destruct (cmp a b) eqn:Eab; [|destruct (cmp b c) eqn:Ebc|done].
  - by rewrite (cmp_eq_l cmp _ _ c Eab).
  - by rewrite <- (cmp_eq_r _ _ a Ebc), Eab.
  - by rewrite (cmp_trans cmp _ _ _ Eab Ebc).
  - done.
Qed.

#[export] Instance cmp_le_total : Total (cmp_le cmp).
Proof.
  intros a b. unfold cmp_le. rewrite (cmp_opp cmp a b). destruct (cmp a b); cbn; auto; by left.
Qed.

Lemma fold_min_spec l x :
  let m := fold_left (fun a b => match cmp a b with Gt => b | _ => a end) l x in
  m ∈ x :: l /\ Forall (cmp_le cmp m) (x :: l).
Proof.
  revert x. induction l as [|y l IH]; intros x; cbn.
  - split; [set_solver|]. repeat constructor. unfold cmp_le. by rewrite cmp_refl.
  - set (z := match cmp x y with Gt => y | _ => x end).
    destruct (IH z) as [Hin Hall]. cbn in Hin, Hall.
    inversion Hall as [|? ? Hz Hl]; subst.
    assert (Hx : cmp_le cmp z x /\ cmp_le cmp z y /\ (z = x \/ z = y)).
    { subst z. unfold cmp_le. pose proof (cmp_opp cmp x y).       destruct (cmp x y) eqn:E; rewrite ?E, ?cmp_refl; rewrite ?H; cbn; auto 10 using eq_refl. }
    destruct Hx as (Hzx & Hzy & Hor).
    split; [destruct Hor as [->| ->]; set_solver|].
    constructor; [by transitivity z|]. constructor; [by transitivity z|done].
Qed.

Lemma min_by_spec l m : min_by cmp l = Some m -> m ∈ l /\ forall x, x ∈ l -> cmp_le cmp m x.
Proof.
  destruct l as [|x l]; [done|]. cbn. intros [= <-].
  pose proof (fold_min_spec l x) as [Hin Hall]. rewrite Forall_forall in Hall. eauto.
Qed.

Lemma min_by_none l : min_by cmp l = None <-> l = [].
Proof. by destruct l. Qed.

Lemma fold_max_spec l x :
  let m := fold_left (fun a b => match cmp a b with Gt => a | _ => b end) l x in
  m ∈ x :: l /\ Forall (fun y => cmp_le cmp y m) (x :: l).
Proof.
  revert x. induction l as [|y l IH]; intros x; cbn.
  - split; [set_solver|]. repeat constructor. unfold cmp_le. by rewrite cmp_refl.
  - set (z := match cmp x y with Gt => x | _ => y end).
    destruct (IH z) as [Hin Hall]. cbn in Hin, Hall.
    inversion Hall as [|? ? Hz Hl]; subst.
    assert (Hx : cmp_le cmp x z /\ cmp_le cmp y z /\ (z = x \/ z = y)).
    { subst z. unfold cmp_le. pose proof (cmp_opp cmp x y) as H.
      destruct (cmp x y) eqn:E; rewrite ?E, ?cmp_refl; rewrite ?H; cbn; auto 10 using eq_refl. }
    destruct Hx as (Hzx & Hzy & Hor).
    split; [destruct Hor as [->| ->]; set_solver|].
    constructor; [by transitivity z|]. constructor; [by transitivity z|done].
Qed.

Lemma max_by_spec l m : max_by cmp l = Some m -> m ∈ l /\ forall x, x ∈ l -> cmp_le cmp x m.
Proof.
  destruct l as [|x l]; [done|]. cbn. intros [= <-].
  pose proof (fold_max_spec l x) as [Hin Hall]. rewrite Forall_forall in Hall. eauto.
Qed.

Lemma max_by_none l : max_by cmp l = None <-> l = [].
Proof. by destruct l. Qed.

(** Where [Eq] means equality, sorting is a canonical form. *)
Lemma sort_perm l : sort_unstable cmp l ≡ₚ l.
Proof. apply merge_sort_Permutation. Qed.

Lemma sort_sorted l : StronglySorted (cmp_le cmp) (sort_unstable cmp l).
Proof. apply (StronglySorted_merge_sort _). Qed.

Lemma sort_take_le n l x y :
  x ∈ take n (sort_unstable cmp l) -> y ∈ drop n (sort_unstable cmp l) -> cmp_le cmp x y.
Proof.
  intros Hx Hy. apply (StronglySorted_app_1_elem_of (cmp_le cmp) (take n (sort_unstable cmp l))
    (drop n (sort_unstable cmp l))); [|done..]. rewrite take_drop. apply sort_sorted.
Qed.

Lemma sort_canonical l1 l2 :
  (forall a b, cmp a b = Eq -> a = b) -> l1 ≡ₚ l2 -> sort_unstable cmp l1 = sort_unstable cmp l2.
Proof.
  intros Heq Hp. assert (AntiSymm (=) (cmp_le cmp)).
  { intros a b Hab Hba. unfold cmp_le in *. rewrite (cmp_opp cmp a b) in Hba.
    apply Heq. by destruct (cmp a b). }
  apply (StronglySorted_unique (cmp_le cmp)); [apply (StronglySorted_merge_sort _)..|].
  unfold sort_unstable. by rewrite !merge_sort_Permutation.
Qed.

End Laws.

(** ** The comparisons of the source satisfy the laws *)
#[export] Instance Z_compare_laws : CompareLaws Z.compare.
Proof.
  split.
  - intros a b. apply Z.compare_antisym.
  - intros a b c. rewrite !Z.compare_lt_iff. lia.
  - by intros a b c ->%Z.compare_eq.
Qed.

(** Comparing by a key. *)
Lemma key_laws {A B} (f : A -> B) (cmp : B -> B -> comparison) :
  CompareLaws cmp -> CompareLaws (fun a b => cmp (f a) (f b)).
Proof. intros L. split; intros; [apply (cmp_opp cmp)|eapply (cmp_trans cmp)|apply (cmp_eq_l cmp)]; eauto. Qed.

Lemma then_with_laws {A} (c1 c2 : A -> A -> comparison) :
  CompareLaws c1 -> CompareLaws c2 -> CompareLaws (fun a b => then_with (c1 a b) (c2 a b)).
Proof.
  intros L1 L2. split.
  - intros a b. rewrite (cmp_opp c1 a b), (cmp_opp c2 a b). by destruct (c1 a b).
  - intros a b c. unfold then_with. intros Hab Hbc.
    destruct (c1 a b) eqn:E1; [| |done]; (destruct (c1 b c) eqn:E2; [| |done]).
    + rewrite (cmp_eq_l c1 _ _ c E1), E2. by apply (cmp_trans c2 _ b).
    + by rewrite (cmp_eq_l c1 _ _ c E1), E2.
    + by rewrite <- (cmp_eq_r c1 _ _ a E2), E1.
    + by rewrite (cmp_trans c1 _ _ _ E1 E2).
  - intros a b c. unfold then_with. destruct (c1 a b) eqn:E1; [|done..].
    intros E2. rewrite (cmp_eq_l c1 _ _ c E1). destruct (c1 b c); [|done..]. by apply (cmp_eq_l c2).
Qed.

Lemma bytes_compare_eq a b : bytes_compare a b = Eq -> a = b.
Proof.
  revert b. induction a as [|x a IH]; intros [|y b]; cbn; try done.
  destruct (Z.compare _ _) eqn:E; [|done..].
  apply Z.compare_eq, byte_to_Z_inj in E as ->. by intros ->%IH.
Qed.

#[export] Instance bytes_compare_laws : CompareLaws bytes_compare.
Proof.
  split.
  - intros a. induction a as [|x a IH]; intros [|y b]; cbn; try done.
    rewrite (Z.compare_antisym (byte_to_Z x)). destruct (Z.compare _ _); cbn; auto.
  - intros a. induction a as [|x a IH]; intros [|y b] [|z c]; cbn; try done.
    destruct (Z.compare (byte_to_Z x) (byte_to_Z y)) eqn:E1; [| |done];
    (destruct (Z.compare (byte_to_Z y) (byte_to_Z z)) eqn:E2; [| |done]); intros.
    + rewrite (cmp_eq_l Z.compare _ _ (byte_to_Z z) E1), E2. eauto.
    + by rewrite (cmp_eq_l Z.compare _ _ (byte_to_Z z) E1), E2.
    + by rewrite <- (cmp_eq_r Z.compare _ _ (byte_to_Z x) E2), E1.
    + by rewrite (cmp_trans Z.compare _ _ _ E1 E2).
  - by intros a b c ->%bytes_compare_eq.
Qed.

#[export] Instance str_compare_laws : CompareLaws str_compare.
Proof. apply (key_laws as_bytes bytes_compare _). Qed.

Lemma str_compare_eq a b : str_compare a b = Eq -> a = b.
Proof. intros H%bytes_compare_eq. by apply as_bytes_inj. Qed.

End RustOrd.
