(* ===== verification/Watch.v ===== *)
(** * Watch channels

    The interface of [tokio::sync::watch], which the scheduler's query and
    location tables publish through: a channel holding one value, whose [send]
    fails when nobody listens. *)

From S2P Require Import Prelude.

(** [Sender] stands for the channel as its sending half sees it: the value and
    the number of receivers. *)
Class Watch (V : Type) := {
  Sender : Type;
  channel : V -> Sender;
  send : V -> Sender -> Sender;
  subscribe : Sender -> Sender;
  drop_receiver : Sender -> Sender;
  borrow : Sender -> V;
  receiver_count : Sender -> Z
}.
Arguments Sender V {_}.

(** Documented: [channel] returns one receiver; [send] with no receiver is an
    error that leaves the value alone; the others do not touch the value. *)
Class WatchLaws (V : Type) (W : Watch V) : Prop := {
  borrow_channel v : borrow (channel v) = v;
  count_channel v : receiver_count (channel v) = 1;
  send_closed v s : receiver_count s = 0 -> send v s = s;
  borrow_send v s : 0 < receiver_count s -> borrow (send v s) = v;
  count_send v s : receiver_count (send v s) = receiver_count s;
  borrow_subscribe s : borrow (subscribe s) = borrow s;
  count_subscribe s : receiver_count (subscribe s) = receiver_count s + 1;
  borrow_drop s : borrow (drop_receiver s) = borrow s;
  count_drop s : 0 < receiver_count s ->
    receiver_count (drop_receiver s) = receiver_count s - 1
}.

(** A watch channel as its value and its number of receivers. *)
Module ToyWatch.
Section Toy.
Context {V : Type}.

#[export] Instance watch : Watch V := {|
  Sender := V * Z;
  channel := fun v => (v, 1);
  send := fun v s => if s.2 =? 0 then s else (v, s.2);
  subscribe := fun s => (s.1, s.2 + 1);
  drop_receiver := fun s => (s.1, s.2 - 1);
  borrow := fst;
  receiver_count := snd
|}.

#[export] Instance watch_laws : WatchLaws V watch.
Proof.
  split; cbn; try done.
  - intros v s ->. done.
  - intros v s H. destruct (Z.eqb_spec s.2 0); [lia|done].
  - intros v s. by destruct (s.2 =? 0).
Qed.
End Toy.
End ToyWatch.
