(* ===== verification/CapacityQueries.v ===== *)
(** * Capacity queries (podmesh-scheduler/src/machine/query.rs)

    The scheduler's table of placement queries in flight: opening or joining a
    query, collecting offers, selecting one offer per waiter, and cleanup.
    Each operation runs under one lock, so a run of the manager is a sequence
    of operations on [QueryState]. *)

From S2P Require Import Prelude Net Crypto Signed EndpointRecord CapacityProtocol MeshProtocol.
From S2P Require Import Messages Identity RustOrd Watch.

Module Queries.
Import Crypto RustOrd.
Import EndpointRecord (EndpointRecord).
Import Capacity.Query (CapacityQuery).
Import Capacity.Offer (CapacityOffer).

Record CapacityCriteria := {
  cpu_milli : Z;
  memory_bytes : Z;
  storage_bytes : Z;
  required_capabilities : list string;
  excluded_endpoint_ids : list bytes
}.

#[export] Instance criteria_eq_dec : EqDecision CapacityCriteria.
Proof. solve_decision. Defined.

#[export] Instance criteria_countable : Countable CapacityCriteria.
Proof.
  apply (inj_countable'
    (fun c => (cpu_milli c, memory_bytes c, storage_bytes c, required_capabilities c,
               excluded_endpoint_ids c))
    (fun '(a, b, c, d, e) => {| cpu_milli := a; memory_bytes := b; storage_bytes := c;
                                required_capabilities := d; excluded_endpoint_ids := e |})).
  by intros [].
Defined.

Definition normalized (c : CapacityCriteria) : CapacityCriteria :=
  {| cpu_milli := cpu_milli c;
     memory_bytes := memory_bytes c;
     storage_bytes := storage_bytes c;
     required_capabilities := sort_unstable str_compare (required_capabilities c);
     excluded_endpoint_ids := sort_unstable bytes_compare (excluded_endpoint_ids c) |}.

(** The tightest fit first: least spare CPU, then memory, then storage, then
    the endpoint id. *)
Definition compare_offers (left right : CapacityOffer) (criteria : CapacityCriteria) : comparison :=
  then_with
    (Z.compare (saturating_sub (Capacity.Offer.available_cpu_milli left) (cpu_milli criteria))
               (saturating_sub (Capacity.Offer.available_cpu_milli right) (cpu_milli criteria)))
  (then_with
    (Z.compare (saturating_sub (Capacity.Offer.available_memory_bytes left) (memory_bytes criteria))
               (saturating_sub (Capacity.Offer.available_memory_bytes right) (memory_bytes criteria)))
  (then_with
    (Z.compare (saturating_sub (Capacity.Offer.available_storage_bytes left) (storage_bytes criteria))
               (saturating_sub (Capacity.Offer.available_storage_bytes right) (storage_bytes criteria)))
    (bytes_compare (EndpointRecord.endpoint_id (Capacity.Offer.agent_endpoint left))
                   (EndpointRecord.endpoint_id (Capacity.Offer.agent_endpoint right))))).

(** The limits the manager is built with; [query_timeout] in whole seconds. *)
Record QueryManager := {
  max_pending_queries : Z;
  max_offers_per_query : Z;
  query_timeout : Z
}.

Section Manager.
Context {I : Iroh} {P : Primitives} {W : Watch Z}.
Context {CR : Postcard EndpointRecord} {CQ : Postcard CapacityQuery} {CO : Postcard CapacityOffer}.

Record PendingQuery := {
  criteria : CapacityCriteria;
  query : CapacityQuery;
  offers : gmap EndpointId CapacityOffer;
  selected : gset EndpointId;
  target_offers : Z;
  offer_count : Sender Z
}.

Record QueryState := {
  pending : gmap string PendingQuery;
  equivalent : gmap CapacityCriteria string
}.

(** [offers] of the source is a receiver of the query's channel; it is the
    channel of [begun_query]'s id. *)
Record BegunQuery := {
  begun_query : CapacityQuery;
  newly_created : bool;
  begun_target : Z
}.

Definition new_state : QueryState := {| pending := ∅; equivalent := ∅ |}.

Definition is_expired (now_secs : Z) (p : PendingQuery) : bool :=
  saturating_add u64_max (Capacity.Query.expires_at_secs (query p)) 1 <? now_secs.

(** One turn of the removal loop. *)
Definition remove_query (st : QueryState) (entry : string * CapacityCriteria) : QueryState :=
  {| pending := delete entry.1 (pending st); equivalent := delete entry.2 (equivalent st) |}.

Definition cleanup_locked (st : QueryState) (now_secs : Z) : QueryState :=
  let expired :=
    (fun kv : string * PendingQuery => (kv.1, criteria kv.2)) <$>
      filter (fun kv => is_expired now_secs kv.2 = true) (map_to_list (pending st)) in
  fold_left remove_query expired st.

Definition set_pending (st : QueryState) (id : string) (p : PendingQuery) : QueryState :=
  {| pending := <[id := p]> (pending st); equivalent := equivalent st |}.

(** [query_id] and [nonce] are the two identifiers [Uuid::new_v4] draws. *)
Definition open_query (m : QueryManager) (st : QueryState) (c : CapacityCriteria)
    (identity : Identity.SchedulerIdentity) (reply_address : EndpointAddr) (target now_secs : Z)
    (query_id nonce : string) : QueryState * Result BegunQuery :=
  let expires_at_secs := saturating_add u64_max now_secs (query_timeout m) in
  try! reply := Identity.endpoint_record identity reply_address now_secs expires_at_secs in st ;;
  try! q := Capacity.Query.sign
    {| Capacity.Query.version := Capacity.CAPACITY_PROTOCOL_VERSION;
       Capacity.Query.query_id := query_id;
       Capacity.Query.nonce := nonce;
       Capacity.Query.cpu_milli := cpu_milli c;
       Capacity.Query.memory_bytes := memory_bytes c;
       Capacity.Query.storage_bytes := storage_bytes c;
       Capacity.Query.required_capabilities := required_capabilities c;
       Capacity.Query.excluded_endpoint_ids := excluded_endpoint_ids c;
       Capacity.Query.reply_endpoint := reply;
       Capacity.Query.issued_at_secs := now_secs;
       Capacity.Query.expires_at_secs := expires_at_secs;
       Capacity.Query.signing_pubkey := "";
       Capacity.Query.signature := "" |}
    (Identity.signing_public identity) (Identity.signing_private identity) now_secs in st ;;
  ({| pending := <[Capacity.Query.query_id q :=
         {| criteria := c; query := q; offers := ∅; selected := ∅;
            target_offers := target; offer_count := channel 0 |}]> (pending st);
      equivalent := <[c := Capacity.Query.query_id q]> (equivalent st) |},
   Ok {| begun_query := q; newly_created := true; begun_target := target |}).

(** The id of the query in flight for [c], when both maps have it. *)
Definition joinable (st : QueryState) (c : CapacityCriteria) : option (string * PendingQuery) :=
  id ← equivalent st !! c; p ← pending st !! id; Some (id, p).

Definition begin (m : QueryManager) (st : QueryState) (c : CapacityCriteria)
    (identity : Identity.SchedulerIdentity) (reply_address : EndpointAddr) (target now_secs : Z)
    (query_id nonce : string) : QueryState * Result BegunQuery :=
  let c := normalized c in
  let target := clamp target 1 (max_offers_per_query m) in
  let st := cleanup_locked st now_secs in
  match joinable st c with
  | Some (id, p) =>
      let target' := Z.min (saturating_add usize_max (target_offers p) target)
                           (max_offers_per_query m) in
      (set_pending st id
         {| criteria := criteria p; query := query p; offers := offers p; selected := selected p;
            target_offers := target'; offer_count := subscribe (offer_count p) |},
       Ok {| begun_query := query p; newly_created := false; begun_target := target' |})
  | None =>
      ensure! negb (max_pending_queries m <=? map_len (pending st))
        else (st, Err "scheduler pending-query limit reached") ;;
      open_query m st c identity reply_address target now_secs query_id nonce
  end.

Definition satisfies (c : CapacityCriteria) (o : CapacityOffer) : bool :=
  (cpu_milli c <=? Capacity.Offer.available_cpu_milli o) &&
  (memory_bytes c <=? Capacity.Offer.available_memory_bytes o) &&
  (storage_bytes c <=? Capacity.Offer.available_storage_bytes o).

Definition has_capabilities (c : CapacityCriteria) (o : CapacityOffer) : bool :=
  forallb (fun required => bool_decide (required ∈ Capacity.Offer.capabilities o))
          (required_capabilities c).

Definition is_excluded (c : CapacityCriteria) (e : EndpointId) : bool :=
  bool_decide (id_as_bytes e ∈ excluded_endpoint_ids c).

Definition submit_offer (m : QueryManager) (st : QueryState) (o : CapacityOffer)
    (authenticated_endpoint : EndpointId) (now_secs : Z) : QueryState * Result bool :=
  try! _verified := Capacity.Offer.verify o now_secs in st ;;
  ensure! bool_decide (EndpointRecord.endpoint_id (Capacity.Offer.agent_endpoint o) =
                       id_as_bytes authenticated_endpoint)
    else (st, Err "capacity offer EndpointId does not match authenticated sender") ;;
  let st := cleanup_locked st now_secs in
  match pending st !! Capacity.Offer.query_id o with
  | None => (st, Err "capacity offer names no active query")
  | Some p =>
    ensure! now_secs <=? Capacity.Query.expires_at_secs (query p)
      else (st, Err "capacity offer arrived after query deadline") ;;
    ensure! negb (is_excluded (criteria p) authenticated_endpoint)
      else (st, Err "capacity offer came from an excluded agent") ;;
    ensure! satisfies (criteria p) o
      else (st, Err "capacity offer does not satisfy requested resources") ;;
    ensure! has_capabilities (criteria p) o
      else (st, Err "capacity offer does not satisfy required capabilities") ;;
    ensure! negb (contains_key authenticated_endpoint (offers p)) else (st, Ok false) ;;
    ensure! negb (max_offers_per_query m <=? map_len (offers p))
      else (st, Err "capacity offer limit reached for query") ;;
    let offers' := <[authenticated_endpoint := o]> (offers p) in
    (set_pending st (Capacity.Offer.query_id o)
       {| criteria := criteria p; query := query p; offers := offers'; selected := selected p;
          target_offers := target_offers p;
          offer_count := send (map_len offers') (offer_count p) |},
     Ok true)
  end.

(** Offers that can still be handed to a waiter. *)
Definition eligible (p : PendingQuery) (now_secs : Z) (kv : EndpointId * CapacityOffer) : bool :=
  (now_secs <=? Capacity.Offer.expires_at_secs kv.2) && negb (bool_decide (kv.1 ∈ selected p)).

Definition best_offer (p : PendingQuery) (now_secs : Z) : option (EndpointId * CapacityOffer) :=
  min_by (fun left right => compare_offers left.2 right.2 (criteria p))
    (list_retain (eligible p now_secs) (map_to_list (offers p))).

Definition finish (st : QueryState) (query_id : string) (now_secs : Z)
    : QueryState * option CapacityOffer :=
  match pending st !! query_id with
  | None => (st, None)
  | Some p =>
    match best_offer p now_secs with
    | None => (st, None)
    | Some (selected_endpoint, _) =>
        (set_pending st query_id
           {| criteria := criteria p; query := query p; offers := offers p;
              selected := {[selected_endpoint]} ∪ selected p;
              target_offers := target_offers p; offer_count := offer_count p |},
         offers p !! selected_endpoint)
    end
  end.

Definition abort (st : QueryState) (query_id : string) : QueryState :=
  match pending st !! query_id with
  | Some p => {| pending := delete query_id (pending st);
                 equivalent := delete (criteria p) (equivalent st) |}
  | None => st
  end.

Definition cleanup (st : QueryState) (now_secs : Z) : QueryState := cleanup_locked st now_secs.

Definition pending_len (st : QueryState) : Z := map_len (pending st).

(** A waiter that returns drops its receiver. *)
Definition release (st : QueryState) (query_id : string) : QueryState :=
  match pending st !! query_id with
  | Some p => set_pending st query_id
      {| criteria := criteria p; query := query p; offers := offers p; selected := selected p;
         target_offers := target_offers p; offer_count := drop_receiver (offer_count p) |}
  | None => st
  end.

(** ** Invariant *)

(** An offer the manager may hold for query [id] with criteria [c]. *)
Definition offer_fits (id : string) (c : CapacityCriteria) (e : EndpointId) (o : CapacityOffer) : Prop :=
  EndpointRecord.endpoint_id (Capacity.Offer.agent_endpoint o) = id_as_bytes e /\
  Capacity.Offer.query_id o = id /\
  satisfies c o = true /\ has_capabilities c o = true /\ is_excluded c e = false.

Record pending_wf (m : QueryManager) (id : string) (p : PendingQuery) : Prop := {
  wf_query_id : Capacity.Query.query_id (query p) = id;
  wf_target : 1 <= target_offers p <= max_offers_per_query m;
  wf_offers_bound : map_len (offers p) <= max_offers_per_query m;
  wf_selected : selected p ⊆ dom (offers p);
  wf_offers : map_Forall (offer_fits id (criteria p)) (offers p)
}.

Record state_wf (m : QueryManager) (st : QueryState) : Prop := {
  wf_bound : map_len (pending st) <= max_pending_queries m;
  wf_pending : map_Forall (pending_wf m) (pending st);
  wf_equivalent id p : pending st !! id = Some p -> equivalent st !! criteria p = Some id;
  wf_equivalent_inv c id : equivalent st !! c = Some id ->
    exists p, pending st !! id = Some p /\ criteria p = c
}.

(** The runs of one manager: its operations in any order, each on the state
    the last one left.  A run records the offers it hands out, with the query
    they were selected for. *)
Inductive Op :=
| Begin (c : CapacityCriteria) (addr : EndpointAddr) (target now : Z) (id nonce : string)
| Submit (o : CapacityOffer) (e : EndpointId) (now : Z)
| Finish (id : string) (now : Z)
| Abort (id : string)
| Cleanup (now : Z)
| Release (id : string).

Definition step (m : QueryManager) (identity : Identity.SchedulerIdentity)
    (s : QueryState * list (string * CapacityOffer)) (op : Op)
    : QueryState * list (string * CapacityOffer) :=
  let (st, out) := s in
  match op with
  | Begin c addr target now id nonce => ((begin m st c identity addr target now id nonce).1, out)
  | Submit o e now => ((submit_offer m st o e now).1, out)
  | Finish id now =>
      let r := finish st id now in
      (r.1, match r.2 with Some o => (id, o) :: out | None => out end)
  | Abort id => (abort st id, out)
  | Cleanup now => (cleanup st now, out)
  | Release id => (release st id, out)
  end.

Definition run (m : QueryManager) (identity : Identity.SchedulerIdentity) (ops : list Op)
    : QueryState * list (string * CapacityOffer) :=
  fold_left (step m identity) ops (new_state, []).

(** The ids the run draws, for the freshness of [Uuid::new_v4]. *)
Definition drawn_id (op : Op) : list string :=
  match op with Begin _ _ _ _ id _ => [id] | _ => [] end.
Definition drawn_ids (ops : list Op) : list string := ops ≫= drawn_id.

Lemma best_offer_in p now e o :
  best_offer p now = Some (e, o) -> offers p !! e = Some o /\ eligible p now (e, o) = true.
Proof.
  unfold best_offer. destruct (list_retain _ _) as [|x l] eqn:E; [done|]. intros H.
  assert (Hin : (e, o) ∈ list_retain (eligible p now) (map_to_list (offers p))).
  { rewrite E. revert H. cbn. intros [= <-]. clear E. revert x. induction l as [|y l IH]; intros x; cbn.
    - set_solver.
    - specialize (IH (match compare_offers x.2 y.2 (criteria p) with Gt => y | _ => x end)).
      destruct (compare_offers _ _ _); set_solver. }
  apply elem_of_list_retain in Hin as [Hin Hel]. by apply elem_of_map_to_list in Hin.
Qed.

Section Preservation.
Variable m : QueryManager.

Lemma state_wf_new : 0 <= max_pending_queries m -> state_wf m new_state.
Proof. intros H. split; cbn; [by rewrite map_len_empty| |..]; intros ?; intros; set_solver. Qed.

Lemma remove_query_wf st id p :
  state_wf m st -> pending st !! id = Some p -> state_wf m (remove_query st (id, criteria p)).
Proof.
  intros [Hb Hp He Hi] Hid. split; cbn.
  - pose proof (map_len_delete_le (pending st) id). lia.
  - by apply map_Forall_delete.
  - intros id' p' [Hne Hl]%lookup_delete_Some. rewrite lookup_delete_ne; [eauto|].
    intros Heq. pose proof (He _ _ Hl) as H1. pose proof (He _ _ Hid). congruence.
  - intros c id' [Hne Hl]%lookup_delete_Some. destruct (Hi _ _ Hl) as (p' & Hp' & <-).
    exists p'. split; [|done]. apply lookup_delete_Some. split; [|done]. congruence.
Qed.

Lemma remove_queries_lookup l st id :
  pending (fold_left remove_query l st) !! id =
  if decide (id ∈ l.*1) then None else pending st !! id.
Proof.
  revert st. induction l as [|[k c] l IH]; intros st; [done|]. cbn. rewrite IH. cbn.
  destruct (decide (id = k)) as [->|Hne].
  - rewrite lookup_delete_eq. repeat case_decide; set_solver.
  - rewrite lookup_delete_ne by done. repeat case_decide; set_solver.
Qed.

Lemma remove_queries_wf l st :
  state_wf m st -> NoDup l.*1 ->
  (forall id c, (id, c) ∈ l -> exists p, pending st !! id = Some p /\ criteria p = c) ->
  state_wf m (fold_left remove_query l st).
Proof.
  revert st. induction l as [|[k c] l IH]; intros st Hwf Hnd Hl; [done|]. cbn in *.
  apply NoDup_cons in Hnd as [Hk Hnd].
  destruct (Hl k c) as (p & Hp & <-); [set_solver|].
  apply IH; [by eapply remove_query_wf|done|].
  intros id c' Hin. destruct (Hl id c') as (p' & Hp' & <-); [set_solver|].
  exists p'. split; [|done]. cbn. rewrite lookup_delete_ne; [done|].
  intros ->. apply Hk. apply list_elem_of_fmap. by exists (id, criteria p').
Qed.

Lemma expired_list_fst (l : list (string * PendingQuery)) now :
  ((fun kv : string * PendingQuery => (kv.1, criteria kv.2)) <$>
     filter (fun kv => is_expired now kv.2 = true) l).*1 =
  (filter (fun kv => is_expired now kv.2 = true) l).*1.
Proof. rewrite <- list_fmap_compose. by apply list_fmap_ext. Qed.

(** [cleanup_locked] keeps exactly the queries that have not expired. *)
Lemma cleanup_pending st now :
  pending (cleanup_locked st now) = map_retain (fun _ p => negb (is_expired now p)) (pending st).
Proof.
  apply map_eq. intros id. unfold cleanup_locked. rewrite remove_queries_lookup, expired_list_fst.
  rewrite lookup_map_retain_if. case_decide as Hin.
  - apply list_elem_of_fmap in Hin as ([k p] & -> & [Hex Hin]%list_elem_of_filter).
    apply elem_of_map_to_list in Hin. cbn in *. by rewrite Hin, Hex.
  - destruct (pending st !! id) as [p|] eqn:E; [|done]. destruct (is_expired now p) eqn:Hex; [|done].
    destruct Hin. apply list_elem_of_fmap. exists (id, p). split; [done|].
    apply list_elem_of_filter. by rewrite elem_of_map_to_list.
Qed.

Lemma cleanup_wf st now : state_wf m st -> state_wf m (cleanup_locked st now).
Proof.
  intros Hwf. apply remove_queries_wf; [done| |].
  - rewrite expired_list_fst. apply NoDup_fmap_fst; [|apply NoDup_filter, NoDup_map_to_list].
    intros id p1 p2. rewrite !list_elem_of_filter, !elem_of_map_to_list. naive_solver congruence.
  - intros id c. rewrite list_elem_of_fmap.
    intros ([k p] & [= -> ->] & [_ Hin]%list_elem_of_filter). exists p.
    by apply elem_of_map_to_list in Hin.
Qed.

(** Replacing a query's record by one with the same criteria. *)
Lemma set_pending_wf st id p p' :
  state_wf m st -> pending st !! id = Some p -> criteria p' = criteria p -> pending_wf m id p' ->
  state_wf m (set_pending st id p').
Proof.
  intros [Hb Hp He Hi] Hid Hc Hwf. split; cbn.
  - rewrite map_len_insert_old; [done|by eexists].
  - by apply map_Forall_insert_2.
  - intros id' q [[<- <-]|[Hne Hl]]%lookup_insert_Some; [rewrite Hc|]; eauto.
  - intros c id' Hl. destruct (Hi _ _ Hl) as (q & Hq & <-).
    destruct (decide (id' = id)) as [->|Hne].
    + exists p'. rewrite lookup_insert_eq. split; congruence.
    + exists q. by rewrite lookup_insert_ne.
Qed.

Lemma joinable_Some st c id p :
  joinable st c = Some (id, p) <-> equivalent st !! c = Some id /\ pending st !! id = Some p.
Proof.
  unfold joinable. destruct (equivalent st !! c) as [id'|]; cbn; [|naive_solver].
  destruct (pending st !! id') eqn:E; cbn; naive_solver.
Qed.

Lemma clamp_range x lo hi : lo <= hi -> lo <= clamp x lo hi <= hi.
Proof. unfold clamp. repeat case_match; lia. Qed.

Lemma open_query_wf st c identity addr target now id nonce :
  state_wf m st -> joinable st c = None -> map_len (pending st) < max_pending_queries m ->
  1 <= target <= max_offers_per_query m -> pending st !! id = None ->
  state_wf m (open_query m st c identity addr target now id nonce).1.
Proof.
  intros Hwf Hj Hlen Ht Hid. unfold open_query. cbn zeta.
  destruct (Identity.endpoint_record _ _ _ _) as [reply|]; [|done].
  destruct (Capacity.Query.sign _ _ _ _) as [q|] eqn:Hs; [|done].
  apply Capacity.Query.query_sign_id in Hs. cbn in Hs. rewrite Hs. destruct Hwf as [Hb Hp He Hi].
  assert (Hc : equivalent st !! c = None).
  { destruct (equivalent st !! c) as [id'|] eqn:E; [|done]. destruct (Hi _ _ E) as (p & Hl & _).
    by rewrite (proj2 (joinable_Some st c id' p)) in Hj. }
  split; cbn.
  - rewrite map_len_insert_new by done. lia.
  - apply map_Forall_insert_2; [|done].
    split; cbn; [done..| |set_solver|apply map_Forall_empty]. rewrite map_len_empty. lia.
  - intros id' p' [[<- <-]|[Hne Hl]]%lookup_insert_Some; cbn; [apply lookup_insert_eq|].
    rewrite lookup_insert_ne; [eauto|]. intros ->. rewrite (He _ _ Hl) in Hc. done.
  - intros c' id' [[<- <-]|[Hne Hl]]%lookup_insert_Some.
    + eexists. by rewrite lookup_insert_eq.
    + destruct (Hi _ _ Hl) as (p & Hp' & <-). exists p. rewrite lookup_insert_ne; [done|congruence].
Qed.

Lemma begin_wf st c identity addr target now id nonce :
  1 <= max_offers_per_query m -> state_wf m st -> pending st !! id = None ->
  state_wf m (begin m st c identity addr target now id nonce).1.
Proof.
  intros Hoffers Hwf Hid. unfold begin. cbn zeta. apply (cleanup_wf st now) in Hwf as Hwf'.
  pose proof (clamp_range target 1 _ Hoffers) as Ht.
  assert (Hid' : pending (cleanup_locked st now) !! id = None).
  { rewrite cleanup_pending, lookup_map_retain_if. by rewrite Hid. }
  revert Hwf' Hid'. generalize (cleanup_locked st now) as s. intros s Hwf' Hid'.
  destruct (joinable s (normalized c)) as [[k p]|] eqn:Hj.
  - apply joinable_Some in Hj as [_ Hk]. apply (set_pending_wf _ _ p); [done..|].
    destruct (wf_pending _ _ Hwf' _ _ Hk). split; cbn; try done.
    unfold saturating_add, usize_max. lia.
  - destruct (Z.leb_spec (max_pending_queries m) (map_len (pending s))); [done|].
    by apply open_query_wf.
Qed.

Lemma submit_offer_wf st o e now : state_wf m st -> state_wf m (submit_offer m st o e now).1.
Proof.
  intros Hwf. unfold submit_offer. destruct (Capacity.Offer.verify o now); [|done].
  case_bool_decide as He; [|done]. cbn zeta.
  apply (cleanup_wf st now) in Hwf. revert Hwf. generalize (cleanup_locked st now) as s.
  intros s Hwf. destruct (pending s !! _) as [p|] eqn:Hp; [|done].
  destruct (now <=? _); [|done]. destruct (is_excluded _ _) eqn:Hx; [done|].
  destruct (satisfies _ _) eqn:Hs; [|done]. destruct (has_capabilities _ _) eqn:Hcap; [|done].
  destruct (contains_key _ _) eqn:Hk; [done|]. apply contains_key_false in Hk.
  destruct (Z.leb_spec (max_offers_per_query m) (map_len (offers p))) as [|Hlen]; [done|].
  apply (set_pending_wf _ _ p); [done..|].
  destruct (wf_pending _ _ Hwf _ _ Hp). split; cbn; [done..| | |].
  - rewrite map_len_insert_new by done. lia.
  - rewrite dom_insert_L. set_solver.
  - by apply map_Forall_insert_2.
Qed.

Lemma finish_wf st id now : state_wf m st -> state_wf m (finish st id now).1.
Proof.
  intros Hwf. unfold finish. destruct (pending st !! id) as [p|] eqn:Hp; [|done].
  destruct (best_offer p now) as [[e o]|] eqn:Hb; [|done].
  apply best_offer_in in Hb as [Hl _]. apply (set_pending_wf _ _ p); [done..|].
  destruct (wf_pending _ _ Hwf _ _ Hp). split; cbn; try done.
  apply elem_of_dom_2 in Hl. set_solver.
Qed.

Lemma abort_wf st id : state_wf m st -> state_wf m (abort st id).
Proof.
  intros Hwf. unfold abort. destruct (pending st !! id) as [p|] eqn:Hp; [|done].
  by apply (remove_query_wf st id p).
Qed.

Lemma release_wf st id : state_wf m st -> state_wf m (release st id).
Proof.
  intros Hwf. unfold release. destruct (pending st !! id) as [p|] eqn:Hp; [|done].
  apply (set_pending_wf _ _ p); [done..|]. by destruct (wf_pending _ _ Hwf _ _ Hp).
Qed.

Lemma step_wf identity s op :
  1 <= max_offers_per_query m -> state_wf m s.1 -> (forall id, id ∈ drawn_id op -> pending s.1 !! id = None) ->
  state_wf m (step m identity s op).1.
Proof.
  destruct s as [st out], op; cbn; intros Hm Hwf Hid;
    auto using submit_offer_wf, finish_wf, abort_wf, release_wf, cleanup_wf.
  apply begin_wf; [done..|]. apply Hid. set_solver.
Qed.

End Preservation.
(** ** What a step does to one query *)

(** The record of query [id] after a step is a newly opened one, or an older
    record of the same criteria with more selections. *)
Definition evolves (st st' : QueryState) (fresh : list string) : Prop :=
  forall id p', pending st' !! id = Some p' ->
    id ∈ fresh \/
    exists p, pending st !! id = Some p /\ selected p ⊆ selected p' /\ criteria p' = criteria p.

Lemma evolves_trans s1 s2 s3 f1 f2 :
  evolves s1 s2 f1 -> evolves s2 s3 f2 -> evolves s1 s3 (f1 ++ f2).
Proof.
  intros H1 H2 id p' Hp. destruct (H2 _ _ Hp) as [?|(p2 & Hp2 & Hs2 & Hc2)]; [left; set_solver|].
  destruct (H1 _ _ Hp2) as [?|(p1 & Hp1 & Hs1 & Hc1)]; [left; set_solver|right].
  exists p1. split_and!; [done|by transitivity (selected p2)|congruence].
Qed.

Lemma evolves_sub st st' f : pending st' ⊆ pending st -> evolves st st' f.
Proof. intros Hs id p Hp. right. exists p. split_and!; [by eapply lookup_weaken|done..]. Qed.

Lemma evolves_cleanup st now : evolves st (cleanup_locked st now) [].
Proof. apply evolves_sub. rewrite cleanup_pending. apply map_retain_subseteq. Qed.

Lemma evolves_set st id p p' f :
  pending st !! id = Some p -> selected p ⊆ selected p' -> criteria p' = criteria p ->
  evolves st (set_pending st id p') f.
Proof.
  intros Hp Hs Hc id' q. cbn. intros [[<- <-]|[_ Hq]]%lookup_insert_Some; right; eauto.
Qed.

#[local] Hint Resolve evolves_sub evolves_set : core.

Lemma evolves_begin m st c identity addr target now id nonce :
  evolves st (begin m st c identity addr target now id nonce).1 [id].
Proof.
  unfold begin. cbn zeta. eapply (evolves_trans _ _ _ []); [apply (evolves_cleanup st now)|].
  generalize (cleanup_locked st now) as s. intros s.
  destruct (joinable s _) as [[k p]|] eqn:Hj.
  - apply joinable_Some in Hj as [_ Hk]. by eapply evolves_set.
  - destruct (negb _); [|by apply evolves_sub]. unfold open_query. cbn zeta.
    destruct (Identity.endpoint_record _ _ _ _) as [reply|]; [|by apply evolves_sub].
    destruct (Capacity.Query.sign _ _ _ _) as [q|] eqn:Hs; [|by apply evolves_sub].
    apply Capacity.Query.query_sign_id in Hs. cbn in Hs. rewrite Hs.
    intros id' p'. cbn. intros [[<- <-]|[_ Hl]]%lookup_insert_Some; [left; set_solver|eauto].
Qed.

Lemma evolves_submit m st o e now : evolves st (submit_offer m st o e now).1 [].
Proof.
  unfold submit_offer. destruct (Capacity.Offer.verify o now); [|by apply evolves_sub].
  case_bool_decide; [|by apply evolves_sub]. cbn zeta.
  eapply (evolves_trans _ _ _ []); [apply (evolves_cleanup st now)|].
  generalize (cleanup_locked st now) as s. intros s.
  destruct (pending s !! _) eqn:Hp; [|by apply evolves_sub].
  repeat (case_match; [|by apply evolves_sub]). by eapply evolves_set.
Qed.

Lemma evolves_step m identity s op : evolves s.1 (step m identity s op).1 (drawn_id op).
Proof.
  destruct s as [st out], op as [| |id now|id|now|id]; cbn.
  - apply evolves_begin.
  - apply evolves_submit.
  - unfold finish. destruct (pending st !! id) eqn:Hp; [|by apply evolves_sub].
    destruct (best_offer _ _) as [[]|]; [|by apply evolves_sub].
    eapply evolves_set; [done|set_solver|done].
  - unfold abort. destruct (pending st !! id); apply evolves_sub; [apply delete_subseteq|done].
  - apply evolves_cleanup.
  - unfold release. destruct (pending st !! id) eqn:Hp; [|by apply evolves_sub].
    by eapply evolves_set.
Qed.

(** ** Runs *)

Definition agent_of (o : CapacityOffer) : bytes :=
  EndpointRecord.endpoint_id (Capacity.Offer.agent_endpoint o).

(** After a run that drew [ids]: only drawn ids are in use, and an agent
    handed out for a query is marked as selected while the query lives. *)
Record run_wf (m : QueryManager) (ids : list string)
    (s : QueryState * list (string * CapacityOffer)) : Prop := {
  run_state : state_wf m s.1;
  run_ids id p : pending s.1 !! id = Some p -> id ∈ ids;
  run_out_ids id o : (id, o) ∈ s.2 -> id ∈ ids;
  run_out_selected id o p : (id, o) ∈ s.2 -> pending s.1 !! id = Some p ->
    exists e, e ∈ selected p /\ agent_of o = id_as_bytes e;
  run_out_nodup : NoDup ((fun io => (io.1, agent_of io.2)) <$> s.2)
}.

Lemma finish_Some st id now o :
  (finish st id now).2 = Some o ->
  exists p e, pending st !! id = Some p /\ offers p !! e = Some o /\ eligible p now (e, o) = true /\
    (finish st id now).1 = set_pending st id
      {| criteria := criteria p; query := query p; offers := offers p;
         selected := {[e]} ∪ selected p;
         target_offers := target_offers p; offer_count := offer_count p |}.
Proof.
  unfold finish. destruct (pending st !! id) as [p|]; [|done].
  destruct (best_offer p now) as [[e o']|] eqn:Hb; [|done]. cbn. intros Ho.
  apply best_offer_in in Hb as [Hl He]. simplify_eq. eauto 10.
Qed.
Lemma run_wf_same m identity ids s op :
  1 <= max_offers_per_query m -> run_wf m ids s ->
  (forall id, id ∈ drawn_id op -> id ∉ ids) -> (step m identity s op).2 = s.2 ->
  run_wf m (ids ++ drawn_id op) (step m identity s op).
Proof.
  intros Hm [Hs Hids Hout Hsel Hnd] Hfresh Heq.
  pose proof (evolves_step m identity s op) as Hev. split; rewrite ?Heq; [|..|done].
  - apply step_wf; [done..|]. intros id Hid. destruct (pending s.1 !! id) eqn:E; [|done].
    destruct (Hfresh id); eauto.
  - intros id p Hp. apply elem_of_app. destruct (Hev _ _ Hp) as [?|(p0 & Hp0 & _ & _)]; eauto.
  - intros id o Hin. apply elem_of_app. eauto.
  - intros id o p Hin Hp. destruct (Hev _ _ Hp) as [Hf|(p0 & Hp0 & Hsub & _)].
    + destruct (Hfresh id); eauto.
    + destruct (Hsel _ _ _ Hin Hp0) as (e & He & Ha). exists e. set_solver.
Qed.

Lemma run_wf_finish {L : IrohLaws I} m identity ids s id now o :
  1 <= max_offers_per_query m -> run_wf m ids s -> (finish s.1 id now).2 = Some o ->
  run_wf m ids (step m identity s (Finish id now)).
Proof.
  intros Hm [Hs Hids Hout Hsel Hnd] Hf. destruct s as [st out]. cbn in *.
  pose proof (finish_wf m st id now Hs) as Hwf.
  destruct (finish_Some _ _ _ _ Hf) as (p & e & Hp & Ho & Hel & Hst). rewrite Hf.
  assert (Hag : agent_of o = id_as_bytes e).
  { by destruct (wf_offers _ _ _ (wf_pending _ _ Hs _ _ Hp) _ _ Ho). }
  split; cbn; [done|..]; rewrite ?Hst; cbn.
  - intros id' p' [[<- <-]|[_ Hl]]%lookup_insert_Some; eauto.
  - intros id' o' [[= -> ->]|Hin]%elem_of_cons; eauto.
  - intros id' o' p' Hin Hl. apply elem_of_cons in Hin.
    destruct (decide (id' = id)) as [->|Hne].
    + rewrite lookup_insert_eq in Hl. injection Hl as <-. cbn.
      destruct Hin as [[= ->]|Hin]; [exists e; set_solver|].
      destruct (Hsel _ _ _ Hin Hp) as (e' & He' & Ha'). exists e'. set_solver.
    + rewrite lookup_insert_ne in Hl by done. destruct Hin as [[= -> ->]|Hin]; [done|eauto].
  - apply NoDup_cons. split; [|done]. intros ([id' o'] & [= <- Ha] & Hin)%list_elem_of_fmap.
    destruct (Hsel _ _ _ Hin Hp) as (e' & He' & Ha').
    unfold eligible in Hel. apply andb_true_iff in Hel as [_ Hns]. cbn in Hns.
    apply negb_true_iff, bool_decide_eq_false in Hns. destruct Hns.
    by rewrite (id_as_bytes_inj e e') by congruence.
Qed.

Lemma run_run_wf {L : IrohLaws I} m identity ops :
  0 <= max_pending_queries m -> 1 <= max_offers_per_query m -> NoDup (drawn_ids ops) ->
  run_wf m (drawn_ids ops) (run m identity ops).
Proof.
  intros Hp Hm. induction ops as [|op ops IH] using rev_ind; intros Hnd.
  - split; cbn; [by apply state_wf_new|set_solver..|constructor].
  - unfold drawn_ids in *. rewrite bind_app in *. cbn in *. rewrite app_nil_r in *.
    apply NoDup_app in Hnd as (Hnd & Hdis & _). specialize (IH Hnd).
    unfold run in *. rewrite fold_left_app. cbn.
    revert IH. generalize (fold_left (step m identity) ops (new_state, [])) as s. intros s IH.
    assert (Hsame : (step m identity s op).2 = s.2 ->
              run_wf m ((ops ≫= drawn_id) ++ drawn_id op) (step m identity s op)).
    { apply run_wf_same; [done..|]. intros id Hid Hin. by apply (Hdis id). }
    destruct op as [| |id now| | |]; try (apply Hsame; by destruct s).
    destruct (finish s.1 id now).2 as [o|] eqn:Hf.
    + cbn. rewrite app_nil_r. by apply (run_wf_finish _ _ _ _ _ _ o).
    + apply Hsame. destruct s as [st out]. cbn in *. by rewrite Hf.
Qed.
(** ** Properties *)

#[local] Instance compare_offers_laws c : CompareLaws (fun l r => compare_offers l r c).
Proof.
  unfold compare_offers. repeat apply then_with_laws.
  - apply (key_laws (fun o => saturating_sub (Capacity.Offer.available_cpu_milli o) (cpu_milli c)) Z.compare _).
  - apply (key_laws (fun o => saturating_sub (Capacity.Offer.available_memory_bytes o) (memory_bytes c)) Z.compare _).
  - apply (key_laws (fun o => saturating_sub (Capacity.Offer.available_storage_bytes o) (storage_bytes c)) Z.compare _).
  - apply (key_laws agent_of bytes_compare _).
Qed.

Lemma compare_offers_eq l r c : compare_offers l r c = Eq -> agent_of l = agent_of r.
Proof.
  unfold compare_offers, then_with. repeat (case_match; try done). apply bytes_compare_eq.
Qed.

Lemma best_offer_min p now e o e' o' :
  best_offer p now = Some (e, o) -> offers p !! e' = Some o' -> eligible p now (e', o') = true ->
  compare_offers o o' (criteria p) <> Gt.
Proof.
  intros Hb Ho Hel. unfold best_offer in Hb.
  pose proof (key_laws (@snd EndpointId CapacityOffer)
    (fun l r => compare_offers l r (criteria p)) _) as Hlaws.
  apply (min_by_spec _ (L := Hlaws)) in Hb as [_ Hmin].
  apply (Hmin (e', o')). apply elem_of_list_retain. by rewrite elem_of_map_to_list.
Qed.

Lemma best_offer_none p now e o :
  best_offer p now = None -> offers p !! e = Some o -> eligible p now (e, o) = false.
Proof.
  unfold best_offer. intros Hn%min_by_none Ho. apply not_true_iff_false. intros Hel.
  assert ((e, o) ∈ list_retain (eligible p now) (map_to_list (offers p))) as Hin.
  { apply elem_of_list_retain. by rewrite elem_of_map_to_list. }
  rewrite Hn in Hin. by apply elem_of_nil in Hin.
Qed.

(** C14. However offers, waiters and cleanups interleave, the manager stays
    within its limits and consistent: at most [max_pending_queries] queries,
    each with at most [max_offers_per_query] offers, every one from the agent
    it is filed under, for this query, with enough resources and the required
    capabilities and not excluded; and there is exactly one query in flight
    for each set of criteria. *)
Theorem queries_consistent {L : IrohLaws I} (m : QueryManager) (identity : Identity.SchedulerIdentity)
    (ops : list Op)
    (Hpending : 0 <= max_pending_queries m) (Hoffers : 1 <= max_offers_per_query m)
    (Hfresh : NoDup (drawn_ids ops)) :
  let st := (run m identity ops).1 in
  pending_len st <= max_pending_queries m /\
  (forall id p, pending st !! id = Some p ->
     Capacity.Query.query_id (query p) = id /\
     1 <= target_offers p <= max_offers_per_query m /\
     map_len (offers p) <= max_offers_per_query m /\
     (forall e o, offers p !! e = Some o ->
        EndpointRecord.endpoint_id (Capacity.Offer.agent_endpoint o) = id_as_bytes e /\
        Capacity.Offer.query_id o = id /\
        satisfies (criteria p) o = true /\ has_capabilities (criteria p) o = true /\
        is_excluded (criteria p) e = false)) /\
  (forall c id, equivalent st !! c = Some id <->
     exists p, pending st !! id = Some p /\ criteria p = c).
Proof.
  cbv zeta. destruct (run_run_wf m identity ops Hpending Hoffers Hfresh) as [[Hb Hp He Hi] _ _ _ _].
  split_and!; [done| |].
  - intros id p Hl. destruct (Hp _ _ Hl) as [? ? ? ? Hoff]. split_and!; [done|lia|lia|done|exact Hoff].
  - intros c id. split; [apply Hi|]. intros (p & Hl & <-). by apply He.
Qed.

(** [finish] hands a waiter the tightest-fitting offer that is live and
    not yet handed out, and marks its agent; every other candidate compares
    strictly greater, so the choice does not depend on the iteration order of
    the offer map.  It answers [None], and changes nothing, exactly when no
    candidate is left. *)
Theorem finish_selects {L : IrohLaws I} (m : QueryManager) (identity : Identity.SchedulerIdentity)
    (ops : list Op) (id : string) (now : Z) (p : PendingQuery)
    (Hpending : 0 <= max_pending_queries m) (Hoffers : 1 <= max_offers_per_query m)
    (Hfresh : NoDup (drawn_ids ops)) (Hp : pending (run m identity ops).1 !! id = Some p) :
  let st := (run m identity ops).1 in
  match (finish st id now).2 with
  | Some o => exists e,
      offers p !! e = Some o /\ now <= Capacity.Offer.expires_at_secs o /\ e ∉ selected p /\
      (exists p', pending (finish st id now).1 !! id = Some p' /\ selected p' = {[e]} ∪ selected p) /\
      (forall e' o', offers p !! e' = Some o' -> now <= Capacity.Offer.expires_at_secs o' ->
         e' ∉ selected p -> e' <> e -> compare_offers o o' (criteria p) = Lt)
  | None => (finish st id now).1 = st /\
      forall e o, offers p !! e = Some o -> e ∈ selected p \/ Capacity.Offer.expires_at_secs o < now
  end.
Proof.
  cbv zeta. destruct (run_run_wf m identity ops Hpending Hoffers Hfresh) as [Hwf _ _ _ _].
  revert Hp Hwf. generalize (run m identity ops).1 as st. intros st Hp Hwf.
  destruct (finish st id now).2 as [o|] eqn:Hf.
  - unfold finish in *. rewrite Hp in *. destruct (best_offer p now) as [[e o']|] eqn:Hb; [|done].
    cbn in Hf. apply best_offer_in in Hb as Hin. destruct Hin as [Hl Hel].
    assert (o' = o) as -> by congruence. exists e.
    apply andb_true_iff in Hel as [Hlive Hns]. cbn in Hlive, Hns.
    apply negb_true_iff, bool_decide_eq_false in Hns. split_and!; [done|lia|done| |].
    + eexists. split; [apply lookup_insert_eq|done].
    + intros e' o' Ho' Hlive' Hns' Hne.
      assert (Hle : compare_offers o o' (criteria p) <> Gt).
      { apply (best_offer_min p now e o e' o'); [done..|]. unfold eligible. cbn.
        rewrite bool_decide_false by done. apply andb_true_iff. split; [lia|done]. }
      destruct (compare_offers o o' (criteria p)) eqn:Hc; [|done..]. destruct Hne.
      apply compare_offers_eq in Hc. pose proof (wf_offers _ _ _ (wf_pending _ _ Hwf _ _ Hp)) as Hfit.
      destruct (Hfit _ _ Hl) as [Ha _], (Hfit _ _ Ho') as [Ha' _].
      apply id_as_bytes_inj. unfold agent_of in Hc. congruence.
  - unfold finish in *. rewrite Hp in *. destruct (best_offer p now) as [[e o']|] eqn:Hb.
    { apply best_offer_in in Hb as [Hl _]. cbn in Hf. congruence. }
    split; [done|]. intros e o Ho. pose proof (best_offer_none _ _ _ _ Hb Ho) as Hel.
    apply andb_false_iff in Hel as [Hx|Hs]; cbn in *; [right; lia|left].
    by apply negb_false_iff, bool_decide_eq_true in Hs.
Qed.

(** Waiters that joined one query never get the same agent: over a whole
    run, no agent is handed out twice for a query id. *)
Theorem selections_distinct {L : IrohLaws I} (m : QueryManager) (identity : Identity.SchedulerIdentity)
    (ops : list Op)
    (Hpending : 0 <= max_pending_queries m) (Hoffers : 1 <= max_offers_per_query m)
    (Hfresh : NoDup (drawn_ids ops)) :
  NoDup ((fun io => (io.1, agent_of io.2)) <$> (run m identity ops).2).
Proof. by destruct (run_run_wf m identity ops Hpending Hoffers Hfresh). Qed.
Lemma has_capabilities_spec c o :
  has_capabilities c o = true <-> required_capabilities c ⊆ Capacity.Offer.capabilities o.
Proof.
  unfold has_capabilities. rewrite forallb_forall. setoid_rewrite bool_decide_eq_true.
  split; intros H x Hx; apply H; by apply list_elem_of_In.
Qed.

Lemma satisfies_spec c o :
  satisfies c o = true <->
  cpu_milli c <= Capacity.Offer.available_cpu_milli o /\
  memory_bytes c <= Capacity.Offer.available_memory_bytes o /\
  storage_bytes c <= Capacity.Offer.available_storage_bytes o.
Proof. unfold satisfies. rewrite !andb_true_iff, !Z.leb_le. tauto. Qed.

(** The refusing branches of [submit_offer]. *)
Ltac refused :=
  cbn; split_and!; [split; [done|]|done|by auto];
  intros (? & ? & ? & ? & ?); simplify_eq; split_and_all; (lia || naive_solver).

(** The conditions under which an offer is new and admissible for [p]. *)
Definition admits (m : QueryManager) (p : PendingQuery) (o : CapacityOffer) (e : EndpointId) (now : Z) : Prop :=
  now <= Capacity.Query.expires_at_secs (query p) /\
  id_as_bytes e ∉ excluded_endpoint_ids (criteria p) /\
  cpu_milli (criteria p) <= Capacity.Offer.available_cpu_milli o /\
  memory_bytes (criteria p) <= Capacity.Offer.available_memory_bytes o /\
  storage_bytes (criteria p) <= Capacity.Offer.available_storage_bytes o /\
  required_capabilities (criteria p) ⊆ Capacity.Offer.capabilities o /\
  offers p !! e = None /\ map_len (offers p) < max_offers_per_query m.

(** [submit_offer] files an offer exactly when it verifies, comes from the
    endpoint it names, and the query it names is live, does not exclude the
    agent, is satisfied by it and has room; the only change then is that offer
    and the published count, and in every other case the table is left as the
    expiry sweep left it. *)
Theorem submit_offer_spec (m : QueryManager) (st : QueryState) (o : CapacityOffer) (e : EndpointId)
    (now : Z) :
  let r := submit_offer m st o e now in
  let swept := cleanup_locked st now in
  (r.2 = Ok true <->
     Capacity.Offer.verify o now = Ok tt /\
     EndpointRecord.endpoint_id (Capacity.Offer.agent_endpoint o) = id_as_bytes e /\
     exists p, pending swept !! Capacity.Offer.query_id o = Some p /\ admits m p o e now) /\
  (r.2 = Ok true -> equivalent r.1 = equivalent swept /\
     exists p p', pending swept !! Capacity.Offer.query_id o = Some p /\
       pending r.1 = <[Capacity.Offer.query_id o := p']> (pending swept) /\
       offers p' = <[e := o]> (offers p) /\ selected p' = selected p /\
       offer_count p' = send (map_len (offers p) + 1) (offer_count p)) /\
  (r.2 <> Ok true -> r.1 = st \/ r.1 = swept).
Proof.
  cbv zeta. unfold submit_offer, admits.
  destruct (Capacity.Offer.verify o now) as [[]|] eqn:Hv; [|refused].
  case_bool_decide as He; [|refused].
  destruct (pending (cleanup_locked st now) !! _) as [p|] eqn:Hp; [|refused].
  destruct (Z.leb_spec now (Capacity.Query.expires_at_secs (query p))); [|refused].
  unfold is_excluded. case_bool_decide as Hx; [refused|].
  destruct (satisfies (criteria p) o) eqn:Hs; [|rewrite <- not_true_iff_false in Hs];
    rewrite satisfies_spec in Hs; [|refused].
  destruct (has_capabilities (criteria p) o) eqn:Hcap; [|rewrite <- not_true_iff_false in Hcap];
    rewrite has_capabilities_spec in Hcap; [|refused].
  destruct (contains_key e (offers p)) eqn:Hk; cbn [negb].
  { apply contains_key_true in Hk as [? Hk]. refused. }
  apply contains_key_false in Hk.
  destruct (Z.leb_spec (max_offers_per_query m) (map_len (offers p))); [refused|].
  cbn. split_and!; [|intros _|done].
  - split; [intros _|done]. eauto 15 with lia.
  - split; [done|]. do 2 eexists. rewrite map_len_insert_new by done. eauto 10.
Qed.

(** The published offer count is exact while a waiter holds a receiver of
    the query's channel.  Once every waiter has returned, an accepted offer
    still grows the query but leaves the count it publishes behind, and a
    caller that joins later starts from that stale count. *)
Theorem offer_count_published {L : WatchLaws Z W} (m : QueryManager) (st : QueryState) (o : CapacityOffer)
    (e : EndpointId) (now : Z) (p : PendingQuery)
    (Hp : pending (cleanup_locked st now) !! Capacity.Offer.query_id o = Some p)
    (Hok : (submit_offer m st o e now).2 = Ok true) :
  exists p', pending (submit_offer m st o e now).1 !! Capacity.Offer.query_id o = Some p' /\
    map_len (offers p') = map_len (offers p) + 1 /\
    (0 < receiver_count (offer_count p) -> borrow (offer_count p') = map_len (offers p')) /\
    (receiver_count (offer_count p) = 0 -> borrow (offer_count p') = borrow (offer_count p) /\
       borrow (subscribe (offer_count p')) = borrow (offer_count p)).
Proof.
  revert Hok. unfold submit_offer.
  destruct (Capacity.Offer.verify o now); [|done]. case_bool_decide; [|done]. cbn zeta. rewrite Hp.
  repeat (case_match; try done). intros _. eexists. split; [apply lookup_insert_eq|]. cbn.
  match goal with H : negb (contains_key _ _) = true |- _ => apply negb_true_iff, contains_key_false in H end.
  rewrite map_len_insert_new by done. split_and!; [done|apply borrow_send|].
  intros Hz. by rewrite borrow_subscribe, send_closed.
Qed.

Lemma cleanup_joinable m st now c id p :
  state_wf m st -> joinable st c = Some (id, p) -> is_expired now p = false ->
  joinable (cleanup_locked st now) c = Some (id, p).
Proof.
  intros Hwf [He Hp]%joinable_Some Hx. apply joinable_Some.
  assert (Hl : pending (cleanup_locked st now) !! id = Some p).
  { rewrite cleanup_pending, lookup_map_retain_if, Hp. by rewrite Hx. }
  split; [|done]. destruct (wf_equivalent_inv _ _ Hwf _ _ He) as (p' & Hp' & <-).
  assert (p' = p) as -> by congruence. by apply (wf_equivalent _ _ (cleanup_wf m st now Hwf)).
Qed.

Lemma begin_joinable m st c identity addr target now id nonce b :
  (begin m st c identity addr target now id nonce).2 = Ok b ->
  exists k p, joinable (begin m st c identity addr target now id nonce).1 (normalized c) = Some (k, p) /\
    query p = begun_query b /\ target_offers p = begun_target b.
Proof.
  unfold begin. cbn zeta. destruct (joinable _ _) as [[k p]|] eqn:Hj.
  - intros [= <-]. apply joinable_Some in Hj as [He Hp]. exists k. eexists.
    split; [apply joinable_Some; split; [done|apply lookup_insert_eq]|done].
  - destruct (negb _); [|done]. unfold open_query. cbn zeta.
    destruct (Identity.endpoint_record _ _ _ _); [|done].
    destruct (Capacity.Query.sign _ _ _ _) as [q|]; [|done]. intros [= <-].
    do 2 eexists. split; [apply joinable_Some; cbn; split; apply lookup_insert_eq|done].
Qed.

(** Criteria that differ in the order of their lists only. *)
Definition same_criteria (c c' : CapacityCriteria) : Prop :=
  cpu_milli c = cpu_milli c' /\ memory_bytes c = memory_bytes c' /\
  storage_bytes c = storage_bytes c' /\
  required_capabilities c ≡ₚ required_capabilities c' /\
  excluded_endpoint_ids c ≡ₚ excluded_endpoint_ids c'.

Lemma normalized_same c c' : same_criteria c c' -> normalized c = normalized c'.
Proof.
  intros (H1 & H2 & H3 & H4 & H5). unfold normalized. f_equal; [done..| |].
  - apply (sort_canonical str_compare); [apply str_compare_eq|done].
  - apply (sort_canonical bytes_compare); [apply bytes_compare_eq|done].
Qed.

(** Equivalent placements share one query: while the query [begin] answered
    with lives, a [begin] with the same criteria in any order answers with that
    very query, asks for no new one, and raises its target by the caller's own,
    up to the offer limit. *)
Theorem begin_coalesces {L : IrohLaws I} (m : QueryManager) (identity : Identity.SchedulerIdentity)
    (ops : list Op) (c c' : CapacityCriteria) (addr addr' : EndpointAddr) (target target' now now' : Z)
    (id id' nonce nonce' : string) (b : BegunQuery)
    (Hpending : 0 <= max_pending_queries m) (Hoffers : 1 <= max_offers_per_query m <= usize_max)
    (Hfresh : NoDup (drawn_ids (ops ++ [Begin c addr target now id nonce])))
    (Hb : (begin m (run m identity ops).1 c identity addr target now id nonce).2 = Ok b)
    (Hc : same_criteria c c')
    (Hlive : now' <= saturating_add u64_max (Capacity.Query.expires_at_secs (begun_query b)) 1) :
  let st := (run m identity (ops ++ [Begin c addr target now id nonce])).1 in
  let r := begin m st c' identity addr' target' now' id' nonce' in
  dom (pending r.1) ⊆ dom (pending st) /\
  r.2 = Ok {| begun_query := begun_query b; newly_created := false;
              begun_target := Z.min (begun_target b + clamp target' 1 (max_offers_per_query m))
                                    (max_offers_per_query m) |}.
Proof.
  cbv zeta. destruct Hoffers as [Hmin Hmax].
  pose proof (run_run_wf m identity _ Hpending Hmin Hfresh) as [Hwf _ _ _ _].
  assert (Hst : (run m identity (ops ++ [Begin c addr target now id nonce])).1 =
                (begin m (run m identity ops).1 c identity addr target now id nonce).1).
  { unfold run. rewrite fold_left_app. cbn. by destruct (fold_left _ ops _). }
  rewrite Hst in *. apply begin_joinable in Hb as (k & p & Hj & Hq & Ht).
  revert Hwf Hj. generalize (begin m (run m identity ops).1 c identity addr target now id nonce).1 as st.
  intros st Hwf Hj. rewrite (normalized_same _ _ Hc) in Hj.
  assert (Hx : is_expired now' p = false) by (unfold is_expired; rewrite Hq; lia).
  pose proof (cleanup_joinable _ _ _ _ _ _ Hwf Hj Hx) as Hj'. apply joinable_Some in Hj' as Hk.
  pose proof (cleanup_wf m st now' Hwf) as Hwf'.
  destruct (wf_target _ _ _ (wf_pending _ _ Hwf' _ _ (proj2 Hk))) as [Ht1 Ht2].
  pose proof (clamp_range target' 1 _ Hmin).
  unfold begin. cbn zeta. rewrite Hj'. split.
  - cbn. rewrite dom_insert_L. destruct Hk as [_ Hk]. apply elem_of_dom_2 in Hk.
    rewrite cleanup_pending in *. pose proof (map_retain_subseteq (fun _ p => negb (is_expired now' p)) (pending st)) as Hsub.
    apply subseteq_dom in Hsub. set_solver.
  - cbn. rewrite Hq, Ht in *. do 2 f_equal. unfold saturating_add. lia.
Qed.

End Manager.

(** ** Witnesses *)

(** A scheduler, two agents with one offer each, and a short run. *)
Module Sample.
Import Crypto.Toy.
#[export] Existing Instances prims laws ToyIroh.iroh ToyIroh.iroh_laws ToyWatch.watch ToyWatch.watch_laws.

Definition sk : bytes := sample_key 3.
Definition key : string := b64_encode sk.

Definition record (e : byte) (i : Z) (signed : bool) : EndpointRecord := {|
  EndpointRecord.version := 1; EndpointRecord.endpoint_id := replicate 32 e;
  EndpointRecord.relay_url := None; EndpointRecord.direct_addresses := ["127.0.0.1:4000"];
  EndpointRecord.signing_pubkey := key;
  EndpointRecord.issued_at_secs := 1000; EndpointRecord.expires_at_secs := 1010;
  EndpointRecord.signature :=
    if signed then b64_encode (ed_sign sk (bind Crypto.EndpointRecord [byte_of_Z i])) else "" |}.

#[export] Instance record_codec : Postcard EndpointRecord :=
  Signed.Table.codec (EqDecision0 := Messages.Sample.EndpointRecord_eq_dec)
    [record Byte.x05 0 false; record Byte.x01 1 false; record Byte.x02 2 false;
     record Byte.x05 0 true; record Byte.x01 1 true; record Byte.x02 2 true].

Definition offer (e : byte) (i cpu : Z) (signed : bool) : CapacityOffer := {|
  Capacity.Offer.version := 1; Capacity.Offer.query_id := "q1";
  Capacity.Offer.agent_endpoint := record e (i + 1) true;
  Capacity.Offer.kem_pubkey := b64_encode (sample_key 9); Capacity.Offer.available_cpu_milli := cpu;
  Capacity.Offer.available_memory_bytes := 4096; Capacity.Offer.available_storage_bytes := 8192;
  Capacity.Offer.capabilities := ["linux"; "gpu"]; Capacity.Offer.issued_at_secs := 1000;
  Capacity.Offer.expires_at_secs := 1010; Capacity.Offer.signing_pubkey := key;
  Capacity.Offer.signature :=
    if signed then b64_encode (ed_sign sk (bind Crypto.CapacityOffer [byte_of_Z i])) else "" |}.

#[export] Instance offer_codec : Postcard CapacityOffer :=
  Signed.Table.codec (EqDecision0 := Messages.Sample.CapacityOffer_eq_dec)
    [offer Byte.x01 0 2000 false; offer Byte.x02 1 1500 false;
     offer Byte.x01 0 2000 true; offer Byte.x02 1 1500 true].

Definition wanted : CapacityCriteria := {|
  cpu_milli := 1000; memory_bytes := 1024; storage_bytes := 1024;
  required_capabilities := ["linux"; "gpu"]; excluded_endpoint_ids := [] |}.
Definition wanted' : CapacityCriteria := {|
  cpu_milli := 1000; memory_bytes := 1024; storage_bytes := 1024;
  required_capabilities := ["gpu"; "linux"]; excluded_endpoint_ids := [] |}.

Definition query0 (signed : bool) : CapacityQuery := {|
  Capacity.Query.version := 1; Capacity.Query.query_id := "q1"; Capacity.Query.nonce := "n1";
  Capacity.Query.cpu_milli := 1000; Capacity.Query.memory_bytes := 1024;
  Capacity.Query.storage_bytes := 1024;
  Capacity.Query.required_capabilities := ["gpu"; "linux"];
  Capacity.Query.excluded_endpoint_ids := [];
  Capacity.Query.reply_endpoint := record Byte.x05 0 true;
  Capacity.Query.issued_at_secs := 1000; Capacity.Query.expires_at_secs := 1010;
  Capacity.Query.signing_pubkey := key;
  Capacity.Query.signature :=
    if signed then b64_encode (ed_sign sk (bind Crypto.CapacityQuery [byte_of_Z 0])) else "" |}.

#[export] Instance query_eq_dec : EqDecision CapacityQuery.
Proof. pose proof Messages.Sample.EndpointRecord_eq_dec. solve_decision. Defined.
#[export] Instance query_codec : Postcard CapacityQuery :=
  Signed.Table.codec [query0 false; query0 true].

Definition identity : Identity.SchedulerIdentity := {|
  Identity.transport_id := Byte.x05; Identity.signing_public := sk; Identity.signing_private := sk;
  Identity.advertise_addresses := [] |}.
Definition address : EndpointAddr := (Byte.x05, [], ["127.0.0.1:4000"]).

Definition limits : QueryManager :=
  {| max_pending_queries := 2; max_offers_per_query := 4; query_timeout := 10 |}.

Definition offered : list Op :=
  [Begin wanted address 1 1000 "q1" "n1";
   Submit (offer Byte.x01 0 2000 true) Byte.x01 1001;
   Submit (offer Byte.x02 1 1500 true) Byte.x02 1001].

Definition released : QueryState := (run limits identity [Begin wanted address 1 1000 "q1" "n1"; Release "q1"]).1.

(** The query of [released], and the one [offered] leaves. *)
Definition opened : PendingQuery := {|
  criteria := wanted'; query := query0 true; offers := ∅; selected := ∅; target_offers := 1;
  offer_count := (0, 0) |}.
Definition collected : PendingQuery := {|
  criteria := wanted'; query := query0 true;
  offers := {[Byte.x01 := offer Byte.x01 0 2000 true; Byte.x02 := offer Byte.x02 1 1500 true]};
  selected := ∅; target_offers := 1; offer_count := (2, 1) |}.

Lemma offered_fresh : NoDup (drawn_ids offered).
Proof. repeat constructor; set_solver. Qed.

Lemma offered_collected : pending (run limits identity offered).1 !! "q1" = Some collected.
Proof. vm_compute. reflexivity. Qed.

Lemma released_opened : pending (cleanup_locked released 1001) !! "q1" = Some opened.
Proof. vm_compute. reflexivity. Qed.

Lemma offered_finish :
  (finish (run limits identity offered).1 "q1" 1002).2 = Some (offer Byte.x02 1 1500 true).
Proof. vm_compute. reflexivity. Qed.

Lemma opened_submit :
  (submit_offer limits released (offer Byte.x01 0 2000 true) Byte.x01 1001).2 = Ok true.
Proof. vm_compute. reflexivity. Qed.

End Sample.

Import Sample.

Lemma queries_consistent_witness :
  pending_len (run limits identity offered).1 <= max_pending_queries limits.
Proof.
  destruct (queries_consistent limits identity offered) as [H _];
    [vm_compute; discriminate..|apply offered_fresh|exact H].
Defined.

Lemma finish_selects_witness :
  exists e, offers collected !! e = Some (offer Byte.x02 1 1500 true) /\ e ∉ selected collected.
Proof.
  pose proof (finish_selects limits identity offered "q1" 1002 collected ltac:(vm_compute; discriminate)
    ltac:(vm_compute; discriminate) offered_fresh offered_collected) as H. cbv zeta in H.
  rewrite offered_finish in H.
  destruct H as (e & H1 & _ & H2 & _). exists e. split; assumption.
Defined.

Lemma selections_distinct_witness :
  NoDup ((fun io => (io.1, agent_of io.2)) <$>
    (run limits identity (offered ++ [Finish "q1" 1002; Finish "q1" 1002; Finish "q1" 1002])).2) /\
  length (run limits identity (offered ++ [Finish "q1" 1002; Finish "q1" 1002; Finish "q1" 1002])).2 = 2%nat.
Proof.
  split; [|vm_compute; reflexivity].
  apply selections_distinct; [vm_compute; discriminate..|]. repeat constructor; set_solver.
Defined.

Lemma offer_count_published_witness :
  exists p', pending (submit_offer limits released (offer Byte.x01 0 2000 true) Byte.x01 1001).1 !! "q1" = Some p' /\
    map_len (offers p') = map_len (offers opened) + 1 /\ borrow (offer_count p') = 0.
Proof.
  destruct (offer_count_published limits released (offer Byte.x01 0 2000 true) Byte.x01 1001 opened
    released_opened opened_submit) as (p' & Hp' & Hlen & _ & Hstale).
  exists p'. split; [exact Hp'|]. split; [exact Hlen|]. apply Hstale. reflexivity.
Defined.

Lemma begin_coalesces_witness :
  (begin limits (run limits identity [Begin wanted address 1 1000 "q1" "n1"]).1 wanted' identity address
     2 1005 "q2" "n2").2
  = Ok {| begun_query := query0 true; newly_created := false; begun_target := 3 |}.
Proof.
  destruct (begin_coalesces limits identity [] wanted wanted' address address 1 2 1000 1005
    "q1" "q2" "n1" "n2" {| begun_query := query0 true; newly_created := true; begun_target := 1 |})
    as [_ H]; [vm_compute; discriminate|split; vm_compute; discriminate|..|exact H].
  - repeat constructor; set_solver.
  - vm_compute. reflexivity.
  - split_and!; [reflexivity..|apply Permutation_swap|reflexivity].
  - vm_compute. discriminate.
Defined.

End Queries.
