(* ===== verification/CapacityService.v ===== *)
(** * Answering placements (podmesh-scheduler/src/machine/coordinator.rs,
      placement.rs)

    [solicit_inner] runs one placement against the query table: open or join,
    publish, wait, select.  Between its lock sections other tasks use the same
    table, so what they do while this caller waits is an argument, a list of
    the table's operations. *)

From S2P Require Import Prelude Net Crypto Signed EndpointRecord CapacityProtocol MeshProtocol.
From S2P Require Import Messages Identity RustOrd Watch CapacityQueries.

Module Service.
Import Crypto RustOrd Queries Capacity.
Import EndpointRecord (EndpointRecord).
Import Capacity.Query (CapacityQuery).
Import Capacity.Offer (CapacityOffer).

Section Service.
Context {I : Iroh} {P : Primitives} {W : Watch Z}.
Context {CR : Postcard EndpointRecord} {CQ : Postcard CapacityQuery} {CO : Postcard CapacityOffer}.

(** What the other tasks of the scheduler do to the query table. *)
Definition others (m : QueryManager) (identity : Identity.SchedulerIdentity) (st : QueryState)
    (ops : list Op) : QueryState :=
  (fold_left (step m identity) ops (st, [])).1.

(** One poll of the waiting task: whether the shutdown token is set, how long
    the task has slept, and the branch [tokio::select!] starts from, which it
    draws at random. *)
Record Poll := { is_cancelled : bool; slept : Z; drawn : nat }.

Inductive Branch := OnCancelled | OnOffers | OnSlept.

(** [wait_for] is ready when the count is high enough, or when the sender was
    dropped, which happens when the query leaves the table. *)
Definition offers_ready (st : QueryState) (query_id : string) (enough : Z) : bool :=
  match pending st !! query_id with
  | Some p => enough <=? borrow (offer_count p)
  | None => true
  end.

Definition ready_branches (st : QueryState) (query_id : string) (enough wait : Z) (poll : Poll)
    : list Branch :=
  (if is_cancelled poll then [OnCancelled] else []) ++
  (if offers_ready st query_id enough then [OnOffers] else []) ++
  (if wait <=? slept poll then [OnSlept] else []).

Definition finish_branch (b : Branch) : Result unit :=
  match b with
  | OnCancelled => Err "scheduler capacity request cancelled during shutdown"
  | OnOffers | OnSlept => Ok tt
  end.

Definition table_ops (schedule : list (Op + Poll)) : list Op :=
  omap (fun x => match x with inl op => Some op | inr _ => None end) schedule.

(** The wait against a schedule of the other tasks' operations and of its own
    polls; [None] while no poll found a branch ready.  The schedule goes on to
    the moment the caller takes the lock again. *)
Fixpoint wait_for_offers (m : QueryManager) (identity : Identity.SchedulerIdentity) (query_id : string)
    (enough wait : Z) (schedule : list (Op + Poll)) (st : QueryState)
    : QueryState * option (Result unit) :=
  match schedule with
  | [] => (st, None)
  | inl op :: rest => wait_for_offers m identity query_id enough wait rest (others m identity st [op])
  | inr poll :: rest =>
    match ready_branches st query_id enough wait poll with
    | [] => wait_for_offers m identity query_id enough wait rest st
    | b :: bs =>
      (others m identity st (table_ops rest),
       Some (finish_branch (nth (drawn poll mod length (b :: bs)) (b :: bs) b)))
    end
  end.

(** The clock is read twice, [now] and [later]; [publish] is what the gossip
    publisher answers; [during_publish] and [schedule] are what runs meanwhile.
    The caller's receiver is dropped on every return after [begin].  [None]
    while the caller still waits. *)
Definition solicit_inner (m : QueryManager) (identity : Identity.SchedulerIdentity)
    (cancelled : bool) (st : QueryState) (c : CapacityCriteria) (addr : EndpointAddr)
    (target now later : Z) (id nonce : string) (publish : CapacityQuery -> Result unit)
    (during_publish : list Op) (schedule : list (Op + Poll))
    : QueryState * option (Result (option CapacityOffer)) :=
  ensure! negb cancelled else (st, Some (Err "scheduler capacity service is shutting down")) ;;
  match begin m st c identity addr target now id nonce with
  | (st, Err e) => (st, Some (Err e))
  | (st, Ok begun) =>
    let qid := Query.query_id (begun_query begun) in
    match (if newly_created begun then publish (begun_query begun) else Ok tt) with
    | Err e => (release (abort (others m identity st during_publish) qid) qid, Some (Err e))
    | Ok _ =>
      let st := if newly_created begun then others m identity st during_publish else st in
      let wait := saturating_sub (Query.expires_at_secs (begun_query begun)) now in
      match wait_for_offers m identity qid (begun_target begun) wait schedule st with
      | (st, None) => (st, None)
      | (st, Some (Err e)) => (release st qid, Some (Err e))
      | (st, Some (Ok _)) =>
        let (st, selected) := finish st qid later in
        (release st qid, Some (Ok selected))
      end
    end
  end.

(** What a placement request becomes: [service] is [None] before the capacity
    service is installed, and otherwise runs [solicit]. *)
Definition criteria_of (request : Placement.PlacementRequest) : CapacityCriteria :=
  {| Queries.cpu_milli := Placement.cpu_milli request;
     Queries.memory_bytes := Placement.memory_bytes request;
     Queries.storage_bytes := Placement.storage_bytes request;
     Queries.required_capabilities := Placement.required_capabilities request;
     Queries.excluded_endpoint_ids := Placement.excluded_endpoint_ids request |}.

Definition DEFAULT_TARGET_OFFERS : Z := 4.

Definition place (permit : bool)
    (service : option (CapacityCriteria -> Z -> QueryState ->
                       QueryState * option (Result (option CapacityOffer))))
    (st : QueryState) (request : Placement.PlacementRequest)
    : QueryState * option Placement.PlacementResponse :=
  let rid := Placement.request_id request in
  if permit then
    match service with
    | Some solicit =>
      let (st, r) := solicit (criteria_of request) DEFAULT_TARGET_OFFERS st in
      (st, match r with
           | Some (Ok (Some o)) => Some (Placement.selected rid o)
           | Some (Ok None) => Some (Placement.failed rid Placement.NoCapacity)
           | Some (Err _) => Some (Placement.failed rid Placement.Internal)
           | None => None
           end)
    | None => (st, Some (Placement.failed rid Placement.Busy))
    end
  else (st, Some (Placement.failed rid Placement.Busy)).

(** ** Properties *)

Lemma fold_step_fst m identity ops st out out' :
  (fold_left (step m identity) ops (st, out)).1 = (fold_left (step m identity) ops (st, out')).1.
Proof.
  revert st out out'. induction ops as [|op ops IH]; intros st out out'; [done|]. cbn.
  destruct op; cbn; apply IH.
Qed.

Lemma others_run m identity ops1 ops2 :
  others m identity (run m identity ops1).1 ops2 = (run m identity (ops1 ++ ops2)).1.
Proof.
  unfold others, run. rewrite fold_left_app. destruct (fold_left _ ops1 _) as [st out]. apply fold_step_fst.
Qed.

Lemma run_evolves m identity ops1 ops2 :
  evolves (run m identity ops1).1 (run m identity (ops1 ++ ops2)).1 (drawn_ids ops2).
Proof.
  induction ops2 as [|op ops2 IH] using rev_ind.
  - rewrite app_nil_r. by apply evolves_sub.
  - unfold drawn_ids in *. rewrite bind_app. cbn. rewrite app_nil_r.
    eapply evolves_trans; [done|].
    replace (run m identity (ops1 ++ ops2 ++ [op])) with (step m identity (run m identity (ops1 ++ ops2)) op).
    + apply evolves_step.
    + unfold run. by rewrite (app_assoc ops1), (fold_left_app _ (ops1 ++ ops2)).
Qed.

Lemma drawn_ids_app ops1 ops2 : drawn_ids (ops1 ++ ops2) = drawn_ids ops1 ++ drawn_ids ops2.
Proof. apply bind_app. Qed.

Lemma NoDup_skip_mid (ids1 ids2 ids3 : list string) : NoDup (ids1 ++ ids2 ++ ids3) -> NoDup (ids1 ++ ids3).
Proof.
  rewrite !NoDup_app. intros (H1 & H12 & _ & _ & H3). split_and!; [done| |done].
  intros x Hx Hx3. apply (H12 x Hx). set_solver.
Qed.

Lemma others_app m identity st ops1 ops2 :
  others m identity (others m identity st ops1) ops2 = others m identity st (ops1 ++ ops2).
Proof.
  unfold others. rewrite fold_left_app. destruct (fold_left _ ops1 _) as [s out]. apply fold_step_fst.
Qed.

(** Polling leaves the table alone. *)
Lemma wait_state m identity qid enough wait schedule st :
  (wait_for_offers m identity qid enough wait schedule st).1 = others m identity st (table_ops schedule).
Proof.
  revert st. induction schedule as [|[op|poll] rest IH]; intros st; [done|..]; cbn.
  - rewrite IH, others_app. done.
  - by destruct (ready_branches st qid enough wait poll).
Qed.

Lemma ready_branches_nil st qid enough wait poll :
  ready_branches st qid enough wait poll <> [] <->
  is_cancelled poll = true \/ offers_ready st qid enough = true \/ wait <= slept poll.
Proof.
  unfold ready_branches. destruct (is_cancelled poll), (offers_ready st qid enough), (Z.leb_spec wait (slept poll));
    cbn; split; intros ?; try done; auto; naive_solver lia.
Qed.

(** A wait that has returned did so at its first poll with a ready branch. *)
Lemma wait_Some m identity qid enough wait schedule st r :
  (wait_for_offers m identity qid enough wait schedule st).2 = Some r ->
  exists pre poll post b, schedule = pre ++ inr poll :: post /\
    b ∈ ready_branches (others m identity st (table_ops pre)) qid enough wait poll /\ r = finish_branch b.
Proof.
  revert st. induction schedule as [|[op|poll] rest IH]; intros st; [done|..]; cbn.
  - intros (pre & poll & post & b & -> & Hb & ->)%IH. exists (inl op :: pre), poll, post, b.
    rewrite others_app in Hb. done.
  - destruct (ready_branches st qid enough wait poll) as [|b bs] eqn:E.
    + intros (pre & poll' & post & b & -> & Hb & ->)%IH. by exists (inr poll :: pre), poll', post, b.
    + cbn [snd]. intros [= <-]. exists [], poll, rest, (nth (drawn poll mod length (b :: bs)) (b :: bs) b).
      split_and!; [done| |done]. change (others m identity st (table_ops [])) with st. rewrite E.
      apply list_elem_of_In, nth_In, Nat.mod_upper_bound. done.
Qed.

Lemma wait_None m identity qid enough wait schedule st pre poll post :
  (wait_for_offers m identity qid enough wait schedule st).2 = None ->
  schedule = pre ++ inr poll :: post ->
  ready_branches (others m identity st (table_ops pre)) qid enough wait poll = [].
Proof.
  revert st pre. induction schedule as [|x rest IH]; intros st pre Hn Heq; [by destruct pre|].
  destruct x as [op|poll0]; cbn in Hn.
  - destruct pre as [|y pre]; [done|]. injection Heq as <- Heq.
    specialize (IH _ _ Hn Heq). by rewrite others_app in IH.
  - destruct (ready_branches st qid enough wait poll0) as [|b bs] eqn:E; [|done].
    destruct pre as [|y pre]; cbn in Heq; [by simplify_eq|]. simplify_eq. cbn. eapply IH; eauto.
Qed.

(** A query opened or joined in a run keeps its criteria, whatever else runs,
    so the offer a later [finish] selects for it fits what was asked. *)
Lemma joined_offer_fits {L : IrohLaws I} m identity ops c addr target now id nonce b later_ops later o :
  0 <= max_pending_queries m -> 1 <= max_offers_per_query m ->
  let opened := ops ++ [Begin c addr target now id nonce] in
  NoDup (drawn_ids (opened ++ later_ops)) ->
  (begin m (run m identity ops).1 c identity addr target now id nonce).2 = Ok b ->
  (finish (run m identity (opened ++ later_ops)).1 (Query.query_id (begun_query b)) later).2 = Some o ->
  exists e, offer_fits (Query.query_id (begun_query b)) (normalized c) e o /\
    later <= Offer.expires_at_secs o.
Proof.
  intros Hp Hm opened Hnd Hb Hf.
  assert (Hst : (run m identity opened).1 = (begin m (run m identity ops).1 c identity addr target now id nonce).1).
  { unfold opened, run. rewrite fold_left_app. cbn. by destruct (fold_left _ ops _). }
  pose proof (run_run_wf m identity _ Hp Hm Hnd) as [Hwf2 _ _ _ _].
  rewrite drawn_ids_app in Hnd. apply NoDup_app in Hnd as (Hnd1 & Hdis & _).
  pose proof (run_run_wf m identity _ Hp Hm Hnd1) as [Hwf1 Hids _ _ _].
  apply begin_joinable in Hb as (k & p & Hj & Hq & _). rewrite <- Hst in Hj.
  apply joinable_Some in Hj as [He Hk].
  destruct (wf_equivalent_inv _ _ Hwf1 _ _ He) as (p0 & Hp0 & Hc0).
  assert (p0 = p) as -> by congruence.
  pose proof (wf_query_id _ _ _ (wf_pending _ _ Hwf1 _ _ Hk)) as Hqid. rewrite <- Hq, Hqid in *.
  destruct (finish_Some _ _ _ _ Hf) as (p' & e & Hp' & Ho & Hel & _).
  destruct (run_evolves m identity opened later_ops _ _ Hp') as [Hin|(p1 & Hp1 & _ & Hc1)].
  { destruct (Hdis k); eauto. }
  assert (p1 = p) as -> by congruence.
  exists e. rewrite <- Hc0, <- Hc1. split.
  - apply (wf_offers _ _ _ (wf_pending _ _ Hwf2 _ _ Hp') _ _ Ho).
  - apply andb_true_iff in Hel as [Hl _]. cbn in Hl. lia.
Qed.

Lemma fits_asked id c e o :
  offer_fits id (normalized c) e o ->
  cpu_milli c <= Offer.available_cpu_milli o /\ memory_bytes c <= Offer.available_memory_bytes o /\
  storage_bytes c <= Offer.available_storage_bytes o /\
  required_capabilities c ⊆ Offer.capabilities o /\
  EndpointRecord.endpoint_id (Offer.agent_endpoint o) ∉ excluded_endpoint_ids c.
Proof.
  intros (Ha & _ & Hs & Hc & Hx). apply satisfies_spec in Hs. apply has_capabilities_spec in Hc.
  apply bool_decide_eq_false in Hx. rewrite Ha. cbn in *. split_and!; try apply Hs.
  - intros x Hx'. apply Hc. by rewrite sort_perm.
  - by rewrite sort_perm in Hx.
Qed.

(** C15. An offer [solicit] answers with meets the caller's own criteria and is
    live at the second clock reading, whether the query was opened for this
    caller or joined, and whatever other tasks do to the table meanwhile. *)
Theorem solicit_answer_fits {L : IrohLaws I} (m : QueryManager) (identity : Identity.SchedulerIdentity)
    (ops during_publish : list Op) (schedule : list (Op + Poll)) (c : CapacityCriteria)
    (addr : EndpointAddr) (target now later : Z) (id nonce : string)
    (publish : CapacityQuery -> Result unit) (o : CapacityOffer)
    (Hpending : 0 <= max_pending_queries m) (Hoffers : 1 <= max_offers_per_query m)
    (Hfresh : NoDup (drawn_ids ((ops ++ [Begin c addr target now id nonce]) ++ during_publish ++
      table_ops schedule)))
    (Hok : (solicit_inner m identity false (run m identity ops).1 c addr target now later id nonce
              publish during_publish schedule).2 = Some (Ok (Some o))) :
  cpu_milli c <= Offer.available_cpu_milli o /\ memory_bytes c <= Offer.available_memory_bytes o /\
  storage_bytes c <= Offer.available_storage_bytes o /\
  required_capabilities c ⊆ Offer.capabilities o /\
  EndpointRecord.endpoint_id (Offer.agent_endpoint o) ∉ excluded_endpoint_ids c /\
  later <= Offer.expires_at_secs o.
Proof.
  assert (Hst : (run m identity (ops ++ [Begin c addr target now id nonce])).1 =
    (begin m (run m identity ops).1 c identity addr target now id nonce).1).
  { unfold run. rewrite fold_left_app. cbn. by destruct (fold_left _ ops _). }
  unfold solicit_inner in Hok. cbn [negb] in Hok. cbv zeta in Hok.
  pose proof (joined_offer_fits m identity ops c addr target now id nonce) as Hfit.
  destruct (begin m _ c identity addr target now id nonce) as [st [b|]] eqn:Hb; [|done].
  cbn in Hst, Hfit. subst st.
  destruct (if newly_created b then publish (begun_query b) else Ok tt); [|done].
  set (st := if newly_created b then _ else _) in Hok.
  set (enough := begun_target b) in Hok. set (wait := saturating_sub _ _) in Hok.
  pose proof (wait_state m identity (Query.query_id (begun_query b)) enough wait schedule st) as Hw.
  destruct (wait_for_offers _ _ _ _ _ _ _) as [st' [[[]|]|]]; cbn in Hw, Hok; [|done..]. subst st'.
  assert (exists later_ops, NoDup (drawn_ids ((ops ++ [Begin c addr target now id nonce]) ++ later_ops)) /\
    others m identity st (table_ops schedule) =
      (run m identity ((ops ++ [Begin c addr target now id nonce]) ++ later_ops)).1) as (later_ops & Hnd & Hr).
  { unfold st. destruct (newly_created b).
    - exists (during_publish ++ table_ops schedule). split; [done|]. by rewrite others_app, others_run.
    - exists (table_ops schedule). split; [|by rewrite others_run].
      rewrite drawn_ids_app. apply NoDup_skip_mid with (drawn_ids during_publish). by rewrite <- !drawn_ids_app. }
  rewrite Hr in Hok.
  assert (Hf : (finish (run m identity ((ops ++ [Begin c addr target now id nonce]) ++ later_ops)).1
       (Query.query_id (begun_query b)) later).2 = Some o).
  { destruct (finish _ _ _) in *. cbn in *. congruence. }
  destruct (Hfit b later_ops later o Hpending Hoffers Hnd eq_refl Hf) as (e & He & Hlater).
  apply fits_asked in He. naive_solver.
Qed.

(** A query that could not be published is not left behind: [solicit]
    fails with the publisher's error and the query is gone from the table, so
    no later caller joins it. *)
Theorem unpublished_query_removed (m : QueryManager) (identity : Identity.SchedulerIdentity)
    (st : QueryState) (during_publish : list Op) (schedule : list (Op + Poll)) (c : CapacityCriteria)
    (addr : EndpointAddr) (target now later : Z) (id nonce : string)
    (publish : CapacityQuery -> Result unit) (b : BegunQuery) (e : string)
    (Hb : (begin m st c identity addr target now id nonce).2 = Ok b)
    (Hnew : newly_created b = true) (Hpublish : publish (begun_query b) = Err e) :
  let r := solicit_inner m identity false st c addr target now later id nonce publish
             during_publish schedule in
  r.2 = Some (Err e) /\ pending r.1 !! Query.query_id (begun_query b) = None /\
  (forall c', match joinable r.1 c' with
              | Some (k, _) => k <> Query.query_id (begun_query b)
              | None => True
              end).
Proof.
  cbv zeta. unfold solicit_inner. cbn [negb]. cbv zeta.
  destruct (begin _ _ _ _ _ _ _ _ _) as [s [b'|]]; [|done]. cbn in Hb. injection Hb as ->.
  rewrite Hnew, Hpublish. generalize (others m identity s during_publish) as s'.
  intros s'. split; [done|].
  cbn [fst]. set (k := Query.query_id (begun_query b)).
  assert (Hgone : pending (abort s' k) !! k = None).
  { unfold abort. destruct (pending s' !! k) eqn:E; [apply lookup_delete_eq|done]. }
  assert (Hrel : release (abort s' k) k = abort s' k) by (unfold release; by rewrite Hgone).
  rewrite Hrel. split; [done|]. intros c'.
  destruct (joinable (abort s' k) c') as [[k' p]|] eqn:Hj; [|done].
  apply joinable_Some in Hj as [_ Hp]. intros ->. congruence.
Qed.

(** The wait for offers returns exactly when some poll finds the shutdown
    token set, the published count at the caller's target, the query gone from
    the table, or the query's lifetime slept out; it fails only when the token
    is set at that poll. *)
Theorem wait_returns (m : QueryManager) (identity : Identity.SchedulerIdentity) (qid : string)
    (enough wait : Z) (schedule : list (Op + Poll)) (st : QueryState) :
  let r := wait_for_offers m identity qid enough wait schedule st in
  (r.2 <> None <->
   exists pre poll post, schedule = pre ++ inr poll :: post /\
     (is_cancelled poll = true \/
      (forall p, pending (others m identity st (table_ops pre)) !! qid = Some p ->
         enough <= borrow (offer_count p)) \/
      wait <= slept poll)) /\
  (forall e, r.2 = Some (Err e) -> exists poll, inr poll ∈ schedule /\ is_cancelled poll = true) /\
  r.1 = others m identity st (table_ops schedule).
Proof.
  assert (Hready : forall s, offers_ready s qid enough = true <->
    (forall p, pending s !! qid = Some p -> enough <= borrow (offer_count p))).
  { intros s. unfold offers_ready. destruct (pending s !! qid) as [p|]; [|done].
    rewrite Z.leb_le. split; [by intros ? ? [= <-]|auto]. }
  cbv zeta. split_and!; [split|..].
  - intros Hr. destruct (wait_for_offers _ _ _ _ _ _ _).2 as [r|] eqn:E; [|done].
    apply wait_Some in E as (pre & poll & post & b & -> & Hb & _). exists pre, poll, post. split; [done|].
    rewrite <- Hready, <- ready_branches_nil. intros E. rewrite E in Hb. by apply elem_of_nil in Hb.
  - intros (pre & poll & post & Heq & Hp) Hn. rewrite <- Hready, <- ready_branches_nil in Hp.
    apply Hp. by eapply wait_None.
  - intros e (pre & poll & post & b & -> & Hb & He)%wait_Some. exists poll. split; [set_solver|].
    destruct b; [|done..]. revert Hb. unfold ready_branches.
    destruct (is_cancelled poll), (offers_ready _ _ _), (wait <=? slept poll); set_solver.
  - apply wait_state.
Qed.

End Service.

(** ** Witnesses *)
Import Queries.Sample.

Definition arrivals : list (Op + Poll) :=
  [inr {| is_cancelled := false; slept := 0; drawn := 0 |};
   inl (Submit (offer Byte.x01 0 2000 true) Byte.x01 1001);
   inl (Submit (offer Byte.x02 1 1500 true) Byte.x02 1001);
   inr {| is_cancelled := false; slept := 1; drawn := 0 |}].

Lemma solicit_answer_fits_witness :
  required_capabilities wanted ⊆ Offer.capabilities (offer Byte.x02 1 1500 true).
Proof.
  destruct (solicit_answer_fits limits identity [] [] arrivals wanted address 1 1000 1002 "q1" "n1"
    (fun _ => Ok tt) (offer Byte.x02 1 1500 true)) as (_ & _ & _ & H & _);
    [vm_compute; discriminate..| |vm_compute; reflexivity|exact H].
  repeat constructor; set_solver.
Defined.

Lemma unpublished_query_removed_witness :
  (solicit_inner limits identity false new_state wanted address 1 1000 1002 "q1" "n1"
     (fun _ => Err "gossip closed") [] []).2 = Some (Err "gossip closed").
Proof.
  apply (unpublished_query_removed limits identity new_state [] [] wanted address 1 1000 1002 "q1" "n1"
    (fun _ => Err "gossip closed")
    {| begun_query := query0 true; newly_created := true; begun_target := 1 |});
    [vm_compute; reflexivity|reflexivity|reflexivity].
Defined.

End Service.
