(* ===== verification/Location.v ===== *)
(** * Agent locations (podmesh-scheduler/src/machine/location.rs)

    The scheduler's cache of which peer holds an agent, and its location
    queries in flight. *)

From S2P Require Import Prelude OrderedMap Net Crypto Signed EndpointRecord MeshProtocol Identity Watch.

Module Location.

Definition LOCATION_CACHE_TTL : Z := from_secs 60.
Definition MAX_CACHED_LOCATIONS : Z := 16384.
Definition MAX_PENDING_LOCATIONS : Z := 1024.

Section Registry.
Context {I : Iroh} {W : Watch (option EndpointId)}.

Record CachedLocation := { holder : EndpointId; learned_at : Z }.

Record LocationState := {
  cache : gmap EndpointId CachedLocation;
  order : list EndpointId;
  pending : gmap string (Sender (option EndpointId))
}.

Definition new_registry : LocationState := {| cache := ∅; order := []; pending := ∅ |}.

(** [Instant::elapsed] saturates at zero. *)
Definition cached (st : LocationState) (agent : EndpointId) (now : Z) : option EndpointId :=
  entry ← cache st !! agent;
  if saturating_sub now (learned_at entry) <? LOCATION_CACHE_TTL then Some (holder entry) else None.

(** [while order.len() > MAX_CACHED_LOCATIONS]: one round per queued key is
    enough, because every round pops one. *)
Fixpoint trim (order : list EndpointId) (cache : gmap EndpointId CachedLocation)
    : list EndpointId * gmap EndpointId CachedLocation :=
  match order with
  | evicted :: rest =>
      if MAX_CACHED_LOCATIONS <? len order then trim rest (delete evicted cache) else (order, cache)
  | [] => (order, cache)
  end.

Definition remember (st : LocationState) (agent h : EndpointId) (now : Z) : LocationState :=
  let order := if bool_decide (cache st !! agent = None) then order st ++ [agent] else order st in
  let cache := <[agent := {| holder := h; learned_at := now |}]> (cache st) in
  let (order, cache) := trim order cache in
  {| cache := cache; order := order; pending := pending st |}.

Definition forget (st : LocationState) (agent : EndpointId) : LocationState :=
  {| cache := delete agent (cache st); order := order st; pending := pending st |}.

Definition begin (st : LocationState) (query_id : string) : LocationState * result string unit :=
  ensure! map_len (pending st) <? MAX_PENDING_LOCATIONS
    else (st, Err "scheduler pending-location limit reached") ;;
  ({| cache := cache st; order := order st; pending := <[query_id := channel None]> (pending st) |},
   Ok tt).

(** The lock is released between the lookup and [remember]; the latter does
    not look at [pending], so the sequential reading loses no behaviour. *)
Definition resolve (st : LocationState) (query_id : string) (agent h : EndpointId) (now : Z)
    : LocationState :=
  match pending st !! query_id with
  | Some sender =>
      remember {| cache := cache st; order := order st;
                  pending := <[query_id := send (Some h) sender]> (pending st) |} agent h now
  | None => st
  end.

Definition finish (st : LocationState) (query_id : string) : LocationState :=
  {| cache := cache st; order := order st; pending := delete query_id (pending st) |}.

Inductive Op :=
| Remember (agent h : EndpointId) (now : Z)
| Forget (agent : EndpointId)
| BeginLookup (id : string)
| Resolve (id : string) (agent h : EndpointId) (now : Z)
| FinishLookup (id : string).

Definition step (st : LocationState) (op : Op) : LocationState :=
  match op with
  | Remember a h now => remember st a h now
  | Forget a => forget st a
  | BeginLookup id => (begin st id).1
  | Resolve id a h now => resolve st id a h now
  | FinishLookup id => finish st id
  end.

Definition run (ops : list Op) : LocationState := fold_left step ops new_registry.

(** ** Invariant *)
Record state_wf (st : LocationState) : Prop := {
  wf_order : len (order st) <= MAX_CACHED_LOCATIONS;
  wf_keys : forall a, is_Some (cache st !! a) -> a ∈ order st;
  wf_pending : map_len (pending st) <= MAX_PENDING_LOCATIONS
}.

Lemma trim_spec q c :
  (forall a, is_Some (c !! a) -> a ∈ q) ->
  len (trim q c).1 <= MAX_CACHED_LOCATIONS /\ forall a, is_Some ((trim q c).2 !! a) -> a ∈ (trim q c).1.
Proof.
  revert c. induction q as [|e q IH]; intros c Hk; cbn [trim].
  - split; [done|exact Hk].
  - destruct (Z.ltb_spec MAX_CACHED_LOCATIONS (len (e :: q))); [|done].
    apply IH. intros a [Hne Hs]%lookup_delete_is_Some. apply Hk, elem_of_cons in Hs as [->|]; done.
Qed.

Lemma remember_wf st a h now : state_wf st -> state_wf (remember st a h now).
Proof.
  intros [Ho Hk Hp]. unfold remember.
  set (q := if bool_decide _ then _ else _). set (c := <[a := _]> _).
  assert (Hq : forall x, is_Some (c !! x) -> x ∈ q).
  { intros x. unfold c, q. rewrite lookup_insert_is_Some. intros [->|[_ Hs]].
    - case_bool_decide as Hn; [set_solver|]. apply Hk. by apply not_eq_None_Some.
    - apply Hk in Hs. case_bool_decide; set_solver. }
  destruct (trim_spec q c Hq) as [Hl Hk']. destruct (trim q c). by split.
Qed.

Lemma step_location_wf st op : state_wf st -> state_wf (step st op).
Proof.
  intros Hwf. destruct op as [a h now|a|id|id a h now|id]; cbn; [by apply remember_wf|..].
  - destruct Hwf. split; cbn; [done| |done]. intros x [_ Hs]%lookup_delete_is_Some. auto.
  - unfold begin. destruct (Z.ltb_spec (map_len (pending st)) MAX_PENDING_LOCATIONS); [|done].
    destruct Hwf. split; cbn; [done..|].
    pose proof (map_len_insert_le (pending st) id (channel None)). lia.
  - unfold resolve. destruct (pending st !! id) as [s|] eqn:Hs; [|done]. apply remember_wf.
    destruct Hwf. split; cbn; [done..|]. rewrite map_len_insert_old by eauto. done.
  - destruct Hwf. split; cbn; [done..|]. pose proof (map_len_delete_le (pending st) id). lia.
Qed.

Lemma run_location_wf ops : state_wf (run ops).
Proof.
  unfold run. assert (Hwf : state_wf new_registry).
  { split; cbn; [done| |by rewrite map_len_empty]. intros a. rewrite lookup_empty. by intros []. }
  revert Hwf. generalize new_registry as st. induction ops as [|op ops IH]; intros st Hwf; [done|].
  cbn. by apply IH, step_location_wf.
Qed.

Lemma cache_len_order st : state_wf st -> map_len (cache st) <= len (order st).
Proof.
  intros [_ Hk _]. unfold map_len, len. apply inj_le. rewrite <- size_dom.
  transitivity (size (list_to_set (C := gset EndpointId) (order st))).
  - apply subseteq_size. intros a [v Hv]%elem_of_dom. apply elem_of_list_to_set. eauto.
  - clear Hk. induction (order st) as [|x l IHl]; cbn; [by rewrite size_empty|].
    rewrite size_union_alt, size_singleton.
    assert (size (list_to_set (C := gset EndpointId) l ∖ {[x]}) <= size (list_to_set (C := gset EndpointId) l))%nat
      by (apply subseteq_size; set_solver). lia.
Qed.

(** However lookups, answers and failed forwards interleave, the registry
    keeps at most [MAX_CACHED_LOCATIONS] locations, queues at most that many
    keys, and has at most [MAX_PENDING_LOCATIONS] queries in flight. *)
Theorem locations_bounded (ops : list Op) :
  map_len (cache (run ops)) <= MAX_CACHED_LOCATIONS /\ len (order (run ops)) <= MAX_CACHED_LOCATIONS /\
  map_len (pending (run ops)) <= MAX_PENDING_LOCATIONS.
Proof.
  pose proof (run_location_wf ops) as Hwf. pose proof (cache_len_order _ Hwf). destruct Hwf. lia.
Qed.

(** An answer counts only if it was asked for: [resolve] for an id that is not
    in flight changes nothing, and otherwise wakes a waiting asker with the
    holder. *)
Lemma resolve_solicited {L : WatchLaws _ W} st id agent h now :
  match pending st !! id with
  | None => resolve st id agent h now = st
  | Some s => 0 < receiver_count s ->
      exists s', pending (resolve st id agent h now) !! id = Some s' /\ borrow s' = Some h
  end.
Proof.
  unfold resolve. destruct (pending st !! id) as [s|]; [|done]. intros Hr.
  unfold remember. destruct (trim _ _). cbn. rewrite lookup_insert_eq.
  eexists. split; [done|]. by apply borrow_send.
Qed.

(** ** Fresh answers *)

(** While nothing is forgotten the queue lists the cached agents once each. *)
Definition never_forgets (op : Op) : bool := match op with Forget _ => false | _ => true end.

Lemma trim_ordered (c : gmap EndpointId CachedLocation) q :
  ordered c q -> ordered (trim q c).2 (trim q c).1.
Proof.
  revert c. induction q as [|e q IH]; intros c Ho; cbn [trim]; [done|].
  destruct (_ <? _); [|done]. apply IH. by apply ordered_pop.
Qed.

Lemma remember_ordered st a h now :
  ordered (cache st) (order st) -> ordered (cache (remember st a h now)) (order (remember st a h now)).
Proof.
  intros Ho. unfold remember. set (q := if bool_decide _ then _ else _). set (c := <[a := _]> _).
  assert (Hq : ordered c q).
  { unfold q, c. case_bool_decide as Hn; [by apply ordered_push|].
    apply ordered_update; [done|]. by apply not_eq_None_Some. }
  apply trim_ordered in Hq. by destruct (trim q c).
Qed.

Lemma run_ordered ops :
  forallb never_forgets ops = true -> ordered (cache (run ops)) (order (run ops)).
Proof.
  unfold run. assert (Ho : ordered (cache new_registry) (order new_registry)) by apply ordered_empty.
  revert Ho. generalize new_registry as st. induction ops as [|op ops IH]; intros st Ho; [done|].
  cbn. intros [Hop Hops]%andb_true_iff. apply IH; [|done]. destruct op; cbn; try done.
  - by apply remember_ordered.
  - unfold begin. by destruct (_ <? _).
  - unfold resolve. destruct (pending st !! id); [|done]. by apply remember_ordered.
Qed.

Lemma trim_short q c : len q <= MAX_CACHED_LOCATIONS -> trim q c = (q, c).
Proof. destruct q as [|e q]; [done|]. cbn [trim]. destruct (Z.ltb_spec MAX_CACHED_LOCATIONS (len (e :: q))); [lia|done]. Qed.

Lemma len_cons_app {A} (x y : A) l : len ((x :: l) ++ [y]) = len (x :: l) + 1.
Proof. unfold len. rewrite length_app. cbn. lia. Qed.

(** Adding a key to a full queue pops the head. *)
Lemma trim_full e q a c :
  len (e :: q) = MAX_CACHED_LOCATIONS -> trim ((e :: q) ++ [a]) c = (q ++ [a], delete e c).
Proof.
  intros Hl. pose proof (len_cons_app e a q) as Hl2. cbn [app trim] in *.
  destruct (Z.ltb_spec MAX_CACHED_LOCATIONS (len (e :: q ++ [a]))); [|lia].
  apply trim_short. unfold len in *. cbn in *. lia.
Qed.

Lemma remember_lookup st a h now :
  ordered (cache st) (order st) -> len (order st) <= MAX_CACHED_LOCATIONS ->
  cache (remember st a h now) !! a = Some {| holder := h; learned_at := now |}.
Proof.
  intros Ho Hl. unfold remember. case_bool_decide as Hn.
  - destruct (order st) as [|e q] eqn:Hq.
    { cbn [app]. rewrite trim_short by done. apply lookup_insert_eq. }
    destruct (decide (len (e :: q) = MAX_CACHED_LOCATIONS)) as [Hfull|].
    + rewrite trim_full by done. cbn. rewrite lookup_delete_ne; [apply lookup_insert_eq|].
      intros ->. apply ordered_head in Ho as [? Ho]. congruence.
    + rewrite trim_short by (rewrite len_cons_app; lia). apply lookup_insert_eq.
  - rewrite trim_short by done. apply lookup_insert_eq.
Qed.

(** As long as no location has been forgotten, a learned location is served
    from the cache for its whole lifetime of [LOCATION_CACHE_TTL], however full
    the cache was when it was learned, and not after. *)
Theorem learned_location_served (ops : list Op) (agent h : EndpointId) (now later : Z)
    (Hkeep : forallb never_forgets ops = true) (Hlater : now <= later) :
  cached (run (ops ++ [Remember agent h now])) agent later =
  if later <? now + LOCATION_CACHE_TTL then Some h else None.
Proof.
  unfold run. rewrite fold_left_app. cbn [fold_left step]. fold (run ops). unfold cached.
  rewrite (remember_lookup (run ops) agent h now); [|by apply run_ordered|apply run_location_wf].
  cbn. unfold saturating_sub. replace (Z.max (later - now) 0) with (later - now) by lia.
  destruct (Z.ltb_spec (later - now) LOCATION_CACHE_TTL), (Z.ltb_spec later (now + LOCATION_CACHE_TTL)); done || lia.
Qed.

(** Learning and forgetting one agent over and over. *)
Fixpoint flap (agent h : EndpointId) (n : nat) : list Op :=
  match n with O => [] | S n => flap agent h n ++ [Remember agent h 0; Forget agent] end.

Lemma flap_state agent h n :
  Z.of_nat n <= MAX_CACHED_LOCATIONS ->
  cache (run (flap agent h n)) = ∅ /\ order (run (flap agent h n)) = replicate n agent.
Proof.
  induction n as [|n IH]; intros Hn; [done|]. destruct IH as [Hc Hq]; [lia|].
  cbn [flap]. unfold run in *. rewrite fold_left_app. cbn. unfold remember. rewrite Hc, Hq.
  rewrite bool_decide_true by apply lookup_empty.
  rewrite trim_short by (unfold len; rewrite length_app, length_replicate; cbn; lia). cbn.
  split; [|by rewrite replicate_cons_app].
  by rewrite delete_insert_id, ?lookup_empty.
Qed.

(** [forget] leaves the agent's slot in the eviction queue.  After
    [MAX_CACHED_LOCATIONS] failed forwards to one agent the queue holds nothing
    but its old slots, and from then on a newly learned location of that agent
    is evicted by the very call that stores it. *)
Theorem relearned_location_lost (agent h : EndpointId) (now later : Z) :
  cached (run (flap agent h (Z.to_nat MAX_CACHED_LOCATIONS) ++ [Remember agent h now])) agent later = None.
Proof.
  assert (Hn : Z.of_nat (Z.to_nat MAX_CACHED_LOCATIONS) = MAX_CACHED_LOCATIONS)
    by (apply Z2Nat.id; unfold MAX_CACHED_LOCATIONS; lia).
  revert Hn. generalize (Z.to_nat MAX_CACHED_LOCATIONS) as n. intros [|n] Hn; [done|].
  destruct (flap_state agent h (S n)) as [Hc Hq]; [lia|].
  unfold run in *. rewrite fold_left_app. cbn [fold_left step]. unfold cached, remember. rewrite Hc, Hq.
  rewrite bool_decide_true by apply lookup_empty. cbn [replicate]. rewrite trim_full.
  - cbn. by rewrite lookup_delete_eq.
  - unfold len. cbn [length]. by rewrite length_replicate.
Qed.

End Registry.

#[local] Existing Instances ToyIroh.iroh ToyWatch.watch.

Definition sample_ops : list (@Op ToyIroh.iroh) :=
  [Remember (I := ToyIroh.iroh) Byte.x01 Byte.x02 0; BeginLookup "q"; Resolve (I := ToyIroh.iroh) "q" Byte.x03 Byte.x04 5].

Lemma learned_location_served_witness :
  cached (run (sample_ops ++ [Remember (I := ToyIroh.iroh) Byte.x01 Byte.x05 7])) Byte.x01 8 = Some Byte.x05.
Proof.
  rewrite (learned_location_served (I := ToyIroh.iroh) sample_ops Byte.x01 Byte.x05 7 8); [reflexivity|reflexivity|lia].
Defined.
End Location.
