(* ===== verification/Attachments.v ===== *)
(** * Agent attachments (podmesh-scheduler/src/machine/attachments.rs)

    The sessions of the agents attached to a scheduler: registration and
    removal, the acknowledgement with its relay grants, the fan-out of a
    capacity query, and the connection handler. *)

From S2P Require Import Prelude Net Crypto Signed EndpointRecord CapacityProtocol MeshProtocol Messages.
From S2P Require Import Identity RustOrd.

Module Attachments.
Import Crypto Mesh RustOrd.
Import EndpointRecord (EndpointRecord).

Definition MAX_CONCURRENT_FANOUT : Z := 32.
Definition FANOUT_RANK_CONTEXT : string := "podmesh/agent-fanout-rank/v1".

Section Manager.
(** [Connection] is iroh's; the manager only keeps it and asks who is at the
    other end. *)
Context {I : Iroh} {P : Primitives} {Connection : Type} (remote_id : Connection -> EndpointId).
Context {CR : Postcard EndpointRecord} {CG : Postcard Grant.MachineRelayGrant}.
Context {CH : Postcard Hello.AgentAttachmentHello} {CA : Postcard Hello.AgentAttachmentAck}.
Context {CQ : Postcard Capacity.Query.CapacityQuery}.

(** Feeding a blake3 key-derivation hasher in parts is deriving from the
    concatenation. *)
Definition fanout_rank (query_id : string) (endpoint_id : EndpointId) : bytes :=
  derive_key FANOUT_RANK_CONTEXT (id_as_bytes endpoint_id ++ [Byte.x00] ++ as_bytes query_id).

Record RelayGrantIssuer := {
  identity : Identity.SchedulerIdentity;
  audiences : list string
}.

Record AttachmentSession := {
  generation : string;
  connection : Connection;
  agent_addr : EndpointAddr
}.

Record AttachmentManager := {
  inner : gmap EndpointId AttachmentSession;
  max_attached_agents : Z;
  max_agent_fanout : Z;
  relay_issuer : option RelayGrantIssuer
}.

Definition new (max_attached_agents max_agent_fanout : Z) : AttachmentManager :=
  {| inner := ∅; max_attached_agents := max_attached_agents;
     max_agent_fanout := max_agent_fanout; relay_issuer := None |}.

Definition with_issuer (m : AttachmentManager) (i : RelayGrantIssuer) : AttachmentManager :=
  {| inner := inner m; max_attached_agents := max_attached_agents m;
     max_agent_fanout := max_agent_fanout m; relay_issuer := Some i |}.

Definition with_relay_grant_issuer (m : AttachmentManager) (id : Identity.SchedulerIdentity)
    (audience : string) : AttachmentManager :=
  with_issuer m {| identity := id; audiences := [audience] |}.

(** [relay_map_urls] is iroh's [RelayMap::try_from_iter] followed by [urls]. *)
Definition with_relay_grant_audiences (relay_map_urls : list string -> option (list string))
    (m : AttachmentManager) (id : Identity.SchedulerIdentity) (l : list string)
    : Result AttachmentManager :=
  ensure! negb (bool_decide (l = [])) && (len l <=? Hello.MAX_ATTACHMENT_RELAY_GRANTS)
    else Err "attachment relay audience count is out of bounds" ;;
  urls ← ok_or (relay_map_urls l) "parse attachment relay audiences";
  Ok (with_issuer m {| identity := id; audiences := urls |}).

Definition set_inner (m : AttachmentManager) (s : gmap EndpointId AttachmentSession) : AttachmentManager :=
  {| inner := s; max_attached_agents := max_attached_agents m;
     max_agent_fanout := max_agent_fanout m; relay_issuer := relay_issuer m |}.

Definition attached_len (m : AttachmentManager) : Z := map_len (inner m).

Definition lookup_agent_addr (m : AttachmentManager) (endpoint_id : EndpointId) : option EndpointAddr :=
  agent_addr <$> inner m !! endpoint_id.

Definition attached_agents (m : AttachmentManager) : list EndpointId := (map_to_list (inner m)).*1.

(** [gen] is the generation [Uuid::new_v4] draws. *)
Definition register (m : AttachmentManager) (endpoint_id : EndpointId) (c : Connection)
    (addr : EndpointAddr) (gen : string) : AttachmentManager * Result string :=
  ensure! negb (contains_key endpoint_id (inner m))
    else (m, Err "agent already has an active scheduler attachment") ;;
  ensure! negb (max_attached_agents m <=? map_len (inner m))
    else (m, Err "scheduler attachment limit reached") ;;
  (set_inner m (<[endpoint_id := {| generation := gen; connection := c; agent_addr := addr |}]> (inner m)),
   Ok gen).

Definition remove (m : AttachmentManager) (endpoint_id : EndpointId) (gen : string) : AttachmentManager :=
  match inner m !! endpoint_id with
  | Some session =>
      if bool_decide (generation session = gen) then set_inner m (delete endpoint_id (inner m)) else m
  | None => m
  end.

(** The grants in the order of the audiences, ending at the first failure;
    [draw] gives the token ids [Uuid::new_v4] draws. *)
Fixpoint issue_grants (id : Identity.SchedulerIdentity) (endpoint_id : EndpointId)
    (l : list string) (draw : nat -> string) (now_secs : Z) : Result (list string) :=
  match l with
  | [] => Ok []
  | audience :: rest =>
      grant ← Identity.issue_relay_grant id (draw 0%nat) endpoint_id Agent audience now_secs;
      token ← Grant.to_auth_token grant now_secs;
      tokens ← issue_grants id endpoint_id rest (fun n => draw (S n)) now_secs;
      Ok (token :: tokens)
  end.

Definition acknowledgement (m : AttachmentManager) (endpoint_id : EndpointId) (draw : nat -> string)
    (now_secs : Z) : Result Hello.AgentAttachmentAck :=
  relay_grants ← match relay_issuer m with
                 | Some issuer => issue_grants (identity issuer) endpoint_id (audiences issuer) draw now_secs
                 | None => Ok []
                 end;
  Ok {| Hello.ack_version := Hello.SCHEDULER_MESH_PROTOCOL_VERSION;
        Hello.relay_grants := relay_grants;
        Hello.refresh_after_secs := now_secs + Grant.MAX_MACHINE_RELAY_GRANT_LIFETIME_SECS / 2 |}.

(** The sessions one query is sent to. *)
Definition fanout_targets (m : AttachmentManager) (query_id : string) : list EndpointId :=
  take (Z.to_nat (max_agent_fanout m))
    (sort_unstable (fun a b => bytes_compare (fanout_rank query_id a) (fanout_rank query_id b))
       (attached_agents m)).

(** [delivered] tells which streams were written in time. *)
Definition fanout_inner (m : AttachmentManager) (q : Capacity.Query.CapacityQuery)
    (delivered : EndpointId -> bool) (now_secs : Z) : Result Z :=
  _ ← Capacity.Query.to_bytes q now_secs;
  Ok (len (list_retain delivered (fanout_targets m (Capacity.Query.query_id q)))).

(** What the transport does during one handshake: the hello read from the
    stream, the four clock readings, and whether the acknowledgement is written
    and the stream finished. *)
Record Handshake := {
  conn : Connection;
  hello_bytes : Result bytes;
  now_read : Z;
  now_addr : Z;
  now_ack : Z;
  now_write : Z;
  gen_drawn : string;
  tokens_drawn : nat -> string;
  write_ok : bool;
  finish_ok : bool
}.

(** [accept_once] up to the point where it waits for the connection to close;
    [Ok gen] is a handler that is waiting. *)
Definition accept_open (m : AttachmentManager) (h : Handshake) : AttachmentManager * Result string :=
  let remote := remote_id (conn h) in
  try! b := hello_bytes h in m ;;
  try! hello := Hello.from_bytes b (now_read h) in m ;;
  ensure! bool_decide (EndpointRecord.endpoint_id (Hello.agent_endpoint hello) = id_as_bytes remote)
    else (m, Err "agent attachment EndpointId does not match authenticated transport") ;;
  try! addr := Identity.endpoint_addr (Hello.agent_endpoint hello) (now_addr h) in m ;;
  match register m remote (conn h) addr (gen_drawn h) with
  | (m, Err e) => (m, Err e)
  | (m, Ok gen) =>
    try! ack := acknowledgement m remote (tokens_drawn h) (now_ack h) in m ;;
    try! encoded := Hello.ack_to_bytes ack (now_write h) in m ;;
    ensure! write_ok h else (m, Err "write agent attachment acknowledgement") ;;
    ensure! finish_ok h else (m, Err "finish agent attachment acknowledgement") ;;
    (m, Ok gen)
  end.

(** The rest of [accept_once], once the connection has closed. *)
Definition accept_close (m : AttachmentManager) (c : Connection) (gen : string) : AttachmentManager :=
  remove m (remote_id c) gen.

(** ** Runs *)
Inductive Op :=
| Open (h : Handshake)
| Close (c : Connection) (gen : string).

Definition step (m : AttachmentManager) (op : Op) : AttachmentManager :=
  match op with
  | Open h => (accept_open m h).1
  | Close c gen => accept_close m c gen
  end.

Definition run (m : AttachmentManager) (ops : list Op) : AttachmentManager := fold_left step ops m.

(** Opening either leaves the manager alone or registers the authenticated
    agent at the address of its verified record. *)
Lemma accept_open_cases {L : IrohLaws I} m h :
  (accept_open m h).1 = m \/
  exists addr, (accept_open m h).1 = (register m (remote_id (conn h)) (conn h) addr (gen_drawn h)).1 /\
    (register m (remote_id (conn h)) (conn h) addr (gen_drawn h)).2 = Ok (gen_drawn h) /\
    addr_id addr = remote_id (conn h).
Proof.
  unfold accept_open. cbv zeta. destruct (hello_bytes h) as [b|]; [|by left].
  destruct (Hello.from_bytes b _) as [hello|]; [|by left].
  case_bool_decide as Hid; [|by left].
  destruct (Identity.endpoint_addr _ _) as [addr|] eqn:Ha; [|by left].
  apply Identity.endpoint_addr_id in Ha.
  destruct (register _ _ _ _ _) as [m' [g|]] eqn:Hr.
  - right. exists addr. rewrite Hr.
    assert (g = gen_drawn h) as -> by (revert Hr; unfold register; repeat case_match; naive_solver).
    split_and!; [|done|apply id_as_bytes_inj; congruence].
    destruct (acknowledgement _ _ _ _); [|done]. destruct (Hello.ack_to_bytes _ _); [|done].
    by destruct (write_ok h), (finish_ok h).
  - left. revert Hr. unfold register. repeat case_match; naive_solver.
Qed.

Lemma register_Ok m e c addr gen :
  (register m e c addr gen).2 = Ok gen ->
  inner m !! e = None /\ map_len (inner m) < max_attached_agents m /\
  (register m e c addr gen).1 =
    set_inner m (<[e := {| generation := gen; connection := c; agent_addr := addr |}]> (inner m)).
Proof.
  unfold register. destruct (contains_key e (inner m)) eqn:Hk; cbn [negb]; [done|].
  apply contains_key_false in Hk.
  destruct (Z.leb_spec (max_attached_agents m) (map_len (inner m))); cbn [negb]; [done|]. done.
Qed.

Record manager_wf (m : AttachmentManager) : Prop := {
  wf_bound : map_len (inner m) <= max_attached_agents m;
  wf_sessions : forall e s, inner m !! e = Some s ->
    remote_id (connection s) = e /\ addr_id (agent_addr s) = e
}.

Lemma accept_close_cases m c gen :
  accept_close m c gen = m \/
  accept_close m c gen = set_inner m (delete (remote_id c) (inner m)) /\
  exists s, inner m !! remote_id c = Some s /\ generation s = gen.
Proof.
  unfold accept_close, remove. destruct (inner m !! _) as [s|]; [|by left].
  case_bool_decide; [right|by left]. eauto.
Qed.

Lemma step_manager_wf {L : IrohLaws I} m op : manager_wf m -> manager_wf (step m op).
Proof.
  intros Hwf. destruct op as [h|c gen]; cbn.
  - destruct (accept_open_cases m h) as [->|(addr & -> & Hr & Ha)]; [done|].
    apply register_Ok in Hr as (Hn & Hl & ->). destruct Hwf as [Hb Hs]. split; cbn.
    + rewrite map_len_insert_new by done. lia.
    + intros e s [[<- <-]|[_ Hl']]%lookup_insert_Some; [done|eauto].
  - destruct (accept_close_cases m c gen) as [->|(-> & _)]; [done|].
    destruct Hwf as [Hb Hs]. split; cbn.
    + pose proof (map_len_delete_le (inner m) (remote_id c)). lia.
    + intros e s [_ Hl']%lookup_delete_Some. eauto.
Qed.

(** Whatever agents connect and disconnect, a scheduler holds at most
    [max_attached_agents] sessions, each filed under the endpoint the transport
    authenticated, with an address that dials that same endpoint. *)
Theorem attachments_bounded {L : IrohLaws I} (m : AttachmentManager) (ops : list Op)
    (Hstart : inner m = ∅) (Hmax : 0 <= max_attached_agents m) :
  attached_len (run m ops) <= max_attached_agents (run m ops) /\
  (forall e addr, lookup_agent_addr (run m ops) e = Some addr -> addr_id addr = e) /\
  (forall e s, inner (run m ops) !! e = Some s -> remote_id (connection s) = e).
Proof.
  assert (Hwf : manager_wf (run m ops)).
  { assert (manager_wf m) as Hm.
    { split; rewrite Hstart; [by rewrite map_len_empty|]. intros e s. by rewrite lookup_empty. }
    clear Hstart Hmax. unfold run. revert m Hm. induction ops as [|op ops IH]; intros m Hm; [done|].
    cbn. by apply IH, step_manager_wf. }
  destruct Hwf as [Hb Hs]. split_and!; [done| |naive_solver].
  intros e addr. unfold lookup_agent_addr. destruct (inner (run m ops) !! e) eqn:E; [|done].
  intros [= <-]. by destruct (Hs _ _ E).
Qed.

(** ** The fan-out window *)

#[local] Instance rank_laws q :
  CompareLaws (fun a b => bytes_compare (fanout_rank q a) (fanout_rank q b)).
Proof. apply (key_laws (fanout_rank q) bytes_compare _). Qed.

(** A query is fanned out to as many attached agents as the bound allows,
    each at most once: the targets are attached, distinct, number the smaller
    of the bound and the attached agents, and rank no higher for this query
    than any attached agent left out. *)
Theorem fanout_window (m : AttachmentManager) (query_id : string) :
  let targets := fanout_targets m query_id in
  NoDup targets /\ targets ⊆ attached_agents m /\
  len targets = Z.min (Z.max 0 (max_agent_fanout m)) (attached_len m) /\
  (forall a b, a ∈ targets -> b ∈ attached_agents m -> b ∉ targets ->
     bytes_compare (fanout_rank query_id a) (fanout_rank query_id b) <> Gt).
Proof.
  cbv zeta. unfold fanout_targets.
  set (cmp := fun a b => bytes_compare _ _).
  pose proof (sort_perm cmp (attached_agents m)) as Hp.
  assert (Hnd : NoDup (sort_unstable cmp (attached_agents m))).
  { rewrite Hp. apply NoDup_fst_map_to_list. }
  set (sorted := sort_unstable cmp (attached_agents m)) in *.
  set (n := Z.to_nat (max_agent_fanout m)).
  rewrite <- (take_drop n sorted) in Hnd.
  apply NoDup_app in Hnd as (Hnd & _ & _). split_and!; [done| | |].
  - intros a Ha%(subseteq_take n). by rewrite <- Hp.
  - unfold len, attached_len, map_len. rewrite length_take, Hp.
    unfold attached_agents. rewrite length_fmap, length_map_to_list. lia.
  - intros a b Ha Hb Hnb. rewrite <- Hp in Hb. fold sorted in Hb.
    rewrite <- (take_drop n sorted) in Hb. apply elem_of_app in Hb as [?|Hb]; [done|].
    by apply (sort_take_le cmp n (attached_agents m)).
Qed.

(** ** The relay grants of an acknowledgement *)

Lemma issue_grants_spec {PL : PrimitiveLaws P} {GL : PostcardLaws _ CG} id e l draw now tokens trusted :
  Identity.signing_public id = ed_public (Identity.signing_private id) ->
  ed_key_weak (Identity.signing_public id) = false -> Identity.signing_public id ∈ trusted ->
  issue_grants id e l draw now = Ok tokens ->
  Forall2 (fun audience token => exists g, Grant.from_auth_token token now = Ok g /\
             Grant.verify g trusted (id_as_bytes e) audience now = Ok tt) l tokens.
Proof.
  intros Hpk Hweak Hin. revert draw tokens. induction l as [|audience l IH]; intros draw tokens H; cbn [issue_grants] in H.
  - injection H as <-. constructor.
  - apply Signed.bind_ok in H as (g & Hg & H). apply Signed.bind_ok in H as (t & Ht & H).
    apply Signed.bind_ok in H as (ts & Hts & [= <-]). constructor; [|by apply (IH (fun n => draw (S n)))].
    exists g. split; [by apply Messages.grant_token_roundtrip|].
    by refine (Messages.grant_sign_verify _ _ _ _ trusted now Hpk Hweak Hin _ Hg).
Qed.

(** An attached agent gets one relay grant per configured audience, in
    order, and every one of them decodes and verifies for that agent and that
    audience at a relay that trusts the scheduler's key. *)
Theorem acknowledged_grants_valid {PL : PrimitiveLaws P} {GL : PostcardLaws _ CG}
    (m : AttachmentManager) (issuer : RelayGrantIssuer) (e : EndpointId) (draw : nat -> string)
    (now : Z) (ack : Hello.AgentAttachmentAck) (trusted : list bytes)
    (Hissuer : relay_issuer m = Some issuer)
    (Hpk : Identity.signing_public (identity issuer) = ed_public (Identity.signing_private (identity issuer)))
    (Hweak : ed_key_weak (Identity.signing_public (identity issuer)) = false)
    (Htrusted : Identity.signing_public (identity issuer) ∈ trusted)
    (Hack : acknowledgement m e draw now = Ok ack) :
  Forall2 (fun audience token => exists g, Grant.from_auth_token token now = Ok g /\
             Grant.verify g trusted (id_as_bytes e) audience now = Ok tt)
    (audiences issuer) (Hello.relay_grants ack).
Proof.
  unfold acknowledgement in Hack. rewrite Hissuer in Hack.
  apply Signed.bind_ok in Hack as (tokens & Ht & [= <-]). by eapply issue_grants_spec.
Qed.

(** ** A handshake that fails after registration *)

(** The session [s] stays, and any further handshake of its agent is refused,
    as long as no handler that waits on [s]'s own generation exists. *)
Lemma session_stays {L : IrohLaws I} m e s ops :
  inner m !! e = Some s ->
  (forall c gen, Close c gen ∈ ops -> gen <> generation s) ->
  inner (run m ops) !! e = Some s.
Proof.
  unfold run. revert m. induction ops as [|op ops IH]; intros m Hm Hc; [done|]. cbn. apply IH.
  - destruct op as [h|c gen]; cbn.
    + destruct (accept_open_cases m h) as [->|(addr & -> & Hr & _)]; [done|].
      apply register_Ok in Hr as (Hn & _ & ->). cbn. rewrite lookup_insert_ne; [done|congruence].
    + destruct (accept_close_cases m c gen) as [->|(-> & s' & Hs' & Hg)]; [done|]. cbn.
      rewrite lookup_delete_ne; [done|]. intros <-.
      assert (s' = s) as -> by congruence. by apply (Hc c gen); [left|].
  - intros c gen Hin. apply (Hc c gen). by right.
Qed.

Lemma held_agent_refused m h :
  is_Some (inner m !! remote_id (conn h)) -> forall gen, (accept_open m h).2 <> Ok gen.
Proof.
  intros [s Hs] gen. unfold accept_open. cbv zeta.
  destruct (hello_bytes h); [|done]. destruct (Hello.from_bytes _ _); [|done].
  case_bool_decide; [|done]. destruct (Identity.endpoint_addr _ _); [|done].
  unfold register. rewrite (proj2 (contains_key_true _ _)) by eauto. done.
Qed.

(** A handshake that is in order but whose acknowledgement cannot be
    delivered ends with an error and yet leaves its session registered.  Only a
    handler that waits on that generation would remove it, and there is none,
    so whatever else connects and closes afterwards, no handshake of that agent
    succeeds again. *)
Theorem failed_handshake_locks_out {L : IrohLaws I} (m : AttachmentManager) (h : Handshake)
    (b : bytes) (hello : Hello.AgentAttachmentHello) (addr : EndpointAddr) (ops : list Op)
    (Hread : hello_bytes h = Ok b) (Hhello : Hello.from_bytes b (now_read h) = Ok hello)
    (Hid : EndpointRecord.endpoint_id (Hello.agent_endpoint hello) = id_as_bytes (remote_id (conn h)))
    (Haddr : Identity.endpoint_addr (Hello.agent_endpoint hello) (now_addr h) = Ok addr)
    (Hfree : inner m !! remote_id (conn h) = None) (Hroom : attached_len m < max_attached_agents m)
    (Hwrite : write_ok h && finish_ok h = false)
    (Hops : forall c gen, Close c gen ∈ ops -> gen <> gen_drawn h) :
  is_ok (accept_open m h).2 = false /\
  is_Some (inner (run (accept_open m h).1 ops) !! remote_id (conn h)) /\
  (forall h' gen, remote_id (conn h') = remote_id (conn h) ->
     (accept_open (run (accept_open m h).1 ops) h').2 <> Ok gen).
Proof.
  set (s := {| generation := gen_drawn h; connection := conn h; agent_addr := addr |}).
  assert (Hopen : is_ok (accept_open m h).2 = false /\
                  inner (accept_open m h).1 !! remote_id (conn h) = Some s).
  { unfold accept_open. cbv zeta. rewrite Hread, Hhello, bool_decide_true, Haddr by done.
    unfold register. rewrite (proj2 (contains_key_false _ _)) by done. cbn [negb].
    destruct (Z.leb_spec (max_attached_agents m) (map_len (inner m))); [unfold attached_len in *; lia|].
    cbn [negb]. destruct (acknowledgement _ _ _ _); cbn; [|split; [done|apply lookup_insert_eq]].
    destruct (Hello.ack_to_bytes _ _); cbn; [|split; [done|apply lookup_insert_eq]].
    destruct (write_ok h), (finish_ok h); try done; split; [done|apply lookup_insert_eq|done|apply lookup_insert_eq|done|apply lookup_insert_eq]. }
  destruct Hopen as [Herr Hs]. split; [done|].
  apply (session_stays _ _ _ ops) in Hs; [|done]. split; [by eexists|].
  intros h' gen Hr. apply held_agent_refused. rewrite Hr. by eexists.
Qed.

End Manager.

(** ** Witnesses *)
Module Sample.
Import Crypto.Toy.
Export Messages.Sample (record1).
#[export] Existing Instances prims laws ToyIroh.iroh ToyIroh.iroh_laws
  Messages.Sample.EndpointRecord_eq_dec Messages.Sample.record_codec Messages.Sample.query_codec.

Definition sk : bytes := sample_key 3.

Definition hello (signed : bool) : Hello.AgentAttachmentHello := {|
  Hello.version := 1; Hello.role := Agent; Hello.agent_endpoint := record1; Hello.nonce := "n";
  Hello.issued_at_secs := 1000; Hello.expires_at_secs := 1050; Hello.signing_pubkey := b64_encode sk;
  Hello.signature :=
    if signed then b64_encode (ed_sign sk (bind Crypto.AgentAttachmentHello [Byte.x00])) else "" |}.

#[export] Instance hello_eq_dec : EqDecision Hello.AgentAttachmentHello.
Proof. solve_decision. Defined.
#[export] Instance hello_codec : Postcard Hello.AgentAttachmentHello :=
  Signed.Table.codec [hello false; hello true].

#[export] Instance ack_eq_dec : EqDecision Hello.AgentAttachmentAck.
Proof. solve_decision. Defined.
#[export] Instance ack_codec : Postcard Hello.AgentAttachmentAck :=
  Signed.Table.codec [{| Hello.ack_version := 1; Hello.relay_grants := []; Hello.refresh_after_secs := 1151 |}].

Definition grant (signed : bool) : Grant.MachineRelayGrant := {|
  Grant.version := 1; Grant.subject_endpoint_id := replicate 32 Byte.x07; Grant.role := Agent;
  Grant.relay_audience := "https://relay.example"; Grant.issued_at_secs := 1001;
  Grant.expires_at_secs := 1301; Grant.token_id := "t"; Grant.issuer_pubkey := b64_encode sk;
  Grant.signature :=
    if signed then b64_encode (ed_sign sk (bind Crypto.MachineRelayGrant [Byte.x00])) else "" |}.
#[export] Instance grant_codec : Postcard Grant.MachineRelayGrant :=
  Signed.Table.codec (EqDecision0 := Messages.Sample.Grant_eq_dec) [grant false; grant true].
#[export] Instance grant_codec_laws : PostcardLaws _ grant_codec := Signed.Table.codec_laws _.

(** Connections are the endpoint at the other end. *)
Definition shake (gen : string) (delivered : bool) : @Handshake byte := {|
  conn := Byte.x07; hello_bytes := Ok [Byte.x01]; now_read := 1001; now_addr := 1001; now_ack := 1001; now_write := 1002; gen_drawn := gen;
  tokens_drawn := fun _ => "t"; write_ok := delivered; finish_ok := true |}.

Definition manager : @AttachmentManager ToyIroh.iroh byte := new 2 2.
Definition issuer : @RelayGrantIssuer ToyIroh.iroh :=
  {| identity := {| Identity.transport_id := Byte.x05 : @EndpointId ToyIroh.iroh; Identity.signing_public := sk;
                    Identity.signing_private := sk; Identity.advertise_addresses := [] |};
     audiences := ["https://relay.example"] |}.

Definition remote (c : byte) : @EndpointId ToyIroh.iroh := c.
Definition addr : EndpointAddr := (Byte.x07, ["https://relay.example"], []).
End Sample.

Import Sample.

Lemma attachments_bounded_witness :
  attached_len (run remote manager [Open (shake "g1" true); Open (shake "g2" true)]) = 1 /\
  attached_len (run remote manager [Open (shake "g1" true); Open (shake "g2" true)])
    <= max_attached_agents (run remote manager [Open (shake "g1" true); Open (shake "g2" true)]).
Proof.
  split; [vm_compute; reflexivity|].
  apply (attachments_bounded remote manager [Open (shake "g1" true); Open (shake "g2" true)]);
    [reflexivity|vm_compute; discriminate].
Defined.

Lemma acknowledged_grants_valid_witness :
  exists g, Grant.from_auth_token (b64_encode [Byte.x01]) 1001 = Ok g /\
    Grant.verify g [sk] (replicate 32 Byte.x07) "https://relay.example" 1001 = Ok tt.
Proof.
  pose proof (acknowledged_grants_valid (with_issuer manager issuer) issuer Byte.x07 (fun _ => "t") 1001
    {| Hello.ack_version := 1; Hello.relay_grants := [b64_encode [Byte.x01]];
       Hello.refresh_after_secs := 1151 |} [sk] eq_refl eq_refl eq_refl ltac:(left)
    ltac:(vm_compute; reflexivity)) as H.
  apply Forall2_cons_1 in H as [H _]. exact H.
Defined.

Lemma failed_handshake_locks_out_witness :
  (accept_open remote (run remote (accept_open remote manager (shake "g1" false)).1
     [Close Byte.x07 "g2"]) (shake "g3" true)).2 <> Ok "g3".
Proof.
  refine (proj2 (proj2 (failed_handshake_locks_out remote manager (shake "g1" false) [Byte.x01]
    (hello true) addr [Close Byte.x07 "g2"] _ _ _ _ _ _ _ _)) (shake "g3" true) "g3" eq_refl);
    [reflexivity|vm_compute; reflexivity|vm_compute; reflexivity|vm_compute; reflexivity
    |reflexivity|vm_compute; reflexivity|reflexivity|].
  intros c gen Hin. apply list_elem_of_singleton in Hin. injection Hin as -> ->. discriminate.
Defined.

End Attachments.
