(* ===== verification/Registration.v ===== *)
(** * Sidecar registrations (shared/protocol/src/sidecar_registration.rs)

    The message with which a sidecar announces the routes it serves, and the
    derivation of the routing key from the owner key and the workload name. *)

From S2P Require Import Prelude Net Crypto Signed.
From Stdlib Require Import Ascii.

(** [blake3::Hasher]: the hex digest of the bytes fed to it. *)
Class Blake3 := { blake3_hex : bytes -> string }.

Module Registration.
Import Crypto Net.

Definition SIDECAR_REGISTRATION_VERSION : Z := 2.
Definition MAX_SIDECAR_ROUTES : Z := 64.
Definition MAX_ROUTE_HOST_LEN : Z := 253.
Definition MAX_ROUTE_PATH_LEN : Z := 1024.
(** shared/protocol/src/agent.rs *)
Definition MAX_WORKLOAD_REPLICAS : Z := 64.

Record SidecarRoute := {
  route_host : string;
  path_prefix : string;
  port : Z
}.

#[export] Instance SidecarRoute_eq_dec : EqDecision SidecarRoute.
Proof. solve_decision. Defined.

(** [SidecarRoute::host]: the empty host stands for any host. *)
Definition host (r : SidecarRoute) : option string :=
  if str_is_empty (route_host r) then None else Some (route_host r).

Record SidecarRegistration := {
  version : Z;
  owner_pubkey : string;
  workload_name : string;
  manifest_id : string;
  replica_index : Z;
  replica_count : Z;
  routes : list SidecarRoute;
  sidecar_peer_id : string
}.

Record SidecarRegistrationAck := {
  ack_manifest_id : string;
  ack_ok : bool;
  ack_message : string
}.

Definition validate_route (r : SidecarRoute) : Result unit :=
  ensure! str_len (route_host r) <=? MAX_ROUTE_HOST_LEN else Err "route host exceeds 253 bytes" ;;
  ensure! all_char (fun b => is_ascii_alphanumeric b || bool_decide (b = "."%char) || bool_decide (b = "-"%char))
            (route_host r)
    else Err "route host contains characters outside the hostname alphabet" ;;
  ensure! starts_with "/" (path_prefix r) && (str_len (path_prefix r) <=? MAX_ROUTE_PATH_LEN)
    else Err "route path prefix must be absolute and at most 1024 bytes" ;;
  ensure! negb (port r =? 0) else Err "route target port must be non-zero" ;;
  Ok tt.

Fixpoint validate_routes (l : list SidecarRoute) : Result unit :=
  match l with
  | [] => Ok tt
  | r :: rest => _ ← validate_route r; validate_routes rest
  end.

Section Operations.
Context {P : Primitives} {H : Blake3} {C : Postcard SidecarRegistration} {CA : Postcard SidecarRegistrationAck}.

(** What [route_id] hashes. *)
Definition route_preimage (owner_pubkey : bytes) (workload_name : string) : bytes :=
  as_bytes "podmesh/route/v1" ++ [Byte.x00] ++ owner_pubkey ++ [Byte.x00] ++ as_bytes workload_name.

Definition route_id (owner_pubkey : bytes) (workload_name : string) : string :=
  blake3_hex (route_preimage owner_pubkey workload_name).

Definition new_registration (owner : bytes) (name : string) (index count : Z)
    (routes : list SidecarRoute) (peer : string) : SidecarRegistration :=
  {| version := SIDECAR_REGISTRATION_VERSION;
     owner_pubkey := b64_encode owner;
     workload_name := name;
     manifest_id := route_id owner name;
     replica_index := index;
     replica_count := count;
     routes := routes;
     sidecar_peer_id := peer |}.

Definition validate_registration (r : SidecarRegistration) : Result unit :=
  ensure! version r =? SIDECAR_REGISTRATION_VERSION
    else Err "unsupported sidecar registration version" ;;
  owner ← b64_decode (owner_pubkey r);
  ensure! len owner =? ED25519_PUBLIC_KEY_SIZE else Err "owner_pubkey must decode to 32 bytes" ;;
  ensure! negb (str_is_empty (workload_name r)) && (str_len (workload_name r) <=? 253)
    else Err "invalid workload name" ;;
  ensure! bool_decide (manifest_id r = route_id owner (workload_name r))
    else Err "manifest_id is not derived from this owner key and workload name" ;;
  ensure! (1 <=? replica_count r) && (replica_count r <=? MAX_WORKLOAD_REPLICAS)
    else Err "replica count must be between 1 and 64" ;;
  ensure! replica_index r <? replica_count r else Err "replica index is outside the deployment" ;;
  ensure! negb (bool_decide (routes r = [])) && (len (routes r) <=? MAX_SIDECAR_ROUTES)
    else Err "a registration must carry between 1 and 64 routes" ;;
  _ ← validate_routes (routes r);
  ensure! negb (str_is_empty (sidecar_peer_id r)) && (str_len (sidecar_peer_id r) <=? 128)
    else Err "invalid sidecar peer id" ;;
  Ok tt.

Definition registration_to_bytes (r : SidecarRegistration) : Result bytes :=
  _ ← validate_registration r; ok_or (to_allocvec r) "serialize sidecar registration".

Definition registration_from_bytes (b : bytes) : Result SidecarRegistration :=
  r ← ok_or (from_postcard b) "decode sidecar registration";
  _ ← validate_registration r;
  Ok r.

Definition owner_key (r : SidecarRegistration) : Result bytes := b64_decode (owner_pubkey r).

Definition validate_registration_ack (a : SidecarRegistrationAck) : Result unit :=
  ensure! negb (str_is_empty (ack_manifest_id a)) && (str_len (ack_manifest_id a) <=? 128)
    else Err "registration acknowledgement manifest id is invalid" ;;
  ensure! str_len (ack_message a) <=? 512
    else Err "registration acknowledgement message exceeds its limit" ;;
  Ok tt.

(** ** Properties *)

Lemma route_preimage_inj o1 o2 n1 n2 :
  len o1 = 32 -> len o2 = 32 -> route_preimage o1 n1 = route_preimage o2 n2 -> o1 = o2 /\ n1 = n2.
Proof.
  unfold route_preimage, len. intros H1 H2 Heq%app_inv_head. cbn in Heq. injection Heq as Heq.
  apply app_inj_1 in Heq as [-> Heq]; [|lia]. injection Heq as Heq%as_bytes_inj. done.
Qed.

(** A routing key belongs to one owner and workload: two registrations that
    pass validation under the same key name the same owner key and the same
    workload, or exhibit two different inputs with the same blake3 digest. *)
Theorem routing_key_bound (r1 r2 : SidecarRegistration)
    (H1 : validate_registration r1 = Ok tt) (H2 : validate_registration r2 = Ok tt)
    (Hkey : manifest_id r1 = manifest_id r2) :
  exists o1 o2, owner_key r1 = Ok o1 /\ owner_key r2 = Ok o2 /\
    ((o1 = o2 /\ workload_name r1 = workload_name r2) \/
     (route_preimage o1 (workload_name r1) <> route_preimage o2 (workload_name r2) /\
      blake3_hex (route_preimage o1 (workload_name r1)) = blake3_hex (route_preimage o2 (workload_name r2)))).
Proof.
  assert (Hv : forall r, validate_registration r = Ok tt ->
    exists o, owner_key r = Ok o /\ len o = 32 /\ manifest_id r = route_id o (workload_name r)).
  { intros r Hr. unfold validate_registration in Hr. destruct (version r =? _); [|done].
    unfold owner_key. destruct (b64_decode (owner_pubkey r)) as [o|]; [|done]. cbn in Hr.
    exists o. destruct (Z.eqb_spec (len o) ED25519_PUBLIC_KEY_SIZE); [|done].
    destruct (_ && _) in Hr; [|done]. case_bool_decide; done. }
  destruct (Hv r1 H1) as (o1 & Ho1 & Hl1 & Hm1), (Hv r2 H2) as (o2 & Ho2 & Hl2 & Hm2).
  exists o1, o2. split_and!; [done..|].
  destruct (decide (route_preimage o1 (workload_name r1) = route_preimage o2 (workload_name r2))) as [Heq|Hne].
  - left. by apply route_preimage_inj in Heq.
  - right. split; [done|]. unfold route_id in *. congruence.
Qed.

End Operations.

(** ** Witness *)
Module Sample.
Import Crypto.Toy.
#[export] Existing Instances prims.
#[export] Instance blake3 : Blake3 := {| blake3_hex := String.string_of_list_byte |}.

Definition route (h : string) (p : Z) : SidecarRoute :=
  {| route_host := h; path_prefix := "/"; port := p |}.
Definition registration (owner : Z) (index : Z) (h : string) : SidecarRegistration :=
  new_registration (sample_key owner) "demo" index 3 [route h 8080] "peer".
End Sample.

Import Sample.

Lemma routing_key_bound_witness :
  exists o1 o2, owner_key (registration 7 0 "a.example") = Ok o1 /\ owner_key (registration 7 1 "") = Ok o2.
Proof.
  destruct (routing_key_bound (registration 7 0 "a.example") (registration 7 1 ""))
    as (o1 & o2 & H1 & H2 & _); [vm_compute; reflexivity|vm_compute; reflexivity|reflexivity|].
  exists o1, o2. split; assumption.
Defined.

End Registration.
