(* ===== verification/WorkloadStream.v ===== *)
(** * Workload streams (shared/protocol/src/workload_stream.rs, workload_body.rs)

    The frames control messages travel in, and the bounded chunks of an HTTP
    body that follow them.  A pipe holds the bytes still to be read, or those
    written so far, together with how each awaited operation on it ends: it
    completes, or it is stopped - cancelled, timed out or failed - after some
    bytes have moved. *)

From S2P Require Import Prelude Net Crypto Signed Registration.

Module Io.
Inductive Io := Completes | Stops (transferred : nat) (why : string).

Record Pipe := { content : bytes; ios : list Io }.

Definition next (p : Pipe) : Io * list Io :=
  match ios p with [] => (Completes, []) | io :: rest => (io, rest) end.

Definition write_all (p : Pipe) (buffer : bytes) : Pipe * Result unit :=
  match next p with
  | (Completes, rest) => ({| content := content p ++ buffer; ios := rest |}, Ok tt)
  | (Stops n why, rest) => ({| content := content p ++ take n buffer; ios := rest |}, Err why)
  end.

(** Waiting for the peer without moving bytes: [flush]. *)
Definition flush (p : Pipe) : Pipe * Result unit :=
  match next p with
  | (Completes, rest) => ({| content := content p; ios := rest |}, Ok tt)
  | (Stops _ why, rest) => ({| content := content p; ios := rest |}, Err why)
  end.

Definition read_exact (p : Pipe) (size : Z) (eof : string) : Pipe * Result bytes :=
  let n := Z.to_nat size in
  match next p with
  | (Completes, rest) =>
      ensure! size <=? len (content p) else ({| content := []; ios := rest |}, Err eof) ;;
      ({| content := drop n (content p); ios := rest |}, Ok (take n (content p)))
  | (Stops k why, rest) => ({| content := drop (Nat.min k n) (content p); ios := rest |}, Err why)
  end.

Lemma write_all_spec p b p' r :
  write_all p b = (p', r) ->
  exists x, content p' = content p ++ x /\ x `prefix_of` b /\ (r = Ok tt -> x = b).
Proof.
  unfold write_all. destruct (next p) as [[|n why] rest]; intros [= <- <-]; cbn.
  - exists b. done.
  - exists (take n b). split_and!; [done|apply prefix_take|done].
Qed.

Lemma flush_content p : content (flush p).1 = content p.
Proof. unfold flush. by destruct (next p) as [[] ?]. Qed.

Lemma read_exact_ok p size e p' b :
  read_exact p size e = (p', Ok b) -> 0 <= size ->
  content p = b ++ content p' /\ len b = size.
Proof.
  unfold read_exact. destruct (next p) as [[|n why] rest]; [|done].
  destruct (Z.leb_spec size (len (content p))) as [Hle|]; [|done].
  intros [= <- <-] Hs. cbn. rewrite take_drop. split; [done|]. unfold len in *. rewrite length_take. lia.
Qed.
End Io.

Module Stream.
Import Io.

Definition WORKLOAD_FRAME_HEADER_BYTES : Z := 5.
Definition MAX_WORKLOAD_STREAMS_PER_CONNECTION : Z := 64.
Definition WORKLOAD_ENVELOPE_OVERHEAD_BYTES : Z := 4 * 1024.
Definition MAX_HANDSHAKE_PAYLOAD_BYTES : Z := 64 * 1024.
Definition MAX_REGISTRATION_PAYLOAD_BYTES : Z := 64 * 1024.
Definition MAX_PROXY_DISCOVERY_PAYLOAD_BYTES : Z := 64 * 1024.
Definition MAX_INGRESS_PAYLOAD_BYTES : Z := 64 * 1024.
Definition MAX_EGRESS_CONTROL_PAYLOAD_BYTES : Z := 32 * 1024.
Definition MAX_PROXY_ANNOUNCEMENT_PAYLOAD_BYTES : Z := 4 * 1024.

Inductive WorkloadStreamKind := Handshake | Registration | ProxyDiscovery | Ingress | Egress | ProxyAnnouncement.

#[export] Instance WorkloadStreamKind_eq_dec : EqDecision WorkloadStreamKind.
Proof. solve_decision. Defined.

(** [kind as u8] *)
Definition kind_byte (kind : WorkloadStreamKind) : byte :=
  match kind with
  | Handshake => Byte.x01
  | Registration => Byte.x02
  | ProxyDiscovery => Byte.x03
  | Ingress => Byte.x04
  | Egress => Byte.x05
  | ProxyAnnouncement => Byte.x06
  end.

Definition payload_limit (kind : WorkloadStreamKind) : Z :=
  match kind with
  | Handshake => MAX_HANDSHAKE_PAYLOAD_BYTES + WORKLOAD_ENVELOPE_OVERHEAD_BYTES
  | Registration => MAX_REGISTRATION_PAYLOAD_BYTES + WORKLOAD_ENVELOPE_OVERHEAD_BYTES
  | ProxyDiscovery => MAX_PROXY_DISCOVERY_PAYLOAD_BYTES + WORKLOAD_ENVELOPE_OVERHEAD_BYTES
  | Ingress => MAX_INGRESS_PAYLOAD_BYTES + WORKLOAD_ENVELOPE_OVERHEAD_BYTES
  | Egress => MAX_EGRESS_CONTROL_PAYLOAD_BYTES + WORKLOAD_ENVELOPE_OVERHEAD_BYTES
  | ProxyAnnouncement => MAX_PROXY_ANNOUNCEMENT_PAYLOAD_BYTES + WORKLOAD_ENVELOPE_OVERHEAD_BYTES
  end.

Definition try_from (value : byte) : Result WorkloadStreamKind :=
  match value with
  | Byte.x01 => Ok Handshake
  | Byte.x02 => Ok Registration
  | Byte.x03 => Ok ProxyDiscovery
  | Byte.x04 => Ok Ingress
  | Byte.x05 => Ok Egress
  | Byte.x06 => Ok ProxyAnnouncement
  | _ => Err "unknown workload stream kind"
  end.

(** Header, payload and flush are one awaited operation. *)
Definition write_workload_frame (writer : Pipe) (kind : WorkloadStreamKind) (payload : bytes) : Pipe * Result unit :=
  ensure! (0 <? len payload) && (len payload <=? payload_limit kind)
    else (writer, Err "workload frame payload size is invalid") ;;
  ensure! len payload <=? u32_max else (writer, Err "workload frame length exceeds u32") ;;
  write_all writer (kind_byte kind :: u32_be_bytes (len payload) ++ payload).

(** Reading without interruption: what is left, or the point of failure. *)
Definition read_frame_inner (input : bytes) : bytes * Result (WorkloadStreamKind * bytes) :=
  match input with
  | k :: b1 :: b2 :: b3 :: b4 :: rest =>
      try! kind := try_from k in rest ;;
      let payload_len := u32_from_be [b1; b2; b3; b4] in
      ensure! (0 <? payload_len) && (payload_len <=? payload_limit kind)
        else (rest, Err "workload frame declared size is invalid") ;;
      ensure! payload_len <=? len rest else ([], Err "read workload frame payload") ;;
      (drop (Z.to_nat payload_len) rest, Ok (kind, take (Z.to_nat payload_len) rest))
  | _ => ([], Err "read workload frame header")
  end.

Definition read_workload_frame (reader : Pipe) : Pipe * Result (WorkloadStreamKind * bytes) :=
  match next reader with
  | (Completes, rest) =>
      let (input, result) := read_frame_inner (content reader) in
      ({| content := input; ios := rest |}, result)
  | (Stops n why, rest) =>
      let consumed := (length (content reader) - length (read_frame_inner (content reader)).1)%nat in
      ({| content := drop (Nat.min n consumed) (content reader); ios := rest |}, Err why)
  end.

Lemma try_from_byte k : try_from (kind_byte k) = Ok k.
Proof. by destruct k. Qed.

Lemma payload_limit_bound k : 0 < payload_limit k < 2 ^ 17.
Proof. by destruct k. Qed.

(** A frame that is written is the frame that is read; what follows is left. *)
Lemma read_written_frame kind payload rest :
  0 < len payload <= payload_limit kind ->
  read_frame_inner (kind_byte kind :: u32_be_bytes (len payload) ++ payload ++ rest) = (rest, Ok (kind, payload)).
Proof.
  intros Hp. pose proof (payload_limit_bound kind). unfold read_frame_inner, u32_be_bytes. cbn [app].
  rewrite try_from_byte. cbv zeta. fold (u32_be_bytes (len payload)).
  rewrite u32_from_to_be by lia.
  replace (0 <? len payload) with true by (symmetry; apply Z.ltb_lt; lia).
  replace (len payload <=? payload_limit kind) with true by (symmetry; apply Z.leb_le; lia).
  pose proof (len_nonneg rest). cbn [andb]. rewrite len_app.
  replace (len payload <=? len payload + len rest) with true by (symmetry; apply Z.leb_le; lia).
  unfold len. by rewrite Nat2Z.id, drop_app_length, take_app_length.
Qed.

(** A frame that is read is within the limit of its kind. *)
Lemma read_frame_bounded input rest kind payload :
  read_frame_inner input = (rest, Ok (kind, payload)) -> 0 < len payload <= payload_limit kind.
Proof.
  unfold read_frame_inner. do 5 (destruct input as [|? input]; [done|]).
  destruct (try_from _) as [k|]; [|done]. cbv zeta.
  destruct ((0 <? _) && _) eqn:Hc; [|done]. destruct (_ <=? len _) eqn:Hl; [|done].
  intros [= <- <- <-]. bool_props. unfold len in *. rewrite length_take. lia.
Qed.

Lemma read_workload_frame_written kind payload rest ios0 :
  0 < len payload <= payload_limit kind ->
  read_workload_frame {| content := kind_byte kind :: u32_be_bytes (len payload) ++ payload ++ rest; ios := Completes :: ios0 |} =
  ({| content := rest; ios := ios0 |}, Ok (kind, payload)).
Proof. intros Hp. unfold read_workload_frame, next. cbn [ios content]. by rewrite read_written_frame. Qed.
End Stream.

Module Body.
Import Io.

Definition HTTP_BODY_CHUNK_HEADER_BYTES : Z := 4.
Definition MAX_HTTP_BODY_CHUNK_BYTES : Z := 64 * 1024.
Definition MAX_HTTP_BODY_BYTES : Z := 16 * 1024 * 1024.

Record HttpBodyProgress := { total_bytes : Z }.
Definition default_progress : HttpBodyProgress := {| total_bytes := 0 |}.

Definition add (p : HttpBodyProgress) (count : Z) : Result HttpBodyProgress :=
  let total := total_bytes p + count in
  ensure! total <=? usize_max else Err "HTTP body byte count overflow" ;;
  ensure! total <=? MAX_HTTP_BODY_BYTES else Err "HTTP body exceeds byte limit" ;;
  Ok {| total_bytes := total |}.

Definition read_http_body_chunk (reader : Pipe) (progress : HttpBodyProgress)
    : Pipe * HttpBodyProgress * Result (option bytes) :=
  let (reader, header) := read_exact reader HTTP_BODY_CHUNK_HEADER_BYTES "read HTTP body chunk header" in
  try! header := header in (reader, progress) ;;
  let length := u32_from_be header in
  if length =? 0 then (reader, progress, Ok None) else
  ensure! length <=? MAX_HTTP_BODY_CHUNK_BYTES
    else (reader, progress, Err "HTTP body chunk exceeds byte limit") ;;
  try! progress := add progress length in (reader, progress) ;;
  let (reader, chunk) := read_exact reader length "read HTTP body chunk" in
  try! chunk := chunk in (reader, progress) ;;
  (reader, progress, Ok (Some chunk)).

(** [slice::chunks]: the fuel is the length, every chunk takes at least one. *)
Fixpoint chunks_loop {A} (fuel n : nat) (l : list A) : list (list A) :=
  match fuel, l with
  | S fuel, _ :: _ => take n l :: chunks_loop fuel n (drop n l)
  | _, _ => []
  end.
Definition chunks {A} (n : nat) (l : list A) : list (list A) := chunks_loop (length l) n l.

Fixpoint write_parts (writer : Pipe) (parts : list bytes) (progress : HttpBodyProgress)
    : Pipe * HttpBodyProgress * Result unit :=
  match parts with
  | [] => (writer, progress, Ok tt)
  | part :: parts =>
      try! progress := add progress (len part) in (writer, progress) ;;
      ensure! len part <=? u32_max else (writer, progress, Err "convert HTTP body chunk length") ;;
      let (writer, r) := write_all writer (u32_be_bytes (len part)) in
      try! _header := r in (writer, progress) ;;
      let (writer, r) := write_all writer part in
      try! _part := r in (writer, progress) ;;
      write_parts writer parts progress
  end.

Definition write_http_body_chunk (writer : Pipe) (chunk : bytes) (progress : HttpBodyProgress)
    : Pipe * HttpBodyProgress * Result unit :=
  ensure! negb (bool_decide (chunk = []))
    else (writer, progress, Err "empty HTTP body chunk is reserved as terminator") ;;
  write_parts writer (chunks (Z.to_nat MAX_HTTP_BODY_CHUNK_BYTES) chunk) progress.

Definition finish_http_body (writer : Pipe) : Pipe * Result unit :=
  let (writer, r) := write_all writer (u32_be_bytes 0) in
  try! _terminator := r in writer ;;
  flush writer.

(** ** Whole bodies

    Both ends of an ingress stream send a body chunk by chunk as it arrives,
    and hand the chunks they read to the HTTP library one by one. *)
Fixpoint send_chunks (writer : Pipe) (body : list (Result bytes)) (progress : HttpBodyProgress) : Pipe * Result unit :=
  match body with
  | [] => (writer, Ok tt)
  | item :: body =>
      try! chunk := item in writer ;;
      let '(writer, progress, r) := write_http_body_chunk writer chunk progress in
      try! _written := r in writer ;;
      send_chunks writer body progress
  end.

Definition send_body (writer : Pipe) (body : list (Result bytes)) : Pipe * Result unit :=
  let (writer, r) := send_chunks writer body default_progress in
  try! _sent := r in writer ;;
  finish_http_body writer.

(** The stream of chunks read: it ends at the terminator or with an error. *)
Fixpoint body_stream (fuel : nat) (reader : Pipe) (progress : HttpBodyProgress) : list (Result bytes) :=
  match fuel with
  | O => []
  | S fuel =>
      let '(reader, progress, r) := read_http_body_chunk reader progress in
      match r with
      | Ok (Some chunk) => Ok chunk :: body_stream fuel reader progress
      | Ok None => []
      | Err e => [Err e]
      end
  end.

(** A chunk takes at least one byte, so this much fuel reads everything. *)
Definition receive_body (reader : Pipe) : list (Result bytes) :=
  body_stream (S (length (content reader))) reader default_progress.

(** The chunks of a stream, and whether it ended at the terminator. *)
Definition delivered (items : list (Result bytes)) : bytes :=
  concat (omap (fun r => match r with Ok b => Some b | Err _ => None end) items).
Definition complete (items : list (Result bytes)) : bool :=
  forallb (fun r => match r with Ok _ => true | Err _ => false end) items.

(** ** What is on the wire *)
Definition frame (part : bytes) : bytes := u32_be_bytes (len part) ++ part.
Definition frames (parts : list bytes) : bytes := concat (frame <$> parts).
Definition TERMINATOR : bytes := u32_be_bytes 0.

Definition part_ok (part : bytes) : Prop := 0 < len part <= MAX_HTTP_BODY_CHUNK_BYTES.

Lemma chunks_loop_concat {A} fuel n (l : list A) :
  (0 < n)%nat -> (length l <= fuel)%nat -> concat (chunks_loop fuel n l) = l.
Proof.
  intros Hn. revert l. induction fuel as [|fuel IH]; intros [|x l] Hl; [done|cbn in Hl; lia|done|].
  change (chunks_loop (S fuel) n (x :: l)) with (take n (x :: l) :: chunks_loop fuel n (drop n (x :: l))).
  cbn [concat]. rewrite IH, take_drop; [done|]. rewrite length_drop. cbn in *. lia.
Qed.

Lemma chunks_loop_ok fuel n (l : bytes) :
  (0 < n)%nat -> Forall (fun p => 0 < len p <= Z.of_nat n) (chunks_loop fuel n l).
Proof.
  intros Hn. revert l. induction fuel as [|fuel IH]; intros [|x l]; [constructor..|].
  change (chunks_loop (S fuel) n (x :: l)) with (take n (x :: l) :: chunks_loop fuel n (drop n (x :: l))).
  constructor; [|apply IH]. unfold len. rewrite length_take. cbn [length]. lia.
Qed.

Definition parts_of (chunk : bytes) : list bytes := chunks (Z.to_nat MAX_HTTP_BODY_CHUNK_BYTES) chunk.

Lemma parts_of_concat chunk : concat (parts_of chunk) = chunk.
Proof. apply chunks_loop_concat; [|done]. unfold MAX_HTTP_BODY_CHUNK_BYTES. lia. Qed.

Lemma parts_of_ok chunk : Forall part_ok (parts_of chunk).
Proof.
  eapply Forall_impl; [apply chunks_loop_ok; unfold MAX_HTTP_BODY_CHUNK_BYTES; lia|].
  intros p Hp. unfold part_ok. by rewrite Z2Nat.id in Hp.
Qed.

Lemma frames_app l1 l2 : frames (l1 ++ l2) = frames l1 ++ frames l2.
Proof. unfold frames. by rewrite fmap_app, concat_app. Qed.

Lemma add_ok p n p' : add p n = Ok p' -> total_bytes p' = total_bytes p + n /\ total_bytes p' <= MAX_HTTP_BODY_BYTES.
Proof. unfold add. cbv zeta. intros Ha. Signed.result_steps Ha. injection Ha as <-. bool_props. done. Qed.

(** ** The writer *)
Lemma write_parts_spec w parts progress w' progress' r :
  write_parts w parts progress = (w', progress', r) ->
  exists x, content w' = content w ++ x /\ x `prefix_of` frames parts /\
    (r = Ok tt -> x = frames parts /\ total_bytes progress' = total_bytes progress + len (concat parts) /\
      (total_bytes progress <= MAX_HTTP_BODY_BYTES -> total_bytes progress' <= MAX_HTTP_BODY_BYTES)).
Proof.
  revert w progress. induction parts as [|part parts IH]; intros w progress; cbn [write_parts].
  { intros [= <- <- <-]. exists []. rewrite app_nil_r. split_and!; [done..|]. intros _. split_and!; [done| |done].
    change (concat []) with (@nil byte). rewrite len_nil. lia. }
  destruct (add progress (len part)) as [p1|e] eqn:Ha.
  2: { intros [= <- <- <-]. exists []. rewrite app_nil_r. split_and!; [done|apply prefix_nil|done]. }
  destruct (len part <=? u32_max).
  2: { intros [= <- <- <-]. exists []. rewrite app_nil_r. split_and!; [done|apply prefix_nil|done]. }
  assert (frames (part :: parts) = u32_be_bytes (len part) ++ part ++ frames parts) as Hf
    by (unfold frames; cbn [fmap list_fmap concat]; unfold frame; by rewrite <- app_assoc).
  destruct (write_all w (u32_be_bytes (len part))) as [w1 r1] eqn:H1.
  apply write_all_spec in H1 as (x1 & E1 & Hx1 & Hr1). destruct r1 as [[]|e].
  2: { intros [= <- <- <-]. exists x1. split_and!; [done| |done]. rewrite Hf. by apply prefix_app_r. }
  rewrite (Hr1 eq_refl) in E1. clear Hr1 Hx1.
  destruct (write_all w1 part) as [w2 r2] eqn:H2.
  apply write_all_spec in H2 as (x2 & E2 & Hx2 & Hr2). destruct r2 as [[]|e].
  2: { intros [= <- <- <-]. exists (u32_be_bytes (len part) ++ x2). rewrite E2, E1, <- app_assoc. split_and!; [done| |done].
       rewrite Hf. by apply prefix_app, prefix_app_r. }
  rewrite (Hr2 eq_refl) in E2. intros (x & E & Hx & Hr)%IH.
  exists (u32_be_bytes (len part) ++ part ++ x). rewrite E, E2, E1, <- !app_assoc. split_and!; [done| |].
  - rewrite Hf. by do 2 apply prefix_app.
  - intros Hok. destruct (Hr Hok) as (-> & Ht & Hb). rewrite Hf. apply add_ok in Ha as [Ha Hm].
    split_and!; [done| |]; [cbn [concat]; rewrite Ht, len_app; lia|intros _; by apply Hb].
Qed.

Lemma send_chunks_spec w body progress w' r :
  send_chunks w body progress = (w', r) ->
  exists x parts, content w' = content w ++ x /\ x `prefix_of` frames parts /\ Forall part_ok parts /\
    concat parts `prefix_of` delivered body /\
    (r = Ok tt -> x = frames parts /\ concat parts = delivered body /\
      (total_bytes progress <= MAX_HTTP_BODY_BYTES -> total_bytes progress + len (concat parts) <= MAX_HTTP_BODY_BYTES)).
Proof.
  revert w progress. induction body as [|item body IH]; intros w progress; cbn [send_chunks].
  { intros [= <- <-]. exists [], []. rewrite app_nil_r. split_and!; [done|done|constructor|done|].
    intros _. split_and!; [done..|]. change (concat []) with (@nil byte). rewrite len_nil. lia. }
  destruct item as [chunk|e].
  2: { intros [= <- <-]. exists [], []. rewrite app_nil_r. split_and!; [done|done|constructor|apply prefix_nil|done]. }
  destruct (write_http_body_chunk w chunk progress) as [[w1 p1] r1] eqn:Hw.
  unfold write_http_body_chunk in Hw. destruct (negb _) eqn:Hne.
  2: { injection Hw as <- <- <-. intros [= <- <-]. exists [], []. rewrite app_nil_r.
       split_and!; [done|done|constructor|apply prefix_nil|done]. }
  fold (parts_of chunk) in Hw. apply write_parts_spec in Hw as (x1 & E1 & Hx1 & Hr1).
  change (delivered (Ok chunk :: body)) with (chunk ++ delivered body).
  destruct r1 as [[]|e].
  2: { intros [= <- <-]. exists x1, (parts_of chunk). split_and!; [done|done|apply parts_of_ok| |done].
       rewrite parts_of_concat. by apply prefix_app_r. }
  destruct (Hr1 eq_refl) as (-> & Ht1 & Hb1). rewrite parts_of_concat in Ht1.
  intros (x & parts & E & Hx & Hok & Hp & Hr)%IH.
  exists (frames (parts_of chunk) ++ x), (parts_of chunk ++ parts). rewrite E, E1, frames_app, concat_app, parts_of_concat, <- app_assoc.
  split_and!; [done|by apply prefix_app|by apply Forall_app; split; [apply parts_of_ok|]|by apply prefix_app|].
  intros Hr'. destruct (Hr Hr') as (-> & Hd & Hb). split_and!; [done|by rewrite Hd|].
  intros Hm. specialize (Hb (Hb1 Hm)). rewrite len_app. lia.
Qed.

Lemma send_body_spec w body w' r :
  send_body w body = (w', r) ->
  exists x parts, content w' = content w ++ x /\ x `prefix_of` frames parts ++ TERMINATOR /\ Forall part_ok parts /\
    concat parts `prefix_of` delivered body /\
    (frames parts ++ TERMINATOR `prefix_of` x -> concat parts = delivered body) /\
    (r = Ok tt -> x = frames parts ++ TERMINATOR /\ len (concat parts) <= MAX_HTTP_BODY_BYTES).
Proof.
  unfold send_body. destruct (send_chunks w body default_progress) as [w1 r1] eqn:Hs.
  apply send_chunks_spec in Hs as (x1 & parts & E1 & Hx1 & Hok & Hp & Hr1). destruct r1 as [[]|e].
  - destruct (Hr1 eq_refl) as (-> & Hc & Hb). specialize (Hb ltac:(done)). unfold finish_http_body.
    destruct (write_all w1 (u32_be_bytes 0)) as [w2 r2] eqn:H2.
    apply write_all_spec in H2 as (x2 & E2 & Hx2 & Hr2). intros Hf.
    exists (frames parts ++ x2), parts. assert (content w' = content w2) as ->.
    { destruct r2; [|by injection Hf as <- _]. rewrite <- (flush_content w2). by rewrite Hf. }
    rewrite E2, E1, app_assoc. split_and!; [done|by apply prefix_app|done|by rewrite Hc|done|].
    intros ->. destruct r2 as [[]|]; [by rewrite (Hr2 eq_refl)|by injection Hf].
  - intros [= <- <-]. exists x1, parts. split_and!; try done.
    + by apply prefix_app_r.
    + intros Hpre%prefix_length. apply prefix_length in Hx1. rewrite length_app in Hpre. cbn in Hpre. lia.
Qed.

(** ** The reader *)
Lemma prefix_split {A} (h1 h2 a b : list A) :
  h1 ++ a `prefix_of` h2 ++ b -> length h1 = length h2 -> h1 = h2 /\ a `prefix_of` b.
Proof. intros [k Hk] Hl. rewrite <- app_assoc in Hk. apply app_inj_1 in Hk as [-> ->]; [|done]. split; [done|by exists k]. Qed.

Lemma read_exact_prefix reader n e reader' b h rest :
  read_exact reader n e = (reader', Ok b) -> content reader `prefix_of` h ++ rest -> n = len h ->
  b = h /\ content reader' `prefix_of` rest /\ (length (content reader') + length h = length (content reader))%nat.
Proof.
  intros Hr Hp ->. apply read_exact_ok in Hr as [Heq Hl]; [|apply len_nonneg]. unfold len in Hl.
  apply Nat2Z.inj in Hl. rewrite Heq in Hp. apply prefix_split in Hp as [-> Hp]; [|done].
  split_and!; [done..|]. rewrite Heq, length_app. lia.
Qed.

Lemma body_stream_spec parts fuel reader progress rest :
  Forall part_ok parts -> content reader `prefix_of` frames parts ++ TERMINATOR ++ rest ->
  (length (content reader) < fuel)%nat ->
  let items := body_stream fuel reader progress in
  delivered items `prefix_of` concat parts /\
  (complete items = true -> delivered items = concat parts /\ frames parts ++ TERMINATOR `prefix_of` content reader).
Proof.
  revert fuel reader progress. induction parts as [|part parts IH]; intros [|fuel] reader progress Hok Hpre Hfuel; try lia.
  all: cbn [body_stream]; unfold read_http_body_chunk, HTTP_BODY_CHUNK_HEADER_BYTES.
  all: destruct (read_exact reader 4 _) as [reader1 [header|e]] eqn:H1; [|split; [apply prefix_nil|done]].
  - destruct (read_exact_prefix _ _ _ _ _ TERMINATOR rest H1 Hpre eq_refl) as (-> & _ & _).
    change (u32_from_be TERMINATOR =? 0) with true. cbv zeta iota. split; [done|]. intros _. split; [done|].
    apply read_exact_ok in H1 as [-> _]; [|lia]. apply prefix_app_r. done.
  - apply Forall_cons in Hok as [Hpart Hok]. pose proof Hpart as [Hpos Hmax]. unfold MAX_HTTP_BODY_CHUNK_BYTES in Hmax.
    assert (forall z, frames (part :: parts) ++ z = u32_be_bytes (len part) ++ part ++ frames parts ++ z) as Hf
      by (intros z; unfold frames; cbn [fmap list_fmap concat]; unfold frame; by rewrite <- !app_assoc).
    rewrite Hf in Hpre. pose proof H1 as H1'. apply read_exact_ok in H1' as [Hc1 _]; [|lia].
    destruct (read_exact_prefix _ _ _ _ _ _ _ H1 Hpre eq_refl) as (-> & Hpre1 & Hlen1).
    rewrite u32_from_to_be by lia. cbv zeta.
    replace (len part =? 0) with false by (symmetry; apply Z.eqb_neq; lia).
    replace (len part <=? MAX_HTTP_BODY_CHUNK_BYTES) with true by (symmetry; apply Z.leb_le; unfold MAX_HTTP_BODY_CHUNK_BYTES; lia).
    destruct (add progress (len part)) as [progress1|e]; [|split; [apply prefix_nil|done]].
    destruct (read_exact reader1 (len part) _) as [reader2 [chunk|e]] eqn:H2; [|split; [apply prefix_nil|done]].
    pose proof H2 as H2'. apply read_exact_ok in H2' as [Hc2 _]; [|lia].
    destruct (read_exact_prefix _ _ _ _ _ _ _ H2 Hpre1 eq_refl) as (-> & Hpre2 & Hlen2).
    destruct (IH fuel reader2 progress1 Hok Hpre2) as [IH1 IH2].
    { cbn in Hlen1. lia. }
    cbn [concat]. change (delivered (Ok part :: ?l)) with (part ++ delivered l). split.
    + by apply prefix_app.
    + intros Hcomp. destruct (IH2 Hcomp) as [-> Hw]. split; [done|]. rewrite Hf, Hc1, Hc2. by do 2 apply prefix_app.
Qed.

(** With nothing to stop it, a reader that has the whole body reads the whole body. *)
Lemma body_stream_total parts fuel reader progress rest :
  Forall part_ok parts -> content reader = frames parts ++ TERMINATOR ++ rest -> ios reader = [] ->
  (length (content reader) < fuel)%nat -> total_bytes progress + len (concat parts) <= MAX_HTTP_BODY_BYTES ->
  body_stream fuel reader progress = Ok <$> parts.
Proof.
  revert fuel reader progress. induction parts as [|part parts IH]; intros [|fuel] [c l] progress Hok Hc Hi Hfuel Ht; try lia;
    cbn [content ios] in *; subst c l; cbn [body_stream]; unfold read_http_body_chunk, read_exact, next, HTTP_BODY_CHUNK_HEADER_BYTES; cbn [content ios].
  - change (frames [] ++ TERMINATOR ++ rest) with (TERMINATOR ++ rest).
    replace (4 <=? _) with true; [done|]. symmetry. apply Z.leb_le. rewrite len_app. change (len TERMINATOR) with 4.
    pose proof (len_nonneg rest). lia.
  - apply Forall_cons in Hok as [[Hpos Hmax] Hok].
    assert (frames (part :: parts) ++ TERMINATOR ++ rest = u32_be_bytes (len part) ++ part ++ frames parts ++ TERMINATOR ++ rest) as Hf
      by (unfold frames; cbn [fmap list_fmap concat]; unfold frame; by rewrite <- !app_assoc).
    rewrite Hf in *. cbn [concat] in Ht. rewrite len_app in Ht. pose proof (len_nonneg (concat parts)).
    replace (4 <=? _) with true by (symmetry; apply Z.leb_le; rewrite len_app; change (len (u32_be_bytes _)) with 4;
      pose proof (len_nonneg (part ++ frames parts ++ TERMINATOR ++ rest)); lia).
    change (take (Z.to_nat 4) (u32_be_bytes (len part) ++ ?l)) with (u32_be_bytes (len part)).
    change (drop (Z.to_nat 4) (u32_be_bytes (len part) ++ ?l)) with l. cbv zeta.
    unfold add, MAX_HTTP_BODY_CHUNK_BYTES, MAX_HTTP_BODY_BYTES in *. cbv zeta. rewrite u32_from_to_be by lia.
    replace (len part =? 0) with false by (symmetry; apply Z.eqb_neq; lia).
    replace (len part <=? 64 * 1024) with true by (symmetry; apply Z.leb_le; lia).
    replace (total_bytes progress + len part <=? usize_max) with true by (symmetry; apply Z.leb_le; unfold usize_max, u64_max; lia).
    replace (total_bytes progress + len part <=? 16 * 1024 * 1024) with true by (symmetry; apply Z.leb_le; lia).
    cbn [content ios]. rewrite len_app. pose proof (len_nonneg (frames parts ++ TERMINATOR ++ rest)).
    replace (len part <=? _) with true by (symmetry; apply Z.leb_le; lia).
    assert (Z.to_nat (len part) = length part) as -> by (unfold len; lia).
    rewrite drop_app_length, take_app_length. cbn [fmap list_fmap]. f_equal.
    apply IH; [done|done|done| |cbn; lia]. cbn [content]. rewrite !length_app in *. change (length (u32_be_bytes _)) with 4%nat in Hfuel. lia.
Qed.

(** With nothing to stop it, a writer fails only for an empty chunk or for too
    many bytes. *)
Lemma write_parts_total w parts progress :
  ios w = [] -> Forall part_ok parts -> total_bytes progress + len (concat parts) <= MAX_HTTP_BODY_BYTES ->
  exists w' progress', write_parts w parts progress = (w', progress', Ok tt) /\ ios w' = [] /\
    total_bytes progress' = total_bytes progress + len (concat parts).
Proof.
  revert w progress. induction parts as [|part parts IH]; intros w progress Hi Hok Ht; cbn [write_parts].
  { exists w, progress. split_and!; [done..|]. change (concat []) with (@nil byte). rewrite len_nil. lia. }
  apply Forall_cons in Hok as [[Hpos Hmax] Hok]. cbn [concat] in *. rewrite len_app in *.
  pose proof (len_nonneg (concat parts)). unfold add, MAX_HTTP_BODY_CHUNK_BYTES, MAX_HTTP_BODY_BYTES in *. cbv zeta.
  replace (_ <=? usize_max) with true by (symmetry; apply Z.leb_le; unfold usize_max, u64_max; lia).
  replace (_ <=? 16 * 1024 * 1024) with true by (symmetry; apply Z.leb_le; lia).
  replace (_ <=? u32_max) with true by (symmetry; apply Z.leb_le; unfold u32_max; lia).
  unfold write_all, next. rewrite Hi. cbn [ios content].
  destruct (IH {| content := (content w ++ u32_be_bytes (len part)) ++ part; ios := [] |}
    {| total_bytes := total_bytes progress + len part |}) as (w' & p' & -> & Hi' & Ht'); [done|done|cbn; lia|].
  exists w', p'. split_and!; [done..|]. cbn in Ht'. lia.
Qed.

Lemma send_chunks_total w (chunks : list bytes) progress :
  ios w = [] -> Forall (fun c => c <> []) chunks -> total_bytes progress + len (concat chunks) <= MAX_HTTP_BODY_BYTES ->
  exists w', send_chunks w (Ok <$> chunks) progress = (w', Ok tt) /\ ios w' = [].
Proof.
  revert w progress. induction chunks as [|chunk chunks IH]; intros w progress Hi Hne Ht; [by exists w|].
  apply Forall_cons in Hne as [Hc Hne]. cbn [concat] in Ht. rewrite len_app in Ht.
  pose proof (len_nonneg (concat chunks)). cbn [fmap list_fmap send_chunks]. unfold write_http_body_chunk.
  rewrite bool_decide_eq_false_2 by done. cbn [negb]. fold (parts_of chunk).
  destruct (write_parts_total w (parts_of chunk) progress) as (w' & p' & -> & Hi' & Ht'); [done|apply parts_of_ok| |].
  { rewrite parts_of_concat. lia. }
  rewrite parts_of_concat in Ht'. apply IH; [done|done|lia].
Qed.

Lemma delivered_ok (chunks : list bytes) : delivered (Ok <$> chunks) = concat chunks.
Proof. unfold delivered. f_equal. by induction chunks as [|c l IH]; cbn; [|f_equal]. Qed.

Lemma complete_ok (chunks : list bytes) : complete (Ok <$> chunks) = true.
Proof. by induction chunks. Qed.

(** C29. A body crosses a stream unchanged.  Whatever stops the sender, the
    network or the receiver, and wherever, the bytes the receiver hands on are a
    beginning of the body; it reports the end only when it has handed on all of
    it.  With nothing in the way a body without empty chunks of at most 16 MiB
    is sent, and what is sent is received, to the last byte. *)
Theorem body_faithful (writer reader : Pipe) (body : list (Result bytes)) :
  let sent := send_body writer body in
  let items := receive_body reader in
  (forall x, content sent.1 = content writer ++ x -> content reader `prefix_of` x ->
     delivered items `prefix_of` delivered body /\
     (complete items = true -> delivered items = delivered body) /\
     (sent.2 = Ok tt -> content reader = x -> ios reader = [] ->
        complete items = true /\ len (delivered body) <= MAX_HTTP_BODY_BYTES)) /\
  (forall chunks, body = Ok <$> chunks -> ios writer = [] -> Forall (fun c => c <> []) chunks ->
     len (concat chunks) <= MAX_HTTP_BODY_BYTES -> sent.2 = Ok tt).
Proof.
  intros sent items. subst sent items. split.
  - intros x Hx Hpre. destruct (send_body writer body) as [w' r] eqn:Hs. cbn [fst snd] in *.
    apply send_body_spec in Hs as (x' & parts & E & Hx' & Hok & Hp & Hall & Hr).
    rewrite E in Hx. apply app_inv_head in Hx as ->.
    assert (content reader `prefix_of` frames parts ++ TERMINATOR ++ []) as Hpre'.
    { rewrite app_nil_r. by etrans. }
    destruct (body_stream_spec parts (S (length (content reader))) reader default_progress [] Hok Hpre') as [H1 H2]; [lia|].
    fold (receive_body reader) in H1, H2. split_and!.
    + by etrans.
    + intros Hc. destruct (H2 Hc) as [-> Hw]. apply Hall. by etrans.
    + intros -> Hc Hi. destruct (Hr eq_refl) as [-> Hm]. unfold receive_body.
      erewrite (body_stream_total parts _ reader default_progress []); [|done| |done|lia|done].
      * split; [apply complete_ok|]. rewrite <- Hall; done.
      * by rewrite app_nil_r.
  - intros chunks -> Hi Hne Hm. unfold send_body.
    destruct (send_chunks_total writer chunks default_progress) as (w' & -> & Hi'); [done..|].
    unfold finish_http_body, write_all, flush, next. by rewrite Hi'.
Qed.

Lemma body_faithful_witness :
  let writer := {| content := []; ios := [] |} in
  let body := Ok <$> [as_bytes "hel"; as_bytes "lo"] in
  delivered (receive_body {| content := content (send_body writer body).1; ios := [] |}) = as_bytes "hello".
Proof.
  intros writer body.
  destruct (proj1 (body_faithful writer {| content := content (send_body writer body).1; ios := [] |} body) _
    eq_refl ltac:(done)) as (_ & Hall & Hc).
  apply Hall. apply Hc; done.
Defined.
End Body.
