(* ===== verification/WorkloadControl.v ===== *)
(** * Workload control messages (shared/protocol/src/workload_control.rs,
      machine/envelope.rs)

    Every control message of the workload plane is a typed payload sealed into a
    signed envelope that names its sender, its recipient, a nonce and a time.
    Accepting one checks all of it against the authenticated transport and the
    replay registry of the receiver. *)

From S2P Require Import Prelude Net Crypto Signed ReplayRegistry EndpointRecord Registration WorkloadStream.

Module Envelope.
Import Crypto.

Definition MAX_ENVELOPE_DRIFT_MS : Z := 30000.
Definition MAX_ENVELOPE_BYTES : Z := 68 * 1024.
Definition ENVELOPE_SIGNATURE_ALGORITHM : string := "ed25519".
Definition ENVELOPE_VERSION : Z := 1.

Record Envelope := {
  version : Z;
  payload : bytes;
  payload_type : string;
  nonce : string;
  ts_millis : Z;
  alg : string;
  sender_id : string;
  recipient_id : string;
  sender_signing_pubkey : string;
  sender_kem_pubkey : string;
  signature : string
}.

Definition set_signature (s : string) (e : Envelope) : Envelope :=
  {| version := version e; payload := payload e; payload_type := payload_type e; nonce := nonce e;
     ts_millis := ts_millis e; alg := alg e; sender_id := sender_id e; recipient_id := recipient_id e;
     sender_signing_pubkey := sender_signing_pubkey e; sender_kem_pubkey := sender_kem_pubkey e; signature := s |}.

Record EnvelopeParts := {
  part_payload : bytes;
  part_payload_type : string;
  part_nonce : string;
  part_ts_millis : Z;
  part_sender_id : string;
  part_recipient_id : string;
  part_sender_signing_pubkey : bytes;
  part_sender_kem_pubkey : option bytes
}.

Section Envelope.
Context {P : Primitives} {C : Postcard Envelope}.

Definition canonical_bytes (e : Envelope) : Result bytes :=
  ok_or (to_allocvec (set_signature "" e)) "serialize envelope canonical form".

Definition unsigned_envelope (parts : EnvelopeParts) : Envelope :=
  {| version := ENVELOPE_VERSION; payload := part_payload parts; payload_type := part_payload_type parts;
     nonce := part_nonce parts; ts_millis := part_ts_millis parts; alg := ENVELOPE_SIGNATURE_ALGORITHM;
     sender_id := part_sender_id parts; recipient_id := part_recipient_id parts;
     sender_signing_pubkey := b64_encode (part_sender_signing_pubkey parts);
     sender_kem_pubkey := default "" (b64_encode <$> part_sender_kem_pubkey parts);
     signature := "" |}.

Definition seal (parts : EnvelopeParts) (signing_private : bytes) : Result Envelope :=
  let envelope := unsigned_envelope parts in
  canonical ← canonical_bytes envelope;
  signature ← sign_domain signing_private WorkloadEnvelope canonical;
  Ok (set_signature (b64_encode signature) envelope).

Definition to_bytes_with_limit (e : Envelope) (max_bytes : Z) : Result bytes :=
  b ← ok_or (to_allocvec e) "serialize envelope";
  ensure! len b <=? max_bytes else Err "envelope is over the byte limit" ;;
  Ok b.

Definition to_bytes (e : Envelope) : Result bytes := to_bytes_with_limit e MAX_ENVELOPE_BYTES.

Definition decode_with_limit (b : bytes) (max_bytes : Z) : Result Envelope :=
  ensure! len b <=? max_bytes else Err "envelope is over the byte limit" ;;
  ok_or (from_postcard b) "decode envelope".

Definition sender_signing_key (e : Envelope) : Result bytes := b64_decode (sender_signing_pubkey e).

Definition sender_kem_key (e : Envelope) : Result (option bytes) :=
  if str_is_empty (sender_kem_pubkey e) then Ok None else
  key ← b64_decode (sender_kem_pubkey e);
  Ok (Some key).

Definition verify_signature (e : Envelope) : Result unit :=
  signing_key ← sender_signing_key e;
  signature ← b64_decode (signature e);
  canonical ← canonical_bytes e;
  verify_domain signing_key WorkloadEnvelope canonical signature.
End Envelope.
End Envelope.

Module Control.
Import Crypto Stream Envelope.

Definition ENDPOINT_ID_LEN : Z := 64.

(** ** Stream phases *)
Inductive WorkloadStreamPhase := AwaitingControlEnvelope | ControlAccepted | OperationAuthorized | Raw | Complete.

#[export] Instance WorkloadStreamPhase_eq_dec : EqDecision WorkloadStreamPhase.
Proof. solve_decision. Defined.

Definition accept_control (phase : WorkloadStreamPhase) : WorkloadStreamPhase * Result unit :=
  ensure! bool_decide (phase = AwaitingControlEnvelope)
    else (phase, Err "control envelope is not expected in this stream phase") ;;
  (ControlAccepted, Ok tt).

Definition authorize (phase : WorkloadStreamPhase) : WorkloadStreamPhase * Result unit :=
  ensure! bool_decide (phase = ControlAccepted)
    else (phase, Err "operation authorization requires accepted control") ;;
  (OperationAuthorized, Ok tt).

Definition enter_raw (phase : WorkloadStreamPhase) : WorkloadStreamPhase * Result unit :=
  ensure! bool_decide (phase = OperationAuthorized)
    else (phase, Err "raw stream requires authorized control") ;;
  (Raw, Ok tt).

Definition enter_websocket (phase : WorkloadStreamPhase) (upgrade_requested : bool) (status_code : Z)
    (upgrade_accepted : bool) : WorkloadStreamPhase * Result unit :=
  ensure! upgrade_requested && upgrade_accepted && (status_code =? 101)
    else (phase, Err "WebSocket raw mode requires an accepted status 101 transition") ;;
  enter_raw phase.

(** ** Payload types *)
Inductive WorkloadPayloadType :=
| HandshakeRequest | HandshakeResponse
| RegistrationRequest | RegistrationResponse
| ProxyDiscoveryRequest | ProxyDiscoveryResponse
| IngressRequest | IngressResponse
| EgressRequest | EgressResponse
| ProxyAnnouncementRequest | ProxyAnnouncementResponse
| PeerRequest | PeerResponse.

#[export] Instance WorkloadPayloadType_eq_dec : EqDecision WorkloadPayloadType.
Proof. solve_decision. Defined.

Definition ALL : list WorkloadPayloadType :=
  [HandshakeRequest; HandshakeResponse; RegistrationRequest; RegistrationResponse; ProxyDiscoveryRequest;
   ProxyDiscoveryResponse; IngressRequest; IngressResponse; EgressRequest; EgressResponse;
   ProxyAnnouncementRequest; ProxyAnnouncementResponse; PeerRequest; PeerResponse].

Definition wire_name (t : WorkloadPayloadType) : string :=
  match t with
  | HandshakeRequest => "podmesh.workload.handshake.request.v1"
  | HandshakeResponse => "podmesh.workload.handshake.response.v1"
  | RegistrationRequest => "podmesh.workload.registration.request.v1"
  | RegistrationResponse => "podmesh.workload.registration.response.v1"
  | ProxyDiscoveryRequest => "podmesh.workload.discovery.request.v1"
  | ProxyDiscoveryResponse => "podmesh.workload.discovery.response.v1"
  | IngressRequest => "podmesh.workload.ingress.request.v1"
  | IngressResponse => "podmesh.workload.ingress.response.v1"
  | EgressRequest => "podmesh.workload.egress.request.v1"
  | EgressResponse => "podmesh.workload.egress.response.v1"
  | ProxyAnnouncementRequest => "podmesh.workload.announcement.request.v1"
  | ProxyAnnouncementResponse => "podmesh.workload.announcement.response.v1"
  | PeerRequest => "podmesh.peer.control.request.v1"
  | PeerResponse => "podmesh.peer.control.response.v1"
  end.

Definition from_wire_name (value : string) : option WorkloadPayloadType :=
  List.find (fun t => bool_decide (wire_name t = value)) ALL.

Definition frame_kind (t : WorkloadPayloadType) : WorkloadStreamKind :=
  match t with
  | HandshakeRequest | HandshakeResponse | PeerRequest | PeerResponse => Stream.Handshake
  | RegistrationRequest | RegistrationResponse => Stream.Registration
  | ProxyDiscoveryRequest | ProxyDiscoveryResponse => Stream.ProxyDiscovery
  | IngressRequest | IngressResponse => Stream.Ingress
  | EgressRequest | EgressResponse => Stream.Egress
  | ProxyAnnouncementRequest | ProxyAnnouncementResponse => Stream.ProxyAnnouncement
  end.

Definition payload_limit (t : WorkloadPayloadType) : Z :=
  match frame_kind t with
  | Stream.Handshake => MAX_HANDSHAKE_PAYLOAD_BYTES
  | Stream.Registration => MAX_REGISTRATION_PAYLOAD_BYTES
  | Stream.ProxyDiscovery => MAX_PROXY_DISCOVERY_PAYLOAD_BYTES
  | Stream.Ingress => MAX_INGRESS_PAYLOAD_BYTES
  | Stream.Egress => MAX_EGRESS_CONTROL_PAYLOAD_BYTES
  | Stream.ProxyAnnouncement => MAX_PROXY_ANNOUNCEMENT_PAYLOAD_BYTES
  end.

Definition envelope_limit (t : WorkloadPayloadType) : Z := payload_limit t + WORKLOAD_ENVELOPE_OVERHEAD_BYTES.

Definition response (t : WorkloadPayloadType) : option WorkloadPayloadType :=
  match t with
  | HandshakeRequest => Some HandshakeResponse
  | RegistrationRequest => Some RegistrationResponse
  | ProxyDiscoveryRequest => Some ProxyDiscoveryResponse
  | IngressRequest => Some IngressResponse
  | EgressRequest => Some EgressResponse
  | ProxyAnnouncementRequest => Some ProxyAnnouncementResponse
  | PeerRequest => Some PeerResponse
  | _ => None
  end.

Definition is_request (t : WorkloadPayloadType) : bool := bool_decide (is_Some (response t)).

(** The trait of the payloads. *)
Class WorkloadPayload (T : Type) := {
  TYPE : WorkloadPayloadType;
  payload_validate : T -> Z -> Result unit
}.

Record WorkloadEnvelopeParts := {
  nonce : string;
  now_millis : Z;
  sender_id : string;
  recipient_id : string;
  sender_signing_public : bytes;
  sender_signing_private : bytes;
  sender_kem_public : option bytes
}.

Record AcceptedWorkloadPayload (T : Type) := {
  accepted_payload : T;
  accepted_type : WorkloadPayloadType;
  accepted_signing_key : bytes;
  accepted_kem_key : option bytes;
  accepted_nonce : string;
  timestamp_millis : Z
}.
Arguments accepted_payload {T} _.
Arguments accepted_type {T} _.
Arguments accepted_signing_key {T} _.
Arguments accepted_kem_key {T} _.
Arguments accepted_nonce {T} _.
Arguments timestamp_millis {T} _.

Definition validate_endpoint_id (value name : string) : Result unit :=
  ensure! (str_len value =? ENDPOINT_ID_LEN) &&
          Net.all_char (fun b => Net.is_ascii_digit b || in_range 97 102 (Net.code b)) value
    else Err ("workload envelope " +:+ name +:+ " endpoint id is invalid") ;;
  Ok tt.

Definition validate_key (key : bytes) (name : string) : Result unit :=
  ensure! len key =? ED25519_PUBLIC_KEY_SIZE
    else Err ("workload envelope " +:+ name +:+ " key length is invalid") ;;
  Ok tt.

(** The text of a refusal by the replay registry. *)
Definition replay_message (e : Replay.replay_error) : string :=
  match e with
  | Replay.PeerIdEmpty => "replay peer id is empty"
  | Replay.NonceEmpty => "envelope nonce is empty"
  | Replay.NonceTooLong => "envelope nonce exceeds configured byte limit"
  | Replay.ReplayDetected => "envelope replay detected"
  | Replay.PeerLimitRange => "replay peer limit is outside its allowed range"
  | Replay.NonceLimitRange => "replay per-peer nonce limit is outside its allowed range"
  | Replay.NonceByteRange => "replay nonce byte limit is outside its allowed range"
  | Replay.RetentionRange => "replay retention is outside its allowed range"
  end.

Section Control.
Context {P : Primitives} {CE : Postcard Envelope}.

Definition validate_canonical_key (value name : string) : Result unit :=
  decoded ← b64_decode value;
  _ ← validate_key decoded name;
  ensure! bool_decide (b64_encode decoded = value)
    else Err ("workload envelope " +:+ name +:+ " key is not canonical Base64") ;;
  Ok tt.

Definition validate_canonical_signature (value : string) : Result unit :=
  ensure! negb (str_is_empty value) else Err "workload envelope is unsigned" ;;
  decoded ← b64_decode value;
  ensure! len decoded =? ED25519_SIGNATURE_SIZE else Err "workload envelope signature length is invalid" ;;
  ensure! bool_decide (b64_encode decoded = value)
    else Err "workload envelope signature is not canonical Base64" ;;
  Ok tt.

Section Payload.
Context {T : Type} {CT : Postcard T} {W : WorkloadPayload T}.

Definition seal_workload_payload (parts : WorkloadEnvelopeParts) (payload : T) : Result bytes :=
  _ ← validate_endpoint_id (sender_id parts) "sender";
  _ ← validate_endpoint_id (recipient_id parts) "recipient";
  ensure! negb (str_is_empty (nonce parts)) && (str_len (nonce parts) <=? 128)
    else Err "workload envelope nonce length is invalid" ;;
  _ ← validate_key (sender_signing_public parts) "signing";
  _ ← match sender_kem_public parts with Some key => validate_key key "KEM" | None => Ok tt end;
  _ ← payload_validate payload (now_millis parts / 1000);
  payload ← ok_or (to_allocvec payload) "serialize workload payload";
  ensure! len payload <=? payload_limit TYPE else Err "workload payload exceeds its type limit" ;;
  envelope ← seal
    {| part_payload := payload; part_payload_type := wire_name TYPE; part_nonce := nonce parts;
       part_ts_millis := now_millis parts; part_sender_id := sender_id parts;
       part_recipient_id := recipient_id parts; part_sender_signing_pubkey := sender_signing_public parts;
       part_sender_kem_pubkey := sender_kem_public parts |} (sender_signing_private parts);
  to_bytes_with_limit envelope (envelope_limit TYPE).

(** Everything before the replay registry is asked. *)
Definition check_envelope (b : bytes) (local_id authenticated_remote_id : string) (now : Z)
    (limits : Replay.ReplayLimits) : Result Envelope :=
  _ ← validate_endpoint_id local_id "local";
  _ ← validate_endpoint_id authenticated_remote_id "remote";
  envelope ← decode_with_limit b (envelope_limit TYPE);
  ensure! version envelope =? ENVELOPE_VERSION else Err "unsupported workload envelope version" ;;
  ensure! bool_decide (alg envelope = ENVELOPE_SIGNATURE_ALGORITHM)
    else Err "unsupported workload envelope algorithm" ;;
  ensure! bool_decide (from_wire_name (payload_type envelope) = Some TYPE)
    else Err "unexpected workload payload type" ;;
  ensure! bool_decide (Envelope.sender_id envelope = authenticated_remote_id)
    else Err "workload envelope sender does not match transport" ;;
  ensure! bool_decide (Envelope.recipient_id envelope = local_id)
    else Err "workload envelope recipient does not match local endpoint" ;;
  ensure! Z.abs (now - ts_millis envelope) <=? MAX_ENVELOPE_DRIFT_MS
    else Err "workload envelope timestamp is outside drift window" ;;
  ensure! negb (str_is_empty (Envelope.nonce envelope)) &&
          (str_len (Envelope.nonce envelope) <=? Replay.max_nonce_bytes limits)
    else Err "workload envelope nonce length is invalid" ;;
  _ ← validate_canonical_key (sender_signing_pubkey envelope) "signing";
  _ ← (if str_is_empty (sender_kem_pubkey envelope) then Ok tt
       else validate_canonical_key (sender_kem_pubkey envelope) "KEM");
  _ ← validate_canonical_signature (signature envelope);
  _ ← verify_signature envelope;
  Ok envelope.

(** What follows: the nonce is spent by now. *)
Definition open_payload (envelope : Envelope) (now : Z) : Result (AcceptedWorkloadPayload T) :=
  ensure! len (Envelope.payload envelope) <=? payload_limit TYPE
    else Err "workload payload exceeds its type limit" ;;
  payload ← ok_or (from_postcard (Envelope.payload envelope)) "decode workload payload";
  _ ← payload_validate payload (now / 1000);
  signing_key ← sender_signing_key envelope;
  kem_key ← sender_kem_key envelope;
  Ok {| accepted_payload := payload; accepted_type := TYPE; accepted_signing_key := signing_key;
        accepted_kem_key := kem_key; accepted_nonce := Envelope.nonce envelope;
        timestamp_millis := ts_millis envelope |}.

Definition accept_workload_payload (b : bytes) (local_id authenticated_remote_id : string) (now : Z)
    (limits : Replay.ReplayLimits) (replay : Replay.ReplayState) (observed_at : Z)
    : Replay.ReplayState * Result (AcceptedWorkloadPayload T) :=
  try! envelope := check_envelope b local_id authenticated_remote_id now limits in replay ;;
  let (replay, r) := Replay.check_and_insert limits replay authenticated_remote_id (Envelope.nonce envelope) observed_at in
  match r with
  | Err e => (replay, Err (replay_message e))
  | Ok _ => (replay, open_payload envelope now)
  end.

(** ** What is checked *)
Lemma check_envelope_inv b local remote now limits e :
  check_envelope b local remote now limits = Ok e ->
  from_postcard b = Some e /\ from_wire_name (payload_type e) = Some TYPE /\
  Envelope.sender_id e = remote /\ Envelope.recipient_id e = local /\
  Z.abs (now - ts_millis e) <= MAX_ENVELOPE_DRIFT_MS /\ verify_signature e = Ok tt.
Proof.
  unfold check_envelope. intros Hc. Signed.result_steps Hc. injection Hc as <-. bool_props.
  unfold decode_with_limit in Hx1. Signed.result_steps Hx1. unfold ok_or in Hx1.
  destruct (from_postcard b); [|done]. injection Hx1 as ->. done.
Qed.

Lemma accepted_inv b local remote now limits replay observed replay' a :
  accept_workload_payload b local remote now limits replay observed = (replay', Ok a) ->
  exists e, check_envelope b local remote now limits = Ok e /\
    Replay.check_and_insert limits replay remote (Envelope.nonce e) observed = (replay', Ok tt) /\
    open_payload e now = Ok a.
Proof.
  unfold accept_workload_payload. destruct (check_envelope _ _ _ _ _) as [e|] eqn:He; [|done].
  destruct (Replay.check_and_insert _ _ _ _ _) as [st [[]|err]] eqn:Hr; [|done].
  intros [= <- Ho]. exists e. done.
Qed.

(** Accepting leaves the registry alone or records one nonce of the sender. *)
Lemma accept_registry b local remote now limits replay observed :
  (accept_workload_payload b local remote now limits replay observed).1 = replay \/
  exists n, (accept_workload_payload b local remote now limits replay observed).1 =
    Replay.serve limits replay {| Replay.req_peer := remote; Replay.req_nonce := n; Replay.req_now := observed |}.
Proof.
  unfold accept_workload_payload. destruct (check_envelope _ _ _ _ _) as [e|]; [|by left]. right.
  exists (Envelope.nonce e). unfold Replay.serve. cbn.
  by destruct (Replay.check_and_insert _ _ _ _ _) as [st [[]|err]].
Qed.
End Payload.

(** ** Types *)
Lemma from_wire_name_spec s t : from_wire_name s = Some t <-> wire_name t = s.
Proof.
  unfold from_wire_name. split.
  - intros [_ Hf]%find_some. by apply bool_decide_eq_true in Hf.
  - intros <-. by destruct t.
Qed.

Lemma open_payload_inv {T} `{Postcard T} `{WorkloadPayload T} e now (a : AcceptedWorkloadPayload T) :
  open_payload e now = Ok a ->
  from_postcard (Envelope.payload e) = Some (accepted_payload a) /\
  payload_validate (accepted_payload a) (now / 1000) = Ok tt /\ accepted_type a = TYPE /\
  b64_decode (sender_signing_pubkey e) = Ok (accepted_signing_key a) /\
  accepted_nonce a = Envelope.nonce e /\ timestamp_millis a = ts_millis e /\
  len (Envelope.payload e) <= payload_limit TYPE.
Proof.
  unfold open_payload, sender_signing_key. intros Ho. Signed.result_steps Ho. injection Ho as <-. bool_props. cbn.
  unfold ok_or in Hx. destruct (from_postcard _); [|done]. by injection Hx as ->.
Qed.

(** C7. An accepted message is authentic.  Its envelope carries a signature, by
    the application key reported with it, over the envelope itself with payload,
    type, nonce and time; it was written for this receiver, by the peer the
    transport authenticated, at most thirty seconds away from the local clock.
    The payload is the one in the envelope, valid and within its limit, and the
    same bytes are never accepted as a payload of another type. *)
Theorem accepted_authentic {T} {CT : Postcard T} {W : WorkloadPayload T} b local remote now limits replay observed replay'
    (a : AcceptedWorkloadPayload T) :
  accept_workload_payload b local remote now limits replay observed = (replay', Ok a) ->
  (exists e canonical sig,
     from_postcard b = Some e /\
     canonical_bytes e = Ok canonical /\ b64_decode (signature e) = Ok sig /\
     ed_verify_strict (accepted_signing_key a) (bind WorkloadEnvelope canonical) sig = true /\
     Envelope.sender_id e = remote /\ Envelope.recipient_id e = local /\ payload_type e = wire_name TYPE /\
     Z.abs (now - ts_millis e) <= MAX_ENVELOPE_DRIFT_MS /\
     from_postcard (Envelope.payload e) = Some (accepted_payload a) /\ len (Envelope.payload e) <= payload_limit TYPE) /\
  payload_validate (accepted_payload a) (now / 1000) = Ok tt /\
  (forall T' (CT' : Postcard T') (W' : WorkloadPayload T') local' remote' now' limits' st observed',
     @TYPE T W <> @TYPE T' W' ->
     exists err, (accept_workload_payload (T := T') b local' remote' now' limits' st observed').2 = Err err).
Proof.
  intros (e & Hc & _ & Ho)%accepted_inv. pose proof Hc as (Hdec & Htype & Hs & Hr & Hdrift & Hsig)%check_envelope_inv.
  apply open_payload_inv in Ho as (Hp & Hv & _ & Hkey & _ & _ & Hlen). split_and!; [|done|].
  - unfold verify_signature, sender_signing_key in Hsig. rewrite Hkey, Signed.bind_eq in Hsig.
    apply Signed.bind_ok in Hsig as (sig & Hs1 & Hsig). apply Signed.bind_ok in Hsig as (canonical & Hcan & Hsig).
    exists e, canonical, sig. apply from_wire_name_spec in Htype. split_and!; try done.
    by eapply verify_domain_inv.
  - intros T' CT' W' local' remote' now' limits' st observed' Hne. unfold accept_workload_payload.
    destruct (check_envelope (T := T') _ _ _ _ _) as [e'|err] eqn:Hc'; [|by exists err].
    exfalso. apply check_envelope_inv in Hc' as (Hdec' & Htype' & _). congruence.
Qed.
End Control.

(** ** Sealed messages are accepted, once *)
Section Accepted.
Context {P : Primitives} {L : PrimitiveLaws P} {CE : Postcard Envelope} {CEL : PostcardLaws Envelope CE}.
Context {T : Type} {CT : Postcard T} {CTL : PostcardLaws T CT} {W : WorkloadPayload T}.

Lemma endpoint_id_ok value name name' :
  validate_endpoint_id value name = Ok tt -> validate_endpoint_id value name' = Ok tt.
Proof. unfold validate_endpoint_id. by case_match. Qed.

Lemma canonical_key_ok key name :
  validate_key key name = Ok tt -> validate_canonical_key (b64_encode key) name = Ok tt.
Proof.
  intros Hk. unfold validate_canonical_key. rewrite b64_roundtrip, Signed.bind_eq, Hk, Signed.bind_eq.
  by rewrite bool_decide_eq_true_2.
Qed.

Lemma b64_encode_nonempty b : 0 < len b -> str_is_empty (b64_encode b) = false.
Proof.
  intros Hb. apply bool_decide_eq_false. intros Heq. pose proof (base64_len b) as [Hl _].
  unfold b64_encode in Heq. rewrite Heq in Hl. cbn in Hl. unfold str_len in Hl. cbn in Hl. lia.
Qed.

Lemma canonical_signature_ok sig : len sig = 64 -> validate_canonical_signature (b64_encode sig) = Ok tt.
Proof.
  intros Hs. unfold validate_canonical_signature. rewrite b64_encode_nonempty by lia. cbn [negb].
  rewrite b64_roundtrip, Signed.bind_eq. rewrite Hs. cbn. by rewrite bool_decide_eq_true_2.
Qed.

Lemma check_and_insert_nonce l st p n t st' :
  Replay.check_and_insert l st p n t = (st', Ok tt) ->
  negb (str_is_empty n) && (str_len n <=? Replay.max_nonce_bytes l) = true.
Proof.
  unfold Replay.check_and_insert. destruct (negb (str_is_empty p)); [|done].
  destruct (negb (str_is_empty n)); [|done]. by destruct (str_len n <=? _).
Qed.

(** What sealing produces. *)
Lemma seal_inv (parts : WorkloadEnvelopeParts) (payload : T) b :
  sender_signing_public parts = ed_public (sender_signing_private parts) ->
  ed_key_weak (sender_signing_public parts) = false ->
  seal_workload_payload parts payload = Ok b ->
  exists e encoded,
    decode_with_limit b (envelope_limit TYPE) = Ok e /\ verify_signature e = Ok tt /\
    validate_canonical_signature (signature e) = Ok tt /\
    version e = ENVELOPE_VERSION /\ alg e = ENVELOPE_SIGNATURE_ALGORITHM /\ payload_type e = wire_name TYPE /\
    Envelope.sender_id e = sender_id parts /\ Envelope.recipient_id e = recipient_id parts /\
    ts_millis e = now_millis parts /\ Envelope.nonce e = nonce parts /\
    sender_signing_pubkey e = b64_encode (sender_signing_public parts) /\
    sender_kem_pubkey e = default "" (b64_encode <$> sender_kem_public parts) /\
    Envelope.payload e = encoded /\ to_allocvec payload = Some encoded /\ len encoded <= payload_limit TYPE.
Proof.
  intros Hpk Hweak. unfold seal_workload_payload. intros Hs. Signed.result_steps Hs.
  rename Hx4 into Henc, x into encoded, Hx5 into Hseal, x0 into e. unfold ok_or in Henc.
  destruct (to_allocvec payload) as [enc|] eqn:Hto; [|done]. injection Henc as ->.
  exists e, encoded. unfold to_bytes_with_limit in Hs. Signed.result_steps Hs. injection Hs as ->.
  unfold ok_or in Hx4. destruct (to_allocvec e) as [eb|] eqn:Heb; [|done]. injection Hx4 as ->.
  unfold decode_with_limit. rewrite Hc1, (postcard_roundtrip _ _ Heb). unfold seal in Hseal.
  apply Signed.bind_ok in Hseal as (canonical & Hcan & Hseal). apply Signed.bind_ok in Hseal as (sig & Hsig & [= <-]).
  destruct (sign_verify_domain _ _ _ _ ltac:(by rewrite <- Hpk) Hsig) as [Hver Hsl].
  split; [done|]. split.
  { unfold verify_signature, sender_signing_key.
    change (canonical_bytes (set_signature (b64_encode sig) (unsigned_envelope ?u)))
      with (canonical_bytes (unsigned_envelope u)).
    cbn [set_signature unsigned_envelope sender_signing_pubkey signature part_sender_signing_pubkey].
    by rewrite !b64_roundtrip, !Signed.bind_eq, Hcan, Signed.bind_eq, Hpk. }
  split; [by apply canonical_signature_ok|]. bool_props. done.
Qed.

Lemma check_envelope_sealed (parts : WorkloadEnvelopeParts) (payload : T) b now limits :
  sender_signing_public parts = ed_public (sender_signing_private parts) ->
  ed_key_weak (sender_signing_public parts) = false ->
  seal_workload_payload parts payload = Ok b ->
  Z.abs (now - now_millis parts) <= MAX_ENVELOPE_DRIFT_MS ->
  negb (str_is_empty (nonce parts)) && (str_len (nonce parts) <=? Replay.max_nonce_bytes limits) = true ->
  payload_validate payload (now / 1000) = Ok tt ->
  exists e, check_envelope b (recipient_id parts) (sender_id parts) now limits = Ok e /\
    Envelope.nonce e = nonce parts /\
    open_payload e now = Ok {| accepted_payload := payload; accepted_type := TYPE;
      accepted_signing_key := sender_signing_public parts; accepted_kem_key := sender_kem_public parts;
      accepted_nonce := nonce parts; timestamp_millis := now_millis parts |}.
Proof.
  intros Hpk Hweak Hseal Hdrift Hnonce Hval.
  destruct (seal_inv parts payload b Hpk Hweak Hseal)
    as (e & encoded & Hdec & Hver & Hcs & Hv & Ha & Ht & Hs & Hr & Hts & Hn & Hsk & Hkem & Hpay & Hto & Hlen).
  unfold seal_workload_payload in Hseal. Signed.result_steps Hseal. exists e. split_and!; [|done|].
  - unfold check_envelope. rewrite (endpoint_id_ok _ _ "local" Hx0), (endpoint_id_ok _ _ "remote" Hx), !Signed.bind_eq, Hdec,
       Signed.bind_eq, Hv, Ha, Ht, Hs, Hr, Hts, Hn, Hsk, Hkem.
    rewrite (proj2 (from_wire_name_spec (wire_name TYPE) TYPE) eq_refl), !bool_decide_eq_true_2 by done.
    change (ENVELOPE_VERSION =? ENVELOPE_VERSION) with true. cbn [negb].
    replace (_ <=? MAX_ENVELOPE_DRIFT_MS) with true by (symmetry; apply Z.leb_le; lia).
    rewrite Hnonce, canonical_key_ok by done. rewrite Signed.bind_eq, Hcs, Hver.
    destruct (sender_kem_public parts) as [kem|]; [change (default "" (b64_encode <$> Some kem)) with (b64_encode kem)|done].
    rewrite canonical_key_ok by done. by case_match.
  - unfold open_payload. rewrite Hpay. replace (len encoded <=? _) with true by (symmetry; apply Z.leb_le; lia).
    rewrite (postcard_roundtrip _ _ Hto). cbn [ok_or]. rewrite Signed.bind_eq, Hval, Signed.bind_eq.
    unfold sender_signing_key, sender_kem_key. rewrite Hsk, Hkem, b64_roundtrip, Signed.bind_eq, Hn, Hts.
    destruct (sender_kem_public parts) as [kem|]; [change (default "" (b64_encode <$> Some kem)) with (b64_encode kem)|done].
    unfold validate_key in Hx2. Signed.result_steps Hx2. bool_props. unfold ED25519_PUBLIC_KEY_SIZE in *.
    rewrite b64_encode_nonempty by lia. by rewrite b64_roundtrip.
Qed.

(** C36. A sealed message arrives.  What a sender with a key pair seals for a
    recipient is accepted there within thirty seconds either way of the sender's
    clock, provided the payload is valid by the recipient's clock and its nonce
    is new to the registry: the payload, the keys, the nonce and the time are the
    sender's. *)
Theorem sealed_accepted (parts : WorkloadEnvelopeParts) (payload : T) b now limits replay replay' observed :
  sender_signing_public parts = ed_public (sender_signing_private parts) ->
  ed_key_weak (sender_signing_public parts) = false ->
  seal_workload_payload parts payload = Ok b ->
  Z.abs (now - now_millis parts) <= MAX_ENVELOPE_DRIFT_MS ->
  payload_validate payload (now / 1000) = Ok tt ->
  Replay.check_and_insert limits replay (sender_id parts) (nonce parts) observed = (replay', Ok tt) ->
  accept_workload_payload b (recipient_id parts) (sender_id parts) now limits replay observed =
  (replay', Ok {| accepted_payload := payload; accepted_type := TYPE;
                  accepted_signing_key := sender_signing_public parts; accepted_kem_key := sender_kem_public parts;
                  accepted_nonce := nonce parts; timestamp_millis := now_millis parts |}).
Proof.
  intros Hpk Hweak Hseal Hdrift Hval Hins.
  destruct (check_envelope_sealed parts payload b now limits Hpk Hweak Hseal Hdrift
    (check_and_insert_nonce _ _ _ _ _ _ Hins) Hval) as (e & Hc & Hn & Ho).
  unfold accept_workload_payload. by rewrite Hc, Hn, Hins, Ho.
Qed.
End Accepted.

(** C8. A message is accepted at most once.  After a receiver accepted an
    envelope, the same bytes are refused for good: while the registry retains
    the nonce as a replay, and later because their time has left the drift
    window.  This holds whatever other messages arrive in between, as long as
    the peer sends fewer than the registry keeps for it and other peers do not
    fill the registry, and as long as the wall clock does not fall behind the
    monotonic one by more than the retention exceeds the sixty seconds of the
    window. *)
Theorem accepted_once {P : Primitives} {CE : Postcard Envelope} {T T' : Type}
    {CT : Postcard T} {W : WorkloadPayload T} {CT' : Postcard T'} {W' : WorkloadPayload T'}
    b local remote now0 now1 limits replay0 replay1 t0 t1 (a : AcceptedWorkloadPayload T) mid :
  Replay.limits_valid limits -> Replay.state_wf limits replay0 ->
  accept_workload_payload b local remote now0 limits replay0 t0 = (replay1, Ok a) ->
  Forall (fun r => Replay.req_now r <= t1) mid ->
  len (Replay.from_peer remote mid) < Replay.nonces_per_peer limits ->
  map_len (Replay.peers replay1) + len (Replay.from_others remote mid) <= Replay.max_peers limits ->
  (t1 - t0) - (now1 - now0) * 1000000 < Replay.retention limits - from_secs 60 ->
  exists err, (accept_workload_payload (T := T') b local remote now1 limits (Replay.serve_all limits replay1 mid) t1).2 = Err err.
Proof.
  intros Hv Hwf Hacc Hmid Hp Ho Hclock. apply accepted_inv in Hacc as (e & Hc & Hins & _).
  apply check_envelope_inv in Hc as (Hdec & _ & _ & _ & Hd0 & _).
  unfold accept_workload_payload. destruct (check_envelope (T := T') _ _ _ _ _) as [e'|err] eqn:Hc'; [|by exists err].
  apply check_envelope_inv in Hc' as (Hdec' & _ & _ & _ & Hd1 & _).
  assert (e' = e) as -> by congruence. unfold MAX_ENVELOPE_DRIFT_MS, from_secs in *.
  assert (t1 - t0 < Replay.retention limits) as Ht by lia.
  pose proof (Replay.refused_again limits replay0 replay1 remote (Envelope.nonce e) t0 t1 mid Hv Hwf Hins) as Href.
  destruct (Replay.check_and_insert _ (Replay.serve_all _ _ _) _ _ _) as [st r]. cbn in Href. rewrite Href; [by eexists| |done..].
  eapply Forall_impl; [exact Hmid|]. cbn. intros r0 Hr0. lia.
Qed.
End Control.
