(* ===== verification/Routes.v ===== *)
(** * The proxy's routing table (podmesh-proxy/src/routes.rs)

    Registration of sidecar routes under their owner, selection of a backend
    with rotation, host resolution and pruning.  The lock is never poisoned in
    the model, since no modelled operation panics while holding it; the gauges
    [refresh_metrics] sets are left out. *)

From S2P Require Import Prelude Net Crypto Signed RustOrd Registration.
From Stdlib Require Import Ascii.

Module Routes.
Import Net RustOrd Registration.

Record Backend := {
  peer_id : string;
  backend_routes : list SidecarRoute;
  registered_at : Z
}.

Record RouteTarget := {
  target_replica : Z;
  target_peer : string;
  target_port : Z
}.

Record SidecarRouteEntry := {
  entry_owner : string;
  entry_workload : string;
  entry_replicas : Z;
  backends : gmap Z Backend;
  cursor : Z
}.

Record HostClaim := {
  claim_manifest : string;
  claim_owner : string;
  claimed_at : Z
}.

Record Inner := {
  by_manifest : gmap string SidecarRouteEntry;
  host_claims : gmap string HostClaim
}.

Definition new_table : Inner := {| by_manifest := ∅; host_claims := ∅ |}.

(** ** Choosing a port *)

Definition matches (path : string) (request_host : option string) (r : SidecarRoute) : bool :=
  starts_with (path_prefix r) path &&
  match host r, request_host with
  | None, _ => true
  | Some h, Some request => eq_ignore_ascii_case h request
  | Some _, None => false
  end.

(** The order of the key [(host.is_some(), path_prefix.len(), Reverse(port))]. *)
Definition compare_routes (a b : SidecarRoute) : comparison :=
  then_with (Z.compare (Z.b2z (bool_decide (is_Some (host a)))) (Z.b2z (bool_decide (is_Some (host b)))))
  (then_with (Z.compare (str_len (path_prefix a)) (str_len (path_prefix b)))
             (Z.compare (port b) (port a))).

(** [path.split('?').next().unwrap_or(path)] *)
Definition normalize_path (path : string) : string :=
  match split "?"%char path with p :: _ => p | [] => path end.

Definition select_route_port (routes : list SidecarRoute) (path : string) (request_host : option string)
    : option Z :=
  port <$> max_by compare_routes (list_retain (matches (normalize_path path) request_host) routes).

(** ** Registration *)

Definition claim_blocked (claims : gmap string HostClaim) (owner : string) (h : string) : bool :=
  match claims !! to_ascii_lowercase h with
  | Some claim => negb (bool_decide (claim_owner claim = owner))
  | None => false
  end.

Definition hosts_of (r : SidecarRegistration) : list string := omap host (routes r).

Definition register_inner (t : Inner) (r : SidecarRegistration) (at_millis max_entries : Z)
    : Inner * result string unit :=
  ensure! negb match by_manifest t !! manifest_id r with
               | Some existing => negb (bool_decide (entry_owner existing = owner_pubkey r))
               | None => false
               end
    else (t, Err "manifest belongs to another owner") ;;
  ensure! negb (negb (contains_key (manifest_id r) (by_manifest t)) &&
                (max_entries <=? map_len (by_manifest t)))
    else (t, Err "proxy sidecar route capacity reached") ;;
  ensure! negb (existsb (claim_blocked (host_claims t) (owner_pubkey r)) (hosts_of r))
    else (t, Err "host is already claimed by another owner") ;;
  let claim := {| claim_manifest := manifest_id r; claim_owner := owner_pubkey r; claimed_at := at_millis |} in
  let claims := fold_left (fun cs h => <[to_ascii_lowercase h := claim]> cs) (hosts_of r) (host_claims t) in
  let entry := match by_manifest t !! manifest_id r with
               | Some e => e
               | None => {| entry_owner := owner_pubkey r; entry_workload := workload_name r;
                            entry_replicas := replica_count r; backends := ∅; cursor := 0 |}
               end in
  let backend := {| peer_id := sidecar_peer_id r; backend_routes := routes r; registered_at := at_millis |} in
  let entry := {| entry_owner := entry_owner entry; entry_workload := entry_workload entry;
                  entry_replicas := replica_count r;
                  backends := <[replica_index r := backend]> (backends entry);
                  cursor := cursor entry |} in
  ({| by_manifest := <[manifest_id r := entry]> (by_manifest t); host_claims := claims |}, Ok tt).

(** ** Selection *)

(** Iterating a [BTreeMap] goes by ascending key. *)
Definition btree_iter (m : gmap Z Backend) : list (Z * Backend) :=
  sort_unstable (fun a b => Z.compare a.1 b.1) (map_to_list m).

Definition candidates (e : SidecarRouteEntry) (path : string) (request_host : option string)
    : list RouteTarget :=
  omap (fun ib => (fun p => {| target_replica := ib.1; target_peer := peer_id ib.2; target_port := p |})
                    <$> select_route_port (backend_routes ib.2) path request_host)
    (btree_iter (backends e)).

(** [AtomicUsize::fetch_add] wraps around. *)
Definition bump (e : SidecarRouteEntry) : SidecarRouteEntry :=
  {| entry_owner := entry_owner e; entry_workload := entry_workload e;
     entry_replicas := entry_replicas e; backends := backends e;
     cursor := (cursor e + 1) mod (usize_max + 1) |}.

Definition select (t : Inner) (manifest : string) (path : string) (request_host : option string)
    : Inner * list RouteTarget :=
  match by_manifest t !! manifest with
  | None => (t, [])
  | Some e =>
    let cs := candidates e path request_host in
    if bool_decide (cs = []) then (t, [])
    else
      let start := Z.to_nat (cursor e mod len cs) in
      ({| by_manifest := <[manifest := bump e]> (by_manifest t); host_claims := host_claims t |},
       drop start cs ++ take start cs)
  end.

Definition backend_count (t : Inner) (manifest : string) : Z :=
  match by_manifest t !! manifest with Some e => map_len (backends e) | None => 0 end.

Definition contains (t : Inner) (manifest : string) : bool := 0 <? backend_count t manifest.

Definition resolve_host (t : Inner) (h : string) : option string :=
  claim_manifest <$> host_claims t !! to_ascii_lowercase h.

(** ** Pruning *)
Definition stale (now_millis ttl_millis at_millis : Z) : bool :=
  ttl_millis <? saturating_sub now_millis at_millis.

Definition prune_entry (now ttl : Z) (e : SidecarRouteEntry) : SidecarRouteEntry :=
  {| entry_owner := entry_owner e; entry_workload := entry_workload e; entry_replicas := entry_replicas e;
     backends := map_retain (fun _ b => negb (stale now ttl (registered_at b))) (backends e);
     cursor := cursor e |}.

(** [ttl] in milliseconds, within [u64]. *)
Definition prune_inner (t : Inner) (now_millis ttl_millis : Z) : Inner :=
  {| by_manifest := map_retain (fun _ e => negb (bool_decide (backends e = ∅)))
       (prune_entry now_millis ttl_millis <$> by_manifest t);
     host_claims := map_retain (fun _ c => negb (stale now_millis ttl_millis (claimed_at c))) (host_claims t) |}.

Definition table_len (t : Inner) : Z := map_len (by_manifest t).

Definition total_backends (t : Inner) : Z :=
  foldr (fun ie acc => map_len (backends ie.2) + acc) 0 (map_to_list (by_manifest t)).

Definition summary (t : Inner) : list (string * string * Z * Z) :=
  (fun ie => (ie.1, entry_workload ie.2, map_len (backends ie.2), entry_replicas ie.2))
    <$> map_to_list (by_manifest t).

(** ** Properties of the port choice *)

#[local] Instance compare_routes_laws : CompareLaws compare_routes.
Proof.
  unfold compare_routes. repeat apply then_with_laws.
  - apply (key_laws (fun r => Z.b2z (bool_decide (is_Some (host r)))) Z.compare _).
  - apply (key_laws (fun r => str_len (path_prefix r)) Z.compare _).
  - split; intros.
    + apply Z.compare_antisym.
    + rewrite Z.compare_lt_iff in *. lia.
    + by apply Z.compare_eq in H as ->.
Qed.

(** What not being preferred means. *)
Lemma compare_routes_le r' r :
  cmp_le compare_routes r' r ->
  (is_Some (host r') -> is_Some (host r)) /\
  ((is_Some (host r) <-> is_Some (host r')) ->
     str_len (path_prefix r') < str_len (path_prefix r) \/
     (str_len (path_prefix r') = str_len (path_prefix r) /\ port r <= port r')).
Proof.
  unfold cmp_le, compare_routes, then_with. intros H.
  destruct (bool_decide_reflect (is_Some (host r'))), (bool_decide_reflect (is_Some (host r)));
    cbn in H; try done; (split; [done|]); try tauto; intros _; revert H;
    destruct (Z.compare_spec (str_len (path_prefix r')) (str_len (path_prefix r)));
    rewrite ?Z.compare_ngt_iff; (lia || naive_solver).
Qed.

(** The port serving a request is that of a route that matches it, and no
    matching route is preferred to it: a host-scoped route beats a host-agnostic
    one, then a longer path prefix wins, then a lower port.  There is no port
    exactly when no route matches. *)
Theorem select_route_port_best (routes : list SidecarRoute) (path : string) (request_host : option string) :
  match select_route_port routes path request_host with
  | Some p => exists r, r ∈ routes /\ matches (normalize_path path) request_host r = true /\ port r = p /\
      forall r', r' ∈ routes -> matches (normalize_path path) request_host r' = true ->
        (is_Some (host r') -> is_Some (host r)) /\
        ((is_Some (host r) <-> is_Some (host r')) ->
           str_len (path_prefix r') < str_len (path_prefix r) \/
           (str_len (path_prefix r') = str_len (path_prefix r) /\ p <= port r'))
  | None => forall r, r ∈ routes -> matches (normalize_path path) request_host r = false
  end.
Proof.
  unfold select_route_port.
  destruct (max_by compare_routes _) as [r|] eqn:Hm; cbn.
  - apply (max_by_spec compare_routes) in Hm as [Hin Hbest].
    apply elem_of_list_retain in Hin as [Hin Hr]. exists r. split_and!; [done..|].
    intros r' Hin' Hr'. apply compare_routes_le, Hbest. by apply elem_of_list_retain.
  - apply max_by_none in Hm. intros r Hin. apply not_true_iff_false. intros Hr.
    assert (r ∈ list_retain (matches (normalize_path path) request_host) routes)
      as Hx by by apply elem_of_list_retain. rewrite Hm in Hx. by apply elem_of_nil in Hx.
Qed.

(** ** Ownership *)

Lemma claims_lookup claim hs (cs : gmap string HostClaim) k :
  fold_left (fun cs h => <[to_ascii_lowercase h := claim]> cs) hs cs !! k =
  if decide (k ∈ to_ascii_lowercase <$> hs) then Some claim else cs !! k.
Proof.
  revert cs. induction hs as [|h hs IH]; intros cs; [done|]. cbn [fold_left fmap list_fmap].
  rewrite IH. destruct (decide (k ∈ to_ascii_lowercase <$> hs)) as [Hk|Hk].
  - by rewrite decide_True by (right; done).
  - destruct (decide (k = to_ascii_lowercase h)) as [->|Hne].
    + rewrite decide_True by left. apply lookup_insert_eq.
    + rewrite decide_False by (by intros [?|?]%elem_of_cons). by rewrite lookup_insert_ne.
Qed.

Lemma claim_blocked_false claims owner h :
  claim_blocked claims owner h = false <->
  forall c, claims !! to_ascii_lowercase h = Some c -> claim_owner c = owner.
Proof.
  unfold claim_blocked. destruct (claims !! _) as [c|]; [|naive_solver].
  case_bool_decide; naive_solver.
Qed.

Lemma hosts_unblocked claims owner hs :
  existsb (claim_blocked claims owner) hs = false <->
  forall h c, h ∈ hs -> claims !! to_ascii_lowercase h = Some c -> claim_owner c = owner.
Proof.
  induction hs as [|h hs IH]; cbn; [set_solver|].
  rewrite orb_false_iff, IH, claim_blocked_false. set_solver.
Qed.

(** When a registration is accepted. *)
Definition may_register (t : Inner) (r : SidecarRegistration) (max_entries : Z) : Prop :=
  (forall e, by_manifest t !! manifest_id r = Some e -> entry_owner e = owner_pubkey r) /\
  (by_manifest t !! manifest_id r = None -> table_len t < max_entries) /\
  (forall h c, h ∈ hosts_of r -> host_claims t !! to_ascii_lowercase h = Some c ->
     claim_owner c = owner_pubkey r).

Lemma register_accepts t r now max_entries :
  is_ok (register_inner t r now max_entries).2 = true <-> may_register t r max_entries.
Proof.
  unfold register_inner, may_register, table_len.
  destruct (by_manifest t !! manifest_id r) as [e|] eqn:He.
  - rewrite (proj2 (contains_key_true _ _)) by eauto. cbn [negb andb].
    case_bool_decide as Ho; cbn [negb]; [|naive_solver].
    destruct (existsb _ _) eqn:Hx; cbn; [rewrite <- not_false_iff_true in Hx|];
      rewrite hosts_unblocked in Hx; naive_solver.
  - rewrite (proj2 (contains_key_false _ _)) by done. cbn [negb andb].
    destruct (Z.leb_spec max_entries (map_len (by_manifest t))); cbn [negb].
    { split; [done|]. intros (_ & Hlt & _). specialize (Hlt eq_refl). lia. }
    destruct (existsb _ _) eqn:Hx; cbn; [rewrite <- not_false_iff_true in Hx|];
      rewrite hosts_unblocked in Hx; naive_solver.
Qed.

(** The table after an accepted registration. *)
Lemma register_effect t r now max_entries :
  is_ok (register_inner t r now max_entries).2 = true ->
  let t' := (register_inner t r now max_entries).1 in
  (exists e', by_manifest t' = <[manifest_id r := e']> (by_manifest t) /\
     entry_owner e' = owner_pubkey r /\
     backends e' !! replica_index r =
       Some {| peer_id := sidecar_peer_id r; backend_routes := routes r; registered_at := now |} /\
     (forall i, i <> replica_index r -> backends e' !! i =
        match by_manifest t !! manifest_id r with Some e => backends e !! i | None => None end)) /\
  (forall k, host_claims t' !! k =
     if decide (k ∈ to_ascii_lowercase <$> hosts_of r)
     then Some {| claim_manifest := manifest_id r; claim_owner := owner_pubkey r; claimed_at := now |}
     else host_claims t !! k).
Proof.
  intros Hok. pose proof (proj1 (register_accepts _ _ _ _) Hok) as (Hown & _ & _). revert Hok.
  unfold register_inner. repeat (case_match; try done). all: intros _; cbv zeta; cbn [fst by_manifest host_claims].
  all: split; [|intros k; apply claims_lookup].
  all: eexists; split; [done|]; cbn [entry_owner backends]; rewrite lookup_insert_eq.
  all: split_and!; [naive_solver|done|]; intros i Hi; by rewrite lookup_insert_ne by congruence.
Qed.

Lemma register_err t r now max_entries :
  is_ok (register_inner t r now max_entries).2 = false -> (register_inner t r now max_entries).1 = t.
Proof. unfold register_inner. repeat (case_match; try done). Qed.

(** [t'] is [t] with the replica of [r] registered: its backend beside those of
    its siblings, under its owner, its hostnames resolving to it, and every other
    routing key and hostname as before. *)
Record registered (t : Inner) (r : SidecarRegistration) (now : Z) (t' : Inner) : Prop := {
  registered_backend : exists e, by_manifest t' !! manifest_id r = Some e /\ entry_owner e = owner_pubkey r /\
    backends e !! replica_index r =
      Some {| peer_id := sidecar_peer_id r; backend_routes := routes r; registered_at := now |} /\
    forall i, i <> replica_index r -> backends e !! i =
      match by_manifest t !! manifest_id r with Some old => backends old !! i | None => None end;
  registered_keys m : m <> manifest_id r -> by_manifest t' !! m = by_manifest t !! m;
  registered_hosts h : h ∈ hosts_of r -> resolve_host t' h = Some (manifest_id r);
  registered_claims h : h ∉ to_ascii_lowercase <$> hosts_of r -> host_claims t' !! h = host_claims t !! h
}.

Lemma register_registered t r now max_entries :
  is_ok (register_inner t r now max_entries).2 = true -> registered t r now (register_inner t r now max_entries).1.
Proof.
  intros Hok. destruct (register_effect t r now max_entries Hok) as ((e & Hm & Ho & Hb & Hsib) & Hc). cbv zeta in *. split.
  - exists e. rewrite Hm, lookup_insert_eq. split_and!; [done..|]. intros i Hi. by apply Hsib.
  - intros m Hne. by rewrite Hm, lookup_insert_ne by congruence.
  - intros h Hin. unfold resolve_host. rewrite Hc, decide_True; [done|]. apply list_elem_of_fmap. eauto.
  - intros h Hin. by rewrite Hc, decide_False.
Qed.


(** ** Runs *)
Inductive Op :=
| Register (r : SidecarRegistration) (now : Z)
| Select (m path : string) (h : option string)
| Prune (now ttl : Z).

Definition step (max_entries : Z) (t : Inner) (op : Op) : Inner :=
  match op with
  | Register r now => (register_inner t r now max_entries).1
  | Select m path h => (select t m path h).1
  | Prune now ttl => prune_inner t now ttl
  end.

Definition run (max_entries : Z) (ops : list Op) : Inner := fold_left (step max_entries) ops new_table.

(** Registration times that never go back. *)
Fixpoint monotone (clock : Z) (ops : list Op) : bool :=
  match ops with
  | [] => true
  | Register _ now :: rest => (clock <=? now) && monotone now rest
  | _ :: rest => monotone clock rest
  end.

Record table_wf (max_entries clock : Z) (t : Inner) : Prop := {
  wf_room : table_len t <= max_entries;
  wf_live : forall m e, by_manifest t !! m = Some e -> backends e <> ∅;
  wf_claims : forall h c, host_claims t !! h = Some c ->
    claimed_at c <= clock /\
    exists e i b, by_manifest t !! claim_manifest c = Some e /\ entry_owner e = claim_owner c /\
      backends e !! i = Some b /\ claimed_at c <= registered_at b
}.

Lemma register_table_wf max_entries clock t r now :
  clock <= now -> table_wf max_entries clock t ->
  table_wf max_entries now (register_inner t r now max_entries).1.
Proof.
  intros Hclock [Hroom Hlive Hclaims]. destruct (is_ok (register_inner t r now max_entries).2) eqn:Hok.
  2: { rewrite register_err by done. split; [done..|]. intros h c Hc.
       destruct (Hclaims _ _ Hc) as [? ?]. split; [lia|done]. }
  destruct (register_effect _ _ _ _ Hok) as ((e' & Hm & Ho & Hb & Hsib) & Hc).
  destruct (proj1 (register_accepts _ _ _ _) Hok) as (Hown & Hcap & _). cbv zeta in *.
  split.
  - unfold table_len in *. rewrite Hm. destruct (by_manifest t !! manifest_id r) eqn:E.
    + rewrite map_len_insert_old by eauto. done.
    + rewrite map_len_insert_new by done. specialize (Hcap eq_refl). lia.
  - rewrite Hm. intros m e [[<- <-]|[_ Hl]]%lookup_insert_Some; [|eauto].
    intros Hempty. by rewrite Hempty, lookup_empty in Hb.
  - intros h c. rewrite Hc, Hm. case_decide.
    + intros [= <-]. cbn. split; [lia|]. do 3 eexists. rewrite lookup_insert_eq.
      split_and!; [done..|exact Hb|cbn; lia].
    + intros Hl. destruct (Hclaims _ _ Hl) as (Hle & e & i & b & He & Hoc & Hbi & Hbt).
      split; [lia|]. destruct (decide (claim_manifest c = manifest_id r)) as [Heq|Hne].
      * rewrite Heq in *. exists e'. rewrite lookup_insert_eq.
        assert (entry_owner e' = claim_owner c) by (rewrite Ho, <- Hoc; symmetry; eauto).
        destruct (decide (i = replica_index r)) as [->|Hi].
        -- do 2 eexists. split_and!; [done..|exact Hb|cbn; lia].
        -- exists i, b. split_and!; [done..| |done]. rewrite Hsib by done. by rewrite He.
      * exists e, i, b. by rewrite lookup_insert_ne by congruence.
Qed.

Lemma select_table_wf max_entries clock t m path h :
  table_wf max_entries clock t -> table_wf max_entries clock (select t m path h).1.
Proof.
  intros [Hroom Hlive Hclaims]. unfold select. destruct (by_manifest t !! m) as [e|] eqn:He; [|done].
  cbv zeta. case_bool_decide; [done|]. split; cbn.
  - unfold table_len in *. cbn. rewrite map_len_insert_old by eauto. done.
  - intros m' e' [[<- <-]|[_ Hl]]%lookup_insert_Some; cbn; eauto.
  - intros k c Hc. destruct (Hclaims _ _ Hc) as (Hle & e0 & i & b & He0 & Ho & Hb & Ht).
    split; [done|]. destruct (decide (claim_manifest c = m)) as [Heq|Hne].
    + exists (bump e), i, b. rewrite Heq, lookup_insert_eq in *. simplify_eq. done.
    + exists e0, i, b. by rewrite lookup_insert_ne by congruence.
Qed.

Lemma prune_lookup t now ttl m :
  by_manifest (prune_inner t now ttl) !! m =
  match by_manifest t !! m with
  | Some e => if bool_decide (backends (prune_entry now ttl e) = ∅) then None else Some (prune_entry now ttl e)
  | None => None
  end.
Proof.
  cbn [prune_inner by_manifest]. rewrite lookup_map_retain_if, lookup_fmap.
  destruct (by_manifest t !! m); cbn [fmap option_fmap option_map]; [|done]. by case_bool_decide.
Qed.

Lemma prune_table_wf max_entries clock t now ttl :
  table_wf max_entries clock t -> table_wf max_entries clock (prune_inner t now ttl).
Proof.
  intros [Hroom Hlive Hclaims]. split.
  - unfold table_len in *. cbn. etrans; [apply map_len_retain_le|].
    unfold map_len in *. by rewrite map_size_fmap.
  - intros m e. rewrite prune_lookup. destruct (by_manifest t !! m); [|done].
    case_bool_decide; [done|]. by intros [= <-].
  - intros h c. cbn [prune_inner host_claims]. rewrite lookup_map_retain.
    intros [Hl Hfresh]. destruct (Hclaims _ _ Hl) as (Hle & e & i & b & He & Ho & Hb & Ht).
    split; [done|]. exists (prune_entry now ttl e), i, b.
    assert (Hkeep : backends (prune_entry now ttl e) !! i = Some b).
    { cbn. apply lookup_map_retain. split; [done|].
      unfold stale, saturating_sub in *. apply negb_true_iff, Z.ltb_ge.
      apply negb_true_iff, Z.ltb_ge in Hfresh. lia. }
    rewrite prune_lookup, He, bool_decide_false; [done|].
    intros Hempty. by rewrite Hempty, lookup_empty in Hkeep.
Qed.

(** With registration times that do not go back, a hostname never dangles:
    if the table resolves a host, the routing key it resolves to is registered,
    by the owner of the claim, and has a live backend; and the table never holds
    more than its maximum of routing keys. *)
Theorem resolved_host_served (max_entries : Z) (ops : list Op) (h m : string)
    (Hmax : 0 <= max_entries) (Hclock : monotone 0 ops = true)
    (Hres : resolve_host (run max_entries ops) h = Some m) :
  table_len (run max_entries ops) <= max_entries /\ contains (run max_entries ops) m = true /\
  exists c e, host_claims (run max_entries ops) !! to_ascii_lowercase h = Some c /\
    by_manifest (run max_entries ops) !! m = Some e /\ entry_owner e = claim_owner c.
Proof.
  assert (Hwf : exists clock, table_wf max_entries clock (run max_entries ops)).
  { unfold run. assert (table_wf max_entries 0 new_table) as Hwf.
    { split; [by unfold table_len; cbn; rewrite map_len_empty|..]; intros ?; intros; set_solver. }
    revert Hclock Hwf. generalize 0 as clock, new_table as t. clear Hres Hmax.
    induction ops as [|[r now|m' path h'|now ttl] ops IH]; intros clock t Hclock Hwf; cbn in *; [eauto|..].
    - apply andb_true_iff in Hclock as [Hle Hclock]. apply (IH now); [done|].
      apply (register_table_wf _ clock); [lia|done].
    - eapply IH; [done|]. by apply select_table_wf.
    - eapply IH; [done|]. by apply prune_table_wf. }
  destruct Hwf as [clock [Hroom Hlive Hclaims]]. split; [done|].
  unfold resolve_host in Hres. destruct (host_claims _ !! _) as [c|] eqn:Hc; [|done].
  injection Hres as <-. destruct (Hclaims _ _ Hc) as (_ & e & i & b & He & Ho & Hb & _). split; [|eauto].
  unfold contains, backend_count. rewrite He. apply Z.ltb_lt.
  unfold map_len. assert (size (backends e) <> 0%nat); [|lia].
  rewrite map_size_ne_0_lookup. eauto.
Qed.

(** ** Rotation *)

(** The preferred targets of [n] consecutive requests. *)
Fixpoint first_targets (n : nat) (t : Inner) (m path : string) (h : option string) : list RouteTarget :=
  match n with
  | O => []
  | S n =>
      let r := select t m path h in
      match r.2 with
      | target :: _ => target :: first_targets n r.1 m path h
      | [] => first_targets n r.1 m path h
      end
  end.

Lemma select_rotates t m path h e :
  by_manifest t !! m = Some e -> candidates e path h <> [] ->
  select t m path h =
    ({| by_manifest := <[m := bump e]> (by_manifest t); host_claims := host_claims t |},
     drop (Z.to_nat (cursor e mod len (candidates e path h))) (candidates e path h) ++
     take (Z.to_nat (cursor e mod len (candidates e path h))) (candidates e path h)).
Proof. intros He Hne. unfold select. rewrite He. by rewrite bool_decide_false. Qed.

Lemma first_targets_length n t m path h e :
  by_manifest t !! m = Some e -> candidates e path h <> [] -> length (first_targets n t m path h) = n.
Proof.
  revert t e. induction n as [|n IH]; intros t e He Hne; [done|]. cbn [first_targets].
  rewrite (select_rotates _ _ _ _ e) by done. cbn [fst snd].
  destruct (drop _ _ ++ take _ _) as [|x l] eqn:Hrot.
  - destruct Hne. apply (f_equal length) in Hrot. rewrite length_app, length_drop, length_take in Hrot.
    cbn in Hrot. apply length_zero_iff_nil. lia.
  - cbn. f_equal. apply (IH _ (bump e)); [apply lookup_insert_eq|done].
Qed.

Lemma first_targets_lookup n t m path h e i :
  by_manifest t !! m = Some e -> candidates e path h <> [] ->
  0 <= cursor e -> cursor e + Z.of_nat n <= usize_max + 1 -> (i < n)%nat ->
  first_targets n t m path h !! i =
  candidates e path h !! Z.to_nat ((cursor e + Z.of_nat i) mod len (candidates e path h)).
Proof.
  revert t e i. induction n as [|n IH]; intros t e i He Hne Hc Hn Hi; [lia|]. cbn [first_targets].
  rewrite (select_rotates _ _ _ _ e) by done. cbn [fst snd].
  assert (Hlen : 0 < len (candidates e path h)).
  { unfold len. destruct (candidates e path h); [done|]. cbn. lia. }
  pose proof (Z.mod_pos_bound (cursor e) _ Hlen) as Hs.
  set (cs := candidates e path h) in *. set (s := Z.to_nat (cursor e mod len cs)).
  assert (Hhead : (drop s cs ++ take s cs) !! 0%nat = cs !! s).
  { rewrite lookup_app_l by (rewrite length_drop; unfold s, len in *; lia).
    rewrite lookup_drop. f_equal. lia. }
  destruct (drop s cs ++ take s cs) as [|x l] eqn:Hrot.
  { cbn in Hhead. symmetry in Hhead. apply lookup_ge_None in Hhead. unfold s, len in *. lia. }
  destruct i as [|i]; cbn.
  - by replace (cursor e + Z.of_nat 0) with (cursor e) by lia.
  - destruct (decide (n = 0%nat)) as [->|Hn0]; [lia|].
    rewrite (IH _ (bump e)); [|apply lookup_insert_eq|done|..|lia].
    + change (candidates (bump e) path h) with cs. cbn [bump cursor].
      rewrite (Z.mod_small (cursor e + 1)) by lia. do 3 f_equal. lia.
    + cbn. apply Z.mod_pos_bound. done.
    + cbn. rewrite Z.mod_small by lia. lia.
Qed.

(** Ingress shares requests fairly: each request gets every candidate
    backend exactly once, so it can fall through to the others, and over as many
    consecutive requests as there are candidates each one is preferred exactly
    once (while the request counter does not wrap). *)
Theorem select_fair (t : Inner) (m path : string) (h : option string) (e : SidecarRouteEntry)
    (He : by_manifest t !! m = Some e) (Hne : candidates e path h <> [])
    (Hcursor : 0 <= cursor e) (Hwrap : cursor e + len (candidates e path h) <= usize_max + 1) :
  (select t m path h).2 ≡ₚ candidates e path h /\
  first_targets (length (candidates e path h)) t m path h ≡ₚ candidates e path h.
Proof.
  set (cs := candidates e path h) in *.
  assert (Hrot : forall n, drop n cs ++ take n cs ≡ₚ cs).
  { intros n. rewrite Permutation_app_comm. by rewrite take_drop. }
  split; [rewrite (select_rotates _ _ _ _ e) by done; apply Hrot|].
  assert (Hlen : 0 < len cs) by (unfold len; destruct cs; [done|cbn; lia]).
  pose proof (Z.mod_pos_bound (cursor e) _ Hlen) as Hs.
  transitivity (drop (Z.to_nat (cursor e mod len cs)) cs ++ take (Z.to_nat (cursor e mod len cs)) cs);
    [|apply Hrot].
  match goal with |- ?a ≡ₚ ?b => enough (a = b) as Heq by by rewrite Heq end.
  apply (list_eq_same_length _ _ (length cs)); [|by apply (first_targets_length _ _ _ _ _ e)|].
  - rewrite length_app, length_drop, length_take. unfold len in *. lia.
  - intros i x y Hi. rewrite (first_targets_lookup _ _ _ _ _ e) by (done || unfold len in *; lia).
    fold cs. rewrite Z.add_mod, (Z.mod_small (Z.of_nat i)) by (unfold len in *; lia).
    set (s := cursor e mod len cs) in *. intros Hx Hy. unfold len in *.
    destruct (decide (s + Z.of_nat i < len cs)) as [Hlt|Hge]; unfold len in *.
    + rewrite Z.mod_small in Hx by lia.
      rewrite lookup_app_l, lookup_drop in Hy by (rewrite length_drop; lia).
      replace (Z.to_nat (s + Z.of_nat i)) with (Z.to_nat s + i)%nat in Hx by lia. congruence.
    + replace ((s + Z.of_nat i) mod Z.of_nat (length cs)) with (s + Z.of_nat i - Z.of_nat (length cs)) in Hx
        by (apply (Z.mod_unique _ _ 1); lia).
      rewrite lookup_app_r, length_drop in Hy by (rewrite length_drop; lia).
      rewrite lookup_take in Hy. case_decide; [|done].
      replace (Z.to_nat (s + Z.of_nat i - Z.of_nat (length cs))) with (i - (length cs - Z.to_nat s))%nat in Hx by lia.
      congruence.
Qed.

(** ** Witnesses *)
Import Registration.Sample.

(** Three replicas of one deployment, a request and a sweep. *)
Definition sample_ops : list Op :=
  [Register (registration 7 0 "a.example") 10; Register (registration 7 1 "a.example") 20;
   Register (registration 7 2 "a.example") 30; Register (registration 8 0 "A.example") 40;
   Select (manifest_id (registration 7 0 "a.example")) "/x?y" (Some "a.example"); Prune 115 100].
Definition sample_table : Inner := run 8 sample_ops.
Definition sample_entry : SidecarRouteEntry := {|
  entry_owner := owner_pubkey (registration 7 0 ""); entry_workload := "demo"; entry_replicas := 3;
  backends := {[ 1 := {| peer_id := "peer"; backend_routes := [route "a.example" 8080]; registered_at := 20 |};
                 2 := {| peer_id := "peer"; backend_routes := [route "a.example" 8080]; registered_at := 30 |} ]};
  cursor := 1 |}.

Lemma resolved_host_served_witness : contains sample_table (manifest_id (registration 7 0 "")) = true.
Proof.
  apply (resolved_host_served 8 sample_ops "a.EXAMPLE"); [discriminate|reflexivity|vm_compute; reflexivity].
Defined.

Lemma select_fair_witness :
  first_targets 2 sample_table (manifest_id (registration 7 0 "")) "/" (Some "a.example")
    ≡ₚ candidates sample_entry "/" (Some "a.example") /\
  length (candidates sample_entry "/" (Some "a.example")) = 2%nat.
Proof.
  split; [|vm_compute; reflexivity].
  apply (select_fair sample_table (manifest_id (registration 7 0 "")) "/" (Some "a.example") sample_entry);
    [vm_compute; reflexivity|vm_compute; discriminate|vm_compute; discriminate|vm_compute; discriminate].
Defined.

End Routes.
