(* ===== verification/Biscuit.v ===== *)
(** * Biscuit tokens

    What the sources use of the biscuit-auth crate, as an interface, and the
    bridge of shared/protocol/src/biscuit_keys.rs.  A token is built from facts
    by a private key; verifying it means checking its signature chain against a
    root key and then evaluating a policy over the token's facts and the
    authorizer's. *)

From S2P Require Import Prelude Crypto.
From stdpp Require Import pretty.
From Stdlib Require Import Ascii.

Module Biscuit.
Import Crypto.

Inductive Term := Str (s : string) | Int (z : Z).
Record Fact := { fact_name : string; fact_args : list Term }.

Definition str_fact (name value : string) : Fact := {| fact_name := name; fact_args := [Str value] |}.
Definition int_fact (name : string) (value : Z) : Fact := {| fact_name := name; fact_args := [Int value] |}.
Definition pair_fact (name key value : string) : Fact :=
  {| fact_name := name; fact_args := [Str key; Str value] |}.

(** [u64::to_string]. *)
Definition u64_to_string (n : Z) : string := pretty (Z.to_N n).

Definition i64_max : Z := 2 ^ 63 - 1.

(** A string in double quotes, as the policies write their constants. *)
Definition quoted (s : string) : string := String.String "034"%char s +:+ String.String "034"%char EmptyString.

(** ** The facts and the policy of an identity token *)

Definition token_facts (role : string) (fields : list (string * string)) : list Fact :=
  str_fact "role" role :: ((fun kv => pair_fact "claim" kv.1 kv.2) <$> fields).

Definition expected_facts (fields : list (string * string)) : list Fact :=
  (fun kv => pair_fact "expected" kv.1 kv.2) <$> fields.

Fixpoint policy_clauses (index : Z) (fields : list (string * string)) : string :=
  match fields with
  | [] => ""
  | (key, _) :: rest =>
      ", claim(" +:+ quoted key +:+ ", $v" +:+ u64_to_string index +:+ "), expected(" +:+ quoted key +:+
      ", $v" +:+ u64_to_string index +:+ ")" +:+ policy_clauses (index + 1) rest
  end.

Definition identity_policy (role : string) (fields : list (string * string)) : string :=
  "allow if role(" +:+ quoted role +:+ ")" +:+ policy_clauses 0 fields +:+
  " trusting authority; deny if true;".

(** ** The crate *)
Class BiscuitAuth := {
  (** [KeyPair::from_bytes(..).public().to_bytes()] and [PublicKey::from_bytes] *)
  keypair_public : bytes -> option bytes;
  public_key_valid : bytes -> bool;
  (** [builder.build(&root)?.to_vec()?] *)
  biscuit_build : bytes -> list Fact -> option bytes;
  (** [Biscuit::from(bytes, root)] *)
  biscuit_from : bytes -> bytes -> bool;
  (** [authorize_with_limits]: token, authorizer facts, policy *)
  biscuit_authorize : bytes -> list Fact -> string -> bool
}.

(** Documented: a token verifies under the public key of the pair that built
    it, and a policy that asks for facts the token's authority block holds, and
    joins them with equal authorizer facts, allows it, whatever other
    authorizer facts there are. *)
Class BiscuitLaws (B : BiscuitAuth) : Prop := {
  keypair_public_valid sk pk : keypair_public sk = Some pk -> public_key_valid pk = true;
  build_from sk pk facts t :
    keypair_public sk = Some pk -> biscuit_build sk facts = Some t -> biscuit_from t pk = true;
  build_authorized sk role fields extra t :
    biscuit_build sk (token_facts role fields) = Some t ->
    biscuit_authorize t (expected_facts fields ++ extra) (identity_policy role fields) = true
}.

Section Keys.
Context {B : BiscuitAuth}.

Definition MAX_BISCUIT_TOKEN_BYTES : Z := 16 * 1024.
Definition MAX_AUTHZ_VALUE_LEN : Z := 256.

(** The public half of [biscuit_keypair_from_ed25519]. *)
Definition biscuit_keypair_public (private_key : bytes) : Result bytes :=
  ok_or (keypair_public private_key) "decode Biscuit Ed25519 private key".

Definition biscuit_public_key_from_ed25519 (public_key : bytes) : Result bytes :=
  if public_key_valid public_key then Ok public_key else Err "decode Biscuit Ed25519 public key".

End Keys.

(** An instance: keys are their own public halves, a token is its key and
    nothing more, and policies allow. *)
Module Toy.
#[export] Instance biscuit : BiscuitAuth := {|
  keypair_public := fun sk => Some sk;
  public_key_valid := fun _ => true;
  biscuit_build := fun sk _ => Some sk;
  biscuit_from := fun t pk => bool_decide (t = pk);
  biscuit_authorize := fun _ _ _ => true
|}.
#[export] Instance biscuit_laws : BiscuitLaws biscuit.
Proof.
  split; cbn; [done| |done]. intros sk pk facts t [= <-] [= <-]. by apply bool_decide_eq_true.
Qed.
End Toy.
End Biscuit.
