(* ===== verification/WorkloadIdentity.v ===== *)
(** * Workload identities (shared/protocol/src/workload_identity.rs)

    The two-token chain that ties a workload's transport and application keys
    to its namespace owner: an owner-signed enrollment delegation naming an
    issuer, and an issuer-signed identity under it. *)

From S2P Require Import Prelude Net Crypto Signed Registration Biscuit.
From Stdlib Require Import Ascii.

(** [serde_json::to_vec] and [from_slice] for a type. *)
Class Json (A : Type) := {
  to_json : A -> option bytes;
  from_json : bytes -> option A
}.
Class JsonLaws (A : Type) (J : Json A) : Prop :=
  json_roundtrip (a : A) (b : bytes) : to_json a = Some b -> from_json b = Some a.

Module Workload.
Import Crypto Net Biscuit.

Definition WORKLOAD_IDENTITY_VERSION : Z := 1.
Definition MAX_IDENTITY_TOKEN_BYTES : Z := 4096.
Definition MAX_DELEGATION_BYTES : Z := 6 * 1024.
Definition MAX_WORKLOAD_IDENTITY_BYTES : Z := 12 * 1024.
Definition MAX_IDENTITY_LIFETIME_SECS : Z := 3600.
Definition DEFAULT_IDENTITY_LIFETIME_SECS : Z := 3600.
Definition IDENTITY_RENEWAL_WINDOW_SECS : Z := 300.
Definition IDENTITY_CLOCK_SKEW_SECS : Z := 60.

Definition div_ceil (a b : Z) : Z := (a + b - 1) / b.

Section Helpers.
Context {P : Primitives} {B : BiscuitAuth}.

Definition public_key (value : string) : Result bytes :=
  ensure! str_len value <=? 44 else Err "public key encoding exceeds limit" ;;
  key ← b64_decode value;
  ensure! (len key =? 32) && bool_decide (b64_encode key = value) else Err "invalid identity public key" ;;
  Ok key.

Definition hex_id (value : string) : Result unit :=
  ensure! (str_len value =? 64) &&
          all_char (fun b => is_ascii_digit b || in_range 97 102 (code b)) value
    else Err "invalid identity digest/endpoint" ;;
  Ok tt.

Definition identity_encode {A} `{Json A} (value : A) (limit : Z) : Result bytes :=
  b ← ok_or (to_json value) "serialize workload identity";
  ensure! negb (bool_decide (b = [])) && (len b <=? limit) else Err "identity encoding exceeds limit" ;;
  Ok b.

Definition identity_decode {A} `{Json A} (value : bytes) (limit : Z) : Result A :=
  ensure! negb (bool_decide (value = [])) && (len value <=? limit)
    else Err "identity encoding exceeds limit" ;;
  ok_or (from_json value) "decode workload identity".

Definition decode_b64 {A} `{Json A} (value : string) (limit : Z) : Result A :=
  ensure! str_len value <=? div_ceil limit 3 * 4 else Err "identity base64 exceeds limit" ;;
  b ← b64_decode value; identity_decode b limit.

Definition mint_token (private : bytes) (role : string) (fields : list (string * string)) : Result string :=
  _ ← biscuit_keypair_public private;
  b ← ok_or (biscuit_build private (token_facts role fields)) "build identity Biscuit";
  ensure! len b <=? MAX_IDENTITY_TOKEN_BYTES else Err "identity Biscuit exceeds limit" ;;
  Ok (b64_encode b).

Definition verify_token (encoded : string) (root : bytes) (role : string)
    (fields : list (string * string)) (now : option Z) : Result unit :=
  ensure! str_len encoded <=? div_ceil MAX_IDENTITY_TOKEN_BYTES 3 * 4
    else Err "identity Biscuit encoding exceeds limit" ;;
  b ← b64_decode encoded;
  ensure! negb (bool_decide (b = [])) && (len b <=? MAX_IDENTITY_TOKEN_BYTES)
    else Err "invalid identity Biscuit size" ;;
  root_key ← biscuit_public_key_from_ed25519 root;
  ensure! biscuit_from b root_key else Err "verify identity Biscuit signature" ;;
  time_facts ← match now with
               | Some n => if n <=? i64_max then Ok [int_fact "time" n] else Err "out of range integral type conversion"
               | None => Ok []
               end;
  ensure! biscuit_authorize b (expected_facts fields ++ time_facts) (identity_policy role fields)
    else Err "identity Biscuit authorization failed" ;;
  Ok tt.

End Helpers.

(** ** Enrollment delegations *)
Record EnrollmentScope := {
  tenant_owner : string;
  scope_manifest_id : string;
  workload_id : string;
  revision_id : string;
  issuer_public_key_b64 : string;
  token_id : string;
  scope_issued_at_secs : Z;
  scope_expires_at_secs : option Z;
  max_child_lifetime_secs : Z
}.

Definition scope_fields (s : EnrollmentScope) : list (string * string) :=
  [("owner", tenant_owner s); ("manifest", scope_manifest_id s); ("workload", workload_id s);
   ("revision", revision_id s); ("issuer", issuer_public_key_b64 s); ("generation", token_id s);
   ("issued", u64_to_string (scope_issued_at_secs s));
   ("expires", match scope_expires_at_secs s with Some n => u64_to_string n | None => "standing" end);
   ("child_lifetime", u64_to_string (max_child_lifetime_secs s))].

Record EnrollmentDelegation := {
  delegation_version : Z;
  scope : EnrollmentScope;
  delegation_biscuit_b64 : string
}.

Record WorkloadIdentityClaims := {
  delegation_digest : string;
  claim_endpoint_id : string;
  signing_public_key_b64 : string;
  claims_issued_at_secs : Z;
  claims_expires_at_secs : Z
}.

Definition claims_fields (c : WorkloadIdentityClaims) : list (string * string) :=
  [("delegation", delegation_digest c); ("endpoint", claim_endpoint_id c);
   ("signer", signing_public_key_b64 c); ("issued", u64_to_string (claims_issued_at_secs c));
   ("expires", u64_to_string (claims_expires_at_secs c))].

Record WorkloadIdentity := {
  identity_version : Z;
  delegation : EnrollmentDelegation;
  claims : WorkloadIdentityClaims;
  identity_biscuit_b64 : string
}.

#[export] Instance scope_eq_dec : EqDecision EnrollmentScope.
Proof. solve_decision. Defined.
#[export] Instance delegation_eq_dec : EqDecision EnrollmentDelegation.
Proof. solve_decision. Defined.
#[export] Instance claims_eq_dec : EqDecision WorkloadIdentityClaims.
Proof. solve_decision. Defined.
#[export] Instance identity_eq_dec : EqDecision WorkloadIdentity.
Proof. solve_decision. Defined.

Definition is_ascii (s : string) : bool := all_char (fun c => code c <? 128) s.

Section Operations.
Context {P : Primitives} {B : BiscuitAuth} {H : Blake3}.
Context {JD : Json EnrollmentDelegation} {JI : Json WorkloadIdentity}.

Definition validate_scope (s : EnrollmentScope) : Result unit :=
  _ ← public_key (tenant_owner s);
  _ ← public_key (issuer_public_key_b64 s);
  _ ← hex_id (scope_manifest_id s);
  _ ← hex_id (workload_id s);
  _ ← hex_id (revision_id s);
  ensure! negb (str_is_empty (token_id s)) && (str_len (token_id s) <=? 128) && is_ascii (token_id s)
    else Err "invalid enrollment generation" ;;
  ensure! in_range 1 MAX_IDENTITY_LIFETIME_SECS (max_child_lifetime_secs s)
    else Err "invalid delegated child lifetime" ;;
  ensure! scope_issued_at_secs s <=? i64_max else Err "invalid delegation issue time" ;;
  match scope_expires_at_secs s with
  | Some expires =>
      ensure! (scope_issued_at_secs s <=? expires) && (expires <=? i64_max)
        else Err "invalid delegation expiry" ;;
      Ok tt
  | None => Ok tt
  end.

Definition verify_delegation (d : EnrollmentDelegation) (now : option Z) : Result unit :=
  ensure! delegation_version d =? WORKLOAD_IDENTITY_VERSION
    else Err "unsupported enrollment delegation version" ;;
  _ ← validate_scope (scope d);
  owner ← public_key (tenant_owner (scope d));
  _ ← verify_token (delegation_biscuit_b64 d) owner "workload_enrollment" (scope_fields (scope d)) now;
  match now with
  | Some now =>
      ensure! scope_issued_at_secs (scope d) <=? saturating_add u64_max now IDENTITY_CLOCK_SKEW_SECS
        else Err "delegation is not yet valid" ;;
      match scope_expires_at_secs (scope d) with
      | Some expires => ensure! now <=? expires else Err "enrollment delegation expired" ;; Ok tt
      | None => Ok tt
      end
  | None => Ok tt
  end.

Definition verify_scope (d : EnrollmentDelegation) (owner manifest workload : string)
    (issuer : option string) (now : option Z) : Result unit :=
  ensure! bool_decide (tenant_owner (scope d) = owner) && bool_decide (scope_manifest_id (scope d) = manifest) &&
          bool_decide (workload_id (scope d) = workload)
    else Err "enrollment delegation scope mismatch" ;;
  ensure! match issuer with
          | Some i => bool_decide (issuer_public_key_b64 (scope d) = i)
          | None => true
          end else Err "enrollment issuer mismatch" ;;
  verify_delegation d now.

Definition delegation_to_bytes (d : EnrollmentDelegation) : Result bytes :=
  identity_encode d MAX_DELEGATION_BYTES.
Definition digest (d : EnrollmentDelegation) : Result string :=
  b ← delegation_to_bytes d; Ok (blake3_hex b).
Definition delegation_to_b64 (d : EnrollmentDelegation) : Result string :=
  b ← delegation_to_bytes d; Ok (b64_encode b).
Definition delegation_from_b64 (value : string) : Result EnrollmentDelegation :=
  decode_b64 value MAX_DELEGATION_BYTES.

Definition mint_delegation (owner_private : bytes) (s : EnrollmentScope) (now : Z)
    : Result EnrollmentDelegation :=
  _ ← validate_scope s;
  pk ← biscuit_keypair_public owner_private;
  ensure! bool_decide (tenant_owner s = b64_encode pk) else Err "delegation owner signing key mismatch" ;;
  t ← mint_token owner_private "workload_enrollment" (scope_fields s);
  let value := {| delegation_version := WORKLOAD_IDENTITY_VERSION; scope := s;
                  delegation_biscuit_b64 := t |} in
  _ ← verify_delegation value (Some now);
  _ ← delegation_to_bytes value;
  Ok value.

(** ** Identities *)
Definition validate_claims (c : WorkloadIdentityClaims) : Result unit :=
  _ ← hex_id (delegation_digest c);
  _ ← hex_id (claim_endpoint_id c);
  _ ← public_key (signing_public_key_b64 c);
  ensure! (claims_issued_at_secs c <? claims_expires_at_secs c) && (claims_expires_at_secs c <=? i64_max)
    else Err "invalid identity validity window" ;;
  ensure! claims_expires_at_secs c - claims_issued_at_secs c <=? MAX_IDENTITY_LIFETIME_SECS
    else Err "identity lifetime exceeds limit" ;;
  Ok tt.

Definition verify_identity (i : WorkloadIdentity) (now : option Z) : Result unit :=
  ensure! identity_version i =? WORKLOAD_IDENTITY_VERSION
    else Err "unsupported workload identity version" ;;
  _ ← verify_delegation (delegation i) now;
  _ ← validate_claims (claims i);
  d ← digest (delegation i);
  ensure! bool_decide (delegation_digest (claims i) = d) else Err "identity delegation mismatch" ;;
  ensure! claims_expires_at_secs (claims i) - claims_issued_at_secs (claims i)
          <=? max_child_lifetime_secs (scope (delegation i))
    else Err "identity exceeds delegated lifetime" ;;
  ensure! scope_issued_at_secs (scope (delegation i))
          <=? saturating_add u64_max (claims_issued_at_secs (claims i)) IDENTITY_CLOCK_SKEW_SECS
    else Err "identity predates delegation" ;;
  ensure! match scope_expires_at_secs (scope (delegation i)) with
          | Some last => claims_expires_at_secs (claims i) <=? last
          | None => true
          end else Err "identity outlives delegation" ;;
  issuer ← public_key (issuer_public_key_b64 (scope (delegation i)));
  _ ← verify_token (identity_biscuit_b64 i) issuer "workload_identity" (claims_fields (claims i)) now;
  match now with
  | Some now =>
      ensure! (claims_issued_at_secs (claims i) <=? saturating_add u64_max now IDENTITY_CLOCK_SKEW_SECS) &&
              (now <=? claims_expires_at_secs (claims i))
        else Err "workload identity expired or not yet valid" ;;
      Ok tt
  | None => Ok tt
  end.

Definition verify_session (i : WorkloadIdentity) (owner manifest endpoint : string) (signing_key : bytes)
    (now : Z) : Result unit :=
  ensure! bool_decide (tenant_owner (scope (delegation i)) = owner) &&
          bool_decide (scope_manifest_id (scope (delegation i)) = manifest)
    else Err "workload identity tenant/scope mismatch" ;;
  ensure! bool_decide (claim_endpoint_id (claims i) = endpoint) else Err "workload identity transport mismatch" ;;
  ensure! bool_decide (signing_public_key_b64 (claims i) = b64_encode signing_key)
    else Err "workload identity application signer mismatch" ;;
  verify_identity i (Some now).

Definition identity_to_bytes (i : WorkloadIdentity) : Result bytes :=
  identity_encode i MAX_WORKLOAD_IDENTITY_BYTES.
Definition identity_to_b64 (i : WorkloadIdentity) : Result string :=
  b ← identity_to_bytes i; Ok (b64_encode b).
Definition identity_from_b64 (value : string) : Result WorkloadIdentity :=
  decode_b64 value MAX_WORKLOAD_IDENTITY_BYTES.
Definition identity_from_bytes (value : bytes) : Result WorkloadIdentity :=
  identity_decode value MAX_WORKLOAD_IDENTITY_BYTES.

Definition mint_identity (issuer_private : bytes) (d : EnrollmentDelegation) (endpoint_id signer : string)
    (now lifetime : Z) : Result WorkloadIdentity :=
  _ ← verify_delegation d (Some now);
  pk ← biscuit_keypair_public issuer_private;
  ensure! bool_decide (b64_encode pk = issuer_public_key_b64 (scope d))
    else Err "identity signing issuer mismatch" ;;
  ensure! in_range 1 (max_child_lifetime_secs (scope d)) lifetime else Err "child exceeds delegated lifetime" ;;
  ensure! now + lifetime <=? u64_max else Err "identity expiry overflow" ;;
  let expires := match scope_expires_at_secs (scope d) with
                 | Some last => Z.min last (now + lifetime)
                 | None => now + lifetime
                 end in
  dg ← digest d;
  let c := {| delegation_digest := dg; claim_endpoint_id := endpoint_id; signing_public_key_b64 := signer;
              claims_issued_at_secs := now; claims_expires_at_secs := expires |} in
  _ ← validate_claims c;
  t ← mint_token issuer_private "workload_identity" (claims_fields c);
  let value := {| identity_version := WORKLOAD_IDENTITY_VERSION; delegation := d; claims := c;
                  identity_biscuit_b64 := t |} in
  _ ← verify_identity value (Some now);
  _ ← identity_to_bytes value;
  Ok value.

(** ** What verification checks *)

(** Turns the boolean tests of a successful check into propositions. *)
Ltac tests :=
  repeat match goal with
  | H : (_ && _)%bool = true |- _ => apply andb_true_iff in H as [? ?]
  | H : (_ <=? _) = true |- _ => apply Z.leb_le in H
  | H : bool_decide _ = true |- _ => apply bool_decide_eq_true in H
  end.

Lemma verify_delegation_iff d t :
  verify_delegation d (Some t) = Ok tt <->
  delegation_version d = WORKLOAD_IDENTITY_VERSION /\ validate_scope (scope d) = Ok tt /\
  (exists owner, public_key (tenant_owner (scope d)) = Ok owner /\
     verify_token (delegation_biscuit_b64 d) owner "workload_enrollment" (scope_fields (scope d)) (Some t) = Ok tt) /\
  scope_issued_at_secs (scope d) <= saturating_add u64_max t IDENTITY_CLOCK_SKEW_SECS /\
  (forall last, scope_expires_at_secs (scope d) = Some last -> t <= last).
Proof.
  unfold verify_delegation. rewrite Signed.ensure_iff, Z.eqb_eq. apply and_iff_compat_l.
  destruct (validate_scope (scope d)) as [[]|]; [|split; [done|naive_solver]].
  destruct (public_key (tenant_owner (scope d))) as [owner|]; [|split; [done|naive_solver]].
  rewrite !Signed.bind_eq.
  destruct (verify_token _ _ _ _ _) as [[]|] eqn:Ht;
    [|split; [done|intros (_ & (o & [= <-] & Hv) & _); congruence]].
  rewrite Signed.bind_eq, Signed.ensure_iff, Z.leb_le.
  destruct (scope_expires_at_secs (scope d)) as [last|]; [rewrite Signed.ensure_iff, Z.leb_le|];
    (split; [intros (Hi & Hr); split_and!; [done|by exists owner|done|]; intros l [= <-]; apply Hr|]);
    intros (_ & _ & Hi & Hr); (split; [done|]); [split; [by apply Hr|done]|done].
Qed.

(** The checks of [verify] on an identity, apart from its delegation's. *)
Record identity_ok (i : WorkloadIdentity) (t : Z) : Prop := {
  ok_version : identity_version i = WORKLOAD_IDENTITY_VERSION;
  ok_delegation : verify_delegation (delegation i) (Some t) = Ok tt;
  ok_claims : validate_claims (claims i) = Ok tt;
  ok_digest : digest (delegation i) = Ok (delegation_digest (claims i));
  ok_lifetime : claims_expires_at_secs (claims i) - claims_issued_at_secs (claims i)
    <= max_child_lifetime_secs (scope (delegation i));
  ok_after : scope_issued_at_secs (scope (delegation i))
    <= saturating_add u64_max (claims_issued_at_secs (claims i)) IDENTITY_CLOCK_SKEW_SECS;
  ok_within : forall last, scope_expires_at_secs (scope (delegation i)) = Some last ->
    claims_expires_at_secs (claims i) <= last;
  ok_token : exists issuer, public_key (issuer_public_key_b64 (scope (delegation i))) = Ok issuer /\
    verify_token (identity_biscuit_b64 i) issuer "workload_identity" (claims_fields (claims i)) (Some t) = Ok tt;
  ok_issued : claims_issued_at_secs (claims i) <= saturating_add u64_max t IDENTITY_CLOCK_SKEW_SECS;
  ok_live : t <= claims_expires_at_secs (claims i)
}.

Lemma verify_identity_iff i t : verify_identity i (Some t) = Ok tt <-> identity_ok i t.
Proof.
  unfold verify_identity. rewrite Signed.ensure_iff, Z.eqb_eq, Signed.bind_tt_iff. split.
  - intros (H1 & [] & H2 & H0). Signed.result_inv H0. destruct x, x2. tests. split; try done.
    + congruence.
    + intros last Hlast. rewrite Hlast in Hc2. lia.
    + eauto.
  - intros [H1 H2 H3 H4 H5 H6 H7 (iss & H8 & H9) H10 H11]. split; [done|]. exists tt. split; [done|].
    rewrite H3, Signed.bind_eq, H4, Signed.bind_eq, bool_decide_true by done.
    rewrite !Signed.ensure_iff, H8, Signed.bind_eq, H9, Signed.bind_eq, Signed.ensure_iff, andb_true_iff, !Z.leb_le.
    split_and!; try done.
    destruct (scope_expires_at_secs _); [apply Z.leb_le; eauto|done].
Qed.

Lemma verify_session_iff i owner manifest endpoint key t :
  verify_session i owner manifest endpoint key t = Ok tt <->
  tenant_owner (scope (delegation i)) = owner /\ scope_manifest_id (scope (delegation i)) = manifest /\
  claim_endpoint_id (claims i) = endpoint /\ signing_public_key_b64 (claims i) = b64_encode key /\
  identity_ok i t.
Proof.
  unfold verify_session. rewrite !Signed.ensure_iff, verify_identity_iff, andb_true_iff, !bool_decide_eq_true. tauto.
Qed.

Lemma validate_claims_window c :
  validate_claims c = Ok tt ->
  claims_issued_at_secs c < claims_expires_at_secs c <= i64_max /\
  claims_expires_at_secs c - claims_issued_at_secs c <= MAX_IDENTITY_LIFETIME_SECS.
Proof.
  unfold validate_claims. intros H0. Signed.result_inv H0.
  apply andb_true_iff in Hc as [H1 H2]. lia.
Qed.

(** C16. A credential accepted for a session is bound to it: the owner, the
    routing key, the transport endpoint and the application key are the ones the
    connection presents.  The time lies in the identity's window, which is at most
    an hour and what the delegation allows, and in the delegation's window, and
    the identity's window lies in the delegation's; a start of either window may
    be up to the clock skew of 60 seconds ahead, the ends are strict.
    The owner's key vouches for the delegation's scope, the delegated issuer's
    key for the claims, and the claims name that very delegation. *)
Theorem accepted_session (i : WorkloadIdentity) (owner manifest endpoint : string) (key : bytes) (t : Z)
    (Hok : verify_session i owner manifest endpoint key t = Ok tt) :
  tenant_owner (scope (delegation i)) = owner /\ scope_manifest_id (scope (delegation i)) = manifest /\
  claim_endpoint_id (claims i) = endpoint /\ signing_public_key_b64 (claims i) = b64_encode key /\
  claims_issued_at_secs (claims i) - IDENTITY_CLOCK_SKEW_SECS <= t <= claims_expires_at_secs (claims i) /\
  0 < claims_expires_at_secs (claims i) - claims_issued_at_secs (claims i)
    <= Z.min MAX_IDENTITY_LIFETIME_SECS (max_child_lifetime_secs (scope (delegation i))) /\
  scope_issued_at_secs (scope (delegation i)) - IDENTITY_CLOCK_SKEW_SECS <= t /\
  scope_issued_at_secs (scope (delegation i)) - IDENTITY_CLOCK_SKEW_SECS <= claims_issued_at_secs (claims i) /\
  (forall last, scope_expires_at_secs (scope (delegation i)) = Some last ->
     claims_expires_at_secs (claims i) <= last /\ t <= last) /\
  digest (delegation i) = Ok (delegation_digest (claims i)) /\
  (exists owner_key, public_key owner = Ok owner_key /\
     verify_token (delegation_biscuit_b64 (delegation i)) owner_key "workload_enrollment"
       (scope_fields (scope (delegation i))) (Some t) = Ok tt) /\
  (exists issuer_key, public_key (issuer_public_key_b64 (scope (delegation i))) = Ok issuer_key /\
     verify_token (identity_biscuit_b64 i) issuer_key "workload_identity" (claims_fields (claims i))
       (Some t) = Ok tt).
Proof.
  apply verify_session_iff in Hok as (Ho & Hm & He & Hk & Hi). destruct Hi as [_ Hd Hc Hg Hl Haft Hw Htok Hiss Hlive].
  apply verify_delegation_iff in Hd as (_ & _ & Hown & Hstart & Hexp). apply validate_claims_window in Hc as [? ?].
  unfold saturating_add in *. subst owner. split_and!; [done..|lia|lia|lia|lia|lia|lia|naive_solver|done|done|done].
Qed.

(** ** Minting *)

Section Minting.
Context {PL : PrimitiveLaws P} {BL : BiscuitLaws B}.

Lemma public_key_encode pk : public_key (b64_encode pk) = Ok pk \/ exists e, public_key (b64_encode pk) = Err e.
Proof.
  unfold public_key. destruct (_ <=? _); [|eauto]. rewrite b64_roundtrip. cbn.
  destruct (_ && _); eauto.
Qed.

Lemma public_key_of value pk key : value = b64_encode pk -> public_key value = Ok key -> key = pk.
Proof. intros ->. destruct (public_key_encode pk) as [->|[e ->]]; congruence. Qed.

(** A token the code minted is good at any time. *)
Lemma minted_token_any_time sk pk role fields tok t0 t :
  mint_token sk role fields = Ok tok -> biscuit_keypair_public sk = Ok pk ->
  verify_token tok pk role fields (Some t0) = Ok tt -> t <= i64_max ->
  verify_token tok pk role fields (Some t) = Ok tt.
Proof.
  unfold mint_token. intros Hm Hpk Hv Ht. rewrite Hpk in Hm. cbn in Hm.
  apply Signed.bind_ok in Hm as (b & Hb & Hm). destruct (_ <=? _) in Hm; [|done]. injection Hm as <-.
  unfold verify_token in *. rewrite b64_roundtrip in *.
  destruct (str_len _ <=? _); [|done]. cbn [mbind result_bind] in *.
  destruct (negb _ && _); [|done]. destruct (biscuit_public_key_from_ed25519 pk) as [k|] eqn:Hk; [|done].
  cbn [mbind result_bind] in *. destruct (biscuit_from b k); [|done].
  rewrite (proj2 (Z.leb_le _ _) Ht). cbn.
  unfold ok_or in Hb. destruct (biscuit_build _ _) eqn:Hbuild; [|done]. injection Hb as ->.
  by rewrite (build_authorized _ _ _ _ _ Hbuild).
Qed.

Lemma minted_delegation_inv osk s t0 d :
  mint_delegation osk s t0 = Ok d ->
  scope d = s /\ exists pk, biscuit_keypair_public osk = Ok pk /\ tenant_owner s = b64_encode pk /\
  mint_token osk "workload_enrollment" (scope_fields s) = Ok (delegation_biscuit_b64 d) /\
  verify_delegation d (Some t0) = Ok tt.
Proof.
  unfold mint_delegation. intros H0. apply Signed.bind_ok in H0 as (_ & _ & H0).
  apply Signed.bind_ok in H0 as (pk & Hpk & H0). case_bool_decide as Ho; [|done].
  apply Signed.bind_ok in H0 as (t & Ht & H0). apply Signed.bind_ok in H0 as ([] & Hv & H0).
  apply Signed.bind_ok in H0 as (_ & _ & [= <-]). cbn. eauto 10.
Qed.

Lemma minted_identity_inv isk d endpoint signer t1 lifetime i :
  mint_identity isk d endpoint signer t1 lifetime = Ok i ->
  delegation i = d /\ claim_endpoint_id (claims i) = endpoint /\ signing_public_key_b64 (claims i) = signer /\
  claims_issued_at_secs (claims i) = t1 /\
  (exists pk, biscuit_keypair_public isk = Ok pk /\ issuer_public_key_b64 (scope d) = b64_encode pk) /\
  mint_token isk "workload_identity" (claims_fields (claims i)) = Ok (identity_biscuit_b64 i) /\
  verify_identity i (Some t1) = Ok tt.
Proof.
  unfold mint_identity. intros H0. apply Signed.bind_ok in H0 as (_ & _ & H0).
  apply Signed.bind_ok in H0 as (pk & Hpk & H0). case_bool_decide as Ho; [|done].
  destruct (in_range _ _ _); [|done]. destruct (_ <=? _); [|done].
  apply Signed.bind_ok in H0 as (dg & Hdg & H0). apply Signed.bind_ok in H0 as (_ & _ & H0).
  apply Signed.bind_ok in H0 as (t & Ht & H0). apply Signed.bind_ok in H0 as ([] & Hv & H0).
  apply Signed.bind_ok in H0 as (_ & _ & [= <-]). cbn. eauto 10.
Qed.

(** An identity minted under a minted delegation works for its whole life:
    at every time from its issue to its expiry it is accepted for a session of
    the owner, routing key, endpoint and application key it was minted for. *)
Theorem minted_identity_accepted (owner_private issuer_private : bytes) (s : EnrollmentScope)
    (d : EnrollmentDelegation) (endpoint : string) (key : bytes) (t0 t1 t lifetime : Z) (i : WorkloadIdentity)
    (Hdelegation : mint_delegation owner_private s t0 = Ok d)
    (Hidentity : mint_identity issuer_private d endpoint (b64_encode key) t1 lifetime = Ok i)
    (Htime : t1 <= t <= claims_expires_at_secs (claims i)) :
  verify_session i (tenant_owner s) (scope_manifest_id s) endpoint key t = Ok tt.
Proof.
  apply minted_delegation_inv in Hdelegation as (<- & opk & Hopk & Howner & Hotok & Hd0).
  apply minted_identity_inv in Hidentity as (<- & He & Hk & Hiss & (ipk & Hipk & Hissuer) & Htok & Hv).
  apply verify_identity_iff in Hv as [Hver Hdel Hcl Hdig Hlife Haft Hwith (issuer & Hik & Hvt) Hi1 Hl1].
  apply verify_delegation_iff in Hdel as (Hdv & Hds & (o1 & Ho1 & Hot1) & Hdi & Hde).
  pose proof (validate_claims_window _ Hcl) as [Hwin _].
  pose proof (public_key_of _ _ _ Howner Ho1) as ->. pose proof (public_key_of _ _ _ Hissuer Hik) as ->.
  apply verify_session_iff. split_and!; [done..|].
  unfold saturating_add in *. split; try done; try lia.
  - apply verify_delegation_iff. split_and!; [done..| | |].
    + exists opk. split; [done|]. eapply (minted_token_any_time owner_private); eauto. lia.
    + unfold saturating_add. lia.
    + intros last Hlast. specialize (Hwith _ Hlast). lia.
  - exists ipk. split; [done|]. eapply (minted_token_any_time issuer_private); eauto. lia.
  - unfold saturating_add. lia.
Qed.

End Minting.
End Operations.

(** ** Witnesses *)
Module Sample.
Import Crypto.Toy.
#[export] Existing Instances prims laws Biscuit.Toy.biscuit Biscuit.Toy.biscuit_laws.
#[export] Instance blake3 : Blake3 := {| blake3_hex := fun _ => of_chars (replicate 64 "0"%char) |}.

Definition hex (c : ascii) : string := of_chars (replicate 64 c).
Definition sample_scope : EnrollmentScope := {|
  tenant_owner := b64_encode (sample_key 3); scope_manifest_id := hex "a"; workload_id := hex "b";
  revision_id := hex "c"; issuer_public_key_b64 := b64_encode (sample_key 4); token_id := "gen-1";
  scope_issued_at_secs := 1000; scope_expires_at_secs := Some 3000; max_child_lifetime_secs := 1800 |}.
Definition sample_delegation : EnrollmentDelegation := {|
  delegation_version := 1; scope := sample_scope; delegation_biscuit_b64 := b64_encode (sample_key 3) |}.
Definition sample_identity : WorkloadIdentity := {|
  identity_version := 1; delegation := sample_delegation;
  claims := {| delegation_digest := hex "0"; claim_endpoint_id := hex "e";
               signing_public_key_b64 := b64_encode (sample_key 5);
               claims_issued_at_secs := 1100; claims_expires_at_secs := 2900 |};
  identity_biscuit_b64 := b64_encode (sample_key 4) |}.

Definition table_json {A} `{EqDecision A} (l : list A) : Json A :=
  {| to_json := to_allocvec (Postcard := Signed.Table.codec l);
     from_json := from_postcard (Postcard := Signed.Table.codec l) |}.
#[export] Instance delegation_json : Json EnrollmentDelegation := table_json [sample_delegation].
#[export] Instance identity_json : Json WorkloadIdentity := table_json [sample_identity].
End Sample.

Import Sample.

Lemma minted_identity_accepted_witness :
  verify_session sample_identity (b64_encode (Crypto.Toy.sample_key 3)) (hex "a") (hex "e")
    (Crypto.Toy.sample_key 5) 2500 = Ok tt.
Proof.
  apply (minted_identity_accepted (Crypto.Toy.sample_key 3) (Crypto.Toy.sample_key 4) sample_scope
    sample_delegation (hex "e") (Crypto.Toy.sample_key 5) 1050 1100 2500 1800);
    [vm_compute; reflexivity|vm_compute; reflexivity|vm_compute; split; discriminate].
Defined.

Lemma accepted_session_witness :
  claims_expires_at_secs (claims sample_identity) <= 3000.
Proof.
  destruct (accepted_session sample_identity (b64_encode (Crypto.Toy.sample_key 3)) (hex "a") (hex "e")
    (Crypto.Toy.sample_key 5) 2500) as (_ & _ & _ & _ & _ & _ & _ & _ & H & _); [vm_compute; reflexivity|].
  apply (H 3000). reflexivity.
Defined.

End Workload.
