(* ===== verification/ProxyGrant.v ===== *)
(** * Proxy grants (shared/protocol/src/proxy_grant.rs,
      podmesh-proxy/src/proxy_grants.rs)

    The owner-signed token that entitles one proxy to front an owner's
    workloads, and the proxy's store of the grants it holds. *)

From S2P Require Import Prelude Crypto Signed Biscuit.

Module ProxyGrant.
Import Crypto Biscuit.

Definition PROXY_GRANT_ROLE : string := "proxy".
Definition PROXY_GRANT_OPERATION : string := "proxy_service".
Definition MAX_PROXY_GRANT_LIFETIME_SECS : Z := 90 * 24 * 60 * 60.
Definition MAX_PROXY_GRANT_CLOCK_SKEW_SECS : Z := 60.
(** [4 * MAX_BISCUIT_TOKEN_BYTES.div_ceil(3)] *)
Definition MAX_PROXY_GRANT_B64_LEN : Z := 4 * ((MAX_BISCUIT_TOKEN_BYTES + 2) / 3).

Record ProxyGrantClaims := {
  tenant_owner : string;
  proxy_endpoint : string;
  issued_at_secs : Z;
  expires_at_secs : Z;
  token_id : string
}.

Definition validate_value (value field : string) : Result unit :=
  ensure! negb (str_is_empty value) && (str_len value <=? MAX_AUTHZ_VALUE_LEN)
    else Err (field +:+ " length is invalid") ;;
  Ok tt.

Definition validate_grant_claims (c : ProxyGrantClaims) (now_secs : Z) : Result unit :=
  _ ← validate_value (tenant_owner c) "proxy grant tenant owner";
  _ ← validate_value (proxy_endpoint c) "proxy grant endpoint";
  _ ← validate_value (token_id c) "proxy grant token ID";
  ensure! issued_at_secs c <=? saturating_add u64_max now_secs MAX_PROXY_GRANT_CLOCK_SKEW_SECS
    else Err "proxy grant issue time is too far in the future" ;;
  ensure! issued_at_secs c <=? expires_at_secs c else Err "proxy grant expiry precedes issue time" ;;
  ensure! saturating_sub (expires_at_secs c) (issued_at_secs c) <=? MAX_PROXY_GRANT_LIFETIME_SECS
    else Err "proxy grant lifetime exceeds 7776000 seconds" ;;
  Ok tt.

Definition to_i64 (value : Z) : Result Z :=
  if value <=? i64_max then Ok value else Err "proxy grant timestamp exceeds i64".

Definition grant_facts (c : ProxyGrantClaims) : list Fact :=
  [str_fact "tenant_owner" (tenant_owner c); str_fact "subject_peer" (proxy_endpoint c);
   str_fact "role" PROXY_GRANT_ROLE; str_fact "operation" PROXY_GRANT_OPERATION;
   int_fact "issued_at" (issued_at_secs c); int_fact "expires_at" (expires_at_secs c);
   str_fact "token_id" (token_id c)].

Definition newline : string := String.String (Ascii.ascii_of_nat 10) EmptyString.

Definition PROXY_GRANT_POLICY : string :=
  newline +:+ "allow if tenant_owner($tenant), request_tenant_owner($tenant)," +:+
  newline +:+ "  subject_peer($proxy), request_subject_peer($proxy)," +:+
  newline +:+ "  role(" +:+ quoted "proxy" +:+ ")," +:+
  newline +:+ "  operation(" +:+ quoted "proxy_service" +:+ ")," +:+
  newline +:+ "  issued_at($issued), expires_at($expires), request_time($now), latest_issue_time($latest)," +:+
  newline +:+ "  $issued <= $latest, $now <= $expires," +:+
  newline +:+ "  token_id($token_id);" +:+ newline +:+ "deny if true;" +:+ newline.

Definition request_facts (tenant proxy : string) (now latest : Z) : list Fact :=
  [str_fact "request_tenant_owner" tenant; str_fact "request_subject_peer" proxy;
   int_fact "request_time" now; int_fact "latest_issue_time" latest].

(** The policy on a token that carries exactly the grant's facts: every
    variable has one candidate, so it allows exactly when they agree and the
    time lies in the window. *)
Class GrantPolicyLaw (B : BiscuitAuth) : Prop :=
  grant_policy sk c t tenant proxy now latest :
    biscuit_build sk (grant_facts c) = Some t ->
    biscuit_authorize t (request_facts tenant proxy now latest) PROXY_GRANT_POLICY =
      bool_decide (tenant_owner c = tenant) && bool_decide (proxy_endpoint c = proxy) &&
      (issued_at_secs c <=? latest) && (now <=? expires_at_secs c).

Section Operations.
Context {P : Primitives} {B : BiscuitAuth}.

Definition mint_proxy_grant (owner_private owner_public : bytes) (c : ProxyGrantClaims) (now_secs : Z)
    : Result bytes :=
  _ ← validate_grant_claims c now_secs;
  ensure! bool_decide (tenant_owner c = b64_encode owner_public)
    else Err "proxy grant tenant owner does not match the signing key" ;;
  _ ← biscuit_keypair_public owner_private;
  _ ← to_i64 (issued_at_secs c);
  _ ← to_i64 (expires_at_secs c);
  encoded ← ok_or (biscuit_build owner_private (grant_facts c)) "build proxy grant Biscuit";
  ensure! negb (bool_decide (encoded = [])) && (len encoded <=? MAX_BISCUIT_TOKEN_BYTES)
    else Err "proxy grant encoded size is invalid" ;;
  Ok encoded.

Definition verify_proxy_grant (encoded owner_public : bytes) (expected_tenant expected_proxy : string)
    (now_secs : Z) : Result unit :=
  ensure! negb (bool_decide (encoded = [])) && (len encoded <=? MAX_BISCUIT_TOKEN_BYTES)
    else Err "proxy grant encoded size is invalid" ;;
  _ ← validate_value expected_tenant "proxy grant tenant owner";
  _ ← validate_value expected_proxy "proxy grant endpoint";
  ensure! bool_decide (expected_tenant = b64_encode owner_public)
    else Err "proxy grant tenant owner does not match the trusted owner key" ;;
  root_public ← biscuit_public_key_from_ed25519 owner_public;
  ensure! biscuit_from encoded root_public else Err "verify proxy grant Biscuit signature" ;;
  now ← to_i64 now_secs;
  latest ← to_i64 (saturating_add u64_max now_secs MAX_PROXY_GRANT_CLOCK_SKEW_SECS);
  ensure! biscuit_authorize encoded (request_facts expected_tenant expected_proxy now latest) PROXY_GRANT_POLICY
    else Err "proxy grant authorization failed" ;;
  Ok tt.

Definition proxy_grant_to_b64 (encoded : bytes) : string := b64_encode encoded.

Definition proxy_grant_from_b64 (value : string) : Result bytes :=
  ensure! negb (str_is_empty value) && (str_len value <=? MAX_PROXY_GRANT_B64_LEN)
    else Err "proxy grant length is invalid" ;;
  b64_decode value.

(** ** The proxy's store *)
Definition MAX_TENANT_GRANTS : Z := 1024.

Record StoredGrant := { owner_public : bytes; encoded : bytes }.

Abbreviation Store := (gmap string StoredGrant).

Definition accept (g : Store) (owner_pubkey_b64 : string) (token : bytes) (local_endpoint : string)
    (now_secs : Z) : Store * Result unit :=
  try! owner := b64_decode owner_pubkey_b64 in g ;;
  ensure! len owner =? 32 else (g, Err "proxy grant owner key must decode to 32 bytes") ;;
  try! _verified := verify_proxy_grant token owner owner_pubkey_b64 local_endpoint now_secs in g ;;
  ensure! negb (negb (contains_key owner_pubkey_b64 g) && (MAX_TENANT_GRANTS <=? map_len g))
    else (g, Err "proxy grant capacity of 1024 tenants is reached") ;;
  (<[owner_pubkey_b64 := {| owner_public := owner; encoded := token |}]> g, Ok tt).

(** [live_grant] takes the lock twice: to read the stored grant, and, when it
    no longer verifies, to remove whatever is stored then. *)
Definition read_grant (g : Store) (owner_pubkey_b64 local_endpoint : string) (now_secs : Z)
    : option StoredGrant * bool :=
  match g !! owner_pubkey_b64 with
  | None => (None, false)
  | Some stored =>
      (Some stored,
       is_ok (verify_proxy_grant (encoded stored) (owner_public stored) owner_pubkey_b64 local_endpoint now_secs))
  end.

Definition drop_grant (g : Store) (owner_pubkey_b64 : string) : Store := delete owner_pubkey_b64 g.

(** [between] is what other calls do to the store between the two sections. *)
Definition live_grant_during (between : Store -> Store) (g : Store) (owner_pubkey_b64 local_endpoint : string)
    (now_secs : Z) : Store * option bytes :=
  match read_grant g owner_pubkey_b64 local_endpoint now_secs with
  | (None, _) => (between g, None)
  | (Some stored, true) => (between g, Some (encoded stored))
  | (Some _, false) => (drop_grant (between g) owner_pubkey_b64, None)
  end.

Definition live_grant (g : Store) (owner_pubkey_b64 local_endpoint : string) (now_secs : Z)
    : Store * option bytes :=
  live_grant_during (fun g => g) g owner_pubkey_b64 local_endpoint now_secs.

Definition holds_live_grant (g : Store) (owner_pubkey_b64 local_endpoint : string) (now_secs : Z)
    : Store * bool :=
  let r := live_grant g owner_pubkey_b64 local_endpoint now_secs in
  (r.1, bool_decide (is_Some r.2)).

(** ** Properties *)

Lemma accept_ok g k token e now :
  (accept g k token e now).2 = Ok tt ->
  exists owner, b64_decode k = Ok owner /\ verify_proxy_grant token owner k e now = Ok tt /\
    (accept g k token e now).1 = <[k := {| owner_public := owner; encoded := token |}]> g /\
    (g !! k = None -> map_len g < MAX_TENANT_GRANTS).
Proof.
  unfold accept. destruct (b64_decode k) as [owner|]; [|done]. destruct (_ =? _); [|done].
  destruct (verify_proxy_grant _ _ _ _ _) as [[]|] eqn:Hv; [|done].
  destruct (contains_key k g) eqn:Hk; cbn [negb andb].
  - apply contains_key_true in Hk as [x Hk]. intros _. exists owner. split_and!; [done..|congruence].
  - destruct (Z.leb_spec MAX_TENANT_GRANTS (map_len g)); cbn [negb]; [done|]. eauto 10.
Qed.

Lemma accept_err g k token e now :
  (accept g k token e now).2 <> Ok tt -> (accept g k token e now).1 = g.
Proof. unfold accept. repeat (case_match; try done). Qed.

Inductive StoreOp :=
| Accept (k : string) (token : bytes) (now : Z)
| Live (k : string) (now : Z).

Definition store_step (local_endpoint : string) (g : Store) (op : StoreOp) : Store :=
  match op with
  | Accept k token now => (accept g k token local_endpoint now).1
  | Live k now => (live_grant g k local_endpoint now).1
  end.

Record store_wf (local_endpoint : string) (g : Store) : Prop := {
  store_bound : map_len g <= MAX_TENANT_GRANTS;
  store_verified : forall k s, g !! k = Some s -> b64_decode k = Ok (owner_public s) /\
    exists at_secs, verify_proxy_grant (encoded s) (owner_public s) k local_endpoint at_secs = Ok tt
}.

Lemma store_step_wf e g op : store_wf e g -> store_wf e (store_step e g op).
Proof.
  intros [Hlen Hin]. destruct op as [k token now|k now]; cbn.
  - destruct (accept g k token e now).2 as [[]|] eqn:Hok; [|by rewrite accept_err by congruence].
    apply accept_ok in Hok as (o & Hd & Hv & -> & Hroom). split.
    + destruct (g !! k) eqn:E.
      * rewrite map_len_insert_old by eauto. done.
      * rewrite map_len_insert_new by done. specialize (Hroom eq_refl). lia.
    + intros k' s [[<- <-]|[_ Hl]]%lookup_insert_Some; cbn; eauto.
  - unfold live_grant, live_grant_during, read_grant. destruct (g !! k); [|done].
    destruct (is_ok _); [done|]. unfold drop_grant. split; cbn.
    + pose proof (map_len_delete_le g k). lia.
    + intros k' s' [_ Hl]%lookup_delete_Some. eauto.
Qed.

Lemma store_run_wf e ops : store_wf e (fold_left (store_step e) ops ∅).
Proof.
  assert (store_wf e ∅) as Hwf.
  { split; [by rewrite map_len_empty|]. intros k s. by rewrite lookup_empty. }
  revert Hwf. generalize (∅ : Store) as g. induction ops as [|op ops IH]; intros g Hwf; [done|].
  cbn. by apply IH, store_step_wf.
Qed.

(** The grant store is bounded and only ever hands out live grants: after
    any calls it holds at most [MAX_TENANT_GRANTS] grants, each stored under the
    key it decodes to and verified for this proxy when it came in; and a grant
    [live_grant] answers with verifies for this proxy at that moment. *)
Theorem grants_verified (local_endpoint : string) (ops : list StoreOp) :
  let g := fold_left (store_step local_endpoint) ops ∅ in
  map_len g <= MAX_TENANT_GRANTS /\
  (forall k s, g !! k = Some s -> b64_decode k = Ok (owner_public s) /\
     exists at_secs, verify_proxy_grant (encoded s) (owner_public s) k local_endpoint at_secs = Ok tt) /\
  (forall k now, match (live_grant g k local_endpoint now).2 with
     | Some token => exists owner, b64_decode k = Ok owner /\
         verify_proxy_grant token owner k local_endpoint now = Ok tt
     | None => (live_grant g k local_endpoint now).1 !! k = None
     end).
Proof.
  cbv zeta. pose proof (store_run_wf local_endpoint ops) as [Hlen Hin].
  revert Hlen Hin. generalize (fold_left (store_step local_endpoint) ops ∅) as g. intros g Hlen Hin.
  split_and!; [done..|].
  intros k now. unfold live_grant, live_grant_during, read_grant. destruct (g !! k) as [s|] eqn:Hs; [|done].
  destruct (verify_proxy_grant _ _ _ _ _) as [[]|] eqn:Hv; cbn.
  - destruct (Hin _ _ Hs) as [Hd _]. eauto.
  - apply lookup_delete_eq.
Qed.

(** A grant minted by an owner for a proxy is accepted by verifiers at
    exactly the times of its window (with the tolerated clock skew), for that
    owner and that proxy only. *)
Theorem minted_grant_window {BL : BiscuitLaws B} {GL : GrantPolicyLaw B}
    (owner_private owner_pub : bytes) (c : ProxyGrantClaims) (t0 now : Z) (token : bytes) (proxy : string)
    (Hpk : keypair_public owner_private = Some owner_pub)
    (Hmint : mint_proxy_grant owner_private owner_pub c t0 = Ok token)
    (Hnow : 0 <= now <= i64_max - MAX_PROXY_GRANT_CLOCK_SKEW_SECS) :
  verify_proxy_grant token owner_pub (tenant_owner c) proxy now = Ok tt <->
  proxy = proxy_endpoint c /\
  issued_at_secs c - MAX_PROXY_GRANT_CLOCK_SKEW_SECS <= now <= expires_at_secs c.
Proof.
  unfold mint_proxy_grant in Hmint. apply Signed.bind_ok in Hmint as ([] & Hval & Hmint).
  case_bool_decide as Howner; [|done]. do 3 (apply Signed.bind_ok in Hmint as (? & _ & Hmint)).
  apply Signed.bind_ok in Hmint as (t & Ht & Hmint). destruct (negb _ && _) eqn:Hsize; [|done].
  injection Hmint as <-. unfold ok_or in Ht. destruct (biscuit_build _ _) eqn:Hb; simplify_eq.
  unfold validate_grant_claims in Hval. apply Signed.bind_ok in Hval as ([] & Hv1 & Hval).
  apply Signed.bind_ok in Hval as ([] & Hv2 & _).
  assert (Hsat : saturating_add u64_max now MAX_PROXY_GRANT_CLOCK_SKEW_SECS = now + 60).
  { unfold saturating_add, u64_max, MAX_PROXY_GRANT_CLOCK_SKEW_SECS, i64_max in *. lia. }
  unfold verify_proxy_grant. rewrite Hsize, Hv1, Hsat, Signed.bind_eq.
  unfold to_i64, biscuit_public_key_from_ed25519.
  rewrite (keypair_public_valid _ _ Hpk), bool_decide_true by done.
  rewrite (proj2 (Z.leb_le now _)), (proj2 (Z.leb_le (now + 60) _))
    by (unfold MAX_PROXY_GRANT_CLOCK_SKEW_SECS in *; lia).
  rewrite !Signed.bind_eq, (build_from _ _ _ _ Hpk Hb), (grant_policy _ _ _ _ _ _ _ Hb).
  rewrite (bool_decide_true (tenant_owner c = tenant_owner c)) by done. cbn [andb].
  unfold MAX_PROXY_GRANT_CLOCK_SKEW_SECS. split.
  - intros H. apply Signed.bind_ok in H as ([] & _ & H). case_match eqn:E; [|done].
    apply andb_true_iff in E as [E E3]. apply andb_true_iff in E as [E1 E2].
    apply bool_decide_eq_true in E1. split; [done|lia].
  - intros (-> & Hlo & Hhi). rewrite Hv2, Signed.bind_eq, bool_decide_true by done. cbn [andb].
    by rewrite (proj2 (Z.leb_le _ _)), (proj2 (Z.leb_le now _)) by lia.
Qed.

(** The two lock sections of [live_grant] are not one: when an owner's
    renewed grant is accepted between the read of the expired one and its
    removal, the renewed grant is the one removed, although its submission was
    answered with success and it would have been live. *)
Theorem renewal_lost_in_race (g : Store) (k local_endpoint : string) (old : StoredGrant) (token : bytes) (now : Z)
    (Hexpired : read_grant g k local_endpoint now = (Some old, false))
    (Hrenewed : (accept g k token local_endpoint now).2 = Ok tt) :
  (live_grant (accept g k token local_endpoint now).1 k local_endpoint now).2 = Some token /\
  live_grant_during (fun g => (accept g k token local_endpoint now).1) g k local_endpoint now
    = (delete k g, None).
Proof.
  apply accept_ok in Hrenewed as (o & Hd & Hv & Hst & _). rewrite Hst. split.
  - unfold live_grant, live_grant_during, read_grant. rewrite lookup_insert_eq. cbn. by rewrite Hv.
  - unfold live_grant_during. rewrite Hexpired. unfold drop_grant. by rewrite Hst, delete_insert_eq.
Qed.

End Operations.

(** ** Witnesses *)
Module Sample.
Import Crypto.Toy.
#[export] Existing Instances prims laws.

Definition owner : bytes := sample_key 3.
Definition grant (issued expires : Z) : ProxyGrantClaims := {|
  tenant_owner := b64_encode owner; proxy_endpoint := "proxy-1"; issued_at_secs := issued;
  expires_at_secs := expires; token_id := "t" |}.
Definition old_grant : ProxyGrantClaims := grant 100 200.
Definition new_grant : ProxyGrantClaims := grant 200 300.

#[export] Instance Term_eq_dec : EqDecision Term.
Proof. solve_decision. Defined.
#[export] Instance Fact_eq_dec : EqDecision Fact.
Proof. solve_decision. Defined.

(** A crate that can build these two grants only; the second byte of a token
    says which it is. *)
Definition claims_of (t : bytes) : option ProxyGrantClaims :=
  if bool_decide (t = [Byte.x01]) then Some old_grant
  else if bool_decide (t = [Byte.x02]) then Some new_grant else None.
#[export] Instance biscuit : BiscuitAuth := {|
  keypair_public := fun sk => Some sk;
  public_key_valid := fun _ => true;
  biscuit_build := fun sk facts =>
    if bool_decide (sk = owner)
    then if bool_decide (facts = grant_facts old_grant) then Some [Byte.x01]
         else if bool_decide (facts = grant_facts new_grant) then Some [Byte.x02] else None
    else None;
  biscuit_from := fun t pk => bool_decide (pk = owner);
  biscuit_authorize := fun t facts policy =>
    match claims_of t, facts with
    | Some c, [{| fact_args := [Str tenant] |}; {| fact_args := [Str proxy] |};
               {| fact_args := [Int now] |}; {| fact_args := [Int latest] |}] =>
        bool_decide (tenant_owner c = tenant) && bool_decide (proxy_endpoint c = proxy) &&
        (issued_at_secs c <=? latest) && (now <=? expires_at_secs c)
    | _, _ => false
    end
|}.

#[export] Instance biscuit_laws : BiscuitLaws biscuit.
Proof.
  split; cbn.
  - done.
  - intros sk pk facts t [= <-]. by case_bool_decide.
  - intros sk role fields extra t. repeat case_bool_decide; intros [= <-].
    all: exfalso; match goal with H : token_facts _ _ = _ |- _ => unfold token_facts in H; by injection H end.
Qed.

#[export] Instance grant_law : GrantPolicyLaw biscuit.
Proof.
  intros sk c t tenant proxy now latest.
  assert (Hc : forall c', grant_facts c = grant_facts c' -> c = c').
  { intros c' Heq. destruct c, c'. unfold grant_facts, str_fact, int_fact in Heq. cbn in Heq. by simplify_eq. }
  cbn -[grant_facts old_grant new_grant owner]. destruct (bool_decide (sk = owner)); [|done].
  destruct (bool_decide_reflect (grant_facts c = grant_facts old_grant)) as [->%Hc|_]; [by intros [= <-]|].
  destruct (bool_decide_reflect (grant_facts c = grant_facts new_grant)) as [->%Hc|_]; [by intros [= <-]|done].
Qed.

Definition store : gmap string StoredGrant :=
  {[ b64_encode owner := {| owner_public := owner; encoded := [Byte.x01] |} ]}.
End Sample.

Import Sample.

Lemma minted_grant_window_witness :
  verify_proxy_grant [Byte.x01] owner (b64_encode owner) "proxy-1" 150 = Ok tt.
Proof.
  apply (minted_grant_window owner owner old_grant 100 150 [Byte.x01] "proxy-1");
    [reflexivity|vm_compute; reflexivity|vm_compute; split; discriminate|].
  split; [reflexivity|vm_compute; split; discriminate].
Defined.

Lemma renewal_lost_in_race_witness :
  live_grant_during (fun g => (accept g (b64_encode owner) [Byte.x02] "proxy-1" 250).1) store
    (b64_encode owner) "proxy-1" 250 = (∅, None).
Proof.
  refine (eq_trans (proj2 (renewal_lost_in_race store (b64_encode owner) "proxy-1"
    {| owner_public := owner; encoded := [Byte.x01] |} [Byte.x02] 250 _ _)) _);
    [vm_compute; reflexivity|vm_compute; reflexivity|vm_compute; reflexivity].
Defined.

End ProxyGrant.
