(* ===== verification/Admission.v ===== *)
(** * Proxy admission (podmesh-proxy/src/tenant_sessions.rs,
      iroh_runtime/tenant_gate.rs, iroh_runtime/handlers.rs)

    Which tenant each open workload connection has proven, and what a
    connection may do with it: register routes, or open an egress tunnel. *)

From S2P Require Import Prelude Net Crypto Signed EndpointRecord MeshProtocol Identity.
From S2P Require Import Registration Routes Biscuit WorkloadIdentity ProxyGrant.
From Stdlib Require Import Ascii.

Module Admission.
Import Crypto Biscuit Workload.
Import Registration (SidecarRegistration).

Section Admission.
Context {I : Iroh} {P : Primitives} {B : BiscuitAuth} {H : Blake3}.
Context {JD : Json EnrollmentDelegation} {JI : Json WorkloadIdentity}.
(** [EndpointId::to_string]. *)
Context (id_to_string : EndpointId -> string).

(** ** Tenant sessions *)
Record ProvenTenant := {
  owner_pubkey : string;
  manifest_id : string;
  credential : bytes
}.

Record TenantSession := {
  stable_id : Z;
  tenant : option ProvenTenant
}.

Abbreviation Sessions := (gmap EndpointId TenantSession).

Definition begin (s : Sessions) (endpoint : EndpointId) (sid : Z) : Sessions * Result unit :=
  ensure! negb (contains_key endpoint s) else (s, Err "endpoint already has an active connection") ;;
  (<[endpoint := {| stable_id := sid; tenant := None |}]> s, Ok tt).

Definition prove_once (s : Sessions) (endpoint : EndpointId) (sid : Z) (t : ProvenTenant)
    : Sessions * Result unit :=
  match s !! endpoint with
  | None => (s, Err "connection is no longer active")
  | Some session =>
    ensure! stable_id session =? sid else (s, Err "operation belongs to a stale connection") ;;
    ensure! bool_decide (tenant session = None) else (s, Err "connection already proved a tenant") ;;
    (<[endpoint := {| stable_id := stable_id session; tenant := Some t |}]> s, Ok tt)
  end.

Definition proven (s : Sessions) (endpoint : EndpointId) (sid : Z) : option ProvenTenant :=
  session ← s !! endpoint;
  if stable_id session =? sid then tenant session else None.

(** The check both [prove_bound] and [proven_live] make of a tenant's credential. *)
Definition check_credential (t : ProvenTenant) (endpoint : EndpointId) (now : Z) : Result WorkloadIdentity :=
  identity ← identity_from_bytes (credential t);
  key ← b64_decode (signing_public_key_b64 (claims identity));
  _ ← verify_session identity (owner_pubkey t) (manifest_id t) (id_to_string endpoint) key now;
  Ok identity.

(** A renewal keeps the owner, the routing key, the workload and the
    application key, and does not shorten the authority. *)
Definition check_renewal (old new : ProvenTenant) (identity : WorkloadIdentity) : Result unit :=
  previous ← identity_from_bytes (credential old);
  ensure! bool_decide (owner_pubkey old = owner_pubkey new) && bool_decide (manifest_id old = manifest_id new) &&
          bool_decide (workload_id (scope (delegation previous)) = workload_id (scope (delegation identity))) &&
          bool_decide (signing_public_key_b64 (claims previous) = signing_public_key_b64 (claims identity))
    else Err "workload renewal changes proven identity" ;;
  ensure! (claims_issued_at_secs (claims previous) <=? claims_issued_at_secs (claims identity)) &&
          (claims_expires_at_secs (claims previous) <=? claims_expires_at_secs (claims identity))
    else Err "workload renewal regresses authority" ;;
  Ok tt.

Definition prove_bound (s : Sessions) (endpoint : EndpointId) (sid : Z) (t : ProvenTenant) (now : Z)
    : Sessions * Result unit :=
  try! identity := check_credential t endpoint now in s ;;
  match s !! endpoint with
  | None => (s, Err "connection is no longer active")
  | Some session =>
    ensure! stable_id session =? sid else (s, Err "operation belongs to a stale connection") ;;
    try! _renewal := (match tenant session with
                      | Some old => check_renewal old t identity
                      | None => Ok tt
                      end) in s ;;
    (<[endpoint := {| stable_id := stable_id session; tenant := Some t |}]> s, Ok tt)
  end.

Definition proven_live (s : Sessions) (endpoint : EndpointId) (sid : Z) (now : Z) : Result ProvenTenant :=
  t ← ok_or (proven s endpoint sid) "operation on a connection that proved no tenant";
  _ ← check_credential t endpoint now;
  Ok t.

Definition remove_if_current (s : Sessions) (endpoint : EndpointId) (sid : Z) : Sessions :=
  match s !! endpoint with
  | Some session => if stable_id session =? sid then delete endpoint s else s
  | None => s
  end.

(** ** The tenant gate *)
(** [4 * MAX_BISCUIT_TOKEN_BYTES.div_ceil(3)] *)
Definition MAX_WORKLOAD_CREDENTIAL_B64_LEN : Z := 4 * ((MAX_BISCUIT_TOKEN_BYTES + 2) / 3).

Definition workload_credential_from_b64 (value : string) : Result bytes :=
  ensure! negb (str_is_empty value) && (str_len value <=? MAX_WORKLOAD_CREDENTIAL_B64_LEN)
    else Err "workload credential length is invalid" ;;
  b64_decode value.

(** What the gate reads of a handshake. *)
Record Handshake := {
  tenant_owner_pubkey : string;
  handshake_manifest_id : string;
  workload_credential_b64 : string
}.

(** The clock is read for each check. *)
Definition prove_tenant (s : Sessions) (remote : EndpointId) (sid : Z) (h : Handshake) (signing_key : bytes)
    (now1 now2 : Z) : Sessions * Result unit :=
  try! cred := workload_credential_from_b64 (workload_credential_b64 h) in s ;;
  try! identity := identity_from_bytes cred in s ;;
  try! _session := verify_session identity (tenant_owner_pubkey h) (handshake_manifest_id h)
                     (id_to_string remote) signing_key now1 in s ;;
  prove_bound s remote sid
    {| owner_pubkey := tenant_owner_pubkey h; manifest_id := handshake_manifest_id h; credential := cred |} now2.

Definition live_tenant (s : Sessions) (remote : EndpointId) (sid : Z) (now : Z) : Result ProvenTenant :=
  proven_live s remote sid now.

(** ** The runtime *)
Record RuntimeState := {
  tenants : Sessions;
  grant_store : gmap string ProxyGrant.StoredGrant;
  routes : Routes.Inner;
  local_endpoint : string
}.

Definition set_grants (st : RuntimeState) (g : gmap string ProxyGrant.StoredGrant) : RuntimeState :=
  {| tenants := tenants st; grant_store := g; routes := routes st; local_endpoint := local_endpoint st |}.
Definition set_routes (st : RuntimeState) (r : Routes.Inner) : RuntimeState :=
  {| tenants := tenants st; grant_store := grant_store st; routes := r; local_endpoint := local_endpoint st |}.

Definition authorize_egress (st : RuntimeState) (remote : EndpointId) (sid : Z) (now1 now2 : Z)
    : RuntimeState * Result unit :=
  try! t := live_tenant (tenants st) remote sid now1 in st ;;
  let r := ProxyGrant.holds_live_grant (grant_store st) (owner_pubkey t) (local_endpoint st) now2 in
  let st := set_grants st r.1 in
  ensure! r.2 else (st, Err "this proxy holds no live owner grant for the egress tenant") ;;
  (st, Ok tt).

(** shared/protocol/src/agent.rs *)
Definition workload_id_of (namespace_id : bytes) (workload_name : string) (replica_index : Z) : string :=
  blake3_hex (as_bytes "podmesh/workload/v1" ++ [Byte.x00] ++ namespace_id ++ [Byte.x00] ++
              as_bytes workload_name ++ [Byte.x00] ++ rev (u32_be_bytes replica_index)).

Definition MAX_REGISTERED_SIDECARS : Z := 10000.

Definition install_registration (st : RuntimeState) (r : SidecarRegistration) (transport : EndpointId) (sid : Z)
    (now1 now2 now_millis : Z) : RuntimeState * Result unit :=
  try! _valid := Registration.validate_registration r in st ;;
  ensure! bool_decide (Registration.sidecar_peer_id r = id_to_string transport)
    else (st, Err "registration names an endpoint other than the authenticated transport") ;;
  try! t := live_tenant (tenants st) transport sid now1 in st ;;
  ensure! bool_decide (owner_pubkey t = Registration.owner_pubkey r)
    else (st, Err "registration names a different owner than this connection proved") ;;
  ensure! bool_decide (manifest_id t = Registration.manifest_id r)
    else (st, Err "registration names a different workload than this connection proved") ;;
  try! identity := identity_from_bytes (credential t) in st ;;
  try! owner := b64_decode (Registration.owner_pubkey r) in st ;;
  ensure! bool_decide (workload_id (scope (delegation identity)) =
                       workload_id_of owner (Registration.workload_name r) (Registration.replica_index r))
    else (st, Err "registration names another replica than its credential authorizes") ;;
  let g := ProxyGrant.holds_live_grant (grant_store st) (Registration.owner_pubkey r) (local_endpoint st) now2 in
  let st := set_grants st g.1 in
  ensure! g.2 else (st, Err "this proxy holds no live owner grant for the registration tenant") ;;
  let res := Routes.register_inner (routes st) r now_millis MAX_REGISTERED_SIDECARS in
  (set_routes st res.1, res.2).

(** ** Properties *)

Lemma check_credential_inv t e now identity :
  check_credential t e now = Ok identity ->
  identity_from_bytes (credential t) = Ok identity /\
  exists key, b64_decode (signing_public_key_b64 (claims identity)) = Ok key /\
    verify_session identity (owner_pubkey t) (manifest_id t) (id_to_string e) key now = Ok tt.
Proof.
  unfold check_credential. intros H0. apply Signed.bind_ok in H0 as (i & Hi & H0).
  apply Signed.bind_ok in H0 as (key & Hk & H0). apply Signed.bind_ok in H0 as ([] & Hv & [= <-]). eauto.
Qed.

Lemma proven_live_inv s e sid now t :
  proven_live s e sid now = Ok t ->
  proven s e sid = Some t /\ exists identity, check_credential t e now = Ok identity.
Proof.
  unfold proven_live. intros H0. apply Signed.bind_ok in H0 as (t' & Ht & H0).
  apply Signed.bind_ok in H0 as (i & Hi & [= <-]).
  unfold ok_or in Ht. destruct (proven s e sid); naive_solver.
Qed.


(** ** Tenancy over a connection's life *)

(** The session operations the proxy's runtime performs. *)
Inductive Op :=
| Begin (e : EndpointId) (sid : Z)
| ProveBound (e : EndpointId) (sid : Z) (t : ProvenTenant) (now : Z)
| RemoveIfCurrent (e : EndpointId) (sid : Z).

Definition step (s : Sessions) (op : Op) : Sessions :=
  match op with
  | Begin e sid => (begin s e sid).1
  | ProveBound e sid t now => (prove_bound s e sid t now).1
  | RemoveIfCurrent e sid => remove_if_current s e sid
  end.

Definition run (s : Sessions) (ops : list Op) : Sessions := fold_left step ops s.

(** [t'] renews [t]: the same owner, routing key, workload and application key,
    with authority that starts and ends no earlier. *)
Definition renews (t t' : ProvenTenant) : Prop :=
  owner_pubkey t' = owner_pubkey t /\ manifest_id t' = manifest_id t /\
  exists i i', identity_from_bytes (credential t) = Ok i /\ identity_from_bytes (credential t') = Ok i' /\
    workload_id (scope (delegation i')) = workload_id (scope (delegation i)) /\
    signing_public_key_b64 (claims i') = signing_public_key_b64 (claims i) /\
    claims_issued_at_secs (claims i) <= claims_issued_at_secs (claims i') /\
    claims_expires_at_secs (claims i) <= claims_expires_at_secs (claims i').

Lemma renews_trans t1 t2 t3 : renews t1 t2 -> renews t2 t3 -> renews t1 t3.
Proof.
  intros (? & ? & i1 & i2 & K1 & K2 & ? & ? & ? & ?) (? & ? & i2' & i3 & K2' & K3 & ? & ? & ? & ?).
  assert (i2' = i2) as -> by congruence.
  split_and!; [congruence..|]. exists i1, i3. split_and!; [done..|congruence|congruence|lia|lia].
Qed.

Definition sessions_verified (s : Sessions) : Prop :=
  forall e session t, s !! e = Some session -> tenant session = Some t ->
    exists at_secs identity, check_credential t e at_secs = Ok identity.

Lemma renews_refl t e now identity : check_credential t e now = Ok identity -> renews t t.
Proof.
  intros (Hi & _)%check_credential_inv. split_and!; [done..|]. exists identity, identity. split_and!; done || lia.
Qed.

Lemma prove_bound_effect s e sid t now :
  (prove_bound s e sid t now).1 = s \/
  exists session identity, s !! e = Some session /\ stable_id session = sid /\
    check_credential t e now = Ok identity /\
    (forall old, tenant session = Some old -> renews old t) /\
    (prove_bound s e sid t now).1 = <[e := {| stable_id := sid; tenant := Some t |}]> s.
Proof.
  unfold prove_bound. destruct (check_credential t e now) as [identity|] eqn:Hc; [|by left].
  destruct (s !! e) as [session|]; [|by left].
  destruct (Z.eqb_spec (stable_id session) sid) as [<-|]; [|by left].
  destruct (tenant session) as [old|] eqn:Ht.
  - destruct (check_renewal old t identity) as [[]|] eqn:Hr; [|by left].
    right. exists session, identity. split_and!; [done..| |done]. intros old' Hold.
    assert (old' = old) as -> by congruence. clear Hold. unfold check_renewal in Hr. apply Signed.bind_ok in Hr as (previous & Hp & Hr).
    Signed.result_inv Hr. rewrite !andb_true_iff, !bool_decide_eq_true, !Z.leb_le in *.
    destruct Hc0 as [[[? ?] ?] ?], Hc1 as [? ?]. apply check_credential_inv in Hc as [Hi _].
    split_and!; [done..|]. exists previous, identity. done.
  - right. exists session, identity. split_and!; try done. congruence.
Qed.

Lemma step_sessions_verified s op : sessions_verified s -> sessions_verified (step s op).
Proof.
  intros Hv. destruct op as [e sid|e sid t now|e sid]; cbn.
  - unfold begin. destruct (negb _); [|done]. intros e' session t. cbn.
    intros [[<- <-]|[_ Hl]]%lookup_insert_Some; cbn; [done|]. by apply Hv.
  - destruct (prove_bound_effect s e sid t now) as [->|(session & i & Hs & Hsid & Hc & _ & ->)]; [done|].
    intros e' session' t' [[<- <-]|[_ Hl]]%lookup_insert_Some; cbn; [|by apply Hv].
    intros [= <-]. eauto.
  - unfold remove_if_current. destruct (s !! e); [|done]. destruct (_ =? _); [|done].
    intros e' session' t' [_ Hl]%lookup_delete_Some. by apply Hv.
Qed.

Lemma run_sessions_verified s ops : sessions_verified s -> sessions_verified (run s ops).
Proof.
  unfold run. revert s. induction ops as [|op ops IH]; intros s Hv; [done|]. cbn.
  by apply IH, step_sessions_verified.
Qed.

Lemma step_renews s op e sid t0 :
  sessions_verified s -> proven s e sid = Some t0 -> op <> RemoveIfCurrent e sid ->
  exists t1, proven (step s op) e sid = Some t1 /\ renews t0 t1.
Proof.
  intros Hv Hp Hop. unfold proven in Hp. destruct (s !! e) as [session|] eqn:Hs; [|done]. cbn in Hp.
  destruct (Z.eqb_spec (stable_id session) sid) as [Hsid|]; [|done].
  assert (Hself : renews t0 t0) by (destruct (Hv _ _ _ Hs Hp) as (? & ? & Hc); by eapply renews_refl).
  assert (Hsame : forall s', s' !! e = Some session -> exists t1, proven s' e sid = Some t1 /\ renews t0 t1).
  { intros s' Hs'. exists t0. split; [|done]. unfold proven. rewrite Hs'. cbn.
    by rewrite (proj2 (Z.eqb_eq _ _) Hsid). }
  destruct op as [e' sid'|e' sid' t now|e' sid']; cbn.
  - apply Hsame. unfold begin. destruct (contains_key e' s) eqn:Hk; [done|]. cbn.
    apply contains_key_false in Hk. rewrite lookup_insert_ne; [done|congruence].
  - destruct (prove_bound_effect s e' sid' t now) as [->|(session' & i & Hs' & Hsid' & Hc & Hren & ->)];
      [by apply Hsame|].
    destruct (decide (e' = e)) as [->|Hne]; [|apply Hsame; by rewrite lookup_insert_ne].
    assert (session' = session) as -> by congruence. exists t. split; [|by apply Hren].
    unfold proven. rewrite lookup_insert_eq. cbn. by rewrite (proj2 (Z.eqb_eq _ _)) by congruence.
  - apply Hsame. unfold remove_if_current. destruct (s !! e') as [session'|] eqn:Hs'; [|done].
    destruct (Z.eqb_spec (stable_id session') sid') as [<-|]; [|done].
    rewrite lookup_delete_ne; [done|]. intros ->. destruct Hop. congruence.
Qed.

(** What a connection has proven stays: as long as that very connection is
    not closed, whatever other connections open, close or prove, and whatever
    this one presents again, it keeps a proven tenant with the same owner,
    routing key, workload and application key, whose authority was verified for
    this endpoint and never shrinks. *)
Theorem proven_tenant_stable (before after : list Op) (e : EndpointId) (sid : Z) (t0 : ProvenTenant)
    (Hproven : proven (run ∅ before) e sid = Some t0) (Hopen : RemoveIfCurrent e sid ∉ after) :
  exists t1, proven (run (run ∅ before) after) e sid = Some t1 /\ renews t0 t1 /\
    exists at_secs identity, check_credential t1 e at_secs = Ok identity.
Proof.
  assert (Hv : sessions_verified (run ∅ before)).
  { apply run_sessions_verified. intros ? ? ?. by rewrite lookup_empty. }
  revert Hv Hproven. generalize (run ∅ before) as s. intros s Hv Hproven.
  pose proof (run_sessions_verified s after Hv) as Hv'.
  assert (exists t1, proven (run s after) e sid = Some t1 /\ renews t0 t1) as (t1 & Hp1 & Hr).
  { clear Hv'. assert (Hself : renews t0 t0).
    { unfold proven in Hproven. destruct (s !! e) as [session|] eqn:Hs; [|done]. cbn in Hproven.
      destruct (_ =? _); [|done]. destruct (Hv _ _ _ Hs Hproven) as (? & ? & Hc). by eapply renews_refl. }
    revert t0 s Hv Hproven Hself. induction after as [|op ops IH]; intros t0 s Hv Hp Hself; [eauto|].
    apply not_elem_of_cons in Hopen as [Hop Hopen].
    destruct (step_renews s op e sid t0 Hv Hp) as (t1 & Hp1 & Hr); [congruence|].
    destruct (IH Hopen t1 (step s op)) as (t2 & Hp2 & Hr2); [by apply step_sessions_verified|done| |].
    - destruct Hr as (_ & _ & i & i' & _ & Hi' & _). split_and!; [done..|]. exists i', i'. split_and!; done || lia.
    - exists t2. split; [done|]. by eapply renews_trans. }
  exists t1. split_and!; [done..|].
  unfold proven in Hp1. destruct (run s after !! e) as [session|] eqn:Hs; [|done]. cbn in Hp1.
  destruct (_ =? _); [|done]. by apply (Hv' e session).
Qed.

End Admission.

(** ** Witness *)
Import Workload.Sample.
#[local] Existing Instance ToyIroh.iroh.

Definition sample_tenant : ProvenTenant := {|
  owner_pubkey := b64_encode (Crypto.Toy.sample_key 3); manifest_id := hex "a"%char; credential := [Byte.x00] |}.

Definition sample_endpoint : @EndpointId ToyIroh.iroh := Byte.x07.
Definition sample_to_string (e : @EndpointId ToyIroh.iroh) : string := hex "e"%char.
Definition sample_before : list Op :=
  [Begin sample_endpoint 1; ProveBound sample_endpoint 1 sample_tenant 2000].
Definition sample_after : list Op := [Begin sample_endpoint 2; RemoveIfCurrent sample_endpoint 2].

Lemma proven_tenant_stable_witness :
  exists t1, proven (run sample_to_string (run sample_to_string ∅ sample_before) sample_after)
    sample_endpoint 1 = Some t1.
Proof.
  destruct (proven_tenant_stable sample_to_string sample_before sample_after sample_endpoint 1 sample_tenant)
    as (t1 & Ht1 & _); [vm_compute; reflexivity| |by exists t1].
  unfold sample_after. rewrite !not_elem_of_cons.
  split_and!; [discriminate|discriminate|apply not_elem_of_nil].
Defined.

End Admission.
