(* ===== verification/Reconciliation.v ===== *)
(** * Reconciliation (shared/protocol/src/reconciliation.rs,
      podmesh-scheduler/src/machine/reconciliation.rs, reconciliation_service.rs,
      reconciliation_responder.rs, reconciliation_handler.rs)

    An owner asks what the mesh runs for them.  The scheduler opens a pending
    reconciliation, publishes a signed query, and collects the signed answers
    of the other schedulers, each carrying what one of their agents sealed for
    the owner.  This file models the messages, the registry of pending
    reconciliations, and the service around it. *)

From S2P Require Import Prelude Net Crypto Signed EndpointRecord MeshProtocol Identity RustOrd.

Module Reconciliation.
Import Crypto RustOrd.
Import EndpointRecord (EndpointRecord, IROH_ENDPOINT_ID_BYTES).

(** ** The owner's request (shared/protocol/src/agent.rs) *)
Module ListRequest.

Definition AGENT_PROTOCOL_VERSION : Z := 1.
Definition MAX_AGENT_MESSAGE_LIFETIME_SECS : Z := 300.
Definition MAX_AGENT_CLOCK_SKEW_SECS : Z := 60.
Definition MAX_WORKLOAD_LIST_REQUEST_BYTES : Z := 4 * 1024.

Record WorkloadListRequest := {
  version : Z;
  request_id : string;
  namespace_id : string;
  response_kem_pubkey : string;
  issued_at_secs : Z;
  expires_at_secs : Z;
  nonce : string;
  owner_signature : string
}.

Definition set_owner_signature (s : string) (r : WorkloadListRequest) : WorkloadListRequest :=
  {| version := version r; request_id := request_id r; namespace_id := namespace_id r;
     response_kem_pubkey := response_kem_pubkey r; issued_at_secs := issued_at_secs r;
     expires_at_secs := expires_at_secs r; nonce := nonce r; owner_signature := s |}.

Definition validate_validity_window (issued expires now_secs : Z) : Result unit :=
  ensure! issued <=? saturating_add u64_max now_secs MAX_AGENT_CLOCK_SKEW_SECS
    else Err "issued too far in the future" ;;
  ensure! issued <? expires else Err "expires before it was issued" ;;
  ensure! expires - issued <=? MAX_AGENT_MESSAGE_LIFETIME_SECS else Err "lifetime exceeds limit" ;;
  ensure! now_secs <=? saturating_add u64_max expires MAX_AGENT_CLOCK_SKEW_SECS else Err "expired" ;;
  Ok tt.

Section Operations.
Context {P : Primitives} {C : Postcard WorkloadListRequest}.

Definition decode_fixed (value : string) (expected : Z) : Result bytes :=
  decoded ← b64_decode value;
  ensure! len decoded =? expected else Err "field decodes to the wrong number of bytes" ;;
  Ok decoded.

Definition canonical (r : WorkloadListRequest) : Result bytes :=
  ok_or (to_allocvec r) "serialize workload list request".

Definition canonical_bytes (r : WorkloadListRequest) : Result bytes :=
  canonical (set_owner_signature "" r).

Definition sign (r : WorkloadListRequest) (owner_private : bytes) : Result WorkloadListRequest :=
  canonical ← canonical_bytes r;
  signature ← sign_domain owner_private Crypto.WorkloadListRequest canonical;
  Ok (set_owner_signature (b64_encode signature) r).

Definition verify (r : WorkloadListRequest) (now_secs : Z) : Result unit :=
  ensure! version r =? AGENT_PROTOCOL_VERSION else Err "unsupported workload list version" ;;
  owner ← decode_fixed (namespace_id r) 32;
  _ ← decode_fixed (response_kem_pubkey r) 32;
  ensure! negb (str_is_empty (request_id r)) && (str_len (request_id r) <=? 128)
    else Err "invalid request_id" ;;
  ensure! negb (str_is_empty (nonce r)) && (str_len (nonce r) <=? 128) else Err "invalid nonce" ;;
  _ ← validate_validity_window (issued_at_secs r) (expires_at_secs r) now_secs;
  signature ← decode_fixed (owner_signature r) 64;
  canonical ← canonical_bytes r;
  verify_domain owner Crypto.WorkloadListRequest canonical signature.

Definition to_bytes (r : WorkloadListRequest) : Result bytes := canonical r.

Definition from_bytes (b : bytes) (now_secs : Z) : Result WorkloadListRequest :=
  ensure! len b <=? MAX_WORKLOAD_LIST_REQUEST_BYTES else Err "workload list request exceeds limit" ;;
  request ← ok_or (from_postcard b) "decode workload list request";
  _ ← verify request now_secs;
  Ok request.

End Operations.
End ListRequest.

(** ** The messages between schedulers *)

Definition RECONCILIATION_PROTOCOL_VERSION : Z := 1.
Definition MAX_RECONCILIATION_LIFETIME_SECS : Z := 15.
Definition MAX_RECONCILIATION_CLOCK_SKEW_SECS : Z := 5.
Definition MAX_RECONCILIATION_QUERY_ID_BYTES : Z := 128.
Definition MAX_AGENT_CONTROL_PAYLOAD_BYTES : Z := 20 * 1024 * 1024.
Definition MAX_RECONCILIATION_RESPONSE_BYTES : Z := MAX_AGENT_CONTROL_PAYLOAD_BYTES + 4 * 1024.

Definition validate_query_id (query_id : string) : Result unit :=
  ensure! negb (str_is_empty query_id) && (str_len query_id <=? MAX_RECONCILIATION_QUERY_ID_BYTES)
    else Err "reconciliation query id length is invalid" ;;
  Ok tt.

Definition validate_endpoint_id (endpoint_id : bytes) : Result unit :=
  ensure! len endpoint_id =? IROH_ENDPOINT_ID_BYTES
    else Err "reconciliation EndpointId must contain 32 bytes" ;;
  Ok tt.

Definition validate_window (issued expires now_secs : Z) : Result unit :=
  ensure! issued <=? saturating_add u64_max now_secs MAX_RECONCILIATION_CLOCK_SKEW_SECS
    else Err "reconciliation query was issued too far in the future" ;;
  ensure! (issued <? expires) && (expires - issued <=? MAX_RECONCILIATION_LIFETIME_SECS)
    else Err "reconciliation query lifetime is invalid" ;;
  ensure! now_secs <=? saturating_add u64_max expires MAX_RECONCILIATION_CLOCK_SKEW_SECS
    else Err "reconciliation query expired" ;;
  Ok tt.

Module Query.

Record SchedulerReconciliationQuery := {
  version : Z;
  query_id : string;
  owner_request : bytes;
  reply_endpoint : EndpointRecord;
  issued_at_secs : Z;
  expires_at_secs : Z;
  signing_pubkey : string;
  signature : string
}.

Definition set_signing_pubkey (s : string) (q : SchedulerReconciliationQuery) : SchedulerReconciliationQuery :=
  {| version := version q; query_id := query_id q; owner_request := owner_request q;
     reply_endpoint := reply_endpoint q; issued_at_secs := issued_at_secs q;
     expires_at_secs := expires_at_secs q; signing_pubkey := s; signature := signature q |}.
Definition set_signature (s : string) (q : SchedulerReconciliationQuery) : SchedulerReconciliationQuery :=
  {| version := version q; query_id := query_id q; owner_request := owner_request q;
     reply_endpoint := reply_endpoint q; issued_at_secs := issued_at_secs q;
     expires_at_secs := expires_at_secs q; signing_pubkey := signing_pubkey q; signature := s |}.

Section Operations.
Context {P : Primitives} {CR : Postcard EndpointRecord}.
Context {CL : Postcard ListRequest.WorkloadListRequest} {C : Postcard SchedulerReconciliationQuery}.

Definition validate_unsigned (q : SchedulerReconciliationQuery) (now_secs : Z) : Result unit :=
  ensure! version q =? RECONCILIATION_PROTOCOL_VERSION
    else Err "unsupported reconciliation query version" ;;
  _ ← validate_query_id (query_id q);
  _ ← validate_window (issued_at_secs q) (expires_at_secs q) now_secs;
  _ ← ListRequest.from_bytes (owner_request q) now_secs;
  _ ← EndpointRecord.verify (reply_endpoint q) now_secs;
  ensure! bool_decide (EndpointRecord.signing_pubkey (reply_endpoint q) = signing_pubkey q)
    else Err "reconciliation reply endpoint does not belong to the query signer" ;;
  Ok tt.

Definition canonical_bytes (q : SchedulerReconciliationQuery) : Result bytes :=
  ok_or (to_allocvec (set_signature "" q)) "serialize canonical reconciliation query".

Definition sign (q : SchedulerReconciliationQuery) (signing_public signing_private : bytes) (now_secs : Z)
    : Result SchedulerReconciliationQuery :=
  let q := set_signature "" (set_signing_pubkey (b64_encode signing_public) q) in
  _ ← validate_unsigned q now_secs;
  canonical ← canonical_bytes q;
  signature ← sign_domain signing_private Crypto.SchedulerReconciliationQuery canonical;
  Ok (set_signature (b64_encode signature) q).

Definition verify (q : SchedulerReconciliationQuery) (now_secs : Z) : Result unit :=
  _ ← validate_unsigned q now_secs;
  public ← b64_decode (signing_pubkey q);
  signature ← b64_decode (signature q);
  canonical ← canonical_bytes q;
  verify_domain public Crypto.SchedulerReconciliationQuery canonical signature.

End Operations.
End Query.

Inductive ReconciliationEvent :=
| AgentAnswer (agent_endpoint_id sealed_response : bytes)
| AgentUnreachable (agent_endpoint_id : bytes)
| Complete.

Module Response.

Record SchedulerReconciliationResponse := {
  version : Z;
  query_id : string;
  responder_endpoint : EndpointRecord;
  event : ReconciliationEvent;
  responded_at_secs : Z;
  signing_pubkey : string;
  signature : string
}.

Definition set_signing_pubkey (s : string) (r : SchedulerReconciliationResponse)
    : SchedulerReconciliationResponse :=
  {| version := version r; query_id := query_id r; responder_endpoint := responder_endpoint r;
     event := event r; responded_at_secs := responded_at_secs r; signing_pubkey := s;
     signature := signature r |}.
Definition set_signature (s : string) (r : SchedulerReconciliationResponse) : SchedulerReconciliationResponse :=
  {| version := version r; query_id := query_id r; responder_endpoint := responder_endpoint r;
     event := event r; responded_at_secs := responded_at_secs r; signing_pubkey := signing_pubkey r;
     signature := s |}.

Section Operations.
Context {P : Primitives} {CR : Postcard EndpointRecord} {C : Postcard SchedulerReconciliationResponse}.

Definition validate_event (e : ReconciliationEvent) : Result unit :=
  match e with
  | AgentAnswer agent_endpoint_id sealed_response =>
      _ ← validate_endpoint_id agent_endpoint_id;
      ensure! negb (bool_decide (sealed_response = [])) &&
              (len sealed_response <=? MAX_AGENT_CONTROL_PAYLOAD_BYTES)
        else Err "sealed reconciliation answer size is invalid" ;;
      Ok tt
  | AgentUnreachable agent_endpoint_id => validate_endpoint_id agent_endpoint_id
  | Complete => Ok tt
  end.

Definition validate_unsigned (r : SchedulerReconciliationResponse) (now_secs : Z) : Result unit :=
  ensure! version r =? RECONCILIATION_PROTOCOL_VERSION
    else Err "unsupported reconciliation response version" ;;
  _ ← validate_query_id (query_id r);
  _ ← EndpointRecord.verify (responder_endpoint r) now_secs;
  ensure! bool_decide (EndpointRecord.signing_pubkey (responder_endpoint r) = signing_pubkey r)
    else Err "reconciliation responder endpoint does not belong to the signer" ;;
  ensure! responded_at_secs r <=? saturating_add u64_max now_secs MAX_RECONCILIATION_CLOCK_SKEW_SECS
    else Err "reconciliation response was issued too far in the future" ;;
  validate_event (event r).

Definition canonical_bytes (r : SchedulerReconciliationResponse) : Result bytes :=
  ok_or (to_allocvec (set_signature "" r)) "serialize canonical reconciliation response".

Definition sign (r : SchedulerReconciliationResponse) (signing_public signing_private : bytes) (now_secs : Z)
    : Result SchedulerReconciliationResponse :=
  let r := set_signature "" (set_signing_pubkey (b64_encode signing_public) r) in
  _ ← validate_unsigned r now_secs;
  canonical ← canonical_bytes r;
  signature ← sign_domain signing_private Crypto.SchedulerReconciliationResponse canonical;
  Ok (set_signature (b64_encode signature) r).

Definition verify (r : SchedulerReconciliationResponse) (now_secs : Z) : Result unit :=
  _ ← validate_unsigned r now_secs;
  public ← b64_decode (signing_pubkey r);
  signature ← b64_decode (signature r);
  canonical ← canonical_bytes r;
  verify_domain public Crypto.SchedulerReconciliationResponse canonical signature.

Definition to_bytes (r : SchedulerReconciliationResponse) (now_secs : Z) : Result bytes :=
  _ ← verify r now_secs;
  b ← ok_or (to_allocvec r) "serialize reconciliation response";
  ensure! negb (bool_decide (b = [])) && (len b <=? MAX_RECONCILIATION_RESPONSE_BYTES)
    else Err "reconciliation response size is invalid" ;;
  Ok b.

Definition from_bytes (b : bytes) (now_secs : Z) : Result SchedulerReconciliationResponse :=
  ensure! negb (bool_decide (b = [])) && (len b <=? MAX_RECONCILIATION_RESPONSE_BYTES)
    else Err "reconciliation response size is invalid" ;;
  response ← ok_or (from_postcard b) "decode reconciliation response";
  _ ← verify response now_secs;
  Ok response.

End Operations.
End Response.

Import Query (SchedulerReconciliationQuery).
Import Response (SchedulerReconciliationResponse).

(** ** The registry of pending reconciliations *)

Definition MAX_RECONCILIATION_AGENTS : Z := 2048.
Definition MAX_PENDING_RECONCILIATIONS : Z := 32.
Definition MAX_RECONCILIATION_ANSWER_BYTES : Z := 32 * 1024 * 1024.
Definition MAX_TOTAL_RECONCILIATION_ANSWER_BYTES : Z := 64 * 1024 * 1024.

Record ReconciliationAnswer `{Iroh} := { answer_agent : EndpointId; sealed_response : bytes }.

Record ReconciliationOutcome `{Iroh} := {
  outcome_answers : list ReconciliationAnswer;
  outcome_unreachable_agents : list EndpointId;
  outcome_unreachable_schedulers : list EndpointId
}.

Record Pending `{Iroh} := {
  expected : gset EndpointId;
  completed : gset EndpointId;
  answers : gmap EndpointId bytes;
  unreachable_agents : gset EndpointId;
  answer_bytes : Z
}.

Record RegistryState `{Iroh} := { pending : gmap string Pending; total_bytes : Z }.

Section Registry.
Context {I : Iroh}.

(** [ReconciliationRegistry::new]: the state and the effective limit. *)
Definition new_registry (max_pending : Z) : RegistryState * Z :=
  ({| pending := ∅; total_bytes := 0 |}, Z.min max_pending MAX_PENDING_RECONCILIATIONS).

Definition decode_endpoint (b : bytes) : Result EndpointId :=
  fixed ← try_into IROH_ENDPOINT_ID_BYTES b "reconciliation EndpointId length is invalid";
  ok_or (id_from_bytes fixed) "reconciliation EndpointId is invalid".

Definition begin (max_pending : Z) (st : RegistryState) (query_id : string) (expected : gset EndpointId)
    : RegistryState * Result unit :=
  ensure! map_len (pending st) <? max_pending else (st, Err "scheduler reconciliation limit reached") ;;
  ensure! negb (contains_key query_id (pending st))
    else (st, Err "duplicate scheduler reconciliation query id") ;;
  ({| pending := <[query_id := {| expected := expected; completed := ∅; answers := ∅;
                                  unreachable_agents := ∅; answer_bytes := 0 |}]> (pending st);
      total_bytes := total_bytes st |}, Ok tt).

(** The limits an answer of a new agent has to fit in. *)
Definition check_answer (st : RegistryState) (p : Pending) (agent : EndpointId) (sealed : bytes) : Result unit :=
  if contains_key agent (answers p) then Ok tt else
  ensure! map_len (answers p) + set_len (unreachable_agents p) <? MAX_RECONCILIATION_AGENTS
    else Err "reconciliation agent answer limit reached" ;;
  ensure! saturating_add usize_max (answer_bytes p) (len sealed) <=? MAX_RECONCILIATION_ANSWER_BYTES
    else Err "reconciliation query answer byte limit reached" ;;
  ensure! saturating_add usize_max (total_bytes st) (len sealed) <=? MAX_TOTAL_RECONCILIATION_ANSWER_BYTES
    else Err "scheduler reconciliation answer memory limit reached" ;;
  Ok tt.

(** The pending reconciliation after an event, and the bytes it added. *)
Definition apply_event (st : RegistryState) (p : Pending) (scheduler : EndpointId) (event : ReconciliationEvent)
    : Result (Pending * Z) :=
  match event with
  | AgentAnswer agent_endpoint_id sealed =>
      agent ← decode_endpoint agent_endpoint_id;
      _ ← check_answer st p agent sealed;
      let unreachable := unreachable_agents p ∖ {[agent]} in
      if contains_key agent (answers p)
      then Ok ({| expected := expected p; completed := completed p; answers := answers p;
                  unreachable_agents := unreachable; answer_bytes := answer_bytes p |}, 0)
      else Ok ({| expected := expected p; completed := completed p;
                  answers := <[agent := sealed]> (answers p); unreachable_agents := unreachable;
                  answer_bytes := answer_bytes p + len sealed |}, len sealed)
  | AgentUnreachable agent_endpoint_id =>
      agent ← decode_endpoint agent_endpoint_id;
      if contains_key agent (answers p) then Ok (p, 0) else
      ensure! (map_len (answers p) + set_len (unreachable_agents p) <? MAX_RECONCILIATION_AGENTS) ||
              bool_decide (agent ∈ unreachable_agents p)
        else Err "reconciliation agent answer limit reached" ;;
      Ok ({| expected := expected p; completed := completed p; answers := answers p;
             unreachable_agents := {[agent]} ∪ unreachable_agents p; answer_bytes := answer_bytes p |}, 0)
  | Complete =>
      Ok ({| expected := expected p; completed := {[scheduler]} ∪ completed p; answers := answers p;
             unreachable_agents := unreachable_agents p; answer_bytes := answer_bytes p |}, 0)
  end.

Definition record (st : RegistryState) (authenticated_scheduler : EndpointId)
    (response : SchedulerReconciliationResponse) : RegistryState * Result unit :=
  try! responder := decode_endpoint (EndpointRecord.endpoint_id (Response.responder_endpoint response)) in st ;;
  ensure! bool_decide (responder = authenticated_scheduler)
    else (st, Err "reconciliation response endpoint does not match authenticated scheduler") ;;
  match pending st !! Response.query_id response with
  | None => (st, Ok tt)
  | Some p =>
    ensure! bool_decide (authenticated_scheduler ∈ expected p)
      else (st, Err "unexpected scheduler answered reconciliation query") ;;
    try! applied := apply_event st p authenticated_scheduler (Response.event response) in st ;;
    ({| pending := <[Response.query_id response := applied.1]> (pending st);
        total_bytes := total_bytes st + applied.2 |}, Ok tt)
  end.

Definition cancel (st : RegistryState) (query_id : string) : RegistryState :=
  match pending st !! query_id with
  | Some p => {| pending := delete query_id (pending st);
                 total_bytes := saturating_sub (total_bytes st) (answer_bytes p) |}
  | None => st
  end.

Definition by_bytes (a b : EndpointId) : comparison := bytes_compare (id_as_bytes a) (id_as_bytes b).

Definition outcome_of (p : Pending) : ReconciliationOutcome :=
  {| outcome_answers :=
       sort_unstable (fun a b => by_bytes (answer_agent a) (answer_agent b))
         ((fun kv => {| answer_agent := kv.1; sealed_response := kv.2 |}) <$> map_to_list (answers p));
     outcome_unreachable_agents := sort_unstable by_bytes (elements (unreachable_agents p));
     outcome_unreachable_schedulers := sort_unstable by_bytes (elements (expected p ∖ completed p)) |}.

(** The second lock section of [finish]. *)
Definition collect_outcome (st : RegistryState) (query_id : string) : RegistryState * Result ReconciliationOutcome :=
  match pending st !! query_id with
  | None => (st, Err "scheduler reconciliation state disappeared")
  | Some p => (cancel st query_id, Ok (outcome_of p))
  end.

(** What the tasks of the scheduler do to the registry. *)
Inductive Op :=
| Begin (query_id : string) (expected : gset EndpointId)
| Record (scheduler : EndpointId) (response : SchedulerReconciliationResponse)
| Cancel (query_id : string)
| Collect (query_id : string).

Definition step (max_pending : Z) (st : RegistryState) (op : Op) : RegistryState :=
  match op with
  | Begin id expected => (begin max_pending st id expected).1
  | Record scheduler response => (record st scheduler response).1
  | Cancel id => cancel st id
  | Collect id => (collect_outcome st id).1
  end.

Definition run (max_pending : Z) (st : RegistryState) (ops : list Op) : RegistryState :=
  fold_left (step max_pending) ops st.

Definition registry_ops (schedule : list (Op + bool)) : list Op :=
  omap (fun x => match x with inl op => Some op | inr _ => None end) schedule.

(** The wait of [finish]: a schedule of the other tasks' operations and of the
    task's own polls, each telling whether the timeout has elapsed.  Every
    operation that could complete the reconciliation notifies the task, so a
    poll sees it.  The schedule goes on to the moment the task takes the lock
    again. *)
Fixpoint await_complete (max_pending : Z) (query_id : string) (schedule : list (Op + bool)) (st : RegistryState)
    : option RegistryState :=
  match schedule with
  | [] => None
  | inl op :: rest => await_complete max_pending query_id rest (step max_pending st op)
  | inr timed_out :: rest =>
      if timed_out || match pending st !! query_id with
                      | Some p => bool_decide (completed p = expected p)
                      | None => true
                      end
      then Some (run max_pending st (registry_ops rest))
      else await_complete max_pending query_id rest st
  end.

Definition finish (max_pending : Z) (st : RegistryState) (query_id : string) (schedule : list (Op + bool))
    : option (RegistryState * Result ReconciliationOutcome) :=
  st ← await_complete max_pending query_id schedule st;
  Some (collect_outcome st query_id).

End Registry.

(** ** Answering and asking *)

Section Service.
Context {I : Iroh} {P : Primitives}.
Context {CR : Postcard EndpointRecord} {CL : Postcard ListRequest.WorkloadListRequest}.
Context {CQ : Postcard SchedulerReconciliationQuery} {CS : Postcard SchedulerReconciliationResponse}.

(** [ReconciliationResponder::collect]: [finished] lists the attached agents in
    the order their probes finish, [probe] is what forwarding the owner's
    request to an agent gives. *)
Definition collect (forwarder_installed : bool) (finished : list EndpointId)
    (probe : EndpointId -> Result bytes) : Result (list ReconciliationEvent) :=
  ensure! forwarder_installed else Err "agent control forwarder is not installed" ;;
  ensure! len finished <=? MAX_RECONCILIATION_AGENTS
    else Err "local agent count exceeds reconciliation fanout bound" ;;
  Ok (((fun agent => match probe agent with
                     | Ok sealed => AgentAnswer (id_as_bytes agent) sealed
                     | Err _ => AgentUnreachable (id_as_bytes agent)
                     end) <$> finished) ++ [Complete]).

Definition signed_response (identity : Identity.SchedulerIdentity) (addr : EndpointAddr) (query_id : string)
    (event : ReconciliationEvent) (now : Z) : Result SchedulerReconciliationResponse :=
  responder_endpoint ← Identity.endpoint_record identity addr now (now + MAX_RECONCILIATION_LIFETIME_SECS);
  Response.sign
    {| Response.version := RECONCILIATION_PROTOCOL_VERSION; Response.query_id := query_id;
       Response.responder_endpoint := responder_endpoint; Response.event := event;
       Response.responded_at_secs := now; Response.signing_pubkey := ""; Response.signature := "" |}
    (Identity.signing_public identity) (Identity.signing_private identity) now.

(** [answer_local]: each event is signed and recorded at a clock reading of its
    own, after operations of other tasks. *)
Fixpoint answer_events (max_pending : Z) (identity : Identity.SchedulerIdentity) (addr : EndpointAddr)
    (query_id : string) (events : list ReconciliationEvent) (moments : nat -> list Op * Z) (st : RegistryState)
    : RegistryState * Result unit :=
  match events with
  | [] => (st, Ok tt)
  | event :: rest =>
      let st := run max_pending st (moments 0%nat).1 in
      try! response := signed_response identity addr query_id event (moments 0%nat).2 in st ;;
      match record st (addr_id addr) response with
      | (st, Err e) => (st, Err e)
      | (st, Ok _) => answer_events max_pending identity addr query_id rest (fun n => moments (S n)) st
      end
  end.

Definition answer_local (max_pending : Z) (identity : Identity.SchedulerIdentity) (addr : EndpointAddr)
    (query_id : string) (collected : Result (list ReconciliationEvent)) (moments : nat -> list Op * Z)
    (st : RegistryState) : RegistryState * Result unit :=
  try! events := collected in st ;;
  answer_events max_pending identity addr query_id events moments st.

(** [reconcile]: [collected] is what the local agents answered, [publish] what
    the gossip publisher says, [schedule] what happens during the final wait.
    [None] while it still waits. *)
Definition reconcile (max_pending : Z) (identity : Identity.SchedulerIdentity) (addr : EndpointAddr)
    (members : list EndpointId) (query_id : string) (now : Z) (owner_request : bytes)
    (collected : Result (list ReconciliationEvent)) (moments : nat -> list Op * Z)
    (publish : SchedulerReconciliationQuery -> Result unit) (schedule : list (Op + bool))
    (st : RegistryState) : option (RegistryState * Result ReconciliationOutcome) :=
  let expected := {[addr_id addr]} ∪ list_to_set members in
  match begin max_pending st query_id expected with
  | (st, Err e) => Some (st, Err e)
  | (st, Ok _) =>
    match Identity.endpoint_record identity addr now (now + MAX_RECONCILIATION_LIFETIME_SECS) with
    | Err e => Some (st, Err e)
    | Ok reply_endpoint =>
      match Query.sign
              {| Query.version := RECONCILIATION_PROTOCOL_VERSION; Query.query_id := query_id;
                 Query.owner_request := owner_request; Query.reply_endpoint := reply_endpoint;
                 Query.issued_at_secs := now; Query.expires_at_secs := now + MAX_RECONCILIATION_LIFETIME_SECS;
                 Query.signing_pubkey := ""; Query.signature := "" |}
              (Identity.signing_public identity) (Identity.signing_private identity) now with
      | Err e => Some (st, Err e)
      | Ok query =>
        let st := (answer_local max_pending identity addr query_id collected moments st).1 in
        match publish query with
        | Err e => Some (cancel st query_id, Err e)
        | Ok _ => finish max_pending st query_id schedule
        end
      end
    end
  end.

(** One stream of [ReconciliationResponseHandler::accept]: what a remote
    scheduler sent. *)
Definition accept_response (is_member : EndpointId -> bool) (st : RegistryState) (remote : EndpointId)
    (received : bytes) (now : Z) : RegistryState * Result unit :=
  ensure! is_member remote else (st, Err "scheduler membership required") ;;
  try! response := Response.from_bytes received now in st ;;
  let responder := b ← (if len (EndpointRecord.endpoint_id (Response.responder_endpoint response)) =? IROH_ENDPOINT_ID_BYTES
                        then Some (EndpointRecord.endpoint_id (Response.responder_endpoint response)) else None);
                   id_from_bytes b in
  ensure! bool_decide (responder = Some remote)
    else (st, Err "reconciliation response signer does not match transport peer") ;;
  record st remote response.

End Service.

(** ** Invariant *)

Section Invariant.
Context {I : Iroh}.

Record pending_wf (p : Pending) : Prop := {
  wf_completed : completed p ⊆ expected p;
  wf_bytes : answer_bytes p = map_sum len (answers p);
  wf_bytes_bound : answer_bytes p <= MAX_RECONCILIATION_ANSWER_BYTES;
  wf_agents : map_len (answers p) + set_len (unreachable_agents p) <= MAX_RECONCILIATION_AGENTS;
  wf_disjoint : dom (answers p) ## unreachable_agents p
}.

Record registry_wf (max_pending : Z) (st : RegistryState) : Prop := {
  wf_pending_len : map_len (pending st) <= max_pending;
  wf_total : total_bytes st = map_sum answer_bytes (pending st);
  wf_total_bound : total_bytes st <= MAX_TOTAL_RECONCILIATION_ANSWER_BYTES;
  wf_each : forall id p, pending st !! id = Some p -> pending_wf p
}.

Lemma set_len_union_le (x : EndpointId) (s : gset EndpointId) : set_len ({[x]} ∪ s) <= set_len s + 1.
Proof. unfold set_len. pose proof (size_union_alt {[x]} s) as H. rewrite H, size_singleton.
  pose proof (subseteq_size (s ∖ {[x]}) s ltac:(set_solver)). lia. Qed.

Lemma set_len_difference_le (s t : gset EndpointId) : set_len (s ∖ t) <= set_len s.
Proof. unfold set_len. apply inj_le, subseteq_size. set_solver. Qed.

Lemma set_len_old (x : EndpointId) (s : gset EndpointId) : x ∈ s -> set_len ({[x]} ∪ s) = set_len s.
Proof. intros Hx. by replace ({[x]} ∪ s) with s by set_solver. Qed.

Lemma pending_bytes_nonneg p : pending_wf p -> 0 <= answer_bytes p.
Proof. intros [_ -> _ _ _]. apply map_sum_nonneg. intros. apply len_nonneg. Qed.

Lemma check_answer_ok st p agent sealed :
  check_answer st p agent sealed = Ok tt -> contains_key agent (answers p) = false ->
  map_len (answers p) + set_len (unreachable_agents p) < MAX_RECONCILIATION_AGENTS /\
  answer_bytes p + len sealed <= MAX_RECONCILIATION_ANSWER_BYTES /\
  total_bytes st + len sealed <= MAX_TOTAL_RECONCILIATION_ANSWER_BYTES.
Proof.
  unfold check_answer. intros H Hk. rewrite Hk in H. Signed.result_inv H.
  unfold saturating_add, usize_max, MAX_RECONCILIATION_ANSWER_BYTES, MAX_TOTAL_RECONCILIATION_ANSWER_BYTES in *. lia.
Qed.

Lemma apply_event_wf st p scheduler ev p' added :
  total_bytes st <= MAX_TOTAL_RECONCILIATION_ANSWER_BYTES ->
  scheduler ∈ expected p -> pending_wf p -> apply_event st p scheduler ev = Ok (p', added) ->
  pending_wf p' /\ expected p' = expected p /\ answer_bytes p' = answer_bytes p + added /\
  total_bytes st + added <= MAX_TOTAL_RECONCILIATION_ANSWER_BYTES.
Proof.
  intros Htot Hin [Hc Hb Hbb Ha Hd] H. destruct ev as [a sealed|a|]; cbn in H.
  - Signed.result_inv H. rename x into agent. destruct x0.
    destruct (contains_key agent (answers p)) eqn:Hk; simplify_eq; cbn.
    + split_and!; [|done|lia|lia]. split; cbn; try done; [|set_solver].
      pose proof (set_len_difference_le (unreachable_agents p) {[agent]}). lia.
    + destruct (check_answer_ok _ _ _ _ Hx0 Hk) as (? & ? & ?). apply contains_key_false in Hk.
      split_and!; [|done|done|done]. split; cbn; [done| |done| |].
      * rewrite map_sum_insert_new by done. lia.
      * rewrite map_len_insert_new by done.
        pose proof (set_len_difference_le (unreachable_agents p) {[agent]}). lia.
      * rewrite dom_insert_L. set_solver.
  - Signed.result_inv H. rename x into agent.
    destruct (contains_key agent (answers p)) eqn:Hk; simplify_eq; cbn; [split_and!; [done|done|lia|lia]|].
    Signed.result_inv H. simplify_eq. cbn. split_and!; [|done|lia|lia].
    apply contains_key_false in Hk. split; cbn; try done.
    + destruct (decide (agent ∈ unreachable_agents p)) as [Hu|Hu]; [by rewrite set_len_old|].
      rewrite (bool_decide_eq_false_2 _ Hu), orb_false_r in Hc0.
      pose proof (set_len_union_le agent (unreachable_agents p)). lia.
    + apply not_elem_of_dom in Hk. set_solver.
  - simplify_eq. cbn. split_and!; [|done|lia|lia]. split; cbn; try done. set_solver.
Qed.

(** At the agent limit an unreachable agent cannot become an answering one,
    although its answer would free the entry it replaces; reporting it
    unreachable again is accepted. *)
Lemma full_unreachable_answer_refused {L : IrohLaws I} st p scheduler agent sealed :
  map_len (answers p) + set_len (unreachable_agents p) = MAX_RECONCILIATION_AGENTS ->
  agent ∈ unreachable_agents p -> answers p !! agent = None ->
  apply_event st p scheduler (AgentAnswer (id_as_bytes agent) sealed)
    = Err "reconciliation agent answer limit reached" /\
  is_ok (apply_event st p scheduler (AgentUnreachable (id_as_bytes agent))) = true.
Proof.
  intros Hfull Hu Hn. unfold apply_event, decode_endpoint, check_answer.
  rewrite try_into_ok, Signed.bind_eq, id_roundtrip by apply id_bytes_len. cbn [ok_or].
  rewrite !Signed.bind_eq, (proj2 (contains_key_false _ _) Hn), Hfull, Z.ltb_irrefl.
  by rewrite bool_decide_true.
Qed.

Lemma begin_registry_wf max_pending st id e :
  registry_wf max_pending st -> registry_wf max_pending (begin max_pending st id e).1.
Proof.
  intros Hwf. unfold begin. destruct (_ <? _) eqn:Hlt; [|done].
  destruct (contains_key id (pending st)) eqn:Hk; [done|]. cbn. apply contains_key_false in Hk.
  destruct Hwf as [Hl Ht Hb He]. split; cbn.
  - rewrite map_len_insert_new by done. lia.
  - rewrite map_sum_insert_new by done. cbn. lia.
  - done.
  - intros id' p Hp. apply lookup_insert_Some in Hp as [[_ <-]|[_ Hp]]; [|eauto].
    split; cbn; [set_solver|symmetry; apply map_sum_empty| | |set_solver].
    + unfold MAX_RECONCILIATION_ANSWER_BYTES. lia.
    + by vm_compute.
Qed.

Lemma record_registry_wf max_pending st scheduler r :
  registry_wf max_pending st -> registry_wf max_pending (record st scheduler r).1.
Proof.
  intros Hwf. unfold record. destruct (decode_endpoint _); [|done]. case_bool_decide; [|done].
  destruct (pending st !! _) as [p|] eqn:Hp; [|done]. case_bool_decide as Hin; [|done].
  destruct (apply_event _ _ _ _) as [[p' added]|] eqn:Ha; [|done].
  destruct Hwf as [Hl Ht Hb He].
  apply (apply_event_wf _ _ _ _ _ _ Hb Hin (He _ _ Hp)) in Ha as (Hwf' & _ & Hbytes & Htot).
  split; cbn.
  - rewrite map_len_insert_old by eauto. done.
  - rewrite (map_sum_insert_old _ _ _ _ _ Hp). lia.
  - done.
  - intros id' q Hq. apply lookup_insert_Some in Hq as [[_ <-]|[_ Hq]]; eauto.
Qed.

Lemma cancel_registry_wf max_pending st id :
  registry_wf max_pending st -> registry_wf max_pending (cancel st id).
Proof.
  intros Hwf. unfold cancel. destruct (pending st !! id) as [p|] eqn:Hp; [|done].
  destruct Hwf as [Hl Ht Hb He]. pose proof (pending_bytes_nonneg _ (He _ _ Hp)).
  assert (Hge : 0 <= map_sum answer_bytes (delete id (pending st))).
  { apply map_sum_nonneg. intros k q Hk. apply lookup_delete_Some in Hk as [_ Hk].
    eauto using pending_bytes_nonneg. }
  rewrite (map_sum_delete _ _ _ _ Hp) in Hge. split; cbn.
  - pose proof (map_len_delete_le (pending st) id). lia.
  - rewrite (map_sum_delete _ _ _ _ Hp). unfold saturating_sub. lia.
  - unfold saturating_sub, MAX_TOTAL_RECONCILIATION_ANSWER_BYTES in *. lia.
  - intros k q Hk. apply lookup_delete_Some in Hk as [_ Hk]. eauto.
Qed.

Lemma step_registry_wf max_pending st op :
  registry_wf max_pending st -> registry_wf max_pending (step max_pending st op).
Proof.
  intros Hwf. destruct op; cbn; auto using begin_registry_wf, record_registry_wf, cancel_registry_wf.
  unfold collect_outcome. destruct (pending st !! _); cbn; auto using cancel_registry_wf.
Qed.

Lemma run_registry_wf max_pending st ops :
  registry_wf max_pending st -> registry_wf max_pending (run max_pending st ops).
Proof.
  revert st. induction ops as [|op ops IH]; intros st Hwf; [done|]. apply IH, step_registry_wf, Hwf.
Qed.

Lemma new_registry_wf max_pending :
  0 <= max_pending -> registry_wf (new_registry max_pending).2 (new_registry max_pending).1.
Proof.
  intros H. split; cbn; rewrite ?map_len_empty, ?map_sum_empty; [|done| |by intros ? ? ?%lookup_empty_Some].
  - unfold MAX_PENDING_RECONCILIATIONS. lia.
  - unfold MAX_TOTAL_RECONCILIATION_ANSWER_BYTES. lia.
Qed.

(** Whatever queries are opened, answered, cancelled and collected, the
    registry accounts for every byte it holds: the total is the sum over the
    pending reconciliations, each of these the sum of its answers, and the
    limits on reconciliations, agents and bytes hold.  Only expected schedulers
    complete, and no agent is both answered and unreachable. *)
Theorem registry_accounting (max_pending : Z) (ops : list Op) (Hmax : 0 <= max_pending) :
  let st := run (new_registry max_pending).2 (new_registry max_pending).1 ops in
  map_len (pending st) <= Z.min max_pending MAX_PENDING_RECONCILIATIONS /\
  total_bytes st = map_sum answer_bytes (pending st) /\
  total_bytes st <= MAX_TOTAL_RECONCILIATION_ANSWER_BYTES /\
  (forall id p, pending st !! id = Some p ->
     completed p ⊆ expected p /\ answer_bytes p = map_sum len (answers p) /\
     answer_bytes p <= MAX_RECONCILIATION_ANSWER_BYTES /\
     map_len (answers p) + set_len (unreachable_agents p) <= MAX_RECONCILIATION_AGENTS /\
     dom (answers p) ## unreachable_agents p).
Proof.
  destruct (run_registry_wf _ _ ops (new_registry_wf max_pending Hmax)) as [Hl Ht Hb He].
  split_and!; [done..|]. intros id p Hp. destruct (He id p Hp) as [? ? ? ? ?]. done.
Qed.

(** ** Where an outcome comes from *)

(** Some expected scheduler's response brought this answer. *)
Definition answered_by (id : string) (a : EndpointId) (sealed : bytes) (ops : list Op) : Prop :=
  exists scheduler r, Record scheduler r ∈ ops /\ Response.query_id r = id /\
    EndpointRecord.endpoint_id (Response.responder_endpoint r) = id_as_bytes scheduler /\
    Response.event r = AgentAnswer (id_as_bytes a) sealed.

(** The operations that open or close the reconciliation [id]. *)
Definition owns (id : string) (op : Op) : bool :=
  match op with
  | Begin id' _ | Cancel id' | Collect id' => bool_decide (id' = id)
  | Record _ _ => false
  end.

Lemma lookup_cancel st id id' p :
  pending (cancel st id) !! id' = Some p <-> id' <> id /\ pending st !! id' = Some p.
Proof.
  unfold cancel. destruct (pending st !! id) eqn:E; cbn; rewrite ?lookup_delete_Some; naive_solver.
Qed.

Lemma lookup_collect st id id' p :
  pending (collect_outcome st id).1 !! id' = Some p <-> id' <> id /\ pending st !! id' = Some p.
Proof.
  unfold collect_outcome. destruct (pending st !! id) eqn:E; cbn; [apply lookup_cancel|naive_solver].
Qed.

Lemma record_lookup st scheduler r id p' :
  pending (record st scheduler r).1 !! id = Some p' ->
  exists p, pending st !! id = Some p /\
    (p' = p \/ (Response.query_id r = id /\ scheduler ∈ expected p /\
       decode_endpoint (EndpointRecord.endpoint_id (Response.responder_endpoint r)) = Ok scheduler /\
       exists added, apply_event st p scheduler (Response.event r) = Ok (p', added))).
Proof.
  unfold record. destruct (decode_endpoint _) as [responder|] eqn:Hd; [|eauto].
  case_bool_decide; [|eauto]. subst responder.
  destruct (pending st !! Response.query_id r) as [p|] eqn:Hp; [|eauto].
  case_bool_decide as Hin; [|eauto]. destruct (apply_event _ _ _ _) as [[p0 added]|] eqn:Ha; [|eauto].
  cbn. intros H. apply lookup_insert_Some in H as [[<- <-]|[_ H]]; [|eauto].
  exists p. split; [done|]. right. eauto.
Qed.

Lemma step_lookup max_pending st op id p' :
  pending (step max_pending st op) !! id = Some p' ->
  (exists p, pending st !! id = Some p /\
    (p' = p \/ exists scheduler r added, op = Record scheduler r /\ Response.query_id r = id /\
       scheduler ∈ expected p /\
       decode_endpoint (EndpointRecord.endpoint_id (Response.responder_endpoint r)) = Ok scheduler /\
       apply_event st p scheduler (Response.event r) = Ok (p', added))) \/
  (owns id op = true /\ answers p' = ∅).
Proof.
  destruct op as [id' e|scheduler r|id'|id']; cbn.
  - unfold begin. destruct (_ <? _); [|eauto]. destruct (contains_key _ _); [eauto|]. cbn. intros H.
    apply lookup_insert_Some in H as [[-> <-]|[_ H]]; [|eauto]. right. by rewrite bool_decide_true.
  - intros (p & Hp & H)%record_lookup. left. exists p. split; [done|].
    destruct H as [|(? & ? & ? & added & ?)]; [by left|]. right. by exists scheduler, r, added.
  - intros [_ H]%lookup_cancel. eauto.
  - intros [_ H]%lookup_collect. eauto.
Qed.

Lemma decode_endpoint_ok {L : IrohLaws I} b e : decode_endpoint b = Ok e -> b = id_as_bytes e.
Proof.
  unfold decode_endpoint. intros H. Signed.result_inv H. apply try_into_inv in Hx as [_ ->].
  unfold ok_or in H. destruct (id_from_bytes b) eqn:E; [|done]. simplify_eq. symmetry. by apply id_from_bytes_inv.
Qed.

Lemma apply_event_answers {L : IrohLaws I} st p scheduler ev p' added a sealed :
  apply_event st p scheduler ev = Ok (p', added) -> answers p' !! a = Some sealed ->
  answers p !! a = Some sealed \/ ev = AgentAnswer (id_as_bytes a) sealed.
Proof.
  destruct ev as [b sl|b|]; cbn; intros H Ha.
  - Signed.result_inv H. apply decode_endpoint_ok in Hx as ->.
    destruct (contains_key _ _); simplify_eq; [by left|]. cbn in Ha.
    apply lookup_insert_Some in Ha as [[-> ->]|[_ Ha]]; [by right|by left].
  - Signed.result_inv H. destruct (contains_key _ _); simplify_eq; [by left|].
    Signed.result_inv H. simplify_eq. by left.
  - simplify_eq. by left.
Qed.

Lemma run_answered {L : IrohLaws I} max_pending st0 ops id p a sealed :
  pending st0 = ∅ -> pending (run max_pending st0 ops) !! id = Some p -> answers p !! a = Some sealed ->
  answered_by id a sealed ops.
Proof.
  intros H0. revert p. induction ops as [|op ops IH] using rev_ind; intros p Hp Ha.
  { cbn in Hp. rewrite H0 in Hp. by apply lookup_empty_Some in Hp. }
  unfold run in *. rewrite fold_left_app in Hp. cbn in Hp.
  assert (Hmono : answered_by id a sealed ops -> answered_by id a sealed (ops ++ [op])).
  { intros (s & r & ? & ?). exists s, r. split; [set_solver|done]. }
  apply step_lookup in Hp as [(q & Hq & [->|(s & r & added & -> & Hid & _ & Hd & He)])|[_ Hempty]].
  - eauto.
  - destruct (apply_event_answers _ _ _ _ _ _ _ _ He Ha) as [Ha'|Hev]; [eauto|].
    exists s, r. split_and!; [set_solver|done|by apply decode_endpoint_ok|done].
  - rewrite Hempty in Ha. by apply lookup_empty_Some in Ha.
Qed.

(** While nobody else opens or closes it, a complete reconciliation stays
    complete and a removed one stays removed. *)
Definition settled (id : string) (st : RegistryState) : Prop :=
  forall p, pending st !! id = Some p -> completed p = expected p.

Lemma step_settled max_pending st op id :
  registry_wf max_pending st -> owns id op = false -> settled id st -> settled id (step max_pending st op).
Proof.
  intros Hwf Ho Hs p' Hp. apply step_lookup in Hp as [(p & Hp & [->|(s & r & added & -> & _ & Hin & _ & He)])|[? _]];
    [by apply Hs| |congruence].
  specialize (Hs p Hp). destruct (Response.event r); cbn in He.
  - Signed.result_inv He. destruct (contains_key _ _); by simplify_eq.
  - Signed.result_inv He. destruct (contains_key _ _); [by simplify_eq|]. Signed.result_inv He. by simplify_eq.
  - simplify_eq. cbn. set_solver.
Qed.

Lemma run_settled max_pending st ops id :
  registry_wf max_pending st -> forallb (fun op => negb (owns id op)) ops = true ->
  settled id st -> settled id (run max_pending st ops).
Proof.
  revert st. induction ops as [|op ops IH]; intros st Hwf Ho Hs; [done|].
  cbn in Ho. apply andb_true_iff in Ho as [Ho Hrest]. apply negb_true_iff in Ho.
  apply (IH (step max_pending st op)); [by apply step_registry_wf|done|by apply step_settled].
Qed.

Lemma await_run max_pending id schedule st st' :
  await_complete max_pending id schedule st = Some st' -> st' = run max_pending st (registry_ops schedule).
Proof.
  revert st. induction schedule as [|[op|t] rest IH]; intros st; [done|apply IH|]. cbn.
  destruct (t || _); [by intros [= <-]|apply IH].
Qed.

Lemma await_settled max_pending id schedule st st' :
  registry_wf max_pending st -> (forall t, inr t ∈ schedule -> t = false) ->
  forallb (fun op => negb (owns id op)) (registry_ops schedule) = true ->
  await_complete max_pending id schedule st = Some st' -> settled id st'.
Proof.
  revert st. induction schedule as [|[op|t] rest IH]; intros st Hwf Ht Ho; [done|..]; cbn.
  - cbn in Ho. apply andb_true_iff in Ho as [_ Ho].
    apply IH; [by apply step_registry_wf|intros t Hin; apply Ht; by right|done].
  - rewrite (Ht t (list_elem_of_here _ _)). cbn.
    assert (Hrest : forall t', inr t' ∈ rest -> t' = false) by (intros t' ?; apply Ht; by right).
    destruct (pending st !! id) as [p|] eqn:Hp; [case_bool_decide as Hc|].
    + intros [= <-]. apply run_settled; [done|done|]. intros q Hq. congruence.
    + by apply IH.
    + intros [= <-]. apply run_settled; [done|done|]. intros q Hq. congruence.
Qed.

Lemma collect_Ok st id st' o :
  collect_outcome st id = (st', Ok o) ->
  exists p, pending st !! id = Some p /\ o = outcome_of p /\ pending st' !! id = None.
Proof.
  unfold collect_outcome. destruct (pending st !! id) as [p|] eqn:Hp; [|done]. intros [= <- <-].
  exists p. split_and!; [done..|]. apply eq_None_not_Some. intros [q Hq]. apply lookup_cancel in Hq. naive_solver.
Qed.

(** The outcome of a pending reconciliation: its maps as sorted lists. *)
Lemma outcome_contents p :
  (forall a, a ∈ outcome_answers (outcome_of p) <-> answers p !! answer_agent a = Some (sealed_response a)) /\
  outcome_unreachable_agents (outcome_of p) ≡ₚ elements (unreachable_agents p) /\
  answer_agent <$> outcome_answers (outcome_of p) ≡ₚ (map_to_list (answers p)).*1 /\
  outcome_unreachable_schedulers (outcome_of p) ≡ₚ elements (expected p ∖ completed p).
Proof.
  cbn. split_and!.
  - intros [a s]. rewrite sort_perm, list_elem_of_fmap. cbn. split.
    + intros ([k v] & [= -> ->] & Hin). by apply elem_of_map_to_list in Hin.
    + intros H. exists (a, s). split; [done|]. by apply elem_of_map_to_list.
  - apply sort_perm.
  - rewrite sort_perm. by rewrite <- list_fmap_compose.
  - apply sort_perm.
Qed.

(** What a finished reconciliation reports is what the mesh answered: every
    sealed answer came in a response to this query whose responder is the
    scheduler that sent it; no agent is listed twice, nor both as answering and
    as unreachable; when the wait did not time out, every expected scheduler
    completed; and the registry has forgotten the query. *)
Theorem outcome_faithful {L : IrohLaws I} (max_pending : Z) (ops : list Op) (id : string)
    (schedule : list (Op + bool)) (st' : RegistryState) (o : ReconciliationOutcome)
    (Hmax : 0 <= max_pending)
    (Hfin : finish (new_registry max_pending).2
              (run (new_registry max_pending).2 (new_registry max_pending).1 ops) id schedule = Some (st', Ok o)) :
  pending st' !! id = None /\
  NoDup ((answer_agent <$> outcome_answers o) ++ outcome_unreachable_agents o) /\
  (forall a, a ∈ outcome_answers o ->
     answered_by id (answer_agent a) (sealed_response a) (ops ++ registry_ops schedule)) /\
  ((forall t, inr t ∈ schedule -> t = false) ->
   forallb (fun op => negb (owns id op)) (registry_ops schedule) = true ->
   outcome_unreachable_schedulers o = []).
Proof.
  set (m := (new_registry max_pending).2) in *. set (st0 := (new_registry max_pending).1) in *.
  pose proof (run_registry_wf m st0 ops (new_registry_wf _ Hmax)) as Hwf.
  unfold finish in Hfin. destruct (await_complete _ _ _ _) as [st|] eqn:Haw; [|done]. cbn in Hfin.
  injection Hfin as Hfin. destruct (collect_Ok _ _ _ _ Hfin) as (p & Hp & -> & Hgone).
  destruct (outcome_contents p) as (Hans & Hun & Hag & Hsch).
  assert (Hst : st = run m st0 (ops ++ registry_ops schedule)).
  { rewrite (await_run _ _ _ _ _ Haw). unfold run. by rewrite fold_left_app. }
  destruct (wf_each _ _ (run_registry_wf m st0 (ops ++ registry_ops schedule) (new_registry_wf _ Hmax)) id p)
    as [_ _ _ _ Hd]; [by rewrite <- Hst|].
  split_and!; [done|..].
  - rewrite Hag, Hun. apply NoDup_app. split_and!; [apply NoDup_fst_map_to_list| |apply NoDup_elements].
    intros a Ha Hu. apply elem_of_elements in Hu. apply list_elem_of_fmap in Ha as ([k v] & -> & Hkv).
    apply elem_of_map_to_list, elem_of_dom_2 in Hkv. set_solver.
  - intros a Ha%Hans. eapply run_answered; [|by rewrite <- Hst|done]. done.
  - intros Ht Ho. pose proof (await_settled _ _ _ _ _ Hwf Ht Ho Haw p Hp) as Hc.
    apply Permutation_nil_r. rewrite Hsch, Hc. by rewrite difference_diag_L, elements_empty.
Qed.

Lemma step_keeps max_pending st op id :
  owns id op = false -> is_Some (pending st !! id) -> is_Some (pending (step max_pending st op) !! id).
Proof.
  destruct op as [id' e|scheduler r|id'|id']; cbn; intros Ho [p Hp].
  - unfold begin. destruct (_ <? _); [|eauto]. destruct (contains_key _ _); [eauto|]. cbn.
    rewrite lookup_insert_ne; [eauto|]. intros ->. by rewrite bool_decide_true in Ho.
  - unfold record. destruct (decode_endpoint _); [|eauto]. case_bool_decide; [|eauto].
    destruct (pending st !! Response.query_id r); [|eauto]. case_bool_decide; [|eauto].
    destruct (apply_event _ _ _ _); [|eauto]. cbn.
    destruct (decide (id = Response.query_id r)) as [->|]; [rewrite lookup_insert_eq; eauto|].
    rewrite lookup_insert_ne by congruence. eauto.
  - exists p. apply lookup_cancel. apply bool_decide_eq_false in Ho. naive_solver.
  - exists p. apply lookup_collect. apply bool_decide_eq_false in Ho. naive_solver.
Qed.

Lemma run_keeps max_pending st ops id :
  forallb (fun op => negb (owns id op)) ops = true ->
  is_Some (pending st !! id) -> is_Some (pending (run max_pending st ops) !! id).
Proof.
  revert st. induction ops as [|op ops IH]; intros st Ho Hp; [done|].
  cbn in Ho. apply andb_true_iff in Ho as [Ho Hrest]. apply negb_true_iff in Ho.
  apply (IH (step max_pending st op)); [done|by apply step_keeps].
Qed.

Lemma held_ids_len (ids : list string) (m : gmap string Pending) :
  NoDup ids -> (forall id, id ∈ ids -> is_Some (m !! id)) -> len ids <= map_len m.
Proof.
  intros Hnd Hin. unfold len, map_len. rewrite <- size_dom, <- (size_list_to_set (C := gset string) ids Hnd).
  apply inj_le, subseteq_size. intros id Hid. apply elem_of_list_to_set in Hid. apply elem_of_dom. auto.
Qed.

End Invariant.

Section Leak.
Context {I : Iroh} {P : Primitives}.
Context {CR : Postcard EndpointRecord} {CL : Postcard ListRequest.WorkloadListRequest}.
Context {CQ : Postcard SchedulerReconciliationQuery} {CS : Postcard SchedulerReconciliationResponse}.

(** One call of [reconcile] after another, each with the query id it draws and
    its clock reading; the calls considered here return at once. *)
Definition reconcile_all (max_pending : Z) (identity : Identity.SchedulerIdentity) (addr : EndpointAddr)
    (members : list EndpointId) (owner_request : bytes) (collected : Result (list ReconciliationEvent))
    (moments : nat -> list Op * Z) (publish : SchedulerReconciliationQuery -> Result unit)
    (calls : list (string * Z)) (st : RegistryState) : RegistryState :=
  fold_left (fun st call =>
    match reconcile max_pending identity addr members call.1 call.2 owner_request collected moments publish [] st with
    | Some (st, _) => st
    | None => st
    end) calls st.

Lemma reconcile_record_fails max_pending identity addr members id now owner_request collected moments publish
    schedule st :
  is_ok (Identity.endpoint_record identity addr now (now + MAX_RECONCILIATION_LIFETIME_SECS)) = false ->
  exists e, reconcile max_pending identity addr members id now owner_request collected moments publish schedule st =
    Some ((begin max_pending st id ({[addr_id addr]} ∪ list_to_set members)).1, Err e).
Proof.
  intros Hf. unfold reconcile. destruct (begin _ _ _ _) as [st' [[]|e]]; [|by exists e].
  destruct (Identity.endpoint_record _ _ _ _) as [|e]; [done|]. by exists e.
Qed.

(** From an empty registry with room, each failing call leaves exactly its own
    slot behind. *)
Lemma reconcile_all_dom max_pending identity addr members owner_request collected moments publish calls st0 :
  (forall call, call ∈ calls ->
     is_ok (Identity.endpoint_record identity addr call.2 (call.2 + MAX_RECONCILIATION_LIFETIME_SECS)) = false) ->
  NoDup calls.*1 -> len calls <= max_pending -> pending st0 = ∅ ->
  dom (pending (reconcile_all max_pending identity addr members owner_request collected moments publish calls st0))
  = list_to_set calls.*1.
Proof.
  intros Hf Hnd Hlen H0. induction calls as [|c calls IH] using rev_ind; [cbn; by rewrite H0, dom_empty_L|].
  rewrite fmap_app in *. apply NoDup_app in Hnd as (Hnd & Hc & _).
  assert (Hroom : len calls < max_pending) by len_lia.
  specialize (IH ltac:(intros; apply Hf; set_solver) Hnd ltac:(lia)).
  unfold reconcile_all in *. rewrite fold_left_app. cbn. set (st := fold_left _ calls st0) in *.
  destruct (reconcile_record_fails max_pending identity addr members c.1 c.2 owner_request collected moments
    publish [] st) as [e ->]; [apply Hf; set_solver|].
  assert (Hsize : map_len (pending st) = len calls).
  { unfold map_len, len. rewrite <- size_dom, IH, size_list_to_set by done. by rewrite length_fmap. }
  assert (Hnew : pending st !! c.1 = None).
  { apply not_elem_of_dom. rewrite IH, elem_of_list_to_set. intros Hin. apply (Hc _ Hin). set_solver. }
  unfold begin. rewrite Hsize, (proj2 (Z.ltb_lt _ _) Hroom), (proj2 (contains_key_false _ _) Hnew). cbn.
  rewrite dom_insert_L, IH, list_to_set_app_L. set_solver.
Qed.

(** A reconciliation that fails between opening its slot and publishing its
    query, because its own endpoint record cannot be built, never gives the slot
    back: once as many calls have failed as there are slots, every later
    reconciliation is refused, whatever else is opened, answered, cancelled or
    collected meanwhile. *)
Theorem failed_reconcile_keeps_slot (max_pending : Z) (identity : Identity.SchedulerIdentity)
    (addr : EndpointAddr) (members : list EndpointId) (owner_request : bytes)
    (collected : Result (list ReconciliationEvent)) (moments : nat -> list Op * Z)
    (publish : SchedulerReconciliationQuery -> Result unit) (calls : list (string * Z)) (later : list Op)
    (Hfail : forall call, call ∈ calls ->
       is_ok (Identity.endpoint_record identity addr call.2 (call.2 + MAX_RECONCILIATION_LIFETIME_SECS)) = false)
    (Hfresh : NoDup calls.*1) (Hslots : len calls = (new_registry max_pending).2)
    (Hlater : forall op call, op ∈ later -> call ∈ calls -> owns call.1 op = false) :
  let m := (new_registry max_pending).2 in
  let st := reconcile_all m identity addr members owner_request collected moments publish calls
              (new_registry max_pending).1 in
  forall id expected, (begin m (run m st later) id expected).2 = Err "scheduler reconciliation limit reached".
Proof.
  cbv zeta. set (m := (new_registry max_pending).2) in *. intros id expected.
  set (st := reconcile_all _ _ _ _ _ _ _ _ _ _).
  assert (Hheld : forall k, k ∈ calls.*1 -> is_Some (pending (run m st later) !! k)).
  { intros k Hk. apply run_keeps.
    - apply forallb_forall. intros op Hop%list_elem_of_In. apply negb_true_iff.
      apply list_elem_of_fmap in Hk as (call & -> & Hcall). by apply Hlater.
    - apply elem_of_dom. subst st. rewrite reconcile_all_dom by (done || lia). by apply elem_of_list_to_set. }
  apply held_ids_len in Hheld; [|done]. rewrite len_map in Hheld.
  unfold begin. destruct (Z.ltb_spec (map_len (pending (run m st later))) m); [lia|done].
Qed.

End Leak.

(** ** Witnesses *)

Module Sample.
Import Crypto.Toy.
#[export] Existing Instances prims laws ToyIroh.iroh ToyIroh.iroh_laws.

#[export] Instance record_eq_dec : EqDecision EndpointRecord.
Proof. solve_decision. Defined.
#[export] Instance record_codec : Postcard EndpointRecord := Signed.Table.codec [].
#[export] Instance list_codec : Postcard ListRequest.WorkloadListRequest :=
  {| to_allocvec := fun _ => None; from_postcard := fun _ => None |}.
#[export] Instance query_codec : Postcard SchedulerReconciliationQuery :=
  {| to_allocvec := fun _ => None; from_postcard := fun _ => None |}.
#[export] Instance response_codec : Postcard SchedulerReconciliationResponse :=
  {| to_allocvec := fun _ => None; from_postcard := fun _ => None |}.

(** A scheduler whose endpoint has neither a relay nor an address yet. *)
Definition identity : Identity.SchedulerIdentity := {|
  Identity.transport_id := Byte.x01 : @EndpointId ToyIroh.iroh;
  Identity.signing_public := sample_key 1; Identity.signing_private := sample_key 1;
  Identity.advertise_addresses := [] |}.
Definition address : @EndpointAddr ToyIroh.iroh := (Byte.x01, [], []).

Definition responder : EndpointRecord := {|
  EndpointRecord.version := 1; EndpointRecord.endpoint_id := replicate 32 Byte.x02;
  EndpointRecord.relay_url := None; EndpointRecord.direct_addresses := [];
  EndpointRecord.signing_pubkey := ""; EndpointRecord.issued_at_secs := 0;
  EndpointRecord.expires_at_secs := 0; EndpointRecord.signature := "" |}.
Definition response (e : ReconciliationEvent) : SchedulerReconciliationResponse := {|
  Response.version := 1; Response.query_id := "q"; Response.responder_endpoint := responder;
  Response.event := e; Response.responded_at_secs := 0; Response.signing_pubkey := "";
  Response.signature := "" |}.

Definition answered : list Op := [
  Begin "q" {[Byte.x02 : @EndpointId ToyIroh.iroh]};
  Record (Byte.x02 : @EndpointId ToyIroh.iroh) (response (AgentAnswer (replicate 32 Byte.x07) [Byte.x05]))].
Definition closing : list (Op + bool) := [
  inr false;
  inl (Record (Byte.x02 : @EndpointId ToyIroh.iroh) (response Complete));
  inr false].

Definition reported : ReconciliationOutcome := {|
  outcome_answers := [{| answer_agent := Byte.x07 : @EndpointId ToyIroh.iroh; sealed_response := [Byte.x05] |}];
  outcome_unreachable_agents := []; outcome_unreachable_schedulers := [] |}.

Lemma closing_finishes :
  finish (new_registry 4).2 (run (new_registry 4).2 (new_registry 4).1 answered) "q" closing
  = Some ({| pending := ∅; total_bytes := 0 |}, Ok reported).
Proof. vm_compute. reflexivity. Qed.
End Sample.

Import Sample.

Lemma registry_accounting_witness :
  total_bytes (run (new_registry 4).2 (new_registry 4).1 answered) = 1.
Proof.
  destruct (registry_accounting 4 answered) as (_ & H & _); [lia|]. rewrite H. vm_compute. reflexivity.
Defined.

Lemma outcome_faithful_witness :
  answered_by "q" (Byte.x07 : @EndpointId ToyIroh.iroh) [Byte.x05] (answered ++ registry_ops closing).
Proof.
  destruct (outcome_faithful 4 answered "q" closing _ reported ltac:(lia) closing_finishes) as (_ & _ & H & _).
  apply (H {| answer_agent := Byte.x07 : @EndpointId ToyIroh.iroh; sealed_response := [Byte.x05] |}).
  left.
Defined.

Lemma failed_reconcile_keeps_slot_witness :
  let m := (new_registry 2).2 in
  let st := reconcile_all m identity address [] [] (Ok []) (fun _ => ([], 0)) (fun _ => Ok tt)
              [("a", 1000); ("b", 1001)] (new_registry 2).1 in
  (begin m (run m st answered) "c" ∅).2 = Err "scheduler reconciliation limit reached".
Proof.
  apply (failed_reconcile_keeps_slot 2 identity address [] [] (Ok []) (fun _ => ([], 0)) (fun _ => Ok tt)
    [("a", 1000); ("b", 1001)] answered).
  - intros call Hcall. apply elem_of_cons in Hcall as [->|Hcall]; [vm_compute; reflexivity|].
    apply list_elem_of_singleton in Hcall as ->. vm_compute. reflexivity.
  - repeat constructor; set_solver.
  - vm_compute. reflexivity.
  - intros op call Hop Hcall. apply list_elem_of_In in Hop, Hcall.
    destruct Hop as [<-|[<-|[]]], Hcall as [<-|[<-|[]]]; reflexivity.
Defined.

End Reconciliation.
