(* ===== verification/Gossip.v ===== *)
(** * Scheduler membership and gossip

    Models shared/protocol/src/scheduler_gossip.rs (what schedulers broadcast),
    and of podmesh-scheduler/src: machine/members.rs and member_issuers.rs (who
    is in the mesh and whose relay grants count), machine/peer_pins.rs and
    discovery.rs (binding a peer URL to one identity), machine/gossip_messages.rs
    (which messages are acted upon) and relay/access.rs (who may use the
    machine relay). *)

From S2P Require Import Prelude Net Crypto Signed EndpointRecord CapacityProtocol MeshProtocol Messages.
From S2P Require Import Identity WorkloadIdentity Reconciliation.
From Stdlib Require Import Ascii.

(** The hex crate. *)
Class Hex := { hex_encode : bytes -> string; hex_decode : string -> option bytes }.
Class HexLaws (H : Hex) : Prop := hex_roundtrip : forall b, hex_decode (hex_encode b) = Some b.

Module Gossip.
Import Crypto Net.
Import EndpointRecord (EndpointRecord, IROH_ENDPOINT_ID_BYTES).
Import Capacity.Query (CapacityQuery).
Import Reconciliation.Query (SchedulerReconciliationQuery).

(** ** Messages *)

Definition SCHEDULER_GOSSIP_PROTOCOL_VERSION : Z := 1.
Definition MAX_LOCATION_QUERY_LIFETIME_SECS : Z := 15.
Definition MAX_LOCATION_CLOCK_SKEW_SECS : Z := 5.
Definition MAX_LOCATION_QUERY_ID_BYTES : Z := 128.

Module Locate.

Record AgentLocationQuery := {
  version : Z;
  query_id : string;
  agent_endpoint_id : bytes;
  reply_endpoint : EndpointRecord;
  issued_at_secs : Z;
  expires_at_secs : Z;
  signing_pubkey : string;
  signature : string
}.

Definition set_signing_pubkey (s : string) (q : AgentLocationQuery) : AgentLocationQuery :=
  {| version := version q; query_id := query_id q; agent_endpoint_id := agent_endpoint_id q;
     reply_endpoint := reply_endpoint q; issued_at_secs := issued_at_secs q;
     expires_at_secs := expires_at_secs q; signing_pubkey := s; signature := signature q |}.
Definition set_signature (s : string) (q : AgentLocationQuery) : AgentLocationQuery :=
  {| version := version q; query_id := query_id q; agent_endpoint_id := agent_endpoint_id q;
     reply_endpoint := reply_endpoint q; issued_at_secs := issued_at_secs q;
     expires_at_secs := expires_at_secs q; signing_pubkey := signing_pubkey q; signature := s |}.

Section Operations.
Context {P : Primitives} {CR : Postcard EndpointRecord} {C : Postcard AgentLocationQuery}.

Definition validate_unsigned (q : AgentLocationQuery) (now_secs : Z) : Result unit :=
  ensure! version q =? SCHEDULER_GOSSIP_PROTOCOL_VERSION
    else Err "unsupported agent location query version" ;;
  ensure! len (agent_endpoint_id q) =? IROH_ENDPOINT_ID_BYTES
    else Err "agent EndpointId must contain 32 bytes" ;;
  ensure! negb (str_is_empty (query_id q)) && (str_len (query_id q) <=? MAX_LOCATION_QUERY_ID_BYTES)
    else Err "location query id must be 1 to 128 bytes" ;;
  ensure! issued_at_secs q <=? saturating_add u64_max now_secs MAX_LOCATION_CLOCK_SKEW_SECS
    else Err "agent location query issued too far in the future" ;;
  ensure! (issued_at_secs q <? expires_at_secs q) &&
          (expires_at_secs q - issued_at_secs q <=? MAX_LOCATION_QUERY_LIFETIME_SECS)
    else Err "agent location query lifetime is invalid" ;;
  ensure! now_secs <=? saturating_add u64_max (expires_at_secs q) MAX_LOCATION_CLOCK_SKEW_SECS
    else Err "agent location query expired" ;;
  _ ← EndpointRecord.verify (reply_endpoint q) now_secs;
  ensure! bool_decide (EndpointRecord.signing_pubkey (reply_endpoint q) = signing_pubkey q)
    else Err "agent location reply endpoint does not belong to the query signer" ;;
  Ok tt.

Definition canonical_bytes (q : AgentLocationQuery) : Result bytes :=
  ok_or (to_allocvec (set_signature "" q)) "serialize canonical agent location query".

Definition sign (q : AgentLocationQuery) (signing_public signing_private : bytes) (now_secs : Z)
    : Result AgentLocationQuery :=
  let q := set_signature "" (set_signing_pubkey (b64_encode signing_public) q) in
  _ ← validate_unsigned q now_secs;
  canonical ← canonical_bytes q;
  signature ← sign_domain signing_private Crypto.AgentLocationQuery canonical;
  Ok (set_signature (b64_encode signature) q).

Definition verify (q : AgentLocationQuery) (now_secs : Z) : Result unit :=
  _ ← validate_unsigned q now_secs;
  public ← b64_decode (signing_pubkey q);
  signature ← b64_decode (signature q);
  canonical ← canonical_bytes q;
  verify_domain public Crypto.AgentLocationQuery canonical signature.

End Operations.
End Locate.
Import Locate (AgentLocationQuery).

Inductive SchedulerGossipMessage :=
| CapacityMessage (query : CapacityQuery)
| Announcement (record : EndpointRecord)
| LocateMessage (query : AgentLocationQuery)
| Reconcile (query : SchedulerReconciliationQuery).

Section Envelope.
Context {C : Postcard SchedulerGossipMessage}.

Definition message_to_bytes (m : SchedulerGossipMessage) : Result bytes :=
  b ← ok_or (to_allocvec m) "serialize scheduler gossip message";
  ensure! len b <=? Capacity.MAX_CAPACITY_MESSAGE_BYTES else Err "scheduler gossip message exceeds limit" ;;
  Ok b.

Definition message_from_bytes (b : bytes) : Result SchedulerGossipMessage :=
  ensure! negb (bool_decide (b = [])) && (len b <=? Capacity.MAX_CAPACITY_MESSAGE_BYTES)
    else Err "scheduler gossip message size is invalid" ;;
  ok_or (from_postcard b) "decode scheduler gossip message".

End Envelope.

(** ** Members, issuers and bindings *)

Definition MAX_CONVERGED_MEMBERS : Z := 10000.
Definition MAX_CONVERGED_ISSUERS : Z := 64.

Section Registries.
Context {I : Iroh}.

Definition members_new (seed : gset EndpointId) : Result (gset EndpointId) :=
  ensure! set_len seed <=? MAX_CONVERGED_MEMBERS else Err "at most 10000 scheduler members are supported" ;;
  Ok seed.

Definition members_insert (members : gset EndpointId) (endpoint_id : EndpointId) : gset EndpointId * bool :=
  if bool_decide (endpoint_id ∈ members) then (members, false) else
  if MAX_CONVERGED_MEMBERS <=? set_len members then (members, false) else
  ({[endpoint_id]} ∪ members, true).

Definition issuers_new (seed : list bytes) : Result (list bytes) :=
  ensure! len seed <=? MAX_CONVERGED_ISSUERS else Err "at most 64 relay issuer keys are supported" ;;
  Ok seed.

Definition issuers_insert (issuers : list bytes) (key : bytes) : list bytes * bool :=
  if existsb (fun known => bool_decide (known = key)) issuers then (issuers, false) else
  if MAX_CONVERGED_ISSUERS <=? len issuers then (issuers, false) else
  (issuers ++ [key], true).

Definition bind (bindings : gmap string bytes) (signing_pubkey_b64 : string) (endpoint_id : bytes)
    : gmap string bytes * bool :=
  if bool_decide (bindings !! signing_pubkey_b64 = Some endpoint_id) then (bindings, true) else
  if negb (contains_key signing_pubkey_b64 bindings) && (MAX_CONVERGED_MEMBERS <=? map_len bindings)
  then (bindings, false) else
  (<[signing_pubkey_b64 := endpoint_id]> bindings, true).

Definition binding_matches (bindings : gmap string bytes) (signing_pubkey_b64 : string) (endpoint_id : bytes) : bool :=
  match bindings !! signing_pubkey_b64 with
  | Some bound => bool_decide (bound = endpoint_id)
  | None => false
  end.

Definition endpoint_for (bindings : gmap string bytes) (signing_pubkey_b64 : string) : option bytes :=
  bindings !! signing_pubkey_b64.

End Registries.

(** ** Pins (machine/peer_pins.rs) *)

Definition MAX_PEER_PINS : Z := 16.

Record PeerPin := { pin_endpoint_id : string; pin_signing_pubkey : string }.

#[export] Instance PeerPin_eq_dec : EqDecision PeerPin.
Proof. solve_decision. Defined.

Definition normalize_url (url : string) : string := trim_end_matches "/" (trim url).

Section Pins.
Context {P : Primitives} {H : Hex}.

Definition pin_new {I : Iroh} (endpoint_id : EndpointId) (signing_pubkey : bytes) : PeerPin :=
  {| pin_endpoint_id := hex_encode (id_as_bytes endpoint_id); pin_signing_pubkey := b64_encode signing_pubkey |}.

Definition parse_pin_argument (value : string) : Result (string * PeerPin) :=
  parts ← ok_or (split_once "=" value) "peer pin must be written as <url>=<endpoint_id_hex>:<signing_pubkey_b64>";
  identity ← ok_or (split_once ":" parts.2) "peer pin identity must be written as <endpoint_id_hex>:<signing_pubkey_b64>";
  decoded ← ok_or (hex_decode identity.1) "peer pin endpoint id must be hex";
  ensure! len decoded =? IROH_ENDPOINT_ID_BYTES else Err "peer pin endpoint id must be 32 bytes" ;;
  key ← b64_decode identity.2;
  ensure! len key =? ED25519_PUBLIC_KEY_SIZE else Err "peer pin signing key must decode to 32 bytes" ;;
  Ok (normalize_url parts.1,
      {| pin_endpoint_id := to_ascii_lowercase identity.1; pin_signing_pubkey := identity.2 |}).

(** [PeerPins::load]: [stored] is the decoded pin file. *)
Definition pins_load (stored : Result (gmap string PeerPin)) (configured : list (string * PeerPin))
    : Result (gmap string PeerPin) :=
  pins ← stored;
  let pins := fold_left (fun pins up => <[up.1 := up.2]> pins) configured pins in
  ensure! map_len pins <=? MAX_PEER_PINS else Err "at most 16 scheduler peer pins are supported" ;;
  Ok pins.

(** [PeerPins::accept]: [persist] is what writing the file gives. *)
Definition pins_accept (pins : gmap string PeerPin) (url : string) (observed : PeerPin)
    (persist : gmap string PeerPin -> Result unit) : gmap string PeerPin * Result unit :=
  let url := normalize_url url in
  match pins !! url with
  | Some pinned =>
      if bool_decide (pinned = observed) then (pins, Ok tt)
      else (pins, Err "scheduler peer now presents another identity than it is pinned to")
  | None =>
      ensure! map_len pins <? MAX_PEER_PINS else (pins, Err "at most 16 scheduler peer pins are supported") ;;
      let pins := <[url := observed]> pins in
      (pins, persist pins)
  end.

End Pins.

(** ** Received messages (machine/gossip_messages.rs) *)

Record SeenQueries := {
  seen_order : list (bytes * string);
  seen_entries : gset (bytes * string);
  seen_capacity : Z
}.

Definition seen_new (capacity : Z) : SeenQueries :=
  {| seen_order := []; seen_entries := ∅; seen_capacity := capacity |}.

Definition seen_insert (s : SeenQueries) (key : bytes * string) : SeenQueries * bool :=
  if bool_decide (key ∈ seen_entries s) then (s, false) else
  let s := if set_len (seen_entries s) =? seen_capacity s
           then match seen_order s with
                | expired :: rest => {| seen_order := rest; seen_entries := seen_entries s ∖ {[expired]};
                                        seen_capacity := seen_capacity s |}
                | [] => s
                end
           else s in
  ({| seen_order := seen_order s ++ [key]; seen_entries := {[key]} ∪ seen_entries s;
      seen_capacity := seen_capacity s |}, negb (bool_decide (key ∈ seen_entries s))).

Inductive ReceivedGossip :=
| ReceivedCapacity (query : CapacityQuery)
| ReceivedLocate (query : AgentLocationQuery)
| ReceivedReconcile (query : SchedulerReconciliationQuery)
| ReceivedAnnouncement (record : EndpointRecord).

(** What the mesh has converged to: [lookups] are the addresses handed to the
    endpoint's address book, in order. *)
Record MeshState `{Iroh} := {
  members : gset EndpointId;
  issuers : list bytes;
  bindings : gmap string bytes;
  pins : gmap string PeerPin;
  lookups : list EndpointAddr
}.

(** The answer of a peer's HTTP API. *)
Record EndpointRecordResponse := { endpoint_record_b64 : string; signing_pubkey_b64 : string }.

Definition MAX_PEER_URLS : Z := 16.
Definition MAX_DISCOVERY_RESPONSE_BYTES : Z := 16 * 1024.
Definition SIGNING_KEY_BYTES : Z := 32.

Section Mesh.
Context {I : Iroh} {P : Primitives} {H : Hex}.
Context {CR : Postcard EndpointRecord} {CQ : Postcard CapacityQuery} {CA : Postcard AgentLocationQuery}.
Context {CL : Postcard Reconciliation.ListRequest.WorkloadListRequest}.
Context {CS : Postcard SchedulerReconciliationQuery} {CM : Postcard SchedulerGossipMessage}.
Context {CG : Postcard Mesh.Grant.MachineRelayGrant} {J : Json EndpointRecordResponse}.

Definition decode_endpoint (b : bytes) : Result EndpointId :=
  fixed ← try_into 32 b "scheduler gossip EndpointId length is invalid";
  ok_or (id_from_bytes fixed) "scheduler gossip EndpointId is invalid".

Definition validate_received_query (query : CapacityQuery) (members : gset EndpointId) (seen : SeenQueries)
    (now_secs : Z) : SeenQueries * Result (option CapacityQuery) :=
  try! _verified := Capacity.Query.verify query now_secs in seen ;;
  let reply := EndpointRecord.endpoint_id (Capacity.Query.reply_endpoint query) in
  try! endpoint_bytes := try_into 32 reply "capacity query reply EndpointId length is invalid" in seen ;;
  try! endpoint_id := ok_or (id_from_bytes endpoint_bytes) "capacity query reply EndpointId is invalid" in seen ;;
  ensure! bool_decide (endpoint_id ∈ members)
    else (seen, Err "capacity query reply endpoint is not an authorized scheduler") ;;
  let (seen, fresh) := seen_insert seen (reply, Capacity.Query.query_id query) in
  (seen, Ok (if fresh then Some query else None)).

(** The checks [Locate] and [Reconcile] share after [verify]: the asker is a
    member, and the query was not seen. *)
Definition check_asker (members : gset EndpointId) (seen : SeenQueries) (reply : EndpointRecord)
    (query_id : string) (message : ReceivedGossip) (unauthorized : string)
    : SeenQueries * Result (option ReceivedGossip) :=
  try! asker := decode_endpoint (EndpointRecord.endpoint_id reply) in seen ;;
  ensure! bool_decide (asker ∈ members) else (seen, Err unauthorized) ;;
  let (seen, fresh) := seen_insert seen (id_as_bytes asker, query_id) in
  (seen, Ok (if fresh then Some message else None)).

Definition classify (b : bytes) (members : gset EndpointId) (seen : SeenQueries) (now_secs : Z)
    : SeenQueries * Result (option ReceivedGossip) :=
  try! message := message_from_bytes b in seen ;;
  match message with
  | CapacityMessage query =>
      let (seen, r) := validate_received_query query members seen now_secs in
      (seen, match r with Ok q => Ok (ReceivedCapacity <$> q) | Err e => Err e end)
  | LocateMessage query =>
      try! _verified := Locate.verify query now_secs in seen ;;
      check_asker members seen (Locate.reply_endpoint query) (Locate.query_id query) (ReceivedLocate query)
        "agent location query came from an unauthorized scheduler"
  | Announcement record =>
      try! _verified := EndpointRecord.verify record now_secs in seen ;;
      (seen, Ok (Some (ReceivedAnnouncement record)))
  | Reconcile query =>
      try! _verified := Reconciliation.Query.verify query now_secs in seen ;;
      check_asker members seen (Reconciliation.Query.reply_endpoint query) (Reconciliation.Query.query_id query)
        (ReceivedReconcile query) "reconciliation query came from an unauthorized scheduler"
  end.

Definition admit_announced_peer (m : MeshState) (record : EndpointRecord) (now_secs : Z) : MeshState :=
  match decode_endpoint (EndpointRecord.endpoint_id record), Identity.endpoint_addr record now_secs with
  | Ok endpoint_id, Ok address =>
    let key := EndpointRecord.signing_pubkey record in
    let id := EndpointRecord.endpoint_id record in
    if bool_decide (endpoint_id ∈ members m) && negb (binding_matches (bindings m) key id) then m else
    let (bindings, bound) := bind (bindings m) key id in
    if negb bound then m else
    {| members := (members_insert (members m) endpoint_id).1; issuers := issuers m; bindings := bindings;
       pins := pins m; lookups := lookups m ++ [address] |}
  | _, _ => m
  end.

(** One message of the gossip receiver loop of machine/gossip.rs, with its two
    clock readings, and what is handed on to the other tasks. *)
Definition receive (m : MeshState) (seen : SeenQueries) (b : bytes) (now1 now2 : Z)
    : MeshState * SeenQueries * option ReceivedGossip :=
  match classify b (members m) seen now1 with
  | (seen, Ok (Some (ReceivedAnnouncement record))) => (admit_announced_peer m record now2, seen, None)
  | (seen, Ok (Some message)) => (m, seen, Some message)
  | (seen, Ok None) | (seen, Err _) => (m, seen, None)
  end.

(** ** Discovery (machine/discovery.rs) *)

(** [body] is what the HTTP request gives; [persist] what writing the pin file
    gives. *)
Definition discover_peer (pins : gmap string PeerPin) (url : string) (body : Result bytes) (now : Z)
    (persist : gmap string PeerPin -> Result unit)
    : gmap string PeerPin * Result (EndpointAddr * bytes) :=
  ensure! negb (str_is_empty (normalize_url url)) else (pins, Err "empty scheduler peer URL") ;;
  try! body := body in pins ;;
  ensure! len body <=? MAX_DISCOVERY_RESPONSE_BYTES
    else (pins, Err "peer returned an oversized endpoint record response") ;;
  try! parsed := ok_or (from_json body) "decode peer endpoint record response" in pins ;;
  try! encoded := b64_decode (endpoint_record_b64 parsed) in pins ;;
  try! record := EndpointRecord.from_bytes encoded now in pins ;;
  try! address := Identity.endpoint_addr record now in pins ;;
  try! signing_key := b64_decode (signing_pubkey_b64 parsed) in pins ;;
  ensure! len signing_key =? SIGNING_KEY_BYTES
    else (pins, Err "peer signing public key must contain 32 bytes") ;;
  ensure! bool_decide (b64_encode signing_key = EndpointRecord.signing_pubkey record)
    else (pins, Err "peer signing key does not match the key that signed its endpoint record") ;;
  match pins_accept pins url (pin_new (addr_id address) signing_key) persist with
  | (pins, Err e) => (pins, Err e)
  | (pins, Ok _) => (pins, Ok (address, signing_key))
  end.

(** One URL of a discovery sweep, and the peer it adds to the ones to dial. *)
Definition sweep_peer (m : MeshState) (local_endpoint : EndpointId) (url : string) (body : Result bytes) (now : Z)
    (persist : gmap string PeerPin -> Result unit) : MeshState * option EndpointId :=
  match discover_peer (pins m) url body now persist with
  | (pins', Ok (address, signing_key)) =>
    let m := {| members := members m; issuers := issuers m; bindings := bindings m; pins := pins';
                lookups := lookups m |} in
    if bool_decide (addr_id address = local_endpoint) then (m, None) else
    ({| members := (members_insert (members m) (addr_id address)).1;
        issuers := (issuers_insert (issuers m) signing_key).1;
        bindings := (bind (bindings m) (b64_encode signing_key) (id_as_bytes (addr_id address))).1;
        pins := pins m; lookups := lookups m ++ [address] |}, Some (addr_id address))
  | (pins', Err _) =>
    ({| members := members m; issuers := issuers m; bindings := bindings m; pins := pins';
        lookups := lookups m |}, None)
  end.

(** ** Relay access (relay/access.rs) *)

Definition authorize_token (m : MeshState) (audience : string) (token : string) (endpoint_id : bytes)
    (now_secs : Z) : Result unit :=
  grant ← Mesh.Grant.from_auth_token token now_secs;
  trusted ← match endpoint_for (bindings m) (Mesh.Grant.issuer_pubkey grant) with
            | Some bound_endpoint =>
                if bool_decide (bound_endpoint = Mesh.Grant.subject_endpoint_id grant)
                then key ← b64_decode (Mesh.Grant.issuer_pubkey grant); Ok (issuers m ++ [key])
                else Ok (issuers m)
            | None => Ok (issuers m)
            end;
  Mesh.Grant.verify grant trusted endpoint_id audience now_secs.

(** ** Runs *)

Inductive Op :=
| Received (b : bytes) (now1 now2 : Z)
| Swept (url : string) (body : Result bytes) (now : Z) (persist : Result unit).

Definition step (local_endpoint : EndpointId) (st : MeshState * SeenQueries) (op : Op) : MeshState * SeenQueries :=
  match op with
  | Received b now1 now2 => (receive st.1 st.2 b now1 now2).1
  | Swept url body now persist => ((sweep_peer st.1 local_endpoint url body now (fun _ => persist)).1, st.2)
  end.

Definition run (local_endpoint : EndpointId) (st : MeshState * SeenQueries) (ops : list Op) : MeshState * SeenQueries :=
  fold_left (step local_endpoint) ops st.

Definition is_received (op : Op) : bool := match op with Received _ _ _ => true | Swept _ _ _ _ => false end.

(** ** Relay access *)

(** A machine may use the relay exactly with a fresh grant for itself and
    this relay, in a machine role, signed either by a pinned scheduler or by a
    key that is bound to this very endpoint: an announced scheduler vouches for
    itself and for nobody else. *)
Theorem relay_access (m : MeshState) (audience token : string) (endpoint : bytes) (now : Z) :
  authorize_token m audience token endpoint now = Ok tt <->
  exists g issuer sig canonical,
    Mesh.Grant.from_auth_token token now = Ok g /\ Mesh.Grant.validate g now = Ok tt /\
    Mesh.Grant.subject_endpoint_id g = endpoint /\ Mesh.Grant.relay_audience g = audience /\
    (Mesh.Grant.role g = Mesh.Scheduler \/ Mesh.Grant.role g = Mesh.Agent \/ Mesh.Grant.role g = Mesh.Podctl) /\
    b64_decode (Mesh.Grant.issuer_pubkey g) = Ok issuer /\ b64_decode (Mesh.Grant.signature g) = Ok sig /\
    Mesh.Grant.canonical_bytes g = Ok canonical /\
    verify_domain issuer Crypto.MachineRelayGrant canonical sig = Ok tt /\
    (issuer ∈ issuers m \/ bindings m !! Mesh.Grant.issuer_pubkey g = Some endpoint).
Proof.
  unfold authorize_token, endpoint_for.
  destruct (Mesh.Grant.from_auth_token token now) as [g|] eqn:Hg; [|split; [done|naive_solver]].
  rewrite Signed.bind_eq. split.
  - intros H0. apply Signed.bind_ok in H0 as (trusted & Ht & Hv).
    apply Messages.grant_authorization in Hv
      as (Hval & Hs & Ha & Hr & issuer & sig & canonical & Hin & Hi & Hsig & Hc & Hvd).
    exists g, issuer, sig, canonical. split_and!; try done.
    destruct (bindings m !! Mesh.Grant.issuer_pubkey g) as [bound|] eqn:Hb; [case_bool_decide|]; simplify_eq; auto.
  - intros (g' & issuer & sig & canonical & [= <-] & Hval & Hs & Ha & Hr & Hi & Hsig & Hc & Hvd & Hin).
    assert (Hgoal : forall trusted, issuer ∈ trusted -> Mesh.Grant.verify g trusted endpoint audience now = Ok tt).
    { intros trusted Htr. apply Messages.grant_authorization. split_and!; try done. by exists issuer, sig, canonical. }
    destruct (bindings m !! Mesh.Grant.issuer_pubkey g) as [bound|] eqn:Hb; [case_bool_decide as Hbound|].
    + rewrite Hi, !Signed.bind_eq. apply Hgoal, elem_of_app. right. by apply list_elem_of_singleton.
    + rewrite Signed.bind_eq. apply Hgoal. destruct Hin as [|Heq]; [done|]. congruence.
    + rewrite Signed.bind_eq. apply Hgoal. by destruct Hin.
Qed.

(** ** Members keep their identity *)

Lemma members_insert_mono ms e : ms ⊆ (members_insert ms e).1.
Proof. unfold members_insert. case_bool_decide; [done|]. destruct (_ <=? _); set_solver. Qed.

Lemma bind_lookup bs k id k' id' :
  (bind bs k id).1 !! k' = Some id' -> bs !! k' = Some id' \/ (k' = k /\ id' = id).
Proof.
  unfold bind. case_bool_decide; [by left|]. destruct (_ && _); [by left|]. cbn. intros Hl.
  apply lookup_insert_Some in Hl as [[-> ->]|[_ Hl]]; auto.
Qed.

Lemma decode_endpoint_bytes {L : IrohLaws I} b e : decode_endpoint b = Ok e -> b = id_as_bytes e.
Proof.
  unfold decode_endpoint. intros Hd. Signed.result_inv Hd. apply try_into_inv in Hx as [_ ->].
  unfold ok_or in Hd. destruct (id_from_bytes b) eqn:E; [|done]. simplify_eq. symmetry. by apply id_from_bytes_inv.
Qed.

(** What an announcement changes. *)
Lemma admit_effect {L : IrohLaws I} m record now :
  let m' := admit_announced_peer m record now in
  members m ⊆ members m' /\ issuers m' = issuers m /\ pins m' = pins m /\
  (forall k id, bindings m' !! k = Some id -> bindings m !! k = Some id \/
     (k = EndpointRecord.signing_pubkey record /\ forall e, id = id_as_bytes e -> e ∉ members m)).
Proof.
  unfold admit_announced_peer. destruct (decode_endpoint _) as [e|] eqn:Hd; [|naive_solver].
  destruct (Identity.endpoint_addr _ _) as [address|]; [|naive_solver].
  destruct (bool_decide (e ∈ members m) && _) eqn:Hguard; [naive_solver|].
  destruct (bind _ _ _) as [bs bound] eqn:Hb. destruct bound; cbn; [|naive_solver].
  split_and!; [apply members_insert_mono|done|done|]. intros k id Hk.
  assert (Hbs : bs = (bind (bindings m) (EndpointRecord.signing_pubkey record) (EndpointRecord.endpoint_id record)).1)
    by (by rewrite Hb). rewrite Hbs in Hk.
  apply bind_lookup in Hk as [Hk|[-> ->]]; [by left|].
  apply andb_false_iff in Hguard as [Hnot|Hmatch].
  - right. split; [done|]. intros e' He'. rewrite (decode_endpoint_bytes _ _ Hd) in He'.
    apply id_as_bytes_inj in He' as <-. by apply bool_decide_eq_false in Hnot.
  - left. apply negb_false_iff in Hmatch. unfold binding_matches in Hmatch.
    destruct (bindings m !! _) as [bd|]; [|done]. apply bool_decide_eq_true in Hmatch. congruence.
Qed.

Lemma receive_effect {L : IrohLaws I} m seen b now1 now2 :
  let m' := (receive m seen b now1 now2).1.1 in
  members m ⊆ members m' /\ issuers m' = issuers m /\ pins m' = pins m /\
  (forall k id, bindings m' !! k = Some id ->
     bindings m !! k = Some id \/ forall e, id = id_as_bytes e -> e ∉ members m).
Proof.
  unfold receive. destruct (classify _ _ _ _) as [seen' [[[]|]|]]; cbn; try naive_solver.
  destruct (admit_effect m record now2) as (? & ? & ? & ?). split_and!; naive_solver.
Qed.

(** Nobody takes over a member's identity by gossip: whatever messages
    arrive, once an endpoint is a member, no signing key becomes bound to it
    that was not bound to it before, no relay issuer is trusted and no pin is
    changed because of a message, and no member is lost. *)
Theorem member_identity_protected {L : IrohLaws I} (local_endpoint : EndpointId) (m : MeshState)
    (seen : SeenQueries) (ops : list Op) (e : EndpointId)
    (Hmember : e ∈ members m) (Hgossip : forallb is_received ops = true) :
  let m' := (run local_endpoint (m, seen) ops).1 in
  (forall key, bindings m' !! key = Some (id_as_bytes e) -> bindings m !! key = Some (id_as_bytes e)) /\
  members m ⊆ members m' /\ issuers m' = issuers m /\ pins m' = pins m.
Proof.
  cbv zeta. revert m seen Hmember. induction ops as [|op ops IH]; intros m seen Hmember; [done|].
  cbn in Hgossip. apply andb_true_iff in Hgossip as [Hop Hgossip]. destruct op as [b now1 now2|]; [|done].
  destruct (receive_effect m seen b now1 now2) as (Hm & Hi & Hp & Hb). cbn.
  destruct (receive m seen b now1 now2) as [[m1 seen1] out]. cbn in *.
  destruct (IH Hgossip m1 seen1 ltac:(set_solver)) as (IHb & IHm & IHi & IHp).
  split_and!; [|etrans; [exact Hm|exact IHm]|etrans; [exact IHi|exact Hi]|etrans; [exact IHp|exact Hp]].
  intros key Hkey. apply IHb in Hkey. destruct (Hb _ _ Hkey) as [|Hnot]; [done|]. by destruct (Hnot e).
Qed.

(** ** Trust follows the pins *)

Record mesh_bounded (m : MeshState) : Prop := {
  bounded_members : set_len (members m) <= MAX_CONVERGED_MEMBERS;
  bounded_issuers : len (issuers m) <= MAX_CONVERGED_ISSUERS;
  bounded_bindings : map_len (bindings m) <= MAX_CONVERGED_MEMBERS;
  bounded_pins : map_len (pins m) <= MAX_PEER_PINS
}.

Lemma members_insert_bounded ms e :
  set_len ms <= MAX_CONVERGED_MEMBERS -> set_len (members_insert ms e).1 <= MAX_CONVERGED_MEMBERS.
Proof.
  intros Hb. unfold members_insert. case_bool_decide; [done|].
  destruct (Z.leb_spec MAX_CONVERGED_MEMBERS (set_len ms)); [done|]. cbn.
  pose proof (Reconciliation.set_len_union_le e ms). lia.
Qed.

Lemma issuers_insert_bounded l k :
  len l <= MAX_CONVERGED_ISSUERS -> len (issuers_insert l k).1 <= MAX_CONVERGED_ISSUERS.
Proof.
  intros Hb. unfold issuers_insert. destruct (existsb _ _); [done|].
  destruct (Z.leb_spec MAX_CONVERGED_ISSUERS (len l)); [done|]. cbn. len_lia.
Qed.

Lemma issuers_insert_elem l k k' : k' ∈ (issuers_insert l k).1 -> k' ∈ l \/ k' = k.
Proof. unfold issuers_insert. destruct (existsb _ _); [auto|]. destruct (_ <=? _); [auto|]. set_solver. Qed.

Lemma bind_bounded bs k id :
  map_len bs <= MAX_CONVERGED_MEMBERS -> map_len (bind bs k id).1 <= MAX_CONVERGED_MEMBERS.
Proof.
  intros Hb. unfold bind. case_bool_decide; [done|]. destruct (contains_key k bs) eqn:Hk; cbn.
  - apply contains_key_true in Hk. by rewrite map_len_insert_old.
  - apply contains_key_false in Hk. destruct (Z.leb_spec MAX_CONVERGED_MEMBERS (map_len bs)); cbn; [done|].
    rewrite map_len_insert_new by done. lia.
Qed.

Lemma pins_accept_effect ps url observed persist :
  map_len ps <= MAX_PEER_PINS ->
  let r := pins_accept ps url observed persist in
  ps ⊆ r.1 /\ map_len r.1 <= MAX_PEER_PINS /\
  (r.2 = Ok tt -> r.1 !! normalize_url url = Some observed) /\
  (forall p, ps !! normalize_url url = Some p -> r.1 = ps /\ (r.2 = Ok tt -> observed = p)).
Proof.
  intros Hb. unfold pins_accept. destruct (ps !! normalize_url url) as [p|] eqn:Hp.
  - case_bool_decide as Heq; cbn; split_and!; try done; naive_solver.
  - destruct (Z.ltb_spec (map_len ps) MAX_PEER_PINS); cbn; [|naive_solver].
    split_and!; [by apply insert_subseteq| |by rewrite lookup_insert_eq|done].
    rewrite map_len_insert_new by done. lia.
Qed.

Lemma discover_effect ps url body now persist :
  map_len ps <= MAX_PEER_PINS ->
  let r := discover_peer ps url body now persist in
  ps ⊆ r.1 /\ map_len r.1 <= MAX_PEER_PINS /\
  (forall address key, r.2 = Ok (address, key) ->
     r.1 !! normalize_url url = Some (pin_new (addr_id address) key)).
Proof.
  intros Hb. unfold discover_peer.
  repeat match goal with
    | |- context [match ?r with Ok _ => _ | Err _ => _ end] => destruct r as [?|?]; [|done]
    | |- context [if ?c then _ else (ps, Err _)] => destruct c; [|done]
    end.
  match goal with |- context [pins_accept ps url ?observed persist] =>
    destruct (pins_accept_effect ps url observed persist Hb) as (Hm & Hl & Hok & _) end.
  destruct (pins_accept _ _ _ _) as [ps' [[]|e]]; cbn in *; split_and!; try done.
  intros address key [= -> ->]. by apply Hok.
Qed.

(** The relay issuers of [m'] that [m] did not have are keys of pinned peers. *)
Definition pinned_issuers (m m' : MeshState) : Prop :=
  forall key, key ∈ issuers m' -> key ∈ issuers m \/
    exists url p, pins m' !! url = Some p /\ pin_signing_pubkey p = b64_encode key.

Lemma step_trust {L : IrohLaws I} local m seen op :
  mesh_bounded m ->
  let m' := (step local (m, seen) op).1 in
  mesh_bounded m' /\ pins m ⊆ pins m' /\ members m ⊆ members m' /\ pinned_issuers m m'.
Proof.
  intros [Hm Hi Hb Hp]. destruct op as [b now1 now2|url body now persist]; cbn.
  - unfold receive. destruct (classify _ _ _ _) as [seen' [[[]|]|]]; cbn;
      try (split_and!; [split|..]; try done; intros key; by left).
    unfold admit_announced_peer.
    destruct (decode_endpoint _); [|split_and!; [split|..]; try done; intros key; by left].
    destruct (Identity.endpoint_addr _ _); [|split_and!; [split|..]; try done; intros key; by left].
    destruct (_ && _); [split_and!; [split|..]; try done; intros key; by left|].
    pose proof (bind_bounded _ (EndpointRecord.signing_pubkey record) (EndpointRecord.endpoint_id record) Hb) as Hbb.
    destruct (bind _ _ _) as [bs []]; cbn in *; [|split_and!; [split|..]; try done; intros key; by left].
    split_and!; [split; cbn|..]; try done; [by apply members_insert_bounded|apply members_insert_mono|].
    intros key; by left.
  - unfold sweep_peer. destruct (discover_effect (pins m) url body now (fun _ => persist) Hp) as (Hsub & Hlen & Hpin).
    destruct (discover_peer _ _ _ _ _) as [ps [[address key]|e]]; cbn in *.
    + case_bool_decide; cbn; [split_and!; [split|..]; try done; intros k; by left|].
      split_and!; [split; cbn|..]; try done.
      * by apply members_insert_bounded.
      * by apply issuers_insert_bounded.
      * by apply bind_bounded.
      * apply members_insert_mono.
      * intros k Hk. cbn in Hk. apply issuers_insert_elem in Hk as [Hk| ->]; [by left|]. right.
        exists (normalize_url url), (pin_new (addr_id address) key). split; [by apply Hpin|done].
    + split_and!; [split|..]; try done. intros k; by left.
Qed.

(** C30. Unrestricted relay trust follows the pins: whatever is gossiped and
    whatever peers answer, a pin is never changed, a relay issuer beyond the
    configured ones is the signing key of a pinned peer, a discovered peer is
    the one its URL is pinned to, and all registries keep within their bounds. *)
Theorem trust_follows_pins {L : IrohLaws I} (local_endpoint : EndpointId) (m : MeshState) (seen : SeenQueries)
    (ops : list Op) (Hbounded : mesh_bounded m) :
  let m' := (run local_endpoint (m, seen) ops).1 in
  mesh_bounded m' /\ pinned_issuers m m' /\
  (forall url p, pins m !! url = Some p -> pins m' !! url = Some p) /\
  (forall url p body now persist ps address key, pins m !! normalize_url url = Some p ->
     discover_peer (pins m') url body now persist = (ps, Ok (address, key)) ->
     pin_new (addr_id address) key = p).
Proof.
  assert (Hrun : let m' := (run local_endpoint (m, seen) ops).1 in
    mesh_bounded m' /\ pins m ⊆ pins m' /\ pinned_issuers m m').
  { revert m seen Hbounded. induction ops as [|op ops IH]; intros m seen Hbounded.
    { split_and!; try done. intros key; by left. }
    destruct (step_trust local_endpoint m seen op Hbounded) as (Hb1 & Hp1 & _ & Hi1).
    cbn -[step]. destruct (step local_endpoint (m, seen) op) as [m1 seen1]. cbn in Hb1, Hp1, Hi1.
    destruct (IH m1 seen1 Hb1) as (Hb2 & Hp2 & Hi2). split_and!; [done|by etrans|].
    intros key Hkey. destruct (Hi2 key Hkey) as [Hk|Hk]; [|by right].
    destruct (Hi1 key Hk) as [|(url & p & Hu & Hs)]; [by left|]. right. exists url, p.
    split; [by apply (lookup_weaken _ _ _ _ Hu)|done]. }
  destruct Hrun as (Hb & Hp & Hi). split_and!; [done|done| |].
  - intros url p Hu. by apply (lookup_weaken _ _ _ _ Hu).
  - intros url p body now persist ps address key Hu Hd.
    destruct (discover_effect _ url body now persist (bounded_pins _ Hb)) as (Hsub & _ & Hpin).
    rewrite Hd in Hsub, Hpin. cbn in Hsub, Hpin. specialize (Hpin address key eq_refl).
    pose proof (lookup_weaken _ _ _ _ (lookup_weaken _ _ _ _ Hu Hp) Hsub). congruence.
Qed.

End Mesh.

(** ** Witnesses *)

Module Sample.
Import Messages.Sample.
#[export] Existing Instances Toy.prims Toy.laws ToyIroh.iroh ToyIroh.iroh_laws record_codec query_codec grant_codec.

(** An instance of the interface: bytes written as characters. *)
#[export] Instance hex : Hex := {|
  hex_encode := String.string_of_list_byte;
  hex_decode := fun s => Some (String.list_byte_of_string s) |}.
#[export] Instance hex_laws : HexLaws hex.
Proof. intros b. cbn -[String.list_byte_of_string String.string_of_list_byte].
  by rewrite String.list_byte_of_string_of_list_byte. Qed.

#[export] Instance locate_codec : Postcard AgentLocationQuery :=
  {| to_allocvec := fun _ => None; from_postcard := fun _ => None |}.
#[export] Instance list_codec : Postcard Reconciliation.ListRequest.WorkloadListRequest :=
  {| to_allocvec := fun _ => None; from_postcard := fun _ => None |}.
#[export] Instance reconcile_codec : Postcard SchedulerReconciliationQuery :=
  {| to_allocvec := fun _ => None; from_postcard := fun _ => None |}.
#[export] Instance message_codec : Postcard SchedulerGossipMessage :=
  {| to_allocvec := fun _ => None; from_postcard := fun _ => Some (Announcement record1) |}.
#[export] Instance response_json : Json EndpointRecordResponse :=
  {| to_json := fun _ => None;
     from_json := fun _ => Some {| endpoint_record_b64 := b64_encode [Byte.x01]; signing_pubkey_b64 := b64_encode sk |} |}.

Definition member : @EndpointId ToyIroh.iroh := Byte.x07.

(** The endpoint of [record1] is a member, bound to another key than the
    record's. *)
Definition mesh : MeshState := {|
  members := {[member]}; issuers := []; bindings := {["theirs" := id_as_bytes member]};
  pins := ∅; lookups := [] |}.
(** An empty mesh. *)
Definition fresh : MeshState := {| members := ∅; issuers := []; bindings := ∅; pins := ∅; lookups := [] |}.
Definition elsewhere : @EndpointId ToyIroh.iroh := Byte.x01.
Definition discovery : list Op := [Swept "http://peer:3000/" (Ok []) 1000 (Ok tt)].

Lemma discovery_trusts : issuers (run elsewhere (fresh, seen_new 4) discovery).1 = [sk].
Proof. vm_compute. reflexivity. Qed.
End Sample.

Import Sample.

Lemma member_identity_protected_witness :
  bindings (run elsewhere (mesh, seen_new 4) [Received [Byte.x00] 1000 1000]).1 !! b64_encode Messages.Sample.sk
    <> Some (id_as_bytes member).
Proof.
  destruct (member_identity_protected elsewhere mesh (seen_new 4) [Received [Byte.x00] 1000 1000] member)
    as (H & _); [by apply elem_of_singleton|reflexivity|].
  intros Hm%H. vm_compute in Hm. discriminate Hm.
Defined.

Lemma trust_follows_pins_witness :
  exists url p, pins (run elsewhere (fresh, seen_new 4) discovery).1 !! url = Some p /\
    pin_signing_pubkey p = b64_encode Messages.Sample.sk.
Proof.
  destruct (trust_follows_pins elsewhere fresh (seen_new 4) discovery) as (_ & H & _).
  { split; vm_compute; discriminate. }
  destruct (H Messages.Sample.sk) as [Hin|Hpin]; [|by apply elem_of_nil in Hin|exact Hpin].
  rewrite discovery_trusts. left.
Defined.

End Gossip.
