(* ===== verification/Trust.v ===== *)
(** * The owner's trust store (podctl/src/trust.rs)

    Which agents an owner hands plaintext to and which proxies it deals with:
    the trust document, its parser and printer, its file, and the decision for
    one invocation. *)

From S2P Require Import Prelude Net Text Urls Crypto Signed RustOrd EndpointRecord Gossip.
From Stdlib Require Import Ascii.

(** The alphabet of the base64 crate's STANDARD engine. *)
Definition base64_char (c : ascii) : bool :=
  Net.is_ascii_alphanumeric c || bool_decide (c = "+"%char) || bool_decide (c = "/"%char) || bool_decide (c = "="%char).
Class Base64Alphabet (P : Crypto.Primitives) : Prop := {
  base64_alphabet b : Net.all_char base64_char (Crypto.base64_encode b) = true;
  base64_nonempty b : b <> [] -> Crypto.base64_encode b <> ""
}.

(** [hex::decode] reads pairs of digits, of either case. *)
Class HexDigits (H : Hex) : Prop :=
  hex_digits : forall s b, hex_decode s = Some b -> Net.all_char Net.is_ascii_hexdigit s = true /\ str_len s = 2 * len b.

Module Trust.
Import Crypto Net Text Urls RustOrd.

Definition MAX_TRUSTED_AGENTS : Z := 1024.
Definition MAX_TRUSTED_PROXIES : Z := 32.
Definition MAX_TRUST_FILE_BYTES : Z := 256 * 1024.
Definition TRUST_FILE_HEADER : string := "podmesh-trust-v1".

Inductive TrustError :=
| DocumentTooLarge
| UnsupportedVersion (line : string)
| MalformedRecord (line : Z) (reason : string)
| InvalidAgentKey (value : string)
| InvalidProxySigningKey (value : string)
| InvalidProxyEndpoint (value : string)
| InvalidProxyOrigin (input reason : string)
| DuplicateProxyOrigin (origin : string)
| AgentLimitExceeded
| ProxyLimitExceeded
| ExistingProxyTrust (origin : string)
| MissingProxyForReplace (origin : string)
| StoreIo (operation detail : string)
| Persistence (operation detail : string)
| MissingProxyTrust (origin : string)
| ProxyIdentityMismatch (origin trusted_endpoint observed_endpoint trusted_signing_key observed_signing_key : string).

Abbreviation Trusted := (result TrustError).

Record TrustedProxyIdentity := {
  proxy_origin : string;
  endpoint_id_hex : string;
  signing_key_b64 : string
}.

Record TrustRegistry := {
  agent_keys : gset string;
  proxies : gmap string TrustedProxyIdentity
}.
Definition default_registry : TrustRegistry := {| agent_keys := ∅; proxies := ∅ |}.

Definition short_identifier (value : string) : string := of_chars (take 16 (chars_of value)).

Section Registry.
Context {P : Primitives} {U : UrlParser} {HX : Hex}.

(** ** Names and keys *)
Definition parse_origin (input : string) : Trusted string :=
  match url_parse input with
  | Err e => Err (InvalidProxyOrigin input e)
  | Ok parsed =>
      ensure! web_scheme parsed else Err (InvalidProxyOrigin input "scheme must be http or https") ;;
      ensure! str_is_empty (username parsed) && bool_decide (password parsed = None)
        else Err (InvalidProxyOrigin input "credentials are not permitted") ;;
      ensure! bool_decide (query parsed = None) && bool_decide (fragment parsed = None)
        else Err (InvalidProxyOrigin input "query strings and fragments are not permitted") ;;
      ensure! bool_decide (path parsed = "") || bool_decide (path parsed = "/")
        else Err (InvalidProxyOrigin input "path prefixes are not permitted") ;;
      ensure! bool_decide (is_Some (host_str parsed)) else Err (InvalidProxyOrigin input "host is required") ;;
      Ok (origin parsed)
  end.

Definition validate_signing_key (value : string) (agent : bool) : Trusted unit :=
  let invalid := if agent then InvalidAgentKey value else InvalidProxySigningKey value in
  match b64_decode value with
  | Err _ => Err invalid
  | Ok decoded =>
      ensure! (len decoded =? ED25519_PUBLIC_KEY_SIZE) && bool_decide (b64_encode decoded = value) else Err invalid ;;
      Ok tt
  end.

Definition new_identity (origin endpoint_id_hex signing_key_b64 : string) : Trusted TrustedProxyIdentity :=
  endpoint_id ← ok_or (hex_decode endpoint_id_hex) (InvalidProxyEndpoint endpoint_id_hex);
  ensure! (len endpoint_id =? EndpointRecord.IROH_ENDPOINT_ID_BYTES) &&
          bool_decide (endpoint_id_hex = to_ascii_lowercase endpoint_id_hex)
    else Err (InvalidProxyEndpoint endpoint_id_hex) ;;
  _ ← validate_signing_key signing_key_b64 false;
  Ok {| proxy_origin := origin; endpoint_id_hex := endpoint_id_hex; signing_key_b64 := signing_key_b64 |}.

(** ** The document *)
Definition insert_agent (key : string) (r : TrustRegistry) : Trusted TrustRegistry :=
  _ ← validate_signing_key key true;
  ensure! bool_decide (key ∈ agent_keys r) || (set_len (agent_keys r) <? MAX_TRUSTED_AGENTS)
    else Err AgentLimitExceeded ;;
  Ok {| agent_keys := {[key]} ∪ agent_keys r; proxies := proxies r |}.

Fixpoint legacy_loop (values : list string) (r : TrustRegistry) : Trusted TrustRegistry :=
  match values with
  | [] => Ok r
  | value :: rest =>
      if str_is_empty value then legacy_loop rest r else r ← insert_agent value r; legacy_loop rest r
  end.

Definition parse_legacy (contents : string) : Trusted TrustRegistry :=
  legacy_loop ((fun line => trim (default "" (head (split "#" line)))) <$> lines contents) default_registry.

Definition typed_record (line_number : Z) (line : string) (r : TrustRegistry) : Trusted TrustRegistry :=
  match split_ascii_whitespace line with
  | [tag; key] =>
      if bool_decide (tag = "agent") then insert_agent key r
      else Err (MalformedRecord line_number "expected `agent <key>` or `proxy <origin> <endpoint> <key>`")
  | [tag; origin; endpoint; key] =>
      if bool_decide (tag = "proxy") then
        origin ← parse_origin origin;
        ensure! bool_decide (proxies r !! origin = None) else Err (DuplicateProxyOrigin origin) ;;
        ensure! map_len (proxies r) <? MAX_TRUSTED_PROXIES else Err ProxyLimitExceeded ;;
        identity ← new_identity origin endpoint key;
        Ok {| agent_keys := agent_keys r; proxies := <[origin := identity]> (proxies r) |}
      else Err (MalformedRecord line_number "expected `agent <key>` or `proxy <origin> <endpoint> <key>`")
  | _ => Err (MalformedRecord line_number "expected `agent <key>` or `proxy <origin> <endpoint> <key>`")
  end.

Fixpoint typed_loop (index : Z) (ls : list string) (header_seen : bool) (r : TrustRegistry) : Trusted TrustRegistry :=
  match ls with
  | [] => if header_seen then Ok r else Err (UnsupportedVersion "")
  | raw :: rest =>
      let line_number := index + 1 in
      let line := trim raw in
      if str_is_empty line then typed_loop (index + 1) rest header_seen r
      else if header_seen then r ← typed_record line_number line r; typed_loop (index + 1) rest header_seen r
      else ensure! bool_decide (line = TRUST_FILE_HEADER) else Err (UnsupportedVersion line) ;;
           typed_loop (index + 1) rest true r
  end.

Definition parse_typed (contents : string) : Trusted TrustRegistry := typed_loop 0 (lines contents) false default_registry.

Definition first_meaningful (contents : string) : option string :=
  List.find (fun line => negb (str_is_empty line) && negb (starts_with "#" line)) (trim <$> lines contents).

Definition parse (contents : string) : Trusted TrustRegistry :=
  ensure! str_len contents <=? MAX_TRUST_FILE_BYTES else Err DocumentTooLarge ;;
  if match first_meaningful contents with Some line => starts_with "podmesh-trust-" line | None => false end
  then parse_typed contents else parse_legacy contents.

Definition eol : string := of_chars [newline].
Definition agent_line (key : string) : string := "agent " +:+ key.
Definition proxy_line (i : TrustedProxyIdentity) : string :=
  "proxy " +:+ proxy_origin i +:+ " " +:+ endpoint_id_hex i +:+ " " +:+ signing_key_b64 i.

Definition btree_keys (s : gset string) : list string := sort_unstable str_compare (elements s).
Definition btree_proxies (m : gmap string TrustedProxyIdentity) : list (string * TrustedProxyIdentity) :=
  sort_unstable (fun a b => str_compare a.1 b.1) (map_to_list m).

Definition document (r : TrustRegistry) : list string :=
  TRUST_FILE_HEADER :: (agent_line <$> btree_keys (agent_keys r)) ++ (proxy_line <$> (btree_proxies (proxies r)).*2).
Definition to_canonical_string (r : TrustRegistry) : string :=
  foldr (fun line text => line +:+ eol +:+ text) "" (document r).

(** ** Operations *)
Fixpoint override_loop (values : list string) (keys : gset string) : Trusted (gset string) :=
  match values with
  | [] => Ok keys
  | key :: rest =>
      _ ← validate_signing_key key true;
      ensure! bool_decide (key ∈ keys) || (set_len keys <? MAX_TRUSTED_AGENTS) else Err AgentLimitExceeded ;;
      override_loop rest ({[key]} ∪ keys)
  end.

Definition effective_agent_keys (r : TrustRegistry) (environment_override : option string) : Trusted (gset string) :=
  match environment_override with
  | None => Ok (agent_keys r)
  | Some value => override_loop (list_retain (fun key => negb (str_is_empty key)) (trim <$> split "," value)) ∅
  end.

Definition insert_proxy (i : TrustedProxyIdentity) (r : TrustRegistry) : Trusted TrustRegistry :=
  ensure! bool_decide (proxies r !! proxy_origin i = None) else Err (ExistingProxyTrust (proxy_origin i)) ;;
  ensure! map_len (proxies r) <? MAX_TRUSTED_PROXIES else Err ProxyLimitExceeded ;;
  Ok {| agent_keys := agent_keys r; proxies := <[proxy_origin i := i]> (proxies r) |}.

Definition replace_proxy (i : TrustedProxyIdentity) (r : TrustRegistry) : Trusted (TrustRegistry * TrustedProxyIdentity) :=
  match proxies r !! proxy_origin i with
  | None => Err (MissingProxyForReplace (proxy_origin i))
  | Some previous => Ok ({| agent_keys := agent_keys r; proxies := <[proxy_origin i := i]> (proxies r) |}, previous)
  end.

Definition remove_proxy (origin : string) (r : TrustRegistry) : TrustRegistry * option TrustedProxyIdentity :=
  ({| agent_keys := agent_keys r; proxies := delete origin (proxies r) |}, proxies r !! origin).

Definition authorize_proxy (r : TrustRegistry) (observed : TrustedProxyIdentity) : Trusted TrustedProxyIdentity :=
  match proxies r !! proxy_origin observed with
  | None => Err (MissingProxyTrust (proxy_origin observed))
  | Some trusted =>
      ensure! bool_decide (endpoint_id_hex trusted = endpoint_id_hex observed) &&
              bool_decide (signing_key_b64 trusted = signing_key_b64 observed)
        else Err (ProxyIdentityMismatch (proxy_origin observed)
               (short_identifier (endpoint_id_hex trusted)) (short_identifier (endpoint_id_hex observed))
               (short_identifier (signing_key_b64 trusted)) (short_identifier (signing_key_b64 observed))) ;;
      Ok trusted
  end.
End Registry.

(** ** The file

    A file system with one trust file and one temporary file.  A write reaches
    the disk for certain only when the file is synchronised, and a rename only
    when its directory is. *)
(** [0o600] and [0o077] *)
Definition PRIVATE_MODE : Z := 6 * 64.
Definition SHARED_BITS : Z := 7 * 8 + 7.

Record Inode := { data : bytes; mode : Z; synced : bool }.
Record Disk := {
  entry : option Inode;          (* what the name leads to *)
  durable_entry : option Inode;  (* what it leads to on the disk *)
  temp : option Inode
}.

(** The calls of [TrustStoreIo]; any of them may fail with a message, and a
    failed write has written some of its bytes. *)
Inductive IoCall := Metadata | SetPermissions | Open | Read | CreateTemp | WriteTemp | SyncTemp | Rename | SyncParent.
Record Faults := { fault : IoCall -> option string; written : nat }.

Definition set_entry (e : option Inode) (d : Disk) : Disk := {| entry := e; durable_entry := durable_entry d; temp := temp d |}.
Definition set_temp (t : option Inode) (d : Disk) : Disk := {| entry := entry d; durable_entry := durable_entry d; temp := t |}.

Definition create_private_temp (f : Faults) (d : Disk) : Disk * Trusted unit :=
  match fault f CreateTemp with
  | Some e => (d, Err (Persistence "create temporary file" e))
  | None => (set_temp (Some {| data := []; mode := PRIVATE_MODE; synced := false |}) d, Ok tt)
  end.
(** [File::flush], which follows, does nothing and does not fail. *)
Definition write_all (b : bytes) (f : Faults) (d : Disk) : Disk * Trusted unit :=
  let put n := match temp d with
               | Some t => set_temp (Some {| data := data t ++ take n b; mode := mode t; synced := false |}) d
               | None => d
               end in
  match fault f WriteTemp with
  | Some e => (put (written f), Err (Persistence "write temporary file" e))
  | None => (put (length b), Ok tt)
  end.
Definition sync_file (f : Faults) (d : Disk) : Disk * Trusted unit :=
  match fault f SyncTemp with
  | Some e => (d, Err (Persistence "sync temporary file" e))
  | None => (set_temp ((fun t => {| data := data t; mode := mode t; synced := true |}) <$> temp d) d, Ok tt)
  end.
Definition rename (f : Faults) (d : Disk) : Disk * Trusted unit :=
  match fault f Rename with
  | Some e => (d, Err (Persistence "rename trust file" e))
  | None => (set_temp None (set_entry (temp d) d), Ok tt)
  end.
Definition sync_parent (f : Faults) (d : Disk) : Disk * Trusted unit :=
  match fault f SyncParent with
  | Some e => (d, Err (Persistence "sync trust directory" e))
  | None => ({| entry := entry d; durable_entry := entry d; temp := temp d |}, Ok tt)
  end.

Definition Action : Type := Faults -> Disk -> Disk * Trusted unit.
Fixpoint perform (actions : list Action) (f : Faults) (d : Disk) : Disk * Trusted unit :=
  match actions with
  | [] => (d, Ok tt)
  | a :: rest => let (d, r) := a f d in
                 match r with Ok _ => perform rest f d | Err e => (d, Err e) end
  end.

Section File.
Context {P : Primitives} {U : UrlParser} {HX : Hex}.

Definition persist_actions (b : bytes) : list Action := [create_private_temp; write_all b; sync_file; rename; sync_parent].

(** The temporary file is removed when it is dropped. *)
Definition persist_registry (f : Faults) (r : TrustRegistry) (d : Disk) : Disk * Trusted unit :=
  let contents := to_canonical_string r in
  ensure! str_len contents <=? MAX_TRUST_FILE_BYTES else (d, Err DocumentTooLarge) ;;
  let (d, outcome) := perform (persist_actions (as_bytes contents)) f d in
  (set_temp None d, outcome).

Definition set_private_permissions (f : Faults) (i : Inode) (d : Disk) : Disk * Trusted unit :=
  match fault f SetPermissions with
  | Some e => (d, Err (StoreIo "restrict permissions" e))
  | None => (set_entry (Some {| data := data i; mode := PRIVATE_MODE; synced := synced i |}) d, Ok tt)
  end.

Definition read_bounded (f : Faults) (i : Inode) : Trusted bytes :=
  match fault f Open with
  | Some e => Err (StoreIo "open" e)
  | None =>
      match fault f Read with
      | Some e => Err (StoreIo "read" e)
      | None => let b := take (Z.to_nat (MAX_TRUST_FILE_BYTES + 1)) (data i) in
                ensure! len b <=? MAX_TRUST_FILE_BYTES else Err DocumentTooLarge ;; Ok b
      end
  end.

Definition load_registry (f : Faults) (d : Disk) : Disk * Trusted TrustRegistry :=
  match fault f Metadata with
  | Some e => (d, Err (StoreIo "metadata" e))
  | None =>
      match entry d with
      | None => (d, Ok default_registry)
      | Some i =>
          ensure! len (data i) <=? MAX_TRUST_FILE_BYTES else (d, Err DocumentTooLarge) ;;
          let (d, restricted) := if negb (Z.land (mode i) SHARED_BITS =? 0) then set_private_permissions f i d else (d, Ok tt) in
          try! _done := restricted in d ;;
          try! b := read_bounded f i in d ;;
          try! contents := ok_or (from_utf8 b) (MalformedRecord 0 "trust document is not UTF-8") in d ;;
          (d, parse contents)
      end
  end.

Definition store_proxy_trust (f : Faults) (i : TrustedProxyIdentity) (replace : bool) (d : Disk)
    : Disk * Trusted (option TrustedProxyIdentity) :=
  let (d, loaded) := load_registry f d in
  try! registry := loaded in d ;;
  try! changed := (if replace then rp ← replace_proxy i registry; Ok (rp.1, Some rp.2)
                   else r ← insert_proxy i registry; Ok (r, None)) in d ;;
  let (d, persisted) := persist_registry f changed.1 d in
  try! _done := persisted in d ;;
  (d, Ok changed.2).

Definition remove_proxy_trust (f : Faults) (proxy_url : string) (d : Disk) : Disk * Trusted (option TrustedProxyIdentity) :=
  let (d, loaded) := load_registry f d in
  try! registry := loaded in d ;;
  try! origin := parse_origin proxy_url in d ;;
  let (registry, removed) := remove_proxy origin registry in
  match removed with
  | Some _ => let (d, persisted) := persist_registry f registry d in
              try! _done := persisted in d ;; (d, Ok removed)
  | None => (d, Ok removed)
  end.

Definition list_proxy_trust (f : Faults) (d : Disk) : Disk * Trusted (list TrustedProxyIdentity) :=
  let (d, loaded) := load_registry f d in
  try! registry := loaded in d ;;
  (d, Ok (btree_proxies (proxies registry)).*2).

(** ** The decision *)
Inductive AgentTrust := Allowlist (keys : gset string) | AnyAgent.

Fixpoint parse_keys (values : list string) (keys : gset string) : Result (gset string) :=
  match values with
  | [] => Ok keys
  | value :: rest =>
      let value := trim value in
      if str_is_empty value then parse_keys rest keys else
      match validate_signing_key value true with
      | Err _ => Err "invalid agent signing key"
      | Ok _ =>
          ensure! set_len keys <? MAX_TRUSTED_AGENTS else Err "more than MAX_TRUSTED_AGENTS trusted agent keys configured" ;;
          parse_keys rest ({[value]} ∪ keys)
      end
  end.

Definition decided (keys : gset string) : option AgentTrust :=
  if bool_decide (keys = ∅) then None else Some (Allowlist keys).

(** [environment] is the value of PODMESH_TRUSTED_AGENTS. *)
Definition load_trust (f : Faults) (environment : option string) (d : Disk) : Disk * Result (option AgentTrust) :=
  match environment with
  | Some value => try! keys := parse_keys (split "," value) ∅ in d ;; (d, Ok (decided keys))
  | None =>
      let (d, loaded) := load_registry f d in
      match loaded with
      | Err _ => (d, Err "load trusted agent list")
      | Ok registry => (d, Ok (decided (agent_keys registry)))
      end
  end.

Definition authorize (t : AgentTrust) (agent_signing_pubkey : string) : Result unit :=
  match t with
  | AnyAgent => Ok tt
  | Allowlist keys =>
      ensure! bool_decide (agent_signing_pubkey ∈ keys) else Err "the mesh offered an agent which is not in trusted_agents" ;;
      Ok tt
  end.

Definition resolve (f : Faults) (environment : option string) (trust_any_agent : bool) (d : Disk) : Disk * Result AgentTrust :=
  let (d, loaded) := load_trust f environment d in
  try! trust := loaded in d ;;
  (d, match trust, trust_any_agent with
      | Some (Allowlist keys), false => Ok (Allowlist keys)
      | _, true => Ok AnyAgent
      | Some AnyAgent, false => Ok AnyAgent
      | None, false => Err "no trusted agents configured"
      end).
End File.
End Trust.
