(* ===== verification/TrustSafety.v ===== *)
(** * The trust store keeps what the owner decided

    The printed document is read back as it was, every registry the code builds
    is well formed, a failed or interrupted write leaves the old document or
    the whole new one, and trust is never assumed. *)

From S2P Require Import Prelude Net Text Urls Crypto Signed RustOrd EndpointRecord Gossip Trust.
From Stdlib Require Import Ascii.

Module TrustSafety.
Import Crypto Net Text Urls RustOrd Trust.

Section Safety.
Context {P : Primitives} {B64 : Base64Alphabet P} {U : UrlParser} {UL : UrlLaws U} {HX : Hex} {HD : HexDigits HX}.

(** ** Words *)
Definition word (s : string) : Prop := s <> "" /\ all_char visible s = true.

Lemma visible_solid c : visible c = true -> is_ascii_whitespace c = false /\ c <> newline /\ c <> carriage_return.
Proof.
  intros Hc. pose proof (forall_ascii (fun c => negb (visible c) ||
    (negb (is_ascii_whitespace c) && negb (bool_decide (c = newline)) && negb (bool_decide (c = carriage_return))))
    ltac:(vm_compute; done) c) as H. cbn beta in H. rewrite Hc in H. cbn in H. bool_props. done.
Qed.

Lemma all_char_Forall f s : all_char f s = true -> Forall (fun c => f c = true) (chars_of s).
Proof. unfold all_char. intros H. apply Forall_forall. intros c Hc. rewrite forallb_forall in H. by apply H, list_elem_of_In. Qed.

Lemma word_chars s : word s -> chars_of s <> [] /\ solid (chars_of s) /\ Forall (fun c => visible c = true) (chars_of s).
Proof.
  intros [Hne Hv%all_char_Forall]. split_and!; [|eapply Forall_impl; [done|]; by intros c [? _]%visible_solid|done].
  intros E. apply Hne. by apply chars_of_inj.
Qed.

Lemma all_char_impl (f g : ascii -> bool) s : (forall c, f c = true -> g c = true) -> all_char f s = true -> all_char g s = true.
Proof. unfold all_char. rewrite !forallb_forall. auto. Qed.

Lemma base64_char_visible c : base64_char c = true -> visible c = true.
Proof.
  intros Hc. pose proof (forall_ascii (fun c => negb (base64_char c) || visible c) ltac:(vm_compute; done) c) as H.
  cbn beta in H. by rewrite Hc in H.
Qed.

Lemma hex_char_visible c : is_ascii_hexdigit c = true -> visible c = true.
Proof.
  intros Hc. pose proof (forall_ascii (fun c => negb (is_ascii_hexdigit c) || visible c) ltac:(vm_compute; done) c) as H.
  cbn beta in H. by rewrite Hc in H.
Qed.

(** ** Keys and identities *)
Lemma validate_either k a b : validate_signing_key k a = Ok tt -> validate_signing_key k b = Ok tt.
Proof. unfold validate_signing_key. destruct (b64_decode k); [|done]. by destruct (_ && _). Qed.

Lemma key_word k a : validate_signing_key k a = Ok tt -> word k.
Proof.
  unfold validate_signing_key. destruct (b64_decode k) as [d|]; [|done]. destruct (_ && _) eqn:E; [|done]. intros _.
  bool_props. split.
  - rewrite <- H0. apply base64_nonempty. intros ->. by vm_compute in H.
  - rewrite <- H0. eapply all_char_impl; [apply base64_char_visible|apply base64_alphabet].
Qed.

Lemma parse_origin_inv i o : parse_origin i = Ok o -> exists u, url_parse i = Ok u /\ web_scheme u = true /\ is_Some (host_str u) /\ origin u = o.
Proof.
  unfold parse_origin. destruct (url_parse i) as [u|]; [|done]. intros H. Signed.ensure_inv H. injection H as <-.
  bool_props. eauto.
Qed.

(** Normalising an origin twice changes nothing. *)
Lemma parse_origin_idem i o : parse_origin i = Ok o -> parse_origin o = Ok o.
Proof.
  intros (u & Hu & Hw & Hh & <-)%parse_origin_inv.
  destruct (origin_parses _ _ Hu Hw Hh) as (u' & Hu' & Ho & Hw' & Hn & Hp & Hh' & Hpath & Hq & Hf).
  unfold parse_origin. rewrite Hu', Hw', Hn, Hp, Hq, Hf, Hpath, Ho.
  by rewrite (bool_decide_true (is_Some (host_str u'))).
Qed.

Lemma origin_word i o : parse_origin i = Ok o -> word o.
Proof. intros (u & Hu & Hw & Hh & <-)%parse_origin_inv. by apply (origin_visible i). Qed.

Definition identity_ok (i : TrustedProxyIdentity) : Prop :=
  parse_origin (proxy_origin i) = Ok (proxy_origin i) /\
  new_identity (proxy_origin i) (endpoint_id_hex i) (signing_key_b64 i) = Ok i.

Lemma new_identity_inv o h k i : new_identity o h k = Ok i ->
  i = {| proxy_origin := o; endpoint_id_hex := h; signing_key_b64 := k |} /\ word h /\ word k.
Proof.
  unfold new_identity. intros H. Signed.result_steps H. injection H as <-. bool_props.
  split_and!; [done| |by eapply key_word].
  destruct (hex_decode h) as [b|] eqn:E; [|done]. injection Hx as ->. apply hex_digits in E as [Hh Hl]. split.
  - intros ->. cbn in Hl. unfold EndpointRecord.IROH_ENDPOINT_ID_BYTES in *. change (str_len "") with 0 in Hl. lia.
  - eapply all_char_impl; [apply hex_char_visible|done].
Qed.

Lemma new_identity_ok i o h k : parse_origin i = Ok o -> forall t, new_identity o h k = Ok t -> identity_ok t.
Proof.
  intros Ho t Ht. pose proof (new_identity_inv _ _ _ _ Ht) as (-> & _ & _). split; cbn; [by eapply parse_origin_idem|done].
Qed.

Lemma identity_words i : identity_ok i -> word (proxy_origin i) /\ word (endpoint_id_hex i) /\ word (signing_key_b64 i).
Proof. intros [Ho Hn]. apply new_identity_inv in Hn as (_ & ? & ?). split_and!; [by eapply origin_word|done..]. Qed.

(** ** Well-formed registries *)
Record wf (r : TrustRegistry) : Prop := {
  wf_agents k : k ∈ agent_keys r -> validate_signing_key k true = Ok tt;
  wf_agent_count : set_len (agent_keys r) <= MAX_TRUSTED_AGENTS;
  wf_proxies o i : proxies r !! o = Some i -> proxy_origin i = o /\ identity_ok i;
  wf_proxy_count : map_len (proxies r) <= MAX_TRUSTED_PROXIES
}.

Lemma default_wf : wf default_registry.
Proof. split; cbn; [set_solver|done|intros o i; by rewrite lookup_empty|done]. Qed.

Lemma set_len_insert (k : string) (s : gset string) : k ∉ s -> set_len ({[k]} ∪ s) = set_len s + 1.
Proof. intros Hk. unfold set_len. rewrite size_union by set_solver. rewrite size_singleton. lia. Qed.

Lemma insert_agent_wf k r r' : wf r -> insert_agent k r = Ok r' -> wf r'.
Proof.
  intros Hw H. unfold insert_agent in H. Signed.result_steps H. injection H as <-. destruct Hw. split; cbn; try done.
  - intros k' [->%elem_of_singleton|Hk]%elem_of_union; [done|auto].
  - apply orb_true_iff in Hc as [Hc|Hc]; bool_props.
    + by rewrite subseteq_union_1_L by set_solver.
    + destruct (decide (k ∈ agent_keys r)); [by rewrite subseteq_union_1_L by set_solver|]. rewrite set_len_insert by done. lia.
Qed.

Lemma put_proxy_wf i r : wf r -> identity_ok i -> map_len (<[proxy_origin i := i]> (proxies r)) <= MAX_TRUSTED_PROXIES ->
  wf {| agent_keys := agent_keys r; proxies := <[proxy_origin i := i]> (proxies r) |}.
Proof.
  intros [] Hi Hl. split; cbn; try done. intros o i'. rewrite lookup_insert_Some. intros [[<- <-]|[_ ?]]; auto.
Qed.

Lemma typed_record_wf n l r r' : wf r -> typed_record n l r = Ok r' -> wf r'.
Proof.
  intros Hw. unfold typed_record.
  destruct (split_ascii_whitespace l) as [|t [|k [|o [|e [|? ?]]]]]; try done.
  - case_bool_decide; [|done]. by apply insert_agent_wf.
  - case_bool_decide; [|done]. intros Hp. Signed.result_steps Hp. injection Hp as <-. bool_props.
    pose proof (new_identity_ok _ _ _ _ Hx _ Hx0) as Hi. pose proof (new_identity_inv _ _ _ _ Hx0) as (-> & _).
    apply (put_proxy_wf _ r Hw Hi). cbn. rewrite map_len_insert_new by done. lia.
Qed.

Lemma typed_loop_wf n ls h r r' : wf r -> typed_loop n ls h r = Ok r' -> wf r'.
Proof.
  revert n h r. induction ls as [|raw ls IH]; intros n h r Hw H; cbn [typed_loop] in H.
  - destruct h; [by injection H as <-|done].
  - destruct (str_is_empty _); [by eapply IH|]. destruct h.
    + Signed.result_steps H. eapply IH; [|exact H]. by eapply typed_record_wf.
    + destruct (bool_decide _); [|done]. by eapply IH.
Qed.

Lemma legacy_loop_wf vs r r' : wf r -> legacy_loop vs r = Ok r' -> wf r'.
Proof.
  revert r. induction vs as [|v vs IH]; intros r Hw H; cbn [legacy_loop] in H; [by injection H as <-|].
  destruct (str_is_empty v); [by eapply IH|]. Signed.result_steps H. eapply IH; [|exact H]. by eapply insert_agent_wf.
Qed.

Lemma parse_wf s r : parse s = Ok r -> wf r.
Proof.
  unfold parse. intros H. Signed.ensure_inv H. destruct (first_meaningful s) as [l|].
  - destruct (starts_with _ _); [by eapply typed_loop_wf; [apply default_wf|]|by eapply legacy_loop_wf; [apply default_wf|]].
  - by eapply legacy_loop_wf; [apply default_wf|].
Qed.

(** ** Printing and reading back *)
Definition one_line (s : string) : Prop := Forall (fun c => c <> newline /\ c <> carriage_return) (chars_of s).

Lemma one_line_app a b : one_line a -> one_line b -> one_line (a +:+ b).
Proof. unfold one_line. rewrite chars_of_app. apply Forall_app_2. Qed.

Lemma word_one_line s : word s -> one_line s.
Proof. intros (_ & _ & Hv)%word_chars. eapply Forall_impl; [done|]. by intros c (_ & ? & ?)%visible_solid. Qed.

Lemma text_one_line s : all_char (fun c => negb (bool_decide (c = newline)) && negb (bool_decide (c = carriage_return))) s = true -> one_line s.
Proof. intros H%all_char_Forall. eapply Forall_impl; [done|]. intros c Hc. cbn in Hc. by bool_props. Qed.

Lemma lines_text doc : Forall one_line doc -> lines (foldr (fun line text => line +:+ eol +:+ text) "" doc) = doc.
Proof. induction 1 as [|l doc Hl Hd IH]; [done|]. cbn [foldr]. etrans; [by apply (lines_cons l)|]. f_equal. exact IH. Qed.

(** A line of words that starts with a letter is left alone by [trim]. *)
Lemma trim_line tag w a l : chars_of tag = a :: l -> visible a = true -> word w -> trim (tag +:+ w) = tag +:+ w.
Proof.
  intros Ht Ha (Hne & _ & Hv)%word_chars. destruct (exists_last Hne) as (r & b & Hb). rewrite Hb in Hv.
  apply Forall_app in Hv as [_ Hv]. apply Forall_cons in Hv as [Hvb _].
  apply (trim_visible _ a b (l ++ chars_of w)); [by rewrite chars_of_app, Ht| |done|done].
  rewrite Hb, app_comm_cons, app_assoc. apply last_snoc.
Qed.

Lemma agent_words k : word k -> split_ascii_whitespace (agent_line k) = ["agent"; k].
Proof.
  intros (Hne & Hs & _)%word_chars. unfold split_ascii_whitespace, agent_line. rewrite chars_of_app.
  change (chars_of "agent ") with (chars_of "agent" ++ [" "%char]). rewrite <- app_assoc. cbn [app].
  rewrite words_acc_cons by (solve [done|repeat constructor]). rewrite words_acc_last by done. cbn [fmap list_fmap].
  by rewrite !of_chars_of.
Qed.

Lemma proxy_words i : identity_ok i ->
  split_ascii_whitespace (proxy_line i) = ["proxy"; proxy_origin i; endpoint_id_hex i; signing_key_b64 i].
Proof.
  intros (Ho & Hh & Hk)%identity_words. apply word_chars in Ho as (? & ? & _), Hh as (? & ? & _), Hk as (? & ? & _).
  unfold split_ascii_whitespace, proxy_line. rewrite !chars_of_app.
  change (chars_of "proxy ") with (chars_of "proxy" ++ [" "%char]). change (chars_of " ") with [" "%char].
  rewrite <- app_assoc. cbn [app]. rewrite words_acc_cons by (solve [done|repeat constructor]).
  rewrite !words_acc_cons by done. rewrite words_acc_last by done. cbn [fmap list_fmap]. by rewrite !of_chars_of.
Qed.

Lemma agent_record n k r : word k -> typed_record n (agent_line k) r = insert_agent k r.
Proof. intros Hk. unfold typed_record. by rewrite agent_words. Qed.

Lemma proxy_record n i r : identity_ok i -> proxies r !! proxy_origin i = None -> map_len (proxies r) < MAX_TRUSTED_PROXIES ->
  typed_record n (proxy_line i) r = Ok {| agent_keys := agent_keys r; proxies := <[proxy_origin i := i]> (proxies r) |}.
Proof.
  intros Hi Hn Hl. unfold typed_record. rewrite proxy_words by done. destruct Hi as [Ho Hi].
  rewrite bool_decide_true by done. rewrite Ho, Signed.bind_eq, bool_decide_true, (proj2 (Z.ltb_lt _ _)) by done.
  by rewrite Hi.
Qed.

Lemma agents_loop n ks rest r : NoDup ks -> (forall k, k ∈ ks -> validate_signing_key k true = Ok tt /\ k ∉ agent_keys r) ->
  set_len (agent_keys r) + len ks <= MAX_TRUSTED_AGENTS ->
  exists n', typed_loop n ((agent_line <$> ks) ++ rest) true r =
    typed_loop n' rest true {| agent_keys := list_to_set ks ∪ agent_keys r; proxies := proxies r |}.
Proof.
  revert n r. induction ks as [|k ks IH]; intros n r Hnd Hks Hl.
  { exists n. cbn. f_equal. destruct r. cbn. f_equal. set_solver. }
  apply NoDup_cons in Hnd as [Hk Hnd]. destruct (Hks k) as [Hv Hnew]; [set_solver|]. rewrite len_cons in Hl.
  cbn [fmap list_fmap app typed_loop]. pose proof (key_word _ _ Hv) as Hw.
  assert (trim (agent_line k) = agent_line k) as -> by (unfold agent_line; by eapply trim_line).
  change (str_is_empty (agent_line k)) with false. cbv iota. rewrite agent_record by done.
  unfold insert_agent. rewrite Hv, Signed.bind_eq. pose proof (len_nonneg ks).
  rewrite (proj2 (Z.ltb_lt _ _)), orb_true_r, Signed.bind_eq by lia.
  edestruct IH as [n' ->]; [done| | |].
  - cbn. intros k' Hk'. destruct (Hks k') as [? ?]; [set_solver|]. set_solver.
  - cbn. rewrite set_len_insert by done. lia.
  - exists n'. cbn. do 2 f_equal. set_solver.
Qed.

Lemma proxies_loop n ps r : NoDup ps.*1 -> (forall o i, (o, i) ∈ ps -> proxy_origin i = o /\ identity_ok i /\ proxies r !! o = None) ->
  map_len (proxies r) + len ps <= MAX_TRUSTED_PROXIES ->
  typed_loop n (proxy_line <$> ps.*2) true r = Ok {| agent_keys := agent_keys r; proxies := list_to_map ps ∪ proxies r |}.
Proof.
  revert n r. induction ps as [|[o i] ps IH]; intros n r Hnd Hps Hl.
  { cbn. destruct r. cbn. by rewrite (left_id_L ∅ (∪)). }
  cbn in Hnd. apply NoDup_cons in Hnd as [Ho Hnd]. destruct (Hps o i) as (Heq & Hi & Hnew); [set_solver|]. rewrite len_cons in Hl.
  pose proof (len_nonneg ps). cbn [fmap list_fmap typed_loop snd]. destruct (identity_words _ Hi) as (_ & _ & Hw).
  assert (Ht : trim (proxy_line i) = proxy_line i).
  { unfold proxy_line. rewrite !append_assoc. by eapply trim_line. }
  rewrite Ht. assert (str_is_empty (proxy_line i) = false) as -> by done.
  rewrite proxy_record by (done || (rewrite Heq; done) || lia). rewrite Signed.bind_eq, IH.
  - cbn [agent_keys proxies]. do 2 f_equal. cbn. rewrite Heq, <- insert_union_l. symmetry. apply insert_union_r.
    apply not_elem_of_list_to_map_1. done.
  - done.
  - cbn. intros o' i' Hin. destruct (Hps o' i') as (? & ? & ?); [set_solver|]. split_and!; [done..|].
    rewrite lookup_insert_ne; [done|]. rewrite Heq. intros <-. apply Ho. by apply (list_elem_of_fmap_2 fst) in Hin.
  - cbn [proxies]. rewrite map_len_insert_new by (by rewrite Heq). lia.
Qed.

(** ** The document *)
Lemma document_lines r : wf r -> Forall one_line (document r).
Proof.
  intros Hw. unfold document. constructor; [by apply text_one_line|]. apply Forall_app_2; apply Forall_fmap, Forall_forall.
  - intros k Hk. unfold btree_keys in Hk. rewrite sort_perm in Hk. apply elem_of_elements in Hk. cbn. unfold agent_line.
    apply one_line_app; [by apply text_one_line|]. by apply word_one_line, (key_word _ true), (wf_agents _ Hw).
  - intros i ([o i'] & -> & Hi)%list_elem_of_fmap. unfold btree_proxies in Hi. rewrite sort_perm in Hi.
    apply elem_of_map_to_list in Hi. destruct (wf_proxies _ Hw _ _ Hi) as [_ (? & ? & ?)%identity_words]. cbn. unfold proxy_line.
    repeat (apply one_line_app; [first [by apply word_one_line|by apply text_one_line]|]). by apply word_one_line.
Qed.

Lemma document_typed r : wf r ->
  first_meaningful (to_canonical_string r) = Some TRUST_FILE_HEADER /\ parse_typed (to_canonical_string r) = Ok r.
Proof.
  intros Hw. unfold first_meaningful, parse_typed, to_canonical_string. rewrite lines_text by by apply document_lines.
  split; [by vm_compute|]. unfold document. cbn [typed_loop]. assert (trim TRUST_FILE_HEADER = TRUST_FILE_HEADER) as -> by by vm_compute.
  assert (str_is_empty TRUST_FILE_HEADER = false) as -> by done. rewrite bool_decide_true by done.
  destruct (agents_loop (0 + 1) (btree_keys (agent_keys r)) (proxy_line <$> (btree_proxies (proxies r)).*2) default_registry)
    as [n' ->]; unfold btree_keys.
  - rewrite sort_perm. apply NoDup_elements.
  - intros k. rewrite sort_perm, elem_of_elements. intros Hk. split; [by apply (wf_agents _ Hw)|set_solver].
  - unfold len. rewrite sort_perm. apply (wf_agent_count _ Hw).
  - rewrite proxies_loop; unfold btree_proxies; cbn [proxies agent_keys default_registry].
    + destruct r as [ks ps]. cbn. do 2 f_equal.
      * apply set_eq. intros k. rewrite elem_of_union, elem_of_list_to_set, sort_perm, elem_of_elements. set_solver.
      * rewrite (right_id_L ∅ (∪)). apply map_eq. intros o. apply option_eq. intros i.
        rewrite <- elem_of_list_to_map by (rewrite sort_perm; apply NoDup_fst_map_to_list). by rewrite sort_perm, elem_of_map_to_list.
    + rewrite sort_perm. apply NoDup_fst_map_to_list.
    + intros o i. rewrite sort_perm, elem_of_map_to_list. intros Hi. destruct (wf_proxies _ Hw _ _ Hi). split_and!; [done..|apply lookup_empty].
    + unfold len. rewrite sort_perm, length_map_to_list, map_len_empty. apply (wf_proxy_count _ Hw).
Qed.

Lemma parse_printed r : wf r -> str_len (to_canonical_string r) <= MAX_TRUST_FILE_BYTES -> parse (to_canonical_string r) = Ok r.
Proof.
  intros Hw Hl. destruct (document_typed r Hw) as [Hf Ht]. unfold parse.
  rewrite (proj2 (Z.leb_le _ _) Hl), Hf, Ht. by vm_compute.
Qed.

(** ** The file *)
Lemma as_bytes_of s : String.string_of_list_byte (as_bytes s) = s.
Proof. apply String.string_of_list_byte_of_string. Qed.

Lemma as_bytes_len s : len (as_bytes s) = str_len s.
Proof. unfold len, str_len, as_bytes. f_equal. induction s as [|c s IH]; [done|]. cbn. by f_equal. Qed.

Lemma ascii_utf8 s : all_char (fun c => code c <? 128) s = true -> from_utf8 (as_bytes s) = Some s.
Proof.
  intros H. unfold from_utf8. rewrite as_bytes_of. assert (utf8_valid (as_bytes s) = true) as ->; [|done].
  revert H. unfold all_char. change (as_bytes s) with (map byte_of_ascii (chars_of s)).
  induction (chars_of s) as [|c l IH]; [done|]. cbn [forallb map utf8_valid]. intros [Hc Hl]%andb_true_iff.
  assert (byte_to_Z (byte_of_ascii c) = code c) as -> by (by destruct c as [[][][][][][][][]]).
  rewrite Hc. by apply IH.
Qed.

Lemma all_char_app f a b : all_char f (a +:+ b) = all_char f a && all_char f b.
Proof. unfold all_char. by rewrite chars_of_app, forallb_app. Qed.


Definition ascii_char (c : ascii) : bool := code c <? 128.

Lemma word_ascii s : word s -> all_char ascii_char s = true.
Proof. intros [_ Hv]. eapply all_char_impl; [|done]. intros c Hc%visible_code. apply Z.ltb_lt. lia. Qed.

Lemma document_ascii r : wf r -> all_char ascii_char (to_canonical_string r) = true.
Proof.
  intros Hw. unfold to_canonical_string. assert (Hd : Forall (fun l => all_char ascii_char l = true) (document r)).
  { unfold document. constructor; [by vm_compute|]. apply Forall_app_2; apply Forall_fmap, Forall_forall.
    - intros k Hk. unfold btree_keys in Hk. rewrite sort_perm in Hk. apply elem_of_elements in Hk. cbn. unfold agent_line.
      rewrite all_char_app, (word_ascii k); [by vm_compute|]. by apply (key_word _ true), (wf_agents _ Hw).
    - intros i ([o i'] & -> & Hi)%list_elem_of_fmap. unfold btree_proxies in Hi. rewrite sort_perm in Hi.
      apply elem_of_map_to_list in Hi. destruct (wf_proxies _ Hw _ _ Hi) as [_ (? & ? & ?)%identity_words]. cbn. unfold proxy_line.
      rewrite !all_char_app, (word_ascii (proxy_origin i')), (word_ascii (endpoint_id_hex i')), (word_ascii (signing_key_b64 i')) by done.
      by vm_compute. }
  induction Hd as [|l doc Hl Hd IH]; [done|]. cbn [foldr]. rewrite !all_char_app, Hl, IH. by vm_compute.
Qed.

(** No call fails. *)
Definition quiet : Faults := {| fault := fun _ => None; written := 0 |}.

(** What a start after the last call finds in the file. *)
Definition read_content (content : option bytes) : Trusted TrustRegistry :=
  match content with
  | None => Ok default_registry
  | Some b => ensure! len b <=? MAX_TRUST_FILE_BYTES else Err DocumentTooLarge ;;
              contents ← ok_or (from_utf8 b) (MalformedRecord 0 "trust document is not UTF-8"); parse contents
  end.
Definition reads (d : Disk) (r : TrustRegistry) : Prop := read_content (data <$> entry d) = Ok r.

Lemma read_bounded_all f i b : len (data i) <= MAX_TRUST_FILE_BYTES -> read_bounded f i = Ok b -> b = data i.
Proof.
  intros Hl. unfold read_bounded. destruct (fault f Open); [done|]. destruct (fault f Read); [done|].
  rewrite take_ge by (unfold len in *; lia). rewrite (proj2 (Z.leb_le _ _) Hl). by intros [= <-].
Qed.

(** Loading gives what the file holds, and changes at most its mode. *)
Lemma load_ok f d d' r : load_registry f d = (d', Ok r) ->
  reads d r /\ data <$> entry d' = data <$> entry d /\ durable_entry d' = durable_entry d.
Proof.
  unfold load_registry, reads, read_content. destruct (fault f Metadata); [done|].
  destruct (entry d) as [i|] eqn:He; cbn [fmap option_fmap option_map]; [|intros [= <- <-]; by rewrite He].
  destruct (len (data i) <=? MAX_TRUST_FILE_BYTES) eqn:Hl; [|done]. bool_props.
  unfold set_private_permissions. destruct (negb _); [destruct (fault f SetPermissions); [done|]|];
    (destruct (read_bounded f i) as [b|] eqn:Hb; [|done]); apply read_bounded_all in Hb as ->; try done;
    (destruct (from_utf8 (data i)); cbn; [|done]); intros [= <- Hp]; cbn; rewrite ?He; done.
Qed.

(** Without faults loading gives just that. *)
Lemma load_quiet d : exists d', load_registry quiet d = (d', read_content (data <$> entry d)).
Proof.
  unfold load_registry, read_content. cbn [fault quiet]. destruct (entry d) as [i|]; cbn [fmap option_fmap option_map]; [|eauto].
  destruct (len (data i) <=? MAX_TRUST_FILE_BYTES) eqn:Hl; [|eauto]. bool_props.
  assert (Hb : read_bounded quiet i = Ok (data i)).
  { unfold read_bounded. cbn [fault quiet]. rewrite take_ge by (unfold len in *; lia). by rewrite (proj2 (Z.leb_le _ _) Hl). }
  rewrite Hb. destruct (negb _); cbn [set_private_permissions fault quiet]; destruct (from_utf8 (data i)); cbn; eauto.
Qed.

Lemma reads_wf d r : reads d r -> wf r.
Proof.
  unfold reads, read_content. destruct (data <$> entry d) as [b|]; [|intros [= <-]; apply default_wf].
  intros H. Signed.result_steps H. by eapply parse_wf.
Qed.

Lemma content_printed r : wf r -> str_len (to_canonical_string r) <= MAX_TRUST_FILE_BYTES ->
  read_content (Some (as_bytes (to_canonical_string r))) = Ok r.
Proof.
  intros Hw Hl. cbn [read_content]. rewrite as_bytes_len, (proj2 (Z.leb_le _ _) Hl).
  rewrite ascii_utf8 by by apply document_ascii. cbn [ok_or]. rewrite Signed.bind_eq. by apply parse_printed.
Qed.

(** A disk on which everything written so far is safe. *)
Definition settled (d : Disk) : Prop :=
  durable_entry d = entry d /\ match entry d with Some i => synced i = true | None => True end.

(** What a start may find after a loss of power: the name leads to what it led
    to before or after a rename whose directory was not synchronised, and a
    file that was not synchronised may hold anything. *)
Definition survives (d : Disk) (found : option bytes) : Prop :=
  exists e, (e = entry d \/ e = durable_entry d) /\
    match e with
    | Some i => exists b, found = Some b /\ (synced i = true -> b = data i)
    | None => found = None
    end.

(** The calls made so far have left the old document, or the whole new one. *)
Definition old_or_new (d d' : Disk) (b : bytes) : Prop :=
  durable_entry d' = durable_entry d /\ entry d' = entry d \/
  (durable_entry d' = durable_entry d \/ durable_entry d' = entry d') /\
    entry d' = Some {| data := b; mode := PRIVATE_MODE; synced := true |}.

Lemma perform_persist b f d k : old_or_new d (perform (take k (persist_actions b)) f d).1 b.
Proof.
  unfold persist_actions, old_or_new, create_private_temp, write_all, sync_file, rename, sync_parent.
  destruct k as [|[|[|[|[|k]]]]]; cbn [take perform]; rewrite ?firstn_nil;
    repeat (case_match; simplify_eq/=); rewrite ?firstn_all; auto 6.
Qed.

Lemma survives_old_or_new d d' b found : settled d -> old_or_new d d' b -> survives d' found ->
  found = data <$> entry d \/ found = Some b.
Proof.
  intros [Hd Hs] Ho (e & He & Hf).
  assert (Hcase : e = entry d \/ e = Some {| data := b; mode := PRIVATE_MODE; synced := true |}).
  { destruct Ho as [[H1 H2]|[H1 H2]]; destruct He as [-> | ->]; naive_solver congruence. }
  destruct Hcase as [-> | ->]; [left|right].
  - destruct (entry d) as [i|]; cbn; [|done]. destruct Hf as (x & -> & Hx). by rewrite Hx.
  - destruct Hf as (x & -> & Hx). by rewrite Hx.
Qed.

Lemma perform_ok b f d d' : perform (persist_actions b) f d = (d', Ok tt) ->
  entry d' = Some {| data := b; mode := PRIVATE_MODE; synced := true |} /\ durable_entry d' = entry d'.
Proof.
  unfold persist_actions, create_private_temp, write_all, sync_file, rename, sync_parent. cbn [perform].
  repeat (case_match; simplify_eq/=); rewrite ?firstn_all; try done. by intros [= <-].
Qed.

Definition put (i : TrustedProxyIdentity) (r : TrustRegistry) : TrustRegistry :=
  {| agent_keys := agent_keys r; proxies := <[proxy_origin i := i]> (proxies r) |}.

Lemma persist_cases f r d d' res : wf r -> persist_registry f r d = (d', res) ->
  (entry d' = entry d /\ res <> Ok tt) \/ (reads d' r /\ exists i, entry d' = Some i /\ mode i = PRIVATE_MODE /\
     (res = Ok tt -> durable_entry d' = entry d' /\ synced i = true)).
Proof.
  intros Hw. unfold persist_registry. cbv zeta. destruct (_ <=? _) eqn:Hl; [|intros [= <- <-]; by left]. bool_props.
  pose proof (perform_persist (as_bytes (to_canonical_string r)) f d 5) as Ho. cbn [take persist_actions] in Ho.
  fold (persist_actions (as_bytes (to_canonical_string r))) in Ho.
  pose proof (perform_ok (as_bytes (to_canonical_string r)) f d) as Hok.
  destruct (perform _ f d) as [d1 outcome]. cbn [fst] in Ho. intros [= <- <-].
  assert (Hnew : entry d1 = Some {| data := as_bytes (to_canonical_string r); mode := PRIVATE_MODE; synced := true |} ->
    reads (set_temp None d1) r).
  { intros He. unfold reads. cbn. rewrite He. by apply content_printed. }
  destruct outcome as [[]|e].
  - right. destruct (Hok d1 eq_refl) as [He Hd]. split; [auto|]. eexists. cbn. rewrite Hd, He. done.
  - destruct Ho as [[_ He]|[_ He]]; [by left|]. right. split; [auto|]. eexists. cbn. rewrite He. done.
Qed.

(** The registry an update asks for. *)
Definition updated (i : TrustedProxyIdentity) (replace : bool) (r : TrustRegistry) : Prop :=
  if replace then is_Some (proxies r !! proxy_origin i)
  else proxies r !! proxy_origin i = None /\ map_len (proxies r) < MAX_TRUSTED_PROXIES.

Lemma update_inv i (replace : bool) r r' prev : wf r -> identity_ok i ->
  (if replace then rp ← replace_proxy i r; Ok (rp.1, Some rp.2) else x ← insert_proxy i r; Ok (x, None)) = Ok (r', prev) ->
  r' = put i r /\ wf r' /\ updated i replace r /\ prev = proxies r !! proxy_origin i.
Proof.
  intros Hw Hi. unfold updated, replace_proxy, insert_proxy. destruct replace.
  - destruct (proxies r !! proxy_origin i) as [p|] eqn:E; [|done]. cbn. intros [= <- <-]. split_and!; eauto.
    apply put_proxy_wf; [done..|]. rewrite map_len_insert_old by eauto. apply (wf_proxy_count _ Hw).
  - destruct (bool_decide _) eqn:E; [|done]. destruct (_ <? _) eqn:E2; [|done]. bool_props. cbn. intros [= <- <-]. split_and!; auto.
    apply put_proxy_wf; [done..|]. rewrite map_len_insert_new by done. lia.
Qed.

(** ** What the trust store promises *)

(** C23. The trust document is read back as it was written: for every registry
    the parser or the update operations can produce, if its canonical text is
    within the size limit, parsing the text gives the registry again, and
    what any text parses to is such a registry: canonical 32-byte keys, origins
    in normal form, at most 1024 agents and 32 proxies. *)
Theorem trust_roundtrip s r i replace r' prev :
  parse s = Ok r -> identity_ok i ->
  (if replace : bool then rp ← replace_proxy i r; Ok (rp.1, Some rp.2) else x ← insert_proxy i r; Ok (x, None)) = Ok (r', prev) ->
  wf r /\ wf r' /\
  (str_len (to_canonical_string r) <= MAX_TRUST_FILE_BYTES -> parse (to_canonical_string r) = Ok r) /\
  (str_len (to_canonical_string r') <= MAX_TRUST_FILE_BYTES -> parse (to_canonical_string r') = Ok r').
Proof.
  intros Hp%parse_wf Hi Hu. apply update_inv in Hu as (-> & Hw & _); [|done..]. split_and!; auto using parse_printed.
Qed.

(** C21. An update of the trusted proxies happens whole or not at all, whatever
    input and output fails: afterwards the file reads as the old registry or as
    the old one with exactly this proxy set, a success means the latter, on the
    disk and private to the owner; an identity that is already trusted only
    changes when asked to replace it, and a replacement only when there was one. *)
Theorem trust_update_atomic f i replace d d' res r :
  reads d r -> identity_ok i -> store_proxy_trust f i replace d = (d', res) ->
  (reads d' r /\ is_ok res = false) \/
  (reads d' (put i r) /\ updated i replace r /\
   (forall prev, res = Ok prev -> prev = proxies r !! proxy_origin i /\ durable_entry d' = entry d' /\
      exists n, entry d' = Some n /\ mode n = PRIVATE_MODE /\ synced n = true)).
Proof.
  intros Hr Hi. unfold store_proxy_trust. destruct (load_registry f d) as [d1 loaded] eqn:Hl. destruct loaded as [r1|e].
  - destruct (load_ok _ _ _ _ Hl) as (Hr1 & Hd1 & _). assert (r1 = r) as -> by (unfold reads in *; congruence).
    assert (Hkeep : forall d2, data <$> entry d2 = data <$> entry d1 -> reads d2 r).
    { intros d2 E. unfold reads. by rewrite E, Hd1. }
    destruct (if replace then _ else _) as [[r' prev]|e] eqn:Hu; [|intros [= <- <-]; left; split; [by apply Hkeep|done]].
    apply update_inv in Hu as (-> & Hw & Hup & ->); [|by eapply reads_wf|done]. cbn [fst snd].
    destruct (persist_registry f (put i r) d1) as [d2 p] eqn:Hp.
    apply persist_cases in Hp as [[He Hne]|(Hrd & n & He & Hm & Hok)]; [| |done].
    + destruct p as [[]|e]; [done|]. intros [= <- <-]. left. split; [apply Hkeep; by rewrite He|done].
    + destruct p as [[]|e]; intros [= <- <-]; right; split_and!; try done. intros prev [= <-]. destruct Hok; [done|].
      split_and!; [done|congruence|]. exists n. done.
  - intros [= <- <-]. left. split; [|done]. revert Hl. unfold load_registry, reads in *.
    destruct (fault f Metadata); [by intros [= <- _]|]. destruct (entry d) as [n|] eqn:He; [|done].
    destruct (len (data n) <=? _); [|by intros [= <- _]; rewrite He].
    unfold set_private_permissions. destruct (negb _); [destruct (fault f SetPermissions); [by intros [= <- _]; rewrite He|]|];
      (destruct (read_bounded f n); [destruct (from_utf8 _)|]); cbn; intros [= <- _]; cbn; rewrite ?He; done.
Qed.

(** C22. Writing the trust file survives crashes and power losses: at whatever
    call the process stops, whichever calls fail, and whichever of the
    unsynchronised changes the disk kept, a start finds the old document or the
    complete new one. *)
Theorem trust_crash_safe f r d k found :
  settled d -> survives (perform (take k (persist_actions (as_bytes (to_canonical_string r)))) f d).1 found ->
  found = data <$> entry d \/ found = Some (as_bytes (to_canonical_string r)).
Proof. intros Hs Hf. eapply survives_old_or_new; [done|apply perform_persist|done]. Qed.

Lemma parse_keys_elem vs keys keys' k : parse_keys vs keys = Ok keys' -> k ∈ keys' ->
  k ∈ keys \/ (k ∈ trim <$> vs /\ validate_signing_key k true = Ok tt).
Proof.
  revert keys. induction vs as [|v vs IH]; intros keys H Hk; cbn [parse_keys] in H; [injection H as <-; auto|].
  destruct (str_is_empty (trim v)); [destruct (IH _ H Hk) as [|[? ?]]; [auto|right; split; [by right|done]]|].
  destruct (validate_signing_key (trim v) true) as [[]|] eqn:Hv; [|done]. Signed.ensure_inv H.
  destruct (IH _ H Hk) as [[->%elem_of_singleton|?]%elem_of_union|[? ?]]; [|auto|].
  - right. split; [by left|done].
  - right. split; [by right|done].
Qed.

Lemma parse_keys_grow vs keys keys' k : parse_keys vs keys = Ok keys' -> k ∈ keys -> k ∈ keys'.
Proof.
  revert keys. induction vs as [|v vs IH]; intros keys H Hk; cbn [parse_keys] in H; [by injection H as <-|].
  destruct (str_is_empty (trim v)); [by eapply IH|]. destruct (validate_signing_key (trim v) true); [|done]. Signed.ensure_inv H.
  eapply IH; [exact H|set_solver].
Qed.

Lemma parse_keys_all vs keys keys' k :
  parse_keys vs keys = Ok keys' -> k ∈ trim <$> vs -> validate_signing_key k true = Ok tt -> k ∈ keys'.
Proof.
  intros H Hin Hv. revert keys H. induction vs as [|v vs IH]; intros keys H; [by apply not_elem_of_nil in Hin|].
  cbn [parse_keys] in H. rewrite fmap_cons in Hin. apply elem_of_cons in Hin as [->|Hin].
  - destruct (str_is_empty (trim v)) eqn:He.
    { apply key_word in Hv. destruct (trim v); [by destruct Hv|done]. }
    rewrite Hv in H. Signed.ensure_inv H. eapply parse_keys_grow; [exact H|set_solver].
  - destruct (str_is_empty (trim v)); [by eapply IH|]. destruct (validate_signing_key (trim v) true); [|done]. Signed.ensure_inv H.
    by eapply IH.
Qed.

(** Which agents are configured: by the environment variable when it is set,
    else by the trust file. *)
Definition configured (environment : option string) (d : Disk) (key : string) : Prop :=
  validate_signing_key key true = Ok tt /\
  match environment with
  | Some value => key ∈ trim <$> split "," value
  | None => exists r, reads d r /\ key ∈ agent_keys r
  end.

(** C20. The trust decision of a deployment is never assumed: it accepts any
    agent exactly when the operator passed --trust-any-agent; otherwise it
    accepts exactly the agents whose valid signing keys the environment variable
    lists or, without the variable, the trust file, and there is no decision at
    all when nobody is listed.  A proxy is accepted exactly with the endpoint and
    the signing key stored for its origin. *)
Theorem trust_never_assumed f environment any d d' t :
  resolve f environment any d = (d', Ok t) ->
  (if any : bool then t = AnyAgent
   else (exists key, configured environment d key) /\ forall key, authorize t key = Ok tt <-> configured environment d key) /\
  forall r observed identity, authorize_proxy r observed = Ok identity <->
    proxies r !! proxy_origin observed = Some identity /\
    endpoint_id_hex identity = endpoint_id_hex observed /\ signing_key_b64 identity = signing_key_b64 observed.
Proof.
  intros Hr. split.
  - assert (forall keys, decided keys = Some t -> t = Allowlist keys /\ keys <> ∅) as Hdec.
    { intros keys. unfold decided. case_bool_decide; [done|]. by intros [= <-]. }
    assert (forall keys, decided keys = Some t -> (forall k, k ∈ keys <-> configured environment d k) ->
      (exists key, configured environment d key) /\ forall key, authorize t key = Ok tt <-> configured environment d key) as Hdone.
    { intros keys Hk Hkeys. destruct (Hdec keys Hk) as [-> Hne]. apply set_choose_L in Hne as [k Hin].
      split; [exists k; by apply Hkeys|]. intros key. rewrite <- Hkeys. cbn. by case_bool_decide. }
    unfold resolve, load_trust in Hr. destruct environment as [v|].
    + destruct (parse_keys (split "," v) ∅) as [ks|] eqn:Hk; [|done]. destruct any; [by destruct (decided ks) as [[]|]; simplify_eq|].
      apply (Hdone ks); [by destruct (decided ks) as [[]|]; simplify_eq|]. intros k. split.
      * intros Hin. destruct (parse_keys_elem _ _ _ _ Hk Hin) as [|[? ?]]; [set_solver|by split].
      * intros [Hv Hin]. by eapply parse_keys_all.
    + destruct (load_registry f d) as [d1 [r1|]] eqn:Hl; [|done]. apply load_ok in Hl as (Hrd & _ & _).
      destruct any; [by destruct (decided (agent_keys r1)) as [[]|]; simplify_eq|].
      apply (Hdone (agent_keys r1)); [by destruct (decided (agent_keys r1)) as [[]|]; simplify_eq|]. intros k. split.
      * intros Hin. split; [by apply (wf_agents _ (reads_wf _ _ Hrd))|by exists r1].
      * intros [_ (r2 & Hr2 & Hin)]. unfold reads in *. by replace r1 with r2 by congruence.
  - intros r observed identity. unfold authorize_proxy. destruct (proxies r !! _) as [p|]; [|naive_solver].
    destruct (_ && _) eqn:E.
    + bool_props. split; [by intros [= <-]|]. by intros ([= ->] & _).
    + split; [done|]. intros ([= ->] & He & Hs). rewrite !bool_decide_true in E by done. done.
Qed.
End Safety.

(** ** A trust store at work *)
Module Sample.

Definition letter (n : Z) : ascii := ascii_of_nat (Z.to_nat (97 + n)).
Definition value (c : ascii) : Z := code c - 97.
Definition encode (b : bytes) : string := of_chars (flat_map (fun x => [letter (byte_to_Z x / 16); letter (byte_to_Z x mod 16)]) b).
Fixpoint decode (l : list ascii) : bytes :=
  match l with a :: b :: l => byte_of_Z (16 * value a + value b) :: decode l | _ => [] end.

#[local] Instance prims : Primitives := {|
  base64_encode := encode; base64_decode := fun s => Some (decode (chars_of s));
  ed_public := ed_public (Primitives := Toy.prims); ed_sign := ed_sign (Primitives := Toy.prims);
  ed_key_valid := fun _ => true; ed_key_weak := fun _ => false; ed_verify_strict := ed_verify_strict (Primitives := Toy.prims);
  x_public := fun sk => sk; x_diffie_hellman := x_diffie_hellman (Primitives := Toy.prims); x_was_contributory := fun _ => true;
  derive_key := derive_key (Primitives := Toy.prims); aead_key_ok := fun _ => true;
  aead_encrypt := aead_encrypt (Primitives := Toy.prims); aead_decrypt := aead_decrypt (Primitives := Toy.prims) |}.

#[local] Instance alphabet : Base64Alphabet prims.
Proof.
  split; cbn [base64_encode prims]; unfold encode.
  - intros b. unfold all_char. rewrite chars_of_of_chars. induction b as [|x b IH]; [done|].
    cbn [flat_map app forallb]. rewrite IH. by destruct x.
  - by intros [|x b].
Qed.

Definition here : string := "https://proxy.example".
Definition url : Url := {|
  scheme := "https"; username := ""; password := None; host_str := Some "proxy.example"; port_or_known_default := Some 443;
  path := "/"; query := None; fragment := None; origin := here |}.
#[local] Instance urls : UrlParser :=
  {| url_parse s := if bool_decide (s = here) || bool_decide (s = "https://proxy.example:443/") then Ok url else Err "unknown" |}.
#[local] Instance urls_laws : UrlLaws urls.
Proof.
  split; intros i u; cbn [url_parse urls]; destruct (_ || _); try done; intros [= <-] _.
  - intros _. exists url. by split_and!.
  - split; [done|by vm_compute].
Qed.

#[local] Instance hex : Hex := {|
  hex_encode := hex_lower;
  hex_decode s := if all_char is_ascii_hexdigit s && Z.even (str_len s) then Some (replicate (Z.to_nat (str_len s / 2)) Byte.x00) else None |}.
#[local] Instance hex_laws : HexDigits hex.
Proof.
  intros s b. cbn. destruct (_ && _) eqn:E; [|done]. intros [= <-]. apply andb_true_iff in E as [E1 E2]. split; [done|].
  unfold len. rewrite length_replicate. apply Zeven_bool_iff, Zeven_ex in E2 as [m Hm]. unfold str_len in *. rewrite Hm.
  rewrite Z.mul_comm, Z.div_mul by lia. lia.
Qed.

Definition key (n : Z) : string := encode (Crypto.Toy.sample_key n).
Definition identity (n : Z) : TrustedProxyIdentity :=
  {| proxy_origin := here; endpoint_id_hex := of_chars (replicate 64 "e"%char); signing_key_b64 := key n |}.
Definition registry : TrustRegistry := {| agent_keys := {[key 1; key 2]}; proxies := {[here := identity 5]} |}.
Definition text : string := to_canonical_string registry.
Definition stored : Inode := {| data := as_bytes text; mode := PRIVATE_MODE; synced := true |}.
Definition disk : Disk := {| entry := Some stored; durable_entry := Some stored; temp := None |}.

Lemma identity_sample : identity_ok (identity 6).
Proof. split; vm_compute; reflexivity. Qed.

Lemma trust_roundtrip_witness : parse text = Ok registry /\ wf registry.
Proof.
  assert (Hp : parse text = Ok registry) by (vm_compute; reflexivity).
  destruct (trust_roundtrip text registry (identity 6) true (put (identity 6) registry) (Some (identity 5)) Hp
    identity_sample) as (Hw & _ & Hb & _); [vm_compute; reflexivity|].
  split; [apply Hb; vm_compute; discriminate|exact Hw].
Defined.

(** The directory cannot be synchronised: an error is reported although the
    new identity is in the file. *)
Definition unsynced : Faults := {| fault c := match c with SyncParent => Some "lost" | _ => None end; written := 0 |}.

Lemma trust_update_atomic_witness :
  exists d', store_proxy_trust unsynced (identity 6) true disk = (d', Err (Persistence "sync trust directory" "lost")) /\
    reads d' (put (identity 6) registry).
Proof.
  eexists. split; [vm_compute; reflexivity|].
  assert (Hr : reads disk registry) by (vm_compute; reflexivity).
  edestruct (trust_update_atomic unsynced (identity 6) true disk) as [[Hold _]|[Hnew _]];
    [exact Hr|exact identity_sample|vm_compute; reflexivity| |exact Hnew].
  apply (f_equal (fun r => match r with Ok r => signing_key_b64 <$> proxies r !! here | Err _ => None end)) in Hold.
  vm_compute in Hold. discriminate.
Defined.

Lemma trust_crash_safe_witness :
  survives (perform (take 3 (persist_actions (as_bytes text))) quiet disk).1 (Some (as_bytes text)) /\
  Some (as_bytes text) = data <$> entry disk.
Proof.
  assert (Hs : survives (perform (take 3 (persist_actions (as_bytes text))) quiet disk).1 (Some (as_bytes text))).
  { exists (Some stored). split; [left; vm_compute; reflexivity|]. exists (as_bytes text). done. }
  split; [exact Hs|]. destruct (trust_crash_safe quiet registry disk 3 (Some (as_bytes text))) as [He|He];
    [split; vm_compute; reflexivity|exact Hs|exact He|vm_compute; reflexivity].
Defined.

Lemma trust_never_assumed_witness :
  resolve quiet None false disk = (disk, Ok (Allowlist (agent_keys registry))) /\
  configured None disk (key 1).
Proof.
  assert (Hr : resolve quiet None false disk = (disk, Ok (Allowlist (agent_keys registry)))) by (vm_compute; reflexivity).
  split; [exact Hr|].
  destruct (trust_never_assumed quiet None false disk disk _ Hr) as [[_ Hk] _]. apply Hk. vm_compute. reflexivity.
Defined.
End Sample.
End TrustSafety.
