(* ===== verification/AgentIds.v ===== *)
(** * Identifiers and checks shared by the agent's messages

    The helpers of shared/protocol/src/agent.rs: the validity window of an
    owner-signed message, fixed-size fields, and the derivation of deployment,
    workload and revision identifiers. *)

From S2P Require Import Prelude Net Crypto Signed Registration.

Module AgentIds.
Import Crypto Net.

Definition AGENT_PROTOCOL_VERSION : Z := 1.
Definition MAX_ENCRYPTED_CAPSULE_BYTES : Z := 16 * 1024 * 1024.
Definition MAX_WRAPPED_KEY_BYTES : Z := 4 * 1024.
Definition MAX_MANIFEST_BYTES : Z := 8 * 1024 * 1024.
Definition MAX_AGENT_MESSAGE_LIFETIME_SECS : Z := 300.
Definition MAX_AGENT_CLOCK_SKEW_SECS : Z := 60.
Definition MAX_LISTED_WORKLOADS : Z := 10000.

Definition validate_validity_window (issued_at_secs expires_at_secs now_secs : Z) (what : string)
    : Result unit :=
  ensure! issued_at_secs <=? saturating_add u64_max now_secs MAX_AGENT_CLOCK_SKEW_SECS
    else Err (what +:+ " was issued too far in the future") ;;
  ensure! issued_at_secs <? expires_at_secs else Err (what +:+ " expires before it was issued") ;;
  ensure! expires_at_secs - issued_at_secs <=? MAX_AGENT_MESSAGE_LIFETIME_SECS
    else Err (what +:+ " lifetime exceeds 300 seconds") ;;
  ensure! now_secs <=? saturating_add u64_max expires_at_secs MAX_AGENT_CLOCK_SKEW_SECS
    else Err (what +:+ " expired") ;;
  Ok tt.

(** [canonical]: postcard's error is converted as it is. *)
Definition canonical {A} `{Postcard A} (value : A) : Result bytes :=
  ok_or (to_allocvec value) "postcard serialization error".

Definition validate_hex_id (value field : string) : Result unit :=
  ensure! str_len value =? 64 else Err (field +:+ " must be a full 32-byte hex digest") ;;
  ensure! all_char is_ascii_hexdigit value else Err (field +:+ " must be hex") ;;
  Ok tt.

(** The length test of identifiers and nonces: not empty, at most [limit]. *)
Definition bounded (limit : Z) (s : string) : bool := negb (str_is_empty s) && (str_len s <=? limit).

Section Fields.
Context {P : Primitives}.

Definition decode_fixed (value : string) (expected : Z) (field : string) : Result bytes :=
  decoded ← b64_decode value;
  ensure! len decoded =? expected else Err (field +:+ " decodes to the wrong number of bytes") ;;
  Ok decoded.

End Fields.

(** ** Derived identifiers *)

Definition deployment_preimage (namespace_id : bytes) (workload_name : string) : bytes :=
  as_bytes "podmesh/deployment/v1" ++ [Byte.x00] ++ namespace_id ++ [Byte.x00] ++ as_bytes workload_name.

Definition workload_preimage (namespace_id : bytes) (workload_name : string) (replica_index : Z) : bytes :=
  as_bytes "podmesh/workload/v1" ++ [Byte.x00] ++ namespace_id ++ [Byte.x00] ++
  as_bytes workload_name ++ [Byte.x00] ++ u32_le_bytes replica_index.

Definition revision_preimage (canonical_manifest : bytes) : bytes :=
  as_bytes "podmesh/revision/v1" ++ [Byte.x00] ++ canonical_manifest.

Section Derivation.
Context {H : Blake3}.

Definition deployment_id (namespace_id : bytes) (workload_name : string) : string :=
  blake3_hex (deployment_preimage namespace_id workload_name).
Definition workload_id (namespace_id : bytes) (workload_name : string) (replica_index : Z) : string :=
  blake3_hex (workload_preimage namespace_id workload_name replica_index).
Definition revision_id (canonical_manifest : bytes) : string :=
  blake3_hex (revision_preimage canonical_manifest).

End Derivation.

(** ** The window *)

(** The window is open exactly when the message was issued at most a minute
    ahead of the reader's clock, lives at most five minutes, and expired at
    most a minute ago. *)
Lemma validity_window_iff issued expires now what :
  0 <= now <= u64_max -> 0 <= issued <= u64_max -> 0 <= expires <= u64_max ->
  validate_validity_window issued expires now what = Ok tt <->
  issued <= now + 60 /\ issued < expires <= issued + 300 /\ now <= expires + 60.
Proof.
  intros Hn Hi He. unfold validate_validity_window, saturating_add.
  unfold MAX_AGENT_CLOCK_SKEW_SECS, MAX_AGENT_MESSAGE_LIFETIME_SECS.
  destruct (Z.leb_spec issued (Z.min (now + 60) u64_max)); [|split; [done|lia]].
  destruct (Z.ltb_spec issued expires); [|split; [done|lia]].
  destruct (Z.leb_spec (expires - issued) 300); [|split; [done|lia]].
  destruct (Z.leb_spec now (Z.min (expires + 60) u64_max)); [|split; [done|lia]].
  split; [lia|done].
Qed.

(** ** Separation of the identifiers *)

(** Two byte strings with the same tail length and equal concatenation. *)
Lemma app_inj_tail_len {A} (a b c d : list A) :
  a ++ b = c ++ d -> length b = length d -> a = c /\ b = d.
Proof. intros Heq Hlen. by apply app_inj_2. Qed.

(** What is hashed for a workload determines the namespace, the name and the
    replica. *)
Lemma workload_preimage_inj ns1 ns2 name1 name2 i1 i2 :
  len ns1 = 32 -> len ns2 = 32 -> 0 <= i1 <= u32_max -> 0 <= i2 <= u32_max ->
  workload_preimage ns1 name1 i1 = workload_preimage ns2 name2 i2 ->
  ns1 = ns2 /\ name1 = name2 /\ i1 = i2.
Proof.
  unfold workload_preimage, u32_max. intros H1 H2 Hi1 Hi2 Heq.
  apply app_inv_head, app_inv_head in Heq.
  apply app_inj_1 in Heq as [-> Heq]; [|unfold len in *; lia]. apply app_inv_head in Heq.
  apply app_inj_tail_len in Heq as [Hname Hi]; [|done].
  injection Hi as Hi. split; [done|]. split; [by apply as_bytes_inj|].
  apply u32_le_bytes_inj; [lia|lia|]. unfold u32_le_bytes. congruence.
Qed.

(** Nothing hashed for a workload is ever hashed for a deployment or a
    revision. *)
Lemma preimages_disjoint ns1 ns2 name1 name2 i m :
  workload_preimage ns1 name1 i <> deployment_preimage ns2 name2 /\
  workload_preimage ns1 name1 i <> revision_preimage m /\
  deployment_preimage ns1 name1 <> revision_preimage m /\
  workload_preimage ns1 name1 i <> Registration.route_preimage ns2 name2 /\
  deployment_preimage ns1 name1 <> Registration.route_preimage ns2 name2 /\
  revision_preimage m <> Registration.route_preimage ns2 name2.
Proof.
  unfold workload_preimage, deployment_preimage, revision_preimage, Registration.route_preimage.
  repeat split; cbn; discriminate.
Qed.

End AgentIds.
