(* ===== verification/ServiceDiscovery.v ===== *)
(** * Service catalogs and replica records (shared/protocol/src/service_discovery.rs)

    What an owner publishes of a workload: the catalog of its services, signed
    by the owner, and the lease with which one replica announces that it serves
    them at its endpoint. *)

From S2P Require Import Prelude Net Crypto Signed EndpointRecord Registration Biscuit WorkloadIdentity AgentIds.
From Stdlib Require Import Ascii.

Module Discovery.
Import Crypto Net Biscuit.
Import EndpointRecord (EndpointRecord).
Import Workload (WorkloadIdentity).

Definition SERVICE_RECORD_VERSION : Z := 1.
Definition MAX_SERVICE_RECORD_BYTES : Z := 20 * 1024.
Definition MAX_CATALOG_SERVICES : Z := 32.
Definition MAX_SERVICE_PORTS : Z := 16.
Definition MAX_SERVICE_LEASE_SECS : Z := 120.

Record ServicePort := { port : Z; target_port : Z }.
Record ServiceDefinition := { service_name : string; ports : list ServicePort }.

#[export] Instance ServicePort_eq_dec : EqDecision ServicePort.
Proof. solve_decision. Defined.
#[export] Instance ServiceDefinition_eq_dec : EqDecision ServiceDefinition.
Proof. solve_decision. Defined.

Record ServiceCatalog := {
  catalog_version : Z;
  catalog_owner : string;
  catalog_workload_name : string;
  catalog_manifest_id : string;
  catalog_revision_id : string;
  services : list ServiceDefinition;
  catalog_signature : string
}.

Definition set_catalog_signature (s : string) (c : ServiceCatalog) : ServiceCatalog :=
  {| catalog_version := catalog_version c; catalog_owner := catalog_owner c;
     catalog_workload_name := catalog_workload_name c; catalog_manifest_id := catalog_manifest_id c;
     catalog_revision_id := catalog_revision_id c; services := services c; catalog_signature := s |}.

Definition validate_service_label (value : string) : Result unit :=
  ensure! negb (str_is_empty value) && (str_len value <=? 63) && negb (starts_with "-" value) &&
          negb (ends_with "-" value) &&
          all_char (fun b => is_ascii_lowercase b || is_ascii_digit b || bool_decide (b = "-"%char)) value
    else Err "invalid DNS service label" ;;
  Ok tt.

(** The loop over a service's ports, with the set of published ports. *)
Fixpoint port_loop (unique : list Z) (l : list ServicePort) : Result unit :=
  match l with
  | [] => Ok tt
  | p :: rest =>
      ensure! negb (port p =? 0) && negb (target_port p =? 0) && negb (bool_decide (port p ∈ unique))
        else Err "invalid or duplicate service port" ;;
      port_loop (port p :: unique) rest
  end.

(** The loop over the services, with the set of names. *)
Fixpoint service_loop (names : list string) (l : list ServiceDefinition) : Result unit :=
  match l with
  | [] => Ok tt
  | service :: rest =>
      _ ← validate_service_label (service_name service);
      ensure! negb (bool_decide (service_name service ∈ names)) else Err "duplicate service name" ;;
      ensure! negb (bool_decide (ports service = [])) && (len (ports service) <=? MAX_SERVICE_PORTS)
        else Err "invalid service port count" ;;
      _ ← port_loop [] (ports service);
      service_loop (service_name service :: names) rest
  end.

Definition endpoint_hex (record : EndpointRecord) : string :=
  hex_lower (EndpointRecord.endpoint_id record).

Section Catalog.
Context {P : Primitives} {H : Blake3} {C : Postcard ServiceCatalog}.

Definition catalog_canonical (c : ServiceCatalog) : Result bytes :=
  AgentIds.canonical (set_catalog_signature "" c).

Definition validate_catalog (c : ServiceCatalog) : Result unit :=
  ensure! catalog_version c =? SERVICE_RECORD_VERSION else Err "unsupported service catalog version" ;;
  ensure! AgentIds.bounded 253 (catalog_workload_name c) else Err "invalid catalog workload name" ;;
  owner ← b64_decode (catalog_owner c);
  ensure! (len owner =? 32) &&
          bool_decide (catalog_manifest_id c = Registration.route_id owner (catalog_workload_name c))
    else Err "invalid catalog routing identity" ;;
  ensure! (str_len (catalog_revision_id c) =? 64) &&
          all_char (fun b => is_ascii_digit b || in_range 97 102 (code b)) (catalog_revision_id c)
    else Err "invalid catalog revision" ;;
  ensure! negb (bool_decide (services c = [])) && (len (services c) <=? MAX_CATALOG_SERVICES)
    else Err "invalid catalog service count" ;;
  _ ← service_loop [] (services c);
  canonical ← catalog_canonical c;
  ensure! len canonical <=? 4096 else Err "service catalog exceeds limit" ;;
  Ok tt.

(** The arguments of [verify_domain] are evaluated in order. *)
Definition verify_catalog (c : ServiceCatalog) (owner : string) : Result unit :=
  _ ← validate_catalog c;
  ensure! bool_decide (catalog_owner c = owner) else Err "service catalog belongs to another tenant" ;;
  key ← b64_decode owner;
  canonical ← catalog_canonical c;
  sig ← b64_decode (catalog_signature c);
  verify_domain key Crypto.ServiceCatalog canonical sig.

Definition sign_catalog (c : ServiceCatalog) (private : bytes) : Result ServiceCatalog :=
  _ ← validate_catalog c;
  canonical ← catalog_canonical c;
  sig ← sign_domain private Crypto.ServiceCatalog canonical;
  let c := set_catalog_signature (b64_encode sig) c in
  _ ← verify_catalog c (catalog_owner c);
  Ok c.

End Catalog.

(** ** Replica records *)
Record ReplicaServiceRecord := {
  record_version : Z;
  catalog : ServiceCatalog;
  credential : WorkloadIdentity;
  endpoint : EndpointRecord;
  record_replica_index : Z;
  sequence : Z;
  record_issued_at_secs : Z;
  record_expires_at_secs : Z;
  record_signature : string
}.

Definition set_record_signature (s : string) (r : ReplicaServiceRecord) : ReplicaServiceRecord :=
  {| record_version := record_version r; catalog := catalog r; credential := credential r;
     endpoint := endpoint r; record_replica_index := record_replica_index r; sequence := sequence r;
     record_issued_at_secs := record_issued_at_secs r; record_expires_at_secs := record_expires_at_secs r;
     record_signature := s |}.

Definition socket_port (a : SocketAddr) : Z := match a with V4 _ p => p | V6 _ _ p => p end.

(** The loop over the direct addresses of the endpoint. *)
Fixpoint hint_loop (addresses : list string) : Result unit :=
  match addresses with
  | [] => Ok tt
  | address :: rest =>
      parsed ← ok_or (parse_socket_addr address) "invalid socket address syntax";
      ensure! negb (socket_port parsed =? 53) else Err "Iroh DNS-port hints are not supported" ;;
      hint_loop rest
  end.

Section Replica.
Context {P : Primitives} {B : BiscuitAuth} {H : Blake3}.
Context {CR : Postcard EndpointRecord} {CC : Postcard ServiceCatalog} {CS : Postcard ReplicaServiceRecord}.
Context {JD : Json Workload.EnrollmentDelegation} {JI : Json WorkloadIdentity} {JS : Json ReplicaServiceRecord}.

Definition record_canonical (r : ReplicaServiceRecord) : Result bytes :=
  AgentIds.canonical (set_record_signature "" r).

Definition verify_record_structure (r : ReplicaServiceRecord) (owner : string) : Result unit :=
  ensure! record_version r =? SERVICE_RECORD_VERSION else Err "unsupported replica record version" ;;
  _ ← verify_catalog (catalog r) owner;
  _ ← EndpointRecord.verify_structure (endpoint r);
  _ ← hint_loop (EndpointRecord.direct_addresses (endpoint r));
  _ ← Workload.verify_identity (credential r) None;
  let scope := Workload.scope (Workload.delegation (credential r)) in
  let claims := Workload.claims (credential r) in
  ensure! bool_decide (Workload.tenant_owner scope = owner) &&
          bool_decide (Workload.scope_manifest_id scope = catalog_manifest_id (catalog r)) &&
          bool_decide (Workload.claim_endpoint_id claims = endpoint_hex (endpoint r)) &&
          bool_decide (Workload.signing_public_key_b64 claims = EndpointRecord.signing_pubkey (endpoint r))
    else Err "replica key binding mismatch" ;;
  owner_key ← (if bool_decide (Workload.revision_id scope = catalog_revision_id (catalog r))
               then b64_decode owner else Ok []);
  ensure! bool_decide (Workload.revision_id scope = catalog_revision_id (catalog r)) &&
          bool_decide (Workload.workload_id scope =
            AgentIds.workload_id owner_key (catalog_workload_name (catalog r)) (record_replica_index r))
    else Err "replica record exceeds credential scope" ;;
  ensure! (record_replica_index r <? Registration.MAX_WORKLOAD_REPLICAS) && (0 <? sequence r)
    else Err "invalid replica index or sequence" ;;
  ensure! (record_issued_at_secs r <? record_expires_at_secs r) &&
          (record_expires_at_secs r - record_issued_at_secs r <=? MAX_SERVICE_LEASE_SECS)
    else Err "replica lease expired or invalid" ;;
  ensure! (record_expires_at_secs r <=? Workload.claims_expires_at_secs claims) &&
          (record_expires_at_secs r <=? EndpointRecord.expires_at_secs (endpoint r))
    else Err "replica lease outlives identity/address authority" ;;
  key ← b64_decode (EndpointRecord.signing_pubkey (endpoint r));
  canonical ← record_canonical r;
  sig ← b64_decode (record_signature r);
  verify_domain key Crypto.ReplicaServiceRecord canonical sig.

Definition verify_record (r : ReplicaServiceRecord) (owner : string) (now : Z) : Result unit :=
  _ ← verify_record_structure r owner;
  _ ← EndpointRecord.verify (endpoint r) now;
  key ← b64_decode (EndpointRecord.signing_pubkey (endpoint r));
  _ ← Workload.verify_session (credential r) owner (catalog_manifest_id (catalog r))
        (endpoint_hex (endpoint r)) key now;
  ensure! (record_issued_at_secs r <=? saturating_add u64_max now 60) && (now <? record_expires_at_secs r)
    else Err "replica lease expired or invalid" ;;
  Ok tt.

Definition record_to_bytes (r : ReplicaServiceRecord) : Result bytes :=
  b ← ok_or (to_json r) "serialize replica service record";
  ensure! len b <=? MAX_SERVICE_RECORD_BYTES else Err "replica record exceeds limit" ;;
  Ok b.

Definition record_from_bytes (b : bytes) : Result ReplicaServiceRecord :=
  ensure! negb (bool_decide (b = [])) && (len b <=? MAX_SERVICE_RECORD_BYTES)
    else Err "invalid replica record size" ;;
  ok_or (from_json b) "decode replica service record".

Definition sign_record (r : ReplicaServiceRecord) (private : bytes) (now : Z) : Result ReplicaServiceRecord :=
  canonical ← record_canonical r;
  sig ← sign_domain private Crypto.ReplicaServiceRecord canonical;
  let r := set_record_signature (b64_encode sig) r in
  _ ← verify_record r (catalog_owner (catalog r)) now;
  _ ← record_to_bytes r;
  Ok r.

(** ** What acceptance implies *)

(** A replica record that verifies stands for one replica of one workload of
    the owner: its catalog is the owner's, its lease is open and at most two
    minutes long, inside both the identity's and the address record's lifetime,
    and the identity binds the very endpoint and application key it names, for
    the catalog's revision and this replica. *)
Record replica_ok (r : ReplicaServiceRecord) (owner : string) (now : Z) : Prop := {
  replica_catalog : verify_catalog (catalog r) owner = Ok tt;
  replica_session : exists key, b64_decode (EndpointRecord.signing_pubkey (endpoint r)) = Ok key /\
    Workload.verify_session (credential r) owner (catalog_manifest_id (catalog r))
      (endpoint_hex (endpoint r)) key now = Ok tt;
  replica_scope : exists owner_key, b64_decode owner = Ok owner_key /\
    Workload.workload_id (Workload.scope (Workload.delegation (credential r))) =
      AgentIds.workload_id owner_key (catalog_workload_name (catalog r)) (record_replica_index r) /\
    Workload.revision_id (Workload.scope (Workload.delegation (credential r))) =
      catalog_revision_id (catalog r);
  replica_lease : now < record_expires_at_secs r <= record_issued_at_secs r + MAX_SERVICE_LEASE_SECS;
  replica_issued : record_issued_at_secs r <= now + 60;
  replica_inside : record_expires_at_secs r <= Workload.claims_expires_at_secs (Workload.claims (credential r)) /\
    record_expires_at_secs r <= EndpointRecord.expires_at_secs (endpoint r);
  replica_index_ok : record_replica_index r < Registration.MAX_WORKLOAD_REPLICAS
}.

Lemma accepted_replica r owner now : verify_record r owner now = Ok tt -> replica_ok r owner now.
Proof.
  unfold verify_record, verify_record_structure. cbn zeta. intros Hv. Signed.result_inv Hv. Signed.result_inv Hx.
  repeat match goal with x : unit |- _ => destruct x end. bool_props. unfold saturating_add in *. rewrite bool_decide_true in * by done.
  split; eauto; try lia.
Qed.

End Replica.
End Discovery.
