(* ===== verification/ServiceCache.v ===== *)
(** * The sidecar's service cache (podmesh-sidecar/src/service_cache.rs,
      service_cache/state.rs)

    The services an owner's workloads offer each other: the catalogs the owner
    authorised, the leases of the replicas that serve them, the virtual address
    of each service, and the names that resolve to it. *)

From S2P Require Import Prelude Net Crypto Signed RustOrd EndpointRecord Registration Biscuit WorkloadIdentity AgentIds ServiceDiscovery.
From Stdlib Require Import Ascii.

(** [data_encoding::BASE32_NOPAD]. *)
Class Base32 := { base32_nopad : bytes -> string }.
Class Base32Laws (B : Base32) : Prop := {
  base32_inj a b : base32_nopad a = base32_nopad b -> a = b;
  (** the alphabet of RFC 4648 *)
  base32_alphabet b : Net.all_char (fun c => Net.is_ascii_uppercase c || in_range 50 55 (Net.code c)) (base32_nopad b) = true
}.

Module Cache.
Import Crypto Net RustOrd Biscuit Discovery.
Import EndpointRecord (EndpointRecord).
Import Workload (WorkloadIdentity).

Definition INTERNAL_SUFFIX : string := "svc.podmesh.internal.".
Definition MAX_CACHED_REPLICAS : Z := 512.
Definition MAX_CACHED_SERVICES : Z := 128.
Definition MAX_STATE_BYTES : Z := 512 * 1024.

Record ServiceKey := { key_manifest_id : string; key_name : string }.

#[export] Instance ServiceKey_eq_dec : EqDecision ServiceKey.
Proof. solve_decision. Defined.
#[export] Instance ServiceKey_countable : Countable ServiceKey.
Proof.
  apply (inj_countable' (fun k => (key_manifest_id k, key_name k))
    (fun p => {| key_manifest_id := p.1; key_name := p.2 |})). by intros [].
Defined.
#[local] Existing Instances Discovery.ServiceDefinition_eq_dec Workload.identity_eq_dec Workload.delegation_eq_dec.
#[export] Instance ServiceCatalog_eq_dec : EqDecision ServiceCatalog.
Proof. solve_decision. Defined.
#[export] Instance EndpointRecord_eq_dec : EqDecision EndpointRecord.
Proof. solve_decision. Defined.
#[export] Instance ReplicaServiceRecord_eq_dec : EqDecision ReplicaServiceRecord.
Proof. solve_decision. Defined.

(** The order of [ServiceKey] and of the slots in a [BTreeMap]. *)
Definition key_compare (a b : ServiceKey) : comparison :=
  then_with (str_compare (key_manifest_id a) (key_manifest_id b)) (str_compare (key_name a) (key_name b)).
Definition slot_compare (a b : string * Z) : comparison := then_with (str_compare a.1 b.1) (Z.compare a.2 b.2).

(** ** Names *)

(** [u8::from_str_radix] on each pair of digits. *)
Fixpoint hex_pairs (l : list ascii) : bytes :=
  match l with
  | a :: b :: rest =>
      byte_of_Z (16 * default 0 (to_digit 16 a) + default 0 (to_digit 16 b)) :: hex_pairs rest
  | _ => []
  end.

Section Names.
Context {B32 : Base32}.

Definition route_label (route : string) : Result string :=
  ensure! (str_len route =? 64) && all_char (fun b => is_ascii_digit b || in_range 97 102 (code b)) route
    else Err "invalid route digest" ;;
  Ok (to_ascii_lowercase (base32_nopad (hex_pairs (chars_of route)))).

Definition fqdn (key : ServiceKey) : Result string :=
  _ ← validate_service_label (key_name key);
  label ← route_label (key_manifest_id key);
  Ok (key_name key +:+ "." +:+ label +:+ "." +:+ INTERNAL_SUFFIX).
End Names.

(** [name.trim_end_matches('.').to_ascii_lowercase()] *)
Definition plain_name (name : string) : string := to_ascii_lowercase (trim_end_matches "."%char name).

Definition is_internal_name (name : string) : bool :=
  let name := plain_name name in
  let suffix := trim_end_matches "."%char INTERNAL_SUFFIX in
  bool_decide (name = suffix) || ends_with ("." +:+ suffix) name.

(** ** State *)

(** An [Ipv4Addr] is the number [u32::from] gives. *)
Definition octets (address : Z) : Z * Z * Z * Z :=
  (address / 2 ^ 24, address / 2 ^ 16 mod 256, address / 2 ^ 8 mod 256, address mod 256).
Definition last_octet (address : Z) : Z := address mod 256.
Definition from_octets (a b c d : Z) : Z := a * 2 ^ 24 + b * 2 ^ 16 + c * 2 ^ 8 + d.

Record ServiceAnswer := { answer_key : ServiceKey; answer_address : Z; ttl : Z }.

Record ServiceCache := {
  owner : string;
  catalogs : gmap string ServiceCatalog;
  records : gmap (string * Z) ReplicaServiceRecord;
  addresses : gmap ServiceKey Z;
  names : gmap string ServiceKey;
  next_address : Z;
  address_base : Z;
  cursors : gmap ServiceKey Z
}.

Definition set_catalogs (x : gmap string ServiceCatalog) (c : ServiceCache) : ServiceCache :=
  {| owner := owner c; catalogs := x; records := records c; addresses := addresses c; names := names c;
     next_address := next_address c; address_base := address_base c; cursors := cursors c |}.
Definition set_records (x : gmap (string * Z) ReplicaServiceRecord) (c : ServiceCache) : ServiceCache :=
  {| owner := owner c; catalogs := catalogs c; records := x; addresses := addresses c; names := names c;
     next_address := next_address c; address_base := address_base c; cursors := cursors c |}.
Definition set_addresses (x : gmap ServiceKey Z) (c : ServiceCache) : ServiceCache :=
  {| owner := owner c; catalogs := catalogs c; records := records c; addresses := x; names := names c;
     next_address := next_address c; address_base := address_base c; cursors := cursors c |}.
Definition set_names (x : gmap string ServiceKey) (c : ServiceCache) : ServiceCache :=
  {| owner := owner c; catalogs := catalogs c; records := records c; addresses := addresses c; names := x;
     next_address := next_address c; address_base := address_base c; cursors := cursors c |}.
Definition set_next_address (x : Z) (c : ServiceCache) : ServiceCache :=
  {| owner := owner c; catalogs := catalogs c; records := records c; addresses := addresses c; names := names c;
     next_address := x; address_base := address_base c; cursors := cursors c |}.
Definition set_cursors (x : gmap ServiceKey Z) (c : ServiceCache) : ServiceCache :=
  {| owner := owner c; catalogs := catalogs c; records := records c; addresses := addresses c; names := names c;
     next_address := next_address c; address_base := address_base c; cursors := x |}.

Section Operations.
Context {P : Primitives} {B : BiscuitAuth} {H : Blake3} {B32 : Base32}.
Context {CR : Postcard EndpointRecord} {CC : Postcard ServiceCatalog} {CS : Postcard ReplicaServiceRecord}.
Context {JD : Json Workload.EnrollmentDelegation} {JI : Json WorkloadIdentity} {JS : Json ReplicaServiceRecord}.

Definition new (owner : string) : Result ServiceCache :=
  key ← b64_decode owner;
  ensure! len key =? 32 else Err "invalid cache owner" ;;
  Ok {| owner := owner; catalogs := ∅; records := ∅; addresses := ∅; names := ∅; next_address := 1;
        address_base := from_octets 198 18 0 0; cursors := ∅ |}.

(** ** Catalogs *)
Definition key_of (c : ServiceCatalog) (s : ServiceDefinition) : ServiceKey :=
  {| key_manifest_id := catalog_manifest_id c; key_name := service_name s |}.

Definition new_services (cache : ServiceCache) (c : ServiceCatalog) : Z :=
  len (filter (fun s => addresses cache !! key_of c s = None) (services c)).

(** The name and the address of each service, and the addresses taken. *)
Fixpoint additions (cache : ServiceCache) (c : ServiceCatalog) (l : list ServiceDefinition) (allocated : Z)
    : Result (list (ServiceKey * string * Z) * Z) :=
  match l with
  | [] => Ok ([], allocated)
  | s :: l =>
      let key := key_of c s in
      name ← fqdn key;
      let address := default (address_base cache + next_address cache + allocated) (addresses cache !! key) in
      let allocated := match addresses cache !! key with Some _ => allocated | None => allocated + 1 end in
      '(rest, allocated) ← additions cache c l allocated;
      Ok ((key, name, address) :: rest, allocated)
  end.

Definition insert_addition (cache : ServiceCache) (a : ServiceKey * string * Z) : ServiceCache :=
  let '(key, name, address) := a in
  set_addresses (<[key := address]> (addresses cache)) (set_names (<[name := key]> (names cache)) cache).

(** *** The names, from all catalogs *)
Abbreviation Aliases := (gmap string (option ServiceKey)).

(** [entry(..).and_modify(..).or_insert(..)]: a name two services claim is nobody's. *)
Definition add_alias (name : string) (key : ServiceKey) (aliases : Aliases) : Aliases :=
  <[name := match aliases !! name with
            | Some value => if bool_decide (value = Some key) then value else None
            | None => Some key
            end]> aliases.

Definition workload_alias (c : ServiceCatalog) : Result string :=
  label ← route_label (catalog_manifest_id c); Ok (label +:+ "." +:+ INTERNAL_SUFFIX).

Fixpoint name_services (c : ServiceCatalog) (l : list ServiceDefinition) (names : gmap string ServiceKey) (aliases : Aliases)
    : gmap string ServiceKey * Result Aliases :=
  match l with
  | [] => (names, Ok aliases)
  | s :: l =>
      let key := key_of c s in
      try! name := fqdn key in names ;;
      let names := <[name := key]> names in
      let aliases := add_alias (service_name s +:+ ".") key aliases in
      let aliases := add_alias (service_name s +:+ "." +:+ INTERNAL_SUFFIX) key aliases in
      if len (services c) =? 1 then
        try! alias := workload_alias c in names ;;
        let names := <[alias := key]> names in
        let aliases := if is_ok (validate_service_label (catalog_workload_name c))
                       then add_alias (catalog_workload_name c +:+ ".") key aliases else aliases in
        name_services c l names aliases
      else name_services c l names aliases
  end.

Fixpoint name_catalogs (l : list ServiceCatalog) (names : gmap string ServiceKey) (aliases : Aliases)
    : gmap string ServiceKey * Result Aliases :=
  match l with
  | [] => (names, Ok aliases)
  | c :: l =>
      let (names, r) := name_services c (services c) names aliases in
      try! aliases := r in names ;;
      name_catalogs l names aliases
  end.

Definition add_aliases (aliases : Aliases) (names : gmap string ServiceKey) : gmap string ServiceKey :=
  map_fold (fun name key names => match key with Some key => <[name := key]> names | None => names end) names aliases.

(** The catalogs come in the order of the hash map; see [names_any_order]. *)
Definition rebuild_names (cache : ServiceCache) : ServiceCache * Result unit :=
  let (names, r) := name_catalogs (map_to_list (catalogs cache)).*2 ∅ ∅ in
  let cache := set_names names cache in
  try! aliases := r in cache ;;
  (set_names (add_aliases aliases names) cache, Ok tt).

Definition authorize_catalog (c : ServiceCatalog) (cache : ServiceCache) : ServiceCache * Result unit :=
  try! _verified := verify_catalog c (owner cache) in cache ;;
  match catalogs cache !! catalog_manifest_id c with
  | Some old =>
      ensure! bool_decide (old = c) else (cache, Err "catalog revision/conflict requires explicit replacement") ;;
      (cache, Ok tt)
  | None =>
      ensure! map_len (addresses cache) + new_services cache c <=? MAX_CACHED_SERVICES
        else (cache, Err "service cache capacity reached") ;;
      try! added := additions cache c (services c) 0 in cache ;;
      let cache := set_next_address (next_address cache + added.2) cache in
      let cache := fold_left insert_addition added.1 cache in
      let register cache := rebuild_names (set_catalogs (<[catalog_manifest_id c := c]> (catalogs cache)) cache) in
      match services c with
      | [only] =>
          try! alias := workload_alias c in cache ;;
          register (set_names (<[alias := key_of c only]> (names cache)) cache)
      | _ => register cache
      end
  end.

(** ** Replica records *)
Definition slot_of (r : ReplicaServiceRecord) : string * Z := (catalog_manifest_id (catalog r), record_replica_index r).

(** What the record of a slot allows to follow it. *)
Definition check_successor (old r : ReplicaServiceRecord) (ignore_older : bool) : Result bool :=
  ensure! bool_decide (Workload.delegation (credential old) = Workload.delegation (credential r)) &&
          bool_decide (EndpointRecord.endpoint_id (endpoint old) = EndpointRecord.endpoint_id (endpoint r)) &&
          bool_decide (EndpointRecord.signing_pubkey (endpoint old) = EndpointRecord.signing_pubkey (endpoint r))
    else Err "replica generation/key change requires explicit replacement" ;;
  if sequence r <? sequence old then
    ensure! ignore_older else Err "replica sequence regressed" ;; Ok false
  else if sequence r =? sequence old then
    ensure! bool_decide (old = r) else Err "replica sequence equivocation" ;; Ok false
  else
    ensure! record_issued_at_secs old <=? record_issued_at_secs r else Err "replica issue time regressed" ;;
    Ok true.

Definition admit_inner (r : ReplicaServiceRecord) (now : Z) (ignore_older : bool) (cache : ServiceCache)
    : ServiceCache * Result bool :=
  try! _bytes := record_to_bytes r in cache ;;
  try! _verified := verify_record r (owner cache) now in cache ;;
  ensure! bool_decide (catalogs cache !! catalog_manifest_id (catalog r) = Some (catalog r))
    else (cache, Err "replica catalog is not authorized locally") ;;
  try! fresh := (match records cache !! slot_of r with
                 | Some old => check_successor old r ignore_older
                 | None => if map_len (records cache) <? MAX_CACHED_REPLICAS then Ok true
                           else Err "replica cache capacity reached"
                 end) in cache ;;
  if fresh : bool then (set_records (<[slot_of r := r]> (records cache)) cache, Ok true) else (cache, Ok false).

Definition admit_record (r : ReplicaServiceRecord) (now : Z) : ServiceCache -> ServiceCache * Result bool := admit_inner r now false.
Definition merge (r : ReplicaServiceRecord) (now : Z) : ServiceCache -> ServiceCache * Result bool := admit_inner r now true.

(** ** Resolution *)
Definition btree_records (cache : ServiceCache) : list ((string * Z) * ReplicaServiceRecord) :=
  sort_unstable (fun a b => slot_compare a.1 b.1) (map_to_list (records cache)).
Definition btree_addresses (cache : ServiceCache) : list (ServiceKey * Z) :=
  sort_unstable (fun a b => key_compare a.1 b.1) (map_to_list (addresses cache)).

Definition is_eligible (key : ServiceKey) (now : Z) (r : ReplicaServiceRecord) : bool :=
  bool_decide (catalog_manifest_id (catalog r) = key_manifest_id key) && (now <? record_expires_at_secs r) &&
  (now <=? EndpointRecord.expires_at_secs (endpoint r)) && is_ok (Workload.verify_identity (credential r) (Some now)).

Definition eligible (cache : ServiceCache) (key : ServiceKey) (now : Z) : list ReplicaServiceRecord :=
  list_retain (is_eligible key now) (btree_records cache).*2.

(** [format!("{}.", name.trim_end_matches('.').to_ascii_lowercase())] *)
Definition absolute_name (name : string) : string := plain_name name +:+ ".".

Definition lookup (cache : ServiceCache) (name : string) (now : Z) : option ServiceAnswer :=
  key ← names cache !! absolute_name name;
  expires ← min_by Z.compare (record_expires_at_secs <$> eligible cache key now);
  address ← addresses cache !! key;
  Some {| answer_key := key; answer_address := address; ttl := Z.min (saturating_sub expires now) 5 |}.

Definition known_name (cache : ServiceCache) (name : string) : bool := contains_key (absolute_name name) (names cache).

Definition classifies_internal (cache : ServiceCache) (name : string) : bool :=
  is_internal_name name || known_name cache name ||
  existsb (fun c =>
    let label := plain_name name in
    negb (any_char (fun b => bool_decide (b = "."%char)) label) &&
    (bool_decide (catalog_workload_name c = label) ||
     existsb (fun s => bool_decide (service_name s = label)) (services c)))
    (map_to_list (catalogs cache)).*2.

Definition service_for_address (cache : ServiceCache) (address : Z) : option ServiceKey :=
  fst <$> List.find (fun kv => kv.2 =? address) (btree_addresses cache).

Definition target_port (cache : ServiceCache) (key : ServiceKey) (port : Z) : option Z :=
  c ← catalogs cache !! key_manifest_id key;
  s ← List.find (fun s => bool_decide (service_name s = key_name key)) (services c);
  Discovery.target_port <$> List.find (fun m => Discovery.port m =? port) (ports s).

Definition candidates (key : ServiceKey) (now : Z) (exclude : option bytes) (cache : ServiceCache)
    : ServiceCache * list ReplicaServiceRecord :=
  let l := list_retain (fun r => negb (bool_decide (exclude = Some (EndpointRecord.endpoint_id (endpoint r)))))
             (eligible cache key now) in
  if bool_decide (l = []) then (cache, l) else
  let cursor := default 0 (cursors cache !! key) in
  let index := Z.to_nat (cursor mod len l) in
  (set_cursors (<[key := (cursor + 1) mod 2 ^ 64]> (cursors cache)) cache, drop index l ++ take index l).

Definition snapshot (cache : ServiceCache) (now : Z) : list ReplicaServiceRecord :=
  list_retain (fun r => (now <? record_expires_at_secs r) && is_ok (Workload.verify_identity (credential r) (Some now)))
    (btree_records cache).*2.

(** ** Replacement by the owner (service_cache/state.rs) *)
Definition forget_catalog (manifest_id : string) (cache : ServiceCache) : ServiceCache :=
  set_catalogs (delete manifest_id (catalogs cache))
    (set_names (map_retain (fun _ key => negb (bool_decide (key_manifest_id key = manifest_id))) (names cache))
       (set_records (map_retain (fun slot _ => negb (bool_decide (slot.1 = manifest_id))) (records cache)) cache)).

Definition replace_catalog (c : ServiceCatalog) (cache : ServiceCache) : ServiceCache * Result unit :=
  try! _verified := verify_catalog c (owner cache) in cache ;;
  ensure! map_len (addresses cache) + new_services cache c <=? MAX_CACHED_SERVICES
    else (cache, Err "service cache capacity reached") ;;
  let differs := match catalogs cache !! catalog_manifest_id c with Some old => negb (bool_decide (old = c)) | None => false end in
  authorize_catalog c (if differs then forget_catalog (catalog_manifest_id c) cache else cache).

Definition seed (r : ReplicaServiceRecord) (now : Z) (cache : ServiceCache) : ServiceCache * Result unit :=
  try! _verified := verify_record r (owner cache) now in cache ;;
  let (cache, replaced) := replace_catalog (catalog r) cache in
  try! _catalog := replaced in cache ;;
  let differs := match records cache !! slot_of r with
                 | Some old => negb (bool_decide (Workload.delegation (credential old) = Workload.delegation (credential r))) ||
                               negb (bool_decide (EndpointRecord.endpoint_id (endpoint old) = EndpointRecord.endpoint_id (endpoint r)))
                 | None => false
                 end in
  let cache := if differs then set_records (delete (slot_of r) (records cache)) cache else cache in
  let (cache, admitted) := admit_record r now cache in
  try! _fresh := admitted in cache ;;
  (cache, Ok tt).
End Operations.

(** ** The persisted state *)
Record Snapshot := {
  snapshot_owner : string;
  snapshot_catalogs : list ServiceCatalog;
  snapshot_addresses : list (ServiceKey * Z);
  snapshot_next : Z
}.

Section Persistence.
Context {P : Primitives} {H : Blake3} {B32 : Base32}.
Context {CC : Postcard ServiceCatalog} {JP : Json Snapshot}.

Definition snapshot_of (cache : ServiceCache) : Snapshot :=
  {| snapshot_owner := owner cache; snapshot_catalogs := (map_to_list (catalogs cache)).*2;
     snapshot_addresses := btree_addresses cache; snapshot_next := next_address cache |}.

(** The bytes given to [atomic_state]. *)
Definition save (cache : ServiceCache) : Result bytes :=
  b ← ok_or (to_json (snapshot_of cache)) "serialize DNS state";
  ensure! len b <=? MAX_STATE_BYTES else Err "DNS state exceeds limit" ;;
  Ok b.

(** The loop over the persisted addresses, with the set of used ones. *)
Fixpoint restore_addresses (l : list (ServiceKey * Z)) (used : gset Z) (cache : ServiceCache)
    : Result (gset Z * ServiceCache) :=
  match l with
  | [] => Ok (used, cache)
  | (key, address) :: l =>
      ensure! bool_decide ((octets address).1 = (198, 18, 0)) && (0 <? last_octet address) &&
              (last_octet address <=? MAX_CACHED_SERVICES mod 256) && negb (bool_decide (address ∈ used))
        else Err "invalid persisted VIP" ;;
      ensure! negb (contains_key key (addresses cache)) else Err "duplicate persisted VIP key" ;;
      restore_addresses l ({[address]} ∪ used) (set_addresses (<[key := address]> (addresses cache)) cache)
  end.

Fixpoint restore_catalogs (l : list ServiceCatalog) (cache : ServiceCache) : Result ServiceCache :=
  match l with
  | [] => Ok cache
  | c :: l => let (cache, r) := authorize_catalog c cache in _ ← r; restore_catalogs l cache
  end.

(** [stored] is the content of the file, if there is one. *)
Definition restore (owner : string) (stored : option bytes) : Result ServiceCache :=
  match stored with
  | None => new owner
  | Some content =>
      let b := take (Z.to_nat (MAX_STATE_BYTES + 1)) content in
      ensure! len b <=? MAX_STATE_BYTES else Err "DNS state exceeds limit" ;;
      s ← ok_or (from_json b) "invalid DNS state";
      ensure! bool_decide (snapshot_owner s = owner) && (len (snapshot_addresses s) <=? MAX_CACHED_SERVICES) &&
              (len (snapshot_catalogs s) <=? MAX_CACHED_SERVICES)
        else Err "DNS state scope/count mismatch" ;;
      cache ← new owner;
      '(used, cache) ← restore_addresses (snapshot_addresses s) ∅ cache;
      let cache := set_next_address (snapshot_next s) cache in
      ensure! (foldr Z.max 0 (last_octet <$> elements used) <? next_address cache) &&
              (next_address cache <=? MAX_CACHED_SERVICES + 1)
        else Err "invalid persisted allocator" ;;
      restore_catalogs (snapshot_catalogs s) cache
  end.
End Persistence.
End Cache.
