(* ===== verification/ServiceNames.v ===== *)
(** * The names of the services (podmesh-sidecar/src/service_cache.rs, rebuild_names)

    Which name resolves to which service, as a relation on the catalogs alone:
    canonical names are injective, a short name two services claim is nobody's,
    and the order in which the hash map yields the catalogs does not matter. *)

From S2P Require Import Prelude Net Text Crypto Signed RustOrd EndpointRecord Registration Biscuit WorkloadIdentity AgentIds ServiceDiscovery ServiceCache.
From Stdlib Require Import Ascii.

(** [blake3::Hash::to_hex]: 64 lower case digits. *)
Class Blake3Hex (H : Blake3) : Prop := {
  blake3_hex_len b : str_len (blake3_hex b) = 64;
  blake3_hex_digits b :
    Net.all_char (fun c => Net.is_ascii_digit c || in_range 97 102 (Net.code c)) (blake3_hex b) = true
}.

Module ServiceNames.
Import Crypto Net Text RustOrd Biscuit Discovery Cache.

(** ** Text *)
Definition undotted (s : string) : Prop := Forall (fun c => c <> "."%char) (chars_of s).

Lemma undotted_split (a b x y : list ascii) :
  Forall (fun c => c <> "."%char) a -> Forall (fun c => c <> "."%char) b ->
  a ++ "."%char :: x = b ++ "."%char :: y -> a = b /\ x = y.
Proof.
  revert b. induction a as [|c a IH]; intros [|d b] Ha Hb; cbn; intros Heq; simplify_eq/=; [done|..].
  - by inversion Hb.
  - by inversion Ha.
  - inversion Ha; inversion Hb; subst. destruct (IH b) as [-> ->]; done.
Qed.

(** A dotted name determines its first label and the rest. *)
Lemma first_label a b x y : undotted a -> undotted b -> a +:+ "." +:+ x = b +:+ "." +:+ y -> a = b /\ x = y.
Proof.
  intros Ha Hb H. apply (f_equal chars_of) in H. rewrite !chars_of_app in H. cbn in H.
  apply undotted_split in H as [H1 H2]; [|done..]. split; by apply chars_of_inj.
Qed.

Lemma label_undotted s : is_ok (validate_service_label s) = true -> undotted s.
Proof.
  unfold validate_service_label. destruct (_ && _) eqn:E; [intros _|done]. bool_props.
  unfold all_char in *. apply Forall_forall. intros c Hc ->.
  match goal with H : forallb _ _ = true |- _ => rewrite forallb_forall in H; specialize (H "."%char) end.
  by rewrite list_elem_of_In in Hc; specialize (H0 Hc).
Qed.

(** ** Route labels *)
Definition base32_char (c : ascii) : bool := is_ascii_uppercase c || in_range 50 55 (code c).
Definition hex_char (c : ascii) : bool := is_ascii_digit c || in_range 97 102 (code c).

(** [to_ascii_lower] has this inverse on the alphabet of base 32. *)
Definition upper (c : ascii) : ascii := if is_ascii_lowercase c then ascii_of_N (Z.to_N (code c - 32)) else c.

Lemma upper_lower c : base32_char c = true -> upper (to_ascii_lower c) = c /\ to_ascii_lower c <> "."%char.
Proof.
  intros Hc.
  pose proof (forall_ascii (fun c => negb (base32_char c) ||
    (bool_decide (upper (to_ascii_lower c) = c) && negb (bool_decide (to_ascii_lower c = "."%char)))) ltac:(vm_compute; done) c) as H.
  cbn beta in H. rewrite Hc in H. cbn in H. by bool_props.
Qed.

Lemma lowercase_inj a b : all_char base32_char a = true -> all_char base32_char b = true ->
  to_ascii_lowercase a = to_ascii_lowercase b -> a = b.
Proof.
  unfold all_char, to_ascii_lowercase. intros Ha Hb Heq. apply (f_equal chars_of) in Heq.
  rewrite !chars_of_of_chars in Heq. apply chars_of_inj.
  revert Ha Hb Heq. generalize (chars_of a) (chars_of b). clear.
  induction l as [|x l IH]; intros [|y k]; cbn; try done. intros Ha Hb [= Hxy Hlk]. bool_props.
  f_equal; [|by apply IH]. rewrite <- (proj1 (upper_lower x ltac:(done))), Hxy. by apply upper_lower.
Qed.

Lemma lowercase_undotted a : all_char base32_char a = true -> undotted (to_ascii_lowercase a).
Proof.
  unfold all_char, undotted, to_ascii_lowercase. rewrite chars_of_of_chars. generalize (chars_of a). clear.
  induction l as [|x l IH]; cbn; intros Ha; bool_props; constructor; [by apply upper_lower|auto].
Qed.

Lemma hex_char_digit c : hex_char c = true -> exists d, to_digit 16 c = Some d /\ 0 <= d < 16 /\ hex_digit d = c.
Proof.
  intros Hc.
  pose proof (forall_ascii (fun c => negb (hex_char c) || match to_digit 16 c with
    | Some d => in_range 0 15 d && bool_decide (hex_digit d = c) | None => false end) ltac:(vm_compute; done) c) as H.
  cbn beta in H. rewrite Hc in H. cbn [negb orb] in H. destruct (to_digit 16 c) as [d|]; [|done].
  unfold in_range in H. bool_props. exists d. split_and!; [done|lia|lia|done].
Qed.

Lemma hex_pairs_cons a b l : hex_char a = true -> hex_char b = true ->
  exists v, hex_pairs (a :: b :: l) = byte_of_Z v :: hex_pairs l /\ 0 <= v < 256 /\
    a = hex_digit (v / 16) /\ b = hex_digit (v mod 16).
Proof.
  intros (x & Hx & ? & <-)%hex_char_digit (y & Hy & ? & <-)%hex_char_digit.
  exists (16 * x + y). cbn [hex_pairs]. rewrite Hx, Hy. cbn [default].
  replace ((16 * x + y) / 16) with x by (apply (Z.div_unique _ _ _ y); lia).
  replace ((16 * x + y) mod 16) with y by (apply (Z.mod_unique _ _ x); lia).
  split_and!; try done; lia.
Qed.

Lemma hex_pairs_inj n l k : length l = (2 * n)%nat -> length k = (2 * n)%nat ->
  forallb hex_char l = true -> forallb hex_char k = true -> hex_pairs l = hex_pairs k -> l = k.
Proof.
  revert l k. induction n as [|n IH]; intros l k Hl Hk.
  { destruct l, k; done. }
  destruct l as [|a [|b l]]; cbn in Hl; [lia..|]. destruct k as [|c [|d k]]; cbn in Hk; [lia..|].
  cbn [forallb]. intros H1 H2. bool_props.
  destruct (hex_pairs_cons a b l) as (v & -> & Hv & -> & ->); [done..|].
  destruct (hex_pairs_cons c d k) as (w & -> & Hw & -> & ->); [done..|].
  intros [= Hvw Hr]. apply (f_equal byte_to_Z) in Hvw. rewrite !byte_to_of_Z, !Z.mod_small in Hvw by lia.
  subst. f_equal. f_equal. apply IH; [lia|lia|done..].
Qed.

Section Labels.
Context {B32 : Base32} {L32 : Base32Laws B32}.

Lemma route_label_ok route l : route_label route = Ok l ->
  length (chars_of route) = 64%nat /\ forallb hex_char (chars_of route) = true /\
  l = to_ascii_lowercase (base32_nopad (hex_pairs (chars_of route))).
Proof.
  unfold route_label. destruct (_ && _) eqn:E; [|done]. intros [= <-]. bool_props. split_and!; [|done..].
  rewrite length_chars. unfold str_len in *. lia.
Qed.

Lemma route_label_undotted route l : route_label route = Ok l -> undotted l.
Proof. intros (_ & _ & ->)%route_label_ok. apply lowercase_undotted, base32_alphabet. Qed.

(** The label keeps the whole 256 bit route. *)
Lemma route_label_inj r1 r2 l : route_label r1 = Ok l -> route_label r2 = Ok l -> r1 = r2.
Proof.
  intros (L1 & X1 & ->)%route_label_ok (L2 & X2 & Heq)%route_label_ok.
  apply lowercase_inj in Heq; [|apply base32_alphabet..]. apply base32_inj in Heq.
  by apply chars_of_inj, (hex_pairs_inj 32).
Qed.

Lemma fqdn_ok key n : fqdn key = Ok n -> exists l, route_label (key_manifest_id key) = Ok l /\
  undotted (key_name key) /\ n = key_name key +:+ "." +:+ (l +:+ "." +:+ INTERNAL_SUFFIX).
Proof.
  unfold fqdn. intros Hf. Signed.result_steps Hf. injection Hf as <-. eexists. split_and!; eauto.
  apply label_undotted. destruct (validate_service_label _); done.
Qed.

Lemma fqdn_inj k1 k2 n : fqdn k1 = Ok n -> fqdn k2 = Ok n -> k1 = k2.
Proof.
  intros (l1 & H1 & U1 & ->)%fqdn_ok (l2 & H2 & U2 & Heq)%fqdn_ok.
  apply first_label in Heq as [Hn Hl]; [|done..].
  apply first_label in Hl as [-> _]; [|by eapply route_label_undotted..].
  pose proof (route_label_inj _ _ _ H1 H2). destruct k1, k2; cbn in *; congruence.
Qed.

(** No service's name is the name of a whole workload. *)
Lemma fqdn_not_alias key n route l :
  fqdn key = Ok n -> route_label route = Ok l -> n <> l +:+ "." +:+ INTERNAL_SUFFIX.
Proof.
  intros (l1 & H1 & U1 & ->)%fqdn_ok H2 Heq.
  apply first_label in Heq as [_ Heq]; [|done|by eapply route_label_undotted].
  change INTERNAL_SUFFIX with ("svc" +:+ "." +:+ "podmesh.internal.") in Heq at 2.
  apply first_label in Heq as [_ Heq]; [done|by eapply route_label_undotted|repeat constructor; done].
Qed.
End Labels.

(** ** What resolves *)
Section Resolution.
Context {B32 : Base32}.

(** The names that are a service's own. *)
Definition canonical (c : ServiceCatalog) (s : ServiceDefinition) : list (string * ServiceKey) :=
  match fqdn (key_of c s) with Ok n => [(n, key_of c s)] | Err _ => [] end ++
  if len (services c) =? 1 then match workload_alias c with Ok n => [(n, key_of c s)] | Err _ => [] end else [].

(** The short names it asks for. *)
Definition claims (c : ServiceCatalog) (s : ServiceDefinition) : list (string * ServiceKey) :=
  [(service_name s +:+ ".", key_of c s); (service_name s +:+ "." +:+ INTERNAL_SUFFIX, key_of c s)] ++
  if (len (services c) =? 1) && is_ok (validate_service_label (catalog_workload_name c))
  then [(catalog_workload_name c +:+ ".", key_of c s)] else [].

Definition of_catalogs (f : ServiceCatalog -> ServiceDefinition -> list (string * ServiceKey))
    (m : gmap string ServiceCatalog) (n : string) (k : ServiceKey) : Prop :=
  exists id c s, m !! id = Some c /\ s ∈ services c /\ (n, k) ∈ f c s.

(** One service alone asks for the name. *)
Definition sole (m : gmap string ServiceCatalog) (n : string) (k : ServiceKey) : Prop :=
  of_catalogs claims m n k /\ forall k', of_catalogs claims m n k' -> k' = k.

(** A name stands for the one service that claims it, or else for the service
    it is the canonical name of. *)
Definition resolves (m : gmap string ServiceCatalog) (n : string) (k : ServiceKey) : Prop :=
  sole m n k \/ (forall k', ~ sole m n k') /\ of_catalogs canonical m n k.

(** A catalog whose names can be formed. *)
Record nameable (c : ServiceCatalog) : Prop := {
  nameable_route : exists l, route_label (catalog_manifest_id c) = Ok l;
  nameable_services s : s ∈ services c -> is_ok (validate_service_label (service_name s)) = true
}.

Lemma nameable_fqdn c s : nameable c -> s ∈ services c -> exists n, fqdn (key_of c s) = Ok n.
Proof.
  intros [[l Hl] Hs] Hin. specialize (Hs _ Hin). unfold fqdn, key_of. cbn.
  destruct (validate_service_label (service_name s)) as [[]|]; [|done]. cbn. rewrite Hl. cbn. eauto.
Qed.

Lemma nameable_alias c : nameable c -> exists n, workload_alias c = Ok n.
Proof. intros [[l Hl] _]. unfold workload_alias. rewrite Hl. cbn. eauto. Qed.

Definition put (m : gmap string ServiceKey) (nk : string * ServiceKey) := <[nk.1 := nk.2]> m.
Definition ask (a : gmap string (option ServiceKey)) (nk : string * ServiceKey) := add_alias nk.1 nk.2 a.

Lemma name_services_eq c l m a : nameable c -> l ⊆ services c ->
  name_services c l m a =
    (fold_left put (flat_map (canonical c) l) m, Ok (fold_left ask (flat_map (claims c) l) a)).
Proof.
  intros Hc. destruct (nameable_alias c Hc) as [al Hal]. revert m a.
  induction l as [|s l IH]; intros m a Hl; [done|]. cbn [name_services flat_map].
  destruct (nameable_fqdn c s Hc) as [n Hn]; [set_solver|]. unfold canonical at 1, claims at 1.
  rewrite Hn, Hal, !fold_left_app. destruct (len (services c) =? 1); cbn [andb fold_left];
    [destruct (is_ok (validate_service_label _))|]; cbn [andb fold_left]; apply IH; set_solver.
Qed.

Lemma name_catalogs_eq l m a : Forall nameable l ->
  name_catalogs l m a =
    (fold_left put (flat_map (fun c => flat_map (canonical c) (services c)) l) m,
     Ok (fold_left ask (flat_map (fun c => flat_map (claims c) (services c)) l) a)).
Proof.
  intros Hl. revert m a. induction Hl as [|c l Hc Hl IH]; intros m a; [done|].
  cbn [name_catalogs flat_map]. rewrite name_services_eq by done. rewrite IH. by rewrite !fold_left_app.
Qed.

Lemma put_all l m n k : (forall k1 k2, (n, k1) ∈ l -> (n, k2) ∈ l -> k1 = k2) ->
  fold_left put l m !! n = Some k <-> (n, k) ∈ l \/ (m !! n = Some k /\ forall k', (n, k') ∉ l).
Proof.
  revert m. induction l as [|[n1 k1] l IH] using rev_ind; intros m Hf; [set_solver|].
  rewrite fold_left_app. cbn. unfold put at 1. cbn [fst snd].
  destruct (decide (n = n1)) as [->|Hne].
  - rewrite lookup_insert_eq. split; [intros [= ->]; set_solver|].
    intros [Hk|[_ Hk]]; [f_equal; apply Hf; set_solver|destruct (Hk k1); set_solver].
  - rewrite lookup_insert_ne by done. rewrite IH by set_solver. set_solver.
Qed.

(** A name is kept for the one service that asked, and lost once two did. *)
Lemma ask_all l n :
  match fold_left ask l ∅ !! n with
  | None => forall k, (n, k) ∉ l
  | Some (Some k) => (n, k) ∈ l /\ forall k', (n, k') ∈ l -> k' = k
  | Some None => exists k1 k2, (n, k1) ∈ l /\ (n, k2) ∈ l /\ k1 <> k2
  end.
Proof.
  induction l as [|[n1 k1] l IH] using rev_ind; [cbn; rewrite lookup_empty; set_solver|].
  rewrite fold_left_app. cbn [fold_left]. unfold ask at 1, add_alias. cbn [fst snd].
  destruct (decide (n = n1)) as [->|Hne]; [|rewrite lookup_insert_ne by done;
    destruct (fold_left ask l ∅ !! n) as [[k|]|]; [set_solver| |set_solver];
    destruct IH as (x & y & ? & ? & ?); exists x, y; set_solver].
  rewrite lookup_insert_eq. destruct (fold_left ask l ∅ !! n1) as [[k|]|].
  - destruct IH as [Hk Hall]. case_bool_decide as Heq; [injection Heq as ->; split; set_solver|].
    exists k, k1. split_and!; [set_solver..|congruence].
  - destruct IH as (x & y & ? & ? & ?). rewrite bool_decide_false by done. exists x, y. set_solver.
  - set_solver.
Qed.

Lemma add_aliases_lookup a m n :
  add_aliases a m !! n = match a !! n with Some (Some k) => Some k | _ => m !! n end.
Proof.
  unfold add_aliases. revert n.
  apply (map_fold_weak_ind (fun r a => forall n, r !! n = match a !! n with Some (Some k) => Some k | _ => m !! n end)).
  - intros n. by rewrite lookup_empty.
  - intros i x a' r Hi IH n. destruct x as [k|].
    + destruct (decide (i = n)) as [->|]; [by rewrite !lookup_insert_eq|by rewrite !lookup_insert_ne].
    + rewrite IH. destruct (decide (i = n)) as [->|]; [by rewrite lookup_insert_eq, Hi|by rewrite lookup_insert_ne].
Qed.

(** Catalogs filed under their workload, with names that can be formed. *)
Definition filed (m : gmap string ServiceCatalog) : Prop :=
  forall id c, m !! id = Some c -> catalog_manifest_id c = id /\ nameable c.

Lemma elem_of_flat_map {A B} (f : A -> list B) (l : list A) y : y ∈ flat_map f l <-> exists x, x ∈ l /\ y ∈ f x.
Proof. rewrite list_elem_of_In, in_flat_map. by setoid_rewrite list_elem_of_In. Qed.

Lemma elem_of_all f m n k :
  (n, k) ∈ flat_map (fun c => flat_map (f c) (services c)) (map_to_list m).*2 <-> of_catalogs f m n k.
Proof.
  rewrite elem_of_flat_map. unfold of_catalogs. split.
  - intros (c & Hc & Hk). apply elem_of_flat_map in Hk as (s & Hs & Hk).
    apply list_elem_of_fmap in Hc as ([id c'] & -> & Hc). apply elem_of_map_to_list in Hc. eauto 10.
  - intros (id & c & s & Hc & Hs & Hk). exists c. rewrite elem_of_flat_map. split; [|eauto].
    apply list_elem_of_fmap. exists (id, c). by rewrite elem_of_map_to_list.
Qed.

Lemma elem_of_canonical c s n k : (n, k) ∈ canonical c s ->
  k = key_of c s /\ (fqdn k = Ok n \/ len (services c) = 1 /\ workload_alias c = Ok n).
Proof.
  unfold canonical. rewrite elem_of_app. intros [Hk|Hk].
  - destruct (fqdn (key_of c s)) eqn:E; [|set_solver]. apply list_elem_of_singleton in Hk. simplify_eq. auto.
  - destruct (len (services c) =? 1) eqn:E1; [|set_solver]. destruct (workload_alias c) eqn:E; [|set_solver].
    apply list_elem_of_singleton in Hk. simplify_eq. bool_props. auto.
Qed.

Section Unambiguous.
Context {L32 : Base32Laws B32}.

Lemma canonical_unambiguous m n k1 k2 :
  filed m -> of_catalogs canonical m n k1 -> of_catalogs canonical m n k2 -> k1 = k2.
Proof.
  intros Hm (i1 & c1 & s1 & Hc1 & Hs1 & H1) (i2 & c2 & s2 & Hc2 & Hs2 & H2).
  apply elem_of_canonical in H1 as [E1 H1], H2 as [E2 H2].
  destruct H1 as [H1|[L1 H1]], H2 as [H2|[L2 H2]].
  - by eapply fqdn_inj.
  - unfold workload_alias in H2. Signed.result_steps H2. injection H2 as <-. by edestruct fqdn_not_alias.
  - unfold workload_alias in H1. Signed.result_steps H1. injection H1 as <-. by edestruct fqdn_not_alias.
  - unfold workload_alias in H1, H2. Signed.result_inv H1. Signed.result_inv H2. simplify_eq.
    match goal with H : _ +:+ "." +:+ _ = _ +:+ "." +:+ _ |- _ =>
      apply first_label in H as [-> _]; [|by eapply route_label_undotted..] end.
    assert (Hi : catalog_manifest_id c1 = catalog_manifest_id c2) by by eapply route_label_inj.
    destruct (Hm _ _ Hc1) as [<- _], (Hm _ _ Hc2) as [<- _]. rewrite Hi in Hc1.
    assert (c1 = c2) as -> by congruence.
    destruct (services c2) as [|x [|y l]]; unfold len in *; cbn in *; [lia| |lia].
    apply list_elem_of_singleton in Hs1, Hs2. congruence.
Qed.

Lemma sole_unambiguous m n k1 k2 : sole m n k1 -> sole m n k2 -> k1 = k2.
Proof. intros [H1 _] [_ H2]. by apply H2. Qed.

Lemma resolves_unambiguous m n k1 k2 : filed m -> resolves m n k1 -> resolves m n k2 -> k1 = k2.
Proof.
  intros Hm [H1|[N1 H1]] [H2|[N2 H2]];
    [by eapply sole_unambiguous|by destruct (N2 k1)|by destruct (N1 k2)|by eapply canonical_unambiguous].
Qed.

Lemma rebuild_spec cache : filed (catalogs cache) ->
  exists m, rebuild_names cache = (set_names m cache, Ok tt) /\
    forall n k, m !! n = Some k <-> resolves (catalogs cache) n k.
Proof.
  intros Hf. unfold rebuild_names. rewrite name_catalogs_eq.
  2: { apply Forall_forall. intros c Hc. apply list_elem_of_fmap in Hc as ([id c'] & -> & Hc).
       apply elem_of_map_to_list in Hc. by apply (Hf id). }
  eexists. split; [done|]. intros n k. rewrite add_aliases_lookup.
  set (cl := flat_map (fun c => flat_map (claims c) (services c)) (map_to_list (catalogs cache)).*2).
  set (cn := flat_map (fun c => flat_map (canonical c) (services c)) (map_to_list (catalogs cache)).*2).
  assert (Hput : fold_left put cn ∅ !! n = Some k <-> of_catalogs canonical (catalogs cache) n k).
  { rewrite put_all, lookup_empty; unfold cn; rewrite ?elem_of_all; [naive_solver|].
    intros k1 k2. rewrite !elem_of_all. by apply canonical_unambiguous. }
  pose proof (ask_all cl n) as Ha. unfold resolves, sole. subst cl.
  destruct (fold_left ask _ ∅ !! n) as [[k'|]|]; setoid_rewrite elem_of_all in Ha.
  - destruct Ha as [H1 H2]. split; [intros [= ->]; auto|]. intros [[H3 H4]|[H3 _]]; [f_equal; auto|].
    destruct (H3 k'); auto.
  - destruct Ha as (x & y & Hx & Hy & Hne). rewrite Hput. split; [|intros [[_ Hk]|[_ Hk]]; [|done]].
    + intros Hk. right. split; [|done]. intros k' [_ Hk']. destruct Hne. by rewrite (Hk' x), (Hk' y).
    + destruct Hne. by rewrite (Hk x), (Hk y).
  - rewrite Hput. naive_solver.
Qed.
End Unambiguous.

(** The short name of a service wins over another workload's own name: a
    service called like a route label answers for that workload. *)
Lemma workload_name_taken m id c s l :
  m !! id = Some c -> s ∈ services c -> service_name s = l ->
  (forall k, of_catalogs claims m (l +:+ "." +:+ INTERNAL_SUFFIX) k -> k = key_of c s) ->
  resolves m (l +:+ "." +:+ INTERNAL_SUFFIX) (key_of c s).
Proof.
  intros Hc Hs <- Hall. left. split; [|done]. exists id, c, s. split_and!; [done..|].
  unfold claims. apply elem_of_app. left. set_solver.
Qed.
End Resolution.
End ServiceNames.
