(* ===== verification/ServiceCacheSafety.v ===== *)
(** * The service cache is safe

    What every sequence of operations on the sidecar's service cache keeps:
    only catalogs and leases the owner authorised, one virtual address for each
    service for as long as the sidecar's state lives, and names that depend on
    the catalogs alone. *)

From S2P Require Import Prelude Net Crypto Signed RustOrd EndpointRecord Registration Biscuit WorkloadIdentity AgentIds ServiceDiscovery ServiceCache ServiceNames.

Module CacheSafety.
Import Crypto Net RustOrd Biscuit Discovery Cache ServiceNames.
Import EndpointRecord (EndpointRecord).
Import Workload (WorkloadIdentity).

Section Safety.
Context {P : Primitives} {B : BiscuitAuth} {H : Blake3} {BH : Blake3Hex H} {B32 : Base32} {L32 : Base32Laws B32}.
Context {CR : Postcard EndpointRecord} {CC : Postcard ServiceCatalog} {CS : Postcard ReplicaServiceRecord}.
Context {JD : Json Workload.EnrollmentDelegation} {JI : Json WorkloadIdentity} {JS : Json ReplicaServiceRecord}.

(** ** Verified catalogs *)
Lemma service_loop_ok seen l : service_loop seen l = Ok tt ->
  NoDup (service_name <$> l) /\ (forall s, s ∈ l -> service_name s ∉ seen) /\
  (forall s, s ∈ l -> is_ok (validate_service_label (service_name s)) = true).
Proof.
  revert seen. induction l as [|s l IH]; intros seen Hl; [split_and!; [constructor|set_solver..]|].
  cbn in Hl. Signed.result_steps Hl. bool_props. apply IH in Hl as (Hnd & Hseen & Hv). split_and!.
  - cbn. constructor; [|done]. intros (s' & Heq & Hs')%list_elem_of_fmap.
    apply (Hseen _ Hs'). rewrite <- Heq. set_solver.
  - intros s' [->|Hs']%elem_of_cons; [done|]. specialize (Hseen _ Hs'). set_solver.
  - intros s' [->|Hs']%elem_of_cons; [|auto]. destruct (validate_service_label _); done.
Qed.

Lemma route_id_label o w : exists l, route_label (Registration.route_id o w) = Ok l.
Proof.
  unfold route_label, Registration.route_id. rewrite blake3_hex_digits.
  rewrite (proj2 (Z.eqb_eq _ _) (blake3_hex_len _)). cbn. eauto.
Qed.

Lemma verified_catalog c o : verify_catalog c o = Ok tt ->
  nameable c /\ NoDup (service_name <$> services c) /\ services c <> [].
Proof.
  unfold verify_catalog, validate_catalog. intros Hv. Signed.result_inv Hv. Signed.result_inv Hx. bool_props.
  repeat match goal with x : unit |- _ => destruct x end.
  match goal with H : service_loop _ _ = Ok _ |- _ => apply service_loop_ok in H as (? & _ & ?) end.
  split_and!; [|done..]. split; [|done].
  match goal with H : catalog_manifest_id c = _ |- _ => rewrite H end. apply route_id_label.
Qed.

(** ** Allocation *)

(** Different services have different addresses, all of them handed out. *)
Record allocated (m : gmap ServiceKey Z) (base next : Z) : Prop := {
  vip_inj k1 k2 a : m !! k1 = Some a -> m !! k2 = Some a -> k1 = k2;
  vip_range k a : m !! k = Some a -> base < a < base + next
}.

Definition place (m : gmap ServiceKey Z) (a : ServiceKey * string * Z) : gmap ServiceKey Z := <[a.1.1 := a.2]> m.

Lemma insert_additions l cache :
  exists ns, fold_left insert_addition l cache = set_names ns (set_addresses (fold_left place l (addresses cache)) cache).
Proof.
  revert cache. induction l as [|[[k n] a] l IH]; intros cache; [exists (names cache); by destruct cache|].
  cbn [fold_left]. destruct (IH (insert_addition cache (k, n, a))) as [ns ->]. by exists ns.
Qed.

Lemma allocated_fresh m base next k : 0 < next -> m !! k = None ->
  allocated m base next -> allocated (<[k := base + next]> m) base (next + 1).
Proof.
  intros Hn Hk [Hi Hr]. split.
  - intros k1 k2 a. rewrite !lookup_insert_Some. intros [[<- <-]|[? H1]] [[<- E]|[? H2]]; [done| | |by eapply Hi].
    + apply Hr in H2. lia.
    + subst. apply Hr in H1. lia.
  - intros k' a. rewrite lookup_insert_Some. intros [[<- <-]|[_ Ha%Hr]]; lia.
Qed.

Lemma additions_ok cache c l n : nameable c -> l ⊆ services c -> exists r, additions cache c l n = Ok r.
Proof.
  intros Hc. revert n. induction l as [|s l IH]; intros n Hl; [by eexists|]. cbn [additions].
  destruct (nameable_fqdn c s Hc) as [nm ->]; [set_solver|]. cbn.
  edestruct IH as [[rest m] ->]; [set_solver|]. by eexists.
Qed.

Lemma additions_place cache c l n adds n' m :
  additions cache c l n = Ok (adds, n') -> NoDup (service_name <$> l) -> 0 < next_address cache -> 0 <= n ->
  (forall s, s ∈ l -> m !! key_of c s = addresses cache !! key_of c s) ->
  allocated m (address_base cache) (next_address cache + n) ->
  let m' := fold_left place adds m in
  allocated m' (address_base cache) (next_address cache + n') /\ m ⊆ m' /\
  map_len m' = map_len m + (n' - n) /\
  n' = n + len (filter (fun s => addresses cache !! key_of c s = None) l) /\
  (forall s, s ∈ l -> is_Some (m' !! key_of c s)).
Proof.
  revert n adds n' m. induction l as [|s l IH]; intros n adds n' m Ha Hnd Hnext Hn Hm Hal.
  { injection Ha as <- <-. unfold len. cbn. split_and!; [done|done|lia|lia|set_solver]. }
  cbn [additions] in Ha. Signed.result_steps Ha. destruct x0 as [rest k]. injection Ha as <- <-.
  cbn [fmap list_fmap] in Hnd. apply NoDup_cons in Hnd as [Hs Hnd].
  assert (Hne : forall s', s' ∈ l -> key_of c s' <> key_of c s).
  { intros s' Hs' [= Heq]. apply Hs. rewrite <- Heq. by apply list_elem_of_fmap_2. }
  pose proof (Hm s ltac:(set_solver)) as Hk. rewrite filter_cons. cbn [fold_left].
  match goal with |- context [place m ?x] => change (place m x) with (<[x.1.1 := x.2]> m) end. cbn [fst snd].
  destruct (addresses cache !! key_of c s) as [a|] eqn:Ea; cbn [default] in *.
  - rewrite insert_id by done. rewrite decide_False by done.
    edestruct IH as (H1 & H2 & H3 & H4 & H5); [exact Hx0|done..|by intros s' Hs'; apply Hm; right|exact Hal|]. split_and!; try done.
    intros s' [->|Hs']%elem_of_cons; [|auto]. exists a. by eapply lookup_weaken.
  - rewrite decide_True by done.
    edestruct (IH (n + 1) rest k (<[key_of c s := address_base cache + next_address cache + n]> m))
      as (H1 & H2 & H3 & H4 & H5); [exact Hx0|done..|lia| | |].
    + intros s' Hs'. rewrite lookup_insert_ne by (by apply not_eq_sym, Hne). apply Hm. set_solver.
    + replace (next_address cache + (n + 1)) with (next_address cache + n + 1) by lia.
      rewrite <- Z.add_assoc. apply allocated_fresh; [lia|done..].
    + split_and!; [done| | | |].
      * etrans; [|done]. by apply insert_subseteq.
      * rewrite H3. unfold map_len. rewrite map_size_insert_None by done. lia.
      * rewrite H4. unfold len. cbn. lia.
      * intros s' [->|Hs']%elem_of_cons; [|auto]. eexists. eapply lookup_weaken; [|done]. apply lookup_insert_eq.
Qed.

(** ** The invariant *)
Definition catalog_held (cache : ServiceCache) (id : string) (c : ServiceCatalog) : Prop :=
  catalog_manifest_id c = id /\ verify_catalog c (owner cache) = Ok tt /\
  forall s, s ∈ services c -> is_Some (addresses cache !! key_of c s).

Definition record_held (cache : ServiceCache) (slot : string * Z) (r : ReplicaServiceRecord) : Prop :=
  slot_of r = slot /\ catalogs cache !! slot.1 = Some (catalog r) /\
  exists t, verify_record r (owner cache) t = Ok tt.

Record core (cache : ServiceCache) : Prop := {
  core_base : address_base cache = from_octets 198 18 0 0;
  core_catalogs id c : catalogs cache !! id = Some c -> catalog_held cache id c;
  core_records slot r : records cache !! slot = Some r -> record_held cache slot r;
  core_replicas : map_len (records cache) <= MAX_CACHED_REPLICAS;
  core_services : map_len (addresses cache) <= MAX_CACHED_SERVICES;
  core_allocated : allocated (addresses cache) (address_base cache) (next_address cache);
  core_next : 1 <= next_address cache <= MAX_CACHED_SERVICES + 1 + map_len (addresses cache)
}.

Definition named (cache : ServiceCache) : Prop := forall n k, names cache !! n = Some k <-> resolves (catalogs cache) n k.

Definition inv (cache : ServiceCache) : Prop := core cache /\ named cache.

Lemma core_filed cache : core cache -> filed (catalogs cache).
Proof. intros Hc id c (Hid & Hv & _)%(core_catalogs _ Hc). split; [done|]. by apply (verified_catalog _ (owner cache)). Qed.

Lemma new_inv o cache : new o = Ok cache -> inv cache /\ records cache = ∅ /\ addresses cache = ∅ /\ owner cache = o.
Proof.
  unfold new. intros Hn. Signed.result_steps Hn. injection Hn as <-. split_and!; try done. split.
  - split; cbn; try done; intros ? ?; by rewrite lookup_empty.
  - intros n k. cbn. rewrite lookup_empty. unfold resolves, sole, of_catalogs. setoid_rewrite lookup_empty. naive_solver.
Qed.

(** *** Authorising a catalog *)
Record grown (cache : ServiceCache) (c : ServiceCatalog) (cache' : ServiceCache) : Prop := {
  grown_owner : owner cache' = owner cache;
  grown_base : address_base cache' = address_base cache;
  grown_records : records cache' = records cache;
  grown_cursors : cursors cache' = cursors cache;
  grown_catalogs : catalogs cache' = <[catalog_manifest_id c := c]> (catalogs cache);
  grown_addresses : addresses cache ⊆ addresses cache';
  grown_count : map_len (addresses cache') = map_len (addresses cache) + new_services cache c;
  grown_next : next_address cache' = next_address cache + new_services cache c;
  grown_services s : s ∈ services c -> is_Some (addresses cache' !! key_of c s);
  grown_allocated : allocated (addresses cache') (address_base cache') (next_address cache')
}.

Lemma register_named cache : filed (catalogs cache) ->
  exists ns, rebuild_names cache = (set_names ns cache, Ok tt) /\ named (set_names ns cache).
Proof. intros Hf. destruct (rebuild_spec cache Hf) as (ns & -> & Hn). by exists ns. Qed.

Lemma authorize_new c cache : core cache -> verify_catalog c (owner cache) = Ok tt ->
  catalogs cache !! catalog_manifest_id c = None ->
  map_len (addresses cache) + new_services cache c <= MAX_CACHED_SERVICES ->
  exists cache', authorize_catalog c cache = (cache', Ok tt) /\ grown cache c cache' /\ named cache'.
Proof.
  intros Hc Hv Hnone Hcap. destruct (verified_catalog _ _ Hv) as (Hname & Hnd & Hne).
  destruct (additions_ok cache c (services c) 0 Hname) as [[adds n'] Hadd]; [done|].
  destruct (additions_place cache c (services c) 0 adds n' (addresses cache)) as (Hal & Hsub & Hlen & Hn & Hs);
    [done|done|destruct (core_next _ Hc); lia|done|done|rewrite Z.add_0_r; apply Hc|].
  change (n' = 0 + new_services cache c) in Hn.
  assert (Hfin : forall ns, exists cache',
    rebuild_names (set_catalogs (<[catalog_manifest_id c := c]> (catalogs cache))
      (set_names ns (set_addresses (fold_left place adds (addresses cache))
         (set_next_address (next_address cache + n') cache)))) = (cache', Ok tt) /\ grown cache c cache' /\ named cache').
  { intros ns. edestruct register_named as (ns' & Hr & Hnm); [|rewrite Hr; eexists; split; [done|split; [|exact Hnm]]].
    - cbn. intros id c'. rewrite lookup_insert_Some. intros [[<- <-]|[_ Hc']]; [done|by apply (core_filed cache)].
    - split; cbn; try done; lia. }
  unfold authorize_catalog. rewrite Hv, Hnone. rewrite (proj2 (Z.leb_le _ _) Hcap), Hadd. cbn [fst snd].
  destruct (insert_additions adds (set_next_address (next_address cache + n') cache)) as [ns ->]. cbn [addresses set_next_address].
  destruct (services c) as [|x [|y l]] eqn:Es; [done| |apply Hfin].
  destruct (nameable_alias c Hname) as [al ->]. apply Hfin.
Qed.

Lemma grown_core c cache cache' : core cache -> verify_catalog c (owner cache) = Ok tt ->
  catalogs cache !! catalog_manifest_id c = None ->
  map_len (addresses cache) + new_services cache c <= MAX_CACHED_SERVICES ->
  grown cache c cache' -> core cache'.
Proof.
  intros Hc Hv Hnone Hcap Hg. destruct Hg. split.
  - rewrite grown_base0. apply Hc.
  - intros id c'. unfold catalog_held. rewrite grown_catalogs0, grown_owner0, lookup_insert_Some.
    intros [[<- <-]|[_ (? & ? & Hs)%(core_catalogs _ Hc)]]; [done|]. split_and!; [done..|].
    intros s [a Ha]%Hs. exists a. by eapply lookup_weaken.
  - intros slot r. rewrite grown_records0. unfold record_held. rewrite grown_catalogs0, grown_owner0.
    intros (? & Hcat & ?)%(core_records _ Hc). rewrite lookup_insert_ne by congruence. done.
  - rewrite grown_records0. apply Hc.
  - lia.
  - done.
  - destruct (core_next _ Hc). unfold new_services in *. pose proof (len_nonneg (filter (fun s => addresses cache !! key_of c s = None) (services c))). lia.
Qed.

(** A catalog is refused or known and nothing changes, or it is taken in whole. *)
Lemma authorize_cases c cache : core cache ->
  (exists r, authorize_catalog c cache = (cache, r)) \/
  (exists cache', authorize_catalog c cache = (cache', Ok tt) /\ grown cache c cache' /\ inv cache' /\
     catalogs cache !! catalog_manifest_id c = None).
Proof.
  intros Hc. destruct (verify_catalog c (owner cache)) as [[]|e] eqn:Hv;
    [|left; unfold authorize_catalog; rewrite Hv; eauto].
  destruct (catalogs cache !! catalog_manifest_id c) as [old|] eqn:Hold.
  { left. unfold authorize_catalog. rewrite Hv, Hold. destruct (bool_decide _); eauto. }
  destruct (map_len (addresses cache) + new_services cache c <=? MAX_CACHED_SERVICES) eqn:Hcap.
  - right. bool_props. destruct (authorize_new c cache) as (cache' & Heq & Hg & Hn); [done..|].
    exists cache'. split_and!; [done..| |done]. split; [by eapply grown_core|done].
  - left. unfold authorize_catalog. rewrite Hv, Hold, Hcap. eauto.
Qed.

(** *** Records *)
Lemma set_records_core m cache : core cache -> (forall slot r, m !! slot = Some r -> record_held cache slot r) ->
  map_len m <= MAX_CACHED_REPLICAS -> core (set_records m cache).
Proof. intros Hc Hr Hm. destruct Hc. by split. Qed.

Lemma set_records_inv m cache : inv cache -> (forall slot r, m !! slot = Some r -> record_held cache slot r) ->
  map_len m <= MAX_CACHED_REPLICAS -> inv (set_records m cache).
Proof. intros [Hc Hn] Hr Hm. split; [by apply set_records_core|done]. Qed.

(** A record is refused or old and nothing changes, or it takes its slot. *)
Lemma admit_cases r now older cache :
  (exists res, admit_inner r now older cache = (cache, res) /\ res <> Ok true) \/
  (admit_inner r now older cache = (set_records (<[slot_of r := r]> (records cache)) cache, Ok true) /\
   verify_record r (owner cache) now = Ok tt /\ catalogs cache !! catalog_manifest_id (catalog r) = Some (catalog r) /\
   match records cache !! slot_of r with
   | Some old => check_successor old r older = Ok true
   | None => map_len (records cache) < MAX_CACHED_REPLICAS
   end).
Proof.
  unfold admit_inner. destruct (record_to_bytes r); [|left; eauto].
  destruct (verify_record r (owner cache) now) as [[]|]; [|left; eauto]. case_bool_decide as Hcat; [|left; eauto].
  destruct (records cache !! slot_of r) as [old|].
  - destruct (check_successor old r older) as [[]|]; [right; done|left; eauto..].
  - destruct (_ <? _) eqn:E; [right; bool_props; done|left; eauto].
Qed.

Lemma admit_inv r now older cache : inv cache -> inv (admit_inner r now older cache).1.
Proof.
  intros Hi. destruct (admit_cases r now older cache) as [(res & -> & _)|(-> & Hv & Hcat & Hslot)]; [done|].
  apply set_records_inv; [done| |].
  - intros slot r'. rewrite lookup_insert_Some. intros [[<- <-]|[_ Hr]]; [|by apply Hi]. split_and!; eauto.
  - destruct (records cache !! slot_of r) eqn:E; unfold map_len in *.
    + rewrite map_size_insert_Some by eauto. apply Hi.
    + rewrite map_size_insert_None by done. lia.
Qed.

(** *** Replacement *)
Lemma forget_core id cache : core cache -> core (forget_catalog id cache).
Proof.
  intros Hc. destruct Hc. split; cbn; try done.
  - intros id' c'. rewrite lookup_delete_Some. intros [_ Hc']. by apply core_catalogs0.
  - intros slot r. rewrite lookup_map_retain. intros [Hr Hne]. bool_props.
    destruct (core_records0 _ _ Hr) as (? & ? & ?). split_and!; [done| |done].
    cbn. by rewrite lookup_delete_ne.
  - etrans; [apply map_len_retain_le|done].
Qed.

Lemma replace_cases c cache : inv cache ->
  (exists r, replace_catalog c cache = (cache, r)) \/
  (exists cache0 cache', replace_catalog c cache = (cache', Ok tt) /\ grown cache0 c cache' /\ inv cache' /\
     (cache0 = cache \/ cache0 = forget_catalog (catalog_manifest_id c) cache)).
Proof.
  intros [Hc Hn]. unfold replace_catalog. destruct (verify_catalog c (owner cache)) as [[]|] eqn:Hv; [|left; eauto].
  destruct (_ <=? _) eqn:Hcap; [|left; eauto]. bool_props.
  destruct (catalogs cache !! catalog_manifest_id c) as [old|] eqn:Hold; [case_bool_decide as Heq|]; cbn [negb].
  - destruct (authorize_cases c cache Hc) as [[r ->]|(cache' & -> & Hg & Hi & _)]; [left; eauto|right; eauto 10].
  - right. destruct (authorize_new c (forget_catalog (catalog_manifest_id c) cache)) as (cache' & -> & Hg & Hnm);
      [by apply forget_core|done|cbn; apply lookup_delete_eq|done|].
    exists (forget_catalog (catalog_manifest_id c) cache), cache'. split_and!; [done..| |auto].
    split; [|done]. eapply grown_core; [by apply forget_core|done|cbn; apply lookup_delete_eq|done|done].
  - destruct (authorize_cases c cache Hc) as [[r ->]|(cache' & -> & Hg & Hi & _)]; [left; eauto|right; eauto 10].
Qed.

Lemma replace_inv c cache : inv cache -> inv (replace_catalog c cache).1.
Proof. intros Hi. by destruct (replace_cases c cache Hi) as [[r ->]|(? & ? & -> & _ & ? & _)]. Qed.

Lemma drop_slot_inv slot cache : inv cache -> inv (set_records (delete slot (records cache)) cache).
Proof.
  intros Hi. apply set_records_inv; [done| |].
  - intros s r [_ Hr]%lookup_delete_Some. by apply Hi.
  - etrans; [apply map_len_subseteq, delete_subseteq|apply Hi].
Qed.

Lemma seed_inv r now cache : inv cache -> inv (seed r now cache).1.
Proof.
  intros Hi. unfold seed. destruct (verify_record _ _ _); [|done].
  pose proof (replace_inv (catalog r) cache Hi) as Hr. destruct (replace_catalog _ _) as [cache' [[]|]]; [|done]. cbn in Hr.
  set (differs := match records cache' !! slot_of r with Some _ => _ | None => _ end).
  set (cache2 := if differs then _ else _).
  assert (H2 : inv cache2) by (subst cache2; destruct differs; [by apply drop_slot_inv|done]).
  pose proof (admit_inv r now false cache2 H2) as Ha. unfold admit_record. destruct (admit_inner r now false cache2) as [c3 [?|?]]; done.
Qed.

Lemma candidates_inv key now ex cache : inv cache -> inv (candidates key now ex cache).1.
Proof. intros [Hc Hn]. unfold candidates. case_bool_decide; [done|]. split; [by destruct Hc|done]. Qed.

(** ** Persistence *)
Lemma octets_vip a : (octets a).1 = (198, 18, 0) <-> exists x, a = from_octets 198 18 0 x /\ 0 <= x < 256.
Proof.
  unfold octets, from_octets. cbn [fst]. split.
  - intros [= H1 H2 H3]. exists (a mod 256). Z.to_euclidean_division_equations. lia.
  - intros (x & -> & Hx).
    replace ((198 * 2 ^ 24 + 18 * 2 ^ 16 + 0 * 2 ^ 8 + x) / 2 ^ 24) with 198
      by (apply (Z.div_unique _ _ _ (18 * 2 ^ 16 + x)); lia).
    replace ((198 * 2 ^ 24 + 18 * 2 ^ 16 + 0 * 2 ^ 8 + x) / 2 ^ 16) with (198 * 256 + 18)
      by (apply (Z.div_unique _ _ _ x); lia).
    replace ((198 * 2 ^ 24 + 18 * 2 ^ 16 + 0 * 2 ^ 8 + x) / 2 ^ 8) with ((198 * 256 + 18) * 256)
      by (apply (Z.div_unique _ _ _ x); lia).
    done.
Qed.

Lemma vip_last_octet x : 0 <= x < 256 -> last_octet (from_octets 198 18 0 x) = x.
Proof. intros Hx. symmetry. apply (Z.mod_unique _ _ (198 * 2 ^ 16 + 18 * 2 ^ 8)); unfold from_octets; lia. Qed.

(** An address a persisted state may hold. *)
Definition persistable (a : Z) : Prop := exists x, a = from_octets 198 18 0 x /\ 1 <= x <= MAX_CACHED_SERVICES.

Lemma persistable_check a : (bool_decide ((octets a).1 = (198, 18, 0)) && (0 <? last_octet a) &&
  (last_octet a <=? MAX_CACHED_SERVICES mod 256)) = true <-> persistable a.
Proof.
  rewrite !andb_true_iff, bool_decide_eq_true, octets_vip, Z.ltb_lt, Z.leb_le.
  change (MAX_CACHED_SERVICES mod 256) with MAX_CACHED_SERVICES. unfold persistable. split.
  - intros [[(x & -> & Hx) H1] H2]. rewrite vip_last_octet in * by done. exists x. split; [done|lia].
  - intros (x & -> & Hx). unfold MAX_CACHED_SERVICES in *. rewrite vip_last_octet by lia. split_and!; [|lia..].
    exists x. split; [done|lia].
Qed.

Lemma restore_addresses_cons k a l used cache r :
  restore_addresses ((k, a) :: l) used cache = Ok r <->
  persistable a /\ a ∉ used /\ addresses cache !! k = None /\
  restore_addresses l ({[a]} ∪ used) (set_addresses (<[k := a]> (addresses cache)) cache) = Ok r.
Proof.
  cbn [restore_addresses]. rewrite <- (persistable_check a).
  destruct (bool_decide ((octets a).1 = (198, 18, 0)) && (0 <? last_octet a) &&
    (last_octet a <=? MAX_CACHED_SERVICES mod 256)); cbn [andb]; [|naive_solver].
  case_bool_decide; cbn [negb]; [naive_solver|]. unfold contains_key.
  destruct (addresses cache !! k) as [x|]; cbn; naive_solver.
Qed.

(** What the loop over the addresses accepts, and what it builds. *)
Lemma restore_addresses_ok l used cache used' cache' :
  restore_addresses l used cache = Ok (used', cache') ->
  (forall k a, addresses cache !! k = Some a -> a ∈ used) ->
  (forall k1 k2 a, addresses cache !! k1 = Some a -> addresses cache !! k2 = Some a -> k1 = k2) ->
  exists m, cache' = set_addresses m cache /\
    (forall k a, m !! k = Some a <-> (k, a) ∈ l \/ addresses cache !! k = Some a) /\
    (forall a, a ∈ used' <-> a ∈ l.*2 \/ a ∈ used) /\
    (forall k1 k2 a, m !! k1 = Some a -> m !! k2 = Some a -> k1 = k2) /\
    Forall persistable l.*2 /\ map_len m = map_len (addresses cache) + len l.
Proof.
  revert used cache. induction l as [|[k a] l IH]; intros used cache Hl Hu Hi.
  { injection Hl as <- <-. exists (addresses cache). destruct cache. unfold len. cbn in *. split_and!; try done; [set_solver..|lia]. }
  apply restore_addresses_cons in Hl as (Hp & Ha & Hk & Hl).
  apply IH in Hl as (m & -> & Hm & Hu' & Hi' & Hf & Hlen); cbn [addresses set_addresses].
  - exists m. split_and!; [done| |set_solver|done|by constructor|].
    + intros k' a'. rewrite Hm. cbn. rewrite lookup_insert_Some. set_unfold.
      destruct (decide (k' = k)) as [->|]; naive_solver.
    + rewrite Hlen. cbn. rewrite map_len_insert_new, len_cons by done. lia.
  - intros k' a'. rewrite lookup_insert_Some. set_solver.
  - intros k1 k2 a'. rewrite !lookup_insert_Some. intros [[<- <-]|[? H1]] [[<- ?]|[? H2]]; [done| | |by eapply Hi].
    + by destruct Ha; eapply Hu.
    + subst. by destruct Ha; eapply Hu.
Qed.

Lemma restore_addresses_total l used cache : Forall persistable l.*2 -> NoDup l.*1 -> NoDup l.*2 ->
  (forall k a, (k, a) ∈ l -> a ∉ used /\ addresses cache !! k = None) ->
  exists r, restore_addresses l used cache = Ok r.
Proof.
  revert used cache. induction l as [|[k a] l IH]; intros used cache Hp H1 H2 Hn; [by eexists|].
  cbn in *. apply Forall_cons in Hp as [Hpa Hp]. apply NoDup_cons in H1 as [Hk H1], H2 as [Ha H2].
  destruct (Hn k a ltac:(set_solver)) as [Hna Hnk].
  destruct (IH ({[a]} ∪ used) (set_addresses (<[k := a]> (addresses cache)) cache)) as [r Hr]; [done..| |].
  - intros k' a' Hin. destruct (Hn k' a' ltac:(set_solver)) as [? ?].
    assert (k' <> k) by (intros ->; apply Hk; by apply (list_elem_of_fmap_2 fst) in Hin).
    assert (a' <> a) by (intros ->; apply Ha; by apply (list_elem_of_fmap_2 snd) in Hin).
    split; [set_solver|]. cbn. by rewrite lookup_insert_ne.
  - exists r. by apply restore_addresses_cons.
Qed.

Lemma foldr_max_le l x : x ∈ l -> x <= foldr Z.max 0 l.
Proof. induction l as [|y l IH]; [set_solver|]. cbn. intros [->|Hx%IH]%elem_of_cons; lia. Qed.

Lemma foldr_max_lt l n : 0 < n -> Forall (fun x => x < n) l -> foldr Z.max 0 l < n.
Proof. intros Hn. induction 1; cbn; lia. Qed.

Lemma restore_catalogs_inv l cache cache' : inv cache -> restore_catalogs l cache = Ok cache' ->
  inv cache' /\ owner cache' = owner cache /\ records cache' = records cache.
Proof.
  revert cache. induction l as [|c l IH]; intros cache Hi Hl; [by injection Hl as <-|].
  cbn in Hl. destruct (authorize_cases c cache) as [[r Heq]|(c1 & Heq & Hg & Hi1 & _)]; [apply Hi| |];
    rewrite Heq in Hl; Signed.result_steps Hl; [by apply IH|].
  apply IH in Hl as (? & -> & ->); [|done]. by destruct Hg.
Qed.

Context {JP : Json Snapshot}.

(** The cache a restored state begins with. *)
Lemma restored_addresses_inv o cache l used cache1 n : new o = Ok cache ->
  restore_addresses l ∅ cache = Ok (used, cache1) -> len l <= MAX_CACHED_SERVICES ->
  foldr Z.max 0 (last_octet <$> elements used) < n <= MAX_CACHED_SERVICES + 1 ->
  inv (set_next_address n cache1) /\ owner cache1 = o /\ records cache1 = ∅.
Proof.
  intros Hnew Hl Hlen Hn. unfold new in Hnew. Signed.result_steps Hnew. injection Hnew as <-.
  apply restore_addresses_ok in Hl as (m & -> & Hm & Hu & Hi & Hf & Hsz); cbn [addresses] in *;
    [|intros *; by rewrite lookup_empty..].
  rewrite map_len_empty in Hsz. split_and!; [|done..]. split.
  - split; cbn; try done; [by intros ? ?; rewrite lookup_empty..|lia| |pose proof (map_len_nonneg m)].
    + split; [done|]. intros k a Hk. rewrite Hm, lookup_empty in Hk. destruct Hk as [Hk|]; [|done].
      assert (Ha : a ∈ l.*2) by (by apply (list_elem_of_fmap_2 snd) in Hk).
      rewrite Forall_forall in Hf. destruct (Hf _ Ha) as (y & -> & Hy).
      assert (y <= foldr Z.max 0 (last_octet <$> elements used)).
      { apply foldr_max_le, list_elem_of_fmap. exists (from_octets 198 18 0 y).
        unfold MAX_CACHED_SERVICES in *. rewrite vip_last_octet by lia. split; [done|].
        apply elem_of_elements, Hu. by left. }
      unfold from_octets. lia.
    + assert (0 <= foldr Z.max 0 (last_octet <$> elements used)) by (generalize (last_octet <$> elements used); intros l'; induction l'; cbn; lia).
      lia.
  - intros n' k. cbn. rewrite lookup_empty. unfold resolves, sole, of_catalogs. setoid_rewrite lookup_empty. naive_solver.
Qed.

(** Whatever the file holds, a restored cache is a good one. *)
Lemma restore_inv o stored cache : restore o stored = Ok cache -> inv cache /\ owner cache = o /\ records cache = ∅.
Proof.
  destruct stored as [content|]; cbn [restore]; [|intros Hn; by apply new_inv in Hn as (? & ? & ? & ?)].
  intros Hr. cbv zeta in Hr. Signed.result_steps Hr. destruct x1 as [used cache1]. Signed.result_steps Hr. bool_props.
  edestruct restored_addresses_inv as (Hi & Ho & Hrec); [done..|]. cbn in *.
  apply restore_catalogs_inv in Hr as (? & -> & ->); done.
Qed.

(** *** Saving and restoring *)

(** The allocator has handed out exactly the addresses in use. *)
Definition tight (cache : ServiceCache) : Prop := next_address cache = 1 + map_len (addresses cache).

Definition owner_key (o : string) : Prop := exists key, b64_decode o = Ok key /\ len key = 32.

Lemma elem_of_btree cache k a : (k, a) ∈ btree_addresses cache <-> addresses cache !! k = Some a.
Proof. unfold btree_addresses. rewrite sort_perm. apply elem_of_map_to_list. Qed.

Lemma vip_nodup cache : core cache -> NoDup (btree_addresses cache).*2.
Proof.
  intros Hc. unfold btree_addresses. rewrite sort_perm. apply NoDup_fmap_2_strong; [|apply NoDup_map_to_list].
  intros [k1 a1] [k2 a2] H1%elem_of_map_to_list H2%elem_of_map_to_list Heq. cbn in Heq. subst.
  f_equal. by eapply (vip_inj _ _ _ (core_allocated _ Hc)).
Qed.

Lemma tight_persistable cache : core cache -> tight cache -> Forall persistable (btree_addresses cache).*2.
Proof.
  intros Hc Ht. apply Forall_forall. intros a ([k a'] & -> & Hk)%list_elem_of_fmap. cbn.
  apply elem_of_btree, (vip_range _ _ _ (core_allocated _ Hc)) in Hk. rewrite (core_base _ Hc) in Hk.
  pose proof (core_services _ Hc). unfold tight in Ht. exists (a' - from_octets 198 18 0 0).
  unfold from_octets in *. split; lia.
Qed.

(** Every catalog has a service, and every service an address. *)
Lemma catalogs_bounded cache : core cache -> len (map_to_list (catalogs cache)).*2 <= MAX_CACHED_SERVICES.
Proof.
  intros Hc. etrans; [|apply (core_services _ Hc)].
  set (first := fun ic : string * ServiceCatalog => key_of ic.2 (default {| service_name := ""; ports := [] |} (head (services ic.2)))).
  assert (Hsub : first <$> map_to_list (catalogs cache) ⊆+ (map_to_list (addresses cache)).*1).
  { apply NoDup_submseteq.
    - apply NoDup_fmap_2_strong; [|apply NoDup_map_to_list].
      intros [i1 c1] [i2 c2] H1%elem_of_map_to_list H2%elem_of_map_to_list Heq. injection Heq as Hid _. cbn in Hid.
      destruct (core_catalogs _ Hc _ _ H1) as [<- _], (core_catalogs _ Hc _ _ H2) as [<- _]. rewrite Hid in *. congruence.
    - intros k ([i c] & -> & H1)%list_elem_of_fmap. apply elem_of_map_to_list in H1.
      destruct (core_catalogs _ Hc _ _ H1) as (_ & Hv & Hs). destruct (verified_catalog _ _ Hv) as (_ & _ & Hne).
      unfold first. cbn. destruct (services c) as [|s l]; [done|]. destruct (Hs s) as [a Ha]; [set_solver|].
      apply list_elem_of_fmap. exists (key_of c s, a). by rewrite elem_of_map_to_list. }
  apply submseteq_length in Hsub. rewrite !length_fmap, !length_map_to_list in Hsub.
  unfold len, map_len. rewrite length_fmap, length_map_to_list. lia.
Qed.

Lemma known_services cache c : (forall s, s ∈ services c -> is_Some (addresses cache !! key_of c s)) -> new_services cache c = 0.
Proof.
  intros Hs. unfold new_services. destruct (filter _ _) as [|s l] eqn:E; [done|].
  assert (Hin : s ∈ filter (fun s => addresses cache !! key_of c s = None) (services c)) by (rewrite E; set_solver).
  apply list_elem_of_filter in Hin as [Hn Hin]. destruct (Hs s Hin) as [a Ha]. congruence.
Qed.

Lemma restore_catalogs_total l cache : inv cache -> NoDup (catalog_manifest_id <$> l) ->
  (forall c, c ∈ l -> catalogs cache !! catalog_manifest_id c = None /\ verify_catalog c (owner cache) = Ok tt /\
     forall s, s ∈ services c -> is_Some (addresses cache !! key_of c s)) ->
  exists cache', restore_catalogs l cache = Ok cache' /\ addresses cache' = addresses cache /\
    next_address cache' = next_address cache /\ cursors cache' = cursors cache /\
    forall id c, catalogs cache' !! id = Some c <-> catalogs cache !! id = Some c \/ (c ∈ l /\ catalog_manifest_id c = id).
Proof.
  revert cache. induction l as [|c l IH]; intros cache Hi Hnd Hl.
  { exists cache. split_and!; try done. set_solver. }
  cbn in Hnd. apply NoDup_cons in Hnd as [Hc Hnd]. destruct (Hl c) as (Hnone & Hv & Hs); [set_solver|].
  pose proof (known_services _ _ Hs) as Hz. pose proof (core_services _ (proj1 Hi)).
  destruct (authorize_new c cache) as (c1 & Heq & Hg & Hn); [apply Hi|done..|lia|].
  assert (Hi1 : inv c1) by (split; [eapply grown_core; [apply Hi|done..|lia|done]|done]).
  assert (Ha : addresses c1 = addresses cache).
  { symmetry. apply map_subseteq_size_eq; [apply Hg|]. pose proof (grown_count _ _ _ Hg). unfold map_len in *. lia. }
  destruct (IH c1 Hi1 Hnd) as (c2 & H2 & Ha2 & Hn2 & Hcu & Hc2).
  { intros c' Hc'. rewrite (grown_catalogs _ _ _ Hg), (grown_owner _ _ _ Hg), Ha. rewrite lookup_insert_ne; [apply Hl; set_solver|].
    intros Heq'. apply Hc. rewrite Heq'. by apply list_elem_of_fmap_2. }
  exists c2. cbn. rewrite Heq. cbn. split_and!; [done|congruence| | |].
  - rewrite Hn2, (grown_next _ _ _ Hg). lia.
  - by rewrite Hcu, (grown_cursors _ _ _ Hg).
  - intros id c'. rewrite Hc2, (grown_catalogs _ _ _ Hg), lookup_insert_Some. set_unfold.
    destruct (decide (catalog_manifest_id c = id)) as [<-|]; naive_solver.
Qed.

Context {JPL : JsonLaws Snapshot JP}.

(** What outlives the process. *)
Record persisted (cache cache' : ServiceCache) : Prop := {
  persisted_owner : owner cache' = owner cache;
  persisted_catalogs : catalogs cache' = catalogs cache;
  persisted_addresses : addresses cache' = addresses cache;
  persisted_names : names cache' = names cache;
  persisted_next : next_address cache' = next_address cache;
  persisted_records : records cache' = ∅;
  persisted_cursors : cursors cache' = ∅
}.

Lemma names_determined c1 c2 : named c1 -> named c2 -> catalogs c1 = catalogs c2 -> names c1 = names c2.
Proof. intros H1 H2 Hc. apply map_eq. intros n. apply option_eq. intros k. by rewrite (H1 n k), (H2 n k), Hc. Qed.

Lemma tight_allocator cache (used : gset Z) : core cache -> tight cache ->
  (forall a, a ∈ used <-> a ∈ (btree_addresses cache).*2) ->
  foldr Z.max 0 (last_octet <$> elements used) < next_address cache <= MAX_CACHED_SERVICES + 1.
Proof.
  intros Hc Ht Hu. pose proof (core_services _ Hc). destruct (core_next _ Hc). split; [|unfold tight in Ht; lia].
  apply foldr_max_lt; [lia|]. apply Forall_forall. intros x (a & -> & Ha)%list_elem_of_fmap.
  apply elem_of_elements, Hu, list_elem_of_fmap in Ha as ([k a'] & -> & Hk). apply elem_of_btree in Hk. cbn.
  apply (vip_range _ _ _ (core_allocated _ Hc)) in Hk. rewrite (core_base _ Hc) in Hk.
  replace a' with (from_octets 198 18 0 (a' - from_octets 198 18 0 0)) by (unfold from_octets; lia).
  unfold tight, MAX_CACHED_SERVICES in *. rewrite vip_last_octet; unfold from_octets in *; lia.
Qed.

Lemma reload_addresses cache c0 : core cache -> tight cache -> addresses c0 = ∅ ->
  exists used, restore_addresses (btree_addresses cache) ∅ c0 = Ok (used, set_addresses (addresses cache) c0) /\
    foldr Z.max 0 (last_octet <$> elements used) < next_address cache <= MAX_CACHED_SERVICES + 1.
Proof.
  intros Hc Ht Hadd.
  destruct (restore_addresses_total (btree_addresses cache) ∅ c0) as [[used c1] Hr].
  { by apply tight_persistable. } { unfold btree_addresses. rewrite sort_perm. apply NoDup_fst_map_to_list. }
  { by apply vip_nodup. } { rewrite Hadd. split; [set_solver|apply lookup_empty]. }
  destruct (restore_addresses_ok _ _ _ _ _ Hr) as (m & -> & Hm & Hu & _); [rewrite Hadd; intros *; by rewrite lookup_empty..|].
  assert (m = addresses cache) as ->.
  { apply map_eq. intros k. apply option_eq. intros a. rewrite Hm, elem_of_btree, Hadd, lookup_empty. naive_solver. }
  exists used. split; [done|]. apply tight_allocator; [done..|]. intros a. rewrite Hu. set_solver.
Qed.

Lemma manifest_ids_nodup cache : core cache -> NoDup (catalog_manifest_id <$> (map_to_list (catalogs cache)).*2).
Proof.
  intros Hc. rewrite <- list_fmap_compose. apply NoDup_fmap_2_strong; [|apply NoDup_map_to_list].
  intros [i1 x1] [i2 x2] H1%elem_of_map_to_list H2%elem_of_map_to_list Heq. cbn in Heq.
  destruct (core_catalogs _ Hc _ _ H1) as [<- _], (core_catalogs _ Hc _ _ H2) as [<- _]. rewrite Heq in *. congruence.
Qed.

Lemma reload_catalogs cache c1 : core cache -> inv c1 -> owner c1 = owner cache -> catalogs c1 = ∅ ->
  addresses c1 = addresses cache ->
  exists c2, restore_catalogs (map_to_list (catalogs cache)).*2 c1 = Ok c2 /\ catalogs c2 = catalogs cache /\
    addresses c2 = addresses cache /\ next_address c2 = next_address c1 /\ cursors c2 = cursors c1.
Proof.
  intros Hc Hi Ho Hcat Hadd.
  destruct (restore_catalogs_total (map_to_list (catalogs cache)).*2 c1) as (c2 & Hr & Ha & Hn & Hcu & Hc2).
  { done. } { by apply manifest_ids_nodup. }
  { intros c ([i x1] & -> & H1)%list_elem_of_fmap. apply elem_of_map_to_list in H1. cbn.
    destruct (core_catalogs _ Hc _ _ H1) as (_ & ? & ?). by rewrite Hcat, lookup_empty, Ho, Hadd. }
  exists c2. split_and!; [done| |congruence|done|done].
  apply map_eq. intros id. apply option_eq. intros c. rewrite Hc2, Hcat, lookup_empty. split.
  - intros [|[([i x1] & -> & H1)%list_elem_of_fmap <-]]; [done|]. apply elem_of_map_to_list in H1. cbn.
    by destruct (core_catalogs _ Hc _ _ H1) as [-> _].
  - intros H1. right. split; [|by apply (core_catalogs _ Hc)]. apply list_elem_of_fmap. exists (id, c). by rewrite elem_of_map_to_list.
Qed.

Lemma save_restore cache b : inv cache -> tight cache -> owner_key (owner cache) -> save cache = Ok b ->
  exists cache', restore (owner cache) (Some b) = Ok cache' /\ persisted cache cache'.
Proof.
  intros [Hc Hn] Ht (key & Hkey & Hlen) Hs. unfold save in Hs. Signed.result_steps Hs. injection Hs as ->. bool_props.
  destruct (to_json _) as [j|] eqn:Hj; [injection Hx as ->|done]. apply json_roundtrip in Hj.
  destruct (new (owner cache)) as [c0|] eqn:Hnew; [|unfold new in Hnew; rewrite Hkey in Hnew; cbn in Hnew; by rewrite Hlen in Hnew].
  destruct (new_inv _ _ Hnew) as (_ & _ & Hadd & _).
  destruct (reload_addresses cache c0 Hc Ht Hadd) as (used & Hr & Hall).
  assert (Hbl : len (btree_addresses cache) <= MAX_CACHED_SERVICES).
  { unfold btree_addresses, len. rewrite sort_perm, length_map_to_list. apply (core_services _ Hc). }
  destruct (restored_addresses_inv _ _ _ _ _ _ Hnew Hr Hbl Hall) as (Hi1 & Ho1 & Hrec1).
  destruct (reload_catalogs cache _ Hc Hi1) as (c2 & Hr2 & Hc2 & Ha2 & Hn2 & Hcu2); [done| |done|].
  { unfold new in Hnew. Signed.result_steps Hnew. by injection Hnew as <-. }
  destruct (restore_catalogs_inv _ _ _ Hi1 Hr2) as (Hi2 & Ho2 & Hrec2). exists c2. split.
  - unfold restore. cbv zeta. rewrite take_ge by (unfold len in *; lia).
    rewrite (proj2 (Z.leb_le _ _)) by done. rewrite Hj. cbn [ok_or]. rewrite Signed.bind_eq. cbn [snapshot_of snapshot_owner snapshot_addresses snapshot_catalogs snapshot_next].
    rewrite bool_decide_true, !(proj2 (Z.leb_le _ _)) by (done || by apply catalogs_bounded). cbn [andb].
    rewrite Hnew, Signed.bind_eq, Hr, Signed.bind_eq. cbn [next_address set_next_address].
    by rewrite (proj2 (Z.ltb_lt _ _)), (proj2 (Z.leb_le _ _)) by lia.
  - split; try done; [by rewrite Ho2| |by rewrite Hrec2|].
    + by apply names_determined; [apply Hi2|..].
    + rewrite Hcu2. cbn. unfold new in Hnew. Signed.result_steps Hnew. by injection Hnew as <-.
Qed.

(** ** Runs *)

(** What happens to a sidecar's cache and its state file: the operations, a
    save, and a start from what the file holds. *)
Inductive Op :=
| Authorize (c : ServiceCatalog)
| Admit (r : ReplicaServiceRecord) (now : Z)
| Merge (r : ReplicaServiceRecord) (now : Z)
| Replace (c : ServiceCatalog)
| Seed (r : ReplicaServiceRecord) (now : Z)
| Candidates (key : ServiceKey) (now : Z) (exclude : option bytes)
| Save
| Restart.

Definition apply_op (w : ServiceCache * option bytes) (op : Op) : ServiceCache * option bytes :=
  let (cache, file) := w in
  match op with
  | Authorize c => ((authorize_catalog c cache).1, file)
  | Admit r now => ((admit_record r now cache).1, file)
  | Merge r now => ((merge r now cache).1, file)
  | Replace c => ((replace_catalog c cache).1, file)
  | Seed r now => ((seed r now cache).1, file)
  | Candidates key now ex => ((candidates key now ex cache).1, file)
  | Save => match save cache with Ok b => (cache, Some b) | Err _ => w end
  | Restart => match restore (owner cache) file with Ok cache => (cache, file) | Err _ => w end
  end.

Definition run (ops : list Op) (w : ServiceCache * option bytes) : ServiceCache * option bytes := fold_left apply_op ops w.

(** The operations keep the addresses they find and count the new ones. *)
Record keeps (cache cache' : ServiceCache) : Prop := {
  keeps_owner : owner cache' = owner cache;
  keeps_addresses : addresses cache ⊆ addresses cache';
  keeps_tight : tight cache -> tight cache'
}.

Lemma keeps_refl cache : keeps cache cache. Proof. by split. Qed.
Lemma keeps_trans c1 c2 c3 : keeps c1 c2 -> keeps c2 c3 -> keeps c1 c3.
Proof. intros [] []. split; [congruence|by etrans|auto]. Qed.

Lemma grown_keeps cache c cache' : grown cache c cache' -> keeps cache cache'.
Proof. intros []. split; [done..|]. unfold tight. lia. Qed.

Lemma authorize_keeps c cache : core cache -> keeps cache (authorize_catalog c cache).1.
Proof. intros Hc. destruct (authorize_cases c cache Hc) as [[r ->]|(c' & -> & Hg & _)]; [apply keeps_refl|by eapply grown_keeps]. Qed.

Lemma admit_keeps r now older cache : keeps cache (admit_inner r now older cache).1.
Proof. by destruct (admit_cases r now older cache) as [(? & -> & _)|(-> & _)]. Qed.

Lemma replace_keeps c cache : inv cache -> keeps cache (replace_catalog c cache).1.
Proof.
  intros Hi. destruct (replace_cases c cache Hi) as [[r ->]|(c0 & c' & -> & Hg & _ & Hc0)]; [apply keeps_refl|].
  eapply keeps_trans; [|by eapply grown_keeps]. by destruct Hc0 as [->| ->].
Qed.

Lemma seed_keeps r now cache : inv cache -> keeps cache (seed r now cache).1.
Proof.
  intros Hi. unfold seed. destruct (verify_record _ _ _); [|apply keeps_refl].
  pose proof (replace_keeps (catalog r) cache Hi) as Hr. destruct (replace_catalog _ _) as [cache' [[]|]]; [|done]. cbn in Hr.
  set (differs := match records cache' !! slot_of r with Some _ => _ | None => _ end).
  set (cache2 := if differs then _ else _).
  assert (H2 : keeps cache cache2) by (eapply keeps_trans; [done|]; subst cache2; by destruct differs).
  pose proof (admit_keeps r now false cache2) as Ha. unfold admit_record.
  destruct (admit_inner r now false cache2) as [c3 [?|?]]; by eapply keeps_trans.
Qed.

Lemma candidates_keeps key now ex cache : keeps cache (candidates key now ex cache).1.
Proof. unfold candidates. by case_bool_decide. Qed.

Lemma apply_op_keeps op w : inv w.1 -> op <> Restart -> keeps w.1 (apply_op w op).1 /\ inv (apply_op w op).1.
Proof.
  destruct w as [cache file]. cbn. intros Hi Hop.
  destruct op; cbn; try done; eauto using admit_keeps, admit_inv, replace_keeps, replace_inv, seed_keeps, seed_inv,
    candidates_keeps, candidates_inv.
  - split; [apply authorize_keeps, Hi|]. destruct (authorize_cases c cache) as [[r ->]|(c' & -> & _ & ? & _)]; [apply Hi|done..].
  - destruct (save cache); split; done || apply keeps_refl.
Qed.

Lemma apply_op_inv op w : inv w.1 -> inv (apply_op w op).1.
Proof.
  intros Hi. destruct op; try by apply apply_op_keeps. destruct w as [cache file]. cbn.
  destruct (restore _ _) eqn:E; [|done]. by apply restore_inv in E as [? _].
Qed.

Lemma cache_run_inv ops w : inv w.1 -> inv (run ops w).1.
Proof. unfold run. revert w. induction ops as [|op ops IH]; intros w Hi; [done|]. by apply IH, apply_op_inv. Qed.

(** A file written by this cache or by an earlier state of it, that has the
    addresses [kept]. *)
Definition file_ok (kept : gmap ServiceKey Z) (w : ServiceCache * option bytes) : Prop :=
  match w.2 with
  | Some b => exists c0, inv c0 /\ tight c0 /\ owner c0 = owner w.1 /\ save c0 = Ok b /\
                kept ⊆ addresses c0 /\ addresses c0 ⊆ addresses w.1
  | None => kept = ∅
  end.

Definition own_world (kept : gmap ServiceKey Z) (w : ServiceCache * option bytes) : Prop :=
  inv w.1 /\ tight w.1 /\ owner_key (owner w.1) /\ file_ok kept w.

Lemma own_world_new o cache : new o = Ok cache -> own_world ∅ (cache, None).
Proof.
  intros Hn. destruct (new_inv _ _ Hn) as (Hi & _ & _ & Ho). unfold new in Hn. Signed.result_steps Hn. bool_props.
  split_and!; [done|by injection Hn as <-|cbn; rewrite Ho; by eexists|done].
Qed.

Lemma own_world_keeps kept cache file cache' : own_world kept (cache, file) -> keeps cache cache' -> inv cache' ->
  own_world kept (cache', file).
Proof.
  intros (_ & Ht & Ho & Hf) [Hko Hka Hkt] Hi. unfold own_world, file_ok in *. cbn in *. rewrite Hko. split_and!; auto.
  destruct file as [b|]; [|done]. destruct Hf as (c0 & ? & ? & ? & ? & ? & ?). exists c0. split_and!; [done..|by etrans].
Qed.

Lemma own_world_save kept cache file b : own_world kept (cache, file) -> save cache = Ok b ->
  own_world (addresses cache) (cache, Some b).
Proof. intros (Hi & Ht & Ho & _) Hs. split_and!; [done..|]. exists cache. done. Qed.

Lemma own_world_weaken kept kept' w : own_world kept w -> kept' ⊆ kept -> own_world kept' w.
Proof.
  intros (Hi & Ht & Ho & Hf) Hk. split_and!; [done..|]. unfold file_ok in *. destruct (w.2) as [b|].
  - destruct Hf as (c0 & ? & ? & ? & ? & ? & ?). exists c0. split_and!; [done..|by etrans|done].
  - subst. apply map_empty. intros k. destruct (kept' !! k) eqn:E; [|done]. by apply (lookup_weaken _ ∅) in E.
Qed.

Lemma own_world_kept kept w : own_world kept w -> kept ⊆ addresses w.1.
Proof.
  intros (_ & _ & _ & Hf). unfold file_ok in Hf. destruct (w.2) as [b|]; [|subst; apply map_empty_subseteq].
  destruct Hf as (c0 & _ & _ & _ & _ & ? & ?). by etrans.
Qed.

Lemma own_world_step kept op w : own_world kept w -> own_world kept (apply_op w op).
Proof.
  intros Hw. pose proof Hw as (Hi & Ht & Ho & Hf). destruct w as [cache file].
  pose proof (apply_op_keeps op (cache, file) Hi) as Hk.
  destruct op; try (destruct Hk as [Hk1 Hk2]; [discriminate|]; exact (own_world_keeps _ _ _ _ Hw Hk1 Hk2)); clear Hk.
  - cbn [apply_op]. destruct (save cache) as [b|] eqn:E; [|exact Hw].
    eapply own_world_weaken; [by eapply own_world_save|by apply (own_world_kept _ _ Hw)].
  - destruct file as [b|].
    + unfold file_ok in Hf. cbn [fst snd apply_op] in *. destruct Hf as (c0 & Hi0 & Ht0 & Ho0 & Hs0 & Hk & _). rewrite <- Ho0 in Ho.
      destruct (save_restore c0 b Hi0 Ht0 Ho Hs0) as (c1 & Hr & Hp). rewrite <- Ho0, Hr. destruct Hp.
      split_and!; cbn.
      * by apply restore_inv in Hr as [? _].
      * unfold tight in *. congruence.
      * congruence.
      * exists c0. split_and!; [done|done|by rewrite persisted_owner0|done|done|by rewrite persisted_addresses0].
    + cbn [apply_op restore]. destruct (new (owner cache)) as [c1|] eqn:E; [|exact Hw]. unfold file_ok in Hf. cbn in Hf. subst kept.
      by eapply own_world_new.
Qed.

Lemma own_world_run kept ops w : own_world kept w -> own_world kept (run ops w).
Proof. unfold run. revert w. induction ops as [|op ops IH]; intros w Hw; [done|]. by apply IH, own_world_step. Qed.

(** ** What the cache promises *)
Lemma apply_op_owner op w : inv w.1 -> owner (apply_op w op).1 = owner w.1.
Proof.
  intros Hi. destruct op; try by apply apply_op_keeps. destruct w as [cache file]. cbn.
  destruct (restore _ _) eqn:E; [|done]. by apply restore_inv in E as (_ & ? & _).
Qed.

Lemma run_owner ops w : inv w.1 -> owner (run ops w).1 = owner w.1.
Proof.
  unfold run. revert w. induction ops as [|op ops IH]; intros w Hi; [done|]. cbn.
  rewrite IH by by apply apply_op_inv. by apply apply_op_owner.
Qed.

Lemma find_unique {A} (f : A -> bool) (l : list A) x :
  x ∈ l -> f x = true -> (forall y, y ∈ l -> f y = true -> y = x) -> List.find f l = Some x.
Proof.
  intros Hin Hf Hu. destruct (List.find f l) as [y|] eqn:E.
  - apply find_some in E as [Hy Hfy]. f_equal. apply Hu; [|done]. by apply list_elem_of_In.
  - apply find_none with (x := x) in E; [congruence|]. by apply list_elem_of_In.
Qed.

Lemma service_for_address_spec cache k a : core cache ->
  service_for_address cache a = Some k <-> addresses cache !! k = Some a.
Proof.
  intros Hc. unfold service_for_address. split.
  - destruct (List.find _ _) as [[k' a']|] eqn:E; [|done]. cbn. intros [= ->].
    apply find_some in E as [Hin Heq]. apply list_elem_of_In, elem_of_btree in Hin. cbn in Heq. bool_props. by subst.
  - intros Hk. rewrite (find_unique _ _ (k, a)); [done|by apply elem_of_btree|by apply Z.eqb_refl|].
    intros [k' a'] Hin%elem_of_btree Heq. cbn in Heq. bool_props. subst. f_equal. by eapply (vip_inj _ _ _ (core_allocated _ Hc)).
Qed.

Lemma elem_of_eligible cache key now r :
  r ∈ eligible cache key now <-> (exists slot, records cache !! slot = Some r) /\ is_eligible key now r = true.
Proof.
  unfold eligible, btree_records. rewrite elem_of_list_retain, list_elem_of_fmap. split.
  - intros [([slot r'] & -> & Hin) He]. rewrite sort_perm in Hin. apply elem_of_map_to_list in Hin. eauto.
  - intros [[slot Hr] He]. split; [|done]. exists (slot, r). by rewrite sort_perm, elem_of_map_to_list.
Qed.

(** C17. Whatever state file a sidecar starts from and whatever is done with its
    service cache afterwards, every catalog in it is signed by the owner and
    filed under its workload, every lease was verified for the owner, is filed
    under its replica and belongs to the catalog authorised for it, no two
    services share a virtual address, all of them are above 198.18.0.0 and
    below 198.19.0.0, and there are never more than 512 leases or 128 services. *)
Theorem cache_authorised o stored cache ops (c := (run ops (cache, stored)).1) :
  restore o stored = Ok cache ->
  (forall id cat, catalogs c !! id = Some cat -> catalog_manifest_id cat = id /\ verify_catalog cat o = Ok tt) /\
  (forall slot r, records c !! slot = Some r -> slot_of r = slot /\ catalogs c !! slot.1 = Some (catalog r) /\
     exists t, verify_record r o t = Ok tt) /\
  (forall k1 k2 a, addresses c !! k1 = Some a -> addresses c !! k2 = Some a -> k1 = k2) /\
  (forall k a, addresses c !! k = Some a -> from_octets 198 18 0 0 < a < from_octets 198 19 0 0) /\
  map_len (records c) <= MAX_CACHED_REPLICAS /\ map_len (addresses c) <= MAX_CACHED_SERVICES.
Proof.
  intros (Hi & Ho & _)%restore_inv. pose proof (cache_run_inv ops (cache, stored) Hi) as [Hc _].
  pose proof (run_owner ops (cache, stored) Hi) as Hro. cbn in Hro. fold c in Hc, Hro. rewrite Ho in Hro. split_and!.
  - intros id cat (? & Hv & _)%(core_catalogs _ Hc). by rewrite Hro in Hv.
  - intros slot r Hr%(core_records _ Hc). unfold record_held in Hr. by rewrite Hro in Hr.
  - apply (core_allocated _ Hc).
  - intros k a Ha%(vip_range _ _ _ (core_allocated _ Hc)). rewrite (core_base _ Hc) in Ha.
    destruct (core_next _ Hc). pose proof (core_services _ Hc). unfold from_octets, MAX_CACHED_SERVICES in *. lia.
  - apply Hc.
  - apply Hc.
Qed.

(** After any run the names a sidecar resolves are those of its catalogs
    alone, in whatever order they came: a short name stands for a service if no
    other service claims it, and any other name for the service whose canonical
    name it is. *)
Theorem names_from_catalogs o stored cache ops n k (c := (run ops (cache, stored)).1) :
  restore o stored = Ok cache -> names c !! n = Some k <-> resolves (catalogs c) n k.
Proof. intros (Hi & _)%restore_inv. by apply (cache_run_inv ops (cache, stored) Hi). Qed.

(** Once a service's virtual address is in the saved state, the service
    keeps it: through every later operation, save and restart the address is
    the service's, leads back to it, and lies in 198.18.0.1 to 198.18.0.128. *)
Theorem saved_address_kept o cache ops later b k a (c := (run ops (cache, None)).1) (c' := (run later (c, Some b)).1) :
  new o = Ok cache -> save c = Ok b -> addresses c !! k = Some a ->
  addresses c' !! k = Some a /\ service_for_address c' a = Some k /\
  from_octets 198 18 0 1 <= a <= from_octets 198 18 0 128.
Proof.
  intros Hn Hs Ha. pose proof (own_world_run _ ops _ (own_world_new _ _ Hn)) as Hw. subst c.
  destruct (run ops (cache, None)) as [c file]. cbn [fst] in *.
  pose proof (own_world_run _ later _ (own_world_save _ _ _ _ Hw Hs)) as Hw'.
  pose proof (own_world_kept _ _ Hw') as Hsub. fold c' in Hsub. destruct Hw' as ([Hc _] & Ht & _). fold c' in Hc, Ht.
  pose proof (lookup_weaken _ _ _ _ Ha Hsub) as Ha'. split_and!; [done|by apply service_for_address_spec|..];
    apply (vip_range _ _ _ (core_allocated _ Hc)) in Ha'; rewrite (core_base _ Hc) in Ha';
    pose proof (core_services _ Hc); unfold tight, from_octets, MAX_CACHED_SERVICES in *; lia.
Qed.

(** A sidecar that saved its cache can restart from the file: restoring
    succeeds, and gives back the catalogs, the virtual addresses, the allocator
    and every name; the leases, which are soft state, are gone. *)
Theorem restart_faithful o cache ops b (c := (run ops (cache, None)).1) :
  new o = Ok cache -> save c = Ok b -> exists c', restore o (Some b) = Ok c' /\ persisted c c'.
Proof.
  intros Hn Hs. pose proof (own_world_run _ ops _ (own_world_new _ _ Hn)) as (Hi & Ht & Ho & _).
  destruct (new_inv _ _ Hn) as (Hi0 & _ & _ & Hown). pose proof (run_owner ops (cache, None) Hi0) as Hro. cbn in Hro.
  rewrite <- Hown, <- Hro. by apply save_restore.
Qed.

(** *** Answers *)
Lemma is_eligible_true key now r : is_eligible key now r = true ->
  catalog_manifest_id (catalog r) = key_manifest_id key /\ now < record_expires_at_secs r /\
  now <= EndpointRecord.expires_at_secs (endpoint r) /\ Workload.verify_identity (credential r) (Some now) = Ok tt.
Proof.
  unfold is_eligible. intros He. bool_props. split_and!; try done.
  by destruct (Workload.verify_identity _ _) as [[]|].
Qed.

(** An answer of the local resolver is backed: the name stands for the
    service it gives, the address is the service's own and leads back to it, and
    a verified lease of the service's workload is open, whose identity and
    address record are valid now; the answer lives between one and five seconds
    and not longer than any of the leases behind it. *)
Definition backed (c : ServiceCache) (o name : string) (now : Z) (a : ServiceAnswer) : Prop :=
  resolves (catalogs c) (absolute_name name) (answer_key a) /\
  addresses c !! answer_key a = Some (answer_address a) /\
  service_for_address c (answer_address a) = Some (answer_key a) /\
  1 <= ttl a <= 5 /\
  (exists slot r, records c !! slot = Some r /\ is_eligible (answer_key a) now r = true /\
     exists t, verify_record r o t = Ok tt) /\
  (forall slot r, records c !! slot = Some r -> is_eligible (answer_key a) now r = true ->
     now + ttl a <= record_expires_at_secs r).

Lemma lookup_backed c name now a : inv c -> lookup c name now = Some a -> backed c (owner c) name now a.
Proof.
  intros [Hc Hn] Hl.
  unfold lookup in Hl. destruct (names c !! absolute_name name) as [k|] eqn:Hk; [|done]. cbn in Hl.
  destruct (min_by Z.compare _) as [e|] eqn:He; [|done]. cbn in Hl.
  destruct (addresses c !! k) as [ad|] eqn:Had; [|done]. injection Hl as <-. unfold backed. cbn [answer_key answer_address ttl].
  apply (min_by_spec Z.compare) in He as [Hin Hmin].
  apply list_elem_of_fmap in Hin as (r & -> & Hr). apply elem_of_eligible in Hr as [[slot Hr] Hel].
  pose proof (is_eligible_true _ _ _ Hel) as (_ & Hexp & _). unfold saturating_sub.
  split_and!; [by apply Hn|done|by apply service_for_address_spec|lia|lia| |].
  - exists slot, r. split_and!; [done..|]. destruct (core_records _ Hc _ _ Hr) as (_ & _ & t & Hv). eauto.
  - intros slot' r' Hr' Hel'. assert (Hle : cmp_le Z.compare (record_expires_at_secs r) (record_expires_at_secs r')).
    { apply Hmin, list_elem_of_fmap_2, elem_of_eligible. eauto. }
    change (record_expires_at_secs r <= record_expires_at_secs r') in Hle. lia.
Qed.

(** Every answer of the local resolver is backed, whatever the cache went
    through. *)
Theorem lookup_sound o stored cache ops name now a (c := (run ops (cache, stored)).1) :
  restore o stored = Ok cache -> lookup c name now = Some a -> backed c o name now a.
Proof.
  intros (Hi & Ho & _)%restore_inv Hl. pose proof (cache_run_inv ops (cache, stored) Hi) as Hc.
  pose proof (run_owner ops (cache, stored) Hi) as Hro. cbn in Hro. fold c in Hc, Hro. rewrite <- Ho, <- Hro. by apply lookup_backed.
Qed.

(** *** Rotation *)
Definition backends (cache : ServiceCache) (key : ServiceKey) (now : Z) (exclude : option bytes) : list ReplicaServiceRecord :=
  list_retain (fun r => negb (bool_decide (exclude = Some (EndpointRecord.endpoint_id (endpoint r))))) (eligible cache key now).

(** The [i]-th of successive calls. *)
Fixpoint nth_candidates (i : nat) (key : ServiceKey) (now : Z) (exclude : option bytes) (cache : ServiceCache) : list ReplicaServiceRecord :=
  match i with
  | O => (candidates key now exclude cache).2
  | S i => nth_candidates i key now exclude (candidates key now exclude cache).1
  end.

Definition cursor_of (cache : ServiceCache) (key : ServiceKey) : Z := default 0 (cursors cache !! key).

Definition rotated {A} (cursor : Z) (l : list A) : list A :=
  drop (Z.to_nat (cursor mod len l)) l ++ take (Z.to_nat (cursor mod len l)) l.

Lemma candidates_eq key now ex cache (l := backends cache key now ex) : l <> [] ->
  candidates key now ex cache =
    (set_cursors (<[key := (cursor_of cache key + 1) mod 2 ^ 64]> (cursors cache)) cache, rotated (cursor_of cache key) l).
Proof. intros Hl. unfold candidates. fold (backends cache key now ex). fold l. by rewrite bool_decide_eq_false_2. Qed.

Lemma nth_candidates_eq i key now ex cache : backends cache key now ex <> [] ->
  0 <= cursor_of cache key -> cursor_of cache key + Z.of_nat i < 2 ^ 64 ->
  nth_candidates i key now ex cache = rotated (cursor_of cache key + Z.of_nat i) (backends cache key now ex).
Proof.
  revert cache. induction i as [|i IH]; intros cache Hne H0 Hi; cbn [nth_candidates]; rewrite candidates_eq by done; cbn [fst snd].
  { by rewrite Z.add_0_r. }
  assert (Hcur : cursor_of (set_cursors (<[key := (cursor_of cache key + 1) mod 2 ^ 64]> (cursors cache)) cache) key =
    cursor_of cache key + 1).
  { unfold cursor_of at 1. cbn [cursors set_cursors]. rewrite lookup_insert_eq. cbn [default]. apply Z.mod_small. lia. }
  rewrite IH; rewrite ?Hcur; [|done|lia|lia]. f_equal. lia.
Qed.

Lemma rotated_lookup {A} cursor (l : list A) i : 0 <= cursor -> (i < length l)%nat ->
  rotated cursor l !! i = l !! Z.to_nat ((cursor + Z.of_nat i) mod len l).
Proof.
  intros Hc Hi. unfold rotated, len. set (n := Z.of_nat (length l)). assert (Hn : 0 < n) by (subst n; lia).
  pose proof (Z.mod_pos_bound cursor n Hn). set (j := cursor mod n) in *.
  assert (Hj : (cursor + Z.of_nat i) mod n = (j + Z.of_nat i) mod n) by (subst j; by rewrite Zplus_mod_idemp_l).
  rewrite Hj. destruct (decide (j + Z.of_nat i < n)) as [Hlt|Hge].
  - rewrite lookup_app_l by (rewrite length_drop; lia). rewrite lookup_drop, Z.mod_small by lia. f_equal. lia.
  - replace ((j + Z.of_nat i) mod n) with (j + Z.of_nat i - n) by (apply (Z.mod_unique _ _ 1); lia).
    rewrite lookup_app_r by (rewrite length_drop; lia). rewrite length_drop, lookup_take_lt by lia. f_equal. lia.
Qed.

Lemma rotated_perm {A} cursor (l : list A) : rotated cursor l ≡ₚ l.
Proof. unfold rotated. rewrite Permutation_app_comm. by rewrite take_drop. Qed.

(** Callers are spread evenly: every call offers all live backends of the
    service, and over as many calls as there are backends, each one is offered
    first exactly once, in the order the first call listed them. *)
Theorem candidates_fair cache key now ex i (l := backends cache key now ex) :
  0 <= cursor_of cache key -> cursor_of cache key + len l <= 2 ^ 64 -> (i < length l)%nat ->
  head (nth_candidates i key now ex cache) = (candidates key now ex cache).2 !! i /\
  nth_candidates i key now ex cache ≡ₚ l.
Proof.
  intros H0 Hmax Hi. assert (Hne : l <> []) by (intros E; rewrite E in Hi; cbn in Hi; lia).
  rewrite nth_candidates_eq, candidates_eq by (done || (unfold len in *; lia)). fold l. cbn [snd].
  split; [|apply rotated_perm].
  rewrite head_lookup, !rotated_lookup by lia. by rewrite Z.add_0_r.
Qed.

(** *** Sequences *)
Definition succeeds (old r : ReplicaServiceRecord) : Prop :=
  Workload.delegation (credential r) = Workload.delegation (credential old) /\
  EndpointRecord.endpoint_id (endpoint r) = EndpointRecord.endpoint_id (endpoint old) /\
  EndpointRecord.signing_pubkey (endpoint r) = EndpointRecord.signing_pubkey (endpoint old) /\
  (r = old \/ sequence old < sequence r /\ record_issued_at_secs old <= record_issued_at_secs r).

Lemma succeeds_trans r1 r2 r3 : succeeds r1 r2 -> succeeds r2 r3 -> succeeds r1 r3.
Proof.
  unfold succeeds. intros (? & ? & ? & S1) (? & ? & ? & S2).
  split_and!; try congruence. destruct S1 as [->|?], S2 as [->|?]; auto; right; lia.
Qed.

Lemma check_successor_ok old r older : check_successor old r older = Ok true -> succeeds old r.
Proof.
  unfold check_successor. intros Hc. destruct (_ && _) eqn:E; [|done]. bool_props.
  destruct (sequence r <? sequence old) eqn:E1; [destruct older; done|].
  destruct (sequence r =? sequence old) eqn:E2; [case_bool_decide; done|].
  destruct (_ <=? _) eqn:E3 in Hc; [|done]. bool_props. split_and!; [done..|]. right. lia.
Qed.

(** The operations that peers can cause. *)
Definition by_peers (op : Op) : bool := match op with Replace _ | Seed _ _ | Restart => false | _ => true end.

Lemma peers_step op w slot r : inv w.1 -> by_peers op = true -> records w.1 !! slot = Some r ->
  exists r', records (apply_op w op).1 !! slot = Some r' /\ succeeds r r'.
Proof.
  destruct w as [cache file]. cbn [fst]. intros Hi Hop Hr.
  assert (Hsame : succeeds r r) by (unfold succeeds; auto).
  assert (Hadmit : forall r1 now older, exists r', records (admit_inner r1 now older cache).1 !! slot = Some r' /\ succeeds r r').
  { intros r1 now older. destruct (admit_cases r1 now older cache) as [(? & -> & _)|(-> & _ & _ & Hslot)]; [eauto|]. cbn.
    destruct (decide (slot_of r1 = slot)) as [<-|]; [|rewrite lookup_insert_ne by done; eauto].
    rewrite Hr in Hslot. rewrite lookup_insert_eq. eauto using check_successor_ok. }
  destruct op; try done; cbn [apply_op fst]; eauto.
  - destruct (authorize_cases c cache) as [[x ->]|(c' & -> & Hg & _)]; [apply Hi|eauto|]. cbn. rewrite (grown_records _ _ _ Hg). eauto.
  - unfold candidates. case_bool_decide; eauto.
  - destruct (save cache); eauto.
Qed.

(** C37. Nothing a peer can cause takes a lease back: whatever catalogs and
    records are synchronised, in whatever order and however often, the lease of
    a replica stays or is followed by one of the same enrolment, endpoint and
    application key with a larger sequence number and no earlier issue time. *)
Theorem peers_never_regress o stored cache before ops slot r (c := run before (cache, stored)) :
  restore o stored = Ok cache -> forallb by_peers ops = true -> records c.1 !! slot = Some r ->
  exists r', records (run ops c).1 !! slot = Some r' /\ succeeds r r'.
Proof.
  intros (Hi & _)%restore_inv Hops Hr. pose proof (cache_run_inv before (cache, stored) Hi) as Hc. fold c in Hc. clearbody c. clear Hi.
  revert c r Hc Hr Hops. induction ops as [|op ops IH]; intros w r Hc Hr Hops;
    [exists r; split; [done|unfold succeeds; auto]|].
  cbn [forallb] in Hops. apply andb_true_iff in Hops as [Hop Hops]. destruct (peers_step op w slot r Hc Hop Hr) as (r1 & H1 & S1).
  destruct (IH (apply_op w op) r1) as (r2 & H2 & S2); [by apply apply_op_inv|done..|]. exists r2. split; [done|by eapply succeeds_trans].
Qed.
End Safety.
End CacheSafety.
