(* ===== verification/ServiceCacheSample.v ===== *)
(** * A service cache at work

    An owner with two workloads, "web" and "api", that both offer a service
    called "front".  The theorems of ServiceCacheSafety.v apply to this run. *)

From S2P Require Import Prelude Net Text Crypto Signed RustOrd EndpointRecord Registration Biscuit WorkloadIdentity AgentIds ServiceDiscovery ServiceCache ServiceNames ServiceCacheSafety.
From Stdlib Require Import Ascii.

Module CacheSample.
Import Crypto Net Text Discovery Cache ServiceNames CacheSafety.
Import Crypto.Toy.
Import EndpointRecord (EndpointRecord).
#[local] Existing Instances prims laws Biscuit.Toy.biscuit Workload.identity_eq_dec Workload.delegation_eq_dec.

(** A digest and a base 32 that tell these inputs apart. *)
#[local] Instance blake3 : Blake3 :=
  {| blake3_hex b := of_chars (replicate 64 (hex_digit (byte_to_Z (default Byte.x00 (last b)) mod 16))) |}.

#[local] Instance blake3_shape : Blake3Hex blake3.
Proof.
  split; intros b; cbn [blake3_hex blake3].
  - unfold str_len, of_chars. f_equal.
  - unfold all_char. fold (chars_of (of_chars (replicate 64 (hex_digit (byte_to_Z (default Byte.x00 (last b)) mod 16))))).
    rewrite chars_of_of_chars. apply forallb_forall. intros c Hc%list_elem_of_In.
    apply elem_of_replicate in Hc as [-> _]. generalize (default Byte.x00 (last b)). intros x. by destruct x.
Qed.

Definition letter (n : Z) : ascii := ascii_of_nat (Z.to_nat (65 + n)).
#[local] Instance base32 : Base32 :=
  {| base32_nopad b := of_chars (flat_map (fun x => [letter (byte_to_Z x / 16); letter (byte_to_Z x mod 16)]) b) |}.

Lemma letters_inj x y : letter (byte_to_Z x / 16) = letter (byte_to_Z y / 16) ->
  letter (byte_to_Z x mod 16) = letter (byte_to_Z y mod 16) -> x = y.
Proof.
  assert (Hl : forall m n, 0 <= m < 16 -> 0 <= n < 16 -> letter m = letter n -> m = n).
  { intros m n Hm Hn Heq. apply (f_equal nat_of_ascii) in Heq. unfold letter in Heq.
    rewrite !nat_ascii_embedding in Heq by lia. lia. }
  pose proof (byte_to_Z_range x). pose proof (byte_to_Z_range y). intros H1 H2.
  apply Hl in H1; [|Z.to_euclidean_division_equations; lia..]. apply Hl in H2; [|Z.to_euclidean_division_equations; lia..].
  apply byte_to_Z_inj. Z.to_euclidean_division_equations. lia.
Qed.

#[local] Instance base32_laws : Base32Laws base32.
Proof.
  split.
  - intros a b Heq. apply (f_equal chars_of) in Heq. cbn [base32_nopad base32] in Heq. rewrite !chars_of_of_chars in Heq.
    revert b Heq. induction a as [|x a IH]; intros [|y b]; cbn [flat_map app]; intros Heq; try discriminate; [done|].
    injection Heq as H1 H2 H3. f_equal; [by apply letters_inj|auto].
  - intros b. cbn [base32_nopad base32]. unfold all_char. rewrite chars_of_of_chars.
    induction b as [|x b IH]; [done|]. cbn [flat_map app forallb]. rewrite IH. by destruct x.
Qed.

(** ** The owner's catalogs *)
Definition owner_secret : bytes := sample_key 3.
Definition tenant : string := b64_encode owner_secret.

Definition unsigned_catalog (workload : string) : ServiceCatalog := {|
  catalog_version := 1; catalog_owner := tenant; catalog_workload_name := workload;
  catalog_manifest_id := Registration.route_id owner_secret workload;
  catalog_revision_id := of_chars (replicate 64 "c"%char);
  services := [{| service_name := "front"; ports := [{| Discovery.port := 80; Discovery.target_port := 8080 |}] |}];
  catalog_signature := "" |}.
Definition signed_catalog (workload : string) (place : Z) : ServiceCatalog :=
  set_catalog_signature (b64_encode (ed_sign owner_secret (bind Crypto.ServiceCatalog [byte_of_Z place]))) (unsigned_catalog workload).
Definition web : ServiceCatalog := signed_catalog "web" 0.
Definition api : ServiceCatalog := signed_catalog "api" 1.

#[local] Instance catalog_codec : Postcard ServiceCatalog :=
  Signed.Table.codec [unsigned_catalog "web"; unsigned_catalog "api"; web; api].

(** ** The replicas of "web" *)
Definition delegation : Workload.EnrollmentDelegation := {|
  Workload.delegation_version := 1;
  Workload.scope := {|
    Workload.tenant_owner := tenant; Workload.scope_manifest_id := catalog_manifest_id web;
    Workload.workload_id := AgentIds.workload_id owner_secret "web" 0; Workload.revision_id := catalog_revision_id web;
    Workload.issuer_public_key_b64 := b64_encode (sample_key 4); Workload.token_id := "gen-1";
    Workload.scope_issued_at_secs := 1000; Workload.scope_expires_at_secs := Some 3000;
    Workload.max_child_lifetime_secs := 1800 |};
  Workload.delegation_biscuit_b64 := b64_encode owner_secret |}.

Definition identity (replica : Z) : Workload.WorkloadIdentity := {|
  Workload.identity_version := 1; Workload.delegation := delegation;
  Workload.claims := {|
    Workload.delegation_digest := blake3_hex [Byte.x00]; Workload.claim_endpoint_id := hex_lower (sample_key (7 + replica));
    Workload.signing_public_key_b64 := b64_encode (sample_key 5);
    Workload.claims_issued_at_secs := 1100; Workload.claims_expires_at_secs := 2900 |};
  Workload.identity_biscuit_b64 := b64_encode (sample_key 4) |}.

Definition unsigned_endpoint (replica : Z) : EndpointRecord := {|
  EndpointRecord.version := 1; EndpointRecord.endpoint_id := sample_key (7 + replica);
  EndpointRecord.relay_url := Some "https://relay.example"; EndpointRecord.direct_addresses := [];
  EndpointRecord.signing_pubkey := b64_encode (sample_key 5);
  EndpointRecord.issued_at_secs := 2000; EndpointRecord.expires_at_secs := 2120; EndpointRecord.signature := "" |}.
Definition endpoint_of (replica : Z) : EndpointRecord :=
  EndpointRecord.set_signature
    (b64_encode (ed_sign (sample_key 5) (bind Crypto.EndpointRecord [byte_of_Z replica]))) (unsigned_endpoint replica).

Definition unsigned_record (replica : Z) (sequence : Z) : ReplicaServiceRecord := {|
  record_version := 1; catalog := web; credential := identity replica; endpoint := endpoint_of replica;
  record_replica_index := replica; sequence := sequence; record_issued_at_secs := 2000;
  record_expires_at_secs := 2000 + 50 * sequence; record_signature := "" |}.
Definition unsigned_records : list ReplicaServiceRecord := [unsigned_record 0 1; unsigned_record 0 2; unsigned_record 1 1].
Definition signed_record (replica sequence place : Z) : ReplicaServiceRecord :=
  set_record_signature (b64_encode (ed_sign (sample_key 5) (bind Crypto.ReplicaServiceRecord [byte_of_Z place])))
    (unsigned_record replica sequence).
Definition first : ReplicaServiceRecord := signed_record 0 1 0.
Definition second : ReplicaServiceRecord := signed_record 0 2 1.
Definition sibling : ReplicaServiceRecord := signed_record 1 1 2.

#[local] Instance endpoint_codec : Postcard EndpointRecord := Signed.Table.codec [unsigned_endpoint 0; unsigned_endpoint 1].
#[local] Instance record_codec : Postcard ReplicaServiceRecord := Signed.Table.codec unsigned_records.
#[local] Instance record_json : Json ReplicaServiceRecord := Workload.Sample.table_json [first; second; sibling].
#[local] Instance delegation_json : Json Workload.EnrollmentDelegation := Workload.Sample.table_json [delegation].
#[local] Instance identity_json : Json Workload.WorkloadIdentity := Workload.Sample.table_json [identity 0; identity 1].

Example samples_verify :
  verify_catalog web tenant = Ok tt /\ verify_catalog api tenant = Ok tt /\
  verify_record first tenant 2010 = Ok tt /\ verify_record second tenant 2010 = Ok tt /\
  verify_record sibling tenant 2010 = Ok tt.
Proof. vm_compute. done. Qed.

(** ** A run *)
Definition empty : ServiceCache := {|
  Cache.owner := tenant; catalogs := ∅; records := ∅; addresses := ∅; names := ∅; next_address := 1;
  address_base := from_octets 198 18 0 0; cursors := ∅ |}.

Definition seeded : ServiceCache :=
  (authorize_catalog api (merge sibling 2010 (seed first 2010 empty).1).1).1.

#[local] Instance Snapshot_eq_dec : EqDecision Snapshot.
Proof. solve_decision. Defined.
#[local] Instance snapshot_json : Json Snapshot := Workload.Sample.table_json [snapshot_of seeded].
#[local] Instance snapshot_json_laws : JsonLaws Snapshot snapshot_json.
Proof. intros a b. apply (Signed.Table.codec_laws [snapshot_of seeded]). Qed.

Definition history : list Op := [Seed first 2010; Merge sibling 2010; Authorize api].
Definition afterwards : list Op := [Save; Restart; Seed first 2020; Merge second 2020; Admit first 2020].

Definition web_front : ServiceKey := {| key_manifest_id := catalog_manifest_id web; key_name := "front" |}.
Definition api_front : ServiceKey := {| key_manifest_id := catalog_manifest_id api; key_name := "front" |}.

Lemma started : restore tenant None = Ok empty.
Proof. vm_compute. reflexivity. Qed.

Lemma saved : save (run history (empty, None)).1 = Ok [Byte.x00].
Proof. vm_compute. reflexivity. Qed.

(** Two services are called "front", so the name is nobody's; the names of the
    workloads lead to their services. *)
Example sample_names :
  names seeded !! "front." = None /\ names seeded !! "web." = Some web_front /\
  names seeded !! "api." = Some api_front /\ target_port seeded web_front 80 = Some 8080.
Proof. vm_compute. done. Qed.

Lemma cache_authorised_witness :
  records (run history (empty, None)).1 !! (catalog_manifest_id web, 0) = Some first /\
  exists t, verify_record first tenant t = Ok tt.
Proof.
  assert (Hr : records (run history (empty, None)).1 !! (catalog_manifest_id web, 0) = Some first)
    by (vm_compute; reflexivity).
  split; [exact Hr|].
  exact (proj2 (proj2 (proj1 (proj2 (cache_authorised tenant None empty history started)) _ _ Hr))).
Defined.

Lemma names_from_catalogs_witness :
  ~ resolves (catalogs (run history (empty, None)).1) "front." web_front /\
  resolves (catalogs (run history (empty, None)).1) "web." web_front.
Proof.
  split.
  - intros Hr. apply (proj2 (names_from_catalogs tenant None empty history "front." web_front started)) in Hr.
    vm_compute in Hr. discriminate.
  - apply (proj1 (names_from_catalogs tenant None empty history "web." web_front started)). vm_compute. reflexivity.
Defined.

Lemma saved_address_kept_witness :
  service_for_address (run afterwards ((run history (empty, None)).1, Some [Byte.x00])).1 (from_octets 198 18 0 2) = Some api_front.
Proof.
  refine (proj1 (proj2 (saved_address_kept tenant empty history afterwards [Byte.x00] api_front (from_octets 198 18 0 2) _ saved _)));
    vm_compute; reflexivity.
Defined.

Lemma restart_faithful_witness :
  exists c', restore tenant (Some [Byte.x00]) = Ok c' /\ persisted (run history (empty, None)).1 c'.
Proof. apply (restart_faithful tenant empty history); [vm_compute; reflexivity|exact saved]. Defined.

Lemma lookup_sound_witness :
  exists a, lookup (run history (empty, None)).1 "WEB" 2010 = Some a /\ answer_key a = web_front /\ 1 <= ttl a <= 5.
Proof.
  exists {| answer_key := web_front; answer_address := from_octets 198 18 0 1; ttl := 5 |}.
  assert (Hl : lookup (run history (empty, None)).1 "WEB" 2010 =
    Some {| answer_key := web_front; answer_address := from_octets 198 18 0 1; ttl := 5 |}) by (vm_compute; reflexivity).
  split; [exact Hl|split; [reflexivity|]].
  exact (proj1 (proj2 (proj2 (proj2 (lookup_sound tenant None empty history "WEB" 2010 _ started Hl))))).
Defined.

Lemma candidates_fair_witness :
  head (nth_candidates 1 web_front 2010 None seeded) = Some sibling /\
  nth_candidates 1 web_front 2010 None seeded ≡ₚ backends seeded web_front 2010 None.
Proof.
  destruct (candidates_fair seeded web_front 2010 None 1) as [Hh Hp];
    [vm_compute; discriminate|vm_compute; discriminate|vm_compute; repeat constructor|].
  split; [rewrite Hh; vm_compute; reflexivity|exact Hp].
Defined.

Lemma peers_never_regress_witness :
  exists r', records (run [Merge second 2020; Merge first 2020; Authorize web] (run history (empty, None))).1
               !! (catalog_manifest_id web, 0) = Some r' /\ succeeds first r'.
Proof.
  apply (peers_never_regress tenant None empty history [Merge second 2020; Merge first 2020; Authorize web]);
    [exact started|reflexivity|vm_compute; reflexivity].
Defined.
End CacheSample.
