(* ===== verification/WorkloadPayloads.v ===== *)
(** * Payloads of the workload plane (shared/protocol/src/http_proxy.rs, egress.rs,
      machine/messages.rs, proxy_endpoint_discovery.rs, peer_control.rs,
      sidecar_registration.rs, workload_control.rs)

    The messages that travel in workload envelopes, each with the validation the
    envelope layer applies to it on both ends. *)

From S2P Require Import Prelude Net Crypto Signed ReplayRegistry EndpointRecord Registration WorkloadStream WorkloadControl.
From S2P Require Import Biscuit WorkloadIdentity AgentIds ServiceDiscovery.

Module Payloads.
Import Crypto Control.
Import EndpointRecord (EndpointRecord).

(** ** HTTP metadata (http_proxy.rs) *)
Definition MAX_HTTP_METHOD_BYTES : Z := 32.
Definition MAX_HTTP_PATH_BYTES : Z := 8 * 1024.
Definition MAX_HTTP_HEADERS : Z := 128.
Definition MAX_HTTP_HEADER_NAME_BYTES : Z := 256.
Definition MAX_HTTP_HEADER_VALUE_BYTES : Z := 8 * 1024.
Definition MAX_HTTP_HEADERS_BYTES : Z := 48 * 1024.

Record IngressRequestMetadata := {
  manifest_id : string;
  method : string;
  path_and_query : string;
  headers : list (string * string);
  target_port : Z;
  upgrade_requested : bool
}.

Record IngressResponseMetadata := {
  status_code : Z;
  response_headers : list (string * string);
  upgrade_accepted : bool
}.

(** The loop over the headers: the bytes of all of them. *)
Fixpoint header_bytes (total : Z) (headers : list (string * string)) : Result Z :=
  match headers with
  | [] => Ok total
  | (name, value) :: headers =>
      ensure! negb (str_is_empty name) && (str_len name <=? MAX_HTTP_HEADER_NAME_BYTES) && Workload.is_ascii name
        else Err "ingress header name is invalid" ;;
      ensure! str_len value <=? MAX_HTTP_HEADER_VALUE_BYTES else Err "ingress header value exceeds its limit" ;;
      let total := total + (str_len name + str_len value) in
      ensure! total <=? usize_max else Err "ingress header size overflow" ;;
      header_bytes total headers
  end.

Definition validate_headers (headers : list (string * string)) : Result unit :=
  ensure! len headers <=? MAX_HTTP_HEADERS else Err "too many ingress headers" ;;
  total ← header_bytes 0 headers;
  ensure! total <=? MAX_HTTP_HEADERS_BYTES else Err "combined ingress headers exceed their limit" ;;
  Ok tt.

Definition validate_ingress_request (r : IngressRequestMetadata) : Result unit :=
  ensure! negb (str_is_empty (manifest_id r)) && (str_len (manifest_id r) <=? 128)
    else Err "ingress manifest id is invalid" ;;
  ensure! negb (str_is_empty (method r)) && (str_len (method r) <=? MAX_HTTP_METHOD_BYTES) && Workload.is_ascii (method r)
    else Err "ingress method is invalid" ;;
  ensure! negb (str_is_empty (path_and_query r)) && (str_len (path_and_query r) <=? MAX_HTTP_PATH_BYTES)
    else Err "ingress path and query is invalid" ;;
  validate_headers (headers r).

Definition validate_ingress_response (r : IngressResponseMetadata) : Result unit :=
  ensure! in_range 100 599 (status_code r) else Err "ingress response status is invalid" ;;
  ensure! negb (upgrade_accepted r) || (status_code r =? 101) else Err "ingress upgrade requires status 101" ;;
  validate_headers (response_headers r).

#[export] Instance ingress_request_payload : WorkloadPayload IngressRequestMetadata :=
  {| TYPE := Control.IngressRequest; payload_validate := fun r _ => validate_ingress_request r |}.
#[export] Instance ingress_response_payload : WorkloadPayload IngressResponseMetadata :=
  {| TYPE := Control.IngressResponse; payload_validate := fun r _ => validate_ingress_response r |}.

(** ** Egress tunnels (egress.rs) *)
Definition MAX_EGRESS_HOST_LEN : Z := 253.
Definition MAX_EGRESS_ERROR_LEN : Z := 512.

Record EgressTunnelRequest := { target_host : string; egress_target_port : Z; protocol : string }.
Record EgressTunnelResponse := { success : bool; error : option string }.

Definition egress_tcp (host : string) (port : Z) : EgressTunnelRequest :=
  {| target_host := host; egress_target_port := port; protocol := "tcp" |}.
Definition egress_ok : EgressTunnelResponse := {| success := true; error := None |}.
Definition egress_err (message : string) : EgressTunnelResponse := {| success := false; error := Some message |}.

Definition validate_egress_request (r : EgressTunnelRequest) : Result unit :=
  ensure! negb (str_is_empty (target_host r)) && (str_len (target_host r) <=? MAX_EGRESS_HOST_LEN)
    else Err "egress target host length is invalid" ;;
  ensure! negb (egress_target_port r =? 0) else Err "egress target port is invalid" ;;
  ensure! bool_decide (protocol r = "tcp") else Err "unsupported egress protocol" ;;
  Ok tt.

Definition validate_egress_response (r : EgressTunnelResponse) : Result unit :=
  ensure! Bool.eqb (success r) (bool_decide (error r = None))
    else Err "egress response success and error disagree" ;;
  ensure! match error r with
          | Some e => negb (str_is_empty e) && (str_len e <=? MAX_EGRESS_ERROR_LEN)
          | None => true
          end else Err "egress response error length is invalid" ;;
  Ok tt.

#[export] Instance egress_request_payload : WorkloadPayload EgressTunnelRequest :=
  {| TYPE := Control.EgressRequest; payload_validate := fun r _ => validate_egress_request r |}.
#[export] Instance egress_response_payload : WorkloadPayload EgressTunnelResponse :=
  {| TYPE := Control.EgressResponse; payload_validate := fun r _ => validate_egress_response r |}.

(** ** Handshakes (machine/messages.rs) *)
Definition HANDSHAKE_PROTOCOL_VERSION : string := "podmesh/1.0".
Definition MAX_HANDSHAKE_FIELD_LEN : Z := 16 * 1024.

Record WorkloadHandshakeRequest := {
  protocol_version : string;
  tenant_owner_pubkey : string;
  handshake_manifest_id : string;
  workload_credential_b64 : string
}.

Record WorkloadHandshakeResponse := { response_version : string; proxy_grant_b64 : string }.

Definition new_handshake_request (owner manifest credential : string) : WorkloadHandshakeRequest :=
  {| protocol_version := HANDSHAKE_PROTOCOL_VERSION; tenant_owner_pubkey := owner;
     handshake_manifest_id := manifest; workload_credential_b64 := credential |}.
Definition new_handshake_response (grant : option string) : WorkloadHandshakeResponse :=
  {| response_version := HANDSHAKE_PROTOCOL_VERSION; proxy_grant_b64 := default "" grant |}.

Fixpoint validate_fields (fields : list (string * string)) : Result unit :=
  match fields with
  | [] => Ok tt
  | (name, value) :: fields =>
      ensure! negb (str_is_empty value) && (str_len value <=? MAX_HANDSHAKE_FIELD_LEN)
        else Err ("workload handshake " +:+ name +:+ " field length is invalid") ;;
      validate_fields fields
  end.

Definition validate_handshake_request (r : WorkloadHandshakeRequest) : Result unit :=
  ensure! bool_decide (protocol_version r = HANDSHAKE_PROTOCOL_VERSION)
    else Err "unsupported workload handshake protocol version" ;;
  validate_fields [("tenant owner", tenant_owner_pubkey r); ("manifest", handshake_manifest_id r);
                   ("credential", workload_credential_b64 r)].

Definition validate_handshake_response (r : WorkloadHandshakeResponse) : Result unit :=
  ensure! bool_decide (response_version r = HANDSHAKE_PROTOCOL_VERSION)
    else Err "unsupported workload handshake protocol version" ;;
  ensure! str_len (proxy_grant_b64 r) <=? MAX_HANDSHAKE_FIELD_LEN
    else Err "workload handshake grant field exceeds its limit" ;;
  Ok tt.

#[export] Instance handshake_request_payload : WorkloadPayload WorkloadHandshakeRequest :=
  {| TYPE := Control.HandshakeRequest; payload_validate := fun r _ => validate_handshake_request r |}.
#[export] Instance handshake_response_payload : WorkloadPayload WorkloadHandshakeResponse :=
  {| TYPE := Control.HandshakeResponse; payload_validate := fun r _ => validate_handshake_response r |}.

(** ** Proxy discovery (proxy_endpoint_discovery.rs) *)
Definition MAX_PROXY_ENDPOINTS : Z := 32.
Definition MAX_OWNER_PUBKEY_B64_LEN : Z := 128.
Definition MAX_PROXY_DISCOVERY_MESSAGE_BYTES : Z := 64 * 1024.

Record ProxyDiscoveryRequest := { owner_pubkey : string; limit : Z }.
Record ProxyEndpointDiscoveryResponse := { endpoints : list EndpointRecord }.

Definition validate_discovery_request (r : ProxyDiscoveryRequest) : Result unit :=
  if str_is_empty (owner_pubkey r) || (MAX_OWNER_PUBKEY_B64_LEN <? str_len (owner_pubkey r))
  then Err "owner public key length is invalid" else
  if (limit r =? 0) || (MAX_PROXY_ENDPOINTS <? limit r) then Err "proxy discovery limit is invalid" else
  Ok tt.

Definition validate_message_size (b : bytes) : Result unit :=
  if MAX_PROXY_DISCOVERY_MESSAGE_BYTES <? len b then Err "proxy discovery message exceeds size limit" else Ok tt.

Section Records.
Context {P : Primitives} {CR : Postcard EndpointRecord}.

Fixpoint verify_all (records : list EndpointRecord) (now_secs : Z) : Result unit :=
  match records with
  | [] => Ok tt
  | record :: records => _ ← EndpointRecord.verify record now_secs; verify_all records now_secs
  end.

Definition validate_endpoint_records (records : list EndpointRecord) (now_secs : Z) : Result unit :=
  if MAX_PROXY_ENDPOINTS <? len records then Err "proxy endpoint count is invalid" else
  verify_all records now_secs.

#[export] Instance discovery_request_payload : WorkloadPayload ProxyDiscoveryRequest :=
  {| TYPE := Control.ProxyDiscoveryRequest; payload_validate := fun r _ => validate_discovery_request r |}.
#[export] Instance discovery_response_payload : WorkloadPayload ProxyEndpointDiscoveryResponse :=
  {| TYPE := Control.ProxyDiscoveryResponse; payload_validate := fun r now => validate_endpoint_records (endpoints r) now |}.

Section Discovery.
Context {CQ : Postcard ProxyDiscoveryRequest} {CS : Postcard ProxyEndpointDiscoveryResponse}.

Definition discovery_request_to_bytes (r : ProxyDiscoveryRequest) : Result bytes :=
  _ ← validate_discovery_request r; ok_or (to_allocvec r) "serialize proxy discovery request".
Definition discovery_request_from_bytes (b : bytes) : Result ProxyDiscoveryRequest :=
  _ ← validate_message_size b;
  r ← ok_or (from_postcard b) "decode proxy discovery request";
  _ ← validate_discovery_request r;
  Ok r.
Definition discovery_response_to_bytes (r : ProxyEndpointDiscoveryResponse) (now_secs : Z) : Result bytes :=
  _ ← validate_endpoint_records (endpoints r) now_secs;
  b ← ok_or (to_allocvec r) "serialize proxy endpoint discovery";
  _ ← validate_message_size b;
  Ok b.
Definition discovery_response_from_bytes (b : bytes) (now_secs : Z) : Result ProxyEndpointDiscoveryResponse :=
  _ ← validate_message_size b;
  r ← ok_or (from_postcard b) "decode proxy endpoint discovery";
  _ ← validate_endpoint_records (endpoints r) now_secs;
  Ok r.
End Discovery.

(** ** Announcements (workload_control.rs) *)
Record ProxyAnnouncementRequest := { request_endpoint : EndpointRecord }.
Record ProxyAnnouncementResponse := { response_endpoint : EndpointRecord }.

#[export] Instance announcement_request_payload : WorkloadPayload ProxyAnnouncementRequest :=
  {| TYPE := Control.ProxyAnnouncementRequest; payload_validate := fun r now => EndpointRecord.verify (request_endpoint r) now |}.
#[export] Instance announcement_response_payload : WorkloadPayload ProxyAnnouncementResponse :=
  {| TYPE := Control.ProxyAnnouncementResponse; payload_validate := fun r now => EndpointRecord.verify (response_endpoint r) now |}.
End Records.

(** ** Registrations (sidecar_registration.rs) *)
Section Registrations.
Context {P : Primitives} {H : Blake3}.

#[export] Instance registration_payload : WorkloadPayload Registration.SidecarRegistration :=
  {| TYPE := Control.RegistrationRequest; payload_validate := fun r _ => Registration.validate_registration r |}.
#[export] Instance registration_ack_payload : WorkloadPayload Registration.SidecarRegistrationAck :=
  {| TYPE := Control.RegistrationResponse; payload_validate := fun a _ => Registration.validate_registration_ack a |}.
End Registrations.

(** ** Peers (peer_control.rs) *)
Definition MAX_PEER_RECORD_BATCH : Z := 2.

Inductive PeerOperation := Sync (cursor : Z) | Connect (manifest_id service : string) (port : Z).
Record PeerRequest := { caller : Discovery.ReplicaServiceRecord; operation : PeerOperation }.
Inductive PeerResult := Records (records : list Discovery.ReplicaServiceRecord) (next : option Z) | Connected | Rejected.
Record PeerResponse := { responder : Discovery.ReplicaServiceRecord; peer_result : PeerResult }.

Section Peers.
Context {P : Primitives} {H : Blake3} {B : Biscuit.BiscuitAuth} {CR : Postcard EndpointRecord}.
Context {CC : Postcard Discovery.ServiceCatalog} {CS : Postcard Discovery.ReplicaServiceRecord}.
Context {JD : Json Workload.EnrollmentDelegation} {JI : Json Workload.WorkloadIdentity}.
Context {JS : Json Discovery.ReplicaServiceRecord}.

Definition validate_peer_request (r : PeerRequest) (now : Z) : Result unit :=
  caller_bytes ← Discovery.record_to_bytes (caller r);
  ensure! len caller_bytes <=? Discovery.MAX_SERVICE_RECORD_BYTES else Err "peer caller record exceeds bound" ;;
  _ ← Discovery.verify_record (caller r) (Discovery.catalog_owner (Discovery.catalog (caller r))) now;
  match operation r with
  | Sync cursor => ensure! cursor <=? 512 else Err "peer sync cursor exceeds bound" ;; Ok tt
  | Connect manifest_id service port =>
      ensure! (str_len manifest_id =? 64) && Workload.is_ascii manifest_id && negb (port =? 0)
        else Err "invalid peer service target" ;;
      Discovery.validate_service_label service
  end.

Fixpoint verify_records (records : list Discovery.ReplicaServiceRecord) (owner : string) (now : Z) : Result unit :=
  match records with
  | [] => Ok tt
  | record :: records =>
      _ ← Discovery.record_to_bytes record;
      _ ← Discovery.verify_record record owner now;
      verify_records records owner now
  end.

Definition validate_peer_response (r : PeerResponse) (now : Z) : Result unit :=
  let owner := Discovery.catalog_owner (Discovery.catalog (responder r)) in
  _ ← Discovery.record_to_bytes (responder r);
  _ ← Discovery.verify_record (responder r) owner now;
  match peer_result r with
  | Records records next =>
      ensure! (len records <=? MAX_PEER_RECORD_BATCH) && match next with Some cursor => cursor <=? 512 | None => true end
        else Err "peer record batch exceeds bound" ;;
      verify_records records owner now
  | _ => Ok tt
  end.

#[export] Instance peer_request_payload : WorkloadPayload PeerRequest :=
  {| TYPE := Control.PeerRequest; payload_validate := validate_peer_request |}.
#[export] Instance peer_response_payload : WorkloadPayload PeerResponse :=
  {| TYPE := Control.PeerResponse; payload_validate := validate_peer_response |}.
End Peers.

(** ** Witnesses *)
Module Sample.
Import Crypto.Toy Envelope Control.
#[local] Existing Instances prims laws.

Definition zeros : string := "0000000000000000000000000000000000000000000000000000000000000000".
Definition ones : string := "1111111111111111111111111111111111111111111111111111111111111111".
Definition nonce0 : string := "aaaaaaaa-aaaa-aaaa-aaaa-aaaaaaaaaaaa".

Definition request : IngressRequestMetadata :=
  {| manifest_id := zeros; method := "GET"; path_and_query := "/"; headers := [("host", "a.example")];
     target_port := 0; upgrade_requested := false |}.

#[export] Instance request_eq_dec : EqDecision IngressRequestMetadata.
Proof. solve_decision. Defined.
#[export] Instance envelope_eq_dec : EqDecision Envelope.
Proof. solve_decision. Defined.

Definition request_codec : Postcard IngressRequestMetadata := Signed.Table.codec [request].

Definition parts : WorkloadEnvelopeParts :=
  {| nonce := nonce0; now_millis := 100000; sender_id := zeros; recipient_id := ones;
     sender_signing_public := sample_key 7; sender_signing_private := sample_key 7; sender_kem_public := None |}.

(** The envelope [parts] give, without and with its signature. *)
Definition unsigned : Envelope :=
  unsigned_envelope {| part_payload := [Byte.x00]; part_payload_type := wire_name Control.IngressRequest;
    part_nonce := nonce0; part_ts_millis := 100000; part_sender_id := zeros; part_recipient_id := ones;
    part_sender_signing_pubkey := sample_key 7; part_sender_kem_pubkey := None |}.
Definition sealed : Envelope :=
  set_signature (b64_encode (ed_sign (sample_key 7) (bind WorkloadEnvelope [Byte.x00]))) unsigned.
Definition envelope_codec : Postcard Envelope := Signed.Table.codec [unsigned; sealed].

#[export] Existing Instances request_codec envelope_codec.
#[export] Instance request_codec_laws : PostcardLaws _ request_codec := Signed.Table.codec_laws _.
#[export] Instance envelope_codec_laws : PostcardLaws _ envelope_codec := Signed.Table.codec_laws _.

Definition wire : bytes := [Byte.x01].
Definition registry : Replay.ReplayState := (Replay.check_and_insert Replay.default_limits Replay.empty_state zeros nonce0 0).1.

Definition accepted : AcceptedWorkloadPayload IngressRequestMetadata :=
  {| accepted_payload := request; accepted_type := Control.IngressRequest; accepted_signing_key := sample_key 7;
     accepted_kem_key := None; accepted_nonce := nonce0; timestamp_millis := 100000 |}.

Lemma request_sealed : seal_workload_payload parts request = Ok wire.
Proof. by vm_compute. Qed.

Lemma request_accepted :
  accept_workload_payload wire ones zeros 120000 Replay.default_limits Replay.empty_state 0 = (registry, Ok accepted).
Proof. by vm_compute. Qed.
End Sample.
Import Sample.
#[local] Existing Instances Toy.prims Toy.laws.

Lemma sealed_accepted_witness :
  accept_workload_payload wire ones zeros 120000 Replay.default_limits Replay.empty_state 0 = (registry, Ok accepted).
Proof.
  exact (sealed_accepted parts request wire 120000 Replay.default_limits Replay.empty_state registry 0
    eq_refl eq_refl request_sealed ltac:(by vm_compute) eq_refl eq_refl).
Defined.

Lemma accepted_authentic_witness :
  payload_validate (accepted_payload accepted) 120 = Ok tt.
Proof.
  exact (proj1 (proj2 (accepted_authentic wire ones zeros 120000 Replay.default_limits Replay.empty_state 0
    registry accepted request_accepted))).
Defined.

Lemma accepted_once_witness :
  exists err, (accept_workload_payload (T := IngressRequestMetadata) wire ones zeros 121000 Replay.default_limits
    registry (from_secs 1)).2 = Err err.
Proof.
  apply (accepted_once (T := IngressRequestMetadata) wire ones zeros 120000 121000 Replay.default_limits Replay.empty_state registry 0 (from_secs 1) accepted []);
    [reflexivity|by apply Replay.empty_state_wf|exact request_accepted|constructor|reflexivity|by vm_compute|reflexivity].
Defined.

(** The least retention a configuration may ask for does not reach past the
    drift window: an envelope that arrives as early as it is accepted is
    accepted again as late as it is. *)
Lemma minimum_retention_replayed :
  let limits := {| Replay.max_peers := 16; Replay.nonces_per_peer := 16; Replay.max_nonce_bytes := 128;
                   Replay.retention := Replay.MIN_REPLAY_RETENTION |} in
  let first := accept_workload_payload (T := IngressRequestMetadata) wire ones zeros 70000 limits Replay.empty_state 0 in
  let again := accept_workload_payload (T := IngressRequestMetadata) wire ones zeros 130000 limits first.1 (from_secs 60) in
  Replay.limits_valid limits /\ first.2 = Ok accepted /\ again.2 = Ok accepted.
Proof. by vm_compute. Qed.
End Payloads.
