(* ===== verification/Connector.v ===== *)
(** * Connector control (shared/protocol/src/workload_connector.rs)

    The local channel to the connector inside a workload: inspection, identity
    installation and peer seeding requests, the self-signed identity report, and
    the length-prefixed frames they travel in. *)

From S2P Require Import Prelude Net Crypto Signed EndpointRecord Registration Biscuit WorkloadIdentity AgentIds ServiceDiscovery.

Module Connector.
Import Crypto Net Biscuit Discovery.
Import EndpointRecord (EndpointRecord, IROH_ENDPOINT_ID_BYTES).
Import Workload (WorkloadIdentity).

Definition CONNECTOR_CONTROL_VERSION : Z := 2.
Definition MAX_CONNECTOR_FRAME_BYTES : Z := 64 * 1024.
Definition CONNECTOR_CHALLENGE_BYTES : Z := 32.

Record ConnectorRequest := {
  request_version : Z;
  request_challenge : bytes;
  install_identity : option WorkloadIdentity;
  seed_peer : option ReplicaServiceRecord
}.

Definition inspect (challenge : bytes) : ConnectorRequest :=
  {| request_version := CONNECTOR_CONTROL_VERSION; request_challenge := challenge;
     install_identity := None; seed_peer := None |}.
Definition install (challenge : bytes) (identity : WorkloadIdentity) : ConnectorRequest :=
  {| request_version := CONNECTOR_CONTROL_VERSION; request_challenge := challenge;
     install_identity := Some identity; seed_peer := None |}.
Definition seed (challenge : bytes) (record : ReplicaServiceRecord) : ConnectorRequest :=
  {| request_version := CONNECTOR_CONTROL_VERSION; request_challenge := challenge;
     install_identity := None; seed_peer := Some record |}.

Record ConnectorIdentityReport := {
  owner_public_key_b64 : string;
  report_workload_name : string;
  report_workload_id : string;
  report_manifest_id : string;
  report_replica_index : Z;
  report_replica_count : Z;
  challenge : bytes;
  report_endpoint : EndpointRecord;
  credential_expires_at_secs : option Z;
  report_credential : option WorkloadIdentity;
  service_record : option ReplicaServiceRecord;
  transport_signature : string
}.

Definition set_transport_signature (s : string) (r : ConnectorIdentityReport) : ConnectorIdentityReport :=
  {| owner_public_key_b64 := owner_public_key_b64 r; report_workload_name := report_workload_name r;
     report_workload_id := report_workload_id r; report_manifest_id := report_manifest_id r;
     report_replica_index := report_replica_index r; report_replica_count := report_replica_count r;
     challenge := challenge r; report_endpoint := report_endpoint r;
     credential_expires_at_secs := credential_expires_at_secs r; report_credential := report_credential r;
     service_record := service_record r; transport_signature := s |}.

Inductive ConnectorError := Unavailable | Unsupported | Rejected.

#[export] Instance ConnectorError_eq_dec : EqDecision ConnectorError.
Proof. solve_decision. Defined.

Record ConnectorResponse := {
  response_version : Z;
  identity : option ConnectorIdentityReport;
  error : option ConnectorError
}.

Definition identity_response (report : ConnectorIdentityReport) : ConnectorResponse :=
  {| response_version := CONNECTOR_CONTROL_VERSION; identity := Some report; error := None |}.
Definition error_response (e : ConnectorError) : ConnectorResponse :=
  {| response_version := CONNECTOR_CONTROL_VERSION; identity := None; error := Some e |}.

Definition is_some {A} (o : option A) : bool := match o with Some _ => true | None => false end.

Definition validate_size (size : Z) : Result unit :=
  ensure! (0 <? size) && (size <=? MAX_CONNECTOR_FRAME_BYTES) else Err "invalid connector frame size" ;;
  Ok tt.

Definition validate_response (r : ConnectorResponse) : Result unit :=
  ensure! response_version r =? CONNECTOR_CONTROL_VERSION
    else Err "unsupported connector response version" ;;
  ensure! xorb (is_some (identity r)) (is_some (error r)) else Err "ambiguous connector response" ;;
  Ok tt.

Definition connector_encode {A} `{Json A} (value : A) : Result bytes :=
  b ← ok_or (to_json value) "serialize connector frame";
  _ ← validate_size (len b);
  Ok b.
Definition connector_decode {A} `{Json A} (b : bytes) : Result A :=
  _ ← validate_size (len b);
  ok_or (from_json b) "decode connector frame".

(** ** Frames: a big-endian length, then the bytes *)
Definition read_frame (input : bytes) : Result (bytes * bytes) :=
  ensure! 4 <=? len input else Err "early eof" ;;
  let size := u32_from_be (take 4 input) in
  _ ← validate_size size;
  ensure! size <=? len (drop 4 input) else Err "early eof" ;;
  Ok (take (Z.to_nat size) (drop 4 input), drop (Z.to_nat size) (drop 4 input)).

Definition write_frame (b : bytes) : Result bytes :=
  _ ← validate_size (len b);
  Ok (u32_be_bytes (len b) ++ b).

(** What is written is what is read, and what follows it is left alone. *)
Lemma frame_roundtrip b out rest :
  write_frame b = Ok out -> read_frame (out ++ rest) = Ok (b, rest).
Proof.
  unfold write_frame. intros Hw. Signed.result_inv Hw.
  assert (u32_be_bytes (len b) ++ b = out) as <- by congruence. clear Hw.
  pose proof Hx as Hs. unfold validate_size, MAX_CONNECTOR_FRAME_BYTES in Hs.
  Signed.result_inv Hs. bool_props. pose proof (len_nonneg rest).
  unfold read_frame. rewrite <- app_assoc, !len_app. change (len (u32_be_bytes _)) with 4.
  replace (4 <=? _) with true by (symmetry; apply Z.leb_le; lia).
  change (take 4 (u32_be_bytes (len b) ++ b ++ rest)) with (u32_be_bytes (len b)).
  change (drop 4 (u32_be_bytes (len b) ++ b ++ rest)) with (b ++ rest).
  rewrite u32_from_to_be by lia. destruct x. rewrite Hx, Signed.bind_eq, len_app.
  replace (len b <=? _) with true by (symmetry; apply Z.leb_le; lia).
  unfold len. rewrite Nat2Z.id, take_app_length, drop_app_length. done.
Qed.

(** A frame that is read is at most 64 KiB. *)
Lemma read_frame_bound input b rest :
  read_frame input = Ok (b, rest) -> 0 < len b <= MAX_CONNECTOR_FRAME_BYTES.
Proof.
  unfold read_frame. cbn zeta. intros Hr. Signed.result_inv Hr. injection Hr as <- _.
  unfold validate_size in Hx. Signed.result_inv Hx. bool_props.
  unfold len in *. rewrite length_take. lia.
Qed.

(** A frame cut short is refused, at every length. *)
Lemma frame_truncated b out n :
  write_frame b = Ok out -> (n < length out)%nat -> read_frame (take n out) = Err "early eof".
Proof.
  unfold write_frame. intros Hw Hn. Signed.result_inv Hw.
  assert (u32_be_bytes (len b) ++ b = out) as <- by congruence. clear Hw.
  pose proof Hx as Hs. unfold validate_size, MAX_CONNECTOR_FRAME_BYTES in Hs.
  Signed.result_inv Hs. bool_props.
  unfold read_frame. rewrite length_app in Hn. change (length (u32_be_bytes _)) with 4%nat in Hn.
  unfold len at 1. rewrite length_take, length_app. change (length (u32_be_bytes _)) with 4%nat.
  destruct (4 <=? _) eqn:E4; bool_props; [|done].
  rewrite take_take, Nat.min_l by lia.
  change (take 4 (u32_be_bytes (len b) ++ b)) with (u32_be_bytes (len b)).
  rewrite u32_from_to_be by lia. destruct x. rewrite Hx, Signed.bind_eq.
  replace (len b <=? _) with false; [done|]. symmetry. apply Z.leb_gt.
  unfold len. rewrite length_drop, length_take, length_app. change (length (u32_be_bytes _)) with 4%nat. lia.
Qed.

(** ** Requests, reports and responses *)
Section Operations.
Context {P : Primitives} {B : BiscuitAuth} {H : Blake3}.
Context {CR : Postcard EndpointRecord} {CC : Postcard ServiceCatalog} {CS : Postcard ReplicaServiceRecord}.
Context {CI : Postcard ConnectorIdentityReport}.
Context {JD : Json Workload.EnrollmentDelegation} {JI : Json WorkloadIdentity} {JS : Json ReplicaServiceRecord}.
Context {JQ : Json ConnectorRequest} {JR : Json ConnectorResponse}.

Definition inspection_challenge (nonce : string) : bytes :=
  derive_key "podmesh/connector/inspection-challenge/v1" (as_bytes nonce).

Definition validate_request (r : ConnectorRequest) : Result unit :=
  ensure! negb (is_some (install_identity r) && is_some (seed_peer r))
    else Err "ambiguous connector mutation" ;;
  _ ← match seed_peer r with Some record => record_to_bytes record | None => Ok [] end;
  ensure! request_version r =? CONNECTOR_CONTROL_VERSION else Err "unsupported connector request version" ;;
  _ ← match install_identity r with Some i => Workload.identity_to_bytes i | None => Ok [] end;
  Ok tt.

Definition request_to_bytes (r : ConnectorRequest) : Result bytes :=
  _ ← validate_request r; connector_encode r.
Definition request_from_bytes (b : bytes) : Result ConnectorRequest :=
  value ← connector_decode b; _ ← validate_request value; Ok value.
Definition response_to_bytes (r : ConnectorResponse) : Result bytes :=
  _ ← validate_response r; connector_encode r.
Definition response_from_bytes (b : bytes) : Result ConnectorResponse :=
  value ← connector_decode b; _ ← validate_response value; Ok value.

Definition report_canonical_bytes (r : ConnectorIdentityReport) : Result bytes :=
  AgentIds.canonical (set_transport_signature "" r).

Definition validate_service_record (r : ConnectorIdentityReport) (now_secs : Z) : Result unit :=
  match service_record r with
  | Some record =>
      _ ← verify_record record (owner_public_key_b64 r) now_secs;
      ensure! bool_decide (EndpointRecord.endpoint_id (endpoint record) =
                           EndpointRecord.endpoint_id (report_endpoint r)) &&
              bool_decide (EndpointRecord.signing_pubkey (endpoint record) =
                           EndpointRecord.signing_pubkey (report_endpoint r)) &&
              bool_decide (Workload.workload_id (Workload.scope (Workload.delegation (credential record))) =
                           report_workload_id r)
        else Err "connector service record mismatch" ;;
      Ok tt
  | None => Ok tt
  end.

Definition validate_credential (r : ConnectorIdentityReport) : Result unit :=
  match report_credential r with
  | Some credential =>
      _ ← Workload.verify_identity credential None;
      let scope := Workload.scope (Workload.delegation credential) in
      let claims := Workload.claims credential in
      ensure! bool_decide (Workload.tenant_owner scope = owner_public_key_b64 r) &&
              bool_decide (Workload.scope_manifest_id scope = report_manifest_id r) &&
              bool_decide (Workload.workload_id scope = report_workload_id r) &&
              bool_decide (Workload.claim_endpoint_id claims = endpoint_hex (report_endpoint r)) &&
              bool_decide (Workload.signing_public_key_b64 claims =
                           EndpointRecord.signing_pubkey (report_endpoint r))
        else Err "connector credential binding mismatch" ;;
      ensure! bool_decide (credential_expires_at_secs r = Some (Workload.claims_expires_at_secs claims))
        else Err "connector credential expiry mismatch" ;;
      Ok tt
  | None =>
      ensure! bool_decide (credential_expires_at_secs r = None)
        else Err "connector expiry has no credential proof" ;;
      Ok tt
  end.

Definition validate_report (r : ConnectorIdentityReport) (now_secs : Z) : Result unit :=
  ensure! AgentIds.bounded 253 (report_workload_name r) else Err "invalid connector workload name" ;;
  owner ← b64_decode (owner_public_key_b64 r);
  ensure! len owner =? IROH_ENDPOINT_ID_BYTES else Err "invalid connector owner key" ;;
  ensure! (1 <=? report_replica_count r) && (report_replica_count r <=? Registration.MAX_WORKLOAD_REPLICAS)
    else Err "invalid connector replica count" ;;
  ensure! report_replica_index r <? report_replica_count r else Err "invalid connector replica index" ;;
  ensure! bool_decide (report_manifest_id r = Registration.route_id owner (report_workload_name r))
    else Err "invalid connector routing identity" ;;
  ensure! bool_decide (report_workload_id r =
            AgentIds.workload_id owner (report_workload_name r) (report_replica_index r))
    else Err "invalid connector workload identity" ;;
  _ ← EndpointRecord.verify (report_endpoint r) now_secs;
  _ ← validate_service_record r now_secs;
  validate_credential r.

Definition verify_report_signature (r : ConnectorIdentityReport) (now_secs : Z) : Result unit :=
  _ ← validate_report r now_secs;
  signature ← b64_decode (transport_signature r);
  ensure! len signature =? 64 else Err "invalid connector signature length" ;;
  canonical ← report_canonical_bytes r;
  verify_domain (EndpointRecord.endpoint_id (report_endpoint r)) Crypto.ConnectorIdentity canonical signature.

Definition verify_report (r : ConnectorIdentityReport) (expected_owner expected_workload_id : string)
    (expected_challenge : bytes) (now_secs : Z) : Result unit :=
  ensure! bool_decide (owner_public_key_b64 r = expected_owner) else Err "connector owner mismatch" ;;
  ensure! bool_decide (report_workload_id r = expected_workload_id) else Err "connector workload mismatch" ;;
  ensure! bool_decide (challenge r = expected_challenge) else Err "connector challenge mismatch" ;;
  verify_report_signature r now_secs.

Definition sign_report (r : ConnectorIdentityReport) (transport_private : bytes) (now_secs : Z)
    : Result ConnectorIdentityReport :=
  _ ← validate_report r now_secs;
  canonical ← report_canonical_bytes r;
  sig ← sign_domain transport_private Crypto.ConnectorIdentity canonical;
  let r := set_transport_signature (b64_encode sig) r in
  _ ← verify_report_signature r now_secs;
  Ok r.

(** A report that verifies answers the challenge for that workload of that
    owner, names an endpoint whose transport key signed all of it, and carries
    no credential that is not bound to that endpoint. *)
Lemma accepted_report r owner workload ch now :
  verify_report r owner workload ch now = Ok tt ->
  owner_public_key_b64 r = owner /\ report_workload_id r = workload /\ challenge r = ch /\
  EndpointRecord.verify (report_endpoint r) now = Ok tt /\
  (forall c, report_credential r = Some c ->
     Workload.verify_identity c None = Ok tt /\
     Workload.tenant_owner (Workload.scope (Workload.delegation c)) = owner /\
     Workload.workload_id (Workload.scope (Workload.delegation c)) = workload /\
     Workload.claim_endpoint_id (Workload.claims c) = endpoint_hex (report_endpoint r) /\
     Workload.signing_public_key_b64 (Workload.claims c) = EndpointRecord.signing_pubkey (report_endpoint r)) /\
  exists canonical sig,
    report_canonical_bytes r = Ok canonical /\ b64_decode (transport_signature r) = Ok sig /\
    verify_domain (EndpointRecord.endpoint_id (report_endpoint r)) Crypto.ConnectorIdentity canonical sig = Ok tt.
Proof.
  unfold verify_report. intros Hv. Signed.ensure_inv Hv. bool_props. subst.
  unfold verify_report_signature in Hv. apply Signed.bind_ok in Hv as ([] & Hval & Hv).
  apply Signed.bind_ok in Hv as (sig & Hsig & Hv). case_match; [|done].
  apply Signed.bind_ok in Hv as (canonical & Hcan & Hv).
  unfold validate_report in Hval. Signed.result_inv Hval. bool_props. destruct x0, x1.
  split_and!; [done..| |by exists canonical, sig].
  intros c Hcred. unfold validate_credential in Hval. rewrite Hcred in Hval. cbn zeta in Hval.
  Signed.result_inv Hval. bool_props. destruct x0. done.
Qed.

End Operations.
End Connector.
