(* ===== verification/AgentMessages.v ===== *)
(** * Messages between owners and agents (shared/protocol/src/agent.rs)

    The owner-signed requests (admission, deployment grant, update, command)
    and the agent-signed answers (reservation, receipt, update and command
    responses, workload list), with their signing and verification.  The list
    request is in Reconciliation.v, whose scheduler also reads it. *)

From S2P Require Import Prelude Net Crypto Signed EndpointRecord CapacityProtocol MeshProtocol Messages Registration Biscuit WorkloadIdentity AgentIds ServiceDiscovery.

Module AgentMessages.
Import Crypto Net AgentIds.
Import EndpointRecord (EndpointRecord).

(** ** Admission *)
Module Admission.
Record AdmissionRequest := {
  version : Z;
  request_id : string;
  namespace_id : string;
  workload_id : string;
  target_node_id : string;
  response_kem_pubkey : string;
  cpu_milli : Z;
  memory_bytes : Z;
  storage_bytes : Z;
  issued_at_secs : Z;
  expires_at_secs : Z;
  nonce : string;
  owner_signature : string
}.

Definition set_owner_signature (s : string) (r : AdmissionRequest) : AdmissionRequest :=
  {| version := version r; request_id := request_id r; namespace_id := namespace_id r;
     workload_id := workload_id r; target_node_id := target_node_id r;
     response_kem_pubkey := response_kem_pubkey r; cpu_milli := cpu_milli r;
     memory_bytes := memory_bytes r; storage_bytes := storage_bytes r;
     issued_at_secs := issued_at_secs r; expires_at_secs := expires_at_secs r; nonce := nonce r;
     owner_signature := s |}.

Section Operations.
Context {P : Primitives} {C : Postcard AdmissionRequest}.

Definition canonical_bytes (r : AdmissionRequest) : Result bytes := canonical (set_owner_signature "" r).

Definition sign (r : AdmissionRequest) (owner_private : bytes) : Result AdmissionRequest :=
  c ← canonical_bytes (set_owner_signature "" r);
  s ← sign_domain owner_private Crypto.AdmissionRequest c;
  Ok (set_owner_signature (b64_encode s) r).

Definition verify (r : AdmissionRequest) (now_secs : Z) : Result unit :=
  ensure! version r =? AGENT_PROTOCOL_VERSION else Err "unsupported admission version" ;;
  owner ← decode_fixed (namespace_id r) 32 "namespace_id";
  _ ← decode_fixed (target_node_id r) 32 "target_node_id";
  _ ← decode_fixed (response_kem_pubkey r) 32 "response_kem_pubkey";
  _ ← validate_hex_id (workload_id r) "workload_id";
  ensure! bounded 128 (request_id r) else Err "invalid request_id" ;;
  ensure! bounded 128 (nonce r) else Err "invalid nonce" ;;
  _ ← validate_validity_window (issued_at_secs r) (expires_at_secs r) now_secs "admission request";
  signature ← decode_fixed (owner_signature r) 64 "owner_signature";
  c ← canonical_bytes r;
  verify_domain owner Crypto.AdmissionRequest c signature.
End Operations.
End Admission.

(** ** Reservations *)
Module Reservation.
Record Reservation := {
  version : Z;
  reservation_id : string;
  request_id : string;
  namespace_id : string;
  workload_id : string;
  agent_node_id : string;
  cpu_milli : Z;
  memory_bytes : Z;
  storage_bytes : Z;
  accepted : bool;
  reason : string;
  expires_at_secs : Z;
  signature : string
}.

Definition set_signature (s : string) (r : Reservation) : Reservation :=
  {| version := version r; reservation_id := reservation_id r; request_id := request_id r;
     namespace_id := namespace_id r; workload_id := workload_id r; agent_node_id := agent_node_id r;
     cpu_milli := cpu_milli r; memory_bytes := memory_bytes r; storage_bytes := storage_bytes r;
     accepted := accepted r; reason := reason r; expires_at_secs := expires_at_secs r; signature := s |}.
Definition set_agent_node_id (s : string) (r : Reservation) : Reservation :=
  {| version := version r; reservation_id := reservation_id r; request_id := request_id r;
     namespace_id := namespace_id r; workload_id := workload_id r; agent_node_id := s;
     cpu_milli := cpu_milli r; memory_bytes := memory_bytes r; storage_bytes := storage_bytes r;
     accepted := accepted r; reason := reason r; expires_at_secs := expires_at_secs r;
     signature := signature r |}.

Inductive AdmissionRefusal :=
| StateRequiresRepair | AlreadyActive | WorkloadLimit | ReservationLimit
| InsufficientCapacity | PendingCapacityLimit.

Definition ALL : list AdmissionRefusal :=
  [StateRequiresRepair; AlreadyActive; WorkloadLimit; ReservationLimit; InsufficientCapacity;
   PendingCapacityLimit].

Definition as_str (r : AdmissionRefusal) : string :=
  match r with
  | StateRequiresRepair => "agent workload state requires repair"
  | AlreadyActive => "workload is already active or reserved"
  | WorkloadLimit => "agent workload limit reached"
  | ReservationLimit => "agent reservation limit reached"
  | InsufficientCapacity => "insufficient capacity"
  | PendingCapacityLimit => "pending reservation limit reached; retry once admissions settle"
  end.

Definition from_reason (reason : string) : option AdmissionRefusal :=
  List.find (fun refusal => bool_decide (as_str refusal = reason)) ALL.

Definition is_capacity (r : AdmissionRefusal) : bool :=
  match r with
  | WorkloadLimit | ReservationLimit | InsufficientCapacity | PendingCapacityLimit => true
  | StateRequiresRepair | AlreadyActive => false
  end.

(** The refusal a client reads back is the one the agent wrote. *)
Lemma refusal_roundtrip r : from_reason (as_str r) = Some r.
Proof. by destruct r. Qed.

Section Operations.
Context {P : Primitives} {C : Postcard Reservation}.

Definition canonical_bytes (r : Reservation) : Result bytes := canonical (set_signature "" r).

Definition sign (r : Reservation) (signing_public signing_private : bytes) : Result Reservation :=
  let r := set_signature "" (set_agent_node_id (b64_encode signing_public) r) in
  c ← canonical_bytes r;
  s ← sign_domain signing_private Crypto.Reservation c;
  Ok (set_signature (b64_encode s) r).

Definition verify (r : Reservation) (now_secs : Z) : Result unit :=
  ensure! version r =? AGENT_PROTOCOL_VERSION else Err "unsupported reservation version" ;;
  agent ← decode_fixed (agent_node_id r) 32 "agent_node_id";
  _ ← decode_fixed (namespace_id r) 32 "namespace_id";
  _ ← validate_hex_id (workload_id r) "workload_id";
  ensure! now_secs <=? expires_at_secs r else Err "reservation expired" ;;
  ensure! str_len (reason r) <=? 1024 else Err "reservation reason too long" ;;
  s ← decode_fixed (signature r) 64 "signature";
  c ← canonical_bytes r;
  verify_domain agent Crypto.Reservation c s.
End Operations.
End Reservation.

(** ** What a workload is made of *)
Module Spec.
(** proxy_endpoint_discovery.rs and workload_credential.rs *)
Definition MAX_PROXY_ENDPOINTS : Z := 32.
Definition MAX_WORKLOAD_CREDENTIAL_B64_LEN : Z := 4 * Workload.div_ceil Biscuit.MAX_BISCUIT_TOKEN_BYTES 3.

Record EncryptedWorkloadCapsule := {
  ciphertext : bytes;
  capsule_nonce : bytes;
  wrapped_dek : bytes
}.

Definition validate_capsule (c : EncryptedWorkloadCapsule) : Result unit :=
  ensure! (0 <? len (ciphertext c)) && (len (ciphertext c) <=? MAX_ENCRYPTED_CAPSULE_BYTES)
    else Err "invalid capsule ciphertext length" ;;
  ensure! len (capsule_nonce c) =? 24 else Err "capsule nonce must be 24 bytes" ;;
  ensure! (0 <? len (wrapped_dek c)) && (len (wrapped_dek c) <=? MAX_WRAPPED_KEY_BYTES)
    else Err "invalid wrapped DEK length" ;;
  Ok tt.

Record ExecutionSpec := {
  workload_name : string;
  replica_index : Z;
  replica_count : Z;
  manifest : bytes;
  proxy_endpoints : list EndpointRecord;
  service_catalog : option Discovery.ServiceCatalog;
  workload_credential_b64 : string;
  workload_relay_auth_token : string;
  workload_relay_ca_certificates : list bytes
}.

Section Operations.
Context {P : Primitives} {CR : Postcard EndpointRecord}.

Fixpoint verify_endpoints (l : list EndpointRecord) : Result unit :=
  match l with
  | [] => Ok tt
  | endpoint :: rest => _ ← EndpointRecord.verify_structure endpoint; verify_endpoints rest
  end.

Fixpoint validate_certificates (l : list bytes) : Result unit :=
  match l with
  | [] => Ok tt
  | certificate :: rest =>
      ensure! (0 <? len certificate) && (len certificate <=? 64 * 1024)
        else Err "invalid workload relay CA certificate size" ;;
      validate_certificates rest
  end.

Definition validate (s : ExecutionSpec) : Result unit :=
  ensure! bounded 253 (workload_name s) else Err "invalid workload name" ;;
  ensure! (1 <=? replica_count s) && (replica_count s <=? Registration.MAX_WORKLOAD_REPLICAS)
    else Err "replica count must be between 1 and 64" ;;
  ensure! replica_index s <? replica_count s else Err "replica index is outside the deployment" ;;
  ensure! (0 <? len (manifest s)) && (len (manifest s) <=? MAX_MANIFEST_BYTES)
    else Err "invalid manifest length" ;;
  ensure! negb (bool_decide (proxy_endpoints s = [])) && (len (proxy_endpoints s) <=? MAX_PROXY_ENDPOINTS)
    else Err "invalid proxy endpoint count" ;;
  _ ← verify_endpoints (proxy_endpoints s);
  ensure! bounded MAX_WORKLOAD_CREDENTIAL_B64_LEN (workload_credential_b64 s)
    else Err "invalid workload credential length" ;;
  ensure! (32 <=? str_len (workload_relay_auth_token s)) &&
          (str_len (workload_relay_auth_token s) <=? 4 * 1024)
    else Err "invalid workload relay auth token length" ;;
  ensure! len (workload_relay_ca_certificates s) <=? 8
    else Err "too many workload relay CA certificates" ;;
  validate_certificates (workload_relay_ca_certificates s).
End Operations.
End Spec.

(** ** Deployment grants *)
Module Grant.
Record DeploymentGrant := {
  version : Z;
  namespace_id : string;
  workload_id : string;
  revision_id : string;
  target_node_id : string;
  response_kem_pubkey : string;
  reservation_id : string;
  capsule : Spec.EncryptedWorkloadCapsule;
  issued_at_secs : Z;
  expires_at_secs : Z;
  nonce : string;
  owner_signature : string
}.

Definition set_owner_signature (s : string) (g : DeploymentGrant) : DeploymentGrant :=
  {| version := version g; namespace_id := namespace_id g; workload_id := workload_id g;
     revision_id := revision_id g; target_node_id := target_node_id g;
     response_kem_pubkey := response_kem_pubkey g; reservation_id := reservation_id g;
     capsule := capsule g; issued_at_secs := issued_at_secs g; expires_at_secs := expires_at_secs g;
     nonce := nonce g; owner_signature := s |}.

Section Operations.
Context {P : Primitives} {C : Postcard DeploymentGrant}.

Definition canonical_bytes (g : DeploymentGrant) : Result bytes := canonical (set_owner_signature "" g).

Definition sign (g : DeploymentGrant) (owner_private : bytes) : Result DeploymentGrant :=
  c ← canonical_bytes (set_owner_signature "" g);
  s ← sign_domain owner_private Crypto.DeploymentGrant c;
  Ok (set_owner_signature (b64_encode s) g).

Definition verify (g : DeploymentGrant) (now_secs : Z) : Result unit :=
  ensure! version g =? AGENT_PROTOCOL_VERSION else Err "unsupported deployment grant version" ;;
  owner ← decode_fixed (namespace_id g) 32 "namespace_id";
  _ ← decode_fixed (target_node_id g) 32 "target_node_id";
  _ ← decode_fixed (response_kem_pubkey g) 32 "response_kem_pubkey";
  _ ← validate_hex_id (workload_id g) "workload_id";
  _ ← validate_hex_id (revision_id g) "revision_id";
  _ ← Spec.validate_capsule (capsule g);
  _ ← validate_validity_window (issued_at_secs g) (expires_at_secs g) now_secs "deployment grant";
  ensure! bounded 128 (reservation_id g) else Err "invalid reservation_id" ;;
  ensure! bounded 128 (nonce g) else Err "invalid nonce" ;;
  signature ← decode_fixed (owner_signature g) 64 "owner_signature";
  c ← canonical_bytes g;
  verify_domain owner Crypto.DeploymentGrant c signature.
End Operations.
End Grant.

(** ** Receipts *)
Module Receipt.
Record DeploymentReceipt := {
  version : Z;
  namespace_id : string;
  workload_id : string;
  revision_id : string;
  agent_node_id : string;
  runtime_id : string;
  accepted_at_secs : Z;
  signature : string
}.

Definition set_signature (s : string) (r : DeploymentReceipt) : DeploymentReceipt :=
  {| version := version r; namespace_id := namespace_id r; workload_id := workload_id r;
     revision_id := revision_id r; agent_node_id := agent_node_id r; runtime_id := runtime_id r;
     accepted_at_secs := accepted_at_secs r; signature := s |}.
Definition set_agent_node_id (s : string) (r : DeploymentReceipt) : DeploymentReceipt :=
  {| version := version r; namespace_id := namespace_id r; workload_id := workload_id r;
     revision_id := revision_id r; agent_node_id := s; runtime_id := runtime_id r;
     accepted_at_secs := accepted_at_secs r; signature := signature r |}.

Section Operations.
Context {P : Primitives} {C : Postcard DeploymentReceipt}.

Definition canonical_bytes (r : DeploymentReceipt) : Result bytes := canonical (set_signature "" r).

Definition sign (r : DeploymentReceipt) (signing_public signing_private : bytes) : Result DeploymentReceipt :=
  let r := set_signature "" (set_agent_node_id (b64_encode signing_public) r) in
  c ← canonical_bytes r;
  s ← sign_domain signing_private Crypto.DeploymentReceipt c;
  Ok (set_signature (b64_encode s) r).

Definition verify (r : DeploymentReceipt) : Result unit :=
  agent ← decode_fixed (agent_node_id r) 32 "agent_node_id";
  _ ← decode_fixed (namespace_id r) 32 "namespace_id";
  _ ← validate_hex_id (workload_id r) "workload_id";
  _ ← validate_hex_id (revision_id r) "revision_id";
  ensure! version r =? AGENT_PROTOCOL_VERSION else Err "unsupported deployment receipt version" ;;
  s ← decode_fixed (signature r) 64 "signature";
  c ← canonical_bytes r;
  verify_domain agent Crypto.DeploymentReceipt c s.
End Operations.
End Receipt.

(** ** Updates *)
Module Update.
Import Grant (DeploymentGrant).

Record UpdateRequest := {
  version : Z;
  request_id : string;
  namespace_id : string;
  workload_id : string;
  target_node_id : string;
  response_kem_pubkey : string;
  expected_revision_id : string;
  requested_revision_id : string;
  refresh_service_mesh : bool;
  cpu_milli : Z;
  memory_bytes : Z;
  storage_bytes : Z;
  grant : DeploymentGrant;
  issued_at_secs : Z;
  expires_at_secs : Z;
  nonce : string;
  owner_signature : string
}.

Definition set_owner_signature (s : string) (r : UpdateRequest) : UpdateRequest :=
  {| version := version r; request_id := request_id r; namespace_id := namespace_id r;
     workload_id := workload_id r; target_node_id := target_node_id r;
     response_kem_pubkey := response_kem_pubkey r; expected_revision_id := expected_revision_id r;
     requested_revision_id := requested_revision_id r; refresh_service_mesh := refresh_service_mesh r;
     cpu_milli := cpu_milli r; memory_bytes := memory_bytes r; storage_bytes := storage_bytes r;
     grant := grant r; issued_at_secs := issued_at_secs r; expires_at_secs := expires_at_secs r;
     nonce := nonce r; owner_signature := s |}.

Section Operations.
Context {P : Primitives} {CG : Postcard DeploymentGrant} {C : Postcard UpdateRequest}.

Definition canonical_bytes (r : UpdateRequest) : Result bytes := canonical (set_owner_signature "" r).

Definition sign (r : UpdateRequest) (owner_private : bytes) : Result UpdateRequest :=
  c ← canonical_bytes (set_owner_signature "" r);
  s ← sign_domain owner_private Crypto.UpdateRequest c;
  Ok (set_owner_signature (b64_encode s) r).

Definition verify (r : UpdateRequest) (now_secs : Z) : Result unit :=
  ensure! version r =? AGENT_PROTOCOL_VERSION else Err "unsupported update request version" ;;
  owner ← decode_fixed (namespace_id r) 32 "namespace_id";
  _ ← decode_fixed (target_node_id r) 32 "target_node_id";
  _ ← decode_fixed (response_kem_pubkey r) 32 "response_kem_pubkey";
  _ ← validate_hex_id (workload_id r) "workload_id";
  _ ← validate_hex_id (expected_revision_id r) "expected_revision_id";
  _ ← validate_hex_id (requested_revision_id r) "requested_revision_id";
  ensure! bounded 128 (request_id r) else Err "invalid request_id" ;;
  ensure! bounded 128 (nonce r) else Err "invalid nonce" ;;
  ensure! (0 <? cpu_milli r) && (0 <? memory_bytes r) && (0 <? storage_bytes r)
    else Err "update resources must be non-zero" ;;
  _ ← Grant.verify (grant r) now_secs;
  ensure! bool_decide (Grant.namespace_id (grant r) = namespace_id r) &&
          bool_decide (Grant.workload_id (grant r) = workload_id r) &&
          bool_decide (Grant.target_node_id (grant r) = target_node_id r) &&
          bool_decide (Grant.response_kem_pubkey (grant r) = response_kem_pubkey r) &&
          bool_decide (Grant.revision_id (grant r) = requested_revision_id r)
    else Err "update grant binding mismatch" ;;
  _ ← validate_validity_window (issued_at_secs r) (expires_at_secs r) now_secs "update request";
  signature ← decode_fixed (owner_signature r) 64 "owner_signature";
  c ← canonical_bytes r;
  verify_domain owner Crypto.UpdateRequest c signature.
End Operations.

Inductive UpdateOutcome := Applied | AlreadyActive | Conflict | Rejected.

Record UpdateResponse := {
  response_version : Z;
  response_request_id : string;
  response_expected_revision_id : string;
  response_requested_revision_id : string;
  receipt : Receipt.DeploymentReceipt;
  outcome : UpdateOutcome;
  reason : string;
  responded_at_secs : Z;
  response_signature : string
}.

Definition set_response_signature (s : string) (r : UpdateResponse) : UpdateResponse :=
  {| response_version := response_version r; response_request_id := response_request_id r;
     response_expected_revision_id := response_expected_revision_id r;
     response_requested_revision_id := response_requested_revision_id r; receipt := receipt r;
     outcome := outcome r; reason := reason r; responded_at_secs := responded_at_secs r;
     response_signature := s |}.

Section Response.
Context {P : Primitives} {CR : Postcard Receipt.DeploymentReceipt} {C : Postcard UpdateResponse}.

Definition response_canonical_bytes (r : UpdateResponse) : Result bytes :=
  canonical (set_response_signature "" r).

Definition sign_response (r : UpdateResponse) (signing_public signing_private : bytes) : Result UpdateResponse :=
  ensure! bool_decide (Receipt.agent_node_id (receipt r) = b64_encode signing_public)
    else Err "update response receipt signer mismatch" ;;
  let r := set_response_signature "" r in
  c ← response_canonical_bytes r;
  s ← sign_domain signing_private Crypto.UpdateResponse c;
  Ok (set_response_signature (b64_encode s) r).

Definition verify_response (r : UpdateResponse) (now_secs : Z) : Result unit :=
  ensure! response_version r =? AGENT_PROTOCOL_VERSION else Err "unsupported update response version" ;;
  _ ← validate_hex_id (response_expected_revision_id r) "expected_revision_id";
  _ ← validate_hex_id (response_requested_revision_id r) "requested_revision_id";
  _ ← Receipt.verify (receipt r);
  ensure! bounded 128 (response_request_id r) else Err "invalid request_id" ;;
  ensure! str_len (reason r) <=? 1024 else Err "update response field length is invalid" ;;
  ensure! responded_at_secs r <=? saturating_add u64_max now_secs MAX_AGENT_CLOCK_SKEW_SECS
    else Err "update response was issued too far in the future" ;;
  signature ← decode_fixed (response_signature r) 64 "signature";
  agent ← b64_decode (Receipt.agent_node_id (receipt r));
  c ← response_canonical_bytes r;
  verify_domain agent Crypto.UpdateResponse c signature.
End Response.
End Update.

(** ** Commands *)
Module Command.
Inductive WorkloadOperation :=
| Status
| Logs
| Delete
| ConnectorInspect
| SeedPeer (record : Discovery.ReplicaServiceRecord).

Record WorkloadCommand := {
  version : Z;
  request_id : string;
  namespace_id : string;
  workload_id : string;
  target_node_id : string;
  operation : WorkloadOperation;
  log_tail : option Z;
  response_kem_pubkey : string;
  issued_at_secs : Z;
  expires_at_secs : Z;
  nonce : string;
  owner_signature : string
}.

Definition set_owner_signature (s : string) (r : WorkloadCommand) : WorkloadCommand :=
  {| version := version r; request_id := request_id r; namespace_id := namespace_id r;
     workload_id := workload_id r; target_node_id := target_node_id r; operation := operation r;
     log_tail := log_tail r; response_kem_pubkey := response_kem_pubkey r;
     issued_at_secs := issued_at_secs r; expires_at_secs := expires_at_secs r; nonce := nonce r;
     owner_signature := s |}.

Section Operations.
Context {P : Primitives} {C : Postcard WorkloadCommand}.

Definition canonical_bytes (r : WorkloadCommand) : Result bytes := canonical (set_owner_signature "" r).

Definition sign (r : WorkloadCommand) (owner_private : bytes) : Result WorkloadCommand :=
  c ← canonical_bytes (set_owner_signature "" r);
  s ← sign_domain owner_private Crypto.WorkloadCommand c;
  Ok (set_owner_signature (b64_encode s) r).

Definition verify (r : WorkloadCommand) (now_secs : Z) : Result unit :=
  ensure! version r =? AGENT_PROTOCOL_VERSION else Err "unsupported workload command version" ;;
  owner ← decode_fixed (namespace_id r) 32 "namespace_id";
  _ ← decode_fixed (target_node_id r) 32 "target_node_id";
  _ ← decode_fixed (response_kem_pubkey r) 32 "response_kem_pubkey";
  _ ← validate_hex_id (workload_id r) "workload_id";
  ensure! bounded 128 (request_id r) else Err "invalid request_id" ;;
  ensure! bounded 128 (nonce r) else Err "invalid nonce" ;;
  _ ← validate_validity_window (issued_at_secs r) (expires_at_secs r) now_secs "workload command";
  ensure! default 0 (log_tail r) <=? 10000 else Err "log tail exceeds limit" ;;
  signature ← decode_fixed (owner_signature r) 64 "owner_signature";
  c ← canonical_bytes r;
  verify_domain owner Crypto.WorkloadCommand c signature.
End Operations.

Record WorkloadCommandResponse := {
  response_version : Z;
  response_request_id : string;
  response_workload_id : string;
  agent_node_id : string;
  ok : bool;
  payload : string;
  responded_at_secs : Z;
  signature : string
}.

Definition set_signature (s : string) (r : WorkloadCommandResponse) : WorkloadCommandResponse :=
  {| response_version := response_version r; response_request_id := response_request_id r;
     response_workload_id := response_workload_id r; agent_node_id := agent_node_id r; ok := ok r;
     payload := payload r; responded_at_secs := responded_at_secs r; signature := s |}.
Definition set_agent_node_id (s : string) (r : WorkloadCommandResponse) : WorkloadCommandResponse :=
  {| response_version := response_version r; response_request_id := response_request_id r;
     response_workload_id := response_workload_id r; agent_node_id := s; ok := ok r;
     payload := payload r; responded_at_secs := responded_at_secs r; signature := signature r |}.

Section Response.
Context {P : Primitives} {C : Postcard WorkloadCommandResponse}.

Definition response_canonical_bytes (r : WorkloadCommandResponse) : Result bytes :=
  canonical (set_signature "" r).

Definition sign_response (r : WorkloadCommandResponse) (signing_public signing_private : bytes)
    : Result WorkloadCommandResponse :=
  let r := set_signature "" (set_agent_node_id (b64_encode signing_public) r) in
  c ← response_canonical_bytes r;
  s ← sign_domain signing_private Crypto.WorkloadCommandResponse c;
  Ok (set_signature (b64_encode s) r).

Definition verify_response (r : WorkloadCommandResponse) : Result unit :=
  ensure! response_version r =? AGENT_PROTOCOL_VERSION else Err "unsupported workload response version" ;;
  agent ← decode_fixed (agent_node_id r) 32 "agent_node_id";
  _ ← validate_hex_id (response_workload_id r) "workload_id";
  ensure! str_len (payload r) <=? 1024 * 1024 else Err "workload response payload too large" ;;
  s ← decode_fixed (signature r) 64 "signature";
  c ← response_canonical_bytes r;
  verify_domain agent Crypto.WorkloadCommandResponse c s.
End Response.
End Command.

(** ** The answer to a list request *)
Module Listing.
Record WorkloadSummary := {
  workload_id : string;
  workload_name : string;
  revision_id : string;
  replica_index : Z;
  replica_count : Z;
  state : string;
  deploying_since_secs : Z;
  receipt : Receipt.DeploymentReceipt
}.

Record WorkloadListResponse := {
  version : Z;
  request_id : string;
  agent_node_id : string;
  agent_endpoint : EndpointRecord;
  agent_kem_pubkey : string;
  workloads : list WorkloadSummary;
  responded_at_secs : Z;
  signature : string
}.

Definition set_signature (s : string) (r : WorkloadListResponse) : WorkloadListResponse :=
  {| version := version r; request_id := request_id r; agent_node_id := agent_node_id r;
     agent_endpoint := agent_endpoint r; agent_kem_pubkey := agent_kem_pubkey r;
     workloads := workloads r; responded_at_secs := responded_at_secs r; signature := s |}.
Definition set_agent_node_id (s : string) (r : WorkloadListResponse) : WorkloadListResponse :=
  {| version := version r; request_id := request_id r; agent_node_id := s;
     agent_endpoint := agent_endpoint r; agent_kem_pubkey := agent_kem_pubkey r;
     workloads := workloads r; responded_at_secs := responded_at_secs r; signature := signature r |}.

Section Operations.
Context {P : Primitives} {CE : Postcard EndpointRecord} {CR : Postcard Receipt.DeploymentReceipt}.
Context {C : Postcard WorkloadListResponse}.

Definition canonical_bytes (r : WorkloadListResponse) : Result bytes := canonical (set_signature "" r).

(** [self.signature] is not cleared first; [canonical_bytes] clears its copy. *)
Definition sign (r : WorkloadListResponse) (signing_public signing_private : bytes) : Result WorkloadListResponse :=
  let r := set_agent_node_id (b64_encode signing_public) r in
  c ← canonical_bytes r;
  s ← sign_domain signing_private Crypto.WorkloadListResponse c;
  Ok (set_signature (b64_encode s) r).

(** The loop over the summaries of the answer of [node]. *)
Fixpoint verify_summaries (node : string) (l : list WorkloadSummary) : Result unit :=
  match l with
  | [] => Ok tt
  | w :: rest =>
      _ ← validate_hex_id (workload_id w) "workload_id";
      _ ← validate_hex_id (revision_id w) "revision_id";
      ensure! (str_len (state w) <=? 128) && (str_len (workload_name w) <=? 253)
        else Err "workload summary field exceeds its bound" ;;
      _ ← Receipt.verify (receipt w);
      ensure! bool_decide (Receipt.workload_id (receipt w) = workload_id w) &&
              bool_decide (Receipt.revision_id (receipt w) = revision_id w) &&
              bool_decide (Receipt.agent_node_id (receipt w) = node)
        else Err "workload summary receipt does not match the reported placement" ;;
      verify_summaries node rest
  end.

Definition verify (r : WorkloadListResponse) : Result unit :=
  ensure! version r =? AGENT_PROTOCOL_VERSION else Err "unsupported workload list response version" ;;
  agent ← decode_fixed (agent_node_id r) 32 "agent_node_id";
  _ ← decode_fixed (agent_kem_pubkey r) 32 "agent_kem_pubkey";
  _ ← EndpointRecord.verify (agent_endpoint r) (responded_at_secs r);
  ensure! bool_decide (EndpointRecord.signing_pubkey (agent_endpoint r) = agent_node_id r)
    else Err "workload list endpoint does not belong to the responding agent" ;;
  ensure! len (workloads r) <=? MAX_LISTED_WORKLOADS
    else Err "workload list response exceeds 10000 entries" ;;
  _ ← verify_summaries (agent_node_id r) (workloads r);
  s ← decode_fixed (signature r) 64 "signature";
  c ← canonical_bytes r;
  verify_domain agent Crypto.WorkloadListResponse c s.
End Operations.
End Listing.

(** ** What verification accepts *)
Section Acceptance.
Context {P : Primitives}.

(** The field holds base64 of exactly [n] bytes. *)
Definition fixed (s : string) (n : Z) : Prop := exists k, b64_decode s = Ok k /\ len k = n.

Lemma decode_fixed_iff s n f k : decode_fixed s n f = Ok k <-> b64_decode s = Ok k /\ len k = n.
Proof.
  unfold decode_fixed. destruct (b64_decode s) as [d|]; cbn; [|naive_solver].
  destruct (Z.eqb_spec (len d) n); naive_solver.
Qed.

Definition hex64 (s : string) : Prop := str_len s = 64 /\ all_char is_ascii_hexdigit s = true.

Lemma validate_hex_id_iff s f : validate_hex_id s f = Ok tt <-> hex64 s.
Proof. unfold validate_hex_id, hex64. rewrite !Signed.ensure_iff, Z.eqb_eq. tauto. Qed.

Definition window_open (issued expires now : Z) : Prop :=
  issued <= saturating_add u64_max now 60 /\ issued < expires <= issued + 300 /\
  now <= saturating_add u64_max expires 60.

Lemma validate_window_iff issued expires now what :
  validate_validity_window issued expires now what = Ok tt <-> window_open issued expires now.
Proof.
  unfold validate_validity_window, window_open, MAX_AGENT_CLOCK_SKEW_SECS, MAX_AGENT_MESSAGE_LIFETIME_SECS.
  rewrite !Signed.ensure_iff, !Z.leb_le, Z.ltb_lt. intuition lia.
Qed.

(** A 64-byte signature by the 32-byte key [key] names, over the encoding of [a]. *)
Definition signed_over {A} (CA : Postcard A) (key sig : string) (d : SignatureDomain) (a : A) : Prop :=
  exists k s c, b64_decode key = Ok k /\ len k = 32 /\ b64_decode sig = Ok s /\ len s = 64 /\
    canonical a = Ok c /\ verify_domain k d c s = Ok tt.

(** The checks the requests addressed to one agent share. *)
Record addressed (version : Z) (target kem workload nonce : string) (issued expires now : Z) : Prop := {
  addressed_version : version = AGENT_PROTOCOL_VERSION;
  addressed_target : fixed target 32;
  addressed_kem : fixed kem 32;
  addressed_workload : hex64 workload;
  addressed_nonce : bounded 128 nonce = true;
  addressed_window : window_open issued expires now
}.

Ltac fields_of H :=
  Signed.result_steps H;
  repeat match goal with
  | Hf : decode_fixed _ _ _ = Ok _ |- _ => apply decode_fixed_iff in Hf as [? ?]
  | Hf : validate_hex_id _ _ = Ok tt |- _ => apply validate_hex_id_iff in Hf
  | Hf : validate_validity_window _ _ _ _ = Ok tt |- _ => apply validate_window_iff in Hf
  end.

Ltac give_fields :=
  repeat match goal with
  | Hf : fixed _ _ |- _ => let k := fresh "k" in destruct Hf as (k & ? & ?)
  end;
  repeat first
    [ apply Signed.ensure_iff; split; [solve [eauto | by apply Z.eqb_eq]|]
    | apply Signed.bind_tt_iff; eexists; split;
        [solve [eauto | by apply decode_fixed_iff | by apply validate_hex_id_iff | by apply validate_window_iff]|] ].

Ltac accept_iff :=
  split;
  [ let Hv := fresh in intros Hv; fields_of Hv; bool_props;
    repeat match goal with
    | |- _ /\ _ => split
    | |- addressed _ _ _ _ _ _ _ _ => constructor
    | |- fixed _ _ => by eexists
    | |- signed_over _ _ _ _ _ => by do 3 eexists
    end; (assumption || lia)
  | let Ha := fresh in intros Ha; split_and_all;
    match goal with Hs : signed_over _ _ _ _ _ |- _ => destruct Hs as (k & s & c & ? & ? & ? & ? & ? & ?) end;
    match goal with Hr : addressed _ _ _ _ _ _ _ _ |- _ => destruct Hr end; give_fields; eassumption ].

Lemma admission_verify_iff {C : Postcard Admission.AdmissionRequest} (r : Admission.AdmissionRequest) now :
  Admission.verify r now = Ok tt <->
  addressed (Admission.version r) (Admission.target_node_id r) (Admission.response_kem_pubkey r)
    (Admission.workload_id r) (Admission.nonce r) (Admission.issued_at_secs r) (Admission.expires_at_secs r) now /\
  bounded 128 (Admission.request_id r) = true /\
  signed_over C (Admission.namespace_id r) (Admission.owner_signature r) Crypto.AdmissionRequest
    (Admission.set_owner_signature "" r).
Proof. unfold Admission.verify. accept_iff. Qed.

Lemma grant_verify_iff {C : Postcard Grant.DeploymentGrant} (g : Grant.DeploymentGrant) now :
  Grant.verify g now = Ok tt <->
  addressed (Grant.version g) (Grant.target_node_id g) (Grant.response_kem_pubkey g) (Grant.workload_id g)
    (Grant.nonce g) (Grant.issued_at_secs g) (Grant.expires_at_secs g) now /\
  hex64 (Grant.revision_id g) /\ Spec.validate_capsule (Grant.capsule g) = Ok tt /\
  bounded 128 (Grant.reservation_id g) = true /\
  signed_over C (Grant.namespace_id g) (Grant.owner_signature g) Crypto.DeploymentGrant
    (Grant.set_owner_signature "" g).
Proof. unfold Grant.verify. accept_iff. Qed.

Lemma command_verify_iff {C : Postcard Command.WorkloadCommand} (r : Command.WorkloadCommand) now :
  Command.verify r now = Ok tt <->
  addressed (Command.version r) (Command.target_node_id r) (Command.response_kem_pubkey r)
    (Command.workload_id r) (Command.nonce r) (Command.issued_at_secs r) (Command.expires_at_secs r) now /\
  bounded 128 (Command.request_id r) = true /\ (default 0 (Command.log_tail r) <=? 10000) = true /\
  signed_over C (Command.namespace_id r) (Command.owner_signature r) Crypto.WorkloadCommand
    (Command.set_owner_signature "" r).
Proof. unfold Command.verify. accept_iff. Qed.

(** The grant inside an update is for the same workload, agent and response
    key, and for the revision requested. *)
Definition update_binds (r : Update.UpdateRequest) : Prop :=
  Grant.namespace_id (Update.grant r) = Update.namespace_id r /\
  Grant.workload_id (Update.grant r) = Update.workload_id r /\
  Grant.target_node_id (Update.grant r) = Update.target_node_id r /\
  Grant.response_kem_pubkey (Update.grant r) = Update.response_kem_pubkey r /\
  Grant.revision_id (Update.grant r) = Update.requested_revision_id r.

Lemma update_verify_iff {CG : Postcard Grant.DeploymentGrant} {C : Postcard Update.UpdateRequest}
    (r : Update.UpdateRequest) now :
  Update.verify r now = Ok tt <->
  addressed (Update.version r) (Update.target_node_id r) (Update.response_kem_pubkey r)
    (Update.workload_id r) (Update.nonce r) (Update.issued_at_secs r) (Update.expires_at_secs r) now /\
  hex64 (Update.expected_revision_id r) /\ hex64 (Update.requested_revision_id r) /\
  bounded 128 (Update.request_id r) = true /\
  (0 < Update.cpu_milli r /\ 0 < Update.memory_bytes r /\ 0 < Update.storage_bytes r) /\
  Grant.verify (Update.grant r) now = Ok tt /\ update_binds r /\
  signed_over C (Update.namespace_id r) (Update.owner_signature r) Crypto.UpdateRequest
    (Update.set_owner_signature "" r).
Proof.
  assert ((bool_decide (Grant.namespace_id (Update.grant r) = Update.namespace_id r) &&
    bool_decide (Grant.workload_id (Update.grant r) = Update.workload_id r) &&
    bool_decide (Grant.target_node_id (Update.grant r) = Update.target_node_id r) &&
    bool_decide (Grant.response_kem_pubkey (Update.grant r) = Update.response_kem_pubkey r) &&
    bool_decide (Grant.revision_id (Update.grant r) = Update.requested_revision_id r))%bool = true
    <-> update_binds r) as Hb.
  { unfold update_binds. rewrite !andb_true_iff, !bool_decide_eq_true. tauto. }
  assert (((0 <? Update.cpu_milli r) && (0 <? Update.memory_bytes r) && (0 <? Update.storage_bytes r))%bool = true
    <-> 0 < Update.cpu_milli r /\ 0 < Update.memory_bytes r /\ 0 < Update.storage_bytes r) as Hp.
  { rewrite !andb_true_iff, !Z.ltb_lt. tauto. }
  rewrite <- Hb, <- Hp. unfold Update.verify. accept_iff.
Qed.

(** An agent accepts an owner's request exactly when it is well formed,
    addressed to one agent, inside its validity window and signed by the
    namespace key it names over its own content; an update moreover carries a
    grant that is acceptable by itself, for the same workload and agent and for
    the revision it asks for. *)
Theorem owner_requests_accepted {CA : Postcard Admission.AdmissionRequest} {CG : Postcard Grant.DeploymentGrant}
    {CU : Postcard Update.UpdateRequest} {CC : Postcard Command.WorkloadCommand} (now : Z) :
  (forall r, Admission.verify r now = Ok tt <->
     addressed (Admission.version r) (Admission.target_node_id r) (Admission.response_kem_pubkey r)
       (Admission.workload_id r) (Admission.nonce r) (Admission.issued_at_secs r) (Admission.expires_at_secs r) now /\
     bounded 128 (Admission.request_id r) = true /\
     signed_over CA (Admission.namespace_id r) (Admission.owner_signature r) Crypto.AdmissionRequest
       (Admission.set_owner_signature "" r)) /\
  (forall g, Grant.verify g now = Ok tt <->
     addressed (Grant.version g) (Grant.target_node_id g) (Grant.response_kem_pubkey g) (Grant.workload_id g)
       (Grant.nonce g) (Grant.issued_at_secs g) (Grant.expires_at_secs g) now /\
     hex64 (Grant.revision_id g) /\ Spec.validate_capsule (Grant.capsule g) = Ok tt /\
     bounded 128 (Grant.reservation_id g) = true /\
     signed_over CG (Grant.namespace_id g) (Grant.owner_signature g) Crypto.DeploymentGrant
       (Grant.set_owner_signature "" g)) /\
  (forall r, Update.verify r now = Ok tt <->
     addressed (Update.version r) (Update.target_node_id r) (Update.response_kem_pubkey r)
       (Update.workload_id r) (Update.nonce r) (Update.issued_at_secs r) (Update.expires_at_secs r) now /\
     hex64 (Update.expected_revision_id r) /\ hex64 (Update.requested_revision_id r) /\
     bounded 128 (Update.request_id r) = true /\
     (0 < Update.cpu_milli r /\ 0 < Update.memory_bytes r /\ 0 < Update.storage_bytes r) /\
     Grant.verify (Update.grant r) now = Ok tt /\ update_binds r /\
     signed_over CU (Update.namespace_id r) (Update.owner_signature r) Crypto.UpdateRequest
       (Update.set_owner_signature "" r)) /\
  (forall r, Command.verify r now = Ok tt <->
     addressed (Command.version r) (Command.target_node_id r) (Command.response_kem_pubkey r)
       (Command.workload_id r) (Command.nonce r) (Command.issued_at_secs r) (Command.expires_at_secs r) now /\
     bounded 128 (Command.request_id r) = true /\ (default 0 (Command.log_tail r) <=? 10000) = true /\
     signed_over CC (Command.namespace_id r) (Command.owner_signature r) Crypto.WorkloadCommand
       (Command.set_owner_signature "" r)).
Proof.
  split_and!; intros r;
    [apply admission_verify_iff|apply grant_verify_iff|apply update_verify_iff|apply command_verify_iff].
Qed.

(** What the owner signs satisfies the signature part of the check. *)
Lemma sign_signed_over {L : PrimitiveLaws P} {A} (CA : Postcard A) (sk c s : bytes) (d : SignatureDomain) (a : A) :
  ed_key_weak (ed_public sk) = false -> canonical a = Ok c -> sign_domain sk d c = Ok s ->
  signed_over CA (b64_encode (ed_public sk)) (b64_encode s) d a.
Proof.
  intros Hweak Hc Hs. destruct (sign_verify_domain _ _ _ _ Hweak Hs) as [Hv Hlen].
  exists (ed_public sk), s, c. rewrite !b64_roundtrip. split_and!; try done.
  apply ed_public_len. unfold sign_domain, signing_key_from in Hs.
  destruct (try_into _ _ _) eqn:Ht; [|done]. by apply try_into_inv in Ht as [? _].
Qed.

End Acceptance.

End AgentMessages.
