(* ===== verification/AgentControl.v ===== *)
(** * Control frames (shared/protocol/src/agent_control.rs and agent_control_relay.rs)

    The frames that carry sealed owner messages to an agent, and those with
    which one scheduler relays them through another. *)

From S2P Require Import Prelude Net Crypto Signed EndpointRecord CapacityProtocol MeshProtocol Messages AgentIds.

Module AgentControl.
Import Crypto.
Import EndpointRecord (IROH_ENDPOINT_ID_BYTES).

Definition AGENT_CONTROL_PROTOCOL_VERSION : Z := 1.
Definition MAX_AGENT_CONTROL_PAYLOAD_BYTES : Z := 20 * 1024 * 1024.
Definition MAX_AGENT_CONTROL_FRAME_BYTES : Z := MAX_AGENT_CONTROL_PAYLOAD_BYTES + 1024.

Inductive AgentControlOperation := Admission | Deploy | Update | Command | List.

Record AgentControlRequest := {
  request_version : Z;
  operation : AgentControlOperation;
  request_payload : bytes
}.

Inductive AgentControlError := Rejected | Busy.

Record AgentControlResponse := {
  response_version : Z;
  response_ok : bool;
  response_payload : bytes;
  response_error : option AgentControlError
}.

Definition success (encrypted_payload : bytes) : AgentControlResponse :=
  {| response_version := AGENT_CONTROL_PROTOCOL_VERSION; response_ok := true;
     response_payload := encrypted_payload; response_error := None |}.
Definition rejected : AgentControlResponse :=
  {| response_version := AGENT_CONTROL_PROTOCOL_VERSION; response_ok := false;
     response_payload := []; response_error := Some Rejected |}.

Definition is_none {A} (o : option A) : bool := match o with None => true | Some _ => false end.

Definition validate_payload (payload : bytes) : Result unit :=
  ensure! (0 <? len payload) && (len payload <=? MAX_AGENT_CONTROL_PAYLOAD_BYTES)
    else Err "agent control payload size is invalid" ;;
  Ok tt.

Definition validate_frame_size (b : bytes) : Result unit :=
  ensure! (0 <? len b) && (len b <=? MAX_AGENT_CONTROL_FRAME_BYTES)
    else Err "agent control frame size is invalid" ;;
  Ok tt.

Definition encode_bounded {A} `{Postcard A} (value : A) : Result bytes :=
  b ← ok_or (to_allocvec value) "serialize agent control frame";
  _ ← validate_frame_size b;
  Ok b.

Definition validate_request (r : AgentControlRequest) : Result unit :=
  ensure! request_version r =? AGENT_CONTROL_PROTOCOL_VERSION
    else Err "unsupported agent control protocol version" ;;
  validate_payload (request_payload r).

Definition validate_response (r : AgentControlResponse) : Result unit :=
  ensure! response_version r =? AGENT_CONTROL_PROTOCOL_VERSION
    else Err "unsupported agent control response version" ;;
  ensure! eqb (response_ok r) (is_none (response_error r))
    else Err "agent control response result is ambiguous" ;;
  if response_ok r then validate_payload (response_payload r)
  else
    ensure! bool_decide (response_payload r = [])
      else Err "rejected agent response cannot contain a payload" ;;
    Ok tt.

Section Frames.
Context {CQ : Postcard AgentControlRequest} {CS : Postcard AgentControlResponse}.

Definition request_to_bytes (r : AgentControlRequest) : Result bytes :=
  _ ← validate_request r; encode_bounded r.
Definition request_from_bytes (b : bytes) : Result AgentControlRequest :=
  _ ← validate_frame_size b;
  request ← ok_or (from_postcard b) "decode agent control request";
  _ ← validate_request request;
  Ok request.
Definition response_to_bytes (r : AgentControlResponse) : Result bytes :=
  _ ← validate_response r; encode_bounded r.
Definition response_from_bytes (b : bytes) : Result AgentControlResponse :=
  _ ← validate_frame_size b;
  response ← ok_or (from_postcard b) "decode agent control response";
  _ ← validate_response response;
  Ok response.
End Frames.

(** ** Relaying *)
Module Relay.
Definition AGENT_CONTROL_RELAY_PROTOCOL_VERSION : Z := 1.
Definition AGENT_CONTROL_RELAY_FRAME_OVERHEAD_BYTES : Z := 1024.
Definition MAX_AGENT_CONTROL_RELAY_FRAME_BYTES : Z :=
  MAX_AGENT_CONTROL_PAYLOAD_BYTES + AGENT_CONTROL_RELAY_FRAME_OVERHEAD_BYTES.

Inductive AgentControlRelayIntent :=
| Locate
| Forward (operation : AgentControlOperation)
| LocationAnswer.

Record AgentControlRelayRequest := {
  version : Z;
  agent_endpoint_id : bytes;
  intent : AgentControlRelayIntent;
  query_id : string;
  encrypted_payload : bytes
}.

Definition location_answer (agent_endpoint_id : bytes) (query_id : string) : AgentControlRelayRequest :=
  {| version := AGENT_CONTROL_RELAY_PROTOCOL_VERSION; agent_endpoint_id := agent_endpoint_id;
     intent := LocationAnswer; query_id := query_id; encrypted_payload := [] |}.
Definition locate (agent_endpoint_id : bytes) : AgentControlRelayRequest :=
  {| version := AGENT_CONTROL_RELAY_PROTOCOL_VERSION; agent_endpoint_id := agent_endpoint_id;
     intent := Locate; query_id := ""; encrypted_payload := [] |}.
Definition forward (agent_endpoint_id : bytes) (operation : AgentControlOperation) (payload : bytes)
    : AgentControlRelayRequest :=
  {| version := AGENT_CONTROL_RELAY_PROTOCOL_VERSION; agent_endpoint_id := agent_endpoint_id;
     intent := Forward operation; query_id := ""; encrypted_payload := payload |}.

Inductive AgentControlRelayError := UnknownAgent | RelayBusy | RelayRejected | Unavailable.

Record AgentControlRelayResponse := {
  relay_version : Z;
  relay_ok : bool;
  relay_payload : bytes;
  relay_error : option AgentControlRelayError
}.

Definition located : AgentControlRelayResponse :=
  {| relay_version := AGENT_CONTROL_RELAY_PROTOCOL_VERSION; relay_ok := true; relay_payload := [];
     relay_error := None |}.
Definition delivered (payload : bytes) : AgentControlRelayResponse :=
  {| relay_version := AGENT_CONTROL_RELAY_PROTOCOL_VERSION; relay_ok := true; relay_payload := payload;
     relay_error := None |}.
Definition failed (e : AgentControlRelayError) : AgentControlRelayResponse :=
  {| relay_version := AGENT_CONTROL_RELAY_PROTOCOL_VERSION; relay_ok := false; relay_payload := [];
     relay_error := Some e |}.

Definition validate_relay_frame_size (b : bytes) : Result unit :=
  ensure! (0 <? len b) && (len b <=? MAX_AGENT_CONTROL_RELAY_FRAME_BYTES)
    else Err "agent control relay frame size is invalid" ;;
  Ok tt.

Definition is_location_answer (i : AgentControlRelayIntent) : bool :=
  match i with LocationAnswer => true | _ => false end.

Definition validate_relay_request (r : AgentControlRelayRequest) : Result unit :=
  ensure! version r =? AGENT_CONTROL_RELAY_PROTOCOL_VERSION
    else Err "unsupported agent control relay protocol version" ;;
  ensure! len (agent_endpoint_id r) =? IROH_ENDPOINT_ID_BYTES
    else Err "relayed agent EndpointId must contain 32 bytes" ;;
  _ ← match intent r with
      | Locate =>
          ensure! bool_decide (encrypted_payload r = []) else Err "a locate probe cannot carry a payload" ;;
          Ok tt
      | Forward _ =>
          ensure! (0 <? len (encrypted_payload r)) &&
                  (len (encrypted_payload r) <=? MAX_AGENT_CONTROL_PAYLOAD_BYTES)
            else Err "relayed agent control payload size is invalid" ;;
          Ok tt
      | LocationAnswer =>
          ensure! bool_decide (encrypted_payload r = [])
            else Err "a location answer cannot carry a payload" ;;
          ensure! AgentIds.bounded 128 (query_id r)
            else Err "a location answer must name the query it answers" ;;
          Ok tt
      end;
  ensure! is_location_answer (intent r) || str_is_empty (query_id r)
    else Err "only a location answer carries a query id" ;;
  Ok tt.

Definition validate_relay_response (r : AgentControlRelayResponse) : Result unit :=
  ensure! relay_version r =? AGENT_CONTROL_RELAY_PROTOCOL_VERSION
    else Err "unsupported agent control relay response version" ;;
  ensure! eqb (relay_ok r) (is_none (relay_error r))
    else Err "agent control relay response result is ambiguous" ;;
  if relay_ok r then
    ensure! len (relay_payload r) <=? MAX_AGENT_CONTROL_PAYLOAD_BYTES
      else Err "relayed agent control response payload is too large" ;;
    Ok tt
  else
    ensure! bool_decide (relay_payload r = []) else Err "a failed relay response cannot contain a payload" ;;
    Ok tt.

Definition relay_encode_bounded {A} `{Postcard A} (value : A) : Result bytes :=
  b ← ok_or (to_allocvec value) "serialize agent control relay frame";
  _ ← validate_relay_frame_size b;
  Ok b.

Section RelayFrames.
Context {CQ : Postcard AgentControlRelayRequest} {CS : Postcard AgentControlRelayResponse}.

Definition relay_request_to_bytes (r : AgentControlRelayRequest) : Result bytes :=
  _ ← validate_relay_request r; relay_encode_bounded r.
Definition relay_request_from_bytes (b : bytes) : Result AgentControlRelayRequest :=
  _ ← validate_relay_frame_size b;
  request ← ok_or (from_postcard b) "decode agent control relay request";
  _ ← validate_relay_request request;
  Ok request.
Definition relay_response_to_bytes (r : AgentControlRelayResponse) : Result bytes :=
  _ ← validate_relay_response r; relay_encode_bounded r.
Definition relay_response_from_bytes (b : bytes) : Result AgentControlRelayResponse :=
  _ ← validate_relay_frame_size b;
  response ← ok_or (from_postcard b) "decode agent control relay response";
  _ ← validate_relay_response response;
  Ok response.
End RelayFrames.

(** A relay request carries a payload exactly when it forwards one, and a query
    id exactly when it answers a location query. *)
Lemma relay_request_shape r :
  validate_relay_request r = Ok tt ->
  len (agent_endpoint_id r) = 32 /\
  ((exists op, intent r = Forward op) <-> encrypted_payload r <> []) /\
  (intent r = LocationAnswer <-> query_id r <> EmptyString) /\
  len (encrypted_payload r) <= MAX_AGENT_CONTROL_PAYLOAD_BYTES.
Proof.
  unfold validate_relay_request. intros Hv. Signed.result_steps Hv. bool_props.
  split; [done|]. unfold MAX_AGENT_CONTROL_PAYLOAD_BYTES in *.
  destruct (intent r) eqn:Hi; cbn in Hc1; Signed.ensure_inv Hx; bool_props;
    repeat match goal with H : encrypted_payload r = [] |- _ => rewrite H in * end;
    unfold str_is_empty, AgentIds.bounded in *; bool_props;
    (split; [|split]); try (change (len (@nil byte)) with 0); try lia;
    try (split; [|naive_solver]; naive_solver).
  split; [intros _ Hnil; rewrite Hnil in *; change (len (@nil byte)) with 0 in *; lia|eauto].
Qed.

End Relay.
End AgentControl.
