(* ===== verification/Tasks.v ===== *)
(** * Concurrent tasks over shared state

    The agent serves every request in a task of its own.  A task is a program
    made of atomic steps: what it does between two points where it waits, or
    while it holds a lock.  Other tasks run between the steps in any order, and
    a task can be cancelled between two of its steps, which drops what it holds.
    This file gives programs, pools of tasks and their runs, and a
    rely-guarantee rule: a property of the shared state that each task keeps,
    assuming the others respect what it relies on, holds throughout every run.

    [Choice] is what the environment supplies to a step: clock readings, random
    identifiers, the outcome of input and output. *)

From S2P Require Import Prelude.

Module Tasks.

Abbreviation Tid := nat (only parsing).

Inductive Prog (World Choice A : Type) : Type :=
| Ret (a : A)
| Step {B : Type} (f : Tid -> Choice -> World -> World * B) (k : B -> Prog World Choice A).
Arguments Ret {World Choice A} a.
Arguments Step {World Choice A B} f k.

Section Programs.
Context {World Choice : Type}.

Fixpoint prog_bind {A B} (p : Prog World Choice A) (g : A -> Prog World Choice B) : Prog World Choice B :=
  match p with
  | Ret a => g a
  | Step f k => Step f (fun b => prog_bind (k b) g)
  end.

(** One atomic step that answers its own result. *)
Definition step {A} (f : Tid -> Choice -> World -> World * A) : Prog World Choice A := Step f Ret.

(** A pool of running tasks and what can happen to it. *)
Definition Pool : Type := Tid -> option (Prog World Choice unit).

Inductive Event :=
| Run (i : Tid) (c : Choice)
| Spawn (i : Tid) (p : Prog World Choice unit)
| Cancel (i : Tid).

Definition set_task (i : Tid) (o : option (Prog World Choice unit)) (pool : Pool) : Pool :=
  fun j => if Nat.eqb i j then o else pool j.

(** [release i] is what dropping task [i] does to the shared state. *)
Definition pool_step (release : Tid -> World -> World) (s : World * Pool) (e : Event) : World * Pool :=
  let (w, pool) := s in
  match e with
  | Run i c =>
      match pool i with
      | Some (Step f k) => let (w', b) := f i c w in (w', set_task i (Some (k b)) pool)
      | _ => s
      end
  | Spawn i p => match pool i with None => (w, set_task i (Some p) pool) | Some _ => s end
  | Cancel i => match pool i with Some _ => (release i w, set_task i None pool) | None => s end
  end.

Definition pool_run (release : Tid -> World -> World) (s : World * Pool) (events : list Event) : World * Pool :=
  fold_left (pool_step release) events s.

(** A task run by itself, with the answers of [choices]; [None] when it needs
    more of them. *)
Fixpoint run_alone {A} (i : Tid) (p : Prog World Choice A) (choices : list Choice) (w : World)
    : option (World * A) :=
  match p with
  | Ret a => Some (w, a)
  | Step f k =>
      match choices with
      | [] => None
      | c :: rest => let (w', b) := f i c w in run_alone i (k b) rest w'
      end
  end.

End Programs.


(** ** Bounded programs *)
Section Bounded.
Context {World Choice : Type}.

(** [p] ends within [n] steps, whatever its steps answer. *)
Fixpoint within {A} (n : nat) (p : Prog World Choice A) : Prop :=
  match p with
  | Ret _ => True
  | Step f k => match n with O => False | S n => forall b, within n (k b) end
  end.

Lemma within_ret {A} n (a : A) : within n (Ret a).
Proof. by destruct n. Qed.

Lemma within_mono {A} (p : Prog World Choice A) n m : within n p -> (n <= m)%nat -> within m p.
Proof.
  revert n m. induction p as [a|B f k IH]; intros [|n] [|m] Hw Hle; try done; [lia|].
  intros b. apply (IH b n); [apply Hw|lia].
Qed.

Lemma within_bind {A B} (p : Prog World Choice A) (g : A -> Prog World Choice B) n m :
  within n p -> (forall a, within m (g a)) -> within (n + m) (prog_bind p g).
Proof.
  revert n. induction p as [a|C f k IH]; intros n Hp Hg; cbn.
  - eapply within_mono; [apply Hg|lia].
  - destruct n as [|n]; [done|]. cbn. intros b. by apply IH.
Qed.

Lemma within_run {A} i (p : Prog World Choice A) n choices w :
  within n p -> (n <= length choices)%nat -> is_Some (run_alone i p choices w).
Proof.
  revert n choices w. induction p as [a|B f k IH]; intros n choices w Hp Hle; [by eexists|].
  destruct n as [|n]; [done|]. destruct choices as [|c rest]; [cbn in Hle; lia|]. cbn.
  destruct (f i c w) as [w' b]. apply (IH b n); [apply Hp|cbn in Hle; lia].
Qed.
End Bounded.

(** ** Rely-guarantee *)
Section RelyGuarantee.
Context {World Choice : Type} (release : Tid -> World -> World).
(** The invariant of the shared state, what task [i] relies on when others
    step, and what each of its own steps guarantees. *)
Context (inv : World -> Prop) (rely : Tid -> World -> World -> Prop) (guar : Tid -> World -> World -> Prop).

(** From state [w] on, [p] run as task [i] keeps the invariant and its
    guarantee at every step and ends in [post]. *)
Fixpoint safe {A} (i : Tid) (p : Prog World Choice A) (post : A -> World -> Prop) (w : World) : Prop :=
  match p with
  | Ret a => post a w
  | Step f k =>
      forall c w', rely i w w' -> inv w' ->
        inv (f i c w').1 /\ guar i w' (f i c w').1 /\ safe i (k (f i c w').2) post (f i c w').1
  end.

Record laws : Prop := {
  rely_refl i w : rely i w w;
  rely_trans i w1 w2 w3 : rely i w1 w2 -> rely i w2 w3 -> rely i w1 w3;
  guar_rely i j w w' : i <> j -> guar i w w' -> rely j w w';
  release_ok i w : inv w -> inv (release i w) /\ guar i w (release i w)
}.

Context (Hlaws : laws).

Lemma safe_bind {A B} i (p : Prog World Choice A) (g : A -> Prog World Choice B) post w :
  safe i p (fun a w' => safe i (g a) post w') w -> safe i (prog_bind p g) post w.
Proof.
  revert w. induction p as [a|C f k IH]; intros w Hs; [done|].
  intros c w' Hr Hi. destruct (Hs c w' Hr Hi) as (H1 & H2 & H3). split_and!; [done..|by apply IH].
Qed.

Lemma safe_mono {A} i (p : Prog World Choice A) (post post' : A -> World -> Prop) w :
  safe i p post w -> (forall a w', post a w' -> post' a w') -> safe i p post' w.
Proof.
  revert w. induction p as [a|C f k IH]; intros w Hs Hpost; [by apply Hpost|].
  intros c w' Hr Hi. destruct (Hs c w' Hr Hi) as (H1 & H2 & H3). split_and!; [done..|by apply IH].
Qed.

(** A task that has not finished does not mind the steps of others. *)
Lemma safe_stable {A} i (p : Prog World Choice A) post w w' :
  (forall a, p = Ret a -> post a w') -> rely i w w' -> safe i p post w -> safe i p post w'.
Proof.
  destruct p as [a|B f k]; intros Hret Hr Hs; [by apply Hret|].
  intros c w'' Hr' Hi. apply Hs; [|done]. by eapply (rely_trans Hlaws).
Qed.

Definition pool_safe (s : World * Pool) : Prop :=
  inv s.1 /\ forall i p, s.2 i = Some p -> safe i p (fun _ _ => True) s.1.

Definition event_ok (e : Event (World := World) (Choice := Choice)) : Prop :=
  match e with Spawn i p => forall w, safe i p (fun _ _ => True) w | _ => True end.

(** What one event does to the shared state: a step of one task, the drop of
    one, or nothing. *)
Lemma pool_step_ok s e :
  pool_safe s -> event_ok e ->
  pool_safe (pool_step release s e) /\
  ((pool_step release s e).1 = s.1 \/ exists i, guar i s.1 (pool_step release s e).1).
Proof.
  destruct s as [w pool]. intros [Hi Hp] He. destruct e as [i c|i p|i]; cbn.
  - destruct (pool i) as [[a|B f k]|] eqn:Hpi; cbn; [by split; [split|left]| |by split; [split|left]].
    destruct (Hp i _ Hpi c w (rely_refl Hlaws _ _) Hi) as (H1 & H2 & H3).
    destruct (f i c w) as [w' b]. cbn in *. split; [|by right; exists i]. split; [done|].
    intros j p. unfold set_task. cbn. destruct (Nat.eqb_spec i j) as [<-|Hij]; [by intros [= <-]|].
    intros Hj. apply (safe_stable _ _ _ w); [done| |by apply Hp]. by eapply guar_rely.
  - destruct (pool i) eqn:Hpi; cbn; [by split; [split|left]|]. split; [|by left]. split; [done|].
    intros j q. unfold set_task. cbn. destruct (Nat.eqb_spec i j) as [<-|]; [|apply Hp].
    intros [= <-]. apply He.
  - destruct (pool i) eqn:Hpi; cbn; [|by split; [split|left]].
    destruct (release_ok Hlaws i w Hi) as [H1 H2]. split; [|by right; exists i]. split; [done|].
    intros j q. unfold set_task. cbn. destruct (Nat.eqb_spec i j) as [<-|Hij]; [done|].
    intros Hj. apply (safe_stable _ _ _ w); [done| |by apply Hp]. by eapply guar_rely.
Qed.

Lemma pool_run_safe s events :
  pool_safe s -> Forall event_ok events -> pool_safe (pool_run release s events).
Proof.
  revert s. induction events as [|e events IH]; intros s Hs Hev; [done|].
  apply Forall_cons in Hev as [He Hev]. apply IH; [|done]. by apply pool_step_ok.
Qed.

End RelyGuarantee.

(** ** Triples *)
Section Triples.
Context {World Choice : Type}.
Context {inv : World -> Prop} {rely : Tid -> World -> World -> Prop} {guar : Tid -> World -> World -> Prop}.

(** Run as task [i] from a state with [R] and the invariant, [p] is safe and
    ends in [Q]. *)
Definition triple {A} (i : Tid) (R : World -> Prop) (p : Prog World Choice A) (Q : A -> World -> Prop) : Prop :=
  forall w, R w -> inv w -> safe inv rely guar i p Q w.

(** What a task knows while others step. *)
Definition stable (i : Tid) (R : World -> Prop) : Prop := forall w w', R w -> rely i w w' -> R w'.

Lemma safe_inv {A} i (p : Prog World Choice A) Q w :
  inv w -> safe inv rely guar i p Q w -> safe inv rely guar i p (fun a w' => Q a w' /\ inv w') w.
Proof.
  revert w. induction p as [a|B f k IH]; intros w Hw Hs; [done|].
  intros c w' Hr Hi. destruct (Hs c w' Hr Hi) as (H1 & H2 & H3). split_and!; [done..|by apply IH].
Qed.

(** A task can be started at any time. *)
Lemma triple_spawn i (p : Prog World Choice unit) Q w :
  (forall w, rely i w w) -> triple i (fun _ => True) p Q -> safe inv rely guar i p (fun _ _ => True) w.
Proof.
  intros Hrefl Hp. destruct p as [a|B f k]; [done|]. intros c w' Hr Hi.
  destruct (Hp w' Logic.I Hi c w' (Hrefl _) Hi) as (H1 & H2 & H3).
  split_and!; [done..|]. by eapply safe_mono.
Qed.

Lemma triple_ret {A} i (R : World -> Prop) (a : A) (Q : A -> World -> Prop) :
  (forall w, R w -> Q a w) -> triple i R (Ret a) Q.
Proof. intros HQ w Hw _. by apply HQ. Qed.

Lemma triple_bind {A B} i R (p : Prog World Choice A) (g : A -> Prog World Choice B) S Q :
  triple i R p S -> (forall a, triple i (S a) (g a) Q) -> triple i R (prog_bind p g) Q.
Proof.
  intros Hp Hg w Hw Hi. apply safe_bind. eapply safe_mono; [by apply safe_inv, Hp|].
  intros a w' [HS Hi']. by apply Hg.
Qed.

Lemma triple_conseq {A} i (R R' : World -> Prop) (p : Prog World Choice A) (Q Q' : A -> World -> Prop) :
  triple i R' p Q' -> (forall w, R w -> R' w) -> (forall a w, Q' a w -> Q a w) -> triple i R p Q.
Proof. intros Hp HR HQ w Hw Hi. eapply safe_mono; [apply Hp; [by apply HR|done]|done]. Qed.

(** Facts that follow from the precondition and the invariant. *)
Lemma triple_fact {A} i R (F : Prop) (p : Prog World Choice A) Q :
  (forall w, R w -> inv w -> F) -> (F -> triple i R p Q) -> triple i R p Q.
Proof. intros HF Hp w Hw Hi. apply Hp; [by eapply HF|done|done]. Qed.

Lemma triple_or {A} i (R S : World -> Prop) (p : Prog World Choice A) Q :
  triple i R p Q -> triple i S p Q -> triple i (fun w => R w \/ S w) p Q.
Proof. intros HR HS w [Hw|Hw] Hi; [by apply HR|by apply HS]. Qed.

Lemma triple_ex {A X} i (R : X -> World -> Prop) (p : Prog World Choice A) Q :
  (forall x, triple i (R x) p Q) -> triple i (fun w => exists x, R x w) p Q.
Proof. intros Hp w [x Hx] Hi. by eapply Hp. Qed.

Lemma triple_and {A} i (R : World -> Prop) (F : Prop) (p : Prog World Choice A) Q :
  (F -> triple i R p Q) -> triple i (fun w => R w /\ F) p Q.
Proof. intros Hp w [Hw HF] Hi. by apply Hp. Qed.

Lemma triple_step {A} i R (f : Tid -> Choice -> World -> World * A) Q :
  stable i R ->
  (forall c w, R w -> inv w ->
     inv (f i c w).1 /\ guar i w (f i c w).1 /\ Q (f i c w).2 (f i c w).1) ->
  triple i R (step f) Q.
Proof. intros Hs Hf w Hw _ c w' Hr Hi. apply Hf; [by eapply Hs|done]. Qed.

(** A step that only looks. *)
Lemma triple_look {A} i R (g : Choice -> World -> A) Q :
  (forall w, guar i w w) -> stable i R -> (forall c w, R w -> inv w -> Q (g c w) w) ->
  triple i R (step (fun _ c w => (w, g c w))) Q.
Proof. intros Hg Hs HQ. apply triple_step; [done|]. intros c w Hw Hi. cbn. split_and!; [done|done|by apply HQ]. Qed.

End Triples.

#[global] Arguments triple {World Choice} inv rely guar {A} i R p Q.
#[global] Arguments stable {World} rely i R.

(** ** A task by itself *)

(** Hoare triples for a program that runs alone. *)
Definition seq {World Choice A} : Tid -> (World -> Prop) -> Prog World Choice A -> (A -> World -> Prop) -> Prop :=
  triple (fun _ => True) (fun _ v v' => v' = v) (fun _ _ _ => True).

Section Alone.
Context {World Choice : Type}.

Lemma seq_ret {A} i (R : World -> Prop) (a : A) (Q : A -> World -> Prop) :
  (forall w, R w -> Q a w) -> seq i R (Ret (Choice := Choice) a) Q.
Proof. apply triple_ret. Qed.

Lemma seq_bind {A B} i R (p : Prog World Choice A) (g : A -> Prog World Choice B) S Q :
  seq i R p S -> (forall a, seq i (S a) (g a) Q) -> seq i R (prog_bind p g) Q.
Proof. apply triple_bind. Qed.

Lemma seq_conseq {A} i (R : World -> Prop) (p : Prog World Choice A) (Q Q' : A -> World -> Prop) :
  seq i R p Q' -> (forall a w, Q' a w -> Q a w) -> seq i R p Q.
Proof. intros Hp HQ. by eapply triple_conseq. Qed.

Lemma seq_step {A} i (R : World -> Prop) (f : Tid -> Choice -> World -> World * A) Q :
  (forall c w, R w -> Q (f i c w).2 (f i c w).1) -> seq i R (step f) Q.
Proof.
  intros Hf. apply triple_step; [by intros w w' Hw ->|]. intros c w Hw _. split_and!; [done|done|by apply Hf].
Qed.

Lemma seq_look {A B} i (R : World -> Prop) (f : Choice -> World -> A) (g : A -> Prog World Choice B) Q :
  (forall a, seq i R (g a) Q) -> seq i R (prog_bind (step (fun _ c w => (w, f c w))) g) Q.
Proof. intros Hg. eapply (seq_bind i _ _ _ (fun _ => R)); [by apply seq_step|done]. Qed.

Lemma run_alone_safe {A} i (p : Prog World Choice A) Q choices w w' a :
  safe (fun _ => True) (fun _ v v' => v' = v) (fun _ _ _ => True) i p Q w ->
  run_alone i p choices w = Some (w', a) -> Q a w'.
Proof.
  revert choices w. induction p as [b|B f k IH]; intros choices w Hs; [by intros [= <- <-]|].
  destruct choices as [|c rest]; [done|]. cbn. destruct (Hs c w eq_refl Logic.I) as (_ & _ & H3).
  destruct (f i c w) as [v b]. by apply IH.
Qed.

Lemma run_alone_seq {A} i (R : World -> Prop) (p : Prog World Choice A) Q choices w w' a :
  seq i R p Q -> R w -> run_alone i p choices w = Some (w', a) -> Q a w'.
Proof. intros Hs Hw. apply run_alone_safe. by apply Hs. Qed.

Lemma run_alone_bind {A B} i (p : Prog World Choice A) (g : A -> Prog World Choice B) choices w w' b :
  run_alone i (prog_bind p g) choices w = Some (w', b) ->
  exists used rest w1 a, choices = used ++ rest /\ run_alone i p used w = Some (w1, a) /\
    run_alone i (g a) rest w1 = Some (w', b).
Proof.
  revert choices w. induction p as [a|C f k IH]; intros choices w; cbn; [by exists [], choices, w, a|].
  destruct choices as [|c choices]; [done|]. destruct (f i c w) as [v x] eqn:Hf.
  intros (used & rest & w1 & a & -> & Hp & Hg)%IH. exists (c :: used), rest, w1, a. cbn. by rewrite Hf.
Qed.
End Alone.

(** ** Timeouts *)
Section Timeout.
Context {World Choice : Type} (elapsed : Choice -> bool).

(** [tokio::time::timeout]: at each point where the program waits, it goes on or
    the time is over and it is dropped, with what it did so far done. *)
Fixpoint timeout {A} (p : Prog World Choice A) : Prog World Choice (option A) :=
  match p with
  | Ret a => Ret (Some a)
  | Step f k =>
      Step (fun i c w => if elapsed c then (w, None) else let (w', b) := f i c w in (w', Some b))
           (fun o => match o with Some b => timeout (k b) | None => Ret None end)
  end.

Lemma within_timeout {A} n (p : Prog World Choice A) : within n p -> within n (timeout p).
Proof.
  revert n. induction p as [a|B f k IH]; intros [|n] Hp; try done. intros [b|]; [by apply IH, Hp|apply within_ret].
Qed.

Lemma safe_timeout (inv : World -> Prop) (rely guar : Tid -> World -> World -> Prop) {A} i (p : Prog World Choice A) post w :
  (forall w, guar i w w) -> safe inv rely guar i p post w ->
  safe inv rely guar i (timeout p) (fun o w' => match o with Some a => post a w' | None => True end) w.
Proof.
  intros Hg. revert w. induction p as [a|B f k IH]; intros w Hs; [done|]. intros c w' Hr Hi. cbn. destruct (elapsed c); [done|].
  destruct (Hs c w' Hr Hi) as (H1 & H2 & H3). destruct (f i c w') as [w'' b]. cbn in *. split_and!; [done..|by apply IH].
Qed.

(** It gives what the program gives, unless the time was over. *)
Lemma run_alone_timeout {A} i (p : Prog World Choice A) choices w w' o :
  run_alone i (timeout p) choices w = Some (w', o) ->
  match o with
  | Some a => run_alone i p choices w = Some (w', a)
  | None => exists c, c ∈ choices /\ elapsed c = true
  end.
Proof.
  revert choices w. induction p as [a|B f k IH]; intros choices w; cbn; [by intros [= <- <-]|].
  destruct choices as [|c choices]; [done|]. destruct (elapsed c) eqn:He.
  - cbn. destruct choices; intros [= <- <-]; exists c; split; try done; by left.
  - destruct (f i c w) as [v b]. intros Hr%IH. destruct o; [done|]. destruct Hr as (c' & Hc & Hc'). exists c'. split; [by right|done].
Qed.
End Timeout.

(** ** What no step changes *)
Section Constant.
Context {World Choice X : Type} (get : World -> X).

Fixpoint constant {A} (p : Prog World Choice A) : Prop :=
  match p with
  | Ret _ => True
  | Step f k => (forall i c w, get (f i c w).1 = get w) /\ forall b, constant (k b)
  end.

Lemma constant_bind {A B} (p : Prog World Choice A) (g : A -> Prog World Choice B) :
  constant p -> (forall a, constant (g a)) -> constant (prog_bind p g).
Proof. induction p as [a|C f k IH]; cbn; [intros _ Hg; apply Hg|]. intros [Hf Hk] Hg. split; [done|]. intros b. by apply IH. Qed.

Lemma constant_step {A} (f : Tid -> Choice -> World -> World * A) :
  (forall i c w, get (f i c w).1 = get w) -> constant (step f).
Proof. by split. Qed.

Lemma constant_timeout elapsed {A} (p : Prog World Choice A) : constant p -> constant (timeout elapsed p).
Proof.
  induction p as [a|B f k IH]; cbn; [done|]. intros [Hf Hk]. split; [|intros [b|]; [by apply IH|done]].
  intros i c w. destruct (elapsed c); [done|]. specialize (Hf i c w). by destruct (f i c w).
Qed.

Lemma constant_run {A} i (p : Prog World Choice A) choices w w' a :
  constant p -> run_alone i p choices w = Some (w', a) -> get w' = get w.
Proof.
  revert choices w. induction p as [b|B f k IH]; intros choices w; cbn; [by intros _ [= <- <-]|]. intros [Hf Hk].
  destruct choices as [|c choices]; [done|]. specialize (Hf i c w). destruct (f i c w) as [v b]. cbn in Hf.
  intros Hr%IH; [by rewrite Hr|done].
Qed.
End Constant.
End Tasks.

#[export] Instance prog_ret_inst {W C} : MRet (Tasks.Prog W C) := fun A a => Tasks.Ret a.
#[export] Instance prog_bind_inst {W C} : MBind (Tasks.Prog W C) := fun A B g p => Tasks.prog_bind p g.

(** Programs that return [result]: [x ←? p; q] ends with the error of [p],
    [x ←! r; q] with that of the plain result [r]. *)
Notation "x ←? p ; q" :=
  (Tasks.prog_bind p (fun r => match r with Ok x => q | Err e => Tasks.Ret (Err e) end))
  (at level 20, p at level 100, q at level 200, only parsing) : rust_scope.
Notation "' x ←? p ; q" :=
  (Tasks.prog_bind p (fun r => match r with Ok x => q | Err e => Tasks.Ret (Err e) end))
  (at level 20, x strict pattern, p at level 100, q at level 200, only parsing) : rust_scope.
Notation "x ←! r ; q" :=
  (match r with Ok x => q | Err e => Tasks.Ret (Err e) end)
  (at level 20, r at level 100, q at level 200, only parsing) : rust_scope.
Notation "' x ←! r ; q" :=
  (match r with Ok x => q | Err e => Tasks.Ret (Err e) end)
  (at level 20, x strict pattern, r at level 100, q at level 200, only parsing) : rust_scope.
