(* ===== verification/RawRelay.v ===== *)
(** * The supervised raw relay (shared/iroh_support/src/raw_relay.rs)

    Bytes copied both ways between two streams, for a tunnel or an upgraded
    connection, under limits on bytes, idleness and lifetime, and under an
    authority that is asked again at intervals.  The relay is a machine driven
    by timed events: what the two streams do, what its timers do, and what the
    authority answers.  A direction that is told to stop notices at its next
    wait, and until then it may still move bytes, since [tokio::select!] takes
    any branch that is ready. *)

From S2P Require Import Prelude Crypto Signed.

Module RawRelay.
Import Crypto.

Record RawRelayLimits := {
  max_bytes_per_direction : Z;
  idle_timeout : Z;
  max_lifetime : Z;
  authority_interval : Z
}.

Definition validate (l : RawRelayLimits) : Result RawRelayLimits :=
  ensure! 0 <? max_bytes_per_direction l else Err "raw relay byte limit is zero" ;;
  ensure! negb (idle_timeout l =? 0) else Err "raw relay idle timeout is zero" ;;
  ensure! negb (max_lifetime l =? 0) else Err "raw relay lifetime is zero" ;;
  ensure! negb (authority_interval l =? 0) else Err "raw relay authority interval is zero" ;;
  Ok l.

Record RawRelayStats := { left_to_right_bytes : Z; right_to_left_bytes : Z }.

(** ** One direction *)
Definition BUFFER_BYTES : nat := Z.to_nat (16 * 1024).

(** What it waits for. *)
Inductive Phase := Reading | Writing (chunk : bytes) | Closing | Ended (r : Result Z).

(** [received] is what the reader gave and [delivered] what the writer took. *)
Record Direction := {
  phase : Phase;
  total : Z;
  received : bytes;
  delivered : bytes
}.

Definition new_direction : Direction := {| phase := Reading; total := 0; received := []; delivered := [] |}.

Definition set_phase (p : Phase) (d : Direction) : Direction :=
  {| phase := p; total := total d; received := received d; delivered := delivered d |}.

(** How a wait of a direction ends; a failed write has taken [taken] bytes, and
    so has one that is dropped when the cancellation is noticed.  A direction
    waits on the relay's own token, a child of the caller's: it notices the
    caller's cancellation ([caller]) also before the relay does. *)
Inductive Io :=
| Read (r : Result bytes)
| Written (r : result (nat * string) unit)
| Shutdown (r : Result unit)
| Noticed (caller : bool) (taken : nat).

Definition fail (e : string) (d : Direction) : Direction := set_phase (Ended (Err e)) d.

(** [copy_direction]: the next state, and whether there was activity. *)
Definition copy_step (max_bytes : Z) (cancelled : bool) (io : Io) (d : Direction) : Direction * bool :=
  match phase d, io with
  | Reading, Read (Err e) => (fail "read raw relay bytes" d, false)
  | Reading, Read (Ok b) =>
      let chunk := take BUFFER_BYTES b in
      let d := {| phase := phase d; total := total d; received := received d ++ chunk; delivered := delivered d |} in
      if bool_decide (chunk = []) then (set_phase Closing d, false) else
      let next := total d + len chunk in
      ensure! next <=? u64_max else (fail "raw relay byte count overflow" d, false) ;;
      ensure! next <=? max_bytes else (fail "raw relay byte limit exceeded" d, false) ;;
      (set_phase (Writing chunk) d, false)
  | Writing chunk, Written (Ok _) =>
      ({| phase := Reading; total := total d + len chunk; received := received d;
          delivered := delivered d ++ chunk |}, true)
  | Writing chunk, Written (Err (taken, _)) =>
      (fail "write raw relay bytes" {| phase := phase d; total := total d; received := received d;
         delivered := delivered d ++ take taken chunk |}, false)
  | Closing, Shutdown (Ok _) => (set_phase (Ended (Ok (total d))) d, false)
  | Closing, Shutdown (Err e) => (fail "shutdown raw relay writer" d, false)
  | Writing chunk, Noticed caller taken =>
      if cancelled || caller then
        (fail "raw relay direction cancelled" {| phase := phase d; total := total d; received := received d;
           delivered := delivered d ++ take taken chunk |}, false)
      else (d, false)
  | Reading, Noticed caller _ | Closing, Noticed caller _ =>
      if cancelled || caller then (fail "raw relay direction cancelled" d, false) else (d, false)
  | _, _ => (d, false)
  end.

(** ** Both directions and the timers *)
Inductive Side := LeftToRight | RightToLeft.

Inductive Stage :=
| Looping
| Draining (since : Z) (error : string)
| Finished (outcome : Result RawRelayStats).

Record Relay := {
  left : Direction;
  right : Direction;
  last_activity : Z;
  lifetime_ends : Z;
  next_idle : Z;
  next_authority : Z;
  stage : Stage
}.

Definition direction (s : Side) (r : Relay) : Direction := match s with LeftToRight => left r | RightToLeft => right r end.

Definition set_direction (s : Side) (d : Direction) (r : Relay) : Relay :=
  match s with
  | LeftToRight => {| left := d; right := right r; last_activity := last_activity r; lifetime_ends := lifetime_ends r;
                      next_idle := next_idle r; next_authority := next_authority r; stage := stage r |}
  | RightToLeft => {| left := left r; right := d; last_activity := last_activity r; lifetime_ends := lifetime_ends r;
                      next_idle := next_idle r; next_authority := next_authority r; stage := stage r |}
  end.
Definition set_activity (t : Z) (r : Relay) : Relay :=
  {| left := left r; right := right r; last_activity := t; lifetime_ends := lifetime_ends r;
     next_idle := next_idle r; next_authority := next_authority r; stage := stage r |}.
Definition set_stage (s : Stage) (r : Relay) : Relay :=
  {| left := left r; right := right r; last_activity := last_activity r; lifetime_ends := lifetime_ends r;
     next_idle := next_idle r; next_authority := next_authority r; stage := s |}.
Definition set_next_idle (t : Z) (r : Relay) : Relay :=
  {| left := left r; right := right r; last_activity := last_activity r; lifetime_ends := lifetime_ends r;
     next_idle := t; next_authority := next_authority r; stage := stage r |}.
Definition set_next_authority (t : Z) (r : Relay) : Relay :=
  {| left := left r; right := right r; last_activity := last_activity r; lifetime_ends := lifetime_ends r;
     next_idle := next_idle r; next_authority := t; stage := stage r |}.

(** What can happen; the timers do not fire before they are due. *)
Inductive Event :=
| Copy (s : Side) (io : Io)
| Cancelled
| LifetimeReached
| IdleTick
| AuthorityTick (check : Result unit).

Definition check_period (l : RawRelayLimits) : Z := Z.min (idle_timeout l) (from_secs 1).

Definition stop (now : Z) (error : string) (r : Relay) : Relay := set_stage (Draining now error) r.

Definition ended (d : Direction) : option (Result Z) := match phase d with Ended r => Some r | _ => None end.

(** The loop ends when both directions are done; after an error the relay waits
    for the directions that are not. *)
Definition settle (r : Relay) : Relay :=
  match stage r, ended (left r), ended (right r) with
  | Looping, Some (Ok a), Some (Ok b) =>
      set_stage (Finished (Ok {| left_to_right_bytes := a; right_to_left_bytes := b |})) r
  | Draining _ error, Some _, Some _ => set_stage (Finished (Err error)) r
  | _, _, _ => r
  end.

Definition side_name (s : Side) : string :=
  match s with LeftToRight => "left-to-right relay" | RightToLeft => "right-to-left relay" end.

Definition copy_event (l : RawRelayLimits) (now : Z) (s : Side) (io : Io) (r : Relay) : Relay :=
  let cancelled := match stage r with Draining _ _ => true | _ => false end in
  let (d, active) := copy_step (max_bytes_per_direction l) cancelled io (direction s r) in
  let r := set_direction s d r in
  let r := if active then set_activity now r else r in
  match stage r, ended d with
  | Looping, Some (Err _) => stop now (side_name s) r
  | _, _ => r
  end.

(** After the loop the directions are waited for in turn. *)
Definition drains (s : Side) (r : Relay) : bool :=
  match s with LeftToRight => true | RightToLeft => bool_decide (is_Some (ended (left r))) end.

Definition step (l : RawRelayLimits) (r : Relay) (e : Z * Event) : Relay :=
  let (now, event) := e in
  match stage r with
  | Finished _ => r
  | Draining _ _ =>
      match event with
      | Copy s io => if drains s r then settle (copy_event l now s io r) else r
      | _ => r
      end
  | Looping =>
      match event with
      | Copy s io => settle (copy_event l now s io r)
      | Cancelled => settle (stop now "raw relay cancelled" r)
      | LifetimeReached =>
          if lifetime_ends r <=? now then settle (stop now "raw relay lifetime exceeded" r) else r
      | IdleTick =>
          if next_idle r <=? now then
            let r := set_next_idle (now + check_period l) r in
            if idle_timeout l <=? saturating_sub now (last_activity r)
            then settle (stop now "raw relay idle timeout exceeded" r) else r
          else r
      | AuthorityTick check =>
          if next_authority r <=? now then
            let r := set_next_authority (now + authority_interval l) r in
            match check with Ok _ => r | Err e => settle (stop now "raw relay authority check" r) end
          else r
      end
  end.

Definition start (l : RawRelayLimits) (now : Z) : Relay :=
  {| left := new_direction; right := new_direction; last_activity := now; lifetime_ends := now + max_lifetime l;
     next_idle := now + check_period l; next_authority := now + authority_interval l; stage := Looping |}.

Definition run (l : RawRelayLimits) (r : Relay) (events : list (Z * Event)) : Relay := fold_left (step l) events r.

(** [check] is the authority's first answer; nothing is copied before it. *)
Definition supervise_raw_relay (limits : RawRelayLimits) (check : Result unit) (now : Z) (events : list (Z * Event))
    : Result Relay :=
  l ← validate limits;
  match check with
  | Err _ => Err "raw relay authority check"
  | Ok _ => Ok (run l (start l now) events)
  end.

(** ** What is delivered *)

(** What a direction has delivered of what it received. *)
Definition direction_ok (max_bytes : Z) (d : Direction) : Prop :=
  len (delivered d) <= max_bytes /\
  match phase d with
  | Reading | Closing => received d = delivered d /\ total d = len (delivered d)
  | Writing chunk => received d = delivered d ++ chunk /\ total d = len (delivered d) /\
      total d + len chunk <= max_bytes
  | Ended (Ok n) => received d = delivered d /\ n = len (delivered d)
  | Ended (Err _) => delivered d `prefix_of` received d
  end.

Lemma fail_ok max_bytes e d :
  len (delivered d) <= max_bytes -> delivered d `prefix_of` received d -> direction_ok max_bytes (fail e d).
Proof. by split. Qed.

Lemma partial_write max_bytes (a chunk : bytes) n :
  len a + len chunk <= max_bytes -> len (a ++ take n chunk) <= max_bytes /\ a ++ take n chunk `prefix_of` a ++ chunk.
Proof.
  intros Hle. split; [|apply prefix_app, prefix_take]. rewrite len_app. unfold len in *. rewrite length_take. lia.
Qed.

Lemma copy_step_ok max_bytes cancelled io d :
  direction_ok max_bytes d -> direction_ok max_bytes (copy_step max_bytes cancelled io d).1.
Proof.
  intros Hself. pose proof Hself as [Hmax Hd]. unfold copy_step.
  destruct (phase d) as [|chunk| |r] eqn:Hp, io as [[b|e]|[[]|[n e]]|[[]|e]|caller n]; cbn [fst]; try exact Hself.
  - destruct Hd as [Hr Ht]. cbv zeta. case_bool_decide as Hc; [|destruct (_ <=? u64_max); [destruct (_ <=? max_bytes) eqn:Hle|]].
    + rewrite Hc, app_nil_r. by split.
    + split; [done|]. cbn in *. rewrite Hr. split_and!; [done..|lia].
    + apply fail_ok; [done|]. cbn. rewrite Hr. by apply prefix_app_r.
    + apply fail_ok; [done|]. cbn. rewrite Hr. by apply prefix_app_r.
  - apply fail_ok; [done|]. by rewrite (proj1 Hd).
  - destruct (cancelled || caller); [|exact Hself]. apply fail_ok; [done|]. by rewrite (proj1 Hd).
  - destruct Hd as (Hr & Ht & Hle). split; cbn; rewrite len_app; [lia|]. by rewrite Hr, Ht.
  - destruct Hd as (Hr & Ht & Hle). rewrite Ht in Hle.
    destruct (partial_write _ _ _ n Hle). apply fail_ok; cbn [delivered received]; by rewrite ?Hr.
  - destruct Hd as (Hr & Ht & Hle). destruct (cancelled || caller); [|exact Hself].
    rewrite Ht in Hle.
    destruct (partial_write _ _ _ n Hle). apply fail_ok; cbn [delivered received]; by rewrite ?Hr.
  - destruct Hd as [Hr Ht]. by split.
  - apply fail_ok; [done|]. by rewrite (proj1 Hd).
  - destruct (cancelled || caller); [|exact Hself]. apply fail_ok; [done|]. by rewrite (proj1 Hd).
Qed.

Definition relay_ok (l : RawRelayLimits) (r : Relay) : Prop :=
  direction_ok (max_bytes_per_direction l) (left r) /\ direction_ok (max_bytes_per_direction l) (right r) /\
  match stage r with
  | Finished (Ok stats) => phase (left r) = Ended (Ok (left_to_right_bytes stats)) /\
                           phase (right r) = Ended (Ok (right_to_left_bytes stats))
  | _ => True
  end.

Lemma settle_ok l r :
  direction_ok (max_bytes_per_direction l) (left r) -> direction_ok (max_bytes_per_direction l) (right r) ->
  match stage r with Finished _ => False | _ => True end -> relay_ok l (settle r).
Proof.
  intros Hl Hr Hs. unfold settle, ended. destruct (stage r) eqn:Hst; [| |done].
  - destruct (phase (left r)) as [| | |[a|]] eqn:Hp, (phase (right r)) as [| | |[b|]] eqn:Hq; cbn;
      try (split_and!; [done..|by rewrite Hst]). by split_and!.
  - destruct (phase (left r)) as [| | |a] eqn:Hp, (phase (right r)) as [| | |b] eqn:Hq; cbn;
      try (split_and!; [done..|by rewrite Hst]). by split_and!.
Qed.

Lemma copy_event_ok l now s io r :
  relay_ok l r -> match stage r with Finished _ => False | _ => True end -> relay_ok l (settle (copy_event l now s io r)).
Proof.
  intros (Hl & Hr & _) Hs. unfold copy_event.
  pose proof (copy_step_ok (max_bytes_per_direction l) (match stage r with Draining _ _ => true | _ => false end) io) as Hc.
  destruct (copy_step _ _ _ _) as [d active] eqn:Hd.
  assert (direction_ok (max_bytes_per_direction l) d) as Hdo.
  { pose proof (Hc (direction s r)) as Hc'. rewrite Hd in Hc'. apply Hc'. by destruct s. }
  apply settle_ok; destruct s, active, (stage r) eqn:Hst, (ended d) as [[]|]; cbn; rewrite ?Hst; done.
Qed.

Lemma step_ok l r e : relay_ok l r -> relay_ok l (step l r e).
Proof.
  intros Hok. destruct e as [now event]. unfold step. destruct (stage r) eqn:Hs; [| |done].
  - destruct Hok as (Hl & Hr & Hf).
    destruct event as [s io| | | |[[]|e]]; [apply copy_event_ok; [done|by rewrite Hs]|..].
    + by apply settle_ok.
    + destruct (_ <=? _); [by apply settle_ok|done].
    + destruct (_ <=? _); [|done]. cbv zeta. destruct (_ <=? _); [by apply settle_ok|]. split_and!; [done..|by cbn; rewrite Hs].
    + destruct (_ <=? _); [|done]. split_and!; [done..|by cbn; rewrite Hs].
    + destruct (_ <=? _); [by apply settle_ok|done].
  - destruct event as [s io| | | |]; try done. destruct (drains s r); [|done]. apply copy_event_ok; [done|by rewrite Hs].
Qed.

Lemma run_ok l r events : relay_ok l r -> relay_ok l (run l r events).
Proof. revert r. induction events as [|e events IH]; intros r Hr; [done|]. cbn. by apply IH, step_ok. Qed.

Lemma direction_delivered max_bytes d :
  direction_ok max_bytes d -> delivered d `prefix_of` received d /\ len (delivered d) <= max_bytes.
Proof.
  intros [Hmax Hd]. split; [|done]. destruct (phase d) as [|chunk| |[n|]].
  - by rewrite (proj1 Hd).
  - rewrite (proj1 Hd). by apply prefix_app_r.
  - by rewrite (proj1 Hd).
  - by rewrite (proj1 Hd).
  - done.
Qed.

Lemma validate_inv l l' : validate l = Ok l' -> l' = l /\ 0 < max_bytes_per_direction l.
Proof.
  unfold validate. intros Hv. Signed.result_steps Hv. injection Hv as <-. bool_props. split; [done|lia].
Qed.

(** C24. A relay delivers what it receives.  Whatever its streams and timers do,
    what each side has been sent is a prefix of what the other side gave, of at
    most the byte limit; nothing is sent before the authority agreed; and when
    the relay ends without an error, everything both sides gave has been
    delivered and counted. *)
Theorem relay_faithful limits check now events r :
  supervise_raw_relay limits check now events = Ok r ->
  check = Ok tt /\
  (forall s, delivered (direction s r) `prefix_of` received (direction s r) /\
     len (delivered (direction s r)) <= max_bytes_per_direction limits) /\
  (forall stats, stage r = Finished (Ok stats) ->
     delivered (left r) = received (left r) /\ left_to_right_bytes stats = len (received (left r)) /\
     delivered (right r) = received (right r) /\ right_to_left_bytes stats = len (received (right r))).
Proof.
  unfold supervise_raw_relay. intros Hs. Signed.result_steps Hs. apply validate_inv in Hx as [-> Hmax].
  destruct check as [[]|]; [|done]. injection Hs as <-.
  assert (relay_ok limits (run limits (start limits now) events)) as (Hl & Hr & Hst).
  { apply run_ok. assert (direction_ok (max_bytes_per_direction limits) new_direction) by (split; cbn; [unfold len; cbn; lia|done]). done. }
  split_and!; [done| |].
  - intros []; by apply direction_delivered.
  - intros stats Hf. rewrite Hf in Hst. destruct Hst as [Hpl Hpr], Hl as [_ Hl], Hr as [_ Hr].
    rewrite Hpl in Hl. rewrite Hpr in Hr. destruct Hl as [-> ->], Hr as [-> ->]. done.
Qed.

(** ** When it stops *)

(** What makes the relay stop at [t], after [before] happened since it started
    at [now]: the caller cancels, the lifetime is over, the authority refuses at
    a check that is due, or an idle check that is due finds no byte written for
    the idle timeout. *)
Definition stops (l : RawRelayLimits) (now : Z) (before : list (Z * Event)) (t : Z) (cause : Event) : Prop :=
  match cause with
  | Cancelled => True
  | LifetimeReached => now + max_lifetime l <= t
  | AuthorityTick (Err _) =>
      now + authority_interval l <= t /\
      Forall (fun e => forall check, e.2 = AuthorityTick check -> e.1 + authority_interval l <= t) before
  | IdleTick =>
      now + idle_timeout l <= t /\ now + check_period l <= t /\
      Forall (fun e => e.2 = IdleTick -> e.1 + check_period l <= t) before /\
      Forall (fun e => forall s, e.2 = Copy s (Written (Ok tt)) -> e.1 + idle_timeout l <= t) before
  | _ => False
  end.

Section Stopping.
Context (l : RawRelayLimits).

Lemma settle_timers r :
  next_authority (settle r) = next_authority r /\ lifetime_ends (settle r) = lifetime_ends r /\
  next_idle (settle r) = next_idle r /\ last_activity (settle r) = last_activity r.
Proof. unfold settle. by repeat case_match. Qed.

Lemma copy_timers now s io r :
  next_authority (copy_event l now s io r) = next_authority r /\ lifetime_ends (copy_event l now s io r) = lifetime_ends r /\
  next_idle (copy_event l now s io r) = next_idle r /\
  (last_activity (copy_event l now s io r) = last_activity r \/
   last_activity (copy_event l now s io r) = now /\ io = Written (Ok tt)).
Proof.
  unfold copy_event. destruct (copy_step _ _ _ _) as [d active] eqn:Hc.
  assert (active = true -> io = Written (Ok tt)) as Ha.
  { intros ->. unfold copy_step in Hc. destruct (phase _), io as [[]|[[]|[]]|[]|]; try done;
      repeat case_match; simplify_eq; done. }
  destruct s, active, (stage r) eqn:Hs, (ended d) as [[]|]; cbn; rewrite ?Hs; cbn; auto 8.
Qed.

Local Ltac timers :=
  cbn; split_and!; first [done | by left | right; split; first [done | by eexists]].

(** A timer is what it was, or what its own event makes it. *)
Lemma step_timers r e :
  lifetime_ends (step l r e) = lifetime_ends r /\
  (next_authority (step l r e) = next_authority r \/
   next_authority (step l r e) = e.1 + authority_interval l /\ exists check, e.2 = AuthorityTick check) /\
  (next_idle (step l r e) = next_idle r \/ next_idle (step l r e) = e.1 + check_period l /\ e.2 = IdleTick) /\
  (last_activity (step l r e) = last_activity r \/
   last_activity (step l r e) = e.1 /\ exists s, e.2 = Copy s (Written (Ok tt))).
Proof.
  destruct e as [now event]. unfold step. cbn [fst snd].
  assert (forall s io, let r' := settle (copy_event l now s io r) in
    lifetime_ends r' = lifetime_ends r /\ next_authority r' = next_authority r /\ next_idle r' = next_idle r /\
    (last_activity r' = last_activity r \/ last_activity r' = now /\ io = Written (Ok tt))) as Hcopy.
  { intros s io. cbv zeta. destruct (settle_timers (copy_event l now s io r)) as (-> & -> & -> & ->).
    destruct (copy_timers now s io r) as (-> & -> & -> & ?). done. }
  assert (forall e r', let r'' := settle (stop now e r') in
    lifetime_ends r'' = lifetime_ends r' /\ next_authority r'' = next_authority r' /\ next_idle r'' = next_idle r' /\
    last_activity r'' = last_activity r') as Hstop.
  { intros e r'. cbv zeta. by destruct (settle_timers (stop now e r')) as (-> & -> & -> & ->). }
  destruct (stage r); [| |timers].
  - destruct event as [s io| | | |[[]|e]]; cbv zeta.
    + destruct (Hcopy s io) as (-> & -> & -> & [->|[-> ->]]); timers.
    + destruct (Hstop "raw relay cancelled" r) as (-> & -> & -> & ->). timers.
    + case_match; [destruct (Hstop "raw relay lifetime exceeded" r) as (-> & -> & -> & ->)|]; timers.
    + case_match; [|timers]. case_match; [|cbn; timers].
      destruct (Hstop "raw relay idle timeout exceeded" (set_next_idle (now + check_period l) r)) as (-> & -> & -> & ->). cbn. timers.
    + case_match; cbn; timers.
    + case_match; [|timers].
      destruct (Hstop "raw relay authority check" (set_next_authority (now + authority_interval l) r)) as (-> & -> & -> & ->). cbn. timers.
  - destruct event as [s io| | | |]; try (timers). case_match; [|timers].
    destruct (Hcopy s io) as (-> & -> & -> & [->|[-> ->]]); timers.
Qed.
Lemma run_timers now t before : let r := run l (start l now) before in
  lifetime_ends r = now + max_lifetime l /\
  (now + authority_interval l <= t ->
   Forall (fun e => forall check, e.2 = AuthorityTick check -> e.1 + authority_interval l <= t) before -> next_authority r <= t) /\
  (now + check_period l <= t -> Forall (fun e => e.2 = IdleTick -> e.1 + check_period l <= t) before -> next_idle r <= t) /\
  (now + idle_timeout l <= t ->
   Forall (fun e => forall s, e.2 = Copy s (Written (Ok tt)) -> e.1 + idle_timeout l <= t) before ->
   last_activity r + idle_timeout l <= t).
Proof.
  cbv zeta. unfold run. induction before as [|e before IH] using rev_ind; [cbn; split_and!; lia|].
  rewrite fold_left_app. cbn [fold_left]. set (r := fold_left _ before _) in *.
  destruct IH as (Hlife & Hauth & Hidle & Hlast). destruct (step_timers r e) as (-> & Ha & Hi & Hl). split_and!; [done|..].
  - intros Hn [Hb He]%Forall_app. apply Forall_inv in He. cbn beta in He. destruct Ha as [->|[-> [check Hcheck]]]; [by apply Hauth|by eapply He].
  - intros Hn [Hb He]%Forall_app. apply Forall_inv in He. cbn beta in He. destruct Hi as [->|[-> Htick]]; [by apply Hidle|by apply He].
  - intros Hn [Hb He]%Forall_app. apply Forall_inv in He. cbn beta in He. destruct Hl as [->|[-> [s Hw]]]; [by apply Hlast|by eapply He].
Qed.

(** It is no longer in its loop, and will fail. *)
Definition failing (r : Relay) : Prop :=
  match stage r with Draining _ _ | Finished (Err _) => True | _ => False end.
(** Its left-to-right direction has ended as well. *)
Definition half_ended (r : Relay) : Prop :=
  match stage r with Draining _ _ => is_Some (ended (left r)) | Finished _ => True | Looping => False end.

Lemma stop_failing now e r : failing (settle (stop now e r)).
Proof. unfold failing, settle. cbn. by repeat case_match. Qed.

Lemma stops_failing now before t cause : stops l now before t cause ->
  let r := run l (start l now) before in failing (step l r (t, cause)) \/ exists o, stage r = Finished o.
Proof.
  intros Hs r. unfold step. destruct (run_timers now t before) as (Hlife & Hauth & Hidle & Hlast). fold r in Hlife, Hauth, Hidle, Hlast.
  destruct (stage r) as [| |o] eqn:Hst; [left|left|right; by exists o]; destruct cause as [s io| | | |[[]|e]]; try done;
    try (unfold failing; by rewrite Hst).
  - apply stop_failing.
  - cbn in Hs. rewrite Hlife, (proj2 (Z.leb_le _ _) Hs). apply stop_failing.
  - destruct Hs as (H1 & H2 & H3 & H4). rewrite (proj2 (Z.leb_le _ _) (Hidle H2 H3)). cbv zeta. cbn [last_activity set_next_idle].
    assert (idle_timeout l <=? saturating_sub t (last_activity r) = true) as ->; [|apply stop_failing].
    apply Z.leb_le. specialize (Hlast H1 H4). unfold saturating_sub. lia.
  - destruct Hs as [H1 H2]. rewrite (proj2 (Z.leb_le _ _) (Hauth H1 H2)). apply stop_failing.
Qed.

Lemma copy_draining now s io r since e : stage r = Draining since e ->
  let r' := copy_event l now s io r in
  stage r' = Draining since e /\ (is_Some (ended (left r)) -> is_Some (ended (left r'))) /\
  (is_Some (ended (right r)) -> is_Some (ended (right r'))) /\
  (forall caller n, io = Noticed caller n -> is_Some (ended (direction s r'))).
Proof.
  intros Hs. cbv zeta. unfold copy_event. rewrite Hs. destruct (copy_step _ _ _ _) as [d active] eqn:Hc.
  assert (is_Some (ended (direction s r)) -> is_Some (ended d)) as Hend.
  { unfold ended, copy_step in *. destruct (phase (direction s r)) eqn:Hp; intros [x Hx]; try done.
    destruct io; injection Hc as <- _; by rewrite Hp. }
  assert (forall caller n, io = Noticed caller n -> is_Some (ended d)) as Hnote.
  { intros caller n ->. unfold ended, copy_step in *. cbn in Hc. destruct (phase (direction s r)) eqn:Hp; injection Hc as <- _;
      cbn; rewrite ?Hp; by eexists. }
  destruct s, active, (ended d) as [[]|] eqn:He; cbn in *; rewrite Hs; cbn; rewrite ?He; auto.
Qed.

Lemma settle_draining r since e : stage r = Draining since e ->
  failing (settle r) /\ (is_Some (ended (left r)) -> half_ended (settle r)) /\
  (is_Some (ended (left r)) -> is_Some (ended (right r)) -> exists o, stage (settle r) = Finished o).
Proof.
  intros Hs. unfold settle, failing, half_ended. rewrite Hs.
  destruct (ended (left r)) as [a|] eqn:Ha, (ended (right r)) as [b|] eqn:Hb; cbn; rewrite ?Hs, ?Ha; cbn;
    split_and!; try done; intros [x Hx]; try done; intros [y Hy]; by eauto.
Qed.
Lemma step_failing r e : failing r -> failing (step l r e).
Proof.
  intros Hf. destruct e as [now event]. unfold step, failing in *. destruct (stage r) as [|since e|] eqn:Hs; [done| |by rewrite Hs].
  destruct event as [s io| | | |]; try (by rewrite Hs). destruct (drains s r); [|by rewrite Hs].
  eapply settle_draining, copy_draining, Hs.
Qed.

Lemma step_half r e : half_ended r -> half_ended (step l r e).
Proof.
  intros Hf. destruct e as [now event]. unfold step. pose proof Hf as Hf'. unfold half_ended in Hf.
  destruct (stage r) as [|since e|] eqn:Hs; [done| |done].
  destruct event as [s io| | | |]; try done. destruct (drains s r); [|done].
  destruct (copy_draining now s io r since e Hs) as (Hs' & Hl & _). eapply settle_draining; eauto.
Qed.

Lemma step_finished r e o : stage r = Finished o -> step l r e = r.
Proof. intros Hs. destruct e. unfold step. by rewrite Hs. Qed.

Lemma run_finished r o events : stage r = Finished o -> run l r events = r.
Proof. intros Hs. induction events as [|e events IH]; [done|]. cbn. by rewrite (step_finished _ _ _ Hs). Qed.

Lemma run_invariant (P : Relay -> Prop) r events : (forall r e, P r -> P (step l r e)) -> P r -> P (run l r events).
Proof. intros HP. revert r. induction events as [|e events IH]; intros r Hr; [done|]. cbn. by apply IH, HP. Qed.

(** The left-to-right direction notices first, then the other. *)
Lemma left_notices r now caller n : failing r -> half_ended (step l r (now, Copy LeftToRight (Noticed caller n))).
Proof.
  unfold failing, step. destruct (stage r) as [|since e|o] eqn:Hs; [done| |by unfold half_ended; rewrite Hs]. intros _.
  destruct (copy_draining now LeftToRight (Noticed caller n) r since e Hs) as (Hs' & _ & _ & Hn).
  eapply settle_draining; [done|]. by eapply Hn.
Qed.

Lemma right_notices r now caller n :
  half_ended r -> exists o, stage (step l r (now, Copy RightToLeft (Noticed caller n))) = Finished o.
Proof.
  unfold half_ended, step. destruct (stage r) as [|since e|o] eqn:Hs; [done| |by exists o]. intros Hl.
  cbn [drains]. rewrite bool_decide_true by done.
  destruct (copy_draining now RightToLeft (Noticed caller n) r since e Hs) as (Hs' & Hl' & _ & Hn).
  eapply settle_draining; [done|by apply Hl'|by eapply Hn].
Qed.

Lemma run_app r a b : run l r (a ++ b) = run l (run l r a) b.
Proof. apply fold_left_app. Qed.

Lemma failing_finishes r middle tl cl nl later tr cr nr after : failing r ->
  let events := middle ++ (tl, Copy LeftToRight (Noticed cl nl)) :: later ++ (tr, Copy RightToLeft (Noticed cr nr)) :: after in
  exists e, stage (run l r events) = Finished (Err e).
Proof.
  intros Hf events.
  assert (exists o, stage (run l r events) = Finished o) as [o Ho].
  { unfold events. rewrite run_app. change (?x :: later ++ ?y) with ([x] ++ later ++ y). rewrite !run_app.
    change (?x :: after) with ([x] ++ after). rewrite run_app. cbn [run fold_left].
    set (r1 := run l r middle). assert (failing r1) as H1 by (apply run_invariant; [apply step_failing|done]).
    pose proof (left_notices r1 tl cl nl H1) as H2. apply (run_invariant half_ended _ later step_half) in H2.
    destruct (right_notices _ tr cr nr H2) as [o Ho]. exists o. by rewrite (run_finished _ o after Ho). }
  assert (failing (run l r events)) as Hend by (apply run_invariant; [apply step_failing|done]).
  unfold failing in Hend. rewrite Ho in *. destruct o as [|e]; [done|]. by exists e.
Qed.
End Stopping.

(** C25. A relay stops when it should.  Let the caller cancel it, its lifetime
    run out, a due check of its authority be refused, or a due idle check come
    when no byte was written for the idle timeout, whatever happened before and
    whatever happens after.  Once its two directions have noticed, in turn, the
    relay has ended: with an error, unless it had ended before, and no event moves
    a byte any more.  That the runtime serves a timer that is due and lets each
    direction notice is what the events say of it. *)
Theorem relay_stops limits now before t cause middle tl cl nl later tr cr nr after r :
  let events := before ++ (t, cause) :: middle ++ (tl, Copy LeftToRight (Noticed cl nl)) ::
                later ++ (tr, Copy RightToLeft (Noticed cr nr)) :: after in
  supervise_raw_relay limits (Ok tt) now events = Ok r ->
  stops limits now before t cause ->
  ((exists e, stage r = Finished (Err e)) \/
   (exists o, stage r = Finished o /\ supervise_raw_relay limits (Ok tt) now before = Ok r)) /\
  forall more, supervise_raw_relay limits (Ok tt) now (events ++ more) = Ok r.
Proof.
  intros events Hs Hstops. unfold supervise_raw_relay in *. Signed.result_steps Hs. rewrite Hx. setoid_rewrite Signed.bind_eq.
  apply validate_inv in Hx as [-> _]. injection Hs as <-.
  assert (run limits (start limits now) events =
          run limits (step limits (run limits (start limits now) before) (t, cause))
            (middle ++ (tl, Copy LeftToRight (Noticed cl nl)) :: later ++ (tr, Copy RightToLeft (Noticed cr nr)) :: after)) as Hrun.
  { unfold events. by rewrite run_app. }
  destruct (stops_failing limits now before t cause Hstops) as [Hf|[o Ho]].
  - destruct (failing_finishes limits _ middle tl cl nl later tr cr nr after Hf) as [e He]. rewrite <- Hrun in He.
    split; [left; by exists e|]. intros more. by rewrite run_app, (run_finished _ _ _ _ He).
  - rewrite (step_finished _ _ _ _ Ho), (run_finished _ _ _ _ Ho) in Hrun. rewrite Hrun.
    split; [right; by exists o|]. intros more. by rewrite run_app, Hrun, (run_finished _ _ _ _ Ho).
Qed.

(** ** Witnesses *)
Module Sample.
Definition limits : RawRelayLimits := {|
  max_bytes_per_direction := 1024; idle_timeout := from_secs 300; max_lifetime := from_secs 3600;
  authority_interval := from_secs 30 |}.

(** Three bytes are relayed; the second check fails. *)
Definition before : list (Z * Event) :=
  [(from_secs 1, Copy LeftToRight (Read (Ok (as_bytes "abc")))); (from_secs 2, Copy LeftToRight (Written (Ok tt)));
   (from_secs 30, AuthorityTick (Ok tt))].
Definition ending : list (Z * Event) :=
  [(from_secs 60, AuthorityTick (Err "revoked"));
   (from_secs 60, Copy LeftToRight (Noticed false 0)); (from_secs 61, Copy RightToLeft (Noticed false 0))].

Definition stopped : Relay := run limits (start limits 0) (before ++ ending).
End Sample.
Import Sample.

Lemma relay_faithful_witness : delivered (left stopped) `prefix_of` received (left stopped).
Proof.
  apply (proj1 (proj1 (proj2 (relay_faithful limits (Ok tt) 0 (before ++ ending) stopped eq_refl)) LeftToRight)).
Defined.

Lemma relay_stops_witness :
  supervise_raw_relay limits (Ok tt) 0 ((before ++ ending) ++ [(from_secs 62, Copy LeftToRight (Read (Ok (as_bytes "def"))))]) = Ok stopped.
Proof.
  apply (relay_stops limits 0 before (from_secs 60) (AuthorityTick (Err "revoked")) [] (from_secs 60) false 0
    [] (from_secs 61) false 0 [] stopped); [reflexivity|].
  split; [by vm_compute|]. unfold before. repeat constructor; intros check Hc; try done; by vm_compute.
Defined.
End RawRelay.
