(* ===== verification/ProxyRuntime.v ===== *)
(** * The proxy's workload runtime (podmesh-proxy/src/iroh_runtime.rs,
      iroh_runtime/handlers.rs, iroh_runtime/tenant_gate.rs, iroh_runtime/egress.rs,
      egress_target.rs, restapi.rs)

    Connections, the streams a peer opens on them, egress tunnels, announcements
    between proxies and the requests the proxy forwards, as programs of atomic
    steps over the shared state.  What happens under one lock is one step; what
    the peer sends and how every wait ends is supplied from outside.  Metrics
    are left out. *)

From S2P Require Import Prelude Net Crypto Signed ReplayRegistry EndpointRecord MeshProtocol Identity.
From S2P Require Import Registration WorkloadStream WorkloadControl Routes Biscuit WorkloadIdentity ProxyGrant.
From S2P Require Import Admission AgentIds ServiceDiscovery WorkloadPayloads Tasks RawRelay.
From Stdlib Require Import Ascii.

(** The serializations of what the proxy exchanges. *)
Class ProxyCodecs := {
  proxy_envelope :: Postcard Envelope.Envelope;
  proxy_record :: Postcard EndpointRecord.EndpointRecord;
  proxy_handshake_request :: Postcard Payloads.WorkloadHandshakeRequest;
  proxy_handshake_response :: Postcard Payloads.WorkloadHandshakeResponse;
  proxy_registration :: Postcard Registration.SidecarRegistration;
  proxy_registration_ack :: Postcard Registration.SidecarRegistrationAck;
  proxy_discovery_request :: Postcard Payloads.ProxyDiscoveryRequest;
  proxy_discovery_response :: Postcard Payloads.ProxyEndpointDiscoveryResponse;
  proxy_egress_request :: Postcard Payloads.EgressTunnelRequest;
  proxy_egress_response :: Postcard Payloads.EgressTunnelResponse;
  proxy_announcement_request :: Postcard Payloads.ProxyAnnouncementRequest;
  proxy_announcement_response :: Postcard Payloads.ProxyAnnouncementResponse;
  proxy_ingress_request :: Postcard Payloads.IngressRequestMetadata;
  proxy_ingress_response :: Postcard Payloads.IngressResponseMetadata;
  proxy_delegation :: Json Workload.EnrollmentDelegation;
  proxy_identity :: Json Workload.WorkloadIdentity
}.

(** ** Egress destinations (egress_target.rs) *)
Module EgressTarget.
Import Net.

Definition MAX_EGRESS_HOST_LEN : Z := 253.

(** [Ipv6Addr::to_ipv4_mapped] *)
Definition to_ipv4_mapped (groups : list Z) : option (list Z) :=
  match groups with
  | [0; 0; 0; 0; 0; m; ab; cd] => if m =? 65535 then Some [ab / 256; ab mod 256; cd / 256; cd mod 256] else None
  | _ => None
  end.

Definition is_cloud_metadata (ip : IpAddr) : bool :=
  match ip with
  | IpV4 octets => bool_decide (octets = [169; 254; 169; 254])
  | IpV6 groups => bool_decide (to_ipv4_mapped groups = Some [169; 254; 169; 254])
  end.

Definition is_unspecified (ip : IpAddr) : bool :=
  match ip with
  | IpV4 octets => bool_decide (octets = [0; 0; 0; 0])
  | IpV6 groups => bool_decide (groups = replicate 8 0)
  end.

Definition ip_of (a : SocketAddr) : IpAddr := match a with V4 o _ => IpV4 o | V6 g _ _ => IpV6 g end.

(** [answer] is what the resolver says. *)
Definition resolve_target (host : string) (port : Z) (answer : Result (list SocketAddr)) : Result (list SocketAddr) :=
  ensure! negb (str_is_empty host) else Err "egress target host is empty" ;;
  ensure! str_len host <=? MAX_EGRESS_HOST_LEN else Err "egress target host exceeds 253 bytes" ;;
  ensure! negb (port =? 0) else Err "egress target port must be non-zero" ;;
  addresses ← answer;
  let resolved := list_retain (fun a => negb (is_unspecified (ip_of a)) && negb (is_cloud_metadata (ip_of a))) addresses in
  ensure! negb (bool_decide (resolved = [])) else Err "egress target did not resolve" ;;
  Ok resolved.

Lemma resolve_target_ok host port answer targets a :
  resolve_target host port answer = Ok targets -> a ∈ targets ->
  is_unspecified (ip_of a) = false /\ is_cloud_metadata (ip_of a) = false.
Proof.
  unfold resolve_target. cbv zeta. intros Hr. Signed.result_steps Hr. injection Hr as <-.
  rewrite elem_of_list_retain. intros [_ Ha]. bool_props. done.
Qed.
End EgressTarget.

Module Proxy.
Import Crypto Io Stream Control Payloads.
Import EndpointRecord (EndpointRecord, ENDPOINT_RECORD_VERSION).
Import Admission (ProvenTenant, TenantSession, RuntimeState, tenants, grant_store, routes, local_endpoint,
  set_grants, set_routes, MAX_REGISTERED_SIDECARS, workload_id_of).

Definition MAX_WORKLOAD_CONNECTIONS : Z := 4096.
Definition MAX_CONCURRENT_WORKLOAD_STREAMS : Z := 1024.
Definition MAX_CONCURRENT_INGRESS_STREAMS : Z := 256.
(** Durations in milliseconds and seconds. *)
Definition SIDECAR_REGISTRATION_TTL_MILLIS : Z := 120 * 1000.
Definition ENDPOINT_RECORD_LIFETIME_SECS : Z := 60 * 60.

Section Proxy.
Context {I : Iroh}.

(** ** State *)
Inductive Permit := ConnectionSlot (remote : EndpointId) (stable_id : Z) | StreamSlot | IngressSlot.

#[export] Instance Permit_eq_dec : EqDecision Permit.
Proof. solve_decision. Defined.

Definition permit_limit (p : Permit) : Z :=
  match p with
  | ConnectionSlot _ _ => MAX_WORKLOAD_STREAMS_PER_CONNECTION
  | StreamSlot => MAX_CONCURRENT_WORKLOAD_STREAMS
  | IngressSlot => MAX_CONCURRENT_INGRESS_STREAMS
  end.

(** What leaves the proxy, newest first: bytes written to a stream of a peer,
    the bytes of an external request for a routing key among them, connections
    opened for an egress tunnel of a peer, and what a tunnel of a peer moves. *)
Inductive Occurrence :=
| Sent (remote : EndpointId) (written : bytes)
| Forwarded (manifest : string) (remote : EndpointId) (written : bytes)
| Dialled (remote : EndpointId) (stable_id : Z) (targets : list Net.SocketAddr)
| Tunnelled (remote : EndpointId) (moved : bytes).

(** A permit is held by the task that drops it when it ends. *)
Record World := {
  runtime : RuntimeState;
  replay_registry : Replay.ReplayState;
  connections : gmap EndpointId Z;
  known_proxies : gmap EndpointId EndpointRecord;
  own_endpoint_record : EndpointRecord;
  permits : list (nat * Permit);
  trace : list Occurrence
}.

Definition set_runtime (x : RuntimeState) (w : World) : World :=
  {| runtime := x; replay_registry := replay_registry w; connections := connections w; known_proxies := known_proxies w;
     own_endpoint_record := own_endpoint_record w; permits := permits w; trace := trace w |}.
Definition set_replay (x : Replay.ReplayState) (w : World) : World :=
  {| runtime := runtime w; replay_registry := x; connections := connections w; known_proxies := known_proxies w;
     own_endpoint_record := own_endpoint_record w; permits := permits w; trace := trace w |}.
Definition set_connections (x : gmap EndpointId Z) (w : World) : World :=
  {| runtime := runtime w; replay_registry := replay_registry w; connections := x; known_proxies := known_proxies w;
     own_endpoint_record := own_endpoint_record w; permits := permits w; trace := trace w |}.
Definition set_known (x : gmap EndpointId EndpointRecord) (w : World) : World :=
  {| runtime := runtime w; replay_registry := replay_registry w; connections := connections w; known_proxies := x;
     own_endpoint_record := own_endpoint_record w; permits := permits w; trace := trace w |}.
Definition set_own_record (x : EndpointRecord) (w : World) : World :=
  {| runtime := runtime w; replay_registry := replay_registry w; connections := connections w; known_proxies := known_proxies w;
     own_endpoint_record := x; permits := permits w; trace := trace w |}.
Definition set_permits (x : list (nat * Permit)) (w : World) : World :=
  {| runtime := runtime w; replay_registry := replay_registry w; connections := connections w; known_proxies := known_proxies w;
     own_endpoint_record := own_endpoint_record w; permits := x; trace := trace w |}.
Definition log (o : Occurrence) (w : World) : World :=
  {| runtime := runtime w; replay_registry := replay_registry w; connections := connections w; known_proxies := known_proxies w;
     own_endpoint_record := own_endpoint_record w; permits := permits w; trace := o :: trace w |}.

Definition set_tenants (s : gmap EndpointId TenantSession) (st : RuntimeState) : RuntimeState :=
  {| Admission.tenants := s; Admission.grant_store := grant_store st; Admission.routes := routes st;
     Admission.local_endpoint := local_endpoint st |}.

(** How an outbound TCP connection attempt ends. *)
Inductive Connect := Opened | ConnectFailed (error : string) | ConnectTimedOut.

(** What the environment supplies to a step: the clocks, a random nonce,
    whether a permit comes in time, the order a hash map is iterated in, the
    resolver's answer, how a connection attempt and finishing a stream end, what
    happens next on a relay and how much of it, and the two halves of a stream
    that is opened. *)
Record Choice := {
  clock_secs : Z;
  clock_millis : Z;
  instant : Z;
  random_nonce : string;
  permitted : bool;
  iteration : list EndpointId;
  resolved : Result (list Net.SocketAddr);
  connected : Connect;
  relay_length : nat;
  relay_event : RawRelay.Event;
  finished : Result unit;
  opened : Result (Pipe * Pipe);
  address : EndpointAddr
}.

Abbreviation M := (Tasks.Prog World Choice).

Definition now_secs : M Z := Tasks.step (fun _ c w => (w, clock_secs c)).
Definition now_millis : M Z := Tasks.step (fun _ c w => (w, clock_millis c)).

(** ** Permits *)
Definition held (p : Permit) (w : World) : Z := len (filter (fun x => x.2 = p) (permits w)).

Definition take_permit (i : nat) (p : Permit) (w : World) : World * bool :=
  ensure! held p w <? permit_limit p else (w, false) ;;
  (set_permits ((i, p) :: permits w) w, true).

(** [try_acquire_owned], and [acquire_owned] under a timeout. *)
Definition try_acquire (p : Permit) : M bool := Tasks.step (fun i _ w => take_permit i p w).
Definition acquire (p : Permit) : M bool :=
  Tasks.step (fun i c w => if permitted c then take_permit i p w else (w, false)).

(** Dropping one permit of a task, and all of them. *)
Fixpoint remove_first (x : nat * Permit) (l : list (nat * Permit)) : list (nat * Permit) :=
  match l with [] => [] | y :: l => if bool_decide (y = x) then l else y :: remove_first x l end.
Definition drop_permit (p : Permit) : M unit :=
  Tasks.step (fun i _ w => (set_permits (remove_first (i, p) (permits w)) w, tt)).
Definition release (i : nat) (w : World) : World :=
  set_permits (filter (fun x => x.1 <> i) (permits w)) w.
Definition drop_permits : M unit := Tasks.step (fun i _ w => (release i w, tt)).

(** The values of a hash map, in the order [iteration] starts them with. *)
Definition values_in {A} (order : list EndpointId) (m : gmap EndpointId A) : list A :=
  let first := remove_dups (filter (fun e => is_Some (m !! e)) order) in
  omap (fun e => m !! e) first ++ (map_to_list (filter (fun ea => ea.1 ∉ first) m)).*2.

(** ** Programs *)
Context {P : Primitives} {B : Biscuit.BiscuitAuth} {H : Blake3} {CD : ProxyCodecs}.
(** [EndpointId::to_string] and its parser. *)
Context (id_to_string : EndpointId -> string) (id_parse : string -> option EndpointId).
(** The configured replay limits, the proxy's keys and advertised addresses. *)
Context (limits : Replay.ReplayLimits) (signing_public signing_private kem_public : bytes).
Context (advertise_addresses : list string).

(** *** The grant store (proxy_grants.rs): two lock sections *)
Definition live_grant (owner : string) (now : Z) : M (option bytes) :=
  stored ← Tasks.step (fun _ _ w => (w, grant_store (runtime w) !! owner));
  local ← Tasks.step (fun _ _ w => (w, local_endpoint (runtime w)));
  match stored with
  | None => Tasks.Ret None
  | Some stored =>
      if is_ok (ProxyGrant.verify_proxy_grant (ProxyGrant.encoded stored) (ProxyGrant.owner_public stored) owner local now)
      then Tasks.Ret (Some (ProxyGrant.encoded stored))
      else Tasks.step (fun _ _ w =>
        (set_runtime (set_grants (runtime w) (ProxyGrant.drop_grant (grant_store (runtime w)) owner)) w, None))
  end.

Definition holds_live_grant (owner : string) (now : Z) : M bool :=
  grant ← live_grant owner now;
  Tasks.Ret (bool_decide (is_Some grant)).

(** [POST /api/v1/proxy_grant] (restapi.rs), with the status it answers. *)
Definition post_proxy_grant (owner_pubkey_b64 grant_b64 : string) : M Z :=
  match ProxyGrant.proxy_grant_from_b64 grant_b64 with
  | Err _ => Tasks.Ret 400
  | Ok encoded =>
      Tasks.step (fun _ c w =>
        let (g, r) := ProxyGrant.accept (grant_store (runtime w)) owner_pubkey_b64 encoded
                        (local_endpoint (runtime w)) (clock_secs c) in
        (set_runtime (set_grants (runtime w) g) w, match r with Ok _ => 200 | Err _ => 400 end))
  end.

(** *** The tenant gate (tenant_gate.rs) *)
Definition live_tenant (remote : EndpointId) (sid : Z) : M (Result ProvenTenant) :=
  Tasks.step (fun _ c w => (w, Admission.proven_live id_to_string (tenants (runtime w)) remote sid (clock_secs c))).

Definition prove_tenant (remote : EndpointId) (sid : Z) (h : WorkloadHandshakeRequest) (signing_key : bytes)
    : M (Result unit) :=
  credential ←! Admission.workload_credential_from_b64 (workload_credential_b64 h);
  identity ←! Workload.identity_from_bytes credential;
  now ← now_secs;
  _ ←! Workload.verify_session identity (tenant_owner_pubkey h) (handshake_manifest_id h) (id_to_string remote)
         signing_key now;
  Tasks.step (fun _ c w =>
    let (s, r) := Admission.prove_bound id_to_string (tenants (runtime w)) remote sid
      {| Admission.owner_pubkey := tenant_owner_pubkey h; Admission.manifest_id := handshake_manifest_id h;
         Admission.credential := credential |} (clock_secs c) in
    (set_runtime (set_tenants s (runtime w)) w, r)).

Definition authorize_egress (remote : EndpointId) (sid : Z) : M (Result unit) :=
  proven ←? live_tenant remote sid;
  now ← now_secs;
  granted ← holds_live_grant (Admission.owner_pubkey proven) now;
  ensure! granted : bool
    else Tasks.Ret (Err "this proxy holds no live owner grant for the egress tenant") ;;
  Tasks.Ret (Ok tt).

(** *** Typed messages (handlers.rs) *)
Definition accept_payload {T} `{Postcard T} `{WorkloadPayload T} (remote : EndpointId) (payload : bytes)
    : M (Result (AcceptedWorkloadPayload T)) :=
  Tasks.step (fun _ c w =>
    let (st, r) := accept_workload_payload payload (local_endpoint (runtime w)) (id_to_string remote)
      (clock_millis c) limits (replay_registry w) (instant c) in
    (set_replay st w, r)).

Definition accept_typed_request {T} `{Postcard T} `{WorkloadPayload T} (remote : EndpointId) (sid : Z) (payload : bytes)
    : M (Result (AcceptedWorkloadPayload T)) :=
  accepted ←? accept_payload remote payload;
  if bool_decide (@TYPE T _ <> HandshakeRequest) && bool_decide (@TYPE T _ <> Control.ProxyAnnouncementRequest) then
    proven ←? live_tenant remote sid;
    identity ←! Workload.identity_from_bytes (Admission.credential proven);
    ensure! bool_decide (Workload.signing_public_key_b64 (Workload.claims identity) =
                         b64_encode (accepted_signing_key accepted))
      else Tasks.Ret (Err "workload envelope uses an unauthorized application key") ;;
    Tasks.Ret (Ok accepted)
  else Tasks.Ret (Ok accepted).

Definition seal_typed {T} `{Postcard T} `{WorkloadPayload T} (remote : EndpointId) (payload : T) : M (Result bytes) :=
  Tasks.step (fun _ c w =>
    (w, seal_workload_payload
      {| Control.nonce := random_nonce c; Control.now_millis := clock_millis c;
         Control.sender_id := local_endpoint (runtime w); Control.recipient_id := id_to_string remote;
         Control.sender_signing_public := signing_public; Control.sender_signing_private := signing_private;
         Control.sender_kem_public := Some kem_public |} payload)).

(** One frame on a stream: what is written leaves the proxy, also when the
    write does not finish. *)
Definition write_as (occurrence : bytes -> Occurrence) (send : Pipe) (kind : WorkloadStreamKind) (payload : bytes)
    : M (Result Pipe) :=
  Tasks.step (fun _ _ w =>
    let (send', r) := write_workload_frame send kind payload in
    (log (occurrence (drop (length (content send)) (content send'))) w,
     match r with Ok _ => Ok send' | Err e => Err e end)).

Definition write_frame (remote : EndpointId) : Pipe -> WorkloadStreamKind -> bytes -> M (Result Pipe) :=
  write_as (Sent remote).

Definition write_response (remote : EndpointId) (send : Pipe) (kind : WorkloadStreamKind) (payload : bytes)
    : M (Result unit) :=
  _ ←? write_frame remote send kind payload;
  Tasks.step (fun _ c w => (w, finished c)).

Definition write_typed_response {T} `{Postcard T} `{WorkloadPayload T} (remote : EndpointId) (send : Pipe) (payload : T)
    : M (Result unit) :=
  envelope ←? seal_typed remote payload;
  write_response remote send (frame_kind (@TYPE T _)) envelope.

Definition install_registration (r : Registration.SidecarRegistration) (transport : EndpointId) (sid : Z) : M (Result unit) :=
  _ ←! Registration.validate_registration r;
  ensure! bool_decide (Registration.sidecar_peer_id r = id_to_string transport)
    else Tasks.Ret (Err "registration names an endpoint other than the authenticated transport") ;;
  proven ←? live_tenant transport sid;
  ensure! bool_decide (Admission.owner_pubkey proven = Registration.owner_pubkey r)
    else Tasks.Ret (Err "registration names a different owner than this connection proved") ;;
  ensure! bool_decide (Admission.manifest_id proven = Registration.manifest_id r)
    else Tasks.Ret (Err "registration names a different workload than this connection proved") ;;
  identity ←! Workload.identity_from_bytes (Admission.credential proven);
  owner ←! b64_decode (Registration.owner_pubkey r);
  ensure! bool_decide (Workload.workload_id (Workload.scope (Workload.delegation identity)) =
                       workload_id_of owner (Registration.workload_name r) (Registration.replica_index r))
    else Tasks.Ret (Err "registration names another replica than its credential authorizes") ;;
  now ← now_secs;
  granted ← holds_live_grant (Registration.owner_pubkey r) now;
  ensure! granted : bool
    else Tasks.Ret (Err "this proxy holds no live owner grant for the registration tenant") ;;
  Tasks.step (fun _ c w =>
    let (t, res) := Routes.register_inner (routes (runtime w)) r (clock_millis c) MAX_REGISTERED_SIDECARS in
    (set_runtime (set_routes (runtime w) t) w, res)).

(** *** The operations of [handle_stream] *)
Definition handle_handshake (remote : EndpointId) (sid : Z) (send : Pipe) (payload : bytes) : M (Result unit) :=
  accepted ←? accept_typed_request (T := WorkloadHandshakeRequest) remote sid payload;
  _ ←? prove_tenant remote sid (accepted_payload accepted) (accepted_signing_key accepted);
  now ← now_secs;
  grant ← live_grant (tenant_owner_pubkey (accepted_payload accepted)) now;
  write_typed_response remote send (new_handshake_response (ProxyGrant.proxy_grant_to_b64 <$> grant)).

Definition handle_registration (remote : EndpointId) (sid : Z) (send : Pipe) (payload : bytes) : M (Result unit) :=
  accepted ←? accept_typed_request (T := Registration.SidecarRegistration) remote sid payload;
  let registration := accepted_payload accepted in
  installed ← install_registration registration remote sid;
  write_typed_response remote send
    {| Registration.ack_manifest_id := Registration.manifest_id registration;
       Registration.ack_ok := is_ok installed;
       Registration.ack_message := match installed with Ok _ => "ok" | Err e => e end |}.

(** Whether the connection may enumerate the known proxies. *)
Definition may_discover (remote : EndpointId) (sid : Z) : M bool :=
  proven ← live_tenant remote sid;
  match proven with
  | Ok tenant => now ← now_secs; holds_live_grant (Admission.owner_pubkey tenant) now
  | Err _ => Tasks.Ret false
  end.

Definition known_endpoints (order : list EndpointId) (limit : Z) (remote : EndpointId)
    (known : gmap EndpointId EndpointRecord) : list EndpointRecord :=
  take (Z.to_nat limit)
    (list_retain (fun r => negb (bool_decide (EndpointRecord.endpoint_id r = id_as_bytes remote))) (values_in order known)).

Definition handle_discovery (remote : EndpointId) (sid : Z) (send : Pipe) (payload : bytes) : M (Result unit) :=
  accepted ←? accept_typed_request (T := ProxyDiscoveryRequest) remote sid payload;
  authorized ← may_discover remote sid;
  endpoints ←
    (if authorized : bool then
      Tasks.step (fun _ c w => (w, known_endpoints (iteration c) (limit (accepted_payload accepted)) remote (known_proxies w)))
     else Tasks.Ret []);
  write_typed_response remote send {| endpoints := endpoints |}.

Definition handle_announcement (remote : EndpointId) (sid : Z) (send : Pipe) (payload : bytes) : M (Result unit) :=
  accepted ←? accept_typed_request (T := ProxyAnnouncementRequest) remote sid payload;
  let record := request_endpoint (accepted_payload accepted) in
  ensure! bool_decide (EndpointRecord.endpoint_id record = id_as_bytes remote)
    else Tasks.Ret (Err "proxy announcement EndpointId does not match transport") ;;
  key ←! b64_decode (EndpointRecord.signing_pubkey record);
  ensure! bool_decide (accepted_signing_key accepted = key)
    else Tasks.Ret (Err "proxy announcement envelope key does not match endpoint record") ;;
  _ ← Tasks.step (fun _ _ w => (set_known (<[remote := record]> (known_proxies w)) w, tt));
  own ← Tasks.step (fun _ _ w => (w, own_endpoint_record w));
  write_typed_response remote send {| response_endpoint := own |}.

(** *** Egress (egress.rs) *)

(** Durations in nanoseconds. *)
Definition EGRESS_IDLE_TIMEOUT : Z := from_secs 300.
Definition MAX_EGRESS_TUNNEL_BYTES : Z := 512 * 1024 * 1024.

Definition egress_relay_limits : RawRelay.RawRelayLimits := {|
  RawRelay.max_bytes_per_direction := MAX_EGRESS_TUNNEL_BYTES; RawRelay.idle_timeout := EGRESS_IDLE_TIMEOUT;
  RawRelay.max_lifetime := EGRESS_IDLE_TIMEOUT; RawRelay.authority_interval := from_secs 30 |}.
Definition websocket_relay_limits : RawRelay.RawRelayLimits := {|
  RawRelay.max_bytes_per_direction := 512 * 1024 * 1024; RawRelay.idle_timeout := from_secs 300;
  RawRelay.max_lifetime := from_secs (60 * 60); RawRelay.authority_interval := from_secs 30 |}.

(** What a step of a relay delivered, both ways. *)
Definition moved (r r' : RawRelay.Relay) : bytes :=
  drop (length (RawRelay.delivered (RawRelay.left r))) (RawRelay.delivered (RawRelay.left r')) ++
  drop (length (RawRelay.delivered (RawRelay.right r))) (RawRelay.delivered (RawRelay.right r')).

(** The authority is asked when its timer fires. *)
Definition asks (r : RawRelay.Relay) (now : Z) (event : RawRelay.Event) : bool :=
  match RawRelay.stage r, event with
  | RawRelay.Looping, RawRelay.AuthorityTick _ => RawRelay.next_authority r <=? now
  | _, _ => false
  end.

(** The events of [supervise_raw_relay], as far as they are followed. *)
Fixpoint relay_loop (l : RawRelay.RawRelayLimits) (remote : EndpointId) (check_authority : M (Result unit)) (n : nat)
    (r : RawRelay.Relay) : M (Result RawRelay.RawRelayStats) :=
  match RawRelay.stage r, n with
  | RawRelay.Finished outcome, _ => Tasks.Ret outcome
  | _, O => Tasks.Ret (Err "raw relay is still running")
  | _, S n =>
      e ← Tasks.step (fun _ c w => (w, (instant c, relay_event c)));
      event ← (if asks r e.1 e.2 then answer ← check_authority; Tasks.Ret (RawRelay.AuthorityTick answer)
               else Tasks.Ret e.2);
      r ← Tasks.step (fun _ _ w =>
        let r' := RawRelay.step l r (e.1, event) in (log (Tunnelled remote (moved r r')) w, r'));
      relay_loop l remote check_authority n r
  end.

Definition raw_relay (limits : RawRelay.RawRelayLimits) (remote : EndpointId) (check_authority : M (Result unit))
    : M (Result RawRelay.RawRelayStats) :=
  l ←! RawRelay.validate limits;
  _ ←? check_authority;
  now ← Tasks.step (fun _ c w => (w, instant c));
  n ← Tasks.step (fun _ c w => (w, relay_length c));
  relay_loop l remote check_authority n (RawRelay.start l now).

Definition refuse_egress (remote : EndpointId) (send : Pipe) (reason error : string) : M (Result unit) :=
  _ ←? write_typed_response remote send (egress_err reason);
  Tasks.Ret (Err error).

Definition handle_egress_inner (remote : EndpointId) (sid : Z) (send : Pipe) (request : EgressTunnelRequest) : M (Result unit) :=
  _ ←! validate_egress_request request;
  authorized ← authorize_egress remote sid;
  match authorized with
  | Err e => refuse_egress remote send "destination not permitted" e
  | Ok _ =>
      answer ← Tasks.step (fun _ c w => (w, resolved c));
      match EgressTarget.resolve_target (target_host request) (egress_target_port request) answer with
      | Err e => refuse_egress remote send "destination not permitted" e
      | Ok targets =>
          outcome ← Tasks.step (fun _ c w => (log (Dialled remote sid targets) w, connected c));
          match outcome with
          | ConnectFailed _ => refuse_egress remote send "connection failed" "connect egress target"
          | ConnectTimedOut => refuse_egress remote send "connection failed" "egress target connection timed out"
          | Opened =>
              envelope ←? seal_typed remote egress_ok;
              _ ←? write_frame remote send (frame_kind EgressResponse) envelope;
              _ ←? raw_relay egress_relay_limits remote (authorize_egress remote sid);
              Tasks.Ret (Ok tt)
          end
      end
  end.

Definition handle_egress (remote : EndpointId) (sid : Z) (send : Pipe) (payload : bytes) : M (Result unit) :=
  accepted ←? accept_typed_request (T := EgressTunnelRequest) remote sid payload;
  handle_egress_inner remote sid send (accepted_payload accepted).

(** *** A stream a peer opened (handlers.rs, handle_stream) *)
Definition handle_kind (remote : EndpointId) (sid : Z) (send : Pipe) (kind : WorkloadStreamKind) (payload : bytes)
    : M (Result unit) :=
  match kind with
  | Stream.Handshake => handle_handshake remote sid send payload
  | Stream.Registration => handle_registration remote sid send payload
  | Stream.ProxyDiscovery => handle_discovery remote sid send payload
  | Stream.Egress => handle_egress remote sid send payload
  | Stream.Ingress => Tasks.Ret (Err "proxy does not accept ingress operations")
  | Stream.ProxyAnnouncement => handle_announcement remote sid send payload
  end.

Definition admitted_stream (remote : EndpointId) (sid : Z) (send recv : Pipe) : M (Result unit) :=
  slot ← acquire StreamSlot;
  ensure! slot : bool else Tasks.Ret (Err "timed out waiting for workload stream capacity") ;;
  '(kind, payload) ←! (read_workload_frame recv).2;
  handle_kind remote sid send kind payload.

Definition handle_stream (remote : EndpointId) (sid : Z) (send recv : Pipe) : M (Result unit) :=
  slot ← try_acquire (ConnectionSlot remote sid);
  ensure! slot : bool else Tasks.Ret (Err "connection stream limit reached") ;;
  r ← admitted_stream remote sid send recv;
  _ ← drop_permits;
  Tasks.Ret r.

(** ** Connections (iroh_runtime.rs) *)

(** What [register_connection] does when a connection is established and when
    it ends, each under the lock of the connections. *)
Definition open_connection (remote : EndpointId) (sid : Z) : M (Result unit) :=
  Tasks.step (fun _ _ w =>
    ensure! contains_key remote (connections w) || (map_len (connections w) <? MAX_WORKLOAD_CONNECTIONS)
      else (w, Err "connection limit reached") ;;
    ensure! negb (contains_key remote (connections w)) else (w, Err "duplicate connection") ;;
    let (s, r) := Admission.begin (tenants (runtime w)) remote sid in
    let w := set_runtime (set_tenants s (runtime w)) w in
    match r with
    | Err e => (w, Err "duplicate connection session")
    | Ok _ => (set_connections (<[remote := sid]> (connections w)) w, Ok tt)
    end).

Definition close_connection (remote : EndpointId) (sid : Z) : M unit :=
  Tasks.step (fun _ _ w =>
    if bool_decide (connections w !! remote = Some sid) then
      (set_connections (delete remote (connections w))
         (set_runtime (set_tenants (Admission.remove_if_current (tenants (runtime w)) remote sid) (runtime w)) w), tt)
    else (w, tt)).

Definition prune_routes : M unit :=
  Tasks.step (fun _ c w =>
    (set_runtime (set_routes (runtime w)
       (Routes.prune_inner (routes (runtime w)) (clock_millis c) SIDECAR_REGISTRATION_TTL_MILLIS)) w, tt)).

(** ** Announcements to other proxies *)
Definition signed_endpoint_record (addr : EndpointAddr) (now : Z) : Result EndpointRecord :=
  EndpointRecord.sign
    {| EndpointRecord.version := ENDPOINT_RECORD_VERSION;
       EndpointRecord.endpoint_id := id_as_bytes (addr_id addr);
       EndpointRecord.relay_url := head (addr_relay_urls addr);
       EndpointRecord.direct_addresses :=
         if bool_decide (advertise_addresses = []) then addr_ip_addrs addr else advertise_addresses;
       EndpointRecord.signing_pubkey := "";
       EndpointRecord.issued_at_secs := now;
       EndpointRecord.expires_at_secs := saturating_add u64_max now ENDPOINT_RECORD_LIFETIME_SECS;
       EndpointRecord.signature := "" |}
    signing_public signing_private now.

Definition announce_proxy_inner (remote : EndpointId) : M (Result unit) :=
  '(send, recv) ←? Tasks.step (fun _ c w => (w, opened c));
  record ← Tasks.step (fun _ _ w => (w, own_endpoint_record w));
  envelope ←? seal_typed remote {| request_endpoint := record |};
  _ ←? write_response remote send (frame_kind Control.ProxyAnnouncementRequest) envelope;
  '(kind, response) ←! (read_workload_frame recv).2;
  ensure! bool_decide (kind = frame_kind Control.ProxyAnnouncementResponse)
    else Tasks.Ret (Err "proxy announcement response kind is invalid") ;;
  accepted ←? accept_payload (T := ProxyAnnouncementResponse) remote response;
  let remote_record := response_endpoint (accepted_payload accepted) in
  ensure! bool_decide (EndpointRecord.endpoint_id remote_record = id_as_bytes remote)
    else Tasks.Ret (Err "proxy announcement response does not match transport") ;;
  key ←! b64_decode (EndpointRecord.signing_pubkey remote_record);
  ensure! bool_decide (accepted_signing_key accepted = key)
    else Tasks.Ret (Err "proxy announcement response envelope key does not match endpoint record") ;;
  Tasks.step (fun _ _ w => (set_known (<[remote := remote_record]> (known_proxies w)) w, Ok tt)).

(** The address is dialled when the record verifies; [connected] says whether
    the proxy answers. *)
Definition connect_configured_proxy (record : EndpointRecord) (sid : Z) : M (Result unit) :=
  now ← now_secs;
  addr ←! Identity.endpoint_addr record now;
  outcome ← Tasks.step (fun _ c w => (w, connected c));
  match outcome with
  | ConnectFailed _ => Tasks.Ret (Err "connect configured proxy")
  | ConnectTimedOut => Tasks.Ret (Err "configured proxy connection timed out")
  | Opened =>
      _ ←? announce_proxy_inner (addr_id addr);
      _ ← open_connection (addr_id addr) sid;
      Tasks.Ret (Ok tt)
  end.

(** The announcements of a refreshed record, to the known proxies that are connected. *)
Fixpoint announce_all (proxies : list EndpointId) : M unit :=
  match proxies with
  | [] => Tasks.Ret tt
  | proxy :: proxies =>
      connection ← Tasks.step (fun _ _ w => (w, connections w !! proxy));
      _ ← match connection with
          | None => Tasks.Ret tt
          | Some sid =>
              slot ← try_acquire (ConnectionSlot proxy sid);
              if slot : bool then
                _ ← announce_proxy_inner proxy;
                drop_permit (ConnectionSlot proxy sid)
              else Tasks.Ret tt
          end;
      announce_all proxies
  end.

Definition refresh_endpoint_record : M (Result unit) :=
  refreshed ←? Tasks.step (fun _ c w => (w, signed_endpoint_record (address c) (clock_secs c)));
  _ ← Tasks.step (fun _ _ w => (set_own_record refreshed w, tt));
  proxies ← Tasks.step (fun _ c w => (w, (map_to_list (known_proxies w)).*1));
  _ ← announce_all proxies;
  Tasks.Ret (Ok tt).

(** ** Forwarding an external request *)

(** [value.split(':').next().unwrap_or(value).to_lowercase()]: ingress.rs takes
    only header values that [HeaderValue::to_str] gives, which are ASCII, and on
    those [to_lowercase] is the ASCII one. *)
Definition extract_host_header (headers : list (string * string)) : option string :=
  (fun h => Net.to_ascii_lowercase (match Net.split ":"%char h.2 with first :: _ => first | [] => h.2 end))
    <$> List.find (fun h => Net.eq_ignore_ascii_case h.1 "host") headers.

Definition with_target_port (port : Z) (r : IngressRequestMetadata) : IngressRequestMetadata :=
  {| manifest_id := manifest_id r; method := method r; path_and_query := path_and_query r; headers := headers r;
     target_port := port; upgrade_requested := upgrade_requested r |}.

Definition parse_endpoint_id (value : string) : Result EndpointId := ok_or (id_parse value) "invalid Iroh EndpointId".

Definition open_ingress (request : IngressRequestMetadata) (target : Routes.RouteTarget) : M (Result (Pipe * Pipe * Z)) :=
  endpoint_id ←! parse_endpoint_id (Routes.target_peer target);
  connection ← Tasks.step (fun _ _ w => (w, connections w !! endpoint_id));
  match connection with
  | None => Tasks.Ret (Err "registered sidecar connection is unavailable")
  | Some sid =>
      slot ← try_acquire (ConnectionSlot endpoint_id sid);
      if slot : bool then
        r ← ('(send, recv) ←? Tasks.step (fun _ c w => (w, opened c));
             payload ←? seal_typed endpoint_id request;
             send ←? write_as (Forwarded (manifest_id request) endpoint_id) send (frame_kind Control.IngressRequest) payload;
             Tasks.Ret (Ok (send, recv, sid)));
        _ ← drop_permit (ConnectionSlot endpoint_id sid);
        Tasks.Ret r
      else Tasks.Ret (Err "sidecar connection stream limit reached")
  end.

(** The replicas are tried in turn until one takes the request. *)
Fixpoint try_targets (request : IngressRequestMetadata) (targets : list Routes.RouteTarget) (last_error : string)
    : M (Result (IngressRequestMetadata * EndpointId * Z * Pipe * Pipe)) :=
  match targets with
  | [] => Tasks.Ret (Err last_error)
  | target :: targets =>
      let attempt := with_target_port (Routes.target_port target) request in
      r ← open_ingress attempt target;
      match r with
      | Ok (send, recv, sid) =>
          endpoint_id ←! parse_endpoint_id (Routes.target_peer target);
          Tasks.Ret (Ok (attempt, endpoint_id, sid, send, recv))
      | Err e => try_targets request targets e
      end
  end.

(** The relay of an upgraded connection, a task of its own. *)
Definition websocket_relay (remote : EndpointId) (sid : Z) : M (Result RawRelay.RawRelayStats) :=
  raw_relay websocket_relay_limits remote (authorize_egress remote sid).

(** The answer to the external client; an upgraded connection has no body. *)
Record HttpResponse := {
  http_status : Z;
  http_headers : list (string * string);
  http_body : option (list (Result bytes))
}.

Definition send_request_body (manifest : string) (remote : EndpointId) (send : Pipe) (body : list (Result bytes))
    : M (Result unit) :=
  Tasks.step (fun _ _ w =>
    let (send', r) := Body.send_body send body in
    (log (Forwarded manifest remote (drop (length (content send)) (content send'))) w, r)).

Definition forward_admitted (request : IngressRequestMetadata) (body : list (Result bytes)) (on_upgrade : bool)
    : M (Result HttpResponse) :=
  let host := extract_host_header (headers request) in
  targets ← Tasks.step (fun _ _ w =>
    let (t, targets) := Routes.select (routes (runtime w)) (manifest_id request) (path_and_query request) host in
    (set_runtime (set_routes (runtime w) t) w, targets));
  ensure! negb (bool_decide (targets = [])) else Tasks.Ret (Err "manifest has no registered sidecar route") ;;
  '(request, endpoint_id, sid, send, recv) ←? try_targets request targets "no replica could serve manifest";
  _ ←? send_request_body (manifest_id request) endpoint_id send body;
  finish ← (if upgrade_requested request then Tasks.Ret (Ok tt) else Tasks.step (fun _ c w => (w, finished c)));
  _ ←! finish;
  let (recv, frame) := read_workload_frame recv in
  '(kind, response) ←! frame;
  ensure! bool_decide (kind = frame_kind Control.IngressResponse)
    else Tasks.Ret (Err "unexpected ingress response kind") ;;
  accepted ←? accept_payload (T := IngressResponseMetadata) endpoint_id response;
  let metadata := accepted_payload accepted in
  if upgrade_accepted metadata then
    ensure! upgrade_requested request && (status_code metadata =? 101)
      else Tasks.Ret (Err "invalid ingress upgrade transition") ;;
    ensure! on_upgrade else Tasks.Ret (Err "external HTTP upgrade handle is missing") ;;
    Tasks.Ret (Ok {| http_status := status_code metadata; http_headers := response_headers metadata; http_body := None |})
  else
    Tasks.Ret (Ok {| http_status := status_code metadata; http_headers := response_headers metadata;
                     http_body := Some (Body.receive_body recv) |}).

Definition forward_inner (request : IngressRequestMetadata) (body : list (Result bytes)) (on_upgrade : bool)
    : M (Result HttpResponse) :=
  slot ← acquire IngressSlot;
  ensure! slot : bool else Tasks.Ret (Err "timed out waiting for ingress stream capacity") ;;
  r ← forward_admitted request body on_upgrade;
  _ ← drop_permits;
  Tasks.Ret r.
End Proxy.
End Proxy.
