(* ===== verification/ProxySafety.v ===== *)
(** * The proxy keeps its invariant

    However the proxy's tasks interleave and wherever they are cancelled, its
    routing table, its sessions, its grants and what leaves it stay within what
    the owners authorised, and its resources stay bounded.  Every program of
    ProxyRuntime.v keeps one invariant of the shared state; since what a task
    has checked is about credentials and grants, and not about the state, a task
    need not assume anything of the others. *)

From S2P Require Import Prelude Net Crypto Signed RustOrd ReplayRegistry EndpointRecord MeshProtocol Identity.
From S2P Require Import Registration WorkloadStream WorkloadControl Routes Biscuit WorkloadIdentity ProxyGrant.
From S2P Require Import Admission AgentIds ServiceDiscovery WorkloadPayloads Tasks RawRelay ProxyRuntime.

Module ProxySafety.
Import Crypto Io Stream Control Payloads Proxy.
Import EndpointRecord (EndpointRecord).
Import Admission (ProvenTenant, TenantSession, RuntimeState, tenants, grant_store, routes, local_endpoint,
  set_grants, set_routes, MAX_REGISTERED_SIDECARS, workload_id_of, check_credential, sessions_verified, stable_id).

(** ** The routing table *)
Section Table.
Context (Q : string -> string -> Z -> string -> Prop).

(** Every backend, with the owner, routing key and replica it is filed under
    and its peer, satisfies [Q]. *)
Definition table_ok (t : Routes.Inner) : Prop :=
  forall m e i b, Routes.by_manifest t !! m = Some e -> Routes.backends e !! i = Some b ->
    Q (Routes.entry_owner e) m i (Routes.peer_id b).

Lemma register_table_ok t r now max_entries :
  table_ok t ->
  Q (Registration.owner_pubkey r) (Registration.manifest_id r) (Registration.replica_index r)
    (Registration.sidecar_peer_id r) ->
  table_ok (Routes.register_inner t r now max_entries).1.
Proof.
  intros Ht Hr. destruct (is_ok (Routes.register_inner t r now max_entries).2) eqn:Hok.
  2:{ by rewrite Routes.register_err. }
  destruct (Routes.register_effect _ _ _ _ Hok) as ((e' & Hm & Ho & Hb & Hsib) & _).
  destruct (proj1 (Routes.register_accepts _ _ _ _) Hok) as (Hown & _). cbv zeta in *.
  intros m e i b. rewrite Hm. intros [[<- <-]|[_ Hl]]%lookup_insert_Some; [|by apply Ht].
  rewrite Ho. destruct (decide (i = Registration.replica_index r)) as [->|Hi].
  - rewrite Hb. by intros [= <-].
  - rewrite Hsib by done. destruct (Routes.by_manifest t !! _) as [e|] eqn:He; [|done].
    rewrite <- (Hown _ eq_refl). by apply Ht.
Qed.

Lemma select_table_ok t m path h : table_ok t -> table_ok (Routes.select t m path h).1.
Proof.
  intros Ht. unfold Routes.select. destruct (Routes.by_manifest t !! m) as [e|] eqn:He; [|done].
  cbv zeta. case_bool_decide; [done|]. intros m' e' i b. cbn.
  intros [[<- <-]|[_ Hl]]%lookup_insert_Some; [|by apply Ht]. cbn. by apply Ht.
Qed.

Lemma prune_table_ok t now ttl : table_ok t -> table_ok (Routes.prune_inner t now ttl).
Proof.
  intros Ht m e i b. rewrite Routes.prune_lookup. destruct (Routes.by_manifest t !! m) as [e0|] eqn:He; [|done].
  case_bool_decide; [done|]. intros [= <-]. cbn. intros [Hb _]%lookup_map_retain. by eapply Ht.
Qed.

Lemma register_room t r now max_entries :
  Routes.table_len t <= max_entries -> Routes.table_len (Routes.register_inner t r now max_entries).1 <= max_entries.
Proof.
  intros Ht. destruct (is_ok (Routes.register_inner t r now max_entries).2) eqn:Hok; [|by rewrite Routes.register_err].
  destruct (Routes.register_effect _ _ _ _ Hok) as ((e' & Hm & _) & _).
  destruct (proj1 (Routes.register_accepts _ _ _ _) Hok) as (_ & Hroom & _). unfold Routes.table_len in *. rewrite Hm.
  destruct (Routes.by_manifest t !! _) eqn:He; [by rewrite map_len_insert_old by eauto|].
  rewrite map_len_insert_new by done. specialize (Hroom eq_refl). lia.
Qed.

Lemma select_room t m path h : Routes.table_len (Routes.select t m path h).1 = Routes.table_len t.
Proof.
  unfold Routes.select. destruct (Routes.by_manifest t !! m) as [e|] eqn:He; [|done]. cbv zeta.
  case_bool_decide; [done|]. unfold Routes.table_len. cbn. by rewrite map_len_insert_old by eauto.
Qed.

Lemma prune_room t now ttl : Routes.table_len (Routes.prune_inner t now ttl) <= Routes.table_len t.
Proof.
  unfold Routes.table_len. cbn. etrans; [apply map_len_retain_le|]. unfold map_len. by rewrite map_size_fmap.
Qed.

(** The targets of a request are backends of its routing key. *)
Lemma select_targets t m path h x :
  table_ok t -> x ∈ (Routes.select t m path h).2 ->
  exists o, Q o m (Routes.target_replica x) (Routes.target_peer x).
Proof.
  intros Ht. unfold Routes.select. destruct (Routes.by_manifest t !! m) as [e|] eqn:He; [|by intros ?%not_elem_of_nil].
  cbv zeta. case_bool_decide; [by intros ?%not_elem_of_nil|]. cbn [snd]. intros Hx.
  assert (x ∈ Routes.candidates e path h) as Hc.
  { revert Hx. rewrite elem_of_app. intros [Hx|Hx]; eapply elem_of_submseteq; [exact Hx| |exact Hx|];
      apply sublist_submseteq; [apply sublist_drop|apply sublist_take]. }
  unfold Routes.candidates in Hc. apply list_elem_of_omap in Hc as ((i & b) & Hb & Hx').
  destruct (Routes.select_route_port _ _ _); [|done]. injection Hx' as <-. cbn.
  exists (Routes.entry_owner e). eapply Ht; [done|].
  unfold Routes.btree_iter in Hb. rewrite RustOrd.sort_perm in Hb. by apply elem_of_map_to_list in Hb.
Qed.
End Table.

(** ** The invariant *)
Section Safety.
Context {I : Iroh} {P : Primitives} {B : Biscuit.BiscuitAuth} {H : Blake3} {CD : ProxyCodecs}.
Context (id_to_string : EndpointId -> string) (id_parse : string -> option EndpointId).
Context (limits : Replay.ReplayLimits) (signing_public signing_private kem_public : bytes).
Context (advertise_addresses : list string).
(** The proxy's own endpoint. *)
Context (local : string).

(** The owner granted this proxy its traffic. *)
Definition granted (owner : string) : Prop :=
  exists token owner_public at_secs, ProxyGrant.verify_proxy_grant token owner_public owner local at_secs = Ok tt.

(** The endpoint held a credential of the owner for the routing key, and the
    owner granted this proxy its traffic. *)
Definition admitted (e : EndpointId) (t : ProvenTenant) (identity : Workload.WorkloadIdentity) : Prop :=
  (exists at_secs, check_credential id_to_string t e at_secs = Ok identity) /\ granted (Admission.owner_pubkey t).

(** The owner authorised endpoint [e] to serve replica [i] of the routing key:
    with a credential for exactly that replica. *)
Definition serves (owner m : string) (i : Z) (e : EndpointId) : Prop :=
  exists r t identity owner_key,
    Registration.validate_registration r = Ok tt /\
    Registration.owner_pubkey r = owner /\ Registration.manifest_id r = m /\ Registration.replica_index r = i /\
    Admission.owner_pubkey t = owner /\ Admission.manifest_id t = m /\ admitted e t identity /\
    b64_decode owner = Ok owner_key /\
    Workload.workload_id (Workload.scope (Workload.delegation identity)) =
      workload_id_of owner_key (Registration.workload_name r) i.

Definition route_ok (owner m : string) (i : Z) (peer : string) : Prop :=
  exists e, peer = id_to_string e /\ serves owner m i e.

Definition target_ok (a : Net.SocketAddr) : Prop :=
  EgressTarget.is_unspecified (EgressTarget.ip_of a) = false /\
  EgressTarget.is_cloud_metadata (EgressTarget.ip_of a) = false.

Definition occurrence_ok (o : Occurrence) : Prop :=
  match o with
  | Sent _ _ => True
  | Forwarded m e _ => exists owner i, serves owner m i e
  | Dialled e _ targets => (exists t identity, admitted e t identity) /\ Forall target_ok targets
  | Tunnelled e _ => exists t identity, admitted e t identity
  end.

Record inv (w : World) : Prop := {
  inv_local : local_endpoint (runtime w) = local;
  inv_sessions : sessions_verified id_to_string (tenants (runtime w));
  inv_grants : ProxyGrant.store_wf local (grant_store (runtime w));
  inv_routes : table_ok route_ok (routes (runtime w));
  inv_room : Routes.table_len (routes (runtime w)) <= MAX_REGISTERED_SIDECARS;
  inv_replay : Replay.state_wf limits (replay_registry w);
  inv_connected : connections w = stable_id <$> tenants (runtime w);
  inv_connections : map_len (connections w) <= MAX_WORKLOAD_CONNECTIONS;
  inv_known e r : known_proxies w !! e = Some r -> EndpointRecord.endpoint_id r = id_as_bytes e;
  inv_permits p : held p w <= permit_limit p;
  inv_trace : Forall occurrence_ok (trace w)
}.

(** *** The fields, one at a time *)
Lemma inv_log o w : inv w -> occurrence_ok o -> inv (log o w).
Proof. intros [] Ho. split; try done. by apply Forall_cons. Qed.

Lemma inv_set_replay st w : inv w -> Replay.state_wf limits st -> inv (set_replay st w).
Proof. by intros [] ?; split. Qed.

Lemma inv_set_known e r w :
  inv w -> EndpointRecord.endpoint_id r = id_as_bytes e -> inv (set_known (<[e := r]> (known_proxies w)) w).
Proof.
  intros [] Hr. split; try done. cbn. intros e' r' [[<- <-]|[_ Hl]]%lookup_insert_Some; [done|by eauto].
Qed.

Lemma inv_set_own r w : inv w -> inv (set_own_record r w).
Proof. by intros []; split. Qed.

Lemma inv_set_permits l w :
  inv w -> (forall p, len (filter (fun x => x.2 = p) l) <= permit_limit p) -> inv (set_permits l w).
Proof. by intros [] ?; split. Qed.

Lemma inv_set_grants g w :
  inv w -> ProxyGrant.store_wf local g -> inv (set_runtime (set_grants (runtime w) g) w).
Proof. by intros [] ?; split. Qed.

Lemma inv_set_routes t w :
  inv w -> table_ok route_ok t -> Routes.table_len t <= MAX_REGISTERED_SIDECARS ->
  inv (set_runtime (set_routes (runtime w) t) w).
Proof. by intros [] ? ?; split. Qed.

Lemma inv_set_tenants s cs w :
  inv w -> sessions_verified id_to_string s -> cs = stable_id <$> s -> map_len cs <= MAX_WORKLOAD_CONNECTIONS ->
  inv (set_connections cs (set_runtime (set_tenants s (runtime w)) w)).
Proof. by intros [] ? ? ?; split. Qed.

(** ** Programs *)
Abbreviation M := (Tasks.Prog World Choice).

(** Run among other tasks that keep the invariant, [p] keeps it and its answer
    satisfies [Q]. *)
Definition holds {A} (p : M A) (Q : A -> Prop) : Prop :=
  forall i, Tasks.triple inv (fun _ _ _ => True) (fun _ _ _ => True) i (fun _ => True) p (fun a _ => Q a).

Lemma holds_ret {A} (a : A) (Q : A -> Prop) : Q a -> holds (Tasks.Ret a) Q.
Proof. intros HQ i. by apply Tasks.triple_ret. Qed.

Lemma holds_bind {A C} (p : M A) (g : A -> M C) (S : A -> Prop) (Q : C -> Prop) :
  holds p S -> (forall a, S a -> holds (g a) Q) -> holds (Tasks.prog_bind p g) Q.
Proof.
  intros Hp Hg i. eapply Tasks.triple_bind; [apply Hp|]. intros a.
  intros w HS Hw. by apply (Hg a HS i w).
Qed.

Lemma holds_step {A} (f : nat -> Choice -> World -> World * A) (Q : A -> Prop) :
  (forall i c w, inv w -> inv (f i c w).1 /\ Q (f i c w).2) -> holds (Tasks.step f) Q.
Proof.
  intros Hf i. apply Tasks.triple_step; [done|]. intros c w _ Hw. destruct (Hf i c w Hw). done.
Qed.

Lemma holds_mono {A} (p : M A) (Q Q' : A -> Prop) : holds p Q -> (forall a, Q a -> Q' a) -> holds p Q'.
Proof. intros Hp HQ i. eapply Tasks.triple_conseq; [apply Hp|done|by intros a w; apply HQ]. Qed.

(** What a successful answer satisfies. *)
Definition on_ok {A} (S : A -> Prop) (r : Result A) : Prop := match r with Ok a => S a | Err _ => True end.

Create HintDb proxy.

(** Follows a program: cases and the lemma of each part. *)
Ltac follow :=
  repeat match goal with
  | |- forall _, _ => intro
  | |- holds (mbind _ _) _ => unfold mbind, prog_bind_inst
  | |- holds (Tasks.prog_bind _ _) _ => eapply holds_bind; [solve [eauto 2 with proxy nocore]|]
  | |- holds (Tasks.Ret _) _ => apply holds_ret; try exact Logic.I
  | |- holds (match ?r with _ => _ end) _ => destruct r eqn:?
  | |- holds _ (fun _ => True) => solve [eauto 2 with proxy nocore]
  | H0 : on_ok _ (Ok _) |- _ => cbn [on_ok] in H0
  end.

Lemma holds_look {A} (g : Choice -> World -> A) : holds (Tasks.step (fun _ c w => (w, g c w))) (fun _ => True).
Proof. by apply holds_step. Qed.
#[local] Hint Resolve holds_look : proxy.

Lemma now_secs_holds : holds now_secs (fun _ => True).
Proof. apply holds_look. Qed.
#[local] Hint Resolve now_secs_holds : proxy.

(** *** Permits *)
Lemma take_permit_inv i p w : inv w -> inv (take_permit i p w).1.
Proof.
  intros Hw. unfold take_permit. destruct (held p w <? permit_limit p) eqn:Hp; [|done].
  apply inv_set_permits; [done|]. intros q. rewrite filter_cons. cbn [snd].
  pose proof (inv_permits _ Hw q) as Hq. unfold held in *. case_decide as Hpq; [|done].
  subst q. rewrite len_cons. lia.
Qed.

Lemma try_acquire_holds p : holds (try_acquire p) (fun _ => True).
Proof. apply holds_step. intros. split; [by apply take_permit_inv|done]. Qed.

Lemma acquire_holds p : holds (acquire p) (fun _ => True).
Proof. apply holds_step. intros. split; [|done]. destruct (permitted c); [by apply take_permit_inv|done]. Qed.

Lemma remove_first_sublist x l : remove_first x l `sublist_of` l.
Proof. induction l as [|y l IH]; [done|]. cbn. case_bool_decide; by constructor. Qed.

Lemma inv_fewer_permits l w : inv w -> l `sublist_of` permits w -> inv (set_permits l w).
Proof.
  intros Hw Hl. apply inv_set_permits; [done|]. intros p. etrans; [|apply (inv_permits _ Hw)].
  unfold held, len. by apply Nat2Z.inj_le, sublist_length, filter_sublist_mono.
Qed.

Lemma drop_permit_holds p : holds (drop_permit p) (fun _ => True).
Proof. apply holds_step. intros. split; [|done]. apply inv_fewer_permits; [done|apply remove_first_sublist]. Qed.

Lemma release_inv i w : inv w -> inv (release i w).
Proof. intros Hw. apply inv_fewer_permits; [done|]. apply sublist_filter. Qed.

Lemma drop_permits_holds : holds drop_permits (fun _ => True).
Proof. apply holds_step. intros. split; [by apply release_inv|done]. Qed.
#[local] Hint Resolve try_acquire_holds acquire_holds drop_permit_holds drop_permits_holds : proxy.

(** *** Grants *)
Lemma post_proxy_grant_holds owner grant : holds (post_proxy_grant owner grant) (fun _ => True).
Proof.
  unfold post_proxy_grant. destruct (ProxyGrant.proxy_grant_from_b64 grant) as [token|]; [|by apply holds_ret].
  apply holds_step. intros _ c w Hw. rewrite (inv_local _ Hw).
  pose proof (ProxyGrant.store_step_wf local _ (ProxyGrant.Accept owner token (clock_secs c)) (inv_grants _ Hw)) as Hg.
  cbn in Hg. destruct (ProxyGrant.accept _ _ _ _ _) as [g r]. split; [|done]. by apply inv_set_grants.
Qed.

Lemma live_grant_holds owner now : holds (live_grant owner now) (fun g => is_Some g -> granted owner).
Proof.
  unfold live_grant. unfold mbind, prog_bind_inst. eapply holds_bind; [apply holds_look|]. intros stored _.
  eapply (holds_bind _ _ (fun l => l = local)).
  { apply holds_step. intros _ c w Hw. by split; [|apply inv_local]. }
  intros l ->. destruct stored as [s|]; [|apply holds_ret; by intros []].
  destruct (ProxyGrant.verify_proxy_grant _ _ _ _ _) as [[]|] eqn:Hv; cbn [is_ok].
  - apply holds_ret. intros _. by do 3 eexists.
  - apply holds_step. intros _ c w Hw. split; [|by intros []]. apply inv_set_grants; [done|].
    destruct (inv_grants _ Hw) as [Hlen Hin]. unfold ProxyGrant.drop_grant. split.
    + pose proof (map_len_delete_le (grant_store (runtime w)) owner). lia.
    + intros k s' [_ Hl]%lookup_delete_Some. eauto.
Qed.

Lemma holds_live_grant_holds owner now : holds (holds_live_grant owner now) (fun b => b = true -> granted owner).
Proof.
  eapply holds_bind; [apply live_grant_holds|]. intros g Hg. apply holds_ret. intros Hb. by apply Hg, (bool_decide_eq_true _).
Qed.
#[local] Hint Resolve live_grant_holds holds_live_grant_holds : proxy.

(** *** Sessions *)
Lemma live_tenant_holds e sid :
  holds (live_tenant id_to_string e sid)
    (on_ok (fun t => exists at_secs identity, check_credential id_to_string t e at_secs = Ok identity)).
Proof.
  apply holds_step. intros _ c w Hw. split; [done|]. cbn [snd].
  destruct (Admission.proven_live _ _ _ _ _) as [t|] eqn:Hl; [|done]. cbn.
  apply Admission.proven_live_inv in Hl as (_ & identity & Hc). eauto.
Qed.

Lemma prove_bound_inv e sid t now w :
  inv w -> inv (set_runtime (set_tenants (Admission.prove_bound id_to_string (tenants (runtime w)) e sid t now).1 (runtime w)) w).
Proof.
  intros Hw.
  assert (forall s, sessions_verified id_to_string s -> stable_id <$> s = connections w ->
            inv (set_runtime (set_tenants s (runtime w)) w)) as Hset.
  { intros s Hs Hc. apply (inv_set_tenants s (connections w) w Hw Hs); [done|apply (inv_connections _ Hw)]. }
  apply Hset; [apply (Admission.step_sessions_verified _ _ (Admission.ProveBound e sid t now)), (inv_sessions _ Hw)|].
  rewrite (inv_connected _ Hw).
  destruct (Admission.prove_bound_effect id_to_string (tenants (runtime w)) e sid t now)
    as [->|(session & identity & Hs & <- & _ & _ & ->)]; [done|].
  rewrite fmap_insert. cbn. apply insert_id. by rewrite lookup_fmap, Hs.
Qed.

Lemma prove_tenant_holds e sid h key : holds (prove_tenant id_to_string e sid h key) (fun _ => True).
Proof.
  unfold prove_tenant. follow. apply holds_step. intros _ c w Hw.
  match goal with |- context [Admission.prove_bound ?f ?s ?e ?sid ?t ?now] =>
    pose proof (prove_bound_inv e sid t now w Hw); destruct (Admission.prove_bound f s e sid t now) end. done.
Qed.

Lemma open_connection_holds e sid : holds (open_connection e sid) (fun _ => True).
Proof.
  apply holds_step. intros _ _ w Hw. split; [|done].
  destruct (contains_key e (connections w)) eqn:Hc; cbn [orb negb]; [done|].
  destruct (map_len (connections w) <? MAX_WORKLOAD_CONNECTIONS) eqn:Hroom; [|done].
  apply contains_key_false in Hc. pose proof (inv_connected _ Hw) as Hcon.
  assert (tenants (runtime w) !! e = None) as Ht.
  { rewrite Hcon, lookup_fmap in Hc. by destruct (tenants (runtime w) !! e). }
  pose proof (Admission.step_sessions_verified _ _ (Admission.Begin e sid) (inv_sessions _ Hw)) as Hs.
  cbn in Hs. revert Hs. unfold Admission.begin.
  rewrite (proj2 (contains_key_false _ _) Ht). cbn [negb fst]. intros Hs.
  apply (inv_set_tenants _ _ w Hw Hs); [by rewrite fmap_insert, <- Hcon|].
  rewrite map_len_insert_new by done. cbn. lia.
Qed.

Lemma close_connection_holds e sid : holds (close_connection e sid) (fun _ => True).
Proof.
  apply holds_step. intros _ _ w Hw. split; [|done]. case_bool_decide as Hc; [|done]. cbn [fst].
  pose proof (Admission.step_sessions_verified _ _ (Admission.RemoveIfCurrent e sid) (inv_sessions _ Hw)) as Hs.
  cbn [Admission.step] in Hs.
  apply (inv_set_tenants _ _ w Hw Hs).
  - rewrite (inv_connected _ Hw), lookup_fmap in Hc. unfold Admission.remove_if_current.
    destruct (tenants (runtime w) !! e) as [s|] eqn:Ht; [|done]. injection Hc as <-.
    rewrite Z.eqb_refl, fmap_delete. by rewrite (inv_connected _ Hw).
  - pose proof (map_len_delete_le (connections w) e). pose proof (inv_connections _ Hw). lia.
Qed.
#[local] Hint Resolve live_tenant_holds prove_tenant_holds open_connection_holds : proxy.

Lemma authorize_egress_holds e sid :
  holds (authorize_egress id_to_string e sid) (on_ok (fun _ => exists t identity, admitted e t identity)).
Proof.
  unfold authorize_egress. follow. cbn. destruct H0 as (at_secs & identity & Hc).
  exists a0, identity. split; [by eexists|]. auto.
Qed.
#[local] Hint Resolve authorize_egress_holds : proxy.

(** *** Messages *)
Context (Hlimits : Replay.limits_valid limits).

Lemma accept_payload_holds {T} `{Postcard T} `{WorkloadPayload T} e payload :
  holds (accept_payload id_to_string limits (T := T) e payload) (fun _ => True).
Proof.
  apply holds_step. intros _ c w Hw.
  pose proof (accept_registry (T := T) payload (local_endpoint (runtime w)) (id_to_string e) (clock_millis c) limits
    (replay_registry w) (instant c)) as Hr.
  destruct (accept_workload_payload _ _ _ _ _ _ _) as [st r]. split; [|done]. apply inv_set_replay; [done|].
  cbn [fst] in Hr. destruct Hr as [->|(n & ->)]; [apply (inv_replay _ Hw)|].
  apply Replay.check_and_insert_wf; [done|apply (inv_replay _ Hw)].
Qed.
#[local] Hint Resolve accept_payload_holds : proxy.

Lemma accept_typed_request_holds {T} `{Postcard T} `{WorkloadPayload T} e sid payload :
  holds (accept_typed_request id_to_string limits (T := T) e sid payload) (fun _ => True).
Proof. unfold accept_typed_request. follow. Qed.

Lemma seal_typed_holds {T} `{Postcard T} `{WorkloadPayload T} e (payload : T) :
  holds (seal_typed id_to_string signing_public signing_private kem_public e payload) (fun _ => True).
Proof. apply holds_look. Qed.

Lemma write_as_holds o send kind payload :
  (forall b, occurrence_ok (o b)) -> holds (write_as o send kind payload) (fun _ => True).
Proof.
  intros Ho. apply holds_step. intros _ c w Hw. destruct (write_workload_frame _ _ _). split; [by apply inv_log|done].
Qed.

Lemma write_frame_holds e send kind payload : holds (write_frame e send kind payload) (fun _ => True).
Proof. by apply write_as_holds. Qed.
#[local] Hint Resolve accept_typed_request_holds seal_typed_holds write_frame_holds : proxy.

Lemma write_response_holds e send kind payload : holds (write_response e send kind payload) (fun _ => True).
Proof. unfold write_response. follow. Qed.
#[local] Hint Resolve write_response_holds : proxy.

Lemma write_typed_response_holds {T} `{Postcard T} `{WorkloadPayload T} e send (payload : T) :
  holds (write_typed_response id_to_string signing_public signing_private kem_public e send payload) (fun _ => True).
Proof. unfold write_typed_response. follow. Qed.
#[local] Hint Resolve write_typed_response_holds : proxy.

(** *** Registrations *)
Lemma register_inv r w e t identity owner_key :
  inv w -> Registration.validate_registration r = Ok tt -> Registration.sidecar_peer_id r = id_to_string e ->
  Admission.owner_pubkey t = Registration.owner_pubkey r -> Admission.manifest_id t = Registration.manifest_id r ->
  admitted e t identity -> b64_decode (Registration.owner_pubkey r) = Ok owner_key ->
  Workload.workload_id (Workload.scope (Workload.delegation identity)) =
    workload_id_of owner_key (Registration.workload_name r) (Registration.replica_index r) ->
  forall now, inv (set_runtime (set_routes (runtime w)
    (Routes.register_inner (routes (runtime w)) r now MAX_REGISTERED_SIDECARS).1) w).
Proof.
  intros Hw Hr Hpeer Ho Hm Ha Hk Hid now. apply inv_set_routes; [done| |].
  - apply register_table_ok; [apply (inv_routes _ Hw)|]. exists e. split; [done|]. exists r, t, identity, owner_key. done.
  - apply register_room, (inv_room _ Hw).
Qed.

Lemma install_registration_holds r e sid : holds (install_registration id_to_string r e sid) (fun _ => True).
Proof.
  unfold install_registration. follow. bool_props. destruct H0 as (at_secs & identity & Hc).
  assert (identity = a2) as -> by (apply Admission.check_credential_inv in Hc as (Hi & _); congruence).
  destruct a. assert (admitted e a1 a2) as Ha by (split; [by eexists|]; rewrite Heqb0; by apply H2).
  apply holds_step. intros _ c w Hw.
  pose proof (register_inv r w e a1 a2 a3 Hw Heqr0 Heqb Heqb0 Heqb1 Ha Heqr3 Heqb2 (clock_millis c)).
  by destruct (Routes.register_inner _ _ _ _).
Qed.
#[local] Hint Resolve install_registration_holds : proxy.

(** *** Streams *)
Lemma handle_handshake_holds e sid send payload :
  holds (handle_handshake id_to_string limits signing_public signing_private kem_public e sid send payload) (fun _ => True).
Proof. unfold handle_handshake. follow. Qed.

Lemma handle_registration_holds e sid send payload :
  holds (handle_registration id_to_string limits signing_public signing_private kem_public e sid send payload) (fun _ => True).
Proof. unfold handle_registration. follow. Qed.

Lemma may_discover_holds e sid : holds (may_discover id_to_string e sid) (fun _ => True).
Proof. unfold may_discover. follow. by eapply holds_mono; [apply holds_live_grant_holds|]. Qed.
#[local] Hint Resolve may_discover_holds : proxy.

Lemma handle_discovery_holds e sid send payload :
  holds (handle_discovery id_to_string limits signing_public signing_private kem_public e sid send payload) (fun _ => True).
Proof.
  unfold handle_discovery. follow. eapply (holds_bind _ _ (fun _ => True)); follow.
Qed.

Lemma learn_holds e r {A} (a : A) :
  EndpointRecord.endpoint_id r = id_as_bytes e ->
  holds (Tasks.step (fun _ _ w => (set_known (<[e := r]> (known_proxies w)) w, a))) (fun _ => True).
Proof. intros Hr. apply holds_step. intros _ _ w Hw. split; [by apply inv_set_known|done]. Qed.

Lemma handle_announcement_holds e sid send payload :
  holds (handle_announcement id_to_string limits signing_public signing_private kem_public e sid send payload) (fun _ => True).
Proof.
  unfold handle_announcement. cbv zeta. eapply holds_bind; [apply accept_typed_request_holds|].
  intros [accepted|] _; [|by apply holds_ret]. case_bool_decide as Hid; [|by apply holds_ret].
  destruct (b64_decode _); [|by apply holds_ret]. case_bool_decide; [|by apply holds_ret].
  eapply holds_bind; [by apply learn_holds|]. follow.
Qed.

Lemma refuse_egress_holds e send reason error :
  holds (refuse_egress id_to_string signing_public signing_private kem_public e send reason error) (fun _ => True).
Proof. unfold refuse_egress. follow. Qed.

Lemma relay_loop_holds l e sid n r :
  (exists t identity, admitted e t identity) ->
  holds (relay_loop l e (authorize_egress id_to_string e sid) n r) (fun _ => True).
Proof.
  intros Ha. revert r. induction n as [|n IH]; intros r; cbn [relay_loop]; destruct (RawRelay.stage r); follow.
  all: eapply (holds_bind _ _ (fun _ => True)); [follow|]; intros event _.
  all: eapply (holds_bind _ _ (fun _ => True)); [|intros r' _; apply IH].
  all: apply holds_step; intros _ _ w Hw; split; [by apply inv_log|done].
Qed.

Lemma raw_relay_holds l e sid : holds (raw_relay l e (authorize_egress id_to_string e sid)) (fun _ => True).
Proof. unfold raw_relay. follow. by apply relay_loop_holds. Qed.
#[local] Hint Resolve refuse_egress_holds raw_relay_holds : proxy.

Lemma dial_holds e sid targets :
  (exists t identity, admitted e t identity) -> Forall target_ok targets ->
  holds (Tasks.step (fun _ c w => (log (Dialled e sid targets) w, connected c))) (fun _ => True).
Proof. intros Ha Ht. apply holds_step. intros _ c w Hw. split; [by apply inv_log|done]. Qed.

Lemma handle_egress_holds e sid send payload :
  holds (handle_egress id_to_string limits signing_public signing_private kem_public e sid send payload) (fun _ => True).
Proof.
  unfold handle_egress, handle_egress_inner. follow.
  eapply holds_bind; [apply dial_holds; [done|]|follow].
  apply Forall_forall. intros x Hx. by eapply EgressTarget.resolve_target_ok.
Qed.
#[local] Hint Resolve handle_handshake_holds handle_registration_holds handle_discovery_holds
  handle_announcement_holds handle_egress_holds : proxy.

Lemma handle_stream_holds e sid send recv :
  holds (handle_stream id_to_string limits signing_public signing_private kem_public e sid send recv) (fun _ => True).
Proof.
  unfold handle_stream. follow. eapply (holds_bind _ _ (fun _ => True)); [|follow].
  unfold admitted_stream, handle_kind. follow.
Qed.

(** *** Announcements *)
Lemma announce_proxy_inner_holds e :
  holds (announce_proxy_inner id_to_string limits signing_public signing_private kem_public e) (fun _ => True).
Proof. unfold announce_proxy_inner. cbv zeta. follow. bool_props. by apply learn_holds. Qed.
#[local] Hint Resolve announce_proxy_inner_holds : proxy.

Lemma connect_configured_proxy_holds r sid :
  holds (connect_configured_proxy id_to_string limits signing_public signing_private kem_public r sid) (fun _ => True).
Proof. unfold connect_configured_proxy. follow. Qed.

Lemma announce_all_holds proxies :
  holds (announce_all id_to_string limits signing_public signing_private kem_public proxies) (fun _ => True).
Proof.
  induction proxies as [|e proxies IH]; cbn [announce_all]; follow.
  eapply (holds_bind _ _ (fun _ => True)); [follow|done].
Qed.
#[local] Hint Resolve announce_all_holds : proxy.

Lemma refresh_endpoint_record_holds :
  holds (refresh_endpoint_record id_to_string limits signing_public signing_private kem_public advertise_addresses)
    (fun _ => True).
Proof.
  unfold refresh_endpoint_record. follow. eapply (holds_bind _ _ (fun _ => True)); [|follow].
  apply holds_step. intros _ _ w Hw. split; [by apply inv_set_own|done].
Qed.

Lemma prune_routes_holds : holds prune_routes (fun _ => True).
Proof.
  apply holds_step. intros _ c w Hw. split; [|done]. apply inv_set_routes; [done| |].
  - apply prune_table_ok, (inv_routes _ Hw).
  - etrans; [apply prune_room|apply (inv_room _ Hw)].
Qed.

(** *** Forwarding *)
(** What [EndpointId] prints, it parses. *)
Context (Hparse : forall e, id_parse (id_to_string e) = Some e).

Lemma open_ingress_holds request owner i target :
  route_ok owner (manifest_id request) i (Routes.target_peer target) ->
  holds (open_ingress id_to_string id_parse signing_public signing_private kem_public request target) (fun _ => True).
Proof.
  intros (e & Hpeer & Hs). unfold open_ingress, parse_endpoint_id. rewrite Hpeer, Hparse. cbn [ok_or]. follow.
  eapply (holds_bind _ _ (fun _ => True)); [|follow]. follow.
  eapply holds_bind; [|follow]. apply write_as_holds. intros b. by exists owner, i.
Qed.

Lemma try_targets_holds request targets last_error :
  (forall x, x ∈ targets -> exists o, route_ok o (manifest_id request) (Routes.target_replica x) (Routes.target_peer x)) ->
  holds (try_targets id_to_string id_parse signing_public signing_private kem_public request targets last_error)
    (on_ok (fun r => let '(request', e, _, _, _) := r in exists o i, serves o (manifest_id request') i e)).
Proof.
  revert last_error. induction targets as [|x targets IH]; intros last_error Ht; cbn [try_targets]; [by apply holds_ret|].
  destruct (Ht x) as [o Ho]; [left|]. eapply holds_bind; [by eapply open_ingress_holds|].
  intros [[[send recv] sid]|error] _; [|apply IH; intros y Hy; apply Ht; by right].
  destruct Ho as (e & Hpeer & Hs). unfold parse_endpoint_id. rewrite Hpeer, Hparse. cbn [ok_or].
  apply holds_ret. by exists o, (Routes.target_replica x).
Qed.

Lemma send_request_body_holds m e send body :
  (exists o i, serves o m i e) -> holds (send_request_body m e send body) (fun _ => True).
Proof.
  intros Hs. apply holds_step. intros _ _ w Hw. destruct (Body.send_body _ _). split; [by apply inv_log|done].
Qed.

Lemma select_holds m path h :
  holds (Tasks.step (fun _ _ w =>
    let (t, targets) := Routes.select (routes (runtime w)) m path h in
    (set_runtime (set_routes (runtime w) t) w, targets)))
    (fun targets => forall x, x ∈ targets ->
       exists o, route_ok o m (Routes.target_replica x) (Routes.target_peer x)).
Proof.
  apply holds_step. intros _ _ w Hw. pose proof (inv_routes _ Hw) as Hr.
  pose proof (fun x => select_targets route_ok _ m path h x Hr) as Ht. pose proof (select_table_ok route_ok _ m path h Hr) as Hs.
  pose proof (select_room (routes (runtime w)) m path h) as Hroom. pose proof (inv_room _ Hw).
  destruct (Routes.select _ _ _ _) as [t targets]. cbn [fst snd] in *. split; [|done].
  apply inv_set_routes; [done..|lia].
Qed.

Lemma forward_inner_holds request body on_upgrade :
  holds (forward_inner id_to_string id_parse limits signing_public signing_private kem_public request body on_upgrade)
    (fun _ => True).
Proof.
  unfold forward_inner. follow. eapply (holds_bind _ _ (fun _ => True)); [|follow].
  unfold forward_admitted. cbv zeta. eapply holds_bind; [apply select_holds|]. intros targets Ht.
  case_bool_decide; [by apply holds_ret|]. cbn [negb]. eapply holds_bind; [by apply try_targets_holds|].
  intros [[[[[request' e] sid] send] recv]|] Hs; [|by apply holds_ret]. cbn [on_ok] in Hs.
  eapply holds_bind; [by apply send_request_body_holds|]. follow.
  eapply (holds_bind _ _ (fun _ => True)); follow.
Qed.

(** ** Runs *)
Definition task {A} (p : M A) : M unit := Tasks.prog_bind p (fun _ => Tasks.Ret tt).

(** The tasks of the proxy: streams and connections of its peers, grants that
    are posted, external requests, and its own maintenance. *)
Inductive proxy_task : M unit -> Prop :=
| stream_task e sid send recv :
    proxy_task (task (handle_stream id_to_string limits signing_public signing_private kem_public e sid send recv))
| open_task e sid : proxy_task (task (open_connection e sid))
| close_task e sid : proxy_task (close_connection e sid)
| grant_task owner grant : proxy_task (task (post_proxy_grant owner grant))
| forward_task request body on_upgrade :
    proxy_task (task (forward_inner id_to_string id_parse limits signing_public signing_private kem_public
                        request body on_upgrade))
| websocket_task e sid : proxy_task (task (websocket_relay id_to_string e sid))
| configured_task r sid :
    proxy_task (task (connect_configured_proxy id_to_string limits signing_public signing_private kem_public r sid))
| refresh_task :
    proxy_task (task (refresh_endpoint_record id_to_string limits signing_public signing_private kem_public
                        advertise_addresses))
| prune_task : proxy_task prune_routes.

Lemma task_holds {A} (p : M A) Q : holds p Q -> holds (task p) (fun _ => True).
Proof. intros Hp. eapply holds_bind; [exact Hp|]. intros a _. by apply holds_ret. Qed.

Lemma proxy_task_holds p : proxy_task p -> holds p (fun _ => True).
Proof.
  destruct 1; try eapply task_holds; [apply handle_stream_holds|apply open_connection_holds|apply close_connection_holds
    |apply post_proxy_grant_holds|apply forward_inner_holds|apply raw_relay_holds|apply connect_configured_proxy_holds
    |apply refresh_endpoint_record_holds|apply prune_routes_holds].
Qed.

Definition proxy_event (e : Tasks.Event (World := World) (Choice := Choice)) : Prop :=
  match e with Tasks.Spawn _ p => proxy_task p | _ => True end.

(** The proxy when it starts: it knows the proxies it was configured with. *)
Record started (w : World) : Prop := {
  started_runtime : runtime w =
    {| Admission.tenants := ∅; Admission.grant_store := ∅; Admission.routes := Routes.new_table;
       Admission.local_endpoint := local |};
  started_replay : replay_registry w = Replay.empty_state;
  started_connections : connections w = ∅;
  started_known e r : known_proxies w !! e = Some r -> EndpointRecord.endpoint_id r = id_as_bytes e;
  started_permits : permits w = [];
  started_trace : trace w = []
}.

Lemma proxy_started_inv w : started w -> inv w.
Proof.
  intros [Hr Hp Hc Hk Hperm Ht]. split; rewrite ?Hr, ?Hp, ?Hc, ?Ht; cbn.
  - done.
  - intros e session t. by rewrite lookup_empty.
  - split; [by rewrite map_len_empty|]. intros k s. by rewrite lookup_empty.
  - intros m e i b. cbn. by rewrite lookup_empty.
  - unfold Routes.table_len. cbn. by rewrite map_len_empty.
  - by apply Replay.empty_state_wf.
  - by rewrite fmap_empty.
  - by rewrite map_len_empty.
  - exact Hk.
  - intros p. unfold held. rewrite Hperm. by destruct p.
  - constructor.
Qed.

Definition run (w : World) (events : list (Tasks.Event (World := World) (Choice := Choice)))
    : World * Tasks.Pool (World := World) (Choice := Choice) :=
  Tasks.pool_run release (w, fun _ => None) events.

Lemma run_inv w events : started w -> Forall proxy_event events -> inv (run w events).1.
Proof.
  intros Hw Hev. apply (Tasks.pool_run_safe release inv (fun _ _ _ => True) (fun _ _ _ => True)).
  - split; try done. intros i v Hv. split; [by apply release_inv|done].
  - split; [by apply proxy_started_inv|done].
  - eapply Forall_impl; [exact Hev|]. intros [] He; cbn; try done. intros w'.
    eapply Tasks.triple_spawn; [done|]. by apply proxy_task_holds.
Qed.


(** C28. What the proxy holds for its peers.  Whatever they send, there are at
    most the maxima of connections, routing keys, grants, replay peers and
    nonces, and at most as many permits are out as there are streams allowed: per
    connection, over all connections, and for external requests.  Exactly the
    open connections have a session, and each known proxy is filed under the
    endpoint its record names; the number of known proxies has no bound. *)
Theorem proxy_bounded (w : World) events :
  started w -> Forall proxy_event events ->
  let w' := (run w events).1 in
  map_len (connections w') <= MAX_WORKLOAD_CONNECTIONS /\
  Routes.table_len (routes (runtime w')) <= MAX_REGISTERED_SIDECARS /\
  map_len (grant_store (runtime w')) <= ProxyGrant.MAX_TENANT_GRANTS /\
  Replay.state_wf limits (replay_registry w') /\
  (forall p, held p w' <= permit_limit p) /\
  connections w' = stable_id <$> tenants (runtime w') /\
  (forall e r, known_proxies w' !! e = Some r -> EndpointRecord.endpoint_id r = id_as_bytes e).
Proof.
  intros Hw Hev. destruct (run_inv w events Hw Hev) as [_ _ [Hg _] _ Hroom Hr Hc Hn Hk Hp _].
  split_and!; done.
Qed.
End Safety.

(** ** One task by itself *)
Section Alone.
Context {I : Iroh} {P : Primitives} {B : Biscuit.BiscuitAuth} {H : Blake3} {CD : ProxyCodecs}.
Context (id_to_string : EndpointId -> string).

Lemma set_runtime_id w : set_runtime (runtime w) w = w.
Proof. by destruct w. Qed.

(** Undisturbed, the registration of a sidecar is the atomic operation of
    Admission.v: its lock sections, run in turn, leave the state and give the
    answer of that one function, with the clock as each section reads it. *)
Theorem install_registration_alone i r transport sid (c1 c2 c3 c4 c5 : Choice) (w : World) :
  let res := Admission.install_registration id_to_string (runtime w) r transport sid
    (clock_secs c1) (clock_secs c2) (clock_millis c5) in
  Tasks.run_alone i (install_registration id_to_string r transport sid) [c1; c2; c3; c4; c5] w =
  Some (set_runtime res.1 w, res.2).
Proof.
  cbv zeta. unfold install_registration, Admission.install_registration, Admission.live_tenant.
  destruct (Registration.validate_registration r) as [[]|]; [|cbn; by rewrite set_runtime_id].
  case_bool_decide; [|cbn; by rewrite set_runtime_id]. cbn [Tasks.prog_bind live_tenant Tasks.step Tasks.run_alone].
  destruct (Admission.proven_live _ _ _ _ _) as [t|]; [|cbn; by rewrite set_runtime_id].
  case_bool_decide; [|cbn; by rewrite set_runtime_id]. case_bool_decide; [|cbn; by rewrite set_runtime_id].
  destruct (Workload.identity_from_bytes _) as [identity|]; [|cbn; by rewrite set_runtime_id].
  destruct (b64_decode _) as [owner|]; [|cbn; by rewrite set_runtime_id].
  case_bool_decide; [|cbn; by rewrite set_runtime_id].
  unfold ProxyGrant.holds_live_grant, ProxyGrant.live_grant, ProxyGrant.live_grant_during, ProxyGrant.read_grant.
  cbn -[Routes.register_inner ProxyGrant.verify_proxy_grant].
  destruct (grant_store (runtime w) !! _) as [g|]; cbn -[Routes.register_inner ProxyGrant.verify_proxy_grant].
  2:{ by destruct w as [[]]. }
  destruct (ProxyGrant.verify_proxy_grant _ _ _ _ _) as [[]|]; cbn -[Routes.register_inner].
  - destruct (Routes.register_inner _ _ _ _) as [t' res] eqn:Hr. by destruct w as [[]].
  - done.
Qed.

(** *** Discovery *)
Lemma elem_of_values_in {A} (order : list EndpointId) (m : gmap EndpointId A) e a :
  m !! e = Some a -> a ∈ values_in order m.
Proof.
  intros Ha. unfold values_in. cbv zeta. rewrite elem_of_app.
  destruct (decide (e ∈ remove_dups (filter (fun e => is_Some (m !! e)) order))) as [He|He].
  - left. apply list_elem_of_omap. by exists e.
  - right. apply list_elem_of_fmap. exists (e, a). split; [done|]. apply elem_of_map_to_list, map_lookup_filter_Some. done.
Qed.

Lemma length_omap_le {A C} (f : A -> option C) l : (length (omap f l) <= length l)%nat.
Proof. induction l as [|x l IH]; [done|]. cbn. destruct (f x); cbn; lia. Qed.

Lemma values_in_length {A} (order : list EndpointId) (m : gmap EndpointId A) :
  len (values_in order m) <= map_len m.
Proof.
  unfold values_in, len, map_len. cbv zeta. set (first := remove_dups _).
  assert (NoDup first) as Hnd by apply NoDup_remove_dups.
  assert (list_to_set first ⊆ dom m) as Hsub.
  { intros e He. apply elem_of_list_to_set, elem_of_remove_dups, list_elem_of_filter in He as [He _]. by apply elem_of_dom. }
  rewrite length_app, length_fmap, length_map_to_list.
  pose proof (length_omap_le (fun e => m !! e) first).
  assert (size (filter (fun ea => ea.1 ∉ first) m) + length first = size m)%nat; [|lia].
  rewrite <- !size_dom, <- (size_list_to_set (C := gset EndpointId) first) by done.
  replace (dom (filter (fun ea => ea.1 ∉ first) m)) with (dom m ∖ list_to_set first).
  - rewrite size_difference by done. pose proof (subseteq_size _ _ Hsub). lia.
  - apply leibniz_equiv. intros e. rewrite elem_of_difference, elem_of_list_to_set, !elem_of_dom.
    unfold is_Some. setoid_rewrite map_lookup_filter_Some. cbn. naive_solver.
Qed.

Lemma verify_all_err records now r :
  r ∈ records -> is_ok (EndpointRecord.verify r now) = false -> is_ok (verify_all records now) = false.
Proof.
  intros Hin Hr. induction records as [|r' records IH]; [by apply not_elem_of_nil in Hin|]. cbn [verify_all].
  destruct (EndpointRecord.verify r' now) as [[]|] eqn:Hv; [|done]. rewrite Signed.bind_eq.
  apply elem_of_cons in Hin as [->|Hin]; [by rewrite Hv in Hr|by apply IH].
Qed.

Lemma seal_err {T} `{Postcard T} `{WorkloadPayload T} parts (payload : T) :
  is_ok (payload_validate payload (Control.now_millis parts / 1000)) = false ->
  is_ok (seal_workload_payload parts payload) = false.
Proof.
  intros Hp. destruct (seal_workload_payload parts payload) as [b|] eqn:Hs; [|done].
  unfold seal_workload_payload in Hs. Signed.result_steps Hs. by rewrite Hx3 in Hp.
Qed.

(** One stale record silences discovery.  The records of known proxies are
    never dropped, and the answer is checked record by record before it is
    sealed: when the map holds a record that no longer verifies, of an endpoint
    other than the one that asks, and the answer has room for the whole map, the
    request fails and nothing is sent. *)
Theorem stale_record_blocks_discovery signing_public signing_private kem_public i c w order limit remote send e r
    (Hknown : known_proxies w !! e = Some r) (Hother : EndpointRecord.endpoint_id r <> id_as_bytes remote)
    (Hroom : map_len (known_proxies w) <= limit)
    (Hstale : is_ok (EndpointRecord.verify r (clock_millis c / 1000)) = false) :
  exists error,
    Tasks.run_alone i (write_typed_response id_to_string signing_public signing_private kem_public remote send
      {| endpoints := known_endpoints order limit remote (known_proxies w) |}) [c] w = Some (w, Err error).
Proof.
  assert (r ∈ known_endpoints order limit remote (known_proxies w)) as Hin.
  { unfold known_endpoints. rewrite take_ge.
    - apply elem_of_list_retain. split; [by eapply elem_of_values_in|]. by rewrite bool_decide_false.
    - etrans; [apply length_filter|]. pose proof (values_in_length order (known_proxies w)). unfold len in *. lia. }
  cbn -[seal_workload_payload known_endpoints].
  match goal with |- context [seal_workload_payload ?parts ?payload] =>
    assert (is_ok (seal_workload_payload parts payload) = false) as Hs; [|destruct (seal_workload_payload parts payload)] end.
  - apply seal_err. cbn -[known_endpoints]. unfold validate_endpoint_records. case_match; [done|]. by eapply verify_all_err.
  - done.
  - by eexists.
Qed.
End Alone.
End ProxySafety.
