(* ===== verification/ProxySample.v ===== *)
(** * A proxy at work

    A run of the proxy with concrete instances of what it depends on: an owner
    posts a grant, a sidecar connects, proves its tenant, registers its routes
    and opens a tunnel, and an external request is forwarded to it.  The
    theorems of ProxySafety.v apply to this run. *)

From S2P Require Import Prelude Net Crypto Signed ReplayRegistry EndpointRecord MeshProtocol Identity Registration.
From S2P Require Import WorkloadStream WorkloadControl Routes Biscuit WorkloadIdentity ProxyGrant Admission.
From S2P Require Import AgentIds ServiceDiscovery WorkloadPayloads Tasks RawRelay ProxyRuntime ProxySafety.
From Stdlib Require Import Ascii.

Module ProxySample.
Import Crypto Io Stream Body Envelope Control Payloads Proxy ProxySafety.
Import Crypto.Toy.
Import Net (of_chars).
#[local] Existing Instances prims laws Biscuit.Toy.biscuit ToyIroh.iroh.
#[local] Existing Instances Payloads.Sample.request_eq_dec Payloads.Sample.envelope_eq_dec Registration.SidecarRoute_eq_dec
  Workload.delegation_eq_dec Workload.identity_eq_dec.

#[local] Instance blake3 : Blake3 := {| blake3_hex := fun _ => Payloads.Sample.zeros |}.

(** ** Names *)
Definition digit (n : Z) : ascii := ascii_of_nat (Z.to_nat (if n <? 10 then 48 + n else 87 + n)).
Definition value (a : ascii) : Z := let c := Z.of_nat (nat_of_ascii a) in if c <? 58 then c - 48 else c - 87.

Definition id_to_string (e : EndpointId) : string :=
  let n := byte_to_Z (e : byte) in of_chars (concat (replicate 32 [digit (n / 16); digit (n mod 16)])).
Definition id_parse (s : string) : option EndpointId :=
  match s with String.String a (String.String b _) => Some (byte_of_Z (16 * value a + value b) : EndpointId) | _ => None end.

Lemma id_parse_printed e : id_parse (id_to_string e) = Some e.
Proof. by destruct (e : byte). Qed.

Definition proxy : EndpointId := Byte.x11.
Definition sidecar : EndpointId := Byte.xee.
Definition owner : bytes := sample_key 3.
Definition manifest : string := Payloads.Sample.zeros.

(** ** What is exchanged *)
Definition identity : Workload.WorkloadIdentity := {|
  Workload.identity_version := 1;
  Workload.delegation := {|
    Workload.delegation_version := 1;
    Workload.scope := {|
      Workload.tenant_owner := b64_encode owner; Workload.scope_manifest_id := manifest;
      Workload.workload_id := Payloads.Sample.zeros; Workload.revision_id := Payloads.Sample.ones;
      Workload.issuer_public_key_b64 := b64_encode (sample_key 4); Workload.token_id := "gen-1";
      Workload.scope_issued_at_secs := 1000; Workload.scope_expires_at_secs := Some 3000;
      Workload.max_child_lifetime_secs := 1800 |};
    Workload.delegation_biscuit_b64 := b64_encode owner |};
  Workload.claims := {|
    Workload.delegation_digest := Payloads.Sample.zeros; Workload.claim_endpoint_id := id_to_string sidecar;
    Workload.signing_public_key_b64 := b64_encode (sample_key 5);
    Workload.claims_issued_at_secs := 1100; Workload.claims_expires_at_secs := 2900 |};
  Workload.identity_biscuit_b64 := b64_encode (sample_key 4) |}.

Definition handshake : WorkloadHandshakeRequest :=
  new_handshake_request (b64_encode owner) manifest (b64_encode [Byte.x00]).
Definition handshake_answer : WorkloadHandshakeResponse := new_handshake_response (Some (b64_encode owner)).
Definition registration : Registration.SidecarRegistration :=
  Registration.new_registration owner "web" 0 1
    [{| Registration.route_host := ""; Registration.path_prefix := "/"; Registration.port := 8080 |}] (id_to_string sidecar).
Definition registered : Registration.SidecarRegistrationAck :=
  {| Registration.ack_manifest_id := manifest; Registration.ack_ok := true; Registration.ack_message := "ok" |}.
Definition tunnel : EgressTunnelRequest := egress_tcp "example.org" 443.
Definition request : IngressRequestMetadata := Payloads.Sample.request.
Definition forwarded : IngressRequestMetadata := with_target_port 8080 request.
Definition response : IngressResponseMetadata :=
  {| status_code := 200; response_headers := []; upgrade_accepted := false |}.

(** ** Serializations *)

(** A message of the sidecar ([true]) or of the proxy, the only or first one of its type. *)
Definition parts_of (from_sidecar : bool) (type : WorkloadPayloadType) (nonce : string) : EnvelopeParts :=
  {| part_payload := [Byte.x00]; part_payload_type := wire_name type; part_nonce := nonce; part_ts_millis := 2000000;
     part_sender_id := id_to_string (if from_sidecar then sidecar else proxy);
     part_recipient_id := id_to_string (if from_sidecar then proxy else sidecar);
     part_sender_signing_pubkey := sample_key (if from_sidecar then 5 else 6);
     part_sender_kem_pubkey := Some (sample_key 7) |}.

Definition messages : list (bool * EnvelopeParts) :=
  [(true, parts_of true Control.HandshakeRequest "first"); (false, parts_of false Control.HandshakeResponse "proxy");
   (true, parts_of true Control.RegistrationRequest "second"); (false, parts_of false Control.RegistrationResponse "proxy");
   (true, parts_of true Control.EgressRequest "third"); (false, parts_of false Control.EgressResponse "proxy");
   (false, parts_of false Control.IngressRequest "proxy"); (true, parts_of true Control.IngressResponse "fourth")].

(** Each message without and with its signature. *)
Definition envelope_table : list Envelope :=
  concat (imap (fun k m =>
    [unsigned_envelope m.2;
     set_signature (b64_encode (ed_sign (sample_key (if m.1 : bool then 5 else 6))
       (bind WorkloadEnvelope [byte_of_Z (2 * Z.of_nat k)]))) (unsigned_envelope m.2)]) messages).

#[local] Instance handshake_request_eq_dec : EqDecision WorkloadHandshakeRequest.
Proof. solve_decision. Defined.
#[local] Instance handshake_response_eq_dec : EqDecision WorkloadHandshakeResponse.
Proof. solve_decision. Defined.
#[local] Instance registration_eq_dec : EqDecision Registration.SidecarRegistration.
Proof. solve_decision. Defined.
#[local] Instance ack_eq_dec : EqDecision Registration.SidecarRegistrationAck.
Proof. solve_decision. Defined.
#[local] Instance egress_request_eq_dec : EqDecision EgressTunnelRequest.
Proof. solve_decision. Defined.
#[local] Instance egress_response_eq_dec : EqDecision EgressTunnelResponse.
Proof. solve_decision. Defined.
#[local] Instance response_eq_dec : EqDecision IngressResponseMetadata.
Proof. solve_decision. Defined.

(** A type none of these messages has. *)
Definition no_codec {A} : Postcard A := {| to_allocvec := fun _ => None; from_postcard := fun _ => None |}.

#[local] Instance codecs : ProxyCodecs := {|
  proxy_envelope := Signed.Table.codec envelope_table;
  proxy_record := no_codec;
  proxy_handshake_request := Signed.Table.codec [handshake];
  proxy_handshake_response := Signed.Table.codec [handshake_answer];
  proxy_registration := Signed.Table.codec [registration];
  proxy_registration_ack := Signed.Table.codec [registered];
  proxy_discovery_request := no_codec;
  proxy_discovery_response := no_codec;
  proxy_egress_request := Signed.Table.codec [tunnel];
  proxy_egress_response := Signed.Table.codec [egress_ok];
  proxy_announcement_request := no_codec;
  proxy_announcement_response := no_codec;
  proxy_ingress_request := Signed.Table.codec [forwarded];
  proxy_ingress_response := Signed.Table.codec [response];
  proxy_delegation := Workload.Sample.table_json [Workload.delegation identity];
  proxy_identity := Workload.Sample.table_json [identity]
|}.

(** ** The run *)
Definition quiet (b : bytes) : Pipe := {| content := b; ios := [] |}.
(** The stream on which a message arrives, by its place among the messages. *)
Definition incoming (kind : WorkloadStreamKind) (place : Z) : Pipe :=
  quiet (content (write_workload_frame (quiet []) kind [byte_of_Z (2 * place + 1)]).1).

Definition answer : Pipe :=
  quiet (content (incoming Stream.Ingress 7) ++ frames [as_bytes "hi"] ++ TERMINATOR).

Definition choice_with (event : RawRelay.Event) : Choice := {|
  clock_secs := 2000; clock_millis := 2000000; instant := 0; random_nonce := "proxy"; permitted := true;
  iteration := []; resolved := Ok [Net.V4 [93; 184; 216; 34] 443]; connected := Opened;
  relay_length := 3; relay_event := event;
  finished := Ok tt; opened := Ok (quiet [], answer); address := addr_new proxy |}.

Definition idle_record : EndpointRecord.EndpointRecord := {|
  EndpointRecord.version := 1; EndpointRecord.endpoint_id := id_as_bytes proxy; EndpointRecord.relay_url := None;
  EndpointRecord.direct_addresses := []; EndpointRecord.signing_pubkey := ""; EndpointRecord.issued_at_secs := 1000;
  EndpointRecord.expires_at_secs := 1500; EndpointRecord.signature := "" |}.

Definition idle : World := {|
  runtime := {| Admission.tenants := ∅; Admission.grant_store := ∅; Admission.routes := Routes.new_table;
                Admission.local_endpoint := id_to_string proxy |};
  replay_registry := Replay.empty_state; connections := ∅; known_proxies := ∅; own_endpoint_record := idle_record;
  permits := []; trace := [] |}.

Abbreviation stream := (handle_stream id_to_string Replay.default_limits (sample_key 6) (sample_key 6) (sample_key 7)).
Abbreviation forward :=
  (forward_inner id_to_string id_parse Replay.default_limits (sample_key 6) (sample_key 6) (sample_key 7)).

Definition choice : Choice := choice_with RawRelay.Cancelled.
(** The choices of the tunnel: four bytes of the peer are read and written, then
    the relay is cancelled. *)
Definition tunnel_choices : list Choice :=
  replicate 18 choice ++
  replicate 2 (choice_with (RawRelay.Copy RawRelay.LeftToRight (RawRelay.Read (Ok (as_bytes "ping"))))) ++
  replicate 2 (choice_with (RawRelay.Copy RawRelay.LeftToRight (RawRelay.Written (Ok tt)))) ++ replicate 3 choice.

(** A task that is started and runs to its end before the next one. *)
Definition whole (i : nat) (p : Tasks.Prog World Choice unit) (choices : list Choice)
    : list (Tasks.Event (World := World) (Choice := Choice)) :=
  Tasks.Spawn i p :: (Tasks.Run i <$> choices).

Definition events : list (Tasks.Event (World := World) (Choice := Choice)) :=
  whole 0 (task (post_proxy_grant (b64_encode owner) (b64_encode owner))) (replicate 24 choice) ++
  whole 1 (task (open_connection sidecar 1)) (replicate 24 choice) ++
  whole 2 (task (stream sidecar 1 (quiet []) (incoming Stream.Handshake 0))) (replicate 24 choice) ++
  whole 3 (task (stream sidecar 1 (quiet []) (incoming Stream.Registration 2))) (replicate 24 choice) ++
  whole 4 (task (stream sidecar 1 (quiet []) (incoming Stream.Egress 4))) tunnel_choices ++
  whole 5 (task (forward request [Ok (as_bytes "hello")] false)) (replicate 24 choice).

Abbreviation event := (proxy_event id_to_string id_parse Replay.default_limits (sample_key 6) (sample_key 6) (sample_key 7) []).

Lemma whole_ok i p choices :
  proxy_task id_to_string id_parse Replay.default_limits (sample_key 6) (sample_key 6) (sample_key 7) [] p ->
  Forall event (whole i p choices).
Proof. intros Hp. apply Forall_cons. split; [exact Hp|]. apply Forall_fmap. by apply Forall_true. Qed.

Lemma events_ok : Forall event events.
Proof.
  unfold events. rewrite !Forall_app. split_and!; apply whole_ok; constructor.
Qed.

Lemma proxy_idle_started : started (id_to_string proxy) idle.
Proof. by split. Qed.


Lemma proxy_bounded_witness :
  map_len (connections (run idle events).1) <= MAX_WORKLOAD_CONNECTIONS /\
  connections (run idle events).1 !! sidecar = Some 1.
Proof.
  refine (conj _ _); [|vm_compute; reflexivity].
  exact (proj1 (proxy_bounded id_to_string id_parse Replay.default_limits (sample_key 6) (sample_key 6) (sample_key 7) []
    (id_to_string proxy) eq_refl id_parse_printed idle events proxy_idle_started events_ok)).
Defined.

(** The lifetime of a tunnel is its idle timeout: one that moved bytes a second
    ago is cut after 300 seconds. *)
Lemma busy_tunnel_cut :
  let relay := RawRelay.run egress_relay_limits (RawRelay.start egress_relay_limits 0)
    [(from_secs 299, RawRelay.Copy RawRelay.LeftToRight (RawRelay.Read (Ok (as_bytes "ping"))));
     (from_secs 299, RawRelay.Copy RawRelay.LeftToRight (RawRelay.Written (Ok tt)));
     (from_secs 300, RawRelay.LifetimeReached)] in
  RawRelay.last_activity relay = from_secs 299 /\
  RawRelay.stage relay = RawRelay.Draining (from_secs 300) "raw relay lifetime exceeded".
Proof. by vm_compute. Qed.

(** A proxy whose record ended at 1500 seconds is still known at 2000. *)
Definition stale : World := set_known {[ proxy := idle_record ]} idle.

Lemma stale_record_blocks_discovery_witness :
  exists error,
    Tasks.run_alone 0 (write_typed_response id_to_string (sample_key 6) (sample_key 6) (sample_key 7) sidecar (quiet [])
      {| endpoints := known_endpoints [] 32 sidecar (known_proxies stale) |}) [choice] stale = Some (stale, Err error).
Proof.
  apply (stale_record_blocks_discovery id_to_string (sample_key 6) (sample_key 6) (sample_key 7) 0 choice stale [] 32
    sidecar (quiet []) proxy idle_record);
    [vm_compute; reflexivity|vm_compute; discriminate|vm_compute; discriminate|vm_compute; reflexivity].
Defined.
End ProxySample.
