(* ===== verification/AgentStore.v ===== *)
(** * The agent's store (podmesh-agent/src/store.rs)

    The durable records of an agent: one sealed record per workload and one
    sealed enrollment binding.  [StoredWorkload] and [EnrollmentBinding] are the
    data; [Store] is what the [WorkloadStore] trait promises, a map that forgets
    nothing; the encrypted tables of [AgentStore] implement it. *)

From S2P Require Import Prelude Net Crypto Signed EndpointRecord AgentIds ServiceDiscovery AgentMessages.

Module AgentStore.
Import Crypto AgentMessages.
Import Grant (DeploymentGrant).
Import Update (UpdateRequest).

Record EnrollmentBinding := {
  binding_workload_id : string;
  delegation_digest : string;
  binding_endpoint_id : string;
  signing_public_key_b64 : string
}.

#[export] Instance EnrollmentBinding_eq_dec : EqDecision EnrollmentBinding.
Proof. solve_decision. Defined.

Definition STORED_WORKLOAD_VERSION : Z := 1.

Inductive StoredWorkloadPhase :=
| Active
| Updating (previous_grant : DeploymentGrant) (previous_runtime_id : string) (request : UpdateRequest)
| Creating
| CleanupPending (uncertain : bool).

Record StoredWorkload := {
  version : Z;
  phase : StoredWorkloadPhase;
  grant : DeploymentGrant;
  runtime_id : string;
  deleting : bool;
  cpu_milli : Z;
  memory_bytes : Z;
  storage_bytes : Z;
  workload_name : string;
  replica_index : Z;
  replica_count : Z
}.

Definition set_phase (p : StoredWorkloadPhase) (s : StoredWorkload) : StoredWorkload :=
  {| version := version s; phase := p; grant := grant s; runtime_id := runtime_id s;
     deleting := deleting s; cpu_milli := cpu_milli s; memory_bytes := memory_bytes s;
     storage_bytes := storage_bytes s; workload_name := workload_name s;
     replica_index := replica_index s; replica_count := replica_count s |}.
Definition set_deleting (d : bool) (s : StoredWorkload) : StoredWorkload :=
  {| version := version s; phase := phase s; grant := grant s; runtime_id := runtime_id s;
     deleting := d; cpu_milli := cpu_milli s; memory_bytes := memory_bytes s;
     storage_bytes := storage_bytes s; workload_name := workload_name s;
     replica_index := replica_index s; replica_count := replica_count s |}.
Definition set_runtime_id (r : string) (s : StoredWorkload) : StoredWorkload :=
  {| version := version s; phase := phase s; grant := grant s; runtime_id := r;
     deleting := deleting s; cpu_milli := cpu_milli s; memory_bytes := memory_bytes s;
     storage_bytes := storage_bytes s; workload_name := workload_name s;
     replica_index := replica_index s; replica_count := replica_count s |}.
Definition set_resources (cpu memory storage : Z) (s : StoredWorkload) : StoredWorkload :=
  {| version := version s; phase := phase s; grant := grant s; runtime_id := runtime_id s;
     deleting := deleting s; cpu_milli := cpu; memory_bytes := memory;
     storage_bytes := storage; workload_name := workload_name s;
     replica_index := replica_index s; replica_count := replica_count s |}.

Definition is_active_phase (p : StoredWorkloadPhase) : bool := match p with Active => true | _ => false end.
Definition is_updating (p : StoredWorkloadPhase) : bool :=
  match p with Updating _ _ _ => true | _ => false end.

Definition needs_cleanup (s : StoredWorkload) : bool :=
  match phase s with
  | Creating | CleanupPending _ => true
  | Active => str_is_empty (runtime_id s)
  | Updating _ _ _ => false
  end.

(** ** The trait, as a map

    A record that cannot be read is kept with its error. *)
Record Store := {
  records : gmap string (Result StoredWorkload);
  bindings : gmap string (Result EnrollmentBinding)
}.

Definition empty_store : Store := {| records := ∅; bindings := ∅ |}.

Definition load_all (s : Store) : list (string * Result StoredWorkload) := map_to_list (records s).
Definition save (w : StoredWorkload) (s : Store) : Store :=
  {| records := <[Grant.workload_id (grant w) := Ok w]> (records s); bindings := bindings s |}.
Definition remove (workload_id : string) (s : Store) : Store :=
  {| records := delete workload_id (records s); bindings := delete workload_id (bindings s) |}.
Definition load_enrollment (workload_id : string) (s : Store) : Result (option EnrollmentBinding) :=
  match bindings s !! workload_id with
  | None => Ok None
  | Some (Ok b) => Ok (Some b)
  | Some (Err e) => Err e
  end.
Definition save_enrollment (b : EnrollmentBinding) (s : Store) : Store :=
  {| records := records s; bindings := <[binding_workload_id b := Ok b]> (bindings s) |}.
Definition remove_enrollment (workload_id : string) (s : Store) : Store :=
  {| records := records s; bindings := delete workload_id (bindings s) |}.

(** ** The tables *)

Inductive Table := WORKLOADS_TABLE | ENROLLMENT_TABLE.
Inductive Write := Insert (t : Table) (key : string) (value : bytes) | Remove (t : Table) (key : string).

#[export] Instance Table_eq_dec : EqDecision Table.
Proof. solve_decision. Defined.

(** The redb crate: a database holds tables of byte strings; a write
    transaction is a list of writes that [commit] applies as a whole or not at
    all; a read transaction sees one state.  [Attempt] is what a call may fail
    for: the file system, a lock.  Opening a table and reading it can fail as
    beginning the transaction can, and the code ends with the error of each of
    them before it has done anything, so that [db_begin_read] stands for all. *)
Class Redb := {
  Database : Type;
  Attempt : Type;
  db_commit : Attempt -> list Write -> Database -> result string Database;
  db_begin_read : Attempt -> Database -> Result unit;
  db_get : Database -> Table -> string -> option bytes;
  db_iter : Database -> Table -> list (string * bytes)
}.

Definition write_result (t : Table) (key : string) (old : option bytes) (w : Write) : option bytes :=
  match w with
  | Insert t' key' value => if bool_decide (t' = t /\ key' = key) then Some value else old
  | Remove t' key' => if bool_decide (t' = t /\ key' = key) then None else old
  end.

(** Documented: a committed transaction's writes take effect in order;
    iteration lists every entry once. *)
Class RedbLaws (R : Redb) : Prop := {
  commit_get a ws db db' t key :
    db_commit a ws db = Ok db' ->
    db_get db' t key = fold_left (write_result t key) ws (db_get db t key);
  iter_nodup db t : NoDup (db_iter db t).*1;
  iter_get db t key value : (key, value) ∈ db_iter db t <-> db_get db t key = Some value
}.

Section Encrypted.
Context {P : Primitives} {R : Redb} {CW : Postcard StoredWorkload} {CB : Postcard EnrollmentBinding}.

(** [AgentStore]: the database and the agent's sealing key pair. *)
Record AgentStore := { db : Database; kem_public : bytes; kem_private : bytes }.

Definition set_db (d : Database) (s : AgentStore) : AgentStore :=
  {| db := d; kem_public := kem_public s; kem_private := kem_private s |}.

(** What [load_all] makes of one entry. *)
Definition decode_workload (s : AgentStore) (workload_id : string) (blob : bytes) : Result StoredWorkload :=
  plaintext ← match decrypt_payload_from_recipient_blob blob (kem_private s) with
              | Ok p => Ok p
              | Err _ => Err ("decrypt local workload state for " +:+ workload_id)
              end;
  workload ← ok_or (from_postcard plaintext) ("decode local workload state for " +:+ workload_id);
  ensure! version workload =? STORED_WORKLOAD_VERSION else Err "unsupported stored workload version" ;;
  ensure! bool_decide (Grant.workload_id (grant workload) = workload_id)
    else Err "stored workload key does not match signed grant" ;;
  Ok workload.

Definition db_load_all (a : Attempt) (s : AgentStore) : Result (list (string * Result StoredWorkload)) :=
  _ ← db_begin_read a (db s);
  Ok ((fun kv => (kv.1, decode_workload s kv.1 kv.2)) <$> db_iter (db s) WORKLOADS_TABLE).

(** [ephemeral] and [nonce] are the randomness of the seal. *)
Definition db_save (a : Attempt) (ephemeral nonce : bytes) (w : StoredWorkload) (s : AgentStore)
    : AgentStore * Result unit :=
  try! plaintext := AgentIds.canonical w in s ;;
  try! blob := encrypt_payload_for_recipient ephemeral nonce (kem_public s) plaintext in s ;;
  try! d := db_commit a [Insert WORKLOADS_TABLE (Grant.workload_id (grant w)) blob] (db s) in s ;;
  (set_db d s, Ok tt).

Definition decode_binding (s : AgentStore) (workload_id : string) (blob : bytes) : Result EnrollmentBinding :=
  ensure! len blob <=? 4096 else Err "enrollment state exceeds limit" ;;
  plaintext ← decrypt_payload_from_recipient_blob blob (kem_private s);
  binding ← ok_or (from_postcard plaintext) "postcard deserialization error";
  ensure! bool_decide (binding_workload_id binding = workload_id) else Err "enrollment binding key mismatch" ;;
  Ok binding.

Definition db_load_enrollment (a : Attempt) (workload_id : string) (s : AgentStore)
    : Result (option EnrollmentBinding) :=
  _ ← db_begin_read a (db s);
  match db_get (db s) ENROLLMENT_TABLE workload_id with
  | None => Ok None
  | Some blob => binding ← decode_binding s workload_id blob; Ok (Some binding)
  end.

Definition db_save_enrollment (a : Attempt) (ephemeral nonce : bytes) (b : EnrollmentBinding) (s : AgentStore)
    : AgentStore * Result unit :=
  try! plaintext := AgentIds.canonical b in s ;;
  ensure! len plaintext <=? 1024 else (s, Err "enrollment binding exceeds limit") ;;
  try! blob := encrypt_payload_for_recipient ephemeral nonce (kem_public s) plaintext in s ;;
  try! d := db_commit a [Insert ENROLLMENT_TABLE (binding_workload_id b) blob] (db s) in s ;;
  (set_db d s, Ok tt).

Definition db_remove_enrollment (a : Attempt) (workload_id : string) (s : AgentStore) : AgentStore * Result unit :=
  try! d := db_commit a [Remove ENROLLMENT_TABLE workload_id] (db s) in s ;;
  (set_db d s, Ok tt).

Definition db_remove (a : Attempt) (workload_id : string) (s : AgentStore) : AgentStore * Result unit :=
  try! d := db_commit a [Remove WORKLOADS_TABLE workload_id; Remove ENROLLMENT_TABLE workload_id] (db s) in s ;;
  (set_db d s, Ok tt).

(** ** Refinement *)

(** The tables of [s] stand for the maps of [st]: every entry decodes to what
    the map holds at its key. *)
Definition represents (s : AgentStore) (st : Store) : Prop :=
  (forall w, records st !! w = decode_workload s w <$> db_get (db s) WORKLOADS_TABLE w) /\
  (forall w, bindings st !! w = decode_binding s w <$> db_get (db s) ENROLLMENT_TABLE w).

Context {L : PrimitiveLaws P} {RL : RedbLaws R} {CWL : PostcardLaws _ CW} {CBL : PostcardLaws _ CB}.

Lemma sealed_len eph nonce pk payload blob :
  encrypt_payload_for_recipient eph nonce pk payload = Ok blob ->
  len eph = 32 -> len nonce = 24 -> len blob = 61 + len payload + 16.
Proof.
  unfold encrypt_payload_for_recipient, encapsulate_to_pubkey. intros Hs He Hn.
  destruct (kem_key_bytes _ _); [|done]. cbn zeta in Hs. destruct (x_was_contributory _); [|done].
  cbn zeta in Hs. repeat (case_match; try done). bool_props.
  apply (f_equal (fun r => match r with Ok b => len b | Err _ => 0 end)) in Hs. rewrite <- Hs.
  rewrite len_app, len_cons, !len_app, x_public_len by done. change (len (u32_be_bytes _)) with 4.
  unfold POLY1305_TAG_SIZE in *. lia.
Qed.

(** Reading back what was sealed under the store's own key. *)
Lemma open_sealed s eph nonce payload blob :
  len eph = 32 -> len nonce = 24 -> len (kem_private s) = 32 -> kem_public s = x_public (kem_private s) ->
  encrypt_payload_for_recipient eph nonce (kem_public s) payload = Ok blob ->
  decrypt_payload_from_recipient_blob blob (kem_private s) = Ok payload.
Proof. intros He Hn Hk Hpk Hs. rewrite Hpk in Hs. exact (sealed_opens eph nonce _ _ _ He Hn Hk Hs). Qed.

(** A step of the tables simulates a step of the maps: it fails and changes
    nothing, or it represents the new maps. *)
Definition simulates (s : AgentStore) (res : AgentStore * Result unit) (st' : Store) : Prop :=
  match res.2 with
  | Ok _ => represents res.1 st'
  | Err _ => res.1 = s
  end.

(** The map a table stands for after one write. *)
Lemma lookup_write_insert {A} (f : string -> bytes -> A) (m : gmap string A) t key v x d d' :
  f key v = x -> (forall k, db_get d' t k = write_result t k (db_get d t k) (Insert t key v)) ->
  (forall k, m !! k = f k <$> db_get d t k) -> forall k, <[key := x]> m !! k = f k <$> db_get d' t k.
Proof.
  intros <- Hd Hm k. rewrite Hd. cbn. destruct (decide (key = k)) as [->|Hk].
  - by rewrite lookup_insert_eq, bool_decide_true.
  - by rewrite lookup_insert_ne, bool_decide_false by naive_solver.
Qed.

Lemma lookup_write_remove {A} (f : string -> bytes -> A) (m : gmap string A) t key d d' :
  (forall k, db_get d' t k = write_result t k (db_get d t k) (Remove t key)) ->
  (forall k, m !! k = f k <$> db_get d t k) -> forall k, delete key m !! k = f k <$> db_get d' t k.
Proof.
  intros Hd Hm k. rewrite Hd. cbn. destruct (decide (key = k)) as [->|Hk].
  - by rewrite lookup_delete_eq, bool_decide_true.
  - by rewrite lookup_delete_ne, bool_decide_false by naive_solver.
Qed.

(** The store's sealing keys belong together. *)
Definition keyed (s : AgentStore) : Prop :=
  len (kem_private s) = 32 /\ kem_public s = x_public (kem_private s).

Lemma save_simulates a eph nonce w s st :
  keyed s -> len eph = 32 -> len nonce = 24 -> version w = STORED_WORKLOAD_VERSION ->
  represents s st -> simulates s (db_save a eph nonce w s) (save w st).
Proof.
  intros [Hk Hpk] He Hn Hv [Hr Hb]. unfold simulates, db_save, AgentIds.canonical, ok_or.
  destruct (to_allocvec w) as [plain|] eqn:Hp; [|done].
  destruct (encrypt_payload_for_recipient _ _ _ _) as [blob|] eqn:Hblob; [|done].
  destruct (db_commit _ _ _) as [d|] eqn:Hc; [|done]. cbn. split; cbn.
  - apply (lookup_write_insert (decode_workload s) _ WORKLOADS_TABLE _ blob _ (db s)); [| |done].
    + unfold decode_workload. rewrite (open_sealed _ _ _ _ _ He Hn Hk Hpk Hblob), Signed.bind_eq.
      rewrite (postcard_roundtrip _ _ Hp). cbn. by rewrite Hv, bool_decide_true.
    + intros k. by rewrite (commit_get _ _ _ _ _ _ Hc).
  - intros k. rewrite (commit_get _ _ _ _ _ _ Hc). cbn. by rewrite bool_decide_false by naive_solver.
Qed.

Lemma save_enrollment_simulates a eph nonce b s st :
  keyed s -> len eph = 32 -> len nonce = 24 ->
  represents s st -> simulates s (db_save_enrollment a eph nonce b s) (save_enrollment b st).
Proof.
  intros [Hk Hpk] He Hn [Hr Hb]. unfold simulates, db_save_enrollment, AgentIds.canonical, ok_or.
  destruct (to_allocvec b) as [plain|] eqn:Hp; [|done]. destruct (len plain <=? 1024) eqn:Hlen; [|done].
  destruct (encrypt_payload_for_recipient _ _ _ _) as [blob|] eqn:Hblob; [|done].
  destruct (db_commit _ _ _) as [d|] eqn:Hc; [|done]. cbn. split; cbn.
  - intros k. rewrite (commit_get _ _ _ _ _ _ Hc). cbn. by rewrite bool_decide_false by naive_solver.
  - apply (lookup_write_insert (decode_binding s) _ ENROLLMENT_TABLE _ blob _ (db s)); [| |done].
    + unfold decode_binding. rewrite (sealed_len _ _ _ _ _ Hblob He Hn). bool_props.
      replace (61 + len plain + 16 <=? 4096) with true by lia.
      rewrite (open_sealed _ _ _ _ _ He Hn Hk Hpk Hblob), Signed.bind_eq.
      rewrite (postcard_roundtrip _ _ Hp). cbn. by rewrite bool_decide_true.
    + intros k. by rewrite (commit_get _ _ _ _ _ _ Hc).
Qed.

Lemma remove_simulates a w s st :
  represents s st -> simulates s (db_remove a w s) (remove w st).
Proof.
  intros [Hr Hb]. unfold simulates, db_remove. destruct (db_commit _ _ _) as [d|] eqn:Hc; [|done].
  cbn. split; cbn; eapply lookup_write_remove; try done; intros k; rewrite (commit_get _ _ _ _ _ _ Hc); cbn;
    repeat case_bool_decide; naive_solver.
Qed.

Lemma remove_enrollment_simulates a w s st :
  represents s st -> simulates s (db_remove_enrollment a w s) (remove_enrollment w st).
Proof.
  intros [Hr Hb]. unfold simulates, db_remove_enrollment. destruct (db_commit _ _ _) as [d|] eqn:Hc; [|done].
  cbn. split; cbn.
  - intros k. rewrite (commit_get _ _ _ _ _ _ Hc). cbn. by rewrite bool_decide_false by naive_solver.
  - eapply lookup_write_remove; [|done]. intros k. by rewrite (commit_get _ _ _ _ _ _ Hc).
Qed.

Lemma load_all_simulates a s st l :
  represents s st -> db_load_all a s = Ok l -> l ≡ₚ load_all st.
Proof.
  intros [Hr _] Hl. unfold db_load_all in Hl. destruct (db_begin_read a (db s)); [|done]. cbn in Hl.
  injection Hl as <-. unfold load_all.
  apply NoDup_Permutation.
  - apply (NoDup_fmap_1 fst). rewrite <- list_fmap_compose. cbn. apply iter_nodup.
  - apply NoDup_map_to_list.
  - intros [k r]. rewrite elem_of_map_to_list, Hr, list_elem_of_fmap. split.
    + intros ([k' v] & [= -> ->] & Hin). apply iter_get in Hin. cbn. by rewrite Hin.
    + intros Hg. destruct (db_get (db s) WORKLOADS_TABLE k) as [v|] eqn:Hv; [|done]. injection Hg as <-.
      exists (k, v). split; [done|]. by apply iter_get.
Qed.

Lemma load_enrollment_simulates a w s st r :
  represents s st -> db_begin_read a (db s) = Ok tt -> db_load_enrollment a w s = r -> load_enrollment w st = r.
Proof.
  intros [_ Hb] Ha <-. unfold db_load_enrollment, load_enrollment. rewrite Ha, Hb. cbn.
  by destruct (db_get _ _ _) as [blob|]; cbn; [destruct (decode_binding _ _ _)|].
Qed.

(** C31. The encrypted database implements the store the agent programs
    against.  If the tables stand for two maps then every operation either
    fails and leaves the tables as they were, or leaves tables that stand for
    the maps the operation of the trait yields; loading answers what the maps
    hold, an unreadable entry as an error at its key. *)
Theorem store_refines (a : Attempt) (eph nonce : bytes) (s : AgentStore) (st : Store) :
  keyed s -> len eph = 32 -> len nonce = 24 -> represents s st ->
  (forall w, version w = STORED_WORKLOAD_VERSION -> simulates s (db_save a eph nonce w s) (save w st)) /\
  (forall w, simulates s (db_remove a w s) (remove w st)) /\
  (forall b, simulates s (db_save_enrollment a eph nonce b s) (save_enrollment b st)) /\
  (forall w, simulates s (db_remove_enrollment a w s) (remove_enrollment w st)) /\
  (forall l, db_load_all a s = Ok l -> l ≡ₚ load_all st) /\
  (forall w, db_begin_read a (db s) = Ok tt -> db_load_enrollment a w s = load_enrollment w st).
Proof.
  intros Hk He Hn Hr. split_and!; intros.
  - by apply save_simulates.
  - by apply remove_simulates.
  - by apply save_enrollment_simulates.
  - by apply remove_enrollment_simulates.
  - by eapply load_all_simulates.
  - symmetry. by eapply load_enrollment_simulates.
Qed.

End Encrypted.

(** ** A database *)
Module Sample.

(** Two tables in memory; a commit fails when told to. *)
#[local] Instance memory : Redb := {|
  Database := gmap string bytes * gmap string bytes;
  Attempt := bool;
  db_commit := fun ok ws d =>
    if ok then
      Ok (fold_left (fun d w =>
        match w with
        | Insert WORKLOADS_TABLE k v => (<[k := v]> d.1, d.2)
        | Insert ENROLLMENT_TABLE k v => (d.1, <[k := v]> d.2)
        | Remove WORKLOADS_TABLE k => (delete k d.1, d.2)
        | Remove ENROLLMENT_TABLE k => (d.1, delete k d.2)
        end) ws d)
    else Err "disk full";
  db_begin_read := fun ok _ => if ok then Ok tt else Err "database is locked";
  db_get := fun d t k => match t with WORKLOADS_TABLE => d.1 !! k | ENROLLMENT_TABLE => d.2 !! k end;
  db_iter := fun d t => map_to_list match t with WORKLOADS_TABLE => d.1 | ENROLLMENT_TABLE => d.2 end |}.

#[local] Instance memory_laws : RedbLaws memory.
Proof.
  split.
  - intros [|] ws d d' t key; [|done]. intros [= <-]. revert d. induction ws as [|w ws IH]; intros d; [done|].
    cbn. cbn in IH. rewrite IH. f_equal. destruct w as [[] k v|[] k], t; cbn; case_bool_decide as Hk;
      try destruct Hk as [? <-]; simplify_map_eq; try done;
      first [rewrite lookup_insert_ne by naive_solver|rewrite lookup_delete_ne by naive_solver]; done.
  - intros d t. apply NoDup_fst_map_to_list.
  - intros d t k v. destruct t; apply elem_of_map_to_list.
Qed.

#[local] Existing Instances Toy.prims Toy.laws.
#[local] Instance capsule_eq_dec : EqDecision Spec.EncryptedWorkloadCapsule.
Proof. solve_decision. Defined.
#[local] Instance grant_eq_dec : EqDecision DeploymentGrant.
Proof. solve_decision. Defined.
#[local] Instance update_eq_dec : EqDecision UpdateRequest.
Proof. solve_decision. Defined.
#[local] Instance phase_eq_dec : EqDecision StoredWorkloadPhase.
Proof. solve_decision. Defined.
#[local] Instance workload_eq_dec : EqDecision StoredWorkload.
Proof. solve_decision. Defined.

Definition workload : StoredWorkload := {|
  version := 1; phase := Active;
  grant := {|
    Grant.version := 1; Grant.namespace_id := "owner"; Grant.workload_id := "web"; Grant.revision_id := "r1";
    Grant.target_node_id := "agent"; Grant.response_kem_pubkey := "key"; Grant.reservation_id := "reservation";
    Grant.capsule := {| Spec.ciphertext := []; Spec.capsule_nonce := []; Spec.wrapped_dek := [] |};
    Grant.issued_at_secs := 100; Grant.expires_at_secs := 200; Grant.nonce := "n"; Grant.owner_signature := "s" |};
  runtime_id := "pod"; deleting := false; cpu_milli := 1; memory_bytes := 1; storage_bytes := 1;
  workload_name := "web"; replica_index := 0; replica_count := 1 |}.
Definition binding : EnrollmentBinding := {|
  binding_workload_id := "web"; delegation_digest := "d"; binding_endpoint_id := "e"; signing_public_key_b64 := "k" |}.

#[local] Instance workload_codec : Postcard StoredWorkload := Signed.Table.codec [workload].
#[local] Instance workload_codec_laws : PostcardLaws _ workload_codec := Signed.Table.codec_laws _.
#[local] Instance binding_codec : Postcard EnrollmentBinding := Signed.Table.codec [binding].
#[local] Instance binding_codec_laws : PostcardLaws _ binding_codec := Signed.Table.codec_laws _.

Definition store : AgentStore := {|
  db := (∅, ∅) : Database; kem_public := Toy.sample_key 6; kem_private := Toy.sample_key 6 |}.

Lemma store_refines_witness :
  simulates store (db_save (true : Attempt) (Toy.sample_key 7) Toy.sample_nonce workload store) (save workload empty_store) /\
  is_ok (db_save (true : Attempt) (Toy.sample_key 7) Toy.sample_nonce workload store).2 = true.
Proof.
  split; [|vm_compute; reflexivity].
  refine (proj1 (store_refines (true : Attempt) (Toy.sample_key 7) Toy.sample_nonce store empty_store _ _ _ _) workload _).
  - split; vm_compute; reflexivity.
  - reflexivity.
  - reflexivity.
  - split; intros w; reflexivity.
  - reflexivity.
Defined.

End Sample.
End AgentStore.
