(* ===== verification/Quantities.v ===== *)
(** * Resource quantities (shared/protocol/src/manifest_resources.rs)

    The CPU and byte quantities of a manifest's resource limits.  They are
    decimal numbers with a unit; the theorem of this file says that reading one
    is exact: a quantity is accepted exactly when it is well formed and its
    value, rounded up to a whole unit, is positive and fits its integer type. *)

From S2P Require Import Prelude Net Text Crypto Signed.
From Stdlib Require Import Ascii.

Module Quantities.
Import Crypto Net Text.

Definition u128_max : Z := 2 ^ 128 - 1.

(** [checked_add] and [checked_mul]: [None] above the type's largest value. *)
Definition checked (max x : Z) : option Z := if x <=? max then Some x else None.

(** [str::parse] at an unsigned type: an optional plus sign and digits. *)
Definition parse_uint (max : Z) (s : string) : option Z :=
  let l := match chars_of s with c :: l => if bool_decide (c = "+"%char) then l else c :: l | [] => [] end in
  match digits 10 l with
  | (d :: ds, []) => checked max (number_of 10 (d :: ds))
  | _ => None
  end.

Definition all_digits (s : string) : bool := all_char is_ascii_digit s.

(** [split_once('.')] with a missing fraction read as an empty one. *)
Definition split_decimal (s : string) : string * string := default (s, "") (split_once "." s).

(** Zeros are appended until the fraction has three digits. *)
Definition pad_fraction (fraction : string) : string :=
  of_chars (chars_of fraction ++ replicate (3 - String.length fraction) "0"%char).

Definition parse_cpu (quantity : string) : Result Z :=
  match strip_suffix "m" quantity with
  | Some milli =>
      value ← ok_or (parse_uint u32_max milli) "invalid millicore quantity";
      ensure! 0 <? value else Err "CPU limit must be greater than zero" ;;
      Ok value
  | None =>
      let (whole, fraction) := split_decimal quantity in
      ensure! negb (str_is_empty whole) && all_digits whole && (str_len fraction <=? 3) && all_digits fraction
        else Err "unsupported CPU quantity" ;;
      whole ← ok_or (parse_uint u32_max whole) "invalid CPU quantity";
      let fractional := pad_fraction fraction in
      fractional ← (if str_is_empty fractional then Ok 0
                    else ok_or (parse_uint u32_max fractional) "invalid CPU fraction");
      milli ← ok_or (value ← checked u32_max (whole * 1000); checked u32_max (value + fractional))
                "CPU quantity overflow";
      ensure! 0 <? milli else Err "CPU limit must be greater than zero" ;;
      Ok milli
  end.

Definition SUFFIXES : list (string * Z) :=
  [("Ti", 1024 ^ 4); ("Gi", 1024 ^ 3); ("Mi", 1024 ^ 2); ("Ki", 1024);
   ("T", 1000 ^ 4); ("G", 1000 ^ 3); ("M", 1000 ^ 2); ("K", 1000)].

(** The first suffix that the quantity ends with. *)
Fixpoint find_suffix (l : list (string * Z)) (quantity : string) : option (string * Z) :=
  match l with
  | [] => None
  | (suffix, multiplier) :: l =>
      match strip_suffix suffix quantity with
      | Some number => Some (number, multiplier)
      | None => find_suffix l quantity
      end
  end.

Definition parse_bytes (quantity : string) : Result Z :=
  let (number, multiplier) := default (quantity, 1) (find_suffix SUFFIXES quantity) in
  let (whole, fraction) := split_decimal number in
  ensure! negb (str_is_empty whole) && all_digits whole && (str_len fraction <=? 9) && all_digits fraction
    else Err "unsupported byte quantity" ;;
  let scale := 10 ^ str_len fraction in
  whole ← ok_or (parse_uint u128_max whole) "invalid byte quantity";
  fraction ← (if str_is_empty fraction then Ok 0
              else ok_or (parse_uint u128_max fraction) "invalid byte quantity fraction");
  scaled ← ok_or (a ← checked u128_max (whole * scale); b ← checked u128_max (a + fraction);
                  checked u128_max (b * multiplier)) "byte quantity overflow";
  total ← ok_or (checked u128_max (scaled + saturating_sub scale 1)) "byte quantity rounding overflow";
  let bytes := total / scale in
  ensure! 0 <? bytes else Err "byte limit must be greater than zero" ;;
  ok_or (checked u64_max bytes) "byte quantity exceeds u64".

(** ** What a quantity denotes *)

(** [decimal s n places]: [s] is a decimal number whose digits, without the
    point, are those of [n], [places] of them behind the point. *)
Definition value (l : chars) : Z := number_of 10 (digits 10 l).1.

Inductive decimal : string -> Z -> Z -> Prop :=
| decimal_whole w :
    w <> [] -> forallb is_ascii_digit w = true -> decimal (of_chars w) (value w) 0
| decimal_fraction w f :
    w <> [] -> forallb is_ascii_digit w = true -> forallb is_ascii_digit f = true ->
    decimal (of_chars (w ++ "."%char :: f)) (value (w ++ f)) (len f).

(** The least integer that is not below [n / 10^places]. *)
Definition round_up (n places : Z) : Z := (n + 10 ^ places - 1) / 10 ^ places.

(** ** Characters and numbers *)
Lemma of_chars_inj a b : of_chars a = of_chars b -> a = b.
Proof. intros He. by rewrite <- (chars_of_of_chars a), He, chars_of_of_chars. Qed.

Lemma app_empty_r s : (s +:+ "")%string = s.
Proof. change "" with (of_chars []). by rewrite <- (of_chars_of s), <- of_chars_app, app_nil_r. Qed.

Lemma length_of_chars l : String.length (of_chars l) = length l.
Proof. induction l as [|x l IH]; [done|]. cbn. by f_equal. Qed.

Lemma prefix_chars a b : String.prefix (of_chars a) (of_chars b) = true <-> exists c, b = a ++ c.
Proof.
  revert b. induction a as [|x a IH]; intros [|y b]; cbn.
  - split; [by exists []|done].
  - split; [by exists (y :: b)|done].
  - split; [done|by intros [c Hc]].
  - destruct (ascii_dec x y) as [->|Hne].
    + rewrite IH. split; intros [c Hc]; exists c; congruence.
    + split; [done|]. intros [c Hc]. congruence.
Qed.

Lemma strip_suffix_spec suf s p : strip_suffix suf s = Some p <-> s = (p +:+ suf)%string.
Proof.
  rewrite <- (of_chars_of suf), <- (of_chars_of s), <- (of_chars_of p).
  generalize (chars_of suf), (chars_of s), (chars_of p). clear. intros suf s p.
  unfold strip_suffix, ends_with. rewrite !chars_of_of_chars, !length_of_chars, <- of_chars_app.
  destruct (String.prefix _ _) eqn:He.
  - apply prefix_chars in He as [c Hc]. apply (f_equal (@rev _)) in Hc. rewrite rev_involutive, rev_app_distr, rev_involutive in Hc.
    subst s. rewrite length_app. replace (_ + _ - _)%nat with (length (rev c)) by lia. rewrite take_app_length.
    split; [intros [= Hp%of_chars_inj]; by subst|]. intros Hs%of_chars_inj. by apply app_inv_tail in Hs as ->.
  - split; [done|]. intros Hs%of_chars_inj. subst s.
    assert (String.prefix (of_chars (rev suf)) (of_chars (rev (p ++ suf))) = true) as Ht; [|congruence].
    apply prefix_chars. exists (rev p). by rewrite rev_app_distr.
Qed.

Lemma split_once_spec sep l a b :
  split_once_chars sep l = Some (a, b) <-> l = a ++ sep :: b /\ sep ∉ a.
Proof.
  revert a. induction l as [|c l IH]; intros a; cbn.
  { split; [done|]. intros [Hl _]. by destruct a. }
  case_bool_decide as Hc; [subst c|].
  - split; [intros [= <- <-]; split; [done|by apply not_elem_of_nil]|].
    intros [Hl Hn]. destruct a as [|x a]; cbn in Hl; [by injection Hl as <-|].
    injection Hl as <- _. by destruct Hn; left.
  - destruct (split_once_chars sep l) as [[a' b']|].
    + split.
      * intros [= <- <-]. destruct (proj1 (IH a') eq_refl) as [-> Hn]. split; [done|].
        by apply not_elem_of_cons.
      * intros [Hl Hn]. destruct a as [|x a]; cbn in Hl; [congruence|]. injection Hl as -> Hl.
        apply not_elem_of_cons in Hn as [_ Hn]. pose proof (proj2 (IH a) (conj Hl Hn)) as He. by injection He as <- <-.
    + split; [done|]. intros [Hl Hn]. destruct a as [|x a]; cbn in Hl; [congruence|]. injection Hl as -> Hl.
      apply not_elem_of_cons in Hn as [_ Hn]. by discriminate (proj2 (IH a) (conj Hl Hn)).
Qed.

Lemma digit_to_digit c :
  is_ascii_digit c = true -> exists d, to_digit 10 c = Some d /\ 0 <= d < 10.
Proof.
  unfold is_ascii_digit, to_digit. intros Hd. rewrite Hd. unfold in_range in Hd. bool_props.
  exists (code c - 48). replace (code c - 48 <? 10) with true by lia. split; [done|lia].
Qed.

Lemma digits_all l :
  forallb is_ascii_digit l = true ->
  exists ds, digits 10 l = (ds, []) /\ length ds = length l /\ Forall (fun d => 0 <= d < 10) ds.
Proof.
  induction l as [|c l IH]; cbn; [by exists []|]. intros [Hc Hl]%andb_prop.
  destruct (digit_to_digit c Hc) as (d & -> & Hd), (IH Hl) as (ds & -> & Hlen & Hds).
  exists (d :: ds). split_and!; [done|cbn; lia|by constructor].
Qed.

Lemma digits_inv l ds : digits 10 l = (ds, []) -> forallb is_ascii_digit l = true.
Proof.
  revert ds. induction l as [|c l IH]; intros ds; cbn; [done|].
  destruct (to_digit 10 c) as [d|] eqn:Hd; [|done]. destruct (digits 10 l) as [ds' rest]. intros [= <- ->].
  rewrite (IH ds' eq_refl), andb_true_r. unfold to_digit, is_ascii_digit in *.
  destruct (in_range 48 57 (code c)); [done|].
  destruct (in_range 97 122 (code c)) eqn:H1; [unfold in_range in H1; bool_props; case_match; [lia|done]|].
  destruct (in_range 65 90 (code c)) eqn:H2; [unfold in_range in H2; bool_props; case_match; [lia|done]|done].
Qed.

Lemma fold_digits ds acc :
  fold_left (fun a d => a * 10 + d) ds acc = acc * 10 ^ len ds + number_of 10 ds.
Proof.
  unfold number_of. revert acc. induction ds as [|d ds IH]; intros acc; [change (len (@nil Z)) with 0; cbn [fold_left]; lia|].
  cbn [fold_left]. rewrite (IH (acc * 10 + d)), (IH (0 * 10 + d)), len_cons, Z.pow_add_r by (try apply len_nonneg; lia). ring.
Qed.

Lemma digits_app w ws f :
  digits 10 w = (ws, []) -> digits 10 (w ++ f) = (ws ++ (digits 10 f).1, (digits 10 f).2).
Proof.
  revert ws. induction w as [|c w IH]; intros ws; cbn; [by intros [= <-]; destruct (digits 10 f)|].
  destruct (to_digit 10 c) as [d|]; [|done]. destruct (digits 10 w) as [ds rest]. intros [= <- ->].
  by rewrite (IH ds eq_refl).
Qed.

Lemma value_app w f :
  forallb is_ascii_digit w = true -> forallb is_ascii_digit f = true ->
  value (w ++ f) = value w * 10 ^ len f + value f.
Proof.
  intros (ws & Hw & _)%digits_all (fs & Hf & Hlen & _)%digits_all. unfold value.
  rewrite (digits_app _ _ f Hw), Hw, Hf. cbn [fst]. unfold number_of. rewrite fold_left_app, fold_digits.
  unfold len. by rewrite Hlen.
Qed.

Lemma value_bound l : forallb is_ascii_digit l = true -> 0 <= value l < 10 ^ len l.
Proof.
  induction l as [|c l IH] using rev_ind; [done|]. rewrite forallb_app. intros [Hl Hc]%andb_prop.
  rewrite value_app, len_app, Z.pow_add_r by (done || apply len_nonneg). cbn in Hc.
  destruct (digit_to_digit c) as (d & Hd & Hr); [by destruct (is_ascii_digit c)|].
  assert (value [c] = d) as -> by (unfold value; cbn; rewrite Hd; cbn; lia).
  change (len [c]) with 1. specialize (IH Hl). nia.
Qed.

Lemma zeros_digits k : forallb is_ascii_digit (replicate k "0"%char) = true.
Proof. by induction k. Qed.

Lemma value_zeros f k :
  forallb is_ascii_digit f = true -> value (f ++ replicate k "0"%char) = value f * 10 ^ Z.of_nat k.
Proof.
  intros Hf. rewrite value_app by (done || apply zeros_digits). unfold len. rewrite length_replicate.
  assert (value (replicate k "0"%char) = 0) as ->; [|lia].
  clear. induction k as [|k IH]; [done|]. rewrite replicate_S_end, value_app by (done || apply zeros_digits).
  by rewrite IH.
Qed.

Lemma digit_not c x : is_ascii_digit c = true -> is_ascii_digit x = false -> c <> x.
Proof. intros Hc Hx ->. congruence. Qed.

Lemma not_in_digits x w : forallb is_ascii_digit w = true -> is_ascii_digit x = false -> x ∉ w.
Proof. intros Hw Hx Hin. rewrite forallb_forall in Hw. specialize (Hw x). rewrite <- list_elem_of_In in Hw. by rewrite Hw in Hx. Qed.

Lemma parse_uint_digits max w :
  w <> [] -> forallb is_ascii_digit w = true -> parse_uint max (of_chars w) = checked max (value w).
Proof.
  intros Hne Hw. unfold parse_uint, value. rewrite chars_of_of_chars. destruct w as [|c w]; [done|].
  rewrite bool_decide_false by (apply digit_not; [by cbn in Hw; apply andb_prop in Hw as []|done]).
  destruct (digits_all _ Hw) as (ds & -> & Hlen & _). by destruct ds.
Qed.

Lemma parse_uint_inv max s n :
  parse_uint max s = Some n ->
  exists w, w <> [] /\ forallb is_ascii_digit w = true /\ n = value w /\ n <= max /\
    (s = of_chars w \/ s = of_chars ("+"%char :: w)).
Proof.
  unfold parse_uint. destruct (ex_intro (fun l => s = of_chars l) (chars_of s) (eq_sym (of_chars_of s))) as [l ->].
  rewrite chars_of_of_chars.
  assert (forall w, w = [] \/ w <> [] -> match digits 10 w with (d :: ds, []) => checked max (number_of 10 (d :: ds)) | _ => None end = Some n ->
    w <> [] /\ forallb is_ascii_digit w = true /\ n = value w /\ n <= max) as Hw.
  { intros w _. unfold value. destruct (digits 10 w) as [[|d ds] [|]] eqn:Hd; try done. unfold checked. intros Hc.
    case_match eqn:Hle; [|done]. injection Hc as <-. apply Z.leb_le in Hle.
    split_and!; [by intros ->|by eapply digits_inv|done|done]. }
  destruct l as [|c l]; [done|]. case_bool_decide as Hp; intros Hd.
  - exists l. destruct (Hw l) as (? & ? & ? & ?); [by destruct l; auto|done|]. subst c. auto 10.
  - exists (c :: l). destruct (Hw (c :: l)) as (? & ? & ? & ?); [by auto|done|]. auto 10.
Qed.

(** ** Decimals *)
Lemma split_decimal_spec s whole fraction :
  split_decimal s = (whole, fraction) -> whole <> "" -> all_digits whole = true ->
  all_digits fraction = true ->
  exists w f, whole = of_chars w /\ fraction = of_chars f /\ w <> [] /\ forallb is_ascii_digit w = true /\
    forallb is_ascii_digit f = true /\ decimal s (value (w ++ f)) (len f).
Proof.
  unfold split_decimal, split_once, all_digits, all_char. intros Hs Hne Hw Hf.
  exists (chars_of whole), (chars_of fraction). rewrite !of_chars_of.
  assert (chars_of whole <> []) as Hn.
  { intros He. destruct Hne. by rewrite <- (of_chars_of whole), He. }
  split_and!; try done.
  destruct (split_once_chars "." (chars_of s)) as [[a b]|] eqn:He; cbn in Hs; injection Hs as <- <-.
  - apply split_once_spec in He as [Hl _]. rewrite !chars_of_of_chars in *.
    rewrite <- (of_chars_of s), Hl. by constructor.
  - rewrite app_nil_r. rewrite <- (of_chars_of s) at 1. by constructor.
Qed.

Lemma decimal_split s n places :
  decimal s n places ->
  exists w f, split_decimal s = (of_chars w, of_chars f) /\ w <> [] /\ forallb is_ascii_digit w = true /\
    forallb is_ascii_digit f = true /\ n = value (w ++ f) /\ places = len f.
Proof.
  unfold split_decimal, split_once. intros [w Hn Hw|w f Hn Hw Hf]; rewrite chars_of_of_chars.
  - exists w, []. rewrite app_nil_r. split_and!; try done.
    destruct (split_once_chars "." w) as [[a b]|] eqn:He; [|done]. apply split_once_spec in He as [Hl _].
    destruct (not_in_digits "." w Hw eq_refl). rewrite Hl. apply elem_of_app. right. by left.
  - exists w, f. split_and!; try done.
    by rewrite (proj2 (split_once_spec "." (w ++ "."%char :: f) w f) (conj eq_refl (not_in_digits "." w Hw eq_refl))).
Qed.

Lemma decimal_chars s n places c : decimal s n places -> c ∈ chars_of s -> is_ascii_digit c = true \/ c = "."%char.
Proof.
  assert (forall w, forallb is_ascii_digit w = true -> c ∈ w -> is_ascii_digit c = true) as Hall.
  { intros w Hw Hc. rewrite forallb_forall in Hw. apply Hw. by apply list_elem_of_In. }
  intros [w Hn Hw|w f Hn Hw Hf]; rewrite chars_of_of_chars; [by eauto|].
  intros [Hc|[->|Hc]%elem_of_cons]%elem_of_app; eauto.
Qed.

Lemma str_is_empty_of_chars w : str_is_empty (of_chars w) = false <-> w <> [].
Proof.
  unfold str_is_empty. rewrite bool_decide_eq_false. split; intros Hne He; apply Hne; [by subst|].
  by apply (of_chars_inj w []).
Qed.

Lemma str_len_of_chars w : str_len (of_chars w) = len w.
Proof. unfold str_len, len. by rewrite length_of_chars. Qed.

Lemma checked_some max x y : checked max x = Some y <-> y = x /\ x <= max.
Proof. unfold checked. case_match eqn:Hx; [apply Z.leb_le in Hx|apply Z.leb_gt in Hx]; naive_solver lia. Qed.

Lemma checked_le max x : x <= max -> checked max x = Some x.
Proof. intros Hx. by apply checked_some. Qed.

(** The tail of [parse_bytes], on the number without its point. *)
Lemma scaled_bytes n scale multiplier bytes :
  0 <= n -> 1 <= scale <= 10 ^ 9 -> 1 <= multiplier ->
  bytes = (n * multiplier + scale - 1) / scale -> bytes <= u64_max ->
  n * multiplier + (scale - 1) <= u128_max.
Proof.
  intros Hn Hs Hm -> Hb. unfold u64_max, u128_max in *.
  pose proof (Z.div_mod (n * multiplier + scale - 1) scale ltac:(lia)) as Hd.
  pose proof (Z.mod_pos_bound (n * multiplier + scale - 1) scale ltac:(lia)) as Hr.
  assert (scale * ((n * multiplier + scale - 1) / scale) <= 10 ^ 9 * (2 ^ 64 - 1)) by nia. lia.
Qed.

Lemma suffix_positive number multiplier quantity :
  default (quantity, 1) (find_suffix SUFFIXES quantity) = (number, multiplier) -> 1 <= multiplier.
Proof.
  unfold SUFFIXES. cbn [find_suffix].
  repeat (destruct (strip_suffix _ _); [intros [= _ <-]; lia|]). intros [= _ <-]. lia.
Qed.

Lemma find_suffix_inv number multiplier quantity :
  default (quantity, 1) (find_suffix SUFFIXES quantity) = (number, multiplier) ->
  exists suffix, quantity = (number +:+ suffix)%string /\ (suffix, multiplier) ∈ ("", 1) :: SUFFIXES.
Proof.
  assert (forall l, find_suffix l quantity = Some (number, multiplier) ->
    exists suffix, quantity = (number +:+ suffix)%string /\ (suffix, multiplier) ∈ l) as Hl.
  { induction l as [|[suf m] l IH]; cbn; [done|]. destruct (strip_suffix suf quantity) eqn:Hs.
    - intros [= -> ->]. apply strip_suffix_spec in Hs. exists suf. split; [done|by left].
    - intros (x & Hq & Hx)%IH. exists x. split; [done|by right]. }
  destruct (find_suffix SUFFIXES quantity) as [[a b]|] eqn:Hf; cbn; intros [= -> ->].
  - destruct (Hl _ Hf) as (x & Hq & Hx). exists x. split; [done|by right].
  - exists "". split; [|by left]. by rewrite app_empty_r.
Qed.

(** A decimal followed by a suffix ends with no other suffix. *)
Lemma decimal_tail number n places c l :
  decimal number n places -> is_ascii_digit c = false -> c <> "."%char -> rev (chars_of number) <> c :: l.
Proof.
  intros Hdec Hc Hdot He. destruct (decimal_chars number n places c Hdec) as [Hd|]; [|congruence|congruence].
  rewrite <- (rev_involutive (chars_of number)), He. apply list_elem_of_In, in_rev. rewrite rev_involutive. by left.
Qed.

Lemma strip_unique number n places suf m suf' m' rest :
  decimal number n places -> (suf, m) ∈ ("", 1) :: SUFFIXES -> (suf', m') ∈ SUFFIXES ->
  (number +:+ suf)%string = (rest +:+ suf')%string -> rest = number /\ m' = m.
Proof.
  intros Hdec Hs Hs' He.
  assert (rev (chars_of suf) ++ rev (chars_of number) = rev (chars_of suf') ++ rev (chars_of rest)) as Hr.
  { rewrite <- !rev_app_distr. f_equal. apply of_chars_inj. by rewrite !of_chars_app, !of_chars_of. }
  assert (forall a, rev (chars_of number) = a -> rest = number \/ rev (chars_of rest) <> a) as Hrest.
  { intros a <-. destruct (decide (rest = number)) as [|Hne]; [by left|right]. intros Hx. apply Hne.
    apply (f_equal (@rev _)) in Hx. rewrite !rev_involutive in Hx. by rewrite <- (of_chars_of rest), Hx, of_chars_of. }
  clear He. unfold SUFFIXES in *.
  repeat (apply elem_of_cons in Hs as [[= -> ->]|Hs]); try (by apply not_elem_of_nil in Hs);
  repeat (apply elem_of_cons in Hs' as [[= -> ->]|Hs']); try (by apply not_elem_of_nil in Hs'); cbn in Hr;
  try discriminate Hr; try (by eapply decimal_tail in Hr);
  (injection Hr as Hr; split; [|done]; destruct (Hrest _ Hr); [done|congruence]).
Qed.

Lemma find_suffix_none l q suf m : find_suffix l q = None -> (suf, m) ∈ l -> strip_suffix suf q = None.
Proof.
  induction l as [|[s' m'] l IH]; cbn; [by intros _ Hin%not_elem_of_nil|].
  destruct (strip_suffix s' q) eqn:Hs; [done|]. intros Hn [[= -> ->]|Hin]%elem_of_cons; [done|by apply IH].
Qed.

Lemma find_suffix_decimal number n places suf m :
  decimal number n places -> (suf, m) ∈ ("", 1) :: SUFFIXES ->
  default ((number +:+ suf)%string, 1) (find_suffix SUFFIXES (number +:+ suf)) = (number, m).
Proof.
  intros Hdec Hs.
  assert (forall l, (forall x, x ∈ l -> x ∈ SUFFIXES) -> find_suffix l (number +:+ suf) = None \/
    find_suffix l (number +:+ suf) = Some (number, m)) as Hl.
  { induction l as [|[suf' m'] l IH]; intros Hin; [by left|]. cbn.
    destruct (strip_suffix suf' (number +:+ suf)) as [rest|] eqn:Hst.
    - right. apply strip_suffix_spec in Hst.
      destruct (strip_unique _ _ _ _ _ _ m' _ Hdec Hs (Hin _ ltac:(by left)) Hst) as [-> ->]. done.
    - apply IH. intros x Hx. apply Hin. by right. }
  destruct (Hl SUFFIXES (fun x Hx => Hx)) as [Hn| ->]; [|done]. rewrite Hn. cbn.
  apply elem_of_cons in Hs as [[= -> ->]|Hs].
  - by rewrite app_empty_r.
  - pose proof (find_suffix_none _ _ _ _ Hn Hs) as Hc.
    by rewrite (proj2 (strip_suffix_spec suf (number +:+ suf) number) eq_refl) in Hc.
Qed.

Lemma fraction_bound f k :
  forallb is_ascii_digit f = true -> len f <= k -> 0 <= value f <= 10 ^ k.
Proof.
  intros Hf Hk. pose proof (value_bound f Hf). pose proof (Z.pow_le_mono_r 10 (len f) k ltac:(lia) Hk). lia.
Qed.

Definition bytes_denoted (q : string) (n : Z) : Prop :=
  exists number suffix multiplier m places,
    q = (number +:+ suffix)%string /\ (suffix, multiplier) ∈ ("", 1) :: SUFFIXES /\
    decimal number m places /\ places <= 9 /\ n = round_up (m * multiplier) places.

Lemma ok_or_ok {A} (o : option A) e (a : A) : ok_or o e = Ok a :> Result A <-> o = Some a.
Proof. destruct o; cbn; naive_solver. Qed.

Lemma bind_some {A B} (o : option A) (k : A -> option B) b : (o ≫= k) = Some b <-> exists a, o = Some a /\ k a = Some b.
Proof. destruct o; cbn; naive_solver. Qed.

Lemma bind_result {A B} (r : Result A) (k : A -> Result B) b : (r ≫= k) = Ok b <-> exists a, r = Ok a /\ k a = Ok b.
Proof. destruct r; cbn; naive_solver. Qed.

Lemma parse_fraction max f e x :
  forallb is_ascii_digit f = true ->
  (if str_is_empty (of_chars f) then Ok 0 else ok_or (parse_uint max (of_chars f)) e) = Ok x :> Result Z <->
  x = value f /\ (f = [] \/ value f <= max).
Proof.
  intros Hf. destruct f as [|c f]; [cbn; split; [intros [= <-]|intros [-> _]]; by auto|].
  rewrite (proj2 (str_is_empty_of_chars (c :: f))) by done.
  rewrite ok_or_ok, parse_uint_digits, checked_some by done. naive_solver.
Qed.

(** [parse_bytes] on the two parts of a decimal. *)
Lemma bytes_tail w f multiplier n :
  w <> [] -> forallb is_ascii_digit w = true -> forallb is_ascii_digit f = true -> len f <= 9 -> 1 <= multiplier ->
  (whole ← ok_or (parse_uint u128_max (of_chars w)) "invalid byte quantity";
   fraction ← (if str_is_empty (of_chars f) then Ok 0
               else ok_or (parse_uint u128_max (of_chars f)) "invalid byte quantity fraction");
   scaled ← ok_or (a ← checked u128_max (whole * 10 ^ len f); b ← checked u128_max (a + fraction);
                   checked u128_max (b * multiplier)) "byte quantity overflow";
   total ← ok_or (checked u128_max (scaled + saturating_sub (10 ^ len f) 1)) "byte quantity rounding overflow";
   let bytes := total / 10 ^ len f in
   ensure! 0 <? bytes else Err "byte limit must be greater than zero" ;;
   ok_or (checked u64_max bytes) "byte quantity exceeds u64") = Ok n <->
  n = round_up (value (w ++ f) * multiplier) (len f) /\ 0 < n <= u64_max.
Proof.
  intros Hn Hw Hf Hl Hm. rewrite value_app by done. unfold round_up.
  pose proof (fraction_bound f 9 Hf Hl) as Hfb. pose proof (value_bound w Hw) as Hwb.
  pose proof (Z.pow_le_mono_r 10 (len f) 9 ltac:(lia) Hl) as Hs. pose proof (Z.pow_pos_nonneg 10 (len f) ltac:(lia) (len_nonneg f)) as Hp.
  set (scale := 10 ^ len f) in *. assert (saturating_sub scale 1 = scale - 1) as -> by (unfold saturating_sub; lia).
  split.
  - intros H. apply bind_result in H as (v & Hv & H). apply bind_result in H as (x & Hx & H).
    apply bind_result in H as (y & Hy & H). apply bind_result in H as (z & Hz & H). cbn zeta in H.
    rewrite ok_or_ok, parse_uint_digits, checked_some in Hv by done. destruct Hv as [-> Hv].
    rewrite parse_fraction in Hx by done. destruct Hx as [-> Hx].
    rewrite ok_or_ok in Hy. apply bind_some in Hy as (a & Ha & Hy). apply bind_some in Hy as (b & Hb & Hy).
    apply checked_some in Ha as [-> _], Hb as [-> _], Hy as [-> _].
    rewrite ok_or_ok, checked_some in Hz. destruct Hz as [-> Hz]. destruct (0 <? _) eqn:Hpos; [|done].
    rewrite ok_or_ok, checked_some in H. destruct H as [-> Hu]. apply Z.ltb_lt in Hpos.
    rewrite Z.add_sub_assoc in *. done.
  - intros [He Hr]. pose proof (scaled_bytes (value w * scale + value f) scale multiplier n ltac:(nia) ltac:(lia) Hm He ltac:(lia)) as Hb.
    assert (value w * scale + value f <= (value w * scale + value f) * multiplier) by nia.
    assert (value w <= value w * scale) by nia.
    apply bind_result. exists (value w). rewrite ok_or_ok, parse_uint_digits, checked_some by done. split; [lia|].
    apply bind_result. exists (value f). rewrite parse_fraction by done. split; [split; [done|right; unfold u128_max in *; lia]|].
    apply bind_result. exists ((value w * scale + value f) * multiplier).
    rewrite ok_or_ok, (checked_le _ (value w * scale)) by lia. cbn. rewrite (checked_le _ (_ + value f)) by lia. cbn.
    split; [apply checked_le; lia|]. apply bind_result. eexists. rewrite ok_or_ok, checked_le by lia. split; [done|].
    cbn zeta. rewrite Z.add_sub_assoc, <- He. rewrite (proj2 (Z.ltb_lt 0 n)) by lia. rewrite ok_or_ok. apply checked_le. lia.
Qed.

Lemma parse_bytes_exact q n : parse_bytes q = Ok n <-> bytes_denoted q n /\ 0 < n <= u64_max.
Proof.
  unfold parse_bytes. split.
  - destruct (default _ _) as [number multiplier] eqn:Hs. destruct (split_decimal number) as [whole fraction] eqn:Hd.
    destruct (negb _ && _ && _ && _) eqn:Hg; [|done]. bool_props.
    destruct (split_decimal_spec _ _ _ Hd) as (w & f & -> & -> & Hn & Hw & Hf & Hdec); try done.
    rewrite str_len_of_chars in *. rewrite bytes_tail by (try done; by eapply suffix_positive).
    intros [He Hr]. split; [|done]. destruct (find_suffix_inv _ _ _ Hs) as (suffix & Hq & Hin).
    by exists number, suffix, multiplier, (value (w ++ f)), (len f).
  - intros [(number & suffix & multiplier & m & places & -> & Hin & Hdec & Hp & He) Hr].
    rewrite (find_suffix_decimal _ _ _ _ _ Hdec Hin).
    destruct (decimal_split _ _ _ Hdec) as (w & f & -> & Hn & Hw & Hf & -> & ->).
    rewrite (proj2 (str_is_empty_of_chars w) Hn), str_len_of_chars. unfold all_digits, all_char.
    rewrite !chars_of_of_chars, Hw, Hf, (proj2 (Z.leb_le (len f) 9) Hp). cbn [negb andb].
    apply bytes_tail; try done. repeat (apply elem_of_cons in Hin as [[= -> ->]|Hin]); try lia. by apply not_elem_of_nil in Hin.
Qed.

Definition cpu_denoted (q : string) (n : Z) : Prop :=
  (exists w, w <> [] /\ forallb is_ascii_digit w = true /\ n = value w /\
     (q = of_chars (w ++ ["m"%char]) \/ q = of_chars (("+"%char :: w) ++ ["m"%char]))) \/
  (exists m places, decimal q m places /\ places <= 3 /\ n = m * 10 ^ (3 - places)).

Lemma decimal_not_milli q m places : decimal q m places -> strip_suffix "m" q = None.
Proof.
  intros Hdec. destruct (strip_suffix "m" q) as [p|] eqn:Hs; [|done]. apply strip_suffix_spec in Hs.
  destruct (decimal_tail q m places "m" (rev (chars_of p)) Hdec eq_refl ltac:(done)).
  rewrite Hs. change "m" with (of_chars ["m"%char]). rewrite <- (of_chars_of p) at 1.
  by rewrite <- of_chars_app, chars_of_of_chars, rev_app_distr.
Qed.

Lemma milli_suffix q l : strip_suffix "m" q = Some (of_chars l) <-> q = of_chars (l ++ ["m"%char]).
Proof. by rewrite strip_suffix_spec, of_chars_app. Qed.

Lemma parse_milli q milli n :
  strip_suffix "m" q = Some milli -> parse_uint u32_max milli = Some n <-> cpu_denoted q n /\ n <= u32_max.
Proof.
  intros Hs. split.
  - intros (w & Hn & Hw & -> & Hle & Hm)%parse_uint_inv. split; [|done]. left. exists w. split_and!; try done.
    destruct Hm as [->| ->]; [left|right]; by apply milli_suffix in Hs.
  - intros [[(w & Hn & Hw & -> & Hq)|(m & places & Hdec & _)] Hle].
    2:{ by rewrite (decimal_not_milli _ _ _ Hdec) in Hs. }
    destruct Hq as [->| ->].
    + rewrite (proj2 (milli_suffix _ w) eq_refl) in Hs. injection Hs as <-. rewrite parse_uint_digits by done. by apply checked_le.
    + rewrite (proj2 (milli_suffix _ ("+"%char :: w)) eq_refl) in Hs. injection Hs as <-. unfold parse_uint.
      change (chars_of _) with (chars_of (of_chars ("+"%char :: w))). rewrite chars_of_of_chars, bool_decide_true by done.
      destruct (digits_all w Hw) as (ds & Hd & Hlen & _). unfold value in *. rewrite Hd in *. cbn [fst] in *.
      destruct ds, w; try done. by apply checked_le.
Qed.

Lemma cpu_tail w f n :
  w <> [] -> forallb is_ascii_digit w = true -> forallb is_ascii_digit f = true -> len f <= 3 ->
  (whole ← ok_or (parse_uint u32_max (of_chars w)) "invalid CPU quantity";
   let fractional := pad_fraction (of_chars f) in
   fractional ← (if str_is_empty fractional then Ok 0
                 else ok_or (parse_uint u32_max fractional) "invalid CPU fraction");
   milli ← ok_or (value ← checked u32_max (whole * 1000); checked u32_max (value + fractional))
             "CPU quantity overflow";
   ensure! 0 <? milli else Err "CPU limit must be greater than zero" ;;
   Ok milli) = Ok n <->
  n = value (w ++ f) * 10 ^ (3 - len f) /\ 0 < n <= u32_max.
Proof.
  intros Hn Hw Hf Hl. unfold pad_fraction. rewrite chars_of_of_chars, length_of_chars.
  set (padded := f ++ replicate (3 - length f) "0"%char).
  assert (value padded = value f * 10 ^ (3 - len f)) as Hpad.
  { unfold padded. rewrite value_zeros by done. repeat f_equal. unfold len in *. lia. }
  assert (forallb is_ascii_digit padded = true) as Hpd by (unfold padded; by rewrite forallb_app, Hf, zeros_digits).
  assert (len padded = 3) as Hlen by (unfold padded, len in *; rewrite length_app, length_replicate; lia).
  assert (value (w ++ f) * 10 ^ (3 - len f) = value w * 1000 + value padded) as ->.
  { rewrite value_app, Hpad by done. replace 1000 with (10 ^ len f * 10 ^ (3 - len f)); [ring|].
    rewrite <- Z.pow_add_r by (pose proof (len_nonneg f); lia). by replace (len f + (3 - len f)) with 3 by lia. }
  pose proof (value_bound w Hw) as Hwb. pose proof (fraction_bound padded 3 Hpd ltac:(lia)) as Hpb.
  rewrite bind_result. split.
  - intros (x & Hx & H). cbn zeta in H. apply bind_result in H as (y & Hy & H). apply bind_result in H as (z & Hz & H).
    rewrite ok_or_ok, parse_uint_digits, checked_some in Hx by done. destruct Hx as [-> Hx].
    rewrite parse_fraction in Hy by done. destruct Hy as [-> Hy]. rewrite ok_or_ok in Hz.
    apply bind_some in Hz as (a & Ha & Hz). apply checked_some in Ha as [-> Ha], Hz as [-> Hz].
    destruct (0 <? _) eqn:Hpos; [|done]. injection H as <-. apply Z.ltb_lt in Hpos. lia.
  - intros [-> Hr]. exists (value w). rewrite ok_or_ok, parse_uint_digits, checked_some by done. split; [lia|]. cbn zeta.
    apply bind_result. exists (value padded). rewrite parse_fraction by done. split; [split; [done|right; unfold u32_max; lia]|].
    apply bind_result. eexists. rewrite ok_or_ok, checked_le by lia. cbn. rewrite checked_le by lia. split; [done|].
    by rewrite (proj2 (Z.ltb_lt 0 _)) by lia.
Qed.

Lemma parse_cpu_exact q n : parse_cpu q = Ok n <-> cpu_denoted q n /\ 0 < n <= u32_max.
Proof.
  unfold parse_cpu. destruct (strip_suffix "m" q) as [milli|] eqn:Hs.
  - rewrite bind_result. setoid_rewrite ok_or_ok. split.
    + intros (x & Hx & H). destruct (0 <? x) eqn:Hpos; [|done]. injection H as <-. apply Z.ltb_lt in Hpos.
      apply (parse_milli _ _ _ Hs) in Hx. naive_solver.
    + intros [Hd Hr]. exists n. rewrite (parse_milli _ _ _ Hs). split; [by split; [|lia]|].
      by rewrite (proj2 (Z.ltb_lt 0 _)) by lia.
  - destruct (split_decimal q) as [whole fraction] eqn:Hd. split.
    + destruct (negb _ && _ && _ && _) eqn:Hg; [|done]. bool_props.
      destruct (split_decimal_spec _ _ _ Hd) as (w & f & -> & -> & Hn & Hw & Hf & Hdec); try done.
      rewrite str_len_of_chars in *. rewrite cpu_tail by done. intros [He Hr]. split; [|done]. right. by eauto 10.
    + intros [[(w & Hn & Hw & -> & [->| ->])|(m & places & Hdec & Hp & He)] Hr];
        [by rewrite (proj2 (milli_suffix _ w) eq_refl) in Hs
        |by rewrite (proj2 (milli_suffix _ ("+"%char :: w)) eq_refl) in Hs|].
      destruct (decimal_split _ _ _ Hdec) as (w & f & Hsp & Hn & Hw & Hf & -> & ->).
      rewrite Hd in Hsp. injection Hsp as -> ->.
      rewrite (proj2 (str_is_empty_of_chars w) Hn), str_len_of_chars. unfold all_digits, all_char.
      rewrite !chars_of_of_chars, Hw, Hf, (proj2 (Z.leb_le (len f) 3) Hp). cbn [negb andb]. by apply cpu_tail.
Qed.

(** C38. Reading a resource quantity is exact.  A byte quantity is accepted with
    the value [n] exactly when it is a decimal number with at most nine places
    and a known unit, [n] is the least whole number of bytes not below it, and
    [n] is positive and fits 64 bits; a CPU quantity exactly when it is a number
    of millicores or a decimal number of cores with at most three places, [n] is
    that many millicores, and [n] is positive and fits 32 bits.  No intermediate
    overflow refuses a quantity that fits, and none is undercounted. *)
Theorem quantities_exact (q : string) (n : Z) :
  (parse_bytes q = Ok n <-> bytes_denoted q n /\ 0 < n <= u64_max) /\
  (parse_cpu q = Ok n <-> cpu_denoted q n /\ 0 < n <= u32_max).
Proof. split; [apply parse_bytes_exact|apply parse_cpu_exact]. Qed.

End Quantities.
