(* ===== verification/Manifest.v ===== *)
(** * Manifests (shared/protocol/src/manifest_yaml.rs, podmesh_annotations.rs)

    The YAML and JSON values a Kubernetes manifest is read into, what is read
    from its documents, and the replica count that podctl lifts out of them. *)

From S2P Require Import Prelude Net Text Crypto Signed Registration Quantities.
From Stdlib Require Import Ascii.
From Stdlib Require SpecFloat.

(** serde_yaml's and serde_json's numbers. *)
Inductive Number :=
| PosInt (n : Z)
| NegInt (n : Z)
| Float (f : SpecFloat.spec_float).

#[export] Instance Number_eq_dec : EqDecision Number.
Proof. assert (EqDecision SpecFloat.spec_float) by solve_decision. solve_decision. Defined.

Module Yaml.

(** [serde_yaml::Value]; a mapping keeps the order of its keys, and a value may
    carry a tag of its own. *)
Inductive Value :=
| Null
| Bool (b : bool)
| Num (n : Number)
| Str (s : string)
| Sequence (l : list Value)
| Mapping (m : list (Value * Value))
| Tagged (tag : string) (v : Value).

(** The entry of a string key. *)
Fixpoint mapping_get (k : string) (m : list (Value * Value)) : option Value :=
  match m with
  | [] => None
  | (Str k', v) :: m => if bool_decide (k = k') then Some v else mapping_get k m
  | _ :: m => mapping_get k m
  end.

(** [Mapping::insert]: the entry is replaced where it is, or appended. *)
Fixpoint mapping_insert (k : string) (v : Value) (m : list (Value * Value)) : list (Value * Value) :=
  match m with
  | [] => [(Str k, v)]
  | (Str k', v') :: m => if bool_decide (k = k') then (Str k', v) :: m else (Str k', v') :: mapping_insert k v m
  | e :: m => e :: mapping_insert k v m
  end.

(** The accessors look through the tags of a value. *)
Fixpoint untag (v : Value) : Value := match v with Tagged _ v => untag v | _ => v end.

Definition is_null (v : Value) : bool := match untag v with Null => true | _ => false end.
Definition as_str (v : Value) : option string := match untag v with Str s => Some s | _ => None end.
Definition as_u64 (v : Value) : option Z := match untag v with Num (PosInt n) => Some n | _ => None end.
Definition as_sequence (v : Value) : option (list Value) := match untag v with Sequence l => Some l | _ => None end.
Definition as_mapping (v : Value) : option (list (Value * Value)) := match untag v with Mapping m => Some m | _ => None end.
Definition get (v : Value) (k : string) : option Value :=
  match as_mapping v with Some m => mapping_get k m | None => None end.

(** Changes made through [as_mapping_mut] and [as_sequence_mut]. *)
Fixpoint map_mapping (f : list (Value * Value) -> list (Value * Value)) (v : Value) : Value :=
  match v with Mapping m => Mapping (f m) | Tagged t v => Tagged t (map_mapping f v) | _ => v end.
Fixpoint map_sequence (f : list Value -> list Value) (v : Value) : Value :=
  match v with Sequence l => Sequence (f l) | Tagged t v => Tagged t (map_sequence f v) | _ => v end.

(** A change made through the [get_mut] of a mapping or of a value: nothing
    happens when the key is missing. *)
Definition mapping_alter (k : string) (f : Value -> Value) (m : list (Value * Value)) : list (Value * Value) :=
  match mapping_get k m with Some x => mapping_insert k (f x) m | None => m end.
Definition update (k : string) (f : Value -> Value) (v : Value) : Value := map_mapping (mapping_alter k f) v.

Lemma mapping_get_insert k k' v m :
  mapping_get k (mapping_insert k' v m) = if bool_decide (k = k') then Some v else mapping_get k m.
Proof.
  induction m as [|[a x] m IH]; [cbn; by case_bool_decide|].
  destruct a as [| | |a| | |]; cbn; try done. destruct (decide (k' = a)) as [<-|Hne].
  - rewrite bool_decide_true by done. cbn. by case_bool_decide.
  - rewrite (bool_decide_false (k' = a)) by done. cbn. rewrite IH. repeat case_bool_decide; congruence.
Qed.

Lemma mapping_get_alter k k' f m :
  mapping_get k (mapping_alter k' f m) = if bool_decide (k = k') then f <$> mapping_get k m else mapping_get k m.
Proof.
  unfold mapping_alter. destruct (mapping_get k' m) as [x|] eqn:Hx; [rewrite mapping_get_insert|]; case_bool_decide; subst; by rewrite ?Hx.
Qed.

Lemma as_mapping_map f v : as_mapping (map_mapping f v) = option_map f (as_mapping v).
Proof. by induction v. Qed.

Lemma as_sequence_map f v : as_sequence (map_sequence f v) = option_map f (as_sequence v).
Proof. by induction v. Qed.

Lemma is_null_map_mapping f v : is_null (map_mapping f v) = is_null v.
Proof. by induction v. Qed.

Lemma get_update k k' f v : get (update k' f v) k = if bool_decide (k = k') then f <$> get v k else get v k.
Proof.
  unfold get, update. rewrite as_mapping_map. destruct (as_mapping v) as [m|]; [apply mapping_get_alter|by case_bool_decide].
Qed.

#[export] Instance Value_eq_dec : EqDecision Value.
Proof.
  refine (fix go (a b : Value) : Decision (a = b) :=
    match a, b with
    | Null, Null => left eq_refl
    | Bool x, Bool y => cast_if (decide (x = y))
    | Num x, Num y => cast_if (decide (x = y))
    | Str x, Str y => cast_if (decide (x = y))
    | Sequence l, Sequence r => cast_if (@list_eq_dec _ go l r)
    | Mapping l, Mapping r => cast_if (@list_eq_dec _ (@prod_eq_dec _ go _ go) l r)
    | Tagged t x, Tagged u y => cast_if_and (decide (t = u)) (go x y)
    | _, _ => right _
    end); clear go; congruence.
Defined.
End Yaml.

Module Json.

(** [serde_json::Value].  An object is a map from strings; the order in which
    this list has its entries is that of their insertion. *)
Inductive Value :=
| Null
| Bool (b : bool)
| Num (n : Number)
| Str (s : string)
| Array (l : list Value)
| Object (m : list (string * Value)).

Fixpoint object_lookup (k : string) (m : list (string * Value)) : option Value :=
  match m with
  | [] => None
  | (k', v) :: m => if bool_decide (k = k') then Some v else object_lookup k m
  end.
Fixpoint object_insert (k : string) (v : Value) (m : list (string * Value)) : list (string * Value) :=
  match m with
  | [] => [(k, v)]
  | (k', v') :: m => if bool_decide (k = k') then (k', v) :: m else (k', v') :: object_insert k v m
  end.

Definition get (v : Value) (k : string) : option Value := match v with Object m => object_lookup k m | _ => None end.
Definition as_str (v : Value) : option string := match v with Str s => Some s | _ => None end.
Definition as_u64 (v : Value) : option Z := match v with Num (PosInt n) => Some n | _ => None end.
Definition as_array (v : Value) : option (list Value) := match v with Array l => Some l | _ => None end.
Definition as_object (v : Value) : option (list (string * Value)) := match v with Object m => Some m | _ => None end.

#[export] Instance Value_eq_dec : EqDecision Value.
Proof.
  refine (fix go (a b : Value) : Decision (a = b) :=
    match a, b with
    | Null, Null => left eq_refl
    | Bool x, Bool y => cast_if (decide (x = y))
    | Num x, Num y => cast_if (decide (x = y))
    | Str x, Str y => cast_if (decide (x = y))
    | Array l, Array r => cast_if (@list_eq_dec _ go l r)
    | Object l, Object r => cast_if (@list_eq_dec _ (@prod_eq_dec string _ Value go) l r)
    | _, _ => right _
    end); clear go; congruence.
Defined.

(** [pointer("/a/b/c")] along object keys. *)
Fixpoint pointer (path : list string) (v : Value) : option Value :=
  match path with
  | [] => Some v
  | k :: path => match get v k with Some x => pointer path x | None => None end
  end.

(** A change made through [pointer_mut]. *)
Fixpoint update (path : list string) (f : Value -> Value) (v : Value) : Value :=
  match path with
  | [] => f v
  | k :: path =>
      match v with
      | Object m => match object_lookup k m with Some x => Object (object_insert k (update path f x) m) | None => v end
      | _ => v
      end
  end.

Lemma object_lookup_insert k k' v m :
  object_lookup k (object_insert k' v m) = if bool_decide (k = k') then Some v else object_lookup k m.
Proof.
  induction m as [|[a x] m IH]; cbn; [by case_bool_decide|].
  destruct (decide (k' = a)) as [<-|Hne].
  - rewrite bool_decide_true by done. cbn. by case_bool_decide.
  - rewrite (bool_decide_false (k' = a)) by done. cbn. rewrite IH. repeat case_bool_decide; congruence.
Qed.

Lemma json_get_update k path f v k' :
  get (update (k :: path) f v) k' = if bool_decide (k' = k) then update path f <$> get v k' else get v k'.
Proof.
  destruct v as [| | | | |m]; cbn; try (by case_bool_decide).
  destruct (object_lookup k m) as [x|] eqn:Hx; cbn; [rewrite object_lookup_insert|]; case_bool_decide; subst; by rewrite ?Hx.
Qed.

(** What a change along a path does to what the path leads to, and to what is
    reached by another first step. *)
Lemma pointer_update path f v x : pointer path v = Some x -> pointer path (update path f v) = Some (f x).
Proof.
  revert v. induction path as [|k path IH]; intros v; [by intros [= ->]|]. cbn [pointer].
  rewrite json_get_update, bool_decide_true by done. destruct (get v k) as [y|]; [|done]. cbn. apply IH.
Qed.

Lemma pointer_update_other k path f v k' path' :
  k' <> k -> pointer (k' :: path') (update (k :: path) f v) = pointer (k' :: path') v.
Proof. intros Hk. cbn [pointer]. by rewrite json_get_update, bool_decide_false. Qed.

Lemma pointer_sibling p k q f v k' :
  k' <> k -> pointer (p ++ [k']) (update (p ++ k :: q) f v) = pointer (p ++ [k']) v.
Proof.
  intros Hk. revert v. induction p as [|x p IH]; intros v; [by apply pointer_update_other|]. cbn [app pointer].
  rewrite json_get_update, bool_decide_true by done. destruct (get v x); [|done]. apply IH.
Qed.

Lemma pointer_app p q v : pointer (p ++ q) v = match pointer p v with Some x => pointer q x | None => None end.
Proof. revert v. induction p as [|k p IH]; intros v; [done|]. cbn. by destruct (get v k). Qed.

Lemma update_app p q f v : update (p ++ q) f v = update p (update q f) v.
Proof.
  revert v. induction p as [|k p IH]; intros v; [done|]. cbn. destruct v as [| | | | |m]; try done.
  destruct (object_lookup k m); [|done]. by rewrite IH.
Qed.
End Json.

(** serde_yaml and serde_json: the documents of a YAML stream, each of which may
    fail to parse; rendering; and conversions between the two kinds of value. *)
Class YamlSupport := {
  yaml_documents : bytes -> list (result string Yaml.Value);
  yaml_to_string : Yaml.Value -> result string string;
  json_of_yaml : Yaml.Value -> result string Json.Value;
  yaml_of_json : Json.Value -> result string Yaml.Value
}.

Module Manifest.
Import Crypto.

(** ** manifest_yaml.rs *)
Section Documents.
Context {Y : YamlSupport}.

(** The loop of [parse_yaml_documents]. *)
Fixpoint collect_documents (documents : list (Result Yaml.Value)) : Result (list Yaml.Value) :=
  match documents with
  | [] => Ok []
  | document :: documents =>
      value ← document;
      rest ← collect_documents documents;
      Ok (if Yaml.is_null value then rest else value :: rest)
  end.

Definition parse_yaml_documents_from_slice (b : bytes) : Result (list Yaml.Value) :=
  collect_documents (yaml_documents b).
Definition parse_yaml_documents_from_str (contents : string) : Result (list Yaml.Value) :=
  collect_documents (yaml_documents (as_bytes contents)).

Fixpoint collect_json (documents : list (Result Yaml.Value)) : Result (list Json.Value) :=
  match documents with
  | [] => Ok []
  | document :: documents =>
      value ← document;
      if Yaml.is_null value then collect_json documents else
      json ← json_of_yaml value;
      rest ← collect_json documents;
      Ok (json :: rest)
  end.

Definition parse_manifest_to_json (contents : string) : Result Json.Value :=
  docs ← collect_json (yaml_documents (as_bytes contents));
  match docs with
  | [] => Err "manifest file did not contain any YAML documents"
  | [doc] => Ok doc
  | _ => Ok (Json.Array docs)
  end.

Definition NEWLINE : string := String "010"%char "".

(** One rendered document, with the newline it may lack. *)
Definition render_document (doc : Yaml.Value) : Result string :=
  rendered ← yaml_to_string doc;
  Ok (if Net.ends_with NEWLINE rendered then rendered else rendered +:+ NEWLINE).

Fixpoint render_rest (docs : list Yaml.Value) : Result string :=
  match docs with
  | [] => Ok ""
  | doc :: docs =>
      rendered ← render_document doc;
      rest ← render_rest docs;
      Ok (("---" +:+ NEWLINE) +:+ rendered +:+ rest)
  end.

Definition serialize_yaml_documents (docs : list Yaml.Value) : Result string :=
  match docs with
  | [] => Ok ""
  | doc :: docs => rendered ← render_document doc; rest ← render_rest docs; Ok (rendered +:+ rest)
  end.

(** What serde_yaml documents of its renderings: reading back a rendered stream
    of documents yields the documents.  (An empty stream reads as one document,
    [Null].) *)
Class YamlLaws : Prop :=
  yaml_roundtrip docs s : docs <> [] -> serialize_yaml_documents docs = Ok s -> yaml_documents (as_bytes s) = Ok <$> docs.

(** What serde documents of converting a JSON value: strings stay strings, the
    entries of an object become those of a mapping, and the value converts
    back. *)
Class ConversionLaws : Prop := {
  json_yaml_roundtrip v y : yaml_of_json v = Ok y -> json_of_yaml y = Ok v;
  yaml_of_json_str v y : yaml_of_json v = Ok y -> Yaml.as_str y = Json.as_str v;
  yaml_of_json_get v y k : yaml_of_json v = Ok y ->
    match Json.get v k with
    | Some x => exists z, yaml_of_json x = Ok z /\ Yaml.get y k = Some z
    | None => Yaml.get y k = None
    end
}.

Lemma collect_ok docs : forallb (fun d => negb (Yaml.is_null d)) docs = true -> collect_documents (Ok <$> docs) = Ok docs.
Proof.
  induction docs as [|d docs IH]; [done|]. cbn. intros [Hd Hds]%andb_prop. rewrite (IH Hds). cbn. by destruct (Yaml.is_null d).
Qed.

Lemma parse_serialized {L : YamlLaws} docs s :
  serialize_yaml_documents docs = Ok s -> docs <> [] -> forallb (fun d => negb (Yaml.is_null d)) docs = true ->
  parse_yaml_documents_from_str s = Ok docs.
Proof. intros Hs Hne Hn. unfold parse_yaml_documents_from_str. rewrite (yaml_roundtrip _ _ Hne Hs). by apply collect_ok. Qed.

Lemma parsed_not_null l docs : collect_documents l = Ok docs -> forallb (fun d => negb (Yaml.is_null d)) docs = true.
Proof.
  revert docs. induction l as [|d l IH]; intros docs; cbn; [by intros [= <-]|].
  destruct d as [v|]; [|done]. cbn. destruct (collect_documents l) as [rest|]; [|done]. cbn. intros [= <-].
  specialize (IH rest eq_refl). destruct (Yaml.is_null v) eqn:Hv; [done|]. cbn. by rewrite Hv.
Qed.
End Documents.

(** ** podmesh_annotations.rs *)
Definition TRUST_POLICY : string := "podmesh.io/trust-policy".
Definition REPLICAS : string := "podmesh.io/replicas".
Definition LEASE_TTL : string := "podmesh.io/lease-ttl".
Definition PROXY_ENDPOINTS : string := "podmesh.io/proxy-endpoints".
Definition ANTI_AFFINITY : string := "podmesh.io/anti-affinity".

Record PodmeshAnnotations := {
  trust_policy : option string;
  replicas : option Z;
  lease_ttl_secs : option Z;
  proxy_endpoints : list string;
  anti_affinity : list string
}.

Definition default_annotations : PodmeshAnnotations :=
  {| trust_policy := None; replicas := None; lease_ttl_secs := None; proxy_endpoints := []; anti_affinity := [] |}.

Definition get_annotation (annotations : Yaml.Value) (key : string) : option string :=
  v ← Yaml.get annotations key; Yaml.as_str v.

(** A comma-separated list without empty parts. *)
Definition comma_list (value : option string) : list string :=
  match value with
  | None => []
  | Some value =>
      List.filter (fun s => negb (str_is_empty s)) (Net.trim <$> Net.split ","%char value)
  end.

Definition from_yaml_annotations (annotations : Yaml.Value) : PodmeshAnnotations :=
  {| trust_policy := get_annotation annotations TRUST_POLICY;
     replicas := s ← get_annotation annotations REPLICAS; Quantities.parse_uint u32_max s;
     lease_ttl_secs := s ← get_annotation annotations LEASE_TTL; Quantities.parse_uint u32_max s;
     proxy_endpoints := comma_list (get_annotation annotations PROXY_ENDPOINTS);
     anti_affinity := comma_list (get_annotation annotations ANTI_AFFINITY) |}.

Definition annotations_found (a : PodmeshAnnotations) : bool :=
  bool_decide (is_Some (trust_policy a)) || bool_decide (is_Some (replicas a)) ||
  bool_decide (is_Some (lease_ttl_secs a)) || negb (bool_decide (proxy_endpoints a = [])) ||
  negb (bool_decide (anti_affinity a = [])).

(** The first document with podmesh annotations; a document behind it is not
    read. *)
Fixpoint first_annotations (documents : list (Result Yaml.Value)) : Result PodmeshAnnotations :=
  match documents with
  | [] => Ok default_annotations
  | document :: documents =>
      value ← document;
      match (m ← Yaml.get value "metadata"; Yaml.get m "annotations") with
      | Some annotations =>
          let parsed := from_yaml_annotations annotations in
          if annotations_found parsed then Ok parsed else first_annotations documents
      | None => first_annotations documents
      end
  end.

Definition from_manifest_yaml {Y : YamlSupport} (yaml_str : string) : Result PodmeshAnnotations :=
  first_annotations (yaml_documents (as_bytes yaml_str)).

Definition with_defaults (a : PodmeshAnnotations) : PodmeshAnnotations :=
  {| trust_policy := trust_policy a; replicas := Some (default 1 (replicas a));
     lease_ttl_secs := Some (default 60 (lease_ttl_secs a)); proxy_endpoints := proxy_endpoints a;
     anti_affinity := anti_affinity a |}.

(** ** Replicas (manifest_yaml.rs, normalize_replicas) *)
Definition annotation_as_u64 (value : Yaml.Value) : option Z :=
  match value with
  | Yaml.Str text => Quantities.parse_uint u64_max (Net.trim text)
  | other => Yaml.as_u64 other
  end.

(** One document: what it asks for, and the document with its count pinned. *)
Definition normalize_document (desired : Z) (doc : Yaml.Value) : Z * Yaml.Value :=
  let annotated :=
    metadata ← Yaml.get doc "metadata"; annotations ← Yaml.get metadata "annotations";
    value ← Yaml.get annotations REPLICAS; annotation_as_u64 value in
  let desired := match annotated with Some a => Z.max desired a | None => desired end in
  match (spec ← Yaml.get doc "spec"; Yaml.as_mapping spec) with
  | None => (desired, doc)
  | Some spec =>
      match (v ← Yaml.mapping_get "replicas" spec; Yaml.as_u64 v) with
      | None => (desired, doc)
      | Some value =>
          (Z.max desired value,
           Yaml.update "spec" (Yaml.map_mapping (Yaml.mapping_insert "replicas" (Yaml.Num (PosInt 1)))) doc)
      end
  end.

Fixpoint normalize_loop (desired : Z) (docs : list Yaml.Value) : Z * list Yaml.Value :=
  match docs with
  | [] => (desired, [])
  | doc :: docs =>
      let (desired, doc) := normalize_document desired doc in
      let (desired, docs) := normalize_loop desired docs in (desired, doc :: docs)
  end.

Definition normalize_replicas (docs : list Yaml.Value) : Z * list Yaml.Value :=
  let (desired, docs) := normalize_loop 0 docs in (clamp desired 1 Registration.MAX_WORKLOAD_REPLICAS, docs).

End Manifest.

(** A concrete [YamlSupport]: the documents of a table are rendered as one
    letter each, and values are converted constructor by constructor. *)
Module YamlTable.
Import Crypto Manifest.

Fixpoint to_json (v : Yaml.Value) : Result Json.Value :=
  match v with
  | Yaml.Null => Ok Json.Null
  | Yaml.Bool b => Ok (Json.Bool b)
  | Yaml.Num n => Ok (Json.Num n)
  | Yaml.Str s => Ok (Json.Str s)
  | Yaml.Sequence l =>
      l ← (fix go l := match l with
                       | [] => Ok []
                       | v :: l => x ← to_json v; rest ← go l; Ok (x :: rest)
                       end) l;
      Ok (Json.Array l)
  | Yaml.Mapping m =>
      m ← (fix go m := match m with
                       | [] => Ok []
                       | (Yaml.Str k, v) :: m => x ← to_json v; rest ← go m; Ok ((k, x) :: rest)
                       | _ :: _ => Err "key must be a string"
                       end) m;
      Ok (Json.Object m)
  | Yaml.Tagged t v => x ← to_json v; Ok (Json.Object [("!" +:+ t, x)])
  end.

Fixpoint of_json (v : Json.Value) : Yaml.Value :=
  match v with
  | Json.Null => Yaml.Null
  | Json.Bool b => Yaml.Bool b
  | Json.Num n => Yaml.Num n
  | Json.Str s => Yaml.Str s
  | Json.Array l => Yaml.Sequence (map of_json l)
  | Json.Object m => Yaml.Mapping (map (fun e => (Yaml.Str e.1, of_json e.2)) m)
  end.

#[local] Existing Instance Yaml.Value_eq_dec.

Section Table.
Variable table : list Yaml.Value.

Definition letter (i : nat) : string := String (ascii_of_nat (65 + i)) "".

Definition read (b : Byte.byte) : list (Result Yaml.Value) :=
  let n := N.to_nat (Byte.to_N b) in
  if (65 <=? n)%nat && (n <? 91)%nat then [ok_or (table !! (n - 65)%nat) "unknown document"] else [].

Definition render (d : Yaml.Value) : Result string :=
  match list_find (fun x => x = d) table with
  | Some (i, _) => if (i <? 26)%nat then Ok (letter i) else Err "too many documents"
  | None => Err "unknown document"
  end.

Definition support : YamlSupport :=
  {| yaml_documents := flat_map read; yaml_to_string := render; json_of_yaml := to_json;
     yaml_of_json v := Ok (of_json v) |}.
#[local] Existing Instance support.

Lemma read_letter i rest : (i < 26)%nat ->
  flat_map read (as_bytes (letter i +:+ rest)) = ok_or (table !! i) "unknown document" :: flat_map read (as_bytes rest).
Proof.
  intros Hi. unfold as_bytes, letter. cbn [String.append String.list_byte_of_string flat_map].
  do 26 (destruct i as [|i]; [reflexivity|]). lia.
Qed.

Lemma newline_ignored rest : flat_map read (as_bytes (NEWLINE +:+ rest)) = flat_map read (as_bytes rest).
Proof. reflexivity. Qed.

Lemma letter_line i : (i < 26)%nat -> Net.ends_with NEWLINE (letter i) = false.
Proof. intros Hi. do 26 (destruct i as [|i]; [reflexivity|]). lia. Qed.

Lemma render_document_ok d s : render_document d = Ok s ->
  forall rest, flat_map read (as_bytes (s +:+ rest)) = Ok d :: flat_map read (as_bytes rest).
Proof.
  unfold render_document. cbn [yaml_to_string support]. unfold render.
  destruct (list_find _ table) as [[i x]|] eqn:Hf; [|done]. apply list_find_Some in Hf as (Hx & -> & _).
  destruct (i <? 26)%nat eqn:Hi; [|done]. apply Nat.ltb_lt in Hi. cbn [mbind]. intros H rest.
  apply Quantities.bind_result in H as (r & [= <-] & H). rewrite letter_line in H by done. injection H as <-.
  rewrite <- Text.append_assoc, read_letter, newline_ignored by done. by rewrite Hx.
Qed.

Lemma render_rest_ok docs s : render_rest docs = Ok s -> flat_map read (as_bytes s) = Ok <$> docs.
Proof.
  revert s. induction docs as [|d docs IH]; intros s; cbn [render_rest]; [by intros [= <-]|]. intros H.
  apply Quantities.bind_result in H as (r & Hr & H). apply Quantities.bind_result in H as (rest & Hrest & H). injection H as <-.
  change (flat_map read (as_bytes (r +:+ rest)) = Ok d :: (Ok <$> docs)). by rewrite (render_document_ok _ _ Hr), (IH _ Hrest).
Qed.

#[export] Instance laws : YamlLaws.
Proof.
  intros [|d docs] s; [done|]. intros _ H. cbn [serialize_yaml_documents] in H.
  apply Quantities.bind_result in H as (r & Hr & H). apply Quantities.bind_result in H as (rest & Hrest & H). injection H as <-.
  cbn [yaml_documents support]. by rewrite (render_document_ok _ _ Hr), (render_rest_ok _ _ Hrest).
Qed.

Lemma of_json_get v k : Yaml.get (of_json v) k = of_json <$> Json.get v k.
Proof.
  destruct v as [| | | | |m]; try done. cbn. induction m as [|[a x] m IH]; [done|]. cbn. by case_bool_decide.
Qed.

Lemma to_of_json v : to_json (of_json v) = Ok v.
Proof.
  revert v. fix go 1. intros [| | | |l|m]; [reflexivity..| |]; cbn.
  - assert ((fix go l := match l with [] => Ok [] | v :: l => x ← to_json v; rest ← go l; Ok (x :: rest) end)
      (map of_json l) = Ok l) as ->; [|done]. induction l as [|x l IH]; [done|]. cbn. rewrite (go x). cbn. by rewrite IH.
  - match goal with |- ?f (map ?g m) ≫= _ = _ => assert (f (map g m) = Ok m) as -> end; [|done].
    induction m as [|[k x] m IH]; [done|]. cbn. rewrite (go x). cbn. by rewrite IH.
Qed.

#[export] Instance conversions : ConversionLaws.
Proof.
  split; cbn.
  - intros v y [= <-]. apply to_of_json.
  - intros v y [= <-]. by destruct v.
  - intros v y k [= <-]. rewrite of_json_get. destruct (Json.get v k) as [x|]; [|done]. by exists (of_json x).
Qed.
End Table.
End YamlTable.
