(* ===== verification/Rego.v ===== *)
(** * The manifest policy (shared/protocol/src/manifest_policy.rs, BUILTIN_POLICY)

    The Rego rules every document of a manifest is checked against.  A query
    has a list of solutions, is undefined when it has none, and fails when a
    builtin is applied to a value of the wrong type, which the engine reports as
    an error. *)

From S2P Require Import Prelude Net Crypto Signed Quantities RustOrd Manifest.
From Stdlib Require Import Ascii.

(** What the rules leave to the engine: how a message is formatted, and what
    iterating over a value that is no collection yields. *)
Class RegoEngine := {
  sprintf : string -> list Json.Value -> result string string;
  scalar_members : Json.Value -> result string (list Json.Value)
}.

Module Rego.
Import Crypto Json.

Definition Query (A : Type) : Type := Result (list A).

Fixpoint each {A B} (f : A -> Query B) (l : list A) : Query B :=
  match l with
  | [] => Ok []
  | a :: l =>
      match f a with
      | Err e => Err e
      | Ok bs => match each f l with Err e => Err e | Ok rest => Ok (bs ++ rest) end
      end
  end.

#[export] Instance query_ret : MRet Query := fun A a => Ok [a].
#[export] Instance query_bind : MBind Query := fun A B f q => match q with Ok l => each f l | Err e => Err e end.

(** A value, no value, a condition, and an alternative definition. *)
Definition def {A} (a : A) : Query A := Ok [a].
Definition undefined {A} : Query A := Ok [].
Definition holds (b : bool) : Query unit := if b then def tt else undefined.
Definition orelse {A} (p q : Query A) : Query A :=
  match p with
  | Err e => Err e
  | Ok l => match q with Err e => Err e | Ok r => Ok (l ++ r) end
  end.

(** [not q]. *)
Definition naf {A} (q : Query A) : Query unit :=
  match q with Err e => Err e | Ok l => holds (bool_decide (length l = 0%nat)) end.

(** [every x in xs { ... }] with a condition that cannot fail. *)
Definition every {A} (f : A -> bool) (l : list A) : Query unit := holds (forallb f l).

(** [v.k]: undefined for a missing key and for a value that is no object. *)
Definition ref (v : Value) (k : string) : Query Value :=
  match get v k with Some x => def x | None => undefined end.

Definition is_true (v : Value) : bool := match v with Bool true => true | _ => false end.
Definition is_false (v : Value) : bool := match v with Bool false => true | _ => false end.
Definition is_zero (v : Value) : bool :=
  match v with
  | Num (PosInt n) | Num (NegInt n) => n =? 0
  | Num (Float (SpecFloat.S754_zero _)) => true
  | _ => false
  end.
Definition is_str (s : string) (v : Value) : bool := match v with Str x => bool_decide (x = s) | _ => false end.
Definition one_of (l : list string) (v : Value) : bool := existsb (fun s => is_str s v) l.
Definition is_object (v : Value) : bool := match v with Object _ => true | _ => false end.
Definition is_string (v : Value) : bool := match v with Str _ => true | _ => false end.

(** Builtins; a wrong operand type is an error. *)
Definition object_get (v : Value) (k : string) (d : Value) : Query Value :=
  match v with
  | Object m => def (default d (object_lookup k m))
  | _ => Err "object.get expects an object"
  end.
Definition array_concat (a b : Value) : Query Value :=
  match a, b with
  | Array l, Array r => def (Array (l ++ r))
  | _, _ => Err "array.concat expects arrays"
  end.
Definition object_union (a b : Value) : Query Value :=
  match a, b with
  | Object l, Object r => def (Object (fold_left (fun m e => object_insert e.1 e.2 m) r l))
  | _, _ => Err "object.union expects objects"
  end.
Definition count (v : Value) : Query Z :=
  match v with
  | Array l => def (len l)
  | Object m => def (len m)
  | Str s => def (len (List.filter (fun b => negb (Net.continuation b)) (as_bytes s)))
  | _ => Err "count expects a collection"
  end.
Definition str_contains (needle s : string) : bool := bool_decide (is_Some (String.index 0 needle s)).

Section Policy.
Context {E : RegoEngine}.

(** [some x in v]. *)
Definition some_in (v : Value) : Query Value :=
  match v with
  | Array l => Ok l
  | Object m => Ok m.*2
  | _ => scalar_members v
  end.
Definition message (format : string) (args : list Value) : Query string :=
  match sprintf format args with Ok s => def s | Err e => Err e end.

Section Input.
Variable input : Value.

Definition pod_spec : Query Value :=
  orelse
    (kind ← ref input "kind"; _ ← holds (is_str "Pod" kind); ref input "spec")
    (kind ← ref input "kind";
     _ ← holds (one_of ["Deployment"; "ReplicaSet"; "DaemonSet"; "StatefulSet"; "Job"; "CronJob"] kind);
     spec ← ref input "spec"; template ← ref spec "template"; ref template "spec").

Definition input_containers : Query Value := spec ← pod_spec; object_get spec "containers" (Array []).
Definition init_containers : Query Value := spec ← pod_spec; object_get spec "initContainers" (Array []).
Definition ephemeral_containers : Query Value := spec ← pod_spec; object_get spec "ephemeralContainers" (Array []).

Definition all_containers : Query Value :=
  a ← input_containers; b ← init_containers; ab ← array_concat a b; c ← ephemeral_containers; array_concat ab c.

Definition is_injected_sidecar (container : Value) : Query unit :=
  name ← ref container "name"; holds (is_str "podmesh-sidecar" name).

(** *** Container security context *)
Definition each_container : Query Value := containers ← all_containers; some_in containers.
Definition security_context (container : Value) : Query Value := object_get container "securityContext" (Object []).

Definition privileged : Query string :=
  container ← each_container;
  context ← ref container "securityContext"; v ← ref context "privileged"; _ ← holds (is_true v);
  name ← ref container "name"; message "container '%s' requests privileged: true" [name].

Definition privilege_escalation : Query string :=
  container ← each_container;
  context ← ref container "securityContext"; v ← ref context "allowPrivilegeEscalation"; _ ← holds (is_true v);
  name ← ref container "name"; message "container '%s' requests allowPrivilegeEscalation: true" [name].

Definition added_capabilities (container : Value) : Query Value :=
  context ← security_context container; capabilities ← object_get context "capabilities" (Object []);
  added ← object_get capabilities "add" (Array []); some_in added.

Definition tenant_capability : Query string :=
  container ← each_container; _ ← naf (is_injected_sidecar container);
  capability ← added_capabilities container;
  name ← ref container "name";
  message "container '%s' adds capability %s; only the injected sidecar may add capabilities" [name; capability].

Definition sidecar_capability : Query string :=
  container ← each_container; _ ← is_injected_sidecar container;
  capability ← added_capabilities container; _ ← holds (negb (is_str "NET_ADMIN" capability));
  message "injected sidecar may only add NET_ADMIN, not %s" [capability].

Definition root_user : Query string :=
  container ← each_container; _ ← naf (is_injected_sidecar container);
  context ← ref container "securityContext"; v ← ref context "runAsUser"; _ ← holds (is_zero v);
  name ← ref container "name"; message "container '%s' requests runAsUser: 0" [name].

Definition may_be_root : Query string :=
  container ← each_container; _ ← naf (is_injected_sidecar container);
  context ← ref container "securityContext"; v ← ref context "runAsNonRoot"; _ ← holds (is_false v);
  name ← ref container "name"; message "container '%s' sets runAsNonRoot: false" [name].

Definition unmasked_proc : Query string :=
  container ← each_container;
  context ← security_context container; v ← ref context "procMount"; _ ← holds (is_str "Unmasked" v);
  name ← ref container "name"; message "container '%s' requests an unmasked /proc" [name].

Definition profile_type (owner : Value) (profile : string) : Query Value :=
  context ← security_context owner; p ← object_get context profile (Object []); ref p "type".

Definition seccomp : Query string :=
  container ← each_container; t ← profile_type container "seccompProfile";
  _ ← holds (negb (one_of ["RuntimeDefault"] t));
  name ← ref container "name";
  message "container '%s' requests seccompProfile.type '%v'; only RuntimeDefault is allowed" [name; t].

Definition apparmor : Query string :=
  container ← each_container; t ← profile_type container "appArmorProfile";
  _ ← holds (negb (one_of ["RuntimeDefault"] t));
  name ← ref container "name";
  message "container '%s' requests appArmorProfile.type '%v'; only RuntimeDefault is allowed" [name; t].

Definition selinux : Query string :=
  container ← each_container;
  context ← security_context container; options ← object_get context "seLinuxOptions" (Object []);
  n ← count options; _ ← holds (0 <? n);
  name ← ref container "name"; message "container '%s' sets seLinuxOptions, which is not permitted" [name].

(** *** Pod-level namespace sharing *)
Definition pod_flag (flag : string) (m : string) : Query string :=
  spec ← pod_spec; v ← ref spec flag; _ ← holds (is_true v); def m.

Definition pod_root_user : Query string :=
  spec ← pod_spec; context ← ref spec "securityContext"; v ← ref context "runAsUser"; _ ← holds (is_zero v);
  def "pod securityContext requests runAsUser: 0".

Definition pod_may_be_root : Query string :=
  spec ← pod_spec; context ← ref spec "securityContext"; v ← ref context "runAsNonRoot"; _ ← holds (is_false v);
  def "pod securityContext sets runAsNonRoot: false".

Definition pod_seccomp : Query string :=
  spec ← pod_spec; t ← profile_type spec "seccompProfile"; _ ← holds (negb (one_of ["RuntimeDefault"] t));
  message "pod securityContext requests seccompProfile.type '%v'; only RuntimeDefault is allowed" [t].

Definition pod_apparmor : Query string :=
  spec ← pod_spec; t ← profile_type spec "appArmorProfile"; _ ← holds (negb (one_of ["RuntimeDefault"] t));
  message "pod securityContext requests appArmorProfile.type '%v'; only RuntimeDefault is allowed" [t].

Definition pod_selinux : Query string :=
  spec ← pod_spec; context ← security_context spec; options ← object_get context "seLinuxOptions" (Object []);
  n ← count options; _ ← holds (0 <? n);
  def "pod securityContext sets seLinuxOptions, which is not permitted".

Definition pod_sysctls : Query string :=
  spec ← pod_spec; context ← security_context spec; sysctls ← object_get context "sysctls" (Array []);
  n ← count sysctls; _ ← holds (0 <? n);
  def "pod securityContext sets sysctls, which is not permitted".

(** *** Annotations and host ports *)
Definition all_annotations : Query Value :=
  metadata ← object_get input "metadata" (Object []); own ← object_get metadata "annotations" (Object []);
  spec ← object_get input "spec" (Object []); template ← object_get spec "template" (Object []);
  inner ← object_get template "metadata" (Object []); templated ← object_get inner "annotations" (Object []);
  object_union own templated.

(** [some key, _ in v]. *)
Definition keys_in (v : Value) : Query string := match v with Object m => Ok m.*1 | _ => undefined end.

Definition foreign_annotation : Query string :=
  annotations ← all_annotations; key ← keys_in annotations; _ ← holds (negb (Net.starts_with "podmesh.io/" key));
  message "annotation '%s' is not allowed; only podmesh.io/* annotations are permitted" [Str key].

Definition host_port : Query string :=
  container ← each_container; ports ← object_get container "ports" (Array []); port ← some_in ports;
  v ← object_get port "hostPort" (Num (PosInt 0)); _ ← holds (negb (is_zero v));
  name ← ref container "name"; host ← ref port "hostPort";
  message "container '%s' requests hostPort %v" [name; host].

(** *** Volumes *)
Definition only_keys (allowed : list string) (v : Value) : Query unit :=
  match v with Object m => every (fun k => bool_decide (k ∈ allowed)) m.*1 | _ => undefined end.

Definition is_safe_emptydir_volume (vol : Value) : Query unit :=
  _ ← holds (is_object vol); name ← ref vol "name"; _ ← holds (is_string name); _ ← holds (negb (is_str "" name));
  dir ← ref vol "emptyDir"; _ ← holds (is_object dir);
  _ ← only_keys ["name"; "emptyDir"] vol; only_keys ["medium"; "sizeLimit"] dir.

Definition each_volume : Query Value :=
  spec ← pod_spec; volumes ← object_get spec "volumes" (Array []); some_in volumes.

Definition declared_emptydir_names : Query Value :=
  vol ← each_volume; _ ← is_safe_emptydir_volume vol; ref vol "name".

Definition unsupported_volume : Query string :=
  vol ← each_volume; _ ← naf (is_safe_emptydir_volume vol); name ← object_get vol "name" (Str "unnamed");
  message "pod declares unsupported volume '%v'; only emptyDir volumes are supported" [name].

(** A string operand. *)
Definition text (v : Value) : string := match v with Str s => s | _ => "" end.

Definition is_safe_volume_mount (mount : Value) : Query unit :=
  _ ← holds (is_object mount); name ← ref mount "name";
  _ ← match declared_emptydir_names with
      | Ok names => holds (bool_decide (name ∈ names))
      | Err e => Err e
      end;
  path ← ref mount "mountPath"; _ ← holds (is_string path);
  _ ← holds (Net.starts_with "/" (text path)); _ ← holds (negb (str_contains ".." (text path)));
  _ ← holds (negb (Net.starts_with "/var/run/podmesh" (text path)));
  _ ← holds (negb (Net.starts_with "/var/lib/podmesh-connector" (text path)));
  propagation ← object_get mount "mountPropagation" (Str "None"); _ ← holds (one_of ["None"; ""] propagation);
  expr ← object_get mount "subPathExpr" (Str ""); holds (is_str "" expr).

Definition unsupported_mount : Query string :=
  container ← each_container; _ ← naf (is_injected_sidecar container);
  mounts ← object_get container "volumeMounts" (Array []); mount ← some_in mounts;
  _ ← naf (is_safe_volume_mount mount);
  name ← ref container "name"; mounted ← object_get mount "name" (Str "unnamed");
  message "container '%s' declares unsupported volumeMount '%v'; only mounts of declared emptyDir volumes are supported"
    [name; mounted].

(** *** All rules *)
Definition rules : list (Query string) :=
  [privileged; privilege_escalation; tenant_capability; sidecar_capability; root_user; may_be_root; unmasked_proc;
   seccomp; apparmor; selinux;
   pod_flag "hostNetwork" "pod requests hostNetwork"; pod_flag "hostPID" "pod requests hostPID";
   pod_flag "hostIPC" "pod requests hostIPC";
   pod_flag "shareProcessNamespace"
     "pod requests shareProcessNamespace, which exposes the sidecar's environment to the application";
   pod_root_user; pod_may_be_root;
   pod_flag "hostUsers" "pod requests hostUsers, disabling user-namespace isolation";
   pod_seccomp; pod_apparmor; pod_selinux; pod_sysctls; foreign_annotation; host_port; unsupported_volume;
   unsupported_mount].

(** The set of messages, in the order of its elements. *)
Definition violations : Result (list string) :=
  match each id rules with
  | Ok messages => Ok (RustOrd.sort_unstable RustOrd.str_compare (remove_dups messages))
  | Err e => Err e
  end.

(** [allow]: there are no violations. *)
Definition allow : Result bool := v ← violations; Ok (len v =? 0).
End Input.
End Policy.
End Rego.
