(* ===== verification/Policy.v ===== *)
(** * Validating, defaulting and measuring manifests
    (shared/protocol/src/manifest_policy.rs, manifest_resources.rs)

    A manifest is accepted when its documents have a supported shape and break
    no rule of Rego.v; the containers of an accepted manifest get default
    resource limits, and what all of them may consume is added up. *)

From stdpp Require Import pretty.
From S2P Require Import Prelude Net Crypto Signed Quantities Manifest Rego.
#[local] Open Scope Z_scope.

(** [ManifestResources] of manifest_resources.rs. *)
Record ManifestResources := { res_cpu_milli : Z; res_memory_bytes : Z; res_storage_bytes : Z }.

Module Policy.
Import Crypto Manifest.

Definition SUPPORTED_POD_KINDS : list string := ["Pod"; "Deployment"].
Definition SUPPORTED_AUXILIARY_KINDS : list string := ["Service"; "Ingress"].
Definition DEFAULT_CPU_LIMIT : string := "100m".
Definition DEFAULT_MEMORY_LIMIT : string := "128Mi".
Definition DEFAULT_STORAGE_LIMIT : string := "1Gi".
Definition DEFAULT_CPU_REQUEST : string := "50m".
Definition DEFAULT_MEMORY_REQUEST : string := "64Mi".
Definition DEFAULT_STORAGE_REQUEST : string := "512Mi".
Definition CONTAINER_FIELDS : list string := ["containers"; "initContainers"].

(** [anyhow]'s [context] on an error that is only displayed. *)
Definition with_context {A} (m : string) (r : Result A) : Result A :=
  match r with Ok a => Ok a | Err _ => Err m end.

(** ** The shape of the documents *)
Definition pod_path (kind : string) : option (list string) :=
  if bool_decide (kind = "Pod") then Some ["spec"]
  else if bool_decide (kind = "Deployment") then Some ["spec"; "template"; "spec"]
  else None.

Fixpoint get_path (path : list string) (v : Yaml.Value) : option Yaml.Value :=
  match path with
  | [] => Some v
  | k :: path => x ← Yaml.get v k; get_path path x
  end.

Fixpoint update_path (path : list string) (f : Yaml.Value -> Yaml.Value) (v : Yaml.Value) : Yaml.Value :=
  match path with
  | [] => f v
  | k :: path => Yaml.update k (update_path path f) v
  end.

Definition kind_of (document : Yaml.Value) : option string := v ← Yaml.get document "kind"; Yaml.as_str v.
Definition pod_spec (document : Yaml.Value) (kind : string) : option Yaml.Value :=
  path ← pod_path kind; get_path path document.

Definition at_document (index : nat) (m : string) : string := "document " +:+ pretty (N.of_nat index) +:+ ": " +:+ m.

(** Whether the document counts as a pod, and what is wrong with it. *)
Definition document_shape (index : nat) (document : Yaml.Value) : bool * list string :=
  match kind_of document with
  | None => (false, [at_document index "kind is required"])
  | Some kind =>
      if bool_decide (kind ∈ SUPPORTED_POD_KINDS) then
        (true,
         match pod_spec document kind with
         | None => [at_document index (kind +:+ " does not contain a pod specification")]
         | Some spec =>
             match (v ← Yaml.get spec "ephemeralContainers"; Yaml.as_sequence v) with
             | Some (_ :: _) => [at_document index "ephemeralContainers are not supported"]
             | _ => []
             end ++
             if bool_decide (kind = "Deployment") then
               match (s ← Yaml.get document "spec"; Yaml.get s "replicas") with
               | Some replicas =>
                   if bool_decide (Yaml.as_u64 replicas = Some 1) then []
                   else [at_document index "Deployment spec.replicas must be exactly 1"]
               | None => []
               end
             else []
         end)
      else if bool_decide (kind ∈ SUPPORTED_AUXILIARY_KINDS) then (false, [])
      else (false, [at_document index ("manifest kind " +:+ kind +:+ " is not supported")])
  end.

Fixpoint shape_loop (index : nat) (documents : list Yaml.Value) : Z * list string :=
  match documents with
  | [] => (0, [])
  | document :: documents =>
      let (pod, wrong) := document_shape index document in
      let (pods, rest) := shape_loop (S index) documents in
      (saturating_add usize_max (if pod : bool then 1 else 0) pods, wrong ++ rest)
  end.

Definition validate_document_shape (documents : list Yaml.Value) : list string :=
  let (pod_documents, violations) := shape_loop 0 documents in
  violations ++
  (if pod_documents =? 1 then []
   else ["manifest must contain exactly one Pod or Deployment document, found " +:+ pretty (Z.to_N pod_documents)]).

(** ** Resource defaults *)

(** A value set under a key the mapping lacks. *)
Definition or_insert (key : string) (v : Yaml.Value) (m : list (Yaml.Value * Yaml.Value)) : list (Yaml.Value * Yaml.Value) :=
  match Yaml.mapping_get key m with Some _ => m | None => Yaml.mapping_insert key v m end.
Definition default_entry (key value : string) (m : list (Yaml.Value * Yaml.Value)) : list (Yaml.Value * Yaml.Value) :=
  or_insert key (Yaml.Str value) m.

(** [limits] or [requests]: created when missing, filled when a mapping. *)
Definition default_section (section cpu memory storage : string) (resources : list (Yaml.Value * Yaml.Value))
    : list (Yaml.Value * Yaml.Value) :=
  Yaml.mapping_alter section
    (Yaml.map_mapping (fun entries =>
       default_entry "ephemeral-storage" storage (default_entry "memory" memory (default_entry "cpu" cpu entries))))
    (or_insert section (Yaml.Mapping []) resources).

Definition inject_resource_defaults (container : Yaml.Value) : Yaml.Value :=
  Yaml.map_mapping (fun m =>
    Yaml.mapping_alter "resources"
      (Yaml.map_mapping (fun resources =>
         default_section "requests" DEFAULT_CPU_REQUEST DEFAULT_MEMORY_REQUEST DEFAULT_STORAGE_REQUEST
           (default_section "limits" DEFAULT_CPU_LIMIT DEFAULT_MEMORY_LIMIT DEFAULT_STORAGE_LIMIT resources)))
      (or_insert "resources" (Yaml.Mapping []) m)) container.

(** The container list [containers_mut] points at, changed. *)
Definition mutate_field (field : string) (doc : Yaml.Value) : Yaml.Value :=
  match (kind ← kind_of doc; pod_path kind) with
  | Some path =>
      update_path (path ++ [field]) (Yaml.map_sequence (map inject_resource_defaults)) doc
  | None => doc
  end.

Definition mutate_document_defaults (doc : Yaml.Value) : Yaml.Value :=
  fold_left (fun doc field => mutate_field field doc) CONTAINER_FIELDS doc.

(** ** The engine *)
Record PolicyResult := {
  allowed : bool;
  violations : list string;
  mutated_manifest : option string
}.

Section Engine.
Context {Y : YamlSupport} {E : RegoEngine}.

Definition mutate_manifest_defaults (manifest_yaml : string) : Result string :=
  docs ← with_context "failed to parse manifest for mutation" (parse_yaml_documents_from_str manifest_yaml);
  with_context "failed to serialize mutated manifest" (serialize_yaml_documents (mutate_document_defaults <$> docs)).

(** The loop over the documents: whether all are allowed, and the violations. *)
Fixpoint validate_loop (several : bool) (index : nat) (docs : list Yaml.Value) : Result (bool * list string) :=
  match docs with
  | [] => Ok (true, [])
  | doc :: docs =>
      input ← with_context ("failed to convert document " +:+ pretty (N.of_nat index) +:+ " to JSON") (json_of_yaml doc);
      allowed ← with_context "failed to evaluate allow rule" (Rego.allow input);
      found ← with_context "failed to evaluate violations rule" (Rego.violations input);
      '(rest_allowed, rest) ← validate_loop several (S index) docs;
      Ok (allowed && rest_allowed, (if several then at_document index <$> found else found) ++ rest)
  end.

Definition validate (manifest_yaml : string) : Result PolicyResult :=
  docs ← with_context "failed to parse manifest YAML" (parse_yaml_documents_from_str manifest_yaml);
  ensure! negb (bool_decide (docs = [])) else Err "manifest contains no documents" ;;
  let shape := validate_document_shape docs in
  '(all_allowed, found) ← validate_loop (1 <? len docs) 0 docs;
  let all_allowed := bool_decide (shape = []) && all_allowed in
  mutated ← (if all_allowed then mutated ← mutate_manifest_defaults manifest_yaml; Ok (Some mutated) else Ok None);
  Ok {| allowed := all_allowed; violations := shape ++ found; mutated_manifest := mutated |}.

Definition join (sep : string) (l : list string) : string :=
  match l with [] => "" | s :: l => fold_left (fun acc x => acc +:+ sep +:+ x) l s end.

Definition validate_and_mutate (manifest_yaml : string) : Result string :=
  result ← validate manifest_yaml;
  ensure! allowed result
    else Err (if bool_decide (violations result = []) then "manifest rejected by policy"
              else "manifest rejected by policy: " +:+ join "; " (violations result)) ;;
  ok_or (mutated_manifest result) "internal error: allowed manifest has no mutation result".

(** ** Measuring (manifest_resources.rs) *)
Definition containers (document : Yaml.Value) (field : string) : option (list Yaml.Value) :=
  kind ← kind_of document;
  spec ← get_path (if bool_decide (kind = "Pod") then ["spec"] else ["spec"; "template"; "spec"]) document;
  list ← Yaml.get spec field; Yaml.as_sequence list.

Definition required_quantity (limits : Yaml.Value) (key : string) : Result string :=
  ok_or (v ← Yaml.get limits key; Yaml.as_str v) ("resource limit " +:+ key +:+ " must be a string quantity").

Definition measure_container (total : Z * Z * Z) (container : Yaml.Value) : Result (Z * Z * Z) :=
  let '(cpu_milli, memory_bytes, storage_bytes) := total in
  limits ← ok_or (r ← Yaml.get container "resources"; Yaml.get r "limits") "container resource limits are required";
  quantity ← required_quantity limits "cpu"; cpu ← Quantities.parse_cpu quantity;
  cpu_milli ← ok_or (Quantities.checked u64_max (cpu_milli + cpu)) "aggregate CPU limit overflow";
  quantity ← required_quantity limits "memory"; memory ← Quantities.parse_bytes quantity;
  memory_bytes ← ok_or (Quantities.checked u64_max (memory_bytes + memory)) "aggregate memory limit overflow";
  quantity ← required_quantity limits "ephemeral-storage"; storage ← Quantities.parse_bytes quantity;
  storage_bytes ← ok_or (Quantities.checked u64_max (storage_bytes + storage)) "aggregate storage limit overflow";
  Ok (cpu_milli, memory_bytes, storage_bytes).

Fixpoint measure_loop (total : Z * Z * Z) (l : list Yaml.Value) : Result (Z * Z * Z) :=
  match l with
  | [] => Ok total
  | container :: l => total ← measure_container total container; measure_loop total l
  end.

(** The containers in the order the loops reach them. *)
Definition measured_containers (documents : list Yaml.Value) : list Yaml.Value :=
  flat_map (fun document => flat_map (fun field => default [] (containers document field)) CONTAINER_FIELDS) documents.

Definition validate_and_measure_manifest (manifest : bytes) : Result (bytes * ManifestResources) :=
  manifest ← ok_or (Net.from_utf8 manifest) "workload manifest must be UTF-8";
  mutated ← validate_and_mutate manifest;
  documents ← parse_yaml_documents_from_str mutated;
  '(cpu_milli, memory_bytes, storage_bytes) ← measure_loop (0, 0, 0) (measured_containers documents);
  ensure! 0 <? len (measured_containers documents) else Err "workload contains no containers" ;;
  cpu_milli ← ok_or (Quantities.checked u32_max cpu_milli) "aggregate CPU exceeds u32";
  Ok (as_bytes mutated,
      {| res_cpu_milli := cpu_milli; res_memory_bytes := memory_bytes; res_storage_bytes := storage_bytes |}).

(** ** The reservation of a deployment *)
Definition DEFAULT_SIDECAR_CPU_MILLI : Z := 100.
Definition DEFAULT_SIDECAR_MEMORY_BYTES : Z := 128 * 1024 * 1024.
Definition DEFAULT_SIDECAR_STORAGE_BYTES : Z := 1024 * 1024 * 1024.

Definition with_default_sidecar (r : ManifestResources) : Result ManifestResources :=
  cpu ← ok_or (Quantities.checked u32_max (res_cpu_milli r + DEFAULT_SIDECAR_CPU_MILLI))
    "CPU limit overflow after sidecar injection";
  memory ← ok_or (Quantities.checked u64_max (res_memory_bytes r + DEFAULT_SIDECAR_MEMORY_BYTES))
    "memory limit overflow after sidecar injection";
  storage ← ok_or (Quantities.checked u64_max (res_storage_bytes r + DEFAULT_SIDECAR_STORAGE_BYTES))
    "storage limit overflow after sidecar injection";
  Ok {| res_cpu_milli := cpu; res_memory_bytes := memory; res_storage_bytes := storage |}.

(** ** What an accepted manifest is *)

(** A pod or a deployment of one pod without ephemeral containers. *)
Definition is_pod_document (d : Yaml.Value) : Prop :=
  exists kind spec, kind_of d = Some kind /\ kind ∈ SUPPORTED_POD_KINDS /\ pod_spec d kind = Some spec /\
    (forall l, (v ← Yaml.get spec "ephemeralContainers"; Yaml.as_sequence v) = Some l -> l = []) /\
    (kind = "Deployment" -> forall v, (s ← Yaml.get d "spec"; Yaml.get s "replicas") = Some v -> Yaml.as_u64 v = Some 1).

Definition is_auxiliary (d : Yaml.Value) : Prop := exists kind, kind_of d = Some kind /\ kind ∈ SUPPORTED_AUXILIARY_KINDS.

Definition well_shaped (docs : list Yaml.Value) : Prop :=
  exists before pod after, docs = before ++ pod :: after /\ is_pod_document pod /\
    Forall is_auxiliary before /\ Forall is_auxiliary after.

Definition breaks_no_rule (d : Yaml.Value) : Prop := exists input, json_of_yaml d = Ok input /\ Rego.violations input = Ok [].

(** The string under a key. *)
Definition text (v : Yaml.Value) (k : string) : option string := x ← Yaml.get v k; Yaml.as_str x.

(** [consumes c (cpu, memory, storage)]: the limits of [c] denote these. *)
Definition consumes (c : Yaml.Value) (m : Z * Z * Z) : Prop :=
  exists limits cpu memory storage,
    (r ← Yaml.get c "resources"; Yaml.get r "limits") = Some limits /\
    text limits "cpu" = Some cpu /\ Quantities.cpu_denoted cpu m.1.1 /\ 0 < m.1.1 <= u32_max /\
    text limits "memory" = Some memory /\ Quantities.bytes_denoted memory m.1.2 /\ 0 < m.1.2 <= u64_max /\
    text limits "ephemeral-storage" = Some storage /\ Quantities.bytes_denoted storage m.2 /\ 0 < m.2 <= u64_max.

Definition total (f : Z * Z * Z -> Z) (l : list (Z * Z * Z)) : Z := fold_right (fun m acc => f m + acc) 0 l.

(** The containers and init containers a document lists where its kind has the
    specification of a pod: a deployment, and any other kind, below its
    template. *)
Definition every_container (d : Yaml.Value) : list Yaml.Value :=
  let pod := if bool_decide (text d "kind" = Some "Pod") then ["spec"] else ["spec"; "template"; "spec"] in
  let listed field := default [] (v ← get_path (pod ++ [field]) d; Yaml.as_sequence v) in
  listed "containers" ++ listed "initContainers".

(** *** What has its defaults

    The relations below say what is kept and what is added key by key. *)

(** Every entry is kept, and a default is there for each key that was missing. *)
Definition filled (defaults : list (string * string)) (before after : option Yaml.Value) : Prop :=
  match before with
  | None => exists v, after = Some v /\ forall k, Yaml.get v k = Yaml.Str <$> (list_to_map defaults : gmap string string) !! k
  | Some v0 =>
      if bool_decide (is_Some (Yaml.as_mapping v0)) then
        exists v, after = Some v /\
          (forall k x, Yaml.get v0 k = Some x -> Yaml.get v k = Some x) /\
          (forall k, Yaml.get v0 k = None -> Yaml.get v k = Yaml.Str <$> (list_to_map defaults : gmap string string) !! k)
      else after = before
  end.

(** The resources of a container. *)
Definition resources_defaulted (before after : option Yaml.Value) : Prop :=
  let v0 := default (Yaml.Mapping []) before in
  if bool_decide (is_Some (Yaml.as_mapping v0)) then
    exists v, after = Some v /\
      filled [("cpu", "100m"); ("memory", "128Mi"); ("ephemeral-storage", "1Gi")] (Yaml.get v0 "limits") (Yaml.get v "limits") /\
      filled [("cpu", "50m"); ("memory", "64Mi"); ("ephemeral-storage", "512Mi")] (Yaml.get v0 "requests") (Yaml.get v "requests") /\
      (forall k, k <> "limits" -> k <> "requests" -> Yaml.get v k = Yaml.get v0 k)
  else after = before.

Definition container_defaulted (c c' : Yaml.Value) : Prop :=
  if bool_decide (is_Some (Yaml.as_mapping c)) then
    resources_defaulted (Yaml.get c "resources") (Yaml.get c' "resources") /\
    (forall k, k <> "resources" -> Yaml.get c' k = Yaml.get c k)
  else c' = c.

(** A list of containers: no container is added, dropped or moved. *)
Definition list_defaulted (before after : option Yaml.Value) : Prop :=
  match (v ← before; Yaml.as_sequence v) with
  | None => after = before
  | Some l => exists v l', after = Some v /\ Yaml.as_sequence v = Some l' /\ Forall2 container_defaulted l l'
  end.

Definition spec_defaulted (s s' : Yaml.Value) : Prop :=
  list_defaulted (Yaml.get s "containers") (Yaml.get s' "containers") /\
  list_defaulted (Yaml.get s "initContainers") (Yaml.get s' "initContainers") /\
  (forall k, k <> "containers" -> k <> "initContainers" -> Yaml.get s' k = Yaml.get s k).

(** The values agree but for what the path leads to, which [R] relates. *)
Fixpoint along (R : Yaml.Value -> Yaml.Value -> Prop) (path : list string) (v v' : Yaml.Value) : Prop :=
  match path with
  | [] => R v v'
  | k :: path =>
      (forall k', k' <> k -> Yaml.get v' k' = Yaml.get v k') /\
      match Yaml.get v k with
      | Some x => exists x', Yaml.get v' k = Some x' /\ along R path x x'
      | None => Yaml.get v' k = None
      end
  end.

Definition document_defaulted (d d' : Yaml.Value) : Prop :=
  if bool_decide (text d "kind" = Some "Pod") then along spec_defaulted ["spec"] d d'
  else if bool_decide (text d "kind" = Some "Deployment") then along spec_defaulted ["spec"; "template"; "spec"] d d'
  else d' = d.

Lemma document_shape_ok index d pod :
  document_shape index d = (pod, []) -> if pod then is_pod_document d else is_auxiliary d.
Proof.
  unfold document_shape. destruct (kind_of d) as [kind|] eqn:Hk; [|done].
  case_bool_decide as Hpod; [|case_bool_decide as Haux; [intros [= <-]; by exists kind|by destruct pod]].
  intros [= <- Hw]. destruct (pod_spec d kind) as [spec|] eqn:Hs; [|done]. apply app_eq_nil in Hw as [He Hr].
  exists kind, spec. split_and!; try done.
  - intros l Hl. rewrite Hl in He. by destruct l.
  - intros ->. rewrite bool_decide_true in Hr by done. intros v Hv. rewrite Hv in Hr. by case_bool_decide.
Qed.

Lemma shape_loop_ok index docs n :
  shape_loop index docs = (n, []) ->
  0 <= n /\ (n = 0 -> Forall is_auxiliary docs) /\ (n = 1 -> well_shaped docs).
Proof.
  revert index n. induction docs as [|d docs IH]; intros index n; cbn [shape_loop].
  { intros [= <-]. split_and!; [done|by constructor|done]. }
  destruct (document_shape index d) as [pod wrong] eqn:Hd. destruct (shape_loop (S index) docs) as [k rest] eqn:Hl.
  intros [= <- [-> ->]%app_eq_nil]. specialize (IH _ _ Hl) as (Hk & H0 & H1). apply document_shape_ok in Hd.
  unfold saturating_add, usize_max. destruct pod.
  - split_and!; [lia|lia|]. intros Hn. exists [], d, docs. split_and!; try done. apply H0. lia.
  - split_and!; [lia|intros Hn; constructor; [done|apply H0; lia]|]. intros Hn.
    destruct H1 as (before & p & after & -> & Hp & Hb & Ha); [lia|]. exists (d :: before), p, after. by repeat constructor.
Qed.

Lemma shape_ok docs : validate_document_shape docs = [] -> well_shaped docs.
Proof.
  unfold validate_document_shape. destruct (shape_loop 0 docs) as [n wrong] eqn:Hs.
  intros [-> Hn]%app_eq_nil. destruct (n =? 1) eqn:H1; [|done]. apply Z.eqb_eq in H1. by eapply shape_loop_ok.
Qed.

Lemma with_context_ok {A} m (r : Result A) a : with_context m r = Ok a -> r = Ok a.
Proof. by destruct r. Qed.

Lemma validate_loop_ok several index docs found :
  validate_loop several index docs = Ok (true, found) -> Forall breaks_no_rule docs.
Proof.
  revert index found. induction docs as [|d docs IH]; intros index found; [by constructor|]. cbn [validate_loop].
  intros H. apply Quantities.bind_result in H as (input & Hi%with_context_ok & H).
  apply Quantities.bind_result in H as (allowed & Ha%with_context_ok & H).
  apply Quantities.bind_result in H as (vs & Hv%with_context_ok & H).
  apply Quantities.bind_result in H as ([rest_allowed rest] & Hr & H). injection H as [-> ->]%andb_prop _.
  constructor; [|by eapply IH]. exists input. split; [done|]. unfold Rego.allow in Ha. rewrite Hv in *. cbn in Ha.
  injection Ha as Hl. by destruct vs.
Qed.

Lemma validate_and_mutate_ok manifest mutated :
  validate_and_mutate manifest = Ok mutated ->
  exists docs, parse_yaml_documents_from_str manifest = Ok docs /\ well_shaped docs /\ Forall breaks_no_rule docs /\
    serialize_yaml_documents (mutate_document_defaults <$> docs) = Ok mutated.
Proof.
  unfold validate_and_mutate, validate. intros H. apply Quantities.bind_result in H as (r & Hr & H).
  apply Quantities.bind_result in Hr as (docs & Hd%with_context_ok & Hr). destruct (negb _); [|done].
  apply Quantities.bind_result in Hr as ([ok found] & Hl & Hr). apply Quantities.bind_result in Hr as (m & Hm & Hr).
  injection Hr as <-. cbn [allowed mutated_manifest violations] in H. exists docs. split; [done|].
  destruct (bool_decide (validate_document_shape docs = []) && ok) eqn:Hok; [|done].
  apply andb_prop in Hok as [Hs%bool_decide_eq_true ->]. split; [by apply shape_ok|]. split; [by eapply validate_loop_ok|].
  apply Quantities.bind_result in Hm as (x & Hx & Hm). injection Hm as <-. cbn in H. injection H as <-.
  unfold mutate_manifest_defaults in Hx. rewrite Hd in Hx. cbn in Hx. by apply with_context_ok in Hx.
Qed.

(** ** What defaulting changes *)
Lemma get_or_insert k key v m :
  Yaml.mapping_get k (or_insert key v m) =
  if bool_decide (k = key) then Some (default v (Yaml.mapping_get k m)) else Yaml.mapping_get k m.
Proof.
  unfold or_insert. destruct (Yaml.mapping_get key m) as [x|] eqn:Hx; [|rewrite Yaml.mapping_get_insert];
    case_bool_decide; subst; by rewrite ?Hx.
Qed.

Lemma entries_get cpu memory storage m k :
  Yaml.mapping_get k (default_entry "ephemeral-storage" storage (default_entry "memory" memory (default_entry "cpu" cpu m))) =
  match Yaml.mapping_get k m with
  | Some x => Some x
  | None => Yaml.Str <$> (list_to_map [("cpu", cpu); ("memory", memory); ("ephemeral-storage", storage)] : gmap string string) !! k
  end.
Proof.
  unfold default_entry. rewrite !get_or_insert. cbn [list_to_map foldr fst snd].
  destruct (decide (k = "cpu")) as [->|H1]; [by destruct (Yaml.mapping_get "cpu" m)|].
  destruct (decide (k = "memory")) as [->|H2]; [by destruct (Yaml.mapping_get "memory" m)|].
  destruct (decide (k = "ephemeral-storage")) as [->|H3]; [by destruct (Yaml.mapping_get "ephemeral-storage" m)|].
  rewrite !bool_decide_false, !lookup_insert_ne by done. by destruct (Yaml.mapping_get k m).
Qed.

Lemma map_no_mapping f v : Yaml.as_mapping v = None -> Yaml.map_mapping f v = v.
Proof. unfold Yaml.as_mapping. induction v as [| | | | | |t v IH]; try done. cbn. intros Hv. by rewrite IH. Qed.

Lemma map_no_sequence f v : Yaml.as_sequence v = None -> Yaml.map_sequence f v = v.
Proof. unfold Yaml.as_sequence. induction v as [| | | | | |t v IH]; try done. cbn. intros Hv. by rewrite IH. Qed.

Lemma section_filled section cpu memory storage m :
  filled [("cpu", cpu); ("memory", memory); ("ephemeral-storage", storage)] (Yaml.mapping_get section m)
    (Yaml.mapping_get section (default_section section cpu memory storage m)).
Proof.
  unfold default_section. rewrite Yaml.mapping_get_alter, get_or_insert, bool_decide_true by done.
  unfold filled. destruct (Yaml.mapping_get section m) as [v|]; cbn [default id fmap option_fmap option_map].
  - case_bool_decide as Hv.
    + destruct Hv as [entries Hv]. eexists. split; [done|]. unfold Yaml.get. rewrite Yaml.as_mapping_map, Hv. cbn [option_map].
      split; intros k; [intros x|]; rewrite entries_get; by intros ->.
    + f_equal. apply map_no_mapping. by apply eq_None_not_Some.
  - eexists. split; [done|]. intros k. unfold Yaml.get. rewrite Yaml.as_mapping_map. cbn [Yaml.as_mapping Yaml.untag option_map].
    by rewrite entries_get.
Qed.

Lemma section_other section cpu memory storage m k :
  k <> section -> Yaml.mapping_get k (default_section section cpu memory storage m) = Yaml.mapping_get k m.
Proof. intros Hk. unfold default_section. by rewrite Yaml.mapping_get_alter, get_or_insert, !bool_decide_false. Qed.

(** Nothing but the resources of a container changes, and they only gain
    defaults. *)
Lemma resources_get o f :
  (forall m, filled [("cpu", "100m"); ("memory", "128Mi"); ("ephemeral-storage", "1Gi")]
     (Yaml.mapping_get "limits" m) (Yaml.mapping_get "limits" (f m))) ->
  (forall m, filled [("cpu", "50m"); ("memory", "64Mi"); ("ephemeral-storage", "512Mi")]
     (Yaml.mapping_get "requests" m) (Yaml.mapping_get "requests" (f m))) ->
  (forall m k, k <> "limits" -> k <> "requests" -> Yaml.mapping_get k (f m) = Yaml.mapping_get k m) ->
  resources_defaulted o (Some (Yaml.map_mapping f (default (Yaml.Mapping []) o))).
Proof.
  intros Hl Hr Hk. unfold resources_defaulted. case_bool_decide as Hv.
  - destruct Hv as [m Hm]. eexists. split; [done|]. unfold Yaml.get. rewrite Yaml.as_mapping_map, Hm. cbn [option_map]. auto.
  - rewrite map_no_mapping by (by apply eq_None_not_Some). destruct o; [done|]. exfalso. apply Hv. by eexists.
Qed.

Lemma container_defaults c : container_defaulted c (inject_resource_defaults c).
Proof.
  unfold container_defaulted, inject_resource_defaults. case_bool_decide as Hc.
  - destruct Hc as [m Hm]. unfold Yaml.get. rewrite Yaml.as_mapping_map, Hm. cbn [option_map]. split.
    + rewrite Yaml.mapping_get_alter, get_or_insert, bool_decide_true by done. apply resources_get.
      * intros r. rewrite section_other by done. apply section_filled.
      * intros r. rewrite <- (section_other "limits" DEFAULT_CPU_LIMIT DEFAULT_MEMORY_LIMIT DEFAULT_STORAGE_LIMIT r "requests") by done.
        apply section_filled.
      * intros r k Hl Hr. by rewrite !section_other.
    + intros k Hk. by rewrite Yaml.mapping_get_alter, get_or_insert, !bool_decide_false.
  - apply map_no_mapping. by apply eq_None_not_Some.
Qed.

Lemma list_defaults o : list_defaulted o (Yaml.map_sequence (map inject_resource_defaults) <$> o).
Proof.
  unfold list_defaulted. destruct o as [v|]; [|done]. cbn [mbind option_bind fmap option_fmap option_map].
  destruct (Yaml.as_sequence v) as [l|] eqn:Hl; [|by rewrite map_no_sequence].
  eexists _, (map inject_resource_defaults l). split_and!; [done|by rewrite Yaml.as_sequence_map, Hl|].
  clear. induction l; constructor; [apply container_defaults|done].
Qed.

Lemma path_defaults path v :
  along spec_defaulted path v
    (update_path (path ++ ["initContainers"]) (Yaml.map_sequence (map inject_resource_defaults))
      (update_path (path ++ ["containers"]) (Yaml.map_sequence (map inject_resource_defaults)) v)).
Proof.
  revert v. induction path as [|k path IH]; intros v; cbn [app update_path along].
  - unfold spec_defaulted. rewrite !Yaml.get_update. cbn -[list_defaulted]. split_and!; [apply list_defaults..|].
    intros k Hc Hi. by rewrite !Yaml.get_update, !bool_decide_false.
  - split; [intros k' Hk'; by rewrite !Yaml.get_update, !bool_decide_false|].
    rewrite !Yaml.get_update, !bool_decide_true by done. destruct (Yaml.get v k) as [x|]; [|done]. eexists. split; [done|]. apply IH.
Qed.

Lemma kind_mutate_field field d : kind_of (mutate_field field d) = kind_of d.
Proof.
  unfold mutate_field. destruct (kind_of d) as [kind|] eqn:Hk; cbn; [|done]. unfold pod_path.
  repeat case_bool_decide; cbn [app update_path]; try done;
    unfold kind_of in *; rewrite Yaml.get_update, bool_decide_false by done; exact Hk.
Qed.

Lemma mutate_field_kind field d kind : kind_of d = kind ->
  mutate_field field d =
  match kind ≫= pod_path with
  | Some path => update_path (path ++ [field]) (Yaml.map_sequence (map inject_resource_defaults)) d
  | None => d
  end.
Proof. by intros <-. Qed.

Lemma document_defaults d : document_defaulted d (mutate_document_defaults d).
Proof.
  unfold document_defaulted, mutate_document_defaults, CONTAINER_FIELDS. cbn [fold_left].
  rewrite (mutate_field_kind "initContainers" _ _ (kind_mutate_field _ _)), (mutate_field_kind "containers" _ _ eq_refl).
  change (text d "kind") with (kind_of d). destruct (kind_of d) as [kind|]; [|done]. cbn [mbind option_bind]. unfold pod_path.
  destruct (decide (kind = "Pod")) as [->|Hp]; [apply path_defaults|].
  destruct (decide (kind = "Deployment")) as [->|Hd]; [apply path_defaults|].
  by rewrite !bool_decide_false by congruence.
Qed.

Lemma not_null_mutate d : Yaml.is_null d = false -> Yaml.is_null (mutate_document_defaults d) = false.
Proof.
  assert (forall k f v, Yaml.is_null v = false -> Yaml.is_null (Yaml.update k f v) = false) as Hu.
  { intros k f v Hv. unfold Yaml.update. by rewrite Yaml.is_null_map_mapping. }
  assert (forall field v, Yaml.is_null v = false -> Yaml.is_null (mutate_field field v) = false) as Hf.
  { intros field v Hv. unfold mutate_field. destruct (kind ← kind_of v; pod_path kind) as [path|] eqn:Hp; [|done].
    destruct (kind_of v) as [kind|]; [|done]. cbn in Hp. unfold pod_path in Hp.
    repeat case_bool_decide; try done; injection Hp as <-; by apply Hu. }
  intros Hd. cbn. by apply Hf, Hf.
Qed.

(** ** What is measured *)
Lemma required_ok limits key q : required_quantity limits key = Ok q -> text limits key = Some q.
Proof. unfold required_quantity. by rewrite Quantities.ok_or_ok. Qed.

Lemma measure_container_ok a b c container a' b' c' :
  measure_container (a, b, c) container = Ok (a', b', c') ->
  exists m, consumes container m /\ a' = a + m.1.1 /\ b' = b + m.1.2 /\ c' = c + m.2.
Proof.
  unfold measure_container. intros H. apply Quantities.bind_result in H as (limits & Hl & H).
  rewrite Quantities.ok_or_ok in Hl.
  apply Quantities.bind_result in H as (q1 & Hq1%required_ok & H). apply Quantities.bind_result in H as (cpu & Hc & H).
  apply Quantities.bind_result in H as (a1 & Ha & H).
  apply Quantities.bind_result in H as (q2 & Hq2%required_ok & H). apply Quantities.bind_result in H as (memory & Hm & H).
  apply Quantities.bind_result in H as (b1 & Hb & H).
  apply Quantities.bind_result in H as (q3 & Hq3%required_ok & H). apply Quantities.bind_result in H as (storage & Hs & H).
  apply Quantities.bind_result in H as (c1 & Hc1 & H). injection H as <- <- <-.
  rewrite Quantities.ok_or_ok, Quantities.checked_some in Ha, Hb, Hc1.
  apply Quantities.parse_cpu_exact in Hc as [? ?]. apply Quantities.parse_bytes_exact in Hm as [? ?], Hs as [? ?].
  exists (cpu, memory, storage). cbn [fst snd]. split; [|naive_solver]. exists limits, q1, q2, q3. cbn [fst snd]. tauto.
Qed.

Lemma measure_loop_ok l : forall a b c a' b' c',
  measure_loop (a, b, c) l = Ok (a', b', c') ->
  exists ms, Forall2 consumes l ms /\
    a' = a + total (fun m => m.1.1) ms /\ b' = b + total (fun m => m.1.2) ms /\ c' = c + total snd ms.
Proof.
  induction l as [|x l IH]; intros a b c a' b' c'; cbn [measure_loop].
  - intros [= <- <- <-]. exists []. cbn. split; [constructor|lia].
  - intros H. apply Quantities.bind_result in H as ([[a1 b1] c1] & Hx & H).
    apply measure_container_ok in Hx as (m & Hm & -> & -> & ->). apply IH in H as (ms & Hms & -> & -> & ->).
    exists (m :: ms). split; [by constructor|]. cbn [total fold_right]. unfold total. lia.
Qed.

Lemma get_path_app p k v : get_path (p ++ [k]) v = (x ← get_path p v; Yaml.get x k).
Proof.
  revert v. induction p as [|x p IH]; intros v; cbn; [by destruct (Yaml.get v k)|]. destruct (Yaml.get v x); [apply IH|done].
Qed.

Lemma measured_every docs :
  Forall (fun d => is_Some (kind_of d)) docs -> measured_containers docs = flat_map every_container docs.
Proof.
  induction 1 as [|d docs [kind Hk] _ IH]; [done|]. unfold measured_containers in *. cbn [flat_map]. rewrite IH. f_equal.
  unfold every_container, containers. change (text d "kind") with (kind_of d). rewrite Hk.
  cbn [CONTAINER_FIELDS flat_map mbind option_bind]. rewrite app_nil_r, !get_path_app.
  rewrite (bool_decide_ext (Some kind = Some "Pod") (kind = "Pod")) by (split; congruence).
  by destruct (get_path _ d).
Qed.

Lemma mutated_kinds docs :
  well_shaped docs -> Forall (fun d => is_Some (kind_of d)) (mutate_document_defaults <$> docs).
Proof.
  intros (before & pod & after & -> & (kind & spec & Hk & _) & Hb & Ha). apply Forall_fmap.
  assert (forall d, is_Some (kind_of d) -> is_Some (kind_of (mutate_document_defaults d))) as Hm.
  { intros d. unfold mutate_document_defaults, CONTAINER_FIELDS. cbn [fold_left]. by rewrite !kind_mutate_field. }
  apply Forall_app. split; [|constructor; [apply Hm; by eexists|]].
  - eapply Forall_impl; [exact Hb|]. intros d (k & Hd & _). apply Hm. by eexists.
  - eapply Forall_impl; [exact Ha|]. intros d (k & Hd & _). apply Hm. by eexists.
Qed.

(** What [validate_and_measure_manifest] accepts. *)
Lemma measured_spec {L : YamlLaws} (manifest out : bytes) (r : ManifestResources) :
  validate_and_measure_manifest manifest = Ok (out, r) ->
  exists docs ms, parse_yaml_documents_from_slice manifest = Ok docs /\
    well_shaped docs /\ Forall breaks_no_rule docs /\
    parse_yaml_documents_from_slice out = Ok (mutate_document_defaults <$> docs) /\
    Forall2 consumes (flat_map every_container (mutate_document_defaults <$> docs)) ms /\ ms <> [] /\
    res_cpu_milli r = total (fun m => m.1.1) ms /\ res_cpu_milli r <= u32_max /\
    res_memory_bytes r = total (fun m => m.1.2) ms /\ res_storage_bytes r = total snd ms.
Proof.
  unfold validate_and_measure_manifest. intros H. apply Quantities.bind_result in H as (text & Ht & H).
  rewrite Quantities.ok_or_ok in Ht. apply Quantities.bind_result in H as (mutated & Hm & H).
  apply validate_and_mutate_ok in Hm as (docs & Hd & Hshape & Hrules & Hs).
  assert (parse_yaml_documents_from_slice manifest = Ok docs) as Hd'.
  { unfold Net.from_utf8 in Ht. destruct (Net.utf8_valid manifest); [|done]. injection Ht as <-.
    unfold parse_yaml_documents_from_str, as_bytes in Hd. by rewrite String.list_byte_of_string_of_list_byte in Hd. }
  assert (parse_yaml_documents_from_str mutated = Ok (mutate_document_defaults <$> docs)) as Hp.
  { apply (parse_serialized _ _ Hs); [destruct Hshape as ([] & ? & ? & -> & _); done|].
    apply parsed_not_null in Hd. clear -Hd. induction docs as [|d docs IH]; [done|].
    rewrite fmap_cons. cbn [forallb] in *. apply andb_prop in Hd as [Hd Hds].
    rewrite IH by done. rewrite not_null_mutate; [done|by destruct (Yaml.is_null d)]. }
  rewrite Hp in H. cbn in H. apply Quantities.bind_result in H as ([[a b] c] & Hl & H).
  destruct (0 <? _) eqn:Hcount; [|done]. apply Quantities.bind_result in H as (cpu & Hcpu & H). injection H as <- <-.
  rewrite Quantities.ok_or_ok, Quantities.checked_some in Hcpu. destruct Hcpu as [-> Hcpu].
  destruct (measure_loop_ok _ _ _ _ _ _ _ Hl) as (ms & Hms & -> & -> & ->). exists docs, ms. cbn.
  split_and!; try done.
  - rewrite <- measured_every; [done|]. by apply mutated_kinds.
  - intros ->. apply Forall2_length in Hms. unfold len in Hcount. rewrite Hms in Hcount. done.
Qed.

(** C32. What an accepted manifest is and may consume.  Its documents are one
    pod, or one deployment of a single pod, without ephemeral containers, and
    otherwise services and ingresses; none of them breaks a rule of the policy.
    The manifest handed on reads back as the same documents in the same order,
    in which only the resources of the pod's containers and init containers
    differ: every limit and request that was declared is kept, and a cpu, memory
    or ephemeral-storage limit or request that was missing has its default.  The
    resources are the exact sums, without overflow, of the limits of every
    container and init container of that manifest, and each of those is
    positive. *)
Theorem manifest_measured {L : YamlLaws} (manifest out : bytes) (r : ManifestResources) :
  validate_and_measure_manifest manifest = Ok (out, r) ->
  exists docs docs' ms, parse_yaml_documents_from_slice manifest = Ok docs /\
    well_shaped docs /\ Forall breaks_no_rule docs /\
    parse_yaml_documents_from_slice out = Ok docs' /\ Forall2 document_defaulted docs docs' /\
    Forall2 consumes (flat_map every_container docs') ms /\ ms <> [] /\
    res_cpu_milli r = total (fun m => m.1.1) ms /\ res_cpu_milli r <= u32_max /\
    res_memory_bytes r = total (fun m => m.1.2) ms /\ res_storage_bytes r = total snd ms.
Proof.
  intros Hr. destruct (measured_spec _ _ _ Hr) as (docs & ms & Hd & Hshape & Hrules & Hout & Hms).
  exists docs, (mutate_document_defaults <$> docs), ms. split_and!; try done; try apply Hms.
  clear. induction docs; constructor; [apply document_defaults|done].
Qed.
End Engine.

(** A pod whose container declares some of its limits. *)
Module Sample.
Definition pod : Yaml.Value :=
  Yaml.Mapping
    [(Yaml.Str "kind", Yaml.Str "Pod");
     (Yaml.Str "metadata", Yaml.Mapping [(Yaml.Str "name", Yaml.Str "demo")]);
     (Yaml.Str "spec", Yaml.Mapping
       [(Yaml.Str "containers", Yaml.Sequence
          [Yaml.Mapping
             [(Yaml.Str "name", Yaml.Str "app");
              (Yaml.Str "resources", Yaml.Mapping
                [(Yaml.Str "limits", Yaml.Mapping [(Yaml.Str "cpu", Yaml.Str "1.5")])])]])])].

Definition yaml : YamlSupport := YamlTable.support [pod; mutate_document_defaults pod].
Definition engine : RegoEngine := {| sprintf format _ := Ok format; scalar_members _ := Ok [] |}.
#[local] Existing Instances yaml engine.

Definition measured : ManifestResources :=
  {| res_cpu_milli := 1500; res_memory_bytes := 134217728; res_storage_bytes := 1073741824 |}.

Lemma accepted : validate_and_measure_manifest (as_bytes "A") = Ok (as_bytes ("B" +:+ NEWLINE), measured).
Proof. vm_compute. reflexivity. Qed.

Lemma manifest_measured_witness :
  exists docs docs' ms, parse_yaml_documents_from_slice (as_bytes "A") = Ok docs /\ Forall2 document_defaulted docs docs' /\
    Forall2 consumes (flat_map every_container docs') ms /\ ms <> [] /\ total snd ms = 1073741824.
Proof.
  destruct (manifest_measured (L := YamlTable.laws _) _ _ _ accepted) as (docs & docs' & ms & Hd & _ & _ & _ & Hdef & Hms & Hne & _ & _ & _ & Hs).
  exists docs, docs', ms. split_and!; [exact Hd|exact Hdef|exact Hms|exact Hne|by rewrite <- Hs].
Defined.
End Sample.
End Policy.
