(* ===== verification/Confinement.v ===== *)
(** * What the policy guarantees (shared/protocol/src/manifest_policy.rs)

    A document the rules of Rego.v accept confines every container that has a
    name.  A container without one escapes the rules: each of them mentions the
    name in its message, and a message that cannot be built is no violation. *)

From S2P Require Import Prelude Net Crypto Signed Quantities RustOrd Manifest Rego Policy.

Module Confinement.
Import Crypto Json Rego.

Definition quiet {A} (q : Query A) : Prop := q = Ok [].

Lemma each_quiet {A B} (f : A -> Query B) l : quiet (each f l) -> forall a, a ∈ l -> quiet (f a).
Proof.
  unfold quiet. induction l as [|x l IH]; cbn; [by intros _ a Ha%not_elem_of_nil|].
  destruct (f x) as [bs|] eqn:Hx; [|done]. destruct (each f l) as [rest|]; [|done].
  intros [= [-> ->]%app_eq_nil] a [->|Ha]%elem_of_cons; [done|by apply IH].
Qed.

Lemma quiet_bind {A B} (q : Query A) (f : A -> Query B) :
  quiet (q ≫= f) -> exists l, q = Ok l /\ forall a, a ∈ l -> quiet (f a).
Proof. destruct q as [l|]; [|done]. intros Hq. exists l. split; [done|by apply each_quiet]. Qed.

(** Going on with a solution of the first query. *)
Lemma quiet_step {A B} (q : Query A) (f : A -> Query B) l a :
  quiet (q ≫= f) -> q = Ok l -> a ∈ l -> quiet (f a).
Proof. intros (l' & Hl & Hf)%quiet_bind -> Ha. apply Hf. by injection Hl as <-. Qed.

Lemma quiet_ref {B} v k x (f : Value -> Query B) : quiet (ref v k ≫= f) -> get v k = Some x -> quiet (f x).
Proof. intros Hq Hg. eapply quiet_step; [done| |by left]. unfold ref. by rewrite Hg. Qed.

Lemma quiet_get {B} v k d x (f : Value -> Query B) : quiet (object_get v k d ≫= f) -> get v k = Some x -> quiet (f x).
Proof.
  intros Hq Hg. eapply quiet_step; [done| |by left]. destruct v; try done. cbn in *. by rewrite Hg.
Qed.

Lemma quiet_holds {B} b (f : unit -> Query B) : quiet (holds b ≫= f) -> b = true -> quiet (f tt).
Proof. intros Hq ->. eapply quiet_step; [done|done|by left]. Qed.

Lemma quiet_naf {A B} (q : Query A) (f : unit -> Query B) : quiet (naf q ≫= f) -> quiet q -> quiet (f tt).
Proof. intros Hq Hn. rewrite Hn in Hq. by apply quiet_holds in Hq. Qed.

Lemma bind_def {A B} (a : A) (f : A -> Query B) : (Ok [a] : Query A) ≫= f = f a.
Proof. cbn. destruct (f a); [by rewrite app_nil_r|done]. Qed.

Lemma ref_some v k x : get v k = Some x -> ref v k = Ok [x].
Proof. intros Hg. unfold ref. by rewrite Hg. Qed.

Lemma object_get_some v k d x : get v k = Some x -> object_get v k d = Ok [x].
Proof. intros Hg. destruct v; try done. cbn in *. by rewrite Hg. Qed.

(** Where a solution comes from. *)
Lemma sol_bind {A B} (q : Query A) (f : A -> Query B) l b :
  (q ≫= f) = Ok l -> b ∈ l -> exists as_ a bs, q = Ok as_ /\ a ∈ as_ /\ f a = Ok bs /\ b ∈ bs.
Proof.
  destruct q as [as_|]; [|done]. cbn. revert l. induction as_ as [|a as_ IH]; cbn; intros l.
  { by intros [= <-] Hb%not_elem_of_nil. }
  destruct (f a) as [bs|] eqn:Hf; [|done]. destruct (each f as_) as [rest|] eqn:Hr; [|done].
  intros [= <-] [Hb|Hb]%elem_of_app; [exists (a :: as_), a, bs; split_and!; [done|by left|done|done]|].
  destruct (IH rest eq_refl Hb) as (as' & a' & bs' & [= <-] & Ha & Hf' & Hb'). exists (a :: as_), a', bs'. split_and!; [done|by right|done|done].
Qed.

Lemma sol_ref v k l a : ref v k = Ok l -> a ∈ l -> get v k = Some a.
Proof. unfold ref. destruct (get v k); intros [= <-]; [by intros ->%list_elem_of_singleton|by intros Ha%not_elem_of_nil]. Qed.

Lemma sol_holds b l u : holds b = Ok l -> u ∈ l -> b = true.
Proof. destruct b; [done|]. by intros [= <-] Hu%not_elem_of_nil. Qed.

Lemma sol_get v k d l a : object_get v k d = Ok l -> a ∈ l -> a = default d (get v k).
Proof. destruct v; try done. cbn. by intros [= <-] ->%list_elem_of_singleton. Qed.

(** Steps of a query that has a solution. *)
Ltac solution H Hin :=
  repeat (lazymatch type of H with
          | @mbind _ _ _ _ _ _ = _ =>
            let q := fresh "l" in let x := fresh "x" in let l := fresh "l" in
            let Hq := fresh "Hq" in let Hx := fresh "Hx" in
            apply (fun H => sol_bind _ _ _ _ H Hin) in H; clear Hin; destruct H as (q & x & l & Hq & Hx & H & Hin);
            cbv beta in H;
            lazymatch type of Hq with
            | ref _ _ = _ => apply (fun H => sol_ref _ _ _ _ H Hx) in Hq; clear Hx
            | holds _ = _ => apply (fun H => sol_holds _ _ _ H Hx) in Hq; clear Hx
            | object_get _ _ _ = _ => apply (fun H => sol_get _ _ _ _ _ H Hx) in Hq; clear Hx
            | _ => idtac
            end
          end).

Section Rules.
Context {E : RegoEngine}.

Lemma quiet_message m args : ~ quiet (message m args).
Proof. unfold quiet, message. by destruct (sprintf m args). Qed.

Lemma quiet_some {B} l (f : Value -> Query B) a : quiet (some_in (Array l) ≫= f) -> a ∈ l -> quiet (f a).
Proof. intros Hq Ha. by eapply quiet_step. Qed.

(** ** Confinement *)
Definition named (c : Value) : Prop := exists n, get c "name" = Some n.
Definition sidecar (c : Value) : Prop := get c "name" = Some (Str "podmesh-sidecar").

(** A pod-ephemeral volume, and a mount of one of [volumes] outside of the
    connector's directories. *)
Definition ephemeral_volume (name : string) (v : Value) : Prop :=
  exists m dir, v = Object m /\ name <> "" /\ get v "name" = Some (Str name) /\ get v "emptyDir" = Some (Object dir) /\
    Forall (fun k => k ∈ ["name"; "emptyDir"]) m.*1 /\ Forall (fun k => k ∈ ["medium"; "sizeLimit"]) dir.*1.

Definition safe_mount (volumes : list Value) (mount : Value) : Prop :=
  exists name path v, get mount "name" = Some (Str name) /\ v ∈ volumes /\ ephemeral_volume name v /\
    get mount "mountPath" = Some (Str path) /\ Net.starts_with "/" path = true /\ str_contains ".." path = false /\
    Net.starts_with "/var/run/podmesh" path = false /\ Net.starts_with "/var/lib/podmesh-connector" path = false /\
    (forall p, get mount "mountPropagation" = Some p -> p = Str "None" \/ p = Str "").

Record confined (volumes : list Value) (c : Value) : Prop := {
  not_privileged : pointer ["securityContext"; "privileged"] c <> Some (Bool true);
  no_escalation : pointer ["securityContext"; "allowPrivilegeEscalation"] c <> Some (Bool true);
  capabilities : forall l capability, pointer ["securityContext"; "capabilities"; "add"] c = Some (Array l) ->
    capability ∈ l -> sidecar c /\ capability = Str "NET_ADMIN";
  not_root : sidecar c \/
    (forall v, pointer ["securityContext"; "runAsUser"] c = Some v -> is_zero v = false) /\
    pointer ["securityContext"; "runAsNonRoot"] c <> Some (Bool false);
  masked_proc : pointer ["securityContext"; "procMount"] c <> Some (Str "Unmasked");
  default_profiles : forall profile t, profile ∈ ["seccompProfile"; "appArmorProfile"] ->
    pointer ["securityContext"; profile; "type"] c = Some t -> t = Str "RuntimeDefault";
  no_selinux : forall m, pointer ["securityContext"; "seLinuxOptions"] c = Some (Object m) -> m = [];
  no_host_ports : forall l port v, get c "ports" = Some (Array l) -> port ∈ l -> get port "hostPort" = Some v -> is_zero v = true;
  safe_mounts : sidecar c \/
    forall l mount, get c "volumeMounts" = Some (Array l) -> mount ∈ l -> safe_mount volumes mount
}.

Record pod_confined (spec : Value) : Prop := {
  own_namespaces : forall flag, flag ∈ ["hostNetwork"; "hostPID"; "hostIPC"; "shareProcessNamespace"; "hostUsers"] ->
    get spec flag <> Some (Bool true);
  pod_not_root : (forall v, pointer ["securityContext"; "runAsUser"] spec = Some v -> is_zero v = false) /\
    pointer ["securityContext"; "runAsNonRoot"] spec <> Some (Bool false);
  pod_default_profiles : forall profile t, profile ∈ ["seccompProfile"; "appArmorProfile"] ->
    pointer ["securityContext"; profile; "type"] spec = Some t -> t = Str "RuntimeDefault";
  pod_no_selinux : forall m, pointer ["securityContext"; "seLinuxOptions"] spec = Some (Object m) -> m = [];
  no_sysctls : forall l, pointer ["securityContext"; "sysctls"] spec = Some (Array l) -> l = [];
  only_ephemeral : forall l v, get spec "volumes" = Some (Array l) -> v ∈ l -> exists name, ephemeral_volume name v
}.

Lemma pointer_cons k path v x : pointer (k :: path) v = Some x -> exists y, get v k = Some y /\ pointer path y = Some x.
Proof. cbn. destruct (get v k); [by eauto|done]. Qed.

Lemma is_str_true s v : is_str s v = true <-> v = Str s.
Proof. destruct v; cbn; try (by split). rewrite bool_decide_eq_true. split; [by intros ->|by intros [= ->]]. Qed.

Lemma one_of_one s v : one_of [s] v = true <-> v = Str s.
Proof. cbn. by rewrite orb_false_r, is_str_true. Qed.

Lemma sidecar_query c : named c ->
  (sidecar c /\ is_injected_sidecar c = Ok [tt]) \/ (~ sidecar c /\ quiet (is_injected_sidecar c)).
Proof.
  intros [n Hn]. unfold sidecar, is_injected_sidecar, ref, quiet. rewrite Hn. cbn.
  destruct (is_str "podmesh-sidecar" n) eqn:Hs.
  - apply is_str_true in Hs as ->. by left.
  - right. split; [|done]. intros [= ->]. done.
Qed.

(** Following a rule along the values a container has. *)
Ltac follow H :=
  repeat (cbv beta in H; first
    [ eapply quiet_ref in H; [|eassumption]
    | eapply quiet_get in H; [|eassumption]
    | eapply quiet_holds in H; [|first [eassumption|done]] ]);
  cbv beta in H.

(** ** Volumes *)
Lemma only_keys_sol allowed v l u : only_keys allowed v = Ok l -> u ∈ l -> exists m, v = Object m /\ Forall (fun k => k ∈ allowed) m.*1.
Proof.
  destruct v as [| | | | |m]; cbn; try (by intros [= <-] Hu%not_elem_of_nil). intros Hh Hu. exists m. split; [done|].
  apply (fun H => sol_holds _ _ _ H Hu) in Hh. apply Forall_forall. intros k Hk. rewrite forallb_forall in Hh.
  specialize (Hh k ltac:(by apply list_elem_of_In)). by apply bool_decide_eq_true in Hh.
Qed.

Lemma nonempty_string v : is_string v = true -> negb (is_str "" v) = true -> exists s, v = Str s /\ s <> "".
Proof. destruct v as [| | |s| |]; try done. intros _ Hs. exists s. split; [done|]. by intros ->. Qed.

Lemma safe_volume_sol v l u :
  is_safe_emptydir_volume v = Ok l -> u ∈ l -> exists name, ephemeral_volume name v /\ get v "name" = Some (Str name).
Proof.
  unfold is_safe_emptydir_volume. intros H Hin. solution H Hin.
  destruct (nonempty_string _ Hq1 Hq2) as (name & -> & Hne). exists name. split; [|done].
  destruct (only_keys_sol _ _ _ _ Hq5 Hx) as (m & -> & Hm). destruct (only_keys_sol _ _ _ _ H Hin) as (dir & -> & Hdir).
  by exists m, dir.
Qed.

(** A rule whose last condition is a negation reports unless the negated query
    has a solution. *)
Lemma quiet_solved {A B} (q : Query A) (f : unit -> Query B) :
  quiet (naf q ≫= f) -> ~ quiet (f tt) -> exists l u, q = Ok l /\ u ∈ l.
Proof.
  destruct q as [[|u l]|]; [|intros _ _; exists (u :: l), u; split; [done|by left]|done].
  intros Hq Hn. by apply quiet_holds in Hq.
Qed.

Lemma object_get_message v k d m (args : Value -> list Value) :
  ~ quiet (x ← object_get v k d; message m (args x)).
Proof.
  destruct v as [| | | | |o]; try done. unfold object_get, def. rewrite bind_def. apply quiet_message.
Qed.

(** ** One document *)

(** Finding an element by its name. *)
Ltac member := lazymatch goal with |- ?x ∈ ?x :: _ => left | |- _ ∈ _ :: _ => right; member end.

Section Document.
Variable input : Value.
Hypothesis rules_quiet : forall q, q ∈ rules input -> quiet q.
Variable spec : Value.
Hypothesis spec_eq : pod_spec input = Ok [spec].

(** The array at a key of the specification. *)
Definition array_at (k : string) : list Value := match get spec k with Some (Array l) => l | _ => [] end.

Lemma array_field k vs :
  object_get spec k (Array []) = Ok vs ->
  exists v, vs = [v] /\ forall l, v = Array l -> l = array_at k.
Proof.
  unfold array_at. destruct spec as [| | | | |m]; try done. intros [= <-]. eexists. split; [done|]. cbn.
  destruct (object_lookup k m); cbn; by intros l [= ->].
Qed.

Lemma field_query k : (spec' ← pod_spec input; object_get spec' k (Array [])) = object_get spec k (Array []).
Proof. by rewrite spec_eq, bind_def. Qed.

(** The containers the rules go through are those of the three lists. *)
Lemma each_container_eq l :
  each_container input = Ok l -> l = array_at "containers" ++ array_at "initContainers" ++ array_at "ephemeralContainers".
Proof.
  unfold each_container, all_containers, input_containers, init_containers, ephemeral_containers. rewrite !field_query.
  destruct (object_get spec "containers" (Array [])) as [va|] eqn:Ha; [|done].
  apply array_field in Ha as (a & -> & Ha). rewrite bind_def.
  destruct (object_get spec "initContainers" (Array [])) as [vb|] eqn:Hb; [|done].
  apply array_field in Hb as (b & -> & Hb). rewrite bind_def.
  destruct (object_get spec "ephemeralContainers" (Array [])) as [vc|] eqn:Hc; [|by destruct a, b].
  apply array_field in Hc as (c & -> & Hc). destruct a as [| | | |a|]; try done. destruct b as [| | | |b|]; try done.
  cbn [array_concat]. unfold def. rewrite !bind_def. destruct c as [| | | |c|]; try done. cbn [array_concat]. unfold def.
  rewrite bind_def. intros [= <-]. by rewrite (Ha a), (Hb b), (Hc c), app_assoc.
Qed.

Lemma containers_evaluated : exists l, each_container input = Ok l.
Proof.
  assert (quiet (privileged input)) as Hq by (apply rules_quiet; unfold rules; member).
  apply quiet_bind in Hq as (l & Hl & _). by exists l.
Qed.

Lemma container_reached c : 
  c ∈ array_at "containers" ++ array_at "initContainers" ++ array_at "ephemeralContainers" ->
  exists l, each_container input = Ok l /\ c ∈ l.
Proof. intros Hc. destruct containers_evaluated as [l Hl]. exists l. split; [done|]. by rewrite (each_container_eq l Hl). Qed.

(** ** The containers *)
(** ** Volumes of the document *)
Lemma volumes_evaluated : exists volumes, each_volume input = Ok volumes /\
  Forall (fun v => exists name, ephemeral_volume name v) volumes.
Proof.
  assert (quiet (unsupported_volume input)) as Hq by (apply rules_quiet; unfold rules; member).
  apply quiet_bind in Hq as (volumes & Hv & Hall). exists volumes. split; [done|]. apply Forall_forall.
  intros v Hin. specialize (Hall v Hin). apply quiet_solved in Hall as (l & u & Hl & Hu).
  - destruct (safe_volume_sol _ _ _ Hl Hu) as (name & Hs & _). by exists name.
  - apply (object_get_message _ _ _ _ (fun x => [x])).
Qed.

Lemma volumes_listed volumes l : each_volume input = Ok volumes -> get spec "volumes" = Some (Array l) -> volumes = l.
Proof.
  unfold each_volume. rewrite spec_eq, bind_def. intros Hv Hl.
  rewrite (object_get_some _ _ _ _ Hl), bind_def in Hv. by injection Hv as ->.
Qed.

Lemma declared_volume volumes names name :
  each_volume input = Ok volumes -> declared_emptydir_names input = Ok names -> name ∈ names ->
  exists n v, name = Str n /\ v ∈ volumes /\ ephemeral_volume n v.
Proof.
  unfold declared_emptydir_names. intros Hvol H Hin. solution H Hin. apply (fun H => sol_ref _ _ _ _ H Hin) in H.
  destruct (safe_volume_sol _ _ _ Hq0 Hx0) as (n & Hs & Hname). exists n, x. rewrite Hname in H. injection H as <-. rewrite Hvol in Hq. by injection Hq as <-.
Qed.

Lemma safe_mount_sol volumes mount l u :
  each_volume input = Ok volumes -> is_safe_volume_mount input mount = Ok l -> u ∈ l -> safe_mount volumes mount.
Proof.
  unfold is_safe_volume_mount. intros Hvol H Hin. solution H Hin.
  destruct (declared_emptydir_names input) as [names|] eqn:Hn; [|done].
  apply (fun H => sol_holds _ _ _ H Hx) in Hq1. apply bool_decide_eq_true in Hq1.
  destruct (declared_volume _ _ _ Hvol Hn Hq1) as (n & v & -> & Hv & He). destruct x2 as [| | |path| |]; try done.
  apply negb_true_iff in Hq5, Hq6, Hq7. exists n, path, v. split_and!; try done. intros p Hp.
  rewrite Hp in Hq8. cbn in Hq8. subst x8. cbn in Hq9. rewrite orb_false_r in Hq9.
  apply orb_prop in Hq9 as [Hs|Hs]; apply is_str_true in Hs; by subst; auto.
Qed.

Section Container.
Variable c : Value.
Hypothesis c_in : exists l, each_container input = Ok l /\ c ∈ l.
Hypothesis c_named : named c.

(** The body of a rule at [c]. *)
Lemma at_container (rest : Value -> Query string) :
  (container ← each_container input; rest container) ∈ rules input -> quiet (rest c).
Proof. intros Hr%rules_quiet. destruct c_in as (l & Hl & Hc). by eapply quiet_step. Qed.

Ltac rule R H :=
  assert (R ∈ rules input) as H by (unfold rules; member);
  apply at_container in H; cbv beta in H.

Lemma flag_false k x m :
  quiet (context ← ref c "securityContext"; v ← ref context k; _ ← holds (is_true v);
         name ← ref c "name"; message m [name]) -> pointer ["securityContext"; k] c = Some x -> x <> Bool true.
Proof.
  destruct c_named as [n Hn]. intros Hq (ctx & Hc & (v & Hv & [= ->])%pointer_cons)%pointer_cons ->.
  follow Hq. by apply quiet_message in Hq.
Qed.

Lemma c_not_privileged : pointer ["securityContext"; "privileged"] c <> Some (Bool true).
Proof. rule (privileged input) Hq. intros Hx. by eapply flag_false. Qed.

Lemma c_no_escalation : pointer ["securityContext"; "allowPrivilegeEscalation"] c <> Some (Bool true).
Proof. rule (privilege_escalation input) Hq. intros Hx. by eapply flag_false. Qed.

Lemma c_capabilities l capability :
  pointer ["securityContext"; "capabilities"; "add"] c = Some (Array l) -> capability ∈ l ->
  sidecar c /\ capability = Str "NET_ADMIN".
Proof.
  intros (ctx & Hc & (caps & Hcaps & (v & Hv & [= ->])%pointer_cons)%pointer_cons)%pointer_cons Hin.
  assert (added_capabilities c = Ok l) as Hadd.
  { unfold added_capabilities, security_context. rewrite (object_get_some _ _ _ _ Hc), bind_def.
    rewrite (object_get_some _ _ _ _ Hcaps), bind_def. by rewrite (object_get_some _ _ _ _ Hv), bind_def. }
  rule (tenant_capability input) Ht. rule (sidecar_capability input) Hs.
  destruct (sidecar_query c c_named) as [[Hside Hq]|[Hside Hq]].
  - split; [done|]. rewrite Hq, bind_def in Hs. apply (fun H => quiet_step _ _ _ _ H Hadd Hin) in Hs; cbv beta in Hs.
    destruct (is_str "NET_ADMIN" capability) eqn:Hn; [by apply is_str_true|].
    assert (negb (is_str "NET_ADMIN" capability) = true) as Hneg by (by rewrite Hn).
    follow Hs. by apply quiet_message in Hs.
  - apply (fun H => quiet_naf _ _ H Hq) in Ht; cbv beta in Ht. apply (fun H => quiet_step _ _ _ _ H Hadd Hin) in Ht; cbv beta in Ht.
    destruct c_named as [n Hn]. follow Ht. by apply quiet_message in Ht.
Qed.

Lemma c_not_root :
  sidecar c \/ (forall v, pointer ["securityContext"; "runAsUser"] c = Some v -> is_zero v = false) /\
    pointer ["securityContext"; "runAsNonRoot"] c <> Some (Bool false).
Proof.
  destruct (sidecar_query c c_named) as [[Hside _]|[_ Hq]]; [by left|right]. destruct c_named as [n Hn].
  rule (root_user input) Hu. rule (may_be_root input) Hm.
  apply (fun H => quiet_naf _ _ H Hq) in Hu; cbv beta in Hu. apply (fun H => quiet_naf _ _ H Hq) in Hm; cbv beta in Hm. split.
  - intros v (ctx & Hc & (x & Hx & [= ->])%pointer_cons)%pointer_cons. destruct (is_zero v) eqn:Hz; [|done].
    follow Hu. by apply quiet_message in Hu.
  - intros (ctx & Hc & (x & Hx & [= ->])%pointer_cons)%pointer_cons. follow Hm. by apply quiet_message in Hm.
Qed.

Lemma c_masked_proc : pointer ["securityContext"; "procMount"] c <> Some (Str "Unmasked").
Proof.
  rule (unmasked_proc input) Hq. destruct c_named as [n Hn].
  intros (ctx & Hc & (x & Hx & [= ->])%pointer_cons)%pointer_cons. unfold security_context in Hq.
  follow Hq. by apply quiet_message in Hq.
Qed.

Lemma profile_eq owner profile t :
  pointer ["securityContext"; profile; "type"] owner = Some t -> profile_type owner profile = Ok [t].
Proof.
  intros (ctx & Hc & (p & Hp & (x & Hx & [= ->])%pointer_cons)%pointer_cons)%pointer_cons.
  unfold profile_type, security_context. rewrite (object_get_some _ _ _ _ Hc), bind_def.
  by rewrite (object_get_some _ _ _ _ Hp), bind_def, (ref_some _ _ _ Hx).
Qed.

Lemma c_default_profiles profile t :
  profile ∈ ["seccompProfile"; "appArmorProfile"] ->
  pointer ["securityContext"; profile; "type"] c = Some t -> t = Str "RuntimeDefault".
Proof.
  intros Hp Ht%profile_eq. destruct (one_of ["RuntimeDefault"] t) eqn:Ho; [by apply one_of_one|].
  assert (negb (one_of ["RuntimeDefault"] t) = true) as Hneg by (by rewrite Ho). destruct c_named as [n Hn].
  apply elem_of_cons in Hp as [->|[->|Hp%not_elem_of_nil]%elem_of_cons]; [| |done].
  - rule (seccomp input) Hq. rewrite Ht, bind_def in Hq. follow Hq. by apply quiet_message in Hq.
  - rule (apparmor input) Hq. rewrite Ht, bind_def in Hq. follow Hq. by apply quiet_message in Hq.
Qed.

Lemma c_no_selinux m : pointer ["securityContext"; "seLinuxOptions"] c = Some (Object m) -> m = [].
Proof.
  intros (ctx & Hc & (x & Hx & [= ->])%pointer_cons)%pointer_cons. destruct m as [|e m]; [done|].
  rule (selinux input) Hq. destruct c_named as [n Hn]. unfold security_context in Hq.
  eapply quiet_get in Hq; [|exact Hc]. eapply quiet_get in Hq; [|exact Hx]. cbn [count] in Hq. unfold def in Hq.
  rewrite bind_def in Hq. eapply quiet_holds in Hq; [|rewrite len_cons; pose proof (len_nonneg m); lia].
  follow Hq. by apply quiet_message in Hq.
Qed.

Lemma c_no_host_ports l port v :
  get c "ports" = Some (Array l) -> port ∈ l -> get port "hostPort" = Some v -> is_zero v = true.
Proof.
  intros Hports Hin Hv. destruct (is_zero v) eqn:Hz; [done|]. assert (negb (is_zero v) = true) as Hneg by (by rewrite Hz).
  rule (host_port input) Hq. destruct c_named as [n Hn]. eapply quiet_get in Hq; [|exact Hports].
  apply (fun H => quiet_some _ _ _ H Hin) in Hq; cbv beta in Hq. follow Hq. by apply quiet_message in Hq.
Qed.

Lemma c_safe_mounts volumes :
  each_volume input = Ok volumes ->
  sidecar c \/ forall l mount, get c "volumeMounts" = Some (Array l) -> mount ∈ l -> safe_mount volumes mount.
Proof.
  intros Hvol. destruct (sidecar_query c c_named) as [[Hside _]|[_ Hq]]; [by left|right]. intros l mount Hl Hin.
  rule (unsupported_mount input) Hm. apply (fun H => quiet_naf _ _ H Hq) in Hm; cbv beta in Hm.
  eapply quiet_get in Hm; [|exact Hl]. apply (fun H => quiet_some _ _ _ H Hin) in Hm; cbv beta in Hm.
  apply quiet_solved in Hm as (us & u & Hu & Hin2); [by eapply safe_mount_sol|].
  destruct c_named as [n Hn]. intros Hf. eapply quiet_ref in Hf; [|exact Hn].
  by apply (object_get_message _ _ _ _ (fun x => [n; x])) in Hf.
Qed.

Lemma container_confined volumes : each_volume input = Ok volumes -> confined volumes c.
Proof.
  intros Hvol. split; [exact c_not_privileged|exact c_no_escalation|exact c_capabilities|exact c_not_root|exact c_masked_proc
    |exact c_default_profiles|exact c_no_selinux|exact c_no_host_ports|by apply c_safe_mounts].
Qed.
End Container.

(** ** The pod *)
Lemma at_pod (rest : Value -> Query string) : (spec ← pod_spec input; rest spec) ∈ rules input -> quiet (rest spec).
Proof. intros Hr%rules_quiet. by rewrite spec_eq, bind_def in Hr. Qed.

Lemma quiet_def (m : string) : ~ quiet (def m).
Proof. done. Qed.

Ltac pod_rule R H :=
  assert (R ∈ rules input) as H by (unfold rules; member);
  apply at_pod in H; cbv beta in H.

Lemma p_own_namespaces flag :
  flag ∈ ["hostNetwork"; "hostPID"; "hostIPC"; "shareProcessNamespace"; "hostUsers"] -> get spec flag <> Some (Bool true).
Proof.
  assert (forall m, pod_flag input flag m ∈ rules input -> get spec flag <> Some (Bool true)) as Hflag.
  { intros m H Hg. apply at_pod in H. cbv beta in H. follow H. by apply quiet_def in H. }
  rewrite !elem_of_cons. intros Hf.
  destruct Hf as [->|[->|[->|[->|[->|Hf%not_elem_of_nil]]]]]; [..|done]; eapply Hflag; unfold rules;
    repeat lazymatch goal with |- pod_flag _ ?f _ ∈ pod_flag _ ?f _ :: _ => left | |- _ => right end.
Qed.

Lemma p_not_root :
  (forall v, pointer ["securityContext"; "runAsUser"] spec = Some v -> is_zero v = false) /\
  pointer ["securityContext"; "runAsNonRoot"] spec <> Some (Bool false).
Proof.
  pod_rule (pod_root_user input) Hu. pod_rule (pod_may_be_root input) Hm. split.
  - intros v (ctx & Hc & (x & Hx & [= ->])%pointer_cons)%pointer_cons. destruct (is_zero v) eqn:Hz; [|done].
    follow Hu. by apply quiet_def in Hu.
  - intros (ctx & Hc & (x & Hx & [= ->])%pointer_cons)%pointer_cons. follow Hm. by apply quiet_def in Hm.
Qed.

Lemma p_default_profiles profile t :
  profile ∈ ["seccompProfile"; "appArmorProfile"] ->
  pointer ["securityContext"; profile; "type"] spec = Some t -> t = Str "RuntimeDefault".
Proof.
  intros Hp Ht%profile_eq. destruct (one_of ["RuntimeDefault"] t) eqn:Ho; [by apply one_of_one|].
  assert (negb (one_of ["RuntimeDefault"] t) = true) as Hneg by (by rewrite Ho).
  apply elem_of_cons in Hp as [->|[->|Hp%not_elem_of_nil]%elem_of_cons]; [| |done].
  - pod_rule (pod_seccomp input) Hq. rewrite Ht, bind_def in Hq. follow Hq. by apply quiet_message in Hq.
  - pod_rule (pod_apparmor input) Hq. rewrite Ht, bind_def in Hq. follow Hq. by apply quiet_message in Hq.
Qed.

(** A collection at [securityContext.k] that must be empty. *)
Lemma counted_empty k d x n m :
  quiet (context ← security_context spec; v ← object_get context k d; n ← count v; _ ← holds (0 <? n); def (m : string)) ->
  pointer ["securityContext"; k] spec = Some x -> count x = def n -> n <= 0.
Proof.
  intros Hq (ctx & Hc & (y & Hy & [= ->])%pointer_cons)%pointer_cons Hn. destruct (Z.ltb 0 n) eqn:Hpos; [|lia].
  unfold security_context in Hq. eapply quiet_get in Hq; [|exact Hc]. eapply quiet_get in Hq; [|exact Hy].
  rewrite Hn in Hq. unfold def in Hq. rewrite bind_def in Hq. follow Hq. done.
Qed.

Lemma p_confined : pod_confined spec.
Proof.
  split; [exact p_own_namespaces|exact p_not_root|exact p_default_profiles|..].
  - pod_rule (pod_selinux input) Hq. intros m Hm. eapply counted_empty in Hq; [|exact Hm|done].
    destruct m; [done|]. rewrite len_cons in Hq. pose proof (len_nonneg m). lia.
  - pod_rule (pod_sysctls input) Hq. intros l Hl. eapply counted_empty in Hq; [|exact Hl|done].
    destruct l; [done|]. rewrite len_cons in Hq. pose proof (len_nonneg l). lia.
  - intros l v Hl Hv. destruct volumes_evaluated as (volumes & Hvol & Hall).
    rewrite (volumes_listed _ _ Hvol Hl) in Hall. rewrite Forall_forall in Hall. by apply Hall.
Qed.

(** ** Annotations *)
Lemma insert_keys k v m key : key ∈ (object_insert k v m).*1 <-> key = k \/ key ∈ m.*1.
Proof.
  induction m as [|[k' v'] m IH]; cbn; [by rewrite elem_of_cons|].
  case_bool_decide; subst; cbn; rewrite !elem_of_cons; [tauto|]. rewrite IH. tauto.
Qed.

Lemma union_keys r l key : key ∈ (fold_left (fun m e => object_insert e.1 e.2 m) r l).*1 <-> key ∈ l.*1 \/ key ∈ r.*1.
Proof.
  revert l. induction r as [|[k v] r IH]; intros l; cbn; [by rewrite elem_of_nil; tauto|].
  rewrite IH, insert_keys, elem_of_cons. cbn. tauto.
Qed.

Lemma get_evaluated {B} v k d (f : Value -> Query B) us : (object_get v k d ≫= f) = Ok us -> f (default d (get v k)) = Ok us.
Proof. destruct v as [| | | | |m]; try done. unfold object_get, def. by rewrite bind_def. Qed.

Lemma annotations_allowed path m key :
  path ∈ [["metadata"; "annotations"]; ["spec"; "template"; "metadata"; "annotations"]] ->
  pointer path input = Some (Object m) -> key ∈ m.*1 -> Net.starts_with "podmesh.io/" key = true.
Proof.
  intros Hpath Hm Hkey. assert (quiet (foreign_annotation input)) as Hq by (apply rules_quiet; unfold rules; member).
  unfold foreign_annotation in Hq. apply quiet_bind in Hq as (us & Hus & Hq). unfold all_annotations in Hus.
  do 6 (apply get_evaluated in Hus; cbv beta in Hus).
  match type of Hus with object_union ?a ?b = _ => destruct a as [| | | | |own] eqn:Hown; try done;
    destruct b as [| | | | |inner] eqn:Hinner; try done end.
  injection Hus as <-. specialize (Hq _ ltac:(by left)). cbn [keys_in] in Hq. set (all := fold_left _ _ _) in Hq.
  assert (key ∈ all.*1) as Hall.
  { apply union_keys. apply elem_of_cons in Hpath as [->|[->|H%not_elem_of_nil]%elem_of_cons]; [left|right|done].
    - apply pointer_cons in Hm as (x & Hx & (y & Hy & [= ->])%pointer_cons). rewrite Hx in Hown. cbn in Hown.
      rewrite Hy in Hown. cbn in Hown. by injection Hown as ->.
    - apply pointer_cons in Hm as (x & Hx & (y & Hy & (z & Hz & (w & Hw & [= ->])%pointer_cons)%pointer_cons)%pointer_cons).
      rewrite Hx in Hinner. cbn in Hinner. rewrite Hy in Hinner. cbn in Hinner. rewrite Hz in Hinner. cbn in Hinner.
      rewrite Hw in Hinner. cbn in Hinner. by injection Hinner as ->. }
  apply (fun H => quiet_step _ _ _ _ H eq_refl Hall) in Hq. cbv beta in Hq.
  destruct (Net.starts_with "podmesh.io/" key) eqn:Hk; [done|]. apply quiet_holds in Hq; [|done]. by apply quiet_message in Hq.
Qed.
End Document.


(** ** A manifest *)

(** The pod specification of a document. *)
Definition pod_of (input : Value) : option Value :=
  match get input "kind" with
  | Some (Str kind) =>
      if bool_decide (kind = "Pod") then get input "spec"
      else if bool_decide (kind ∈ ["Deployment"; "ReplicaSet"; "DaemonSet"; "StatefulSet"; "Job"; "CronJob"])
      then pointer ["spec"; "template"; "spec"] input else None
  | _ => None
  end.

Definition CONTAINER_LISTS : list string := ["containers"; "initContainers"; "ephemeralContainers"].

(** Its pod, all its containers that have a name, and its annotations. *)
Definition confined_document (input : Value) : Prop :=
  (forall spec, pod_of input = Some spec ->
    pod_confined spec /\
    exists volumes, (forall l, get spec "volumes" = Some (Array l) -> volumes = l) /\
      forall field l c, field ∈ CONTAINER_LISTS -> get spec field = Some (Array l) -> c ∈ l -> named c -> confined volumes c) /\
  (forall path m key, path ∈ [["metadata"; "annotations"]; ["spec"; "template"; "metadata"; "annotations"]] ->
    pointer path input = Some (Object m) -> key ∈ m.*1 -> Net.starts_with "podmesh.io/" key = true).

Lemma one_of_in l s : one_of l (Str s) = bool_decide (s ∈ l).
Proof.
  induction l as [|x l IH]; [by rewrite bool_decide_false by apply not_elem_of_nil|].
  change (is_str x (Str s) || one_of l (Str s) = bool_decide (s ∈ x :: l)). rewrite IH. cbn [is_str]. apply eq_true_iff_eq. by rewrite orb_true_iff, !bool_decide_eq_true, elem_of_cons.
Qed.

Lemma pod_of_query input spec : pod_of input = Some spec -> pod_spec input = Ok [spec].
Proof.
  unfold pod_of, pod_spec. destruct (get input "kind") as [[| | |kind| |]|] eqn:Hk; try done.
  rewrite !(ref_some _ _ _ Hk), !bind_def, one_of_in. cbn [is_str]. case_bool_decide as Hpod.
  - intros Hs. subst kind. unfold holds, def. rewrite !bind_def, (ref_some _ _ _ Hs). done.
  - case_bool_decide as Hin; [|done].
    intros (s & Hs & (t & Ht & (x & Hx & [= ->])%pointer_cons)%pointer_cons)%pointer_cons.
    unfold holds, def. by rewrite !bind_def, (ref_some _ _ _ Hs), bind_def, (ref_some _ _ _ Ht), bind_def, (ref_some _ _ _ Hx).
Qed.

Lemma violations_quiet input q : violations input = Ok [] -> q ∈ rules input -> quiet q.
Proof.
  unfold violations. destruct (each id (rules input)) as [messages|] eqn:He; [|done]. intros [= Hs] Hq.
  assert (messages = []) as ->; [|by apply (each_quiet id (rules input))].
  destruct messages as [|m messages]; [done|]. assert (m ∈ remove_dups (m :: messages)) as Hm by (apply elem_of_remove_dups; by left).
  rewrite <- (RustOrd.sort_perm RustOrd.str_compare), Hs in Hm. by apply not_elem_of_nil in Hm.
Qed.

Lemma document_confined input : violations input = Ok [] -> confined_document input.
Proof.
  intros Hv. assert (forall q, q ∈ rules input -> quiet q) as Hq by (intros q; by apply violations_quiet).
  split; [|by apply annotations_allowed]. intros spec Hspec%pod_of_query.
  split; [by apply (p_confined input)|]. destruct (volumes_evaluated input Hq) as (volumes & Hvol & _). exists volumes.
  split; [intros l; by eapply (volumes_listed input)|]. intros field l c Hf Hl Hc Hn.
  apply (container_confined input Hq); [|done|done]. apply (container_reached input Hq spec Hspec).
  assert (array_at spec field = l) as <- by (unfold array_at; by rewrite Hl).
  unfold CONTAINER_LISTS in Hf. rewrite !elem_of_cons, elem_of_nil in Hf. rewrite !elem_of_app.
  by destruct Hf as [->|[->|[->|Hf]]]; auto.
Qed.

(** C4. The policy confines what it accepts.  In every document of an accepted
    manifest the pod shares no namespace with the host, asks for neither user 0
    nor runAsNonRoot: false, requests no security profile but the default one,
    sets no SELinux option and no sysctl, and declares only pod-ephemeral volumes.
    Every container that has a name, init and ephemeral ones included, is not
    privileged, does not ask to escalate, to unmask /proc, for another security
    profile or for SELinux options, and publishes no host port.  Unless its name
    is the sidecar's, it moreover asks for neither user 0 nor runAsNonRoot: false,
    adds no capability and mounts nothing but those volumes, away from the
    directories of the connector; with the sidecar's name it may ask to be root,
    add NET_ADMIN and no other capability, and its mounts are not checked.  A user that is not set is accepted.  Every annotation is one of podmesh.io. *)
Theorem accepted_confined {Y : YamlSupport} (manifest mutated : string) :
  Policy.validate_and_mutate manifest = Ok mutated ->
  exists docs, Manifest.parse_yaml_documents_from_str manifest = Ok docs /\
    Forall (fun d => exists input, json_of_yaml d = Ok input /\ confined_document input) docs.
Proof.
  intros (docs & Hd & _ & Hrules & _)%Policy.validate_and_mutate_ok. exists docs. split; [done|].
  eapply Forall_impl; [exact Hrules|]. intros d (input & Hi & Hv). exists input. split; [done|by apply document_confined].
Qed.
End Rules.

Lemma accepted_confined_witness :
  exists docs, @Manifest.parse_yaml_documents_from_str Policy.Sample.yaml "A" = Ok docs /\
    Forall (fun d => exists input, YamlTable.to_json d = Ok input /\ @confined_document input) docs.
Proof.
  exact (@accepted_confined Policy.Sample.engine Policy.Sample.yaml "A" ("B" +:+ Manifest.NEWLINE)
           ltac:(vm_compute; reflexivity)).
Defined.

(** A container without a name escapes the rules for containers: each of them
    mentions the name in its message, and no message means no violation. *)
Module Unnamed.
Definition container : Value :=
  Object [("image", Str "alpine");
          ("securityContext", Object
            [("privileged", Bool true); ("runAsUser", Num (PosInt 0));
             ("capabilities", Object [("add", Array [Str "SYS_ADMIN"])])])].
Definition document : Value :=
  Object [("kind", Str "Pod"); ("spec", Object [("containers", Array [container])])].
End Unnamed.

(** A container without a name is not confined.  The policy allows a pod
    whose container is privileged, runs as root and adds SYS_ADMIN when the
    container has no name, whatever the engine does with messages. *)
Theorem unnamed_container_escapes {E : RegoEngine} :
  allow Unnamed.document = Ok true /\
  pointer ["spec"; "containers"] Unnamed.document = Some (Array [Unnamed.container]) /\
  pointer ["securityContext"; "privileged"] Unnamed.container = Some (Bool true) /\
  pointer ["securityContext"; "capabilities"; "add"] Unnamed.container = Some (Array [Str "SYS_ADMIN"]).
Proof. by vm_compute. Qed.
End Confinement.
