(* ===== verification/ServiceManifest.v ===== *)
(** * Services of a manifest (shared/protocol/src/service_discovery/manifest.rs)

    The services a workload publishes: those its manifest declares for the
    workload's pod, or one named [workload] with the ports of its containers. *)

From Stdlib Require Import Sorted.
From S2P Require Import Prelude Net Crypto Signed Quantities RustOrd EndpointRecord Registration Biscuit WorkloadIdentity AgentIds ServiceDiscovery Connector Manifest.

Module ServiceManifest.
Import Crypto Manifest.
Import Discovery (ServicePort, ServiceDefinition, Build_ServicePort, Build_ServiceDefinition).

#[local] Existing Instances RustOrd.Z_compare_laws RustOrd.str_compare_laws.

(** ** BTreeMap as the list of its entries in key order *)
Fixpoint btree_insert {K V} (cmp : K -> K -> comparison) (k : K) (v : V) (m : list (K * V)) : list (K * V) * option V :=
  match m with
  | [] => ([(k, v)], None)
  | (k', v') :: m =>
      match cmp k k' with
      | Lt => ((k, v) :: (k', v') :: m, None)
      | Eq => ((k', v) :: m, Some v')
      | Gt => let (m, old) := btree_insert cmp k v m in ((k', v') :: m, old)
      end
  end.

(** ** Equality of JSON values, in which the order of an object's entries does
    not matter and the two zeros are equal *)
Definition number_eqb (a b : Number) : bool :=
  match a, b with
  | Float (SpecFloat.S754_zero _), Float (SpecFloat.S754_zero _) => true
  | _, _ => bool_decide (a = b)
  end.

Fixpoint json_eqb (a b : Json.Value) : bool :=
  match a, b with
  | Json.Null, Json.Null => true
  | Json.Bool x, Json.Bool y => Bool.eqb x y
  | Json.Num x, Json.Num y => number_eqb x y
  | Json.Str x, Json.Str y => bool_decide (x = y)
  | Json.Array l, Json.Array r =>
      (fix go l r := match l, r with
                     | [], [] => true
                     | x :: l, y :: r => json_eqb x y && go l r
                     | _, _ => false
                     end) l r
  | Json.Object l, Json.Object r =>
      (len l =? len r) &&
      forallb (fun '(k, x) => match Json.object_lookup k r with Some y => json_eqb x y | None => false end) l
  | _, _ => false
  end.

(** ** Helpers of the source *)
Definition or_else {A} (a b : option A) : option A := match a with Some _ => a | None => b end.

(** [value[key]]: [Null] for what is missing. *)
Definition index (v : Json.Value) (k : string) : Json.Value := default Json.Null (Json.get v k).

Definition number (value : Json.Value) : Result Z :=
  number ← ok_or (Json.as_u64 value) "Service port must be an integer";
  ensure! (1 <=? number) && (number <=? 65535) else Err "Service port out of range" ;;
  Ok number.

Definition is_kind (kind : string) (doc : Json.Value) : bool :=
  bool_decide ((v ← Json.get doc "kind"; Json.as_str v) = Some kind).

Definition template_spec (doc : Json.Value) : option Json.Value := Json.pointer ["spec"; "template"; "spec"] doc.

(** The entries of an optional array. *)
Definition entries (v : Json.Value) (k : string) : list Json.Value :=
  default [] (x ← Json.get v k; Json.as_array x).

(** A string setting that is missing or has the only value supported. *)
Definition none_or (v : Json.Value) (k : string) (allowed : string) : bool :=
  match (x ← Json.get v k; Json.as_str x) with Some s => bool_decide (s = allowed) | None => true end.

(** ** extract_services *)
Section Extract.
Context {Y : YamlSupport}.

Fixpoint to_json_all (docs : list Yaml.Value) : Result (list Json.Value) :=
  match docs with
  | [] => Ok []
  | doc :: docs => json ← json_of_yaml doc; rest ← to_json_all docs; Ok (json :: rest)
  end.

(** The named ports of one container and of all of them. *)
Fixpoint container_ports (named : gmap string Z) (ports : list Json.Value) : Result (gmap string Z) :=
  match ports with
  | [] => Ok named
  | port :: ports =>
      match (n ← Json.get port "name"; Json.as_str n) with
      | None => container_ports named ports
      | Some name =>
          number ← number (index port "containerPort");
          ensure! match named !! name with Some old => old =? number | None => true end
            else Err "ambiguous named target port" ;;
          container_ports (<[name := number]> named) ports
      end
  end.

Fixpoint named_ports (named : gmap string Z) (containers : list Json.Value) : Result (gmap string Z) :=
  match containers with
  | [] => Ok named
  | container :: containers =>
      named ← container_ports named (entries container "ports"); named_ports named containers
  end.

Definition selects (labels : option Json.Value) (selectors : list (string * Json.Value)) : bool :=
  negb (bool_decide (selectors = [])) &&
  forallb (fun '(key, value) =>
    match (labels ← labels; Json.get labels key) with Some v => json_eqb v value | None => false end) selectors.

(** The port traffic goes to. *)
Definition target_of (named : gmap string Z) (port : Json.Value) (published : Z) : Result Z :=
  match Json.get port "targetPort" with
  | None => Ok published
  | Some (Json.Str name) => ok_or (named !! name) "named Service targetPort not declared"
  | Some value => number value
  end.

Fixpoint service_ports (named : gmap string Z) (ports : list (Z * ServicePort)) (l : list Json.Value)
    : Result (list (Z * ServicePort)) :=
  match l with
  | [] => Ok ports
  | port :: l =>
      ensure! none_or port "protocol" "TCP" else Err "internal services currently support TCP only" ;;
      published ← number (index port "port");
      target_port ← target_of named port published;
      let (ports, old) :=
        btree_insert Z.compare published {| Discovery.port := published; Discovery.target_port := target_port |} ports in
      ensure! negb (Connector.is_some old) else Err "duplicate Service port" ;;
      service_ports named ports l
  end.

(** One Service document. *)
Definition compile_service (labels : option Json.Value) (named : gmap string Z) (doc : Json.Value)
    : Result ServiceDefinition :=
  name ← ok_or (n ← Json.pointer ["metadata"; "name"] doc; Json.as_str n) "Service name missing";
  _ ← Discovery.validate_service_label name;
  spec ← ok_or (Json.get doc "spec") "Service spec missing";
  ensure! none_or spec "type" "ClusterIP" else Err "internal DNS supports only ClusterIP Services" ;;
  selectors ← ok_or (x ← Json.get spec "selector"; Json.as_object x) "Service selector missing";
  ensure! selects labels selectors else Err "Service selector does not match this workload" ;;
  list ← ok_or (Json.as_array (index spec "ports")) "Service ports missing";
  ports ← service_ports named [] list;
  ensure! negb (bool_decide (ports = [])) && (len ports <=? Discovery.MAX_SERVICE_PORTS)
    else Err "invalid Service port count" ;;
  Ok {| Discovery.service_name := name; Discovery.ports := ports.*2 |}.

Fixpoint compile_services (labels : option Json.Value) (named : gmap string Z)
    (services : list (string * ServiceDefinition)) (docs : list Json.Value) : Result (list (string * ServiceDefinition)) :=
  match docs with
  | [] => Ok services
  | doc :: docs =>
      if negb (is_kind "Service" doc) then compile_services labels named services docs else
      service ← compile_service labels named doc;
      let (services, old) := btree_insert RustOrd.str_compare (Discovery.service_name service) service services in
      ensure! negb (Connector.is_some old) else Err "duplicate Service name" ;;
      compile_services labels named services docs
  end.

Definition is_workload (doc : Json.Value) : bool := is_kind "Pod" doc || Connector.is_some (template_spec doc).

Definition extract_services (manifest : bytes) : Result (list ServiceDefinition) :=
  docs ← parse_yaml_documents_from_slice manifest;
  docs ← to_json_all docs;
  pod ← ok_or (List.find is_workload docs) "service manifest has no workload pod";
  spec ← ok_or (or_else (template_spec pod) (Json.get pod "spec")) "workload spec missing";
  let labels := or_else (Json.pointer ["spec"; "template"; "metadata"; "labels"] pod)
                        (Json.pointer ["metadata"; "labels"] pod) in
  containers ← ok_or (Json.as_array (index spec "containers")) "workload containers missing";
  named ← named_ports ∅ containers;
  services ← compile_services labels named [] docs;
  ensure! len services <=? Discovery.MAX_CATALOG_SERVICES else Err "too many Services" ;;
  Ok services.*2.

(** ** workload_services *)
Fixpoint tcp_ports (ports : list (Z * ServicePort)) (l : list Json.Value) : Result (list (Z * ServicePort)) :=
  match l with
  | [] => Ok ports
  | port :: l =>
      if none_or port "protocol" "TCP" then
        port ← number (index port "containerPort");
        tcp_ports (btree_insert Z.compare port {| Discovery.port := port; Discovery.target_port := port |} ports).1 l
      else tcp_ports ports l
  end.

Fixpoint container_tcp_ports (ports : list (Z * ServicePort)) (containers : list Json.Value)
    : Result (list (Z * ServicePort)) :=
  match containers with
  | [] => Ok ports
  | container :: containers =>
      ports ← tcp_ports ports (entries container "ports"); container_tcp_ports ports containers
  end.

Fixpoint document_tcp_ports (ports : list (Z * ServicePort)) (docs : list Yaml.Value) : Result (list (Z * ServicePort)) :=
  match docs with
  | [] => Ok ports
  | doc :: docs =>
      doc ← json_of_yaml doc;
      let containers := spec ← or_else (template_spec doc) (Json.get doc "spec");
                        x ← Json.get spec "containers"; Json.as_array x in
      ports ← container_tcp_ports ports (default [] containers);
      document_tcp_ports ports docs
  end.

Definition workload_services (manifest : bytes) : Result (list ServiceDefinition) :=
  services ← extract_services manifest;
  if negb (bool_decide (services = [])) then Ok services else
  docs ← parse_yaml_documents_from_slice manifest;
  ports ← document_tcp_ports [] docs;
  let ports := if bool_decide (ports = [])
               then [(18080, {| Discovery.port := 18080; Discovery.target_port := 18080 |})] else ports in
  ensure! len ports <=? Discovery.MAX_SERVICE_PORTS else Err "too many workload TCP ports" ;;
  Ok [{| Discovery.service_name := "workload"; Discovery.ports := ports.*2 |}].

(** ** What is published *)
Section BTree.
Context {K V : Type} (cmp : K -> K -> comparison) {L : RustOrd.CompareLaws cmp}.
Hypothesis cmp_eq : forall a b, cmp a b = Eq -> a = b.

Definition before (a b : K) : Prop := cmp a b = Lt.

Lemma btree_forall (P : K * V -> Prop) k v m :
  P (k, v) -> Forall P m -> Forall P (btree_insert cmp k v m).1.
Proof.
  intros Hk. induction 1 as [|[k' v'] m Hx Hm IH]; cbn; [by repeat constructor|].
  destruct (cmp k k') eqn:Hc.
  - apply cmp_eq in Hc as <-. by constructor.
  - by repeat constructor.
  - destruct (btree_insert cmp k v m) as [m' old]. by constructor.
Qed.

Lemma btree_sorted k (v : V) (m : list (K * V)) : StronglySorted before m.*1 -> StronglySorted before (btree_insert cmp k v m).1.*1.
Proof.
  induction m as [|[k' v'] m IH]; cbn; [by repeat constructor|]. intros [Hs Hall]%StronglySorted_inv.
  destruct (cmp k k') eqn:Hc; cbn.
  - by constructor.
  - constructor; [by constructor|]. constructor; [done|]. eapply Forall_impl; [exact Hall|].
    intros x Hx. by eapply (RustOrd.cmp_trans cmp).
  - specialize (IH Hs). pose proof (btree_forall (fun e => before k' e.1) k v m) as Hf.
    destruct (btree_insert cmp k v m) as [m' old]. cbn in *. constructor; [done|]. apply Forall_fmap, Hf.
    + unfold before. by rewrite (RustOrd.cmp_opp cmp k k'), Hc.
    + rewrite Forall_fmap in Hall. exact Hall.
Qed.
End BTree.

(** Ports in ascending order, all in range; names in ascending order. *)
Definition port_ok (p : ServicePort) : Prop :=
  1 <= Discovery.port p <= 65535 /\ 1 <= Discovery.target_port p <= 65535.

Definition service_ok (s : ServiceDefinition) : Prop :=
  Discovery.validate_service_label (Discovery.service_name s) = Ok tt /\
  Discovery.ports s <> [] /\ len (Discovery.ports s) <= Discovery.MAX_SERVICE_PORTS /\
  StronglySorted Z.lt (Discovery.port <$> Discovery.ports s) /\ Forall port_ok (Discovery.ports s).

Definition services_ok (l : list ServiceDefinition) : Prop :=
  l <> [] /\ len l <= Discovery.MAX_CATALOG_SERVICES /\ Forall service_ok l /\
  StronglySorted (fun a b => RustOrd.str_compare a b = Lt) (Discovery.service_name <$> l).

(** The map of ports the loops build. *)
Definition port_map (m : list (Z * ServicePort)) : Prop :=
  StronglySorted (before Z.compare) m.*1 /\ Forall (fun e => e.1 = Discovery.port e.2 /\ port_ok e.2) m.

Lemma port_map_insert p t m : 1 <= p <= 65535 -> 1 <= t <= 65535 -> port_map m ->
  port_map (btree_insert Z.compare p {| Discovery.port := p; Discovery.target_port := t |} m).1.
Proof.
  intros Hp Ht [Hs Hf]. split; [by apply (btree_sorted _ Z.compare_eq)|].
  by apply (btree_forall _ Z.compare_eq).
Qed.

Lemma port_map_ports m : port_map m -> StronglySorted Z.lt (Discovery.port <$> m.*2) /\ Forall port_ok m.*2.
Proof.
  intros [Hs Hf]. assert (Discovery.port <$> m.*2 = m.*1) as ->.
  { clear Hs. induction Hf as [|[k v] m [Hk _] _ IH]; [done|]. cbn in *. by rewrite IH, Hk. }
  split; [exact Hs|]. apply Forall_fmap. eapply Forall_impl; [exact Hf|]. by intros ? [_ ?].
Qed.

Lemma number_ok v n : number v = Ok n -> 1 <= n <= 65535.
Proof.
  unfold number. intros H. apply Quantities.bind_result in H as (x & _ & H).
  destruct (_ && _) eqn:Hb; [|done]. injection H as <-. lia.
Qed.

Definition ports_in_range (named : gmap string Z) : Prop := map_Forall (fun _ p => 1 <= p <= 65535) named.

Lemma container_ports_ok l named named' : container_ports named l = Ok named' -> ports_in_range named -> ports_in_range named'.
Proof.
  revert named. induction l as [|x l IH]; intros named; cbn [container_ports]; [by intros [= <-]|].
  destruct (_ ≫= Json.as_str) as [name|]; [|apply IH]. intros H. apply Quantities.bind_result in H as (n & Hn%number_ok & H).
  destruct (match named !! name with Some _ => _ | None => _ end); [|done]. intros Hr. eapply IH; [exact H|].
  by apply map_Forall_insert_2.
Qed.

Lemma named_ports_ok l named named' : named_ports named l = Ok named' -> ports_in_range named -> ports_in_range named'.
Proof.
  revert named. induction l as [|x l IH]; intros named; cbn [named_ports]; [by intros [= <-]|].
  intros H. apply Quantities.bind_result in H as (n & Hn & H). intros Hr. eapply IH; [exact H|]. by eapply container_ports_ok.
Qed.

Lemma service_ports_ok named l m m' :
  ports_in_range named -> service_ports named m l = Ok m' -> port_map m -> port_map m'.
Proof.
  intros Hr. revert m. induction l as [|x l IH]; intros m; cbn [service_ports]; [by intros [= <-]|].
  destruct (none_or _ _ _); [|done]. intros H. apply Quantities.bind_result in H as (p & Hp%number_ok & H).
  apply Quantities.bind_result in H as (t & Ht & H).
  assert (1 <= t <= 65535) as Ht'.
  { unfold target_of in Ht. destruct (Json.get x "targetPort") as [[]|]; try (by apply number_ok in Ht).
    - rewrite Quantities.ok_or_ok in Ht. by apply Hr in Ht.
    - by injection Ht as <-. }
  intros Hm. pose proof (port_map_insert p t m Hp Ht' Hm) as Hi. destruct (btree_insert _ _ _ _) as [m1 old].
  destruct (negb _); [|done]. by apply (IH m1).
Qed.

(** What the [btree_insert] of a service keeps. *)
Definition service_map (m : list (string * ServiceDefinition)) : Prop :=
  StronglySorted (before RustOrd.str_compare) m.*1 /\
  Forall (fun e => e.1 = Discovery.service_name e.2 /\ service_ok e.2) m.

Lemma compile_service_ok labels named doc service :
  ports_in_range named -> compile_service labels named doc = Ok service -> service_ok service.
Proof.
  intros Hr H. unfold compile_service in H. apply Quantities.bind_result in H as (name & _ & H).
  apply Quantities.bind_result in H as ([] & Hl & H). apply Quantities.bind_result in H as (spec & _ & H).
  destruct (none_or _ _ _); [|done]. apply Quantities.bind_result in H as (selectors & _ & H).
  destruct (selects _ _); [|done]. apply Quantities.bind_result in H as (l & _ & H).
  apply Quantities.bind_result in H as (ports & Hp & H).
  destruct (negb _ && _) eqn:Hc; [|done]. injection H as <-. apply andb_prop in Hc as [Hne%negb_true_iff%bool_decide_eq_false Hlen].
  destruct (port_map_ports ports) as [Hs Hf]; [by eapply service_ports_ok; [exact Hr|exact Hp|split; constructor]|].
  split_and!; cbn; try done.
  - by destruct ports.
  - unfold len in *. rewrite length_fmap. lia.
Qed.

Lemma compile_services_ok labels named docs m m' :
  ports_in_range named -> compile_services labels named m docs = Ok m' -> service_map m -> service_map m'.
Proof.
  intros Hr. revert m. induction docs as [|doc docs IH]; intros m; cbn [compile_services]; [by intros [= <-]|].
  destruct (negb _); [apply IH|]. intros H. apply Quantities.bind_result in H as (service & Hs & H). intros [Hsort Hf].
  pose proof (btree_sorted _ RustOrd.str_compare_eq (Discovery.service_name service) service m Hsort) as Hsort'.
  pose proof (btree_forall _ RustOrd.str_compare_eq _ (Discovery.service_name service) service m
    (conj eq_refl (compile_service_ok _ _ _ _ Hr Hs)) Hf) as Hf'.
  destruct (btree_insert _ _ _ _) as [m1 old]. destruct (negb _); [|done]. by apply (IH m1).
Qed.

Lemma tcp_ports_ok l m m' : tcp_ports m l = Ok m' -> port_map m -> port_map m'.
Proof.
  revert m. induction l as [|x l IH]; intros m; cbn [tcp_ports]; [by intros [= <-]|].
  destruct (none_or _ _ _); [|apply IH]. intros H. apply Quantities.bind_result in H as (p & Hp%number_ok & H).
  intros Hm. eapply IH; [exact H|]. by apply port_map_insert.
Qed.

Lemma container_tcp_ports_ok l m m' : container_tcp_ports m l = Ok m' -> port_map m -> port_map m'.
Proof.
  revert m. induction l as [|x l IH]; intros m; cbn [container_tcp_ports]; [by intros [= <-]|].
  intros H Hm. apply Quantities.bind_result in H as (m1 & H1%tcp_ports_ok & H); [|done]. by eapply IH.
Qed.

Lemma document_tcp_ports_ok l m m' : document_tcp_ports m l = Ok m' -> port_map m -> port_map m'.
Proof.
  revert m. induction l as [|x l IH]; intros m; cbn [document_tcp_ports]; [by intros [= <-]|].
  intros H Hm. apply Quantities.bind_result in H as (doc & _ & H).
  apply Quantities.bind_result in H as (m1 & H1%container_tcp_ports_ok & H); [|done]. by eapply IH.
Qed.

Lemma extract_services_ok manifest l : extract_services manifest = Ok l -> l <> [] -> services_ok l.
Proof.
  unfold extract_services. intros H Hne. apply Quantities.bind_result in H as (docs & _ & H).
  apply Quantities.bind_result in H as (json & _ & H). apply Quantities.bind_result in H as (pod & _ & H).
  apply Quantities.bind_result in H as (spec & _ & H). apply Quantities.bind_result in H as (containers & _ & H).
  apply Quantities.bind_result in H as (named & Hn & H). apply Quantities.bind_result in H as (services & Hs & H).
  destruct (_ <=? _) eqn:Hlen; [|done]. injection H as <-.
  assert (ports_in_range named) as Hr by (by eapply named_ports_ok; [exact Hn|apply map_Forall_empty]).
  destruct (compile_services_ok _ _ _ _ _ Hr Hs) as [Hsort Hf]; [split; constructor|].
  split_and!; [done|unfold len in *; rewrite length_fmap; lia|apply Forall_fmap; eapply Forall_impl; [exact Hf|by intros ? [_ ?]]|].
  assert (Discovery.service_name <$> services.*2 = services.*1) as ->; [|exact Hsort].
  clear -Hf. induction Hf as [|[k v] m [Hk _] _ IH]; [done|]. cbn in *. by rewrite IH, Hk.
Qed.

Lemma workload_services_ok manifest l : workload_services manifest = Ok l -> services_ok l.
Proof.
  unfold workload_services. intros H. apply Quantities.bind_result in H as (services & Hs & H).
  destruct (negb _) eqn:Hne; [apply negb_true_iff, bool_decide_eq_false in Hne; injection H as <-; by eapply extract_services_ok|].
  apply Quantities.bind_result in H as (docs & _ & H). apply Quantities.bind_result in H as (ports & Hp & H).
  apply document_tcp_ports_ok in Hp; [|split; constructor].
  set (ports' := if bool_decide (ports = []) then _ else ports) in H.
  assert (port_map ports' /\ ports' <> []) as [Hm Hne'].
  { unfold ports'. clear H Hne. case_bool_decide; [|by split]. split; [|done]. split; [repeat constructor|]. constructor; [|done]. cbn. unfold port_ok. cbn. lia. }
  destruct (_ <=? _) eqn:Hlen; [|done]. injection H as <-. apply port_map_ports in Hm as [Hsort Hf].
  unfold services_ok. split_and!; [done|done| |by repeat constructor]. constructor; [|done]. unfold service_ok. split_and!; try done.
  - by destruct ports'.
  - cbn. unfold len in *. rewrite length_fmap. lia.
Qed.

(** Ascending ports and names pass the checks of a catalog. *)
Lemma port_loop_sorted l unique :
  StronglySorted Z.lt (Discovery.port <$> l) -> Forall port_ok l ->
  (forall p u, p ∈ l -> u ∈ unique -> u < Discovery.port p) -> Discovery.port_loop unique l = Ok tt.
Proof.
  revert unique. induction l as [|p l IH]; intros unique; [done|]. cbn [Discovery.port_loop].
  rewrite fmap_cons. intros [Hs Hall]%StronglySorted_inv [Hp Hf]%Forall_cons Hu. unfold port_ok in Hp.
  assert (Discovery.port p ∉ unique) as Hn by (intros Hin; specialize (Hu p _ ltac:(by left) Hin); lia).
  rewrite bool_decide_false by done. replace (_ && _) with true by (symmetry; lia). apply IH; [done|done|].
  intros q u Hq [->|Hin]%elem_of_cons; [|apply Hu; [by right|done]].
  rewrite Forall_fmap, Forall_forall in Hall. by apply Hall.
Qed.

Lemma service_loop_sorted l names :
  StronglySorted (fun a b => RustOrd.str_compare a b = Lt) (Discovery.service_name <$> l) -> Forall service_ok l ->
  (forall s n, s ∈ l -> n ∈ names -> RustOrd.str_compare n (Discovery.service_name s) = Lt) ->
  Discovery.service_loop names l = Ok tt.
Proof.
  revert names. induction l as [|s l IH]; intros names; [done|]. cbn [Discovery.service_loop].
  rewrite fmap_cons. intros [Hs Hall]%StronglySorted_inv [(Hlabel & Hne & Hlen & Hports & Hf) Hl]%Forall_cons Hn.
  rewrite Hlabel. rewrite Signed.bind_eq.
  assert (Discovery.service_name s ∉ names) as Hnot.
  { intros Hin. specialize (Hn s _ ltac:(by left) Hin). rewrite (RustOrd.cmp_refl RustOrd.str_compare) in Hn. done. }
  rewrite (bool_decide_false (Discovery.service_name s ∈ names)), (bool_decide_false (Discovery.ports s = [])) by done.
  replace (len (Discovery.ports s) <=? _) with true by (symmetry; lia). cbn [negb andb].
  rewrite (port_loop_sorted _ [] Hports Hf) by (intros ? ? _ Hin; by apply not_elem_of_nil in Hin).
  rewrite Signed.bind_eq. apply IH; [done|done|].
  intros q n Hq [->|Hin]%elem_of_cons; [|apply Hn; [by right|done]].
  rewrite Forall_fmap, Forall_forall in Hall. by apply Hall.
Qed.

(** C33. What a manifest publishes is a well-formed catalog.  The services of a
    workload are at least one and at most 32, under distinct valid labels in
    ascending order; each has between one and 16 ports, ascending and distinct,
    all of them and their targets between 1 and 65535; and they pass the checks
    of a catalog that is signed with them. *)
Theorem services_wellformed (manifest : bytes) (l : list ServiceDefinition) :
  workload_services manifest = Ok l -> services_ok l /\ Discovery.service_loop [] l = Ok tt.
Proof.
  intros H%workload_services_ok. split; [done|]. destruct H as (_ & _ & Hf & Hs).
  apply service_loop_sorted; [done|done|]. intros ? ? _ Hin. by apply not_elem_of_nil in Hin.
Qed.
End Extract.

(** A pod and the service it is reached by. *)
Module Sample.
Definition obj (l : list (string * Yaml.Value)) : Yaml.Value := Yaml.Mapping ((fun e => (Yaml.Str e.1, e.2)) <$> l).
Definition int (n : Z) : Yaml.Value := Yaml.Num (PosInt n).

Definition pod : Yaml.Value :=
  obj [("kind", Yaml.Str "Pod");
       ("metadata", obj [("name", Yaml.Str "app"); ("labels", obj [("app", Yaml.Str "api")])]);
       ("spec", obj [("containers", Yaml.Sequence
          [obj [("name", Yaml.Str "app");
                ("ports", Yaml.Sequence [obj [("name", Yaml.Str "http"); ("containerPort", int 8080)]])]])])].
Definition service : Yaml.Value :=
  obj [("kind", Yaml.Str "Service"); ("metadata", obj [("name", Yaml.Str "api")]);
       ("spec", obj [("selector", obj [("app", Yaml.Str "api")]);
                     ("ports", Yaml.Sequence [obj [("port", int 80); ("targetPort", Yaml.Str "http")]; obj [("port", int 22)]])])].
Definition yaml : YamlSupport := YamlTable.support [pod; service].

Definition compiled : list ServiceDefinition :=
  [{| Discovery.service_name := "api";
      Discovery.ports := [{| Discovery.port := 22; Discovery.target_port := 22 |};
                          {| Discovery.port := 80; Discovery.target_port := 8080 |}] |}].

(** Without the service document, the container's port is published. *)
Lemma compiled_eq :
  @workload_services yaml (as_bytes "AB") = Ok compiled /\
  @workload_services yaml (as_bytes "A") =
    Ok [{| Discovery.service_name := "workload"; Discovery.ports := [{| Discovery.port := 8080; Discovery.target_port := 8080 |}] |}].
Proof. by vm_compute. Qed.
End Sample.

Lemma services_wellformed_witness : services_ok Sample.compiled /\ Discovery.service_loop [] Sample.compiled = Ok tt.
Proof. exact (@services_wellformed Sample.yaml _ _ (proj1 Sample.compiled_eq)). Defined.
End ServiceManifest.
