(* ===== verification/NetDisplay.v ===== *)
(** * How addresses are displayed

    [ToString] for [SocketAddr] and [IpAddr] (core::net), the counterpart of the
    parsers of Net.v. *)

From stdpp Require Import pretty.
From S2P Require Import Prelude Net.
From Stdlib Require Import Ascii.
#[local] Open Scope Z_scope.

Module NetDisplay.
Import Net.

(** [{}] of an unsigned integer. *)
Definition show (n : Z) : string := pretty (Z.to_N n).

Fixpoint join (sep : string) (l : list string) : string :=
  match l with [] => "" | [x] => x | x :: l => x +:+ sep +:+ join sep l end.

(** [{:x}] of a 16-bit group. *)
Fixpoint strip_zeros (l : list ascii) : list ascii :=
  match l with
  | c :: rest =>
      match rest with
      | [] => l
      | _ :: _ => if bool_decide (c = "0"%char) then strip_zeros rest else l
      end
  | [] => []
  end.
Definition show_group (g : Z) : string :=
  of_chars (strip_zeros [hex_digit (g / 4096); hex_digit (g / 256 mod 16); hex_digit (g / 16 mod 16); hex_digit (g mod 16)]).

Definition show_ipv4 (octets : list Z) : string := join "." (show <$> octets).

(** The longest run of zero groups, the first of several: where it starts and
    how long it is. *)
Fixpoint longest_run (i : nat) (current longest : nat * nat) (groups : list Z) : nat * nat :=
  match groups with
  | [] => longest
  | g :: groups =>
      if g =? 0 then
        let current := if (snd current =? 0)%nat then (i, 1%nat) else (fst current, S (snd current)) in
        longest_run (S i) current (if (snd longest <? snd current)%nat then current else longest) groups
      else longest_run (S i) (0%nat, 0%nat) longest groups
  end.

Definition show_ipv6 (groups : list Z) : string :=
  match groups with
  | [0; 0; 0; 0; 0; 65535; a; b] => "::ffff:" +:+ show_ipv4 [a / 256; a mod 256; b / 256; b mod 256]
  | _ =>
      let (start, n) := longest_run 0 (0%nat, 0%nat) (0%nat, 0%nat) groups in
      if (1 <? n)%nat
      then join ":" (show_group <$> firstn start groups) +:+ "::" +:+ join ":" (show_group <$> skipn (start + n) groups)
      else join ":" (show_group <$> groups)
  end.

Definition show_ip_addr (a : IpAddr) : string :=
  match a with IpV4 octets => show_ipv4 octets | IpV6 groups => show_ipv6 groups end.

Definition show_socket_addr (a : SocketAddr) : string :=
  match a with
  | V4 octets port => show_ipv4 octets +:+ ":" +:+ show port
  | V6 groups scope_id port =>
      "[" +:+ show_ipv6 groups +:+ (if scope_id =? 0 then "" else "%" +:+ show scope_id) +:+ "]:" +:+ show port
  end.

Definition socket_port (a : SocketAddr) : Z := match a with V4 _ p | V6 _ _ p => p end.

Example show_v4 : show_socket_addr (V4 [127; 0; 0; 1] 4000) = "127.0.0.1:4000".
Proof. reflexivity. Qed.
Example show_v6 : show_socket_addr (V6 [8193; 3512; 0; 0; 1; 0; 0; 10] 3 443) = "[2001:db8::1:0:0:a%3]:443".
Proof. reflexivity. Qed.
Example show_v6_mapped : show_ip_addr (IpV6 [0; 0; 0; 0; 0; 65535; 258; 772]) = "::ffff:1.2.3.4".
Proof. reflexivity. Qed.
Example show_v6_any : show_ip_addr (IpV6 [0; 0; 0; 0; 0; 0; 0; 0]) = "::".
Proof. reflexivity. Qed.
End NetDisplay.
