(* ===== verification/HttpConnect.v ===== *)
(** * The explicit HTTP proxy of a sidecar (podmesh-sidecar/src/http_connect_proxy.rs)

    Applications that are configured with an HTTP proxy talk to this one; it
    reads the head of a request, opens a tunnel to the destination it names, and
    for plain HTTP forwards the request with a relative target and without the
    headers meant for the proxy.  The bytes of the client come in chunks, the
    list of what the reads of the connection return before the deadline; the
    head does not depend on where they are cut.  The transparent proxy
    (egress_proxy.rs) makes the same tunnel requests. *)

From S2P Require Import Prelude Net Text Urls Crypto Signed Quantities NetDisplay.
From Stdlib Require Import Ascii.

Module HttpConnect.
Import Crypto Net Text Urls Quantities NetDisplay.

Definition CR : byte := Byte.x0d.
Definition LF : byte := Byte.x0a.
Definition CRLF : string := of_chars [carriage_return; newline].

(** ** The httparse crate

    [Request::parse] with room for a number of headers: whether the head is
    complete, and the fields of the request. *)
Inductive HttpError := TooManyHeaders | Malformed.
Record HttpRequest := {
  method : option string;
  target_path : option string;
  version : option Z;
  parsed_headers : list (string * bytes)
}.
Class HttpParser := { request_parse : Z -> bytes -> result HttpError (bool * HttpRequest) }.

(** Neither a line feed nor a carriage return. *)
Definition inline (c : ascii) : Prop := c <> newline /\ c <> carriage_return.
Definition inline_text (s : string) : Prop := Forall inline (chars_of s).

Class HttpParserLaws (H : HttpParser) : Prop := {
  (** The parts of the request line and the headers hold no line breaks, methods
      and header names are not empty, and the minor version is 0 or 1. *)
  parse_inline n b complete r : request_parse n b = Ok (complete, r) ->
    (forall m, method r = Some m -> m <> "" /\ inline_text m) /\
    (forall p, target_path r = Some p -> inline_text p) /\
    (forall v, version r = Some v -> v = 0 \/ v = 1) /\
    Forall (fun h => h.1 <> "" /\ inline_text h.1 /\ CR ∉ h.2 /\ LF ∉ h.2) (parsed_headers r)
}.

Class UrlPaths (U : UrlParser) : Prop := {
  (** Control characters in paths and queries are percent-encoded. *)
  path_inline i u : url_parse i = Ok u -> inline_text (path u) /\ forall q, query u = Some q -> inline_text q
}.

(** ** The head of a request *)
Definition MAX_HEAD_BYTES : Z := 16 * 1024.
Definition MAX_HEADERS : Z := 64.

(** [Io]: the connection broke. *)
Inductive HeadError := Invalid | TooLarge | Io (e : string).
Record RequestHead := { request_line : string; headers : list string }.

Section Proxy.
Context {HP : HttpParser} {U : UrlParser}.

Definition header_line (h : string * bytes) : result HeadError string :=
  value ← ok_or (from_utf8 h.2) Invalid; Ok (h.1 +:+ ": " +:+ value +:+ CRLF).

Definition parse_head (b : bytes) : result HeadError RequestHead :=
  match request_parse MAX_HEADERS b with
  | Err TooManyHeaders => Err TooLarge
  | Err Malformed => Err Invalid
  | Ok (complete, r) =>
      ensure! complete else Err Invalid ;;
      m ← ok_or (method r) Invalid;
      p ← ok_or (target_path r) Invalid;
      v ← ok_or (version r) Invalid;
      lines ← mapM header_line (parsed_headers r);
      Ok {| request_line := m +:+ " " +:+ p +:+ " HTTP/1." +:+ show v; headers := lines |}
  end.

(** The buffered reader of the connection: what it holds, and what its reads
    return until the deadline; an empty chunk is the end of the stream. *)
Record Reader := { buffer : bytes; arrivals : list (Result bytes) }.

Definition fill_buf (r : Reader) : option (Result bytes * Reader) :=
  match buffer r, arrivals r with
  | [], [] => None
  | [], Ok b :: rest => Some (Ok b, {| buffer := b; arrivals := rest |})
  | [], Err e :: rest => Some (Err e, {| buffer := []; arrivals := rest |})
  | b, _ => Some (Ok b, r)
  end.
Definition consume (n : nat) (r : Reader) : Reader := {| buffer := drop n (buffer r); arrivals := arrivals r |}.

(** The length of the first line, with its line feed. *)
Fixpoint line_length (l : bytes) : Z :=
  match l with
  | [] => 0
  | b :: l => if bool_decide (b = LF) then 1 else 1 + line_length l
  end.

(** [ends_with(b"\r\n\r\n") || ends_with(b"\n\n")], of the bytes read backwards. *)
Definition ends_head (reversed : bytes) : bool :=
  bool_decide (take 4 reversed = [LF; CR; LF; CR]) || bool_decide (take 2 reversed = [LF; LF]).

(** [None]: the deadline passed first. *)
Fixpoint read_loop (fuel : nat) (maximum : Z) (read : bytes) (r : Reader) : Reader * option (result HeadError RequestHead) :=
  ensure! len read <? maximum else (r, Some (Err TooLarge)) ;;
  match fuel with
  | O => (r, Some (Err TooLarge))
  | S fuel =>
      match fill_buf r with
      | None => (r, None)
      | Some (Err e, r) => (r, Some (Err (Io e)))
      | Some (Ok available, r) =>
          ensure! negb (bool_decide (available = [])) else (r, Some (Err Invalid)) ;;
          let length := Z.to_nat (Z.min (line_length available) (maximum - len read)) in
          let read := read ++ take length available in
          let r := consume length r in
          if ends_head (rev read) then (r, Some (parse_head read)) else read_loop fuel maximum read r
      end
  end.
Definition read_head (r : Reader) (maximum : Z) : Reader * option (result HeadError RequestHead) :=
  read_loop (Z.to_nat maximum) maximum [] r.

(** ** Where a request goes *)

(** [str::trim_start_matches(c)]. *)
Definition trim_start_matches (c : ascii) (s : string) : string :=
  of_chars (trim_start_chars (fun x => bool_decide (x = c)) (chars_of s)).

Definition parse_proxy_url (url : string) : Result (string * Z * string) :=
  match url_parse url with
  | Err _ => Err "invalid HTTP proxy URL"
  | Ok parsed =>
      ensure! web_scheme parsed else Err "unsupported HTTP proxy URL scheme" ;;
      ensure! str_is_empty (username parsed) && bool_decide (password parsed = None)
        else Err "HTTP proxy URL must not contain credentials" ;;
      host ← ok_or (host_str parsed) "HTTP proxy URL has no host";
      let host := trim_end_matches "]" (trim_start_matches "[" host) in
      port ← ok_or (port_or_known_default parsed) "HTTP proxy URL has no port";
      Ok (host, port, match query parsed with Some q => path parsed +:+ "?" +:+ q | None => path parsed end)
  end.

Definition parse_host_port (target : string) : Result (string * Z) :=
  match chars_of target with
  | c :: l =>
      if bool_decide (c = "["%char) then
        match break_at "]" l with
        | (host, Some after) =>
            match after with
            | c :: port_part =>
                if bool_decide (c = ":"%char) then
                  port ← ok_or (parse_uint u16_max (of_chars port_part)) "invalid port in CONNECT target";
                  Ok (of_chars host, port)
                else Err "invalid IPv6 CONNECT target"
            | [] => Err "invalid IPv6 CONNECT target"
            end
        | (_, None) => Err "invalid IPv6 CONNECT target"
        end
      else match rsplit_at ":" target with
           | Some (host, port_part) =>
               port ← ok_or (parse_uint u16_max port_part) "invalid port in CONNECT target"; Ok (host, port)
           | None => Ok (target, 443)
           end
  | [] => Ok (target, 443)
  end.

(** ** Handing a connection over *)
Inductive EgressProtocol := Tcp | Udp.
Record TunnelRequest := {
  dest_host : string;
  dest_port : Z;
  protocol : EgressProtocol;
  client_stream : list (Result bytes);  (* what is still to be read from it *)
  send_http_200 : bool;
  initial_data : option bytes
}.

(** [error_write]: how writing an error response ends; [queue_slot]: whether the
    queue of tunnels has room within HANDOFF_TIMEOUT. *)
Record Peer := { error_write : Result unit; queue_slot : bool }.

(** What the handler did: the tunnel it queued, and the response it wrote. *)
Record Handled := { tunnel : option TunnelRequest; reply : option string; outcome : Result unit }.
Definition failed (e : string) : Handled := {| tunnel := None; reply := None; outcome := Err e |}.

Definition send_error (io : Peer) (status : Z) (message : string) : Handled :=
  {| tunnel := None;
     reply := Some ("HTTP/1.1 " +:+ show status +:+ " " +:+ message +:+ CRLF +:+ "Content-Length: 0" +:+ CRLF +:+
                    "Connection: close" +:+ CRLF +:+ CRLF);
     outcome := error_write io |}.

Definition handoff (io : Peer) (request : TunnelRequest) : Handled :=
  if queue_slot io then {| tunnel := Some request; reply := None; outcome := Ok tt |}
  else send_error io 503 "Service Unavailable".

Definition handle_connect (io : Peer) (target : string) (r : Reader) : Handled :=
  match parse_host_port target with
  | Err e => failed e
  | Ok (host, port) =>
      handoff io {| dest_host := host; dest_port := port; protocol := Tcp; client_stream := arrivals r; send_http_200 := true;
                    initial_data := if bool_decide (buffer r = []) then None else Some (buffer r) |}
  end.

(** [to_lowercase] maps no other character than the ASCII letters to one of
    the letters of the prefix. *)
Definition for_proxy (header : string) : bool := starts_with "proxy-" (to_ascii_lowercase header).

Definition forwarded_head (method path version : string) (headers : list string) : bytes :=
  as_bytes (method +:+ " " +:+ path +:+ " " +:+ version +:+ CRLF) ++
  flat_map as_bytes (list_retain (fun header => negb (for_proxy header)) headers) ++ as_bytes CRLF.

Definition handle_http_proxy (io : Peer) (request_line : string) (headers : list string) (r : Reader) : Handled :=
  match split_whitespace request_line with
  | method :: url :: version :: _ =>
      match parse_proxy_url url with
      | Err e => failed e
      | Ok (host, port, path) =>
          handoff io {| dest_host := host; dest_port := port; protocol := Tcp; client_stream := arrivals r;
                        send_http_200 := false;
                        initial_data := Some (forwarded_head method path version headers ++ buffer r) |}
      end
  | _ => failed "invalid request line"
  end.

Definition valid_target (method target : string) : bool :=
  if bool_decide (method = "CONNECT") then
    match parse_host_port target with Ok (host, port) => negb (str_is_empty host) && negb (port =? 0) | Err _ => false end
  else match parse_proxy_url target with Ok (_, port, _) => negb (port =? 0) | Err _ => false end.

Definition handle_connection_at (io : Peer) (incoming : list (Result bytes)) (head_bytes : Z) : Handled :=
  let (r, head) := read_head {| buffer := []; arrivals := incoming |} head_bytes in
  match head with
  | None => {| tunnel := None; reply := None; outcome := Ok tt |}
  | Some (Err TooLarge) => send_error io 431 "Request Header Fields Too Large"
  | Some (Err _) => send_error io 400 "Bad Request"
  | Some (Ok head) =>
      match split_whitespace (request_line head) with
      | [method; target; _] =>
          ensure! valid_target method target else send_error io 400 "Bad Request" ;;
          if bool_decide (method = "CONNECT") then handle_connect io target r
          else handle_http_proxy io (request_line head) (headers head) r
      | _ => send_error io 400 "Bad Request"
      end
  end.

(** The transparent proxy: the destination the kernel redirected from. *)
Definition transparent_request (original_dst : Result SocketAddr) (incoming : list (Result bytes)) : Result TunnelRequest :=
  match original_dst with
  | Err _ => Err "Failed to get original destination"
  | Ok address =>
      Ok {| dest_host := show_ip_addr (match address with V4 ip _ => IpV4 ip | V6 ip _ _ => IpV6 ip end);
            dest_port := socket_port address; protocol := Tcp; client_stream := incoming; send_http_200 := false;
            initial_data := None |}
  end.
End Proxy.
End HttpConnect.
