(* ===== verification/HttpSafety.v ===== *)
(** * What the explicit HTTP proxy promises

    The head of a request is found independently of how its bytes arrive, and
    what leaves through the tunnel is the request that came in: the same body,
    behind one head with the lines of the client's. *)

From S2P Require Import Prelude Net Text Urls Crypto Signed Quantities NetDisplay HttpConnect.
From Stdlib Require Import Ascii.

Module HttpSafety.
Import Crypto Net Text Urls Quantities NetDisplay HttpConnect.

(** ** The first head in a sequence of bytes *)
Fixpoint scan (seen l : bytes) : option (bytes * bytes) :=
  match l with
  | [] => None
  | b :: l => if ends_head (b :: seen) then Some (rev (b :: seen), l) else scan (b :: seen) l
  end.
Definition split_head : bytes -> option (bytes * bytes) := scan [].

(** What a client sent, and what ended it: [None] when it just stopped sending. *)
Fixpoint stream_of (l : list (Result bytes)) : bytes * option HeadError :=
  match l with
  | [] => ([], None)
  | Err e :: _ => ([], Some (Io e))
  | Ok b :: rest => if bool_decide (b = []) then ([], Some Invalid) else let (s, e) := stream_of rest in (b ++ s, e)
  end.

Definition pending (r : Reader) : bytes * option HeadError :=
  let (s, e) := stream_of (arrivals r) in (buffer r ++ s, e).

Section Head.
Context {HP : HttpParser}.

(** The head of a stream, whichever way it is read. *)
Definition head_of (maximum : Z) (seen : bytes) (s : bytes * option HeadError) : option (result HeadError RequestHead) :=
  match scan seen s.1 with
  | Some (h, _) => Some (if len h <=? maximum then parse_head h else Err TooLarge)
  | None => if maximum <=? len seen + len s.1 then Some (Err TooLarge) else Err <$> s.2
  end.

Lemma scan_len seen l h rest : scan seen l = Some (h, rest) -> len seen < len h /\ rev seen ++ l = h ++ rest.
Proof.
  revert seen. induction l as [|b l IH]; intros seen; cbn [scan]; [done|]. case_match.
  - intros [= <- <-]. cbn [rev]. rewrite <- app_assoc. split; [|done]. unfold len. rewrite length_app, length_rev. cbn. lia.
  - intros [H1 H2]%IH. unfold len in *. cbn in H1. split; [lia|]. rewrite <- H2. cbn [rev]. by rewrite <- app_assoc.
Qed.

Lemma ends_head_lf b seen : ends_head (b :: seen) = true -> b = LF.
Proof. unfold ends_head. intros [H|H]%orb_prop; bool_props; cbn in H; congruence. Qed.

(** Only a line feed can complete a head. *)
Lemma scan_skip seen a b l : LF ∉ a ->
  scan seen (a ++ b :: l) = if ends_head (b :: rev a ++ seen) then Some (rev (b :: rev a ++ seen), l) else scan (b :: rev a ++ seen) l.
Proof.
  revert seen. induction a as [|x a IH]; intros seen Ha; [done|]. cbn [app scan].
  destruct (ends_head (x :: seen)) eqn:E; [apply ends_head_lf in E; set_solver|].
  rewrite IH by set_solver. cbn [rev]. by rewrite <- !app_assoc.
Qed.

Lemma scan_none seen a : LF ∉ a -> scan seen a = None.
Proof.
  revert seen. induction a as [|x a IH]; intros seen Ha; cbn [scan]; [done|].
  destruct (ends_head (x :: seen)) eqn:E; [apply ends_head_lf in E; set_solver|]. apply IH. set_solver.
Qed.

Lemma line_length_take l n : l <> [] -> 0 < n <= line_length l ->
  exists a b, take (Z.to_nat n) l = a ++ [b] /\ LF ∉ a.
Proof.
  revert n. induction l as [|x l IH]; intros n Hne Hn; [done|]. cbn [line_length] in Hn.
  destruct (decide (n = 1)) as [->|Hn1]; [exists [], x; split; [done|set_solver]|].
  case_bool_decide as Hx; [lia|]. destruct l as [|y l]; [cbn in Hn; lia|].
  destruct (IH (n - 1)) as (a & b & Hab & Ha); [done|lia|]. exists (x :: a), b.
  replace (Z.to_nat n) with (S (Z.to_nat (n - 1))) by lia. cbn [take]. rewrite Hab. split; [done|set_solver].
Qed.

Lemma line_length_pos l : l <> [] -> 0 < line_length l <= len l.
Proof.
  unfold len. induction l as [|x l IH]; [done|]. intros _. cbn [line_length]. case_bool_decide; [cbn; lia|].
  destruct l as [|y l]; [cbn; lia|]. specialize (IH ltac:(done)). cbn [length] in *. lia.
Qed.

(** Reading on, a part of the first line at a time. *)
Lemma scan_chunk seen l n rest : l <> [] -> 0 < n <= line_length l ->
  let part := take (Z.to_nat n) l in
  scan seen (l ++ rest) =
    if ends_head (rev part ++ seen) then Some (rev seen ++ part, drop (Z.to_nat n) l ++ rest)
    else scan (rev part ++ seen) (drop (Z.to_nat n) l ++ rest).
Proof.
  intros Hne Hn. cbn zeta. destruct (line_length_take l n) as (a & b & Hab & Ha); [done..|].
  rewrite <- (take_drop (Z.to_nat n) l) at 1. rewrite Hab, <- !app_assoc. cbn [app].
  rewrite scan_skip by done. rewrite rev_app_distr. cbn [rev app].
  by rewrite rev_app_distr, rev_involutive, <- app_assoc.
Qed.

Lemma fill_buf_some r a r' : fill_buf r = Some (Ok a, r') -> a <> [] -> buffer r' = a /\ pending r' = pending r.
Proof.
  destruct r as [[|x b] [|[c|e] rest]]; cbn; intros [= <- <-] Hne; cbn; try done.
  split; [done|]. unfold pending. cbn. rewrite bool_decide_false by done. by destruct (stream_of rest).
Qed.

Lemma pending_nil r r' a : fill_buf r = Some (a, r') -> match a with Ok b => b = [] | Err _ => True end ->
  pending r = ([], Some (match a with Ok _ => Invalid | Err e => Io e end)).
Proof.
  destruct r as [[|x b] [|[c|e] rest]]; cbn; intros [= <- <-] Ha; subst; try done.
Qed.

(** ** Reading it *)
Lemma head_of_full maximum seen s : maximum <= len seen -> head_of maximum seen s = Some (Err TooLarge).
Proof.
  intros Hm. unfold head_of. destruct (scan seen s.1) as [[h x]|] eqn:Hs.
  - apply scan_len in Hs as [Hs _]. destruct (Z.leb_spec (len h) maximum); [lia|done].
  - pose proof (Zle_0_nat (length s.1)). destruct (Z.leb_spec maximum (len seen + len s.1)); [done|unfold len in *; lia].
Qed.

Lemma head_of_chunk maximum seen l n s e : l <> [] -> 0 < n <= line_length l -> len seen + n <= maximum ->
  let part := take (Z.to_nat n) l in
  head_of maximum seen (l ++ s, e) =
    if ends_head (rev part ++ seen) then Some (parse_head (rev seen ++ part))
    else head_of maximum (rev part ++ seen) (drop (Z.to_nat n) l ++ s, e).
Proof.
  intros Hne Hn Hm part. pose proof (line_length_pos l Hne) as Hl.
  assert (Hlen : length part = Z.to_nat n) by (unfold part; rewrite length_take; unfold len in *; lia).
  unfold head_of. cbn [fst snd]. rewrite (scan_chunk seen l n) by done. fold part. destruct (ends_head _).
  - destruct (Z.leb_spec (len (rev seen ++ part)) maximum) as [|H]; [done|].
    unfold len in *. rewrite length_app, length_rev in H. lia.
  - destruct (scan _ _) as [[h x]|]; [done|].
    replace (len (rev part ++ seen) + len (drop (Z.to_nat n) l ++ s)) with (len seen + len (l ++ s)); [done|].
    unfold len in *. rewrite !length_app, length_rev, length_drop. lia.
Qed.

Lemma pending_consume n r : pending (consume n r) = (drop n (buffer r) ++ (stream_of (arrivals r)).1, (pending r).2).
Proof. unfold pending. cbn. by destruct (stream_of (arrivals r)). Qed.

Lemma pending_buffer r : pending r = (buffer r ++ (stream_of (arrivals r)).1, (pending r).2).
Proof. unfold pending. by destruct (stream_of (arrivals r)). Qed.

Lemma read_loop_spec fuel maximum read r r' res :
  maximum - len read <= Z.of_nat fuel -> read_loop fuel maximum read r = (r', res) ->
  res = head_of maximum (rev read) (pending r) /\
  (forall head, res = Some (Ok head) -> exists h, parse_head h = Ok head /\ len h <= maximum /\
     scan (rev read) (pending r).1 = Some (h, (pending r').1) /\ (pending r').2 = (pending r).2).
Proof.
  revert read r. induction fuel as [|fuel IH]; intros read r Hfuel; cbn [read_loop];
    assert (Hrev : len (rev read) = len read) by (unfold len; by rewrite length_rev);
    destruct (Z.ltb_spec (len read) maximum) as [Hlt|Hge]; try lia.
  1, 3: intros [= <- <-]; by rewrite head_of_full by lia.
  destruct (fill_buf r) as [[[available|e] r1]|] eqn:Hf.
  - case_bool_decide as Ha.
    { intros [= <- <-]. split; [|done]. unfold head_of. rewrite (pending_nil _ _ _ Hf Ha). cbn [scan fst snd].
      change (len []) with 0. destruct (Z.leb_spec maximum (len (rev read) + 0)); [lia|done]. }
    destruct (fill_buf_some _ _ _ Hf Ha) as [Hb Hp]. cbn [negb].
    pose proof (line_length_pos available Ha) as Hl. set (n := Z.min (line_length available) (maximum - len read)).
    assert (Hn : 0 < n <= line_length available) by (subst n; lia).
    set (part := take (Z.to_nat n) available). rewrite rev_app_distr. rewrite <- Hp.
    assert (Hpart : length part = Z.to_nat n) by (unfold part; rewrite length_take; unfold len in *; lia).
    rewrite (pending_buffer r1), Hb.
    rewrite (head_of_chunk _ _ available n) by (solve [done|subst n; lia]). rewrite rev_involutive. fold part. cbn [fst snd].
    rewrite (scan_chunk _ available n) by done. fold part.
    destruct (ends_head (rev part ++ rev read)).
    + intros [= <- <-]. split; [done|]. intros head Hh. injection Hh as Hh. exists (read ++ part).
      rewrite pending_consume, Hb, rev_involutive. cbn [fst snd]. split_and!; [done| |done|done].
      unfold len in *. rewrite length_app. lia.
    + intros He. apply IH in He; [|unfold len in *; rewrite length_app; lia].
      rewrite rev_app_distr, pending_consume, Hb in He. done.
  - intros [= <- <-]. split; [|done]. unfold head_of. rewrite (pending_nil _ _ _ Hf I). cbn [scan fst snd].
    change (len []) with 0. destruct (Z.leb_spec maximum (len (rev read) + 0)); [lia|done].
  - intros [= <- <-]. split; [|done].
    assert (Hn : pending r = ([], None)) by by destruct r as [[|x b] [|[c|e] rest]].
    unfold head_of. rewrite Hn. cbn [scan fst snd]. change (len []) with 0.
    destruct (Z.leb_spec maximum (len (rev read) + 0)); [lia|done].
Qed.

Lemma read_head_spec l maximum r res : 0 <= maximum -> read_head {| buffer := []; arrivals := l |} maximum = (r, res) ->
  res = head_of maximum [] (stream_of l) /\
  (forall head, res = Some (Ok head) -> exists h, parse_head h = Ok head /\ len h <= maximum /\
     split_head (stream_of l).1 = Some (h, (pending r).1) /\ (pending r).2 = (stream_of l).2).
Proof.
  intros Hm Hr. apply read_loop_spec in Hr; [|change (len []) with 0; lia]. unfold pending in Hr at 1 2 5. cbn in Hr.
  unfold pending in Hr. cbn in Hr. destruct (stream_of l). done.
Qed.
End Head.

(** ** Lines *)
Lemma as_bytes_chars s : as_bytes s = byte_of_ascii <$> chars_of s.
Proof. done. Qed.

Lemma inline_bytes s : inline_text s -> LF ∉ as_bytes s /\ CR ∉ as_bytes s.
Proof.
  intros H. rewrite as_bytes_chars.
  split; intros (c & Hc & Hin)%list_elem_of_fmap; unfold inline_text in H; rewrite Forall_forall in H; destruct (H c Hin) as [Hn Hr];
    apply (f_equal ascii_of_byte) in Hc; rewrite ascii_of_byte_of_ascii in Hc; subst; by cbn in *.
Qed.

Lemma inline_app a b : inline_text a -> inline_text b -> inline_text (a +:+ b).
Proof. unfold inline_text. rewrite chars_of_app. by apply Forall_app_2. Qed.

Lemma inline_word s w : inline_text s -> w ∈ split_whitespace s -> inline_text w.
Proof.
  unfold inline_text, split_whitespace. intros Hs (x & -> & Hx)%list_elem_of_fmap. rewrite chars_of_of_chars.
  rewrite Forall_forall in *. intros c Hc. destruct (unicode_words_in _ _ _ Hx c Hc); [set_solver|auto].
Qed.

(** A line of a head: some text, ended by a carriage return and a line feed. *)
Definition head_line (b : bytes) : Prop := exists x, b = x ++ [CR; LF] /\ x <> [] /\ LF ∉ x /\ CR ∉ x.

Lemma crlf_bytes : as_bytes CRLF = [CR; LF].
Proof. done. Qed.

Lemma head_line_of s : inline_text s -> s <> "" -> head_line (as_bytes (s +:+ CRLF)).
Proof.
  intros Hs Hne. exists (as_bytes s). rewrite as_bytes_app, crlf_bytes. destruct (inline_bytes s Hs).
  split_and!; [done| |done..]. by destruct s.
Qed.

Lemma scan_line seen x rest : x <> [] -> LF ∉ x -> scan seen ((x ++ [CR; LF]) ++ rest) = scan (LF :: CR :: rev x ++ seen) rest.
Proof.
  intros Hne Hx. replace ((x ++ [CR; LF]) ++ rest) with ((x ++ [CR]) ++ LF :: rest) by by rewrite <- !app_assoc.
  rewrite scan_skip by (rewrite elem_of_app; intros [?|?%list_elem_of_singleton]; done). rewrite rev_app_distr. cbn [rev app].
  destruct (rev x) as [|y r] eqn:Hr; [destruct Hne; by rewrite <- (rev_involutive x), Hr|].
  assert (y <> LF). { intros ->. apply Hx, list_elem_of_In, in_rev. rewrite Hr. by left. }
  unfold ends_head. rewrite !bool_decide_false; [done|by intros [=]|]. intros [=]. done.
Qed.

Lemma scan_lines lines s body : Forall head_line lines ->
  scan (LF :: CR :: s) (concat lines ++ [CR; LF] ++ body) = Some (rev s ++ [CR; LF] ++ concat lines ++ [CR; LF], body).
Proof.
  intros Hl. revert s. induction Hl as [|b lines (x & -> & Hne & Hlf & _) Hl IH]; intros s.
  - cbn. by rewrite <- !app_assoc.
  - cbn [concat]. rewrite <- app_assoc, scan_line by done. rewrite IH. f_equal. f_equal.
    rewrite rev_app_distr, rev_involutive. cbn [rev]. by rewrite <- !app_assoc.
Qed.

Lemma split_lines line lines body : head_line line -> Forall head_line lines ->
  split_head ((line ++ concat lines ++ [CR; LF]) ++ body) = Some (line ++ concat lines ++ [CR; LF], body).
Proof.
  intros (x & -> & Hne & Hlf & _) Hl. unfold split_head. rewrite <- !app_assoc, app_assoc, scan_line by done.
  rewrite scan_lines by done. f_equal. f_equal. rewrite rev_app_distr, rev_involutive. cbn [rev app]. by rewrite <- ?app_assoc.
Qed.

(** ** Requests *)
Section Requests.
Context {HP : HttpParser} {U : UrlParser}.
Context {HL : HttpParserLaws HP} {UL : UrlPaths U}.

Lemma header_lines_ok l lines : mapM header_line l = Ok lines ->
  Forall (fun h => h.1 <> "" /\ inline_text h.1 /\ CR ∉ h.2 /\ LF ∉ h.2) l -> Forall (fun s => head_line (as_bytes s)) lines.
Proof.
  intros H Hl. revert lines H. induction Hl as [|[n v] l (Hn & Hi & Hcr & Hlf) Hl IH]; intros lines; cbn.
  - intros [= <-]. constructor.
  - intros H. Signed.result_steps H. injection H as <-. constructor; [|by apply IH].
    unfold header_line in Hx. cbn [fst snd] in *. destruct (from_utf8 v) as [s|] eqn:Hv; [|done].
    cbn [ok_or mbind result_bind] in Hx. injection Hx as <-.
    assert (Hb : as_bytes s = v).
    { unfold from_utf8 in Hv. destruct (utf8_valid v); [|done]. injection Hv as <-. apply String.list_byte_of_string_of_list_byte. }
    exists (as_bytes n ++ as_bytes ": " ++ v). destruct (inline_bytes n Hi) as [Hnl Hnc].
    rewrite !as_bytes_app, crlf_bytes, Hb, <- !app_assoc. split_and!; [done|by destruct n|..];
      rewrite !elem_of_app; intros [?|[Hin|?]]; try done; vm_compute in Hin; set_solver.
Qed.

Lemma parse_head_inline h head : parse_head h = Ok head ->
  inline_text (request_line head) /\ Forall (fun s => head_line (as_bytes s)) (headers head).
Proof.
  unfold parse_head. destruct (request_parse MAX_HEADERS h) as [[complete r]|[]] eqn:Hp; [|done..].
  destruct (parse_inline _ _ _ _ Hp) as (Hm & Ht & Hv & Hh). intros H. Signed.result_inv H. Signed.result_steps H. injection H as <-. cbn.
  unfold ok_or in *. repeat case_match; simplify_eq. split; [|by eapply header_lines_ok].
  repeat apply inline_app; [by apply Hm|by repeat constructor|by apply Ht|by repeat constructor|].
  destruct (Hv _ eq_refl) as [-> | ->]; vm_compute; by repeat constructor.
Qed.

(** The method is not empty, since it is a word. *)
Lemma word_nonempty s w : w ∈ split_whitespace s -> w <> "".
Proof.
  unfold split_whitespace. intros (x & -> & Hx)%list_elem_of_fmap Hw.
  assert (x = []) as -> by by apply (f_equal chars_of) in Hw; rewrite chars_of_of_chars in Hw. clear Hw.
  revert Hx. generalize (@nil ascii) at 2. generalize (chars_of s). clear s. intros l.
  remember (length l) as n eqn:Hn. revert l Hn. induction n as [n IH] using lt_wf_ind. intros l -> acc Hx.
  assert (Hf : forall acc', [] ∈ flush acc' -> False).
  { intros acc'. unfold flush. case_bool_decide as Ha; [set_solver|]. intros E%list_elem_of_singleton. apply Ha.
    by rewrite <- (rev_involutive acc'), <- E. }
  assert (Hk : forall acc' l', (length l' < length l)%nat -> [] ∈ unicode_words acc' l' -> False).
  { intros acc' l' Hl Hin. by eapply (IH (length l')). }
  destruct l as [|a [|b [|d l]]]; cbn [unicode_words] in Hx; repeat case_match;
    rewrite ?elem_of_app in Hx; repeat match type of Hx with _ \/ _ => destruct Hx as [Hx|Hx] end;
    first [by apply Hf in Hx | apply Hk in Hx; [done|cbn; lia] | set_solver].
Qed.

Lemma forwarded_head_split m path v lines body :
  inline_text m -> m <> "" -> inline_text path -> inline_text v -> Forall (fun s => head_line (as_bytes s)) lines ->
  split_head (forwarded_head m path v lines ++ body) = Some (forwarded_head m path v lines, body).
Proof.
  intros Hm Hne Hp Hv Hl. unfold forwarded_head. rewrite crlf_bytes, flat_map_concat_map, !append_assoc.
  apply split_lines.
  - apply head_line_of; [repeat apply inline_app; try done; by repeat constructor|]. by destruct m.
  - apply Forall_fmap. unfold list_retain. rewrite Forall_forall in *. intros x [_ Hx]%list_elem_of_filter. by apply Hl.
Qed.

(** *** The lines that are forwarded *)
Lemma lowercase_app a b : to_ascii_lowercase (a +:+ b) = to_ascii_lowercase a +:+ to_ascii_lowercase b.
Proof.
  unfold to_ascii_lowercase. rewrite chars_of_app, fmap_app.
  induction (to_ascii_lower <$> chars_of a) as [|c l IH]; [done|]. exact (f_equal (String c) IH).
Qed.

Lemma prefix_before p x c y : c ∉ chars_of p -> String.prefix p (x +:+ String c y) = String.prefix p x.
Proof.
  revert x. induction p as [|a p IH]; intros x Hc; [by destruct x|].
  assert (a <> c /\ c ∉ chars_of p) as [Hac Hp] by (split; [intros ->; apply Hc; by left|intros Hin; apply Hc; by right]).
  destruct x as [|b x]; [change ("" +:+ String c y) with (String c y); cbn [String.prefix]; by destruct (ascii_dec a c)|].
  change (String b x +:+ String c y) with (String b (x +:+ String c y)). cbn [String.prefix].
  destruct (ascii_dec a b); [by apply IH|done].
Qed.

Lemma for_proxy_line n s : for_proxy (n +:+ ": " +:+ s) = starts_with "proxy-" (to_ascii_lowercase n).
Proof.
  unfold for_proxy, starts_with. rewrite lowercase_app.
  change (to_ascii_lowercase (": " +:+ s)) with (String ":"%char (String " "%char (to_ascii_lowercase s))).
  apply prefix_before. set_solver by done.
Qed.

(** [forwards headers lines]: the lines are those of the headers the client sent,
    each with its value and in their order, without the headers whose names
    start with "proxy-" in any case. *)
Inductive forwards : list (string * bytes) -> list string -> Prop :=
| forwards_none : forwards [] []
| forwards_kept name value text headers lines :
    starts_with "proxy-" (to_ascii_lowercase name) = false -> from_utf8 value = Some text ->
    forwards headers lines -> forwards ((name, value) :: headers) ((name +:+ ": " +:+ text +:+ CRLF) :: lines)
| forwards_dropped name value headers lines :
    starts_with "proxy-" (to_ascii_lowercase name) = true ->
    forwards headers lines -> forwards ((name, value) :: headers) lines.

Lemma retained_forwards l lines :
  mapM header_line l = Ok lines -> forwards l (list_retain (fun header => negb (for_proxy header)) lines).
Proof.
  revert lines. induction l as [|[n v] l IH]; intros lines; cbn; [intros [= <-]; constructor|].
  intros H. Signed.result_steps H. injection H as <-. unfold header_line in Hx. cbn [fst snd] in Hx.
  destruct (from_utf8 v) as [s|] eqn:Hv; [|done]. injection Hx as <-. unfold list_retain. rewrite filter_cons, for_proxy_line.
  destruct (starts_with "proxy-" (to_ascii_lowercase n)) eqn:Hp; cbn [negb]; case_decide as Hd; try done.
  - apply forwards_dropped; [done|]. by apply IH.
  - apply forwards_kept; [done..|]. by apply IH.
Qed.

(** The words of the client's request line. *)
Definition request_words (r : HttpRequest) (words : list string) : Prop :=
  exists m p v, method r = Some m /\ target_path r = Some p /\ version r = Some v /\
    split_whitespace (m +:+ " " +:+ p +:+ " HTTP/1." +:+ show v) = words.

Lemma parse_head_parts h head : parse_head h = Ok head ->
  exists r, request_parse MAX_HEADERS h = Ok (true, r) /\ request_words r (split_whitespace (request_line head)) /\
    mapM header_line (parsed_headers r) = Ok (headers head).
Proof.
  unfold parse_head. destruct (request_parse MAX_HEADERS h) as [[complete r]|[]] eqn:Hp; [|done..].
  destruct complete; [|done]. intros H. Signed.result_steps H. injection H as <-. exists r. cbn. split_and!; [done| |done].
  unfold ok_or in *. repeat case_match; simplify_eq. by eexists _, _, _.
Qed.

(** What the URL of a plain request says. *)
Definition url_names (target host : string) (port : Z) (path_query : string) : Prop :=
  exists u name, url_parse target = Ok u /\ (scheme u = "http" \/ scheme u = "https") /\ username u = "" /\ password u = None /\
    host_str u = Some name /\ host = trim_end_matches "]" (trim_start_matches "[" name) /\
    port_or_known_default u = Some port /\
    path_query = match query u with Some q => path u +:+ "?" +:+ q | None => path u end.

Lemma proxy_url_names target host port path_query :
  parse_proxy_url target = Ok (host, port, path_query) -> url_names target host port path_query.
Proof.
  unfold parse_proxy_url. destruct (url_parse target) as [u|] eqn:Hu; [|done]. intros H.
  Signed.result_steps H. injection H as <- <- <-. unfold ok_or, web_scheme in *. rewrite orb_true_iff, !bool_decide_eq_true in Hc.
  repeat case_match; simplify_eq; bool_props; (eexists u, _; split_and!; [done..|]); by simplify_option_eq.
Qed.

(** What the target of a CONNECT says: a bracketed address and a port, a host
    and a port behind its last colon, or a host alone, for port 443. *)
Definition connect_names (target host : string) (port : Z) : Prop :=
  (exists digits, chars_of target = "["%char :: chars_of host ++ "]"%char :: ":"%char :: digits /\
     "]"%char ∉ chars_of host /\ parse_uint u16_max (of_chars digits) = Some port) \/
  (head (chars_of target) <> Some "["%char /\
     exists digits, chars_of target = chars_of host ++ ":"%char :: digits /\
     ":"%char ∉ digits /\ parse_uint u16_max (of_chars digits) = Some port) \/
  (":"%char ∉ chars_of target /\ host = target /\ port = 443).

Lemma host_port_names target host port : parse_host_port target = Ok (host, port) -> connect_names target host port.
Proof.
  unfold parse_host_port, connect_names. destruct (chars_of target) as [|c l] eqn:Ht.
  { intros [= <- <-]. do 2 right. split_and!; [set_solver|done..]. }
  case_bool_decide as Hc.
  - subst c. destruct (break_at "]" l) as [h [[|c after]|]] eqn:Hb; [done| |done]. case_bool_decide as Hc; [|done]. subst c.
    apply break_at_spec in Hb as [Hh ->]. intros H. Signed.result_steps H. injection H as <- <-.
    rewrite Quantities.ok_or_ok in Hx. left. exists after. rewrite chars_of_of_chars. split_and!; [done| |done].
    intros Hin. rewrite Forall_forall in Hh. by apply (Hh _ Hin).
  - destruct (rsplit_at ":" target) as [[h p]|] eqn:Hs; unfold rsplit_at in Hs; rewrite Ht in Hs.
    + destruct (break_at ":" (rev (c :: l))) as [a [b|]] eqn:Hb; [|done]. injection Hs as <- <-.
      apply break_at_spec in Hb as [Ha Hb]. intros H. Signed.result_steps H. injection H as <- <-.
      rewrite Quantities.ok_or_ok in Hx. right. left. split; [cbn; congruence|]. exists (rev a). rewrite chars_of_of_chars.
      split_and!; [|rewrite list_elem_of_In, <- in_rev, <- list_elem_of_In|done].
      * rewrite <- (rev_involutive (c :: l)), Hb, rev_app_distr. cbn [rev]. by rewrite <- app_assoc.
      * intros Hin. rewrite Forall_forall in Ha. by apply (Ha _ Hin).
    + destruct (break_at ":" (rev (c :: l))) as [a [b|]] eqn:Hb; [done|]. apply break_at_spec in Hb as [Ha Hb].
      intros [= <- <-]. do 2 right. split_and!; [|done..]. intros Hin. rewrite Forall_forall in Ha.
      apply (Ha ":"%char); [|done]. rewrite app_nil_r in Hb. rewrite <- Hb.
      by apply list_elem_of_In, in_rev; rewrite rev_involutive; apply list_elem_of_In.
Qed.

Lemma handoff_tunnel io request t : tunnel (handoff io request) = Some t ->
  t = request /\ reply (handoff io request) = None /\ outcome (handoff io request) = Ok tt.
Proof. unfold handoff. destruct (queue_slot io); [|done]. by intros [= <-]. Qed.

(** Neither handler fails on a target that was checked. *)
Lemma handlers_answer io head r m target v : split_whitespace (request_line head) = [m; target; v] -> valid_target m target = true ->
  exists request, (if bool_decide (m = "CONNECT") then handle_connect io target r
                   else handle_http_proxy io (request_line head) (headers head) r) = handoff io request /\
    dest_port request <> 0 /\ protocol request = Tcp /\ client_stream request = arrivals r /\
    if bool_decide (m = "CONNECT")
    then send_http_200 request = true /\ parse_host_port target = Ok (dest_host request, dest_port request) /\
      dest_host request <> "" /\ default [] (initial_data request) = buffer r
    else exists path, send_http_200 request = false /\ parse_proxy_url target = Ok (dest_host request, dest_port request, path) /\
      initial_data request = Some (forwarded_head m path v (headers head) ++ buffer r).
Proof.
  intros Hw Hv. unfold valid_target, handle_connect, handle_http_proxy in *. rewrite Hw. destruct (bool_decide (m = "CONNECT")).
  - destruct (parse_host_port target) as [[host port]|]; [|done]. bool_props. eexists. split; [done|]. cbn.
    split_and!; try done. case_bool_decide as Hb; [by rewrite Hb|done].
  - destruct (parse_proxy_url target) as [[[host port] path]|]; [|done]. bool_props. eexists. split; [done|]. cbn.
    split_and!; try done. by exists path.
Qed.

Lemma proxy_url_path target host port path : parse_proxy_url target = Ok (host, port, path) -> inline_text path.
Proof.
  unfold parse_proxy_url. destruct (url_parse target) as [u|] eqn:Hu; [|done]. intros H. Signed.result_inv H. Signed.result_steps H.
  injection H as _ _ <-. destruct (path_inline _ _ Hu) as [Hp Hq]. destruct (query u) as [q|]; [|done].
  repeat apply inline_app; [done|by repeat constructor|by apply Hq].
Qed.

(** What a handled connection came to, by the head that was read. *)
Lemma handled_cases io l maximum : 0 <= maximum ->
  let h := handle_connection_at io l maximum in
  (h = {| tunnel := None; reply := None; outcome := Ok tt |} /\ head_of maximum [] (stream_of l) = None) \/
  (h = send_error io 431 "Request Header Fields Too Large" /\ head_of maximum [] (stream_of l) = Some (Err TooLarge)) \/
  (h = send_error io 400 "Bad Request" /\ forall head m target v, head_of maximum [] (stream_of l) = Some (Ok head) ->
     split_whitespace (request_line head) = [m; target; v] -> valid_target m target = false) \/
  exists r head m target v, read_head {| buffer := []; arrivals := l |} maximum = (r, Some (Ok head)) /\
    split_whitespace (request_line head) = [m; target; v] /\ valid_target m target = true /\
    h = if bool_decide (m = "CONNECT") then handle_connect io target r
        else handle_http_proxy io (request_line head) (headers head) r.
Proof.
  intros Hm. cbn zeta. unfold handle_connection_at. destruct (read_head _ _) as [r head] eqn:Hr.
  destruct (read_head_spec _ _ _ _ Hm Hr) as [<- _]. destruct head as [[head|[]]|]; [|naive_solver..].
  destruct (split_whitespace (request_line head)) as [|m [|target [|v [|]]]] eqn:Hw;
    try (do 2 right; left; split; [done|]; intros; congruence).
  destruct (valid_target m target) eqn:Hv; [by do 3 right; exists r, head, m, target, v|].
  do 2 right. left. split; [done|]. intros. congruence.
Qed.

(** C26. What goes through a tunnel is what the client asked for, however its
    bytes arrived: the destination is that of its request line, with a port that
    is not zero and, after CONNECT, a host that is not empty.  After CONNECT the
    tunnel carries exactly the bytes behind the head.  A plain request is
    forwarded as one head: the method and the version of the client, the path and
    query of its URL, and every header the client sent, with its value and in
    order, but those whose names start with "proxy-"; and whoever looks for the
    end of that head finds exactly there the body that followed the client's
    head: no header can smuggle a second request. *)
Theorem tunnel_faithful io l maximum t :
  0 <= maximum -> tunnel (handle_connection_at io l maximum) = Some t ->
  reply (handle_connection_at io l maximum) = None /\ dest_port t <> 0 /\ protocol t = Tcp /\
  exists h rest request m target v,
    split_head (stream_of l).1 = Some (h, rest) /\ len h <= maximum /\
    request_parse 64 h = Ok (true, request) /\ request_words request [m; target; v] /\
    let unread := (stream_of (client_stream t)).1 in
    if bool_decide (m = "CONNECT") then
      send_http_200 t = true /\ connect_names target (dest_host t) (dest_port t) /\ dest_host t <> "" /\
      default [] (initial_data t) ++ unread = rest
    else exists path lines body,
      send_http_200 t = false /\ url_names target (dest_host t) (dest_port t) path /\
      forwards (parsed_headers request) lines /\
      let head := as_bytes (m +:+ " " +:+ path +:+ " " +:+ v +:+ CRLF) ++ flat_map as_bytes lines ++ as_bytes CRLF in
      initial_data t = Some (head ++ body) /\ body ++ unread = rest /\ split_head (head ++ body) = Some (head, body).
Proof.
  intros Hm Ht. destruct (handled_cases io l maximum Hm) as [[E _]|[[E _]|[[E _]|(r & head & m & target & v & Hr & Hw & Hv & E)]]];
    rewrite E in Ht; [done..|].
  destruct (handlers_answer io head r m target v Hw Hv) as (request & Eh & Hport & Htcp & Hs & Hc).
  rewrite Eh in *. rewrite E. destruct (handoff_tunnel _ _ _ Ht) as (-> & Hre & _).
  destruct (read_head_spec _ _ _ _ Hm Hr) as [_ Hh]. destruct (Hh _ eq_refl) as (h & Hp & Hlen & Hsplit & _).
  destruct (parse_head_parts _ _ Hp) as (request' & Hparse & Hwords & Hmap). rewrite Hw in Hwords.
  split_and!; [done..|]. exists h, (pending r).1, request', m, target, v. rewrite pending_buffer in *. cbn [fst] in *. rewrite Hs.
  split_and!; [done..|]. destruct (bool_decide (m = "CONNECT")); [by destruct Hc as (? & ?%host_port_names & ? & ->)|].
  destruct Hc as (path & H200 & Hu & Hd). exists path, (list_retain (fun header => negb (for_proxy header)) (headers head)), (buffer r).
  split_and!; [done|by apply proxy_url_names|by apply retained_forwards|done..|].
  destruct (parse_head_inline _ _ Hp) as [Hline Hlines].
  assert (Hin : forall w, w ∈ [m; target; v] -> w ∈ split_whitespace (request_line head)) by by rewrite Hw.
  apply forwarded_head_split; [eapply inline_word; [done|apply Hin; set_solver]|eapply word_nonempty, Hin; set_solver|
    by eapply proxy_url_path|eapply inline_word; [done|apply Hin; set_solver]|done].
Qed.

(** C27. How the network cuts the bytes of a client into pieces does not matter:
    the head that is read is the shortest prefix that ends with an empty line, if
    it is within the limit, and with the same bytes sent, and the same end of the
    stream, the proxy reads the same head, leaves the same bytes to be read and
    gives the same response. *)
Theorem head_chunking io l l' maximum r r' head head' :
  0 <= maximum -> stream_of l = stream_of l' ->
  read_head {| buffer := []; arrivals := l |} maximum = (r, head) ->
  read_head {| buffer := []; arrivals := l' |} maximum = (r', head') ->
  head = head_of maximum [] (stream_of l) /\ head = head' /\
  (is_Some (head ≫= fun x => if is_ok x then Some tt else None) -> pending r = pending r') /\
  reply (handle_connection_at io l maximum) = reply (handle_connection_at io l' maximum).
Proof.
  intros Hm Hs Hr Hr'. destruct (read_head_spec _ _ _ _ Hm Hr) as [Hh Hp]. destruct (read_head_spec _ _ _ _ Hm Hr') as [Hh' Hp'].
  assert (E : head = head') by (rewrite Hh, Hh'; by f_equal). split_and!; [done..| |].
  - destruct head as [[x|]|]; [|by intros []..]. intros _. destruct (Hp x eq_refl) as (h & _ & _ & H1 & H2).
    destruct (Hp' x (eq_sym E)) as (h' & _ & _ & H1' & H2'). rewrite Hs in H1, H2. rewrite H1 in H1'.
    rewrite (surjective_pairing (pending r)), (surjective_pairing (pending r')). congruence.
  - unfold handle_connection_at. rewrite Hr, Hr', <- E. destruct head as [[x|[]]|]; [|done..].
    destruct (split_whitespace (request_line x)) as [|m [|target [|v [|]]]] eqn:Hw; [done..| |done].
    destruct (valid_target m target) eqn:Hv; [|done].
    destruct (handlers_answer io x r m target v Hw Hv) as (q & -> & _). destruct (handlers_answer io x r' m target v Hw Hv) as (q' & -> & _).
    unfold handoff. by destruct (queue_slot io).
Qed.

(** A request that is not tunnelled is answered: with 431 exactly when its
    head is beyond the limit, with 503 when the tunnels are backed up, and with
    400 otherwise; only a client that did not finish its head in time gets no
    response, and no other error escapes the handler. *)
Theorem refusal_answered io l maximum :
  0 <= maximum -> tunnel (handle_connection_at io l maximum) = None ->
  let h := handle_connection_at io l maximum in
  let head := head_of maximum [] (stream_of l) in
  (head = None /\ reply h = None /\ outcome h = Ok tt) \/
  exists status message, reply h = reply (send_error io status message) /\ outcome h = error_write io /\
    ((status = 431 /\ head = Some (Err TooLarge)) \/
     (status = 400 /\ head <> Some (Err TooLarge) /\ head <> None) \/
     (status = 503 /\ queue_slot io = false /\ exists x, head = Some (Ok x))).
Proof.
  intros Hm Ht. cbn zeta. pose proof (handled_cases io l maximum Hm) as Hc. cbn zeta in Hc.
  unfold handle_connection_at in *. destruct (read_head _ _) as [r head] eqn:Hr. destruct (read_head_spec _ _ _ _ Hm Hr) as [Hh _].
  rewrite <- Hh in *. clear Hh. destruct head as [[x|[]]|]; [|right; naive_solver..|by left]. right.
  destruct Hc as [[_ Hc]|[[_ Hc]|[[E _]|(r' & x' & m & target & v & [= <- <-] & Hw & Hv & E)]]]; [done..| |].
  - rewrite E. naive_solver.
  - rewrite E in *. destruct (handlers_answer io x r m target v Hw Hv) as (q & Eq & _). rewrite Eq in *.
    unfold handoff in *. destruct (queue_slot io); [done|]. do 2 eexists. split_and!; [done..|]. naive_solver.
Qed.

(** A target that is printed as host and port is read back. *)
Lemma connect_target_printed host w : w <> [] -> forallb is_ascii_digit w = true -> value w <= u16_max ->
  (head (chars_of host) <> Some "["%char -> host <> "" -> parse_host_port (host +:+ ":" +:+ of_chars w) = Ok (host, value w)) /\
  ("]"%char ∉ chars_of host -> parse_host_port ("[" +:+ host +:+ "]:" +:+ of_chars w) = Ok (host, value w)).
Proof.
  intros Hne Hw Hv. assert (Hport : parse_uint u16_max (of_chars w) = Some (value w)).
  { rewrite parse_uint_digits by done. unfold checked. destruct (Z.leb_spec (value w) u16_max); [done|lia]. }
  split; intros Hh.
  - intros Hn. unfold parse_host_port. assert (Hs : rsplit_at ":" (host +:+ ":" +:+ of_chars w) = Some (host, of_chars w)).
    { apply (rsplit_at_app ":"). rewrite chars_of_of_chars. by apply not_in_digits. }
    rewrite Hs, Hport. destruct host as [|c host]; [done|]. rewrite chars_of_app. change (chars_of (String c host)) with (c :: chars_of host).
    cbn [app]. rewrite bool_decide_false; [done|]. cbn in Hh. congruence.
  - unfold parse_host_port. rewrite !chars_of_app. change (chars_of "[") with ["["%char]. cbn [app]. rewrite bool_decide_true by done.
    change (chars_of "]:" ) with ["]"%char; ":"%char]. cbn [app].
    rewrite break_at_app by (apply Forall_forall; intros c Hc ->; done). rewrite bool_decide_true by done.
    rewrite chars_of_of_chars, Hport, of_chars_of. done.
Qed.
End Requests.

(** ** A concrete proxy: a parser that knows two requests. *)
Module Sample.

Definition connect_text : string := "CONNECT example.test:443 HTTP/1.1" +:+ CRLF +:+ CRLF.
Definition get_text : string :=
  "GET http://example.test/a HTTP/1.1" +:+ CRLF +:+ "Host: example.test" +:+ CRLF +:+ "Proxy-Token: x" +:+ CRLF +:+ CRLF.

Definition connect_request : HttpRequest :=
  {| method := Some "CONNECT"; target_path := Some "example.test:443"; version := Some 1; parsed_headers := [] |}.
Definition get_request : HttpRequest :=
  {| method := Some "GET"; target_path := Some "http://example.test/a"; version := Some 1;
     parsed_headers := [("Host", as_bytes "example.test"); ("Proxy-Token", as_bytes "x")] |}.

#[export] Instance parser : HttpParser := {| request_parse n b :=
  if bool_decide (b = as_bytes connect_text) then Ok (true, connect_request)
  else if bool_decide (b = as_bytes get_text) then Ok (true, get_request) else Err Malformed |}.

Lemma no_breaks (b : bytes) : bool_decide (CR ∈ b) || bool_decide (LF ∈ b) = false -> CR ∉ b /\ LF ∉ b.
Proof. intros [?%bool_decide_eq_false ?%bool_decide_eq_false]%orb_false_iff. done. Qed.

#[export] Instance parser_laws : HttpParserLaws parser.
Proof.
  split. intros n b complete r. cbn [request_parse parser]. repeat case_bool_decide; [| |done]; intros [= <- <-]; cbn;
    (split_and!; [intros ? [= <-]; split; [done|by repeat constructor]|intros ? [= <-]; by repeat constructor|intros ? [= <-]; by right|]);
    repeat constructor; try done; cbn; apply no_breaks; reflexivity.
Qed.

Definition page : Url :=
  {| scheme := "http"; username := ""; password := None; host_str := Some "example.test"; port_or_known_default := Some 80;
     path := "/a"; query := None; fragment := None; origin := "http://example.test" |}.
#[export] Instance urls : UrlParser := {| url_parse i := if bool_decide (i = "http://example.test/a") then Ok page else Err "invalid" |}.
#[export] Instance url_paths : UrlPaths urls.
Proof. split. intros i u. cbn. case_bool_decide; [|done]. intros [= <-]. split; [by repeat constructor|done]. Qed.

Definition ready : Peer := {| error_write := Ok tt; queue_slot := true |}.
(** The head in two pieces, the body behind it, and more to come. *)
Definition pieces : list (Result bytes) :=
  [Ok (take 20 (as_bytes get_text)); Ok (drop 20 (as_bytes get_text) ++ as_bytes "body"); Ok (as_bytes "more")].
Definition whole : list (Result bytes) := [Ok (as_bytes get_text ++ as_bytes "bodymore")].
Definition forwarded : string :=
  "GET /a HTTP/1.1" +:+ CRLF +:+ "Host: example.test" +:+ CRLF +:+ CRLF +:+ "body".

Lemma tunnel_faithful_witness : exists t, tunnel (handle_connection_at ready pieces MAX_HEAD_BYTES) = Some t /\
  initial_data t = Some (as_bytes forwarded) /\ dest_host t = "example.test" /\ dest_port t <> 0 /\
  reply (handle_connection_at ready pieces MAX_HEAD_BYTES) = None.
Proof.
  eexists. split; [vm_compute; reflexivity|]. split; [vm_compute; reflexivity|]. split; [reflexivity|].
  edestruct (tunnel_faithful ready pieces MAX_HEAD_BYTES) as (Hr & Hp & _); [done|vm_compute; reflexivity|].
  split; [exact Hp|exact Hr].
Defined.

Lemma head_chunking_witness :
  (read_head {| buffer := []; arrivals := pieces |} MAX_HEAD_BYTES).2 = (read_head {| buffer := []; arrivals := whole |} MAX_HEAD_BYTES).2.
Proof.
  destruct (read_head {| buffer := []; arrivals := pieces |} MAX_HEAD_BYTES) as [r head] eqn:Hr.
  destruct (read_head {| buffer := []; arrivals := whole |} MAX_HEAD_BYTES) as [r' head'] eqn:Hr'.
  destruct (head_chunking ready pieces whole MAX_HEAD_BYTES r r' head head') as (_ & H & _); [done|vm_compute; reflexivity|exact Hr|exact Hr'|].
  exact H.
Defined.

(** The client stops before the empty line. *)
Lemma refusal_answered_witness : reply (handle_connection_at ready [Ok (as_bytes "GET"); Ok []] MAX_HEAD_BYTES) <> None.
Proof.
  destruct (refusal_answered ready [Ok (as_bytes "GET"); Ok []] MAX_HEAD_BYTES) as [(H & _)|(status & message & -> & _)];
    [done|vm_compute; reflexivity|vm_compute in H; discriminate|discriminate].
Defined.
End Sample.
End HttpSafety.
