(* ===== verification/WorkloadNetwork.v ===== *)
(** * The network of a workload (podmesh-sidecar/src/authorization.rs,
      workload_network.rs, peer_connector.rs, connector_control.rs)

    What a sidecar does for the workloads of its owner beyond the proxies: it
    holds the credential the owner's agent installs, publishes its own record
    under it, exchanges records with the sidecars it knows, opens tunnels to the
    services they offer and serves those its own catalog lists.  Programs of
    atomic steps over the shared state, as for the proxy: what happens under one
    lock is one step, which reads the clock once.  The exchanges with several
    neighbours run as tasks of their own. *)

From S2P Require Import Prelude Net Crypto Signed ReplayRegistry EndpointRecord MeshProtocol Identity Registration.
From S2P Require Import WorkloadStream WorkloadControl Biscuit WorkloadIdentity AgentIds ServiceDiscovery ServiceCache.
From S2P Require Import WorkloadPayloads Connector Tasks RawRelay HttpConnect.

(** ** The credential (authorization.rs) *)
Module Authority.
Import Crypto Biscuit Workload.

Record WorkloadAuthorization := {
  auth_delegation : EnrollmentDelegation;
  auth_endpoint : string;
  auth_signer : bytes;
  current : option WorkloadIdentity
}.

Section Authority.
Context {P : Primitives} {B : BiscuitAuth} {H : Blake3}.
Context {JD : Json EnrollmentDelegation} {JI : Json WorkloadIdentity}.

Definition new (encoded owner manifest workload endpoint : string) (signer : bytes) : Result WorkloadAuthorization :=
  '(delegation, initial) ←
    match identity_from_b64 encoded with
    | Ok identity =>
        _ ← verify_identity identity None;
        ensure! bool_decide (claim_endpoint_id (claims identity) = endpoint) &&
                bool_decide (signing_public_key_b64 (claims identity) = b64_encode signer)
          else Err "configured identity does not name this connector" ;;
        Ok (delegation identity, Some identity)
    | Err _ =>
        match delegation_from_b64 encoded with
        | Ok d => Ok (d, None)
        | Err _ => Err "endpoint enrollment authority required; bearer credentials are unsupported"
        end
    end;
  _ ← verify_scope delegation owner manifest workload None None;
  Ok {| auth_delegation := delegation; auth_endpoint := endpoint; auth_signer := signer; current := initial |}.

Definition session_ok (a : WorkloadAuthorization) (i : WorkloadIdentity) (now : Z) : Result unit :=
  verify_session i (tenant_owner (scope (auth_delegation a))) (scope_manifest_id (scope (auth_delegation a)))
    (auth_endpoint a) (auth_signer a) now.

(** The credential held already bounds what may replace it. *)
Definition regresses (old i : WorkloadIdentity) : bool :=
  (claims_issued_at_secs (claims i) <? claims_issued_at_secs (claims old)) ||
  (claims_expires_at_secs (claims i) <? claims_expires_at_secs (claims old)).

Definition install (i : WorkloadIdentity) (now : Z) (a : WorkloadAuthorization) : WorkloadAuthorization * Result unit :=
  ensure! bool_decide (delegation i = auth_delegation a)
    else (a, Err "identity is not from the configured enrollment generation") ;;
  try! _ok := session_ok a i now in a ;;
  ensure! match current a with Some old => negb (regresses old i) | None => true end
    else (a, Err "identity renewal would regress authority") ;;
  ({| auth_delegation := auth_delegation a; auth_endpoint := auth_endpoint a; auth_signer := auth_signer a; current := Some i |}, Ok tt).

Definition credential (now : Z) (a : WorkloadAuthorization) : Result string :=
  identity ← ok_or (current a) "workload enrollment is pending";
  _ ← session_ok a identity now;
  identity_to_b64 identity.

Definition live (now : Z) (a : WorkloadAuthorization) : Result unit := _ ← credential now a; Ok tt.
End Authority.
End Authority.

(** The serializations of what sidecars exchange and store. *)
Class PeerCodecs := {
  peer_envelope :: Postcard Envelope.Envelope;
  peer_endpoint :: Postcard EndpointRecord.EndpointRecord;
  peer_catalog :: Postcard Discovery.ServiceCatalog;
  peer_record :: Postcard Discovery.ReplicaServiceRecord;
  peer_request :: Postcard Payloads.PeerRequest;
  peer_response :: Postcard Payloads.PeerResponse;
  peer_report :: Postcard Connector.ConnectorIdentityReport;
  peer_delegation_json :: Json Workload.EnrollmentDelegation;
  peer_identity_json :: Json Workload.WorkloadIdentity;
  peer_record_json :: Json Discovery.ReplicaServiceRecord;
  peer_records_json :: Json (list Discovery.ReplicaServiceRecord);
  peer_sequence_json :: Json (string * Z);
  peer_snapshot_json :: Json Cache.Snapshot
}.

Module Network.
Import Crypto Io Stream Control Payloads Discovery Cache Biscuit.
Import EndpointRecord (EndpointRecord, ENDPOINT_RECORD_VERSION, MAX_ENDPOINT_DIRECT_ADDRESSES).
Import Workload (WorkloadIdentity).
Import HttpConnect (TunnelRequest, dest_host, dest_port, send_http_200, initial_data).

#[local] Existing Instances Workload.delegation_eq_dec Workload.identity_eq_dec.

Definition MAX_PEER_SESSIONS : Z := 32.
Definition MAX_SYNC_PAGES : nat := Z.to_nat 256.
Definition MAX_CONTROL_CONNECTIONS : Z := 8.
Definition MAX_HINTS : Z := 4.
Definition MAX_SEQUENCE_BYTES : Z := 1024.
Definition MAX_SEED_BYTES : Z := 128 * 1024.

Section Network.
Context {I : Iroh}.

(** ** State *)
Inductive Permit := SessionSlot | IncomingSlot | ControlSlot.
#[export] Instance Permit_eq_dec : EqDecision Permit.
Proof. solve_decision. Defined.

(** What the sidecar does, newest first: a task took a sequence number; a task
    published a record; frames were sent to a peer; a connection to its own application, with the message
    of the peer it was opened for, and the key that signed it; a tunnel, with the
    service and the record of the peer that serves it; and bytes were moved. *)
Inductive Occurrence :=
| Numbered (task : nat) (n : Z)
| Published (task : nat) (r : ReplicaServiceRecord)
| Sent (remote : EndpointId) (written : bytes)
| Served (remote : EndpointId) (at_secs : Z) (request : PeerRequest) (signer : bytes) (target : Z)
| Tunnelled (remote : EndpointId) (at_secs : Z) (key : ServiceKey) (port : Z) (response : PeerResponse) (signer : bytes)
| LocalService (key : ServiceKey) (port target : Z)
| Moved (written : bytes).

Record Files := { dns_state : option bytes; peer_seeds : option bytes; discovery_sequence : option bytes }.

(** [peer] is the record of the peer connector, once it is started. *)
Record World := {
  cache : ServiceCache;
  authorization : Authority.WorkloadAuthorization;
  own : option ReplicaServiceRecord;
  hints : list ReplicaServiceRecord;
  peer : option ReplicaServiceRecord;
  sequence_state : string * Z;
  replay : Replay.ReplayState;
  connections : gset EndpointId;
  permits : list (nat * Permit);
  files : Files;
  trace : list Occurrence
}.

Definition set_cache (x : ServiceCache) (w : World) : World :=
  {| cache := x; authorization := authorization w; own := own w; hints := hints w; peer := peer w;
     sequence_state := sequence_state w; replay := replay w; connections := connections w; permits := permits w;
     files := files w; trace := trace w |}.
Definition set_authorization (x : Authority.WorkloadAuthorization) (w : World) : World :=
  {| cache := cache w; authorization := x; own := own w; hints := hints w; peer := peer w;
     sequence_state := sequence_state w; replay := replay w; connections := connections w; permits := permits w;
     files := files w; trace := trace w |}.
Definition set_own (x : option ReplicaServiceRecord) (w : World) : World :=
  {| cache := cache w; authorization := authorization w; own := x; hints := hints w; peer := peer w;
     sequence_state := sequence_state w; replay := replay w; connections := connections w; permits := permits w;
     files := files w; trace := trace w |}.
Definition set_hints (x : list ReplicaServiceRecord) (w : World) : World :=
  {| cache := cache w; authorization := authorization w; own := own w; hints := x; peer := peer w;
     sequence_state := sequence_state w; replay := replay w; connections := connections w; permits := permits w;
     files := files w; trace := trace w |}.
Definition set_peer (x : option ReplicaServiceRecord) (w : World) : World :=
  {| cache := cache w; authorization := authorization w; own := own w; hints := hints w; peer := x;
     sequence_state := sequence_state w; replay := replay w; connections := connections w; permits := permits w;
     files := files w; trace := trace w |}.
Definition set_sequence (x : string * Z) (w : World) : World :=
  {| cache := cache w; authorization := authorization w; own := own w; hints := hints w; peer := peer w;
     sequence_state := x; replay := replay w; connections := connections w; permits := permits w;
     files := files w; trace := trace w |}.
Definition set_replay (x : Replay.ReplayState) (w : World) : World :=
  {| cache := cache w; authorization := authorization w; own := own w; hints := hints w; peer := peer w;
     sequence_state := sequence_state w; replay := x; connections := connections w; permits := permits w;
     files := files w; trace := trace w |}.
Definition set_connections (x : gset EndpointId) (w : World) : World :=
  {| cache := cache w; authorization := authorization w; own := own w; hints := hints w; peer := peer w;
     sequence_state := sequence_state w; replay := replay w; connections := x; permits := permits w;
     files := files w; trace := trace w |}.
Definition set_permits (x : list (nat * Permit)) (w : World) : World :=
  {| cache := cache w; authorization := authorization w; own := own w; hints := hints w; peer := peer w;
     sequence_state := sequence_state w; replay := replay w; connections := connections w; permits := x;
     files := files w; trace := trace w |}.
Definition set_files (x : Files) (w : World) : World :=
  {| cache := cache w; authorization := authorization w; own := own w; hints := hints w; peer := peer w;
     sequence_state := sequence_state w; replay := replay w; connections := connections w; permits := permits w;
     files := x; trace := trace w |}.
Definition log (o : Occurrence) (w : World) : World :=
  {| cache := cache w; authorization := authorization w; own := own w; hints := hints w; peer := peer w;
     sequence_state := sequence_state w; replay := replay w; connections := connections w; permits := permits w;
     files := files w; trace := o :: trace w |}.

(** How [atomic_state] ends: the file was replaced, and the directory could be
    synchronised or not, or the file is what it was. *)
Inductive Storing := Stored | StoredUnsynced (error : string) | NotStored (error : string).

(** What the environment supplies: clocks, a nonce, how input and output end,
    which connections were closed, the address of the endpoint, and the events of
    a relay. *)
Record Choice := {
  clock_secs : Z;
  instant : Z;
  random_nonce : string;
  storing : Storing;
  closed : EndpointId -> bool;
  dialled : Result unit;
  opened : Result (Pipe * Pipe);
  connected : Result unit;
  written : Result unit;
  finished : Result unit;
  relay_length : nat;
  relay_event : RawRelay.Event;
  address : EndpointAddr
}.

Abbreviation M := (Tasks.Prog World Choice).
Definition clock : M Z := Tasks.step (fun _ c w => (w, clock_secs c)).

(** *** Permits *)
Definition held (p : Permit) (w : World) : Z := len (filter (fun x => x.2 = p) (permits w)).
Definition capacity (p : Permit) : Z :=
  match p with SessionSlot | IncomingSlot => MAX_PEER_SESSIONS | ControlSlot => MAX_CONTROL_CONNECTIONS end.
Definition try_acquire (p : Permit) (error : string) : M (Result unit) :=
  Tasks.step (fun i _ w =>
    ensure! held p w <? capacity p else (w, Err error) ;;
    (set_permits ((i, p) :: permits w) w, Ok tt)).
Definition release (i : nat) (w : World) : World := set_permits (filter (fun x => x.1 <> i) (permits w)) w.
Definition drop_permits : M unit := Tasks.step (fun i _ w => (release i w, tt)).

(** [p] with its permits dropped when it ends. *)
Definition dropping {A} (p : M A) : M A := r ← p; _ ← drop_permits; Tasks.Ret r.

(** ** Programs *)
Context {P : Primitives} {B : BiscuitAuth} {H : Blake3} {B32 : Base32} {CD : PeerCodecs}.
Context (id_to_string : EndpointId -> string).
(** The configuration: the endpoint and the keys of the sidecar, the catalog and
    the replica it was deployed with, whether it has a state directory. *)
Context (local : EndpointId) (signing_public signing_private : bytes).
Context (configured : option ServiceCatalog) (replica : Z) (directory : bool).

Definition limits : Replay.ReplayLimits :=
  {| Replay.max_peers := 64; Replay.nonces_per_peer := 64; Replay.max_nonce_bytes := Replay.max_nonce_bytes Replay.default_limits;
     Replay.retention := Replay.retention Replay.default_limits |}.

(** *** The state of the peer connector *)
Definition own_record : M (Result ReplicaServiceRecord) :=
  Tasks.step (fun _ _ w => (w, ok_or (peer w) "workload peer enrollment is pending")).

Definition seal {T} `{Postcard T} `{WorkloadPayload T} (remote : EndpointId) (value : T) : M (Result bytes) :=
  Tasks.step (fun _ c w =>
    (w, seal_workload_payload
      {| Control.nonce := random_nonce c; Control.now_millis := Z.min (clock_secs c * 1000) u64_max;
         Control.sender_id := id_to_string local; Control.recipient_id := id_to_string remote;
         Control.sender_signing_public := signing_public; Control.sender_signing_private := signing_private;
         Control.sender_kem_public := None |} value)).

Definition accept_payload {T} `{Postcard T} `{WorkloadPayload T} (remote : EndpointId) (b : bytes)
    : M (Result (AcceptedWorkloadPayload T)) :=
  Tasks.step (fun _ c w =>
    let (st, r) := accept_workload_payload b (id_to_string local) (id_to_string remote)
      (Z.min (clock_secs c * 1000) u64_max) limits (replay w) (instant c) in
    (set_replay st w, r)).

Definition verify_remote (remote : EndpointId) (r : ReplicaServiceRecord) (signer : bytes) : M (Result Z) :=
  record ←? own_record;
  now ← clock;
  _ ←! verify_record r (catalog_owner (catalog record)) now;
  ensure! bool_decide (endpoint_hex (endpoint r) = id_to_string remote)
    else Tasks.Ret (Err "peer record does not match transport") ;;
  ensure! bool_decide (EndpointRecord.signing_pubkey (endpoint r) = b64_encode signer)
    else Tasks.Ret (Err "peer envelope signer is not authorized") ;;
  Tasks.Ret (Ok now).

(** The catalog and the record of a verified peer, under one lock. *)
Definition merge_peer (r : ReplicaServiceRecord) : M (Result unit) :=
  Tasks.step (fun _ c w =>
    let (view, authorized) := authorize_catalog (catalog r) (cache w) in
    try! _done := authorized in set_cache view w ;;
    let (view, merged) := merge r (clock_secs c) view in
    (set_cache view w, match merged with Ok _ => Ok tt | Err e => Err e end)).

Definition write_frame (remote : EndpointId) (send : Pipe) (kind : WorkloadStreamKind) (payload : bytes) : M (Result Pipe) :=
  Tasks.step (fun _ _ w =>
    let (send', r) := write_workload_frame send kind payload in
    (log (Sent remote (drop (length (content send)) (content send'))) w,
     match r with Ok _ => Ok send' | Err e => Err e end)).

(** *** Talking to a peer (peer_connector.rs) *)
Definition peer_address (r : ReplicaServiceRecord) (operation : PeerOperation) (owner : string) : M (Result EndpointId) :=
  match operation with
  | Sync _ =>
      _ ←! verify_record_structure r owner;
      addr ←! Identity.endpoint_addr_hint (endpoint r);
      Tasks.Ret (Ok (addr_id addr))
  | Connect _ _ _ =>
      now ← clock;
      _ ←! verify_record r owner now;
      now ← clock;
      addr ←! Identity.endpoint_addr (endpoint r) now;
      Tasks.Ret (Ok (addr_id addr))
  end.

(** A connection to the peer: one that is open, or a new one. *)
Definition connection_to (remote : EndpointId) : M (Result unit) :=
  cached ← Tasks.step (fun _ c w => (w, bool_decide (remote ∈ connections w) && negb (closed c remote)));
  if cached : bool then Tasks.Ret (Ok tt) else
  _ ←? Tasks.step (fun _ c w => (w, dialled c));
  Tasks.step (fun _ c w =>
    let live := filter (fun e => closed c e = false) (connections w) in
    let w := set_connections live w in
    if bool_decide (remote ∈ live) then (w, Ok tt) else
    ensure! set_len live <? MAX_PEER_SESSIONS else (w, Err "peer connection cache full") ;;
    (set_connections ({[remote]} ∪ live) w, Ok tt)).

Record Exchanged := {
  ex_remote : EndpointId;
  ex_at : Z;
  ex_send : Pipe;
  ex_recv : Pipe;
  ex_response : PeerResponse;
  ex_signer : bytes
}.

Definition exchange (r : ReplicaServiceRecord) (operation : PeerOperation) : M (Result Exchanged) :=
  mine ←? own_record;
  remote ←? peer_address r operation (catalog_owner (catalog mine));
  _ ←? connection_to remote;
  mine ←? own_record;
  request ←? seal remote {| caller := mine; operation := operation |};
  '(send, recv) ←? Tasks.step (fun _ c w => (w, opened c));
  send ←? write_frame remote send (frame_kind Control.PeerRequest) request;
  let (recv, frame) := read_workload_frame recv in
  '(kind, payload) ←! frame;
  ensure! bool_decide (kind = frame_kind Control.PeerResponse)
    else Tasks.Ret (Err "unexpected peer response frame") ;;
  accepted ←? accept_payload (T := PeerResponse) remote payload;
  let response := accepted_payload accepted in
  now ←? verify_remote remote (responder response) (accepted_signing_key accepted);
  _ ←? merge_peer (responder response);
  Tasks.Ret (Ok {| ex_remote := remote; ex_at := now; ex_send := send; ex_recv := recv; ex_response := response;
                   ex_signer := accepted_signing_key accepted |}).

(** The records of a page, under one lock: what cannot be used is skipped. *)
Fixpoint merge_records (l : list ReplicaServiceRecord) (now : Z) (view : ServiceCache) (changed : Z) : ServiceCache * Z :=
  match l with
  | [] => (view, changed)
  | r :: l =>
      let (view, authorized) := authorize_catalog (catalog r) view in
      match authorized with
      | Err _ => merge_records l now view changed
      | Ok _ =>
          let (view, merged) := merge r now view in
          merge_records l now view (changed + match merged with Ok true => 1 | _ => 0 end)
      end
  end.

Fixpoint sync_pages (pages : nat) (r : ReplicaServiceRecord) (cursor changed : Z) : M (Result Z) :=
  match pages with
  | O => Tasks.Ret (Err "peer synchronization exceeded page bound")
  | S pages =>
      x ←? exchange r (Sync cursor);
      match peer_result (ex_response x) with
      | Records records next =>
          changed ← Tasks.step (fun _ c w =>
            let (view, changed) := merge_records records (clock_secs c) (cache w) changed in (set_cache view w, changed));
          match next with
          | Some next =>
              ensure! cursor <? next else Tasks.Ret (Err "peer pagination did not advance") ;;
              sync_pages pages r next changed
          | None => Tasks.Ret (Ok changed)
          end
      | _ => Tasks.Ret (Err "peer sync refused")
      end
  end.

Definition sync_with (r : ReplicaServiceRecord) : M (Result Z) :=
  dropping (_ ←? try_acquire SessionSlot "peer sync capacity reached"; sync_pages MAX_SYNC_PAGES r 0 0).

(** The replicas are tried in turn; a tunnel keeps its permit. *)
Fixpoint try_peers (peers : list ReplicaServiceRecord) (key : ServiceKey) (port : Z) : M (Result Exchanged) :=
  match peers with
  | [] => Tasks.Ret (Err "no reachable authorized service replica")
  | r :: peers =>
      x ← exchange r (Connect (key_manifest_id key) (key_name key) port);
      match x with
      | Ok x =>
          match peer_result (ex_response x) with
          | Connected =>
              Tasks.step (fun _ _ w =>
                (log (Tunnelled (ex_remote x) (ex_at x) key port (ex_response x) (ex_signer x)) w, Ok x))
          | _ => try_peers peers key port
          end
      | Err _ => try_peers peers key port
      end
  end.

Definition open_service (key : ServiceKey) (port : Z) (remote_only : bool) : M (Result Exchanged) :=
  x ← (_ ←? try_acquire SessionSlot "peer connection capacity reached";
       peers ←? Tasks.step (fun _ c w =>
         ensure! bool_decide (is_Some (Cache.target_port (cache w) key port)) else (w, Err "unknown service port") ;;
         let (view, peers) := candidates key (clock_secs c) (if remote_only then Some (id_as_bytes local) else None) (cache w) in
         (set_cache view w, Ok peers));
       try_peers peers key port);
  match x with Ok _ => Tasks.Ret x | Err _ => _ ← drop_permits; Tasks.Ret x end.

Definition open_address (address port : Z) (remote_only : bool) : M (Result Exchanged) :=
  key ←? Tasks.step (fun _ _ w => (w, ok_or (service_for_address (cache w) address) "unknown synthetic service address"));
  open_service key port remote_only.

(** *** Relays *)
Definition relay_limits : RawRelay.RawRelayLimits := {|
  RawRelay.max_bytes_per_direction := 512 * 1024 * 1024; RawRelay.idle_timeout := from_secs 300;
  RawRelay.max_lifetime := from_secs 3600; RawRelay.authority_interval := from_secs 30 |}.

Definition moved (r r' : RawRelay.Relay) : bytes :=
  drop (length (RawRelay.delivered (RawRelay.left r))) (RawRelay.delivered (RawRelay.left r')) ++
  drop (length (RawRelay.delivered (RawRelay.right r))) (RawRelay.delivered (RawRelay.right r')).

(** The authority is asked when its timer fires. *)
Definition asks (r : RawRelay.Relay) (now : Z) (event : RawRelay.Event) : bool :=
  match RawRelay.stage r, event with
  | RawRelay.Looping, RawRelay.AuthorityTick _ => RawRelay.next_authority r <=? now
  | _, _ => false
  end.

Fixpoint relay_loop (check_authority : M (Result unit)) (n : nat) (r : RawRelay.Relay) : M (Result RawRelay.RawRelayStats) :=
  match RawRelay.stage r, n with
  | RawRelay.Finished outcome, _ => Tasks.Ret outcome
  | _, O => Tasks.Ret (Err "raw relay is still running")
  | _, S n =>
      e ← Tasks.step (fun _ c w => (w, (instant c, relay_event c)));
      event ← (if asks r e.1 e.2 then answer ← check_authority; Tasks.Ret (RawRelay.AuthorityTick answer)
               else Tasks.Ret e.2);
      r ← Tasks.step (fun _ _ w =>
        let r' := RawRelay.step relay_limits r (e.1, event) in (log (Moved (moved r r')) w, r'));
      relay_loop check_authority n r
  end.

Definition raw_relay (check_authority : M (Result unit)) : M (Result RawRelay.RawRelayStats) :=
  _ ←! RawRelay.validate relay_limits;
  _ ←? check_authority;
  now ← Tasks.step (fun _ c w => (w, instant c));
  n ← Tasks.step (fun _ c w => (w, relay_length c));
  relay_loop check_authority n (RawRelay.start relay_limits now).

(** *** A stream a peer opened *)
Definition page (records : list ReplicaServiceRecord) (cursor : Z) : PeerResult :=
  let start := Z.min cursor (len records) in
  let stop := Z.min (start + MAX_PEER_RECORD_BATCH) (len records) in
  Records (take (Z.to_nat (stop - start)) (drop (Z.to_nat start) records)) (if stop <? len records then Some stop else None).

Definition service_target (c : ServiceCatalog) (service : string) (port : Z) : option Z :=
  s ← List.find (fun item => bool_decide (service_name item = service)) (services c);
  Discovery.target_port <$> List.find (fun m => Discovery.port m =? port) (ports s).

Definition serve_request (remote : EndpointId) (at_secs : Z) (request : PeerRequest) (signer : bytes) (mine : ReplicaServiceRecord)
    : M (PeerResult * bool) :=
  match operation request with
  | Sync cursor => Tasks.step (fun _ c w => (w, (page (snapshot (cache w) (clock_secs c)) cursor, false)))
  | Connect manifest_id service port =>
      match service_target (catalog mine) service port with
      | Some target =>
          if bool_decide (manifest_id = catalog_manifest_id (catalog mine)) then
            Tasks.step (fun _ c w =>
              (log (Served remote at_secs request signer target) w,
               match connected c with Ok _ => (Connected, true) | Err _ => (Rejected, false) end))
          else Tasks.Ret (Rejected, false)
      | None => Tasks.Ret (Rejected, false)
      end
  end.

Definition identity_live (i : WorkloadIdentity) : M (Result unit) :=
  now ← clock; Tasks.Ret (Workload.verify_identity i (Some now)).

Definition serve_admitted (remote : EndpointId) (send recv : Pipe) : M (Result unit) :=
  '(kind, payload) ←! (read_workload_frame recv).2;
  ensure! bool_decide (kind = frame_kind Control.PeerRequest)
    else Tasks.Ret (Err "unexpected peer request frame") ;;
  accepted ←? accept_payload (T := PeerRequest) remote payload;
  let request := accepted_payload accepted in
  now ←? verify_remote remote (caller request) (accepted_signing_key accepted);
  _ ←? merge_peer (caller request);
  mine ←? own_record;
  '(result, application) ← serve_request remote now request (accepted_signing_key accepted) mine;
  response ←? seal remote {| responder := mine; peer_result := result |};
  _ ←? write_frame remote send (frame_kind Control.PeerResponse) response;
  if application : bool then
    _ ←? raw_relay (_ ←? identity_live (credential (caller request)); mine ←? own_record; identity_live (credential mine));
    Tasks.Ret (Ok tt)
  else Tasks.step (fun _ c w => (w, finished c)).

Definition serve_stream (remote : EndpointId) (send recv : Pipe) : M (Result unit) :=
  dropping (_ ←? try_acquire SessionSlot "peer handler capacity reached"; serve_admitted remote send recv).

(** The session of a peer that connected: it holds a slot until the peer leaves,
    is idle for a minute or the sidecar stops.  The streams it accepts run beside
    it, and are cancelled with it. *)
Definition serve : M (Result unit) :=
  dropping (_ ←? try_acquire IncomingSlot "peer session capacity reached"; Tasks.step (fun _ c w => (w, finished c))).

(** ** The workload's network (workload_network.rs) *)
Definition store (f : bytes -> Files -> Files) (b : bytes) : M (Result unit) :=
  Tasks.step (fun _ c w =>
    match storing c with
    | Stored => (set_files (f b (files w)) w, Ok tt)
    | StoredUnsynced e => (set_files (f b (files w)) w, Err e)
    | NotStored e => (w, Err e)
    end).
Definition put_dns_state (b : bytes) (f : Files) : Files :=
  {| dns_state := Some b; peer_seeds := peer_seeds f; discovery_sequence := discovery_sequence f |}.
Definition put_peer_seeds (b : bytes) (f : Files) : Files :=
  {| dns_state := dns_state f; peer_seeds := Some b; discovery_sequence := discovery_sequence f |}.
Definition put_sequence (b : bytes) (f : Files) : Files :=
  {| dns_state := dns_state f; peer_seeds := peer_seeds f; discovery_sequence := Some b |}.

(** The cache is saved while it is locked. *)
Definition persist : M (Result unit) :=
  if directory then
    _ ←? Tasks.step (fun _ c w =>
      try! b := save (cache w) in w ;;
      match storing c with
      | Stored => (set_files (put_dns_state b (files w)) w, Ok tt)
      | StoredUnsynced e => (set_files (put_dns_state b (files w)) w, Err e)
      | NotStored e => (w, Err e)
      end);
    l ← Tasks.step (fun _ _ w => (w, hints w));
    b ←! ok_or (to_json l) "serialize peer seeds";
    store put_peer_seeds b
  else Tasks.Ret (Ok tt).

Definition record : M (option ReplicaServiceRecord) :=
  now ← clock;
  Tasks.step (fun _ _ w =>
    (w, match own w with
        | Some r => if is_ok (verify_record r (catalog_owner (catalog r)) now) then Some r else None
        | None => None
        end)).

Definition workload_of (r : ReplicaServiceRecord) : string :=
  Workload.workload_id (Workload.scope (Workload.delegation (credential r))).

Definition add_hint (r : ReplicaServiceRecord) (l : list ReplicaServiceRecord) : list ReplicaServiceRecord :=
  let l := list_retain (fun old => negb (bool_decide (workload_of old = workload_of r))) l in
  (if MAX_HINTS <=? len l then tail l else l) ++ [r].

Definition seed (r : ReplicaServiceRecord) : M (Result unit) :=
  now ← clock;
  ensure! match configured with
          | Some mine => negb (bool_decide (catalog_manifest_id mine = catalog_manifest_id (catalog r))) ||
                         bool_decide (mine = catalog r)
          | None => true
          end else Tasks.Ret (Err "peer seed conflicts with this workload's configured catalog") ;;
  _ ←? Tasks.step (fun _ _ w => let (view, seeded) := Cache.seed r now (cache w) in (set_cache view w, seeded));
  _ ← Tasks.step (fun _ _ w => (set_hints (add_hint r (hints w)) w, tt));
  persist.

(** The next number of this generation is on the disk before it is used. *)
Definition next_sequence (digest : string) : M (Result Z) :=
  Tasks.step (fun i c w =>
    let state := if bool_decide ((sequence_state w).1 = digest) then sequence_state w else (digest, 0) in
    let w := set_sequence state w in
    ensure! state.2 + 1 <=? u64_max else (w, Err "discovery sequence exhausted") ;;
    let state := (state.1, state.2 + 1) in
    let w := set_sequence state w in
    if directory then
      try! b := ok_or (to_json state) "serialize discovery sequence" in w ;;
      match storing c with
      | Stored => (log (Numbered i state.2) (set_files (put_sequence b (files w)) w), Ok state.2)
      | StoredUnsynced e => (set_files (put_sequence b (files w)) w, Err e)
      | NotStored e => (w, Err e)
      end
    else (log (Numbered i state.2) w, Ok state.2)).

Definition sign_own (c : ServiceCatalog) (credential : WorkloadIdentity) (addr : EndpointAddr) (sequence now : Z)
    : Result ReplicaServiceRecord :=
  let stop := Z.min (saturating_add u64_max now 120) (Workload.claims_expires_at_secs (Workload.claims credential)) in
  ensure! now <? stop else Err "workload certificate expires too soon for discovery" ;;
  endpoint ← EndpointRecord.sign
    {| EndpointRecord.version := ENDPOINT_RECORD_VERSION; EndpointRecord.endpoint_id := id_as_bytes local;
       EndpointRecord.relay_url := head (addr_relay_urls addr);
       EndpointRecord.direct_addresses := take (Z.to_nat MAX_ENDPOINT_DIRECT_ADDRESSES) (addr_ip_addrs addr);
       EndpointRecord.signing_pubkey := ""; EndpointRecord.issued_at_secs := now;
       EndpointRecord.expires_at_secs := stop; EndpointRecord.signature := "" |}
    signing_public signing_private now;
  sign_record
    {| record_version := SERVICE_RECORD_VERSION; catalog := c; Discovery.credential := credential; endpoint := endpoint;
       record_replica_index := replica; Discovery.sequence := sequence; record_issued_at_secs := now;
       record_expires_at_secs := stop; record_signature := "" |} signing_private now.

(** [PeerConnector::start] and [update_record], each under the locks of the
    connector's record and of the cache.  The connector is started with the
    loopback address as the host of the application and with the endpoint of the
    sidecar's own identity. *)
Definition start_peer (i : nat) (r : ReplicaServiceRecord) (now : Z) (w : World) : World * Result unit :=
  ensure! bool_decide (endpoint_hex (endpoint r) = id_to_string local) else (w, Err "peer endpoint identity mismatch") ;;
  ensure! bool_decide (EndpointRecord.signing_pubkey (endpoint r) = b64_encode signing_public)
    else (w, Err "peer application identity mismatch") ;;
  try! _verified := verify_record r (owner (cache w)) now in w ;;
  let (view, authorized) := authorize_catalog (catalog r) (cache w) in
  try! _done := authorized in set_cache view w ;;
  let (view, admitted) := admit_record r now view in
  try! _done := admitted in set_cache view w ;;
  (log (Published i r) (set_peer (Some r) (set_replay Replay.empty_state (set_cache view w))), Ok tt).

Definition update_record (i : nat) (mine r : ReplicaServiceRecord) (now : Z) (w : World) : World * Result unit :=
  ensure! bool_decide (EndpointRecord.endpoint_id (endpoint r) = EndpointRecord.endpoint_id (endpoint mine)) &&
          bool_decide (EndpointRecord.signing_pubkey (endpoint r) = EndpointRecord.signing_pubkey (endpoint mine)) &&
          bool_decide (catalog r = catalog mine) &&
          bool_decide (Workload.delegation (credential r) = Workload.delegation (credential mine))
    else (w, Err "peer renewal changes identity/catalog") ;;
  let (view, admitted) := admit_record r now (cache w) in
  try! _done := admitted in set_cache view w ;;
  (log (Published i r) (set_peer (Some r) (set_cache view w)), Ok tt).

Definition add_neighbors (mine : bytes) (found neighbors : list ReplicaServiceRecord) : list ReplicaServiceRecord :=
  fold_left (fun l r =>
    if negb (bool_decide (EndpointRecord.endpoint_id (endpoint r) = mine)) &&
       negb (existsb (fun old => bool_decide (EndpointRecord.endpoint_id (endpoint old) = EndpointRecord.endpoint_id (endpoint r))) l) &&
       (len l <? MAX_HINTS)
    then l ++ [r] else l) found neighbors.

(** The publication of a new record: the neighbours it is exchanged with, or
    nothing when there is no catalog or no credential yet. *)
Definition publish : M (Result (option (list ReplicaServiceRecord))) :=
  match configured with
  | None => Tasks.Ret (Ok None)
  | Some c =>
      held ← Tasks.step (fun _ _ w => (w, Authority.current (authorization w)));
      match held with
      | None => Tasks.Ret (Ok None)
      | Some credential =>
          now ← clock;
          _ ←! Workload.verify_identity credential (Some now);
          digest ←! Workload.digest (Workload.delegation credential);
          sequence ←? next_sequence digest;
          addr ← Tasks.step (fun _ c w => (w, address c));
          r ←! sign_own c credential addr sequence now;
          _ ←? Tasks.step (fun i ch w =>
            match peer w with
            | Some mine => update_record i mine r (clock_secs ch) w
            | None => start_peer i r (clock_secs ch) w
            end);
          _ ← Tasks.step (fun _ _ w => (set_own (Some r) w, tt));
          l ← Tasks.step (fun _ _ w => (w, hints w));
          found ← Tasks.step (fun _ _ w => (w, snapshot (cache w) now));
          Tasks.Ret (Ok (Some (add_neighbors (id_as_bytes local) found l)))
      end
  end.

(** The newest record of the same endpoint, if there is one. *)
Definition freshen (fresh : list ReplicaServiceRecord) (r : ReplicaServiceRecord) : ReplicaServiceRecord :=
  default r (List.find (fun x => bool_decide (EndpointRecord.endpoint_id (endpoint x) = EndpointRecord.endpoint_id (endpoint r))) fresh).

Definition merge_hints (neighbors l : list ReplicaServiceRecord) : list ReplicaServiceRecord :=
  fold_left (fun l r =>
    if (len l <? MAX_HINTS) && negb (existsb (fun hint => bool_decide (workload_of hint = workload_of r)) l)
    then l ++ [r] else l) neighbors l.

Definition remember (neighbors : list ReplicaServiceRecord) : M (Result unit) :=
  fresh ← Tasks.step (fun _ c w => (w, snapshot (cache w) (clock_secs c)));
  _ ← Tasks.step (fun _ _ w => (set_hints (merge_hints (freshen fresh <$> neighbors) (freshen fresh <$> hints w)) w, tt));
  persist.

(** Between the two, the neighbours are exchanged with, each in a task
    [sync_with] of its own. *)
Definition refresh : M (Result unit) :=
  neighbors ←? publish;
  match neighbors with Some l => remember l | None => Tasks.Ret (Ok tt) end.

(** *** Tunnels of the application *)

(** The virtual addresses, and what the cache takes for a service. *)
Definition is_internal_destination (view : ServiceCache) (host : string) : bool :=
  match Net.parse_ipv4_addr host with
  | Some [198; 18; 0; _] => true
  | _ => classifies_internal view host
  end.

Definition credential_live : M (Result unit) :=
  now ← clock;
  Tasks.step (fun _ _ w => (w, Authority.live now (authorization w))).

Definition destination_key (host : string) (now : Z) (view : ServiceCache) : Result ServiceKey :=
  match Net.parse_ipv4_addr host with
  | Some [a; b; c; d] => ok_or (service_for_address view (from_octets a b c d)) "unknown service VIP"
  | _ => match lookup view host now with
         | Some answer => Ok (answer_key answer)
         | None => Err "internal DNS is unavailable"
         end
  end.

(** What the application is told and what it had sent already goes first. *)
Definition begin_tunnel (t : TunnelRequest) : M (Result unit) :=
  _ ←? (if send_http_200 t then Tasks.step (fun _ c w => (w, written c)) else Tasks.Ret (Ok tt));
  match initial_data t with
  | Some b => Tasks.step (fun _ c w => (log (Moved b) w, written c))
  | None => Tasks.Ret (Ok tt)
  end.

Definition forward_local (key : ServiceKey) (port : Z) (error : string) : M (Result unit) :=
  mine ← record;
  mine ←! ok_or mine "no eligible local replica";
  ensure! bool_decide (catalog_manifest_id (catalog mine) = key_manifest_id key) else Tasks.Ret (Err error) ;;
  target ←? Tasks.step (fun _ _ w => (w, ok_or (Cache.target_port (cache w) key port) "service port is not authorized"));
  Tasks.step (fun _ c w => (log (LocalService key port target) w, connected c)).

Definition forward (t : TunnelRequest) : M (Result unit) := dropping (
  now ← clock;
  _ ←? Tasks.step (fun _ _ w => (w, Authority.live now (authorization w)));
  key ←? Tasks.step (fun _ _ w => (w, destination_key (dest_host t) now (cache w)));
  _ ←? own_record;
  remote ← open_service key (dest_port t) true;
  match remote with
  | Ok x =>
      _ ←? begin_tunnel t;
      _ ←? raw_relay (_ ←? credential_live; identity_live (credential (responder (ex_response x))));
      Tasks.Ret (Ok tt)
  | Err e =>
      _ ←? forward_local key (dest_port t) e;
      _ ←? begin_tunnel t;
      _ ←? raw_relay credential_live;
      Tasks.Ret (Ok tt)
  end).

(** ** Control (connector_control.rs) *)
Context (control_owner workload_name : string) (replica_count : Z) (has_network require_relay_hint : bool).
Context (transport_private : bytes).
Context {JQ : Json Connector.ConnectorRequest} {JR : Json Connector.ConnectorResponse}.

Definition RECORD_LIFETIME_SECS : Z := 300.

Definition inspect (request : Connector.ConnectorRequest) : M (Result Connector.ConnectorIdentityReport) :=
  _ ←! Connector.validate_request request;
  now ← clock;
  owner ←! b64_decode control_owner;
  addr ← Tasks.step (fun _ c w => (w, address c));
  endpoint ←! EndpointRecord.sign
    {| EndpointRecord.version := ENDPOINT_RECORD_VERSION; EndpointRecord.endpoint_id := id_as_bytes local;
       EndpointRecord.relay_url := head (addr_relay_urls addr);
       EndpointRecord.direct_addresses := take (Z.to_nat MAX_ENDPOINT_DIRECT_ADDRESSES) (addr_ip_addrs addr);
       EndpointRecord.signing_pubkey := ""; EndpointRecord.issued_at_secs := now;
       EndpointRecord.expires_at_secs := saturating_add u64_max now RECORD_LIFETIME_SECS; EndpointRecord.signature := "" |}
    signing_public signing_private now;
  held ← Tasks.step (fun _ _ w => (w, Authority.current (authorization w)));
  mine ← (if has_network then record else Tasks.Ret None);
  let service_record :=
    match mine with
    | Some r => if negb require_relay_hint || bool_decide (is_Some (EndpointRecord.relay_url (Discovery.endpoint r)))
                then Some r else None
    | None => None
    end in
  Tasks.Ret (Connector.sign_report
    {| Connector.owner_public_key_b64 := control_owner; Connector.report_workload_name := workload_name;
       Connector.report_workload_id := AgentIds.workload_id owner workload_name replica;
       Connector.report_manifest_id := Registration.route_id owner workload_name;
       Connector.report_replica_index := replica; Connector.report_replica_count := replica_count;
       Connector.challenge := Connector.request_challenge request; Connector.report_endpoint := endpoint;
       Connector.credential_expires_at_secs :=
         (fun i => Workload.claims_expires_at_secs (Workload.claims i)) <$> held;
       Connector.report_credential := held; Connector.service_record := service_record;
       Connector.transport_signature := "" |} transport_private now).

(** What a request changes before it is answered. *)
Definition installation (request : Connector.ConnectorRequest) : M (Result unit) :=
  match Connector.seed_peer request, Connector.install_identity request with
  | Some r, _ => if has_network then seed r else Tasks.Ret (Err "workload DNS is not enabled")
  | None, Some identity =>
      now ← clock;
      Tasks.step (fun _ _ w =>
        let (a, r) := Authority.install identity now (authorization w) in (set_authorization a w, r))
  | None, None => Tasks.Ret (Ok tt)
  end.

(** A connection of a process with the user id [uid]; [own_uid] is this one's. *)
Definition control (own_uid uid : Z) (input : bytes) : M (Result bytes) := dropping (
  _ ←? try_acquire ControlSlot "connector control capacity reached";
  ensure! uid =? own_uid else Tasks.Ret (Err "connection of another user") ;;
  '(b, _) ←! Connector.read_frame input;
  response ←
    match Connector.request_from_bytes b with
    | Ok request =>
        report ← (_ ←? installation request; inspect request);
        Tasks.Ret (match report with
                   | Ok report => Connector.identity_response report
                   | Err _ => Connector.error_response Connector.Rejected
                   end)
    | Err _ => Tasks.Ret (Connector.error_response Connector.Rejected)
    end;
  b ←! Connector.response_to_bytes response;
  Tasks.Ret (Connector.write_frame b)).

(** ** Starting: [WorkloadNetwork::new], which goes on with [persist] *)
Definition read_state (limit : Z) (stored : option bytes) : Result (option bytes) :=
  match stored with
  | None => Ok None
  | Some content =>
      let b := take (Z.to_nat (limit + 1)) content in
      ensure! len b <=? limit else Err "workload network state exceeds limit" ;;
      Ok (Some b)
  end.

Fixpoint verify_seeds (l : list ReplicaServiceRecord) (owner : string) : Result unit :=
  match l with
  | [] => Ok tt
  | r :: l => _ ← verify_record_structure r owner; verify_seeds l owner
  end.

Definition new (owner : string) (a : Authority.WorkloadAuthorization) (f : Files) : Result World :=
  view ← (if directory then restore owner (dns_state f) else Cache.new owner);
  view ← match configured with
         | Some c => let (view, r) := replace_catalog c view in _ ← r; Ok view
         | None => Ok view
         end;
  sequence ← (if directory then
                stored ← read_state MAX_SEQUENCE_BYTES (discovery_sequence f);
                match stored with Some b => ok_or (from_json b) "invalid discovery sequence" | None => Ok ("", 0) end
              else Ok ("", 0));
  seeds ← (if directory then
             stored ← read_state MAX_SEED_BYTES (peer_seeds f);
             match stored with
             | Some b =>
                 l ← ok_or (from_json b) "invalid peer seeds";
                 ensure! len l <=? MAX_HINTS else Err "too many stored peer seeds" ;;
                 _ ← verify_seeds l owner; Ok l
             | None => Ok []
             end
           else Ok []);
  Ok {| cache := view; authorization := a; own := None; hints := seeds; peer := None; sequence_state := sequence;
        replay := Replay.empty_state; connections := ∅; permits := []; files := f; trace := [] |}.
End Network.
End Network.
