(* ===== verification/NetworkSafety.v ===== *)
(** * What the workload's network promises

    However the tasks of a sidecar interleave and wherever they are cancelled,
    its application is reached only by workloads of its owner, over endpoints the
    owner's credentials name, on the ports of its own catalog; tunnels lead only
    to such workloads; the credential it holds only ever gets newer; and no two
    records it publishes carry the same number, also across restarts. *)

From S2P Require Import Prelude Net Crypto Signed RustOrd ReplayRegistry EndpointRecord MeshProtocol Identity Registration.
From S2P Require Import WorkloadStream WorkloadControl Biscuit WorkloadIdentity AgentIds ServiceDiscovery ServiceCache.
From S2P Require Import ServiceNames ServiceCacheSafety WorkloadPayloads Connector Tasks RawRelay HttpConnect WorkloadNetwork.

From Stdlib Require Import Sorting.Sorted.

Module NetworkSafety.
Import Crypto Io Stream Control Payloads Discovery Cache Biscuit Network.
Import EndpointRecord (EndpointRecord).
Import Workload (WorkloadIdentity).
Import HttpConnect (TunnelRequest, dest_host, dest_port, send_http_200, initial_data).

(** ** Sequence numbers *)
Section Numbers.
Context {I : Iroh}.
Implicit Types t : list Occurrence.

Definition numbers t : list (nat * Z) := omap (fun o => match o with Numbered i n => Some (i, n) | _ => None end) t.
Definition published t : list ReplicaServiceRecord := omap (fun o => match o with Published _ r => Some r | _ => None end) t.
Definition handed (before : list Z) t : list Z := (numbers t).*2 ++ before.

(** The number task [i] took and has not published with. *)
Fixpoint pending (i : nat) t : option Z :=
  match t with
  | [] => None
  | Numbered j n :: t => if decide (i = j) then Some n else pending i t
  | Published j _ :: t => if decide (i = j) then None else pending i t
  | _ :: t => pending i t
  end.

(** Numbers are taken in increasing order, above those of earlier runs, and each
    is published with at most once. *)
Record numbered (before : list Z) t : Prop := {
  numbered_fresh : StronglySorted (fun a b => b < a) (handed before t);
  numbered_once : NoDup (Discovery.sequence <$> published t);
  numbered_taken r : r ∈ published t -> Discovery.sequence r ∈ (numbers t).*2;
  numbered_waiting i n : pending i t = Some n -> (i, n) ∈ numbers t /\ n ∉ (Discovery.sequence <$> published t)
}.

Definition quiet (o : Occurrence) : Prop := match o with Numbered _ _ | Published _ _ => False | _ => True end.

Lemma quiet_numbers o t : quiet o -> numbers (o :: t) = numbers t /\ published (o :: t) = published t /\ forall i, pending i (o :: t) = pending i t.
Proof. by destruct o. Qed.

Lemma numbered_quiet before o t : quiet o -> numbered before t -> numbered before (o :: t).
Proof.
  intros (Hn & Hp & Hi)%(quiet_numbers o t) []. split; unfold handed in *; rewrite ?Hn, ?Hp; try done. intros i n. rewrite Hi. auto.
Qed.

Lemma sorted_nodup l : StronglySorted (fun a b : Z => b < a) l -> NoDup l.
Proof.
  induction 1 as [|x l _ IH Hx]; constructor; [|done]. rewrite Forall_forall in Hx. intros Hin. specialize (Hx _ Hin). cbn in Hx. lia.
Qed.

Lemma numbers_inj before t i j n : numbered before t -> (i, n) ∈ numbers t -> (j, n) ∈ numbers t -> i = j.
Proof.
  intros [Hs _ _ _]. apply sorted_nodup in Hs. unfold handed in Hs. apply NoDup_app in Hs as [Hs _]. clear before.
  induction (numbers t) as [|[k m] l IH]; cbn in *; [set_solver|]. apply NoDup_cons in Hs as [Hk Hs].
  rewrite !elem_of_cons. intros [Hi|Hi] [Hj|Hj]; simplify_eq; [done| | |by apply IH];
    destruct Hk; apply list_elem_of_fmap; eexists (_, _); split; [|done| |done]; done.
Qed.

Lemma numbered_number before i n t : Forall (fun m => m < n) (handed before t) -> numbered before t -> numbered before (Numbered i n :: t).
Proof.
  intros Hn [Hf Ho Ht Hw]. unfold handed in *.
  assert (Hnew : n ∉ Discovery.sequence <$> published t).
  { intros (r & -> & Hr)%list_elem_of_fmap. rewrite Forall_forall in Hn. specialize (Hn (Discovery.sequence r)).
    rewrite elem_of_app in Hn. specialize (Hn (or_introl (Ht _ Hr))). lia. }
  split; cbn.
  - by constructor.
  - done.
  - intros r Hr. apply elem_of_cons. right. by apply Ht.
  - intros j m. case_decide as Hj; [intros [= <-]; subst; split; [by left|done]|].
    intros [Hin Hm]%Hw. split; [by right|done].
Qed.

Lemma numbered_publish before i r t : pending i t = Some (Discovery.sequence r) -> numbered before t -> numbered before (Published i r :: t).
Proof.
  intros Hp Hn. pose proof Hn as [Hf Ho Ht Hw]. destruct (Hw _ _ Hp) as [Hin Hnew]. split; cbn.
  - done.
  - by constructor.
  - intros x [->|Hx]%elem_of_cons; [apply list_elem_of_fmap; by exists (i, Discovery.sequence r)|by apply Ht].
  - intros j m. case_decide as Hj; [done|]. intros [Hjm Hm]%Hw. split; [done|].
    intros [->|?]%elem_of_cons; [|done]. apply Hj. by eapply numbers_inj.
Qed.
End Numbers.

#[local] Existing Instances Workload.delegation_eq_dec Workload.identity_eq_dec.

Section Safety.
Context {I : Iroh} {IL : IrohLaws I} {P : Primitives} {B : BiscuitAuth} {H : Blake3} {BH : Blake3Hex H} {B32 : Base32} {L32 : Base32Laws B32}.
Context {CD : PeerCodecs} {JSL : JsonLaws (string * Z) peer_sequence_json}.
Context (id_to_string : EndpointId -> string).
Context (local : EndpointId) (signing_public signing_private : bytes).
Context (configured : option ServiceCatalog) (replica : Z) (directory : bool).
(** The tenant, the generation of the workload's credentials, and the numbers
    taken in earlier runs. *)
Context (tenant : string) (generation : Workload.EnrollmentDelegation) (before : list Z).

(** ** The invariant *)

(** A credential of this generation, for this endpoint and this key. *)
Definition authority_ok (a : Authority.WorkloadAuthorization) : Prop :=
  Authority.auth_delegation a = generation /\
  forall i, Authority.current a = Some i -> Workload.delegation i = generation /\
    exists t, Workload.verify_identity i t = Ok tt.

(** A record of a workload of the tenant. *)
Definition verified (r : ReplicaServiceRecord) : Prop := exists t, verify_record r tenant t = Ok tt.

(** A record this sidecar may publish. *)
Definition own_ok (r : ReplicaServiceRecord) : Prop :=
  verified r /\ configured = Some (catalog r) /\ Workload.delegation (credential r) = generation /\
  EndpointRecord.endpoint_id (endpoint r) = id_as_bytes local.

(** The message was accepted from the peer, signed with the key. *)
Definition received {T} `{Postcard T} `{WorkloadPayload T} (remote : EndpointId) (message : T) (signer : bytes) : Prop :=
  exists b now st observed st' a,
    accept_workload_payload (T := T) b (id_to_string local) (id_to_string remote) now limits st observed = (st', Ok a) /\
    accepted_payload a = message /\ accepted_signing_key a = signer.

(** The peer at the other end has a record of the tenant for its transport and
    its signing key. *)
Definition authenticated (remote : EndpointId) (at_secs : Z) (r : ReplicaServiceRecord) (signer : bytes) : Prop :=
  verify_record r tenant at_secs = Ok tt /\ endpoint_hex (endpoint r) = id_to_string remote /\
  EndpointRecord.signing_pubkey (endpoint r) = b64_encode signer.

Definition occurrence_ok (o : Occurrence) : Prop :=
  match o with
  | Published _ r => own_ok r
  | Served remote at_secs request signer target =>
      received remote request signer /\ authenticated remote at_secs (caller request) signer /\
      exists c service port, configured = Some c /\ operation request = Connect (catalog_manifest_id c) service port /\
        service_target c service port = Some target
  | Tunnelled remote at_secs key port response signer =>
      received remote response signer /\ authenticated remote at_secs (responder response) signer /\
      peer_result response = Connected /\
      exists r, verified r /\ catalog_manifest_id (catalog r) = key_manifest_id key /\
        EndpointRecord.endpoint_id (endpoint r) = id_as_bytes remote
  | LocalService key port target =>
      exists c, configured = Some c /\ catalog_manifest_id c = key_manifest_id key /\ service_target c (key_name key) port = Some target
  | Numbered _ _ | Sent _ _ | Moved _ => True
  end.

Definition covers (g : string) (s : string * Z) (n : Z) : Prop := s.1 = g /\ n <= s.2.

(** The numbers taken are behind the counter, and behind the one on the disk. *)
Definition counted (w : World) : Prop := forall g n, Workload.digest generation = Ok g -> n ∈ handed before (trace w) ->
  covers g (sequence_state w) n /\
  (directory = true -> exists b s, discovery_sequence (files w) = Some b /\ from_json b = Some s /\ covers g s n).

Record inv (w : World) : Prop := {
  inv_cache : CacheSafety.inv (cache w);
  inv_owner : owner (cache w) = tenant;
  inv_configured c : configured = Some c -> catalogs (cache w) !! catalog_manifest_id c = Some c;
  inv_authority : authority_ok (authorization w);
  inv_own r : own w = Some r -> own_ok r;
  inv_peer r : peer w = Some r -> own_ok r;
  inv_hints : len (hints w) <= MAX_HINTS;
  inv_structure : Forall (fun r => verify_record_structure r tenant = Ok tt) (hints w);
  inv_replay : Replay.state_wf limits (replay w);
  inv_connections : set_len (connections w) <= MAX_PEER_SESSIONS;
  inv_permits p : held p w <= capacity p;
  inv_trace : Forall occurrence_ok (trace w);
  inv_numbers : numbered before (trace w);
  inv_counted : counted w
}.

(** What every step respects: the credential is kept or gets newer, and what
    happened stays. *)
Definition newer (a a' : Authority.WorkloadAuthorization) : Prop :=
  forall old, Authority.current a = Some old -> exists i, Authority.current a' = Some i /\
    Workload.claims_issued_at_secs (Workload.claims old) <= Workload.claims_issued_at_secs (Workload.claims i) /\
    Workload.claims_expires_at_secs (Workload.claims old) <= Workload.claims_expires_at_secs (Workload.claims i).

Definition advances (w w' : World) : Prop := newer (authorization w) (authorization w') /\ exists t, trace w' = t ++ trace w.

Lemma newer_refl a : newer a a. Proof. intros old Ho. exists old. split; [done|lia]. Qed.
Lemma newer_trans a b c : newer a b -> newer b c -> newer a c.
Proof. intros H1 H2 old Ho. destruct (H1 _ Ho) as (i & Hi & ?). destruct (H2 _ Hi) as (j & Hj & ?). exists j. split; [done|lia]. Qed.

Lemma advances_refl w : advances w w. Proof. split; [apply newer_refl|by exists []]. Qed.
Lemma advances_trans w1 w2 w3 : advances w1 w2 -> advances w2 w3 -> advances w1 w3.
Proof.
  intros [H1 [t1 E1]] [H2 [t2 E2]]. split; [by eapply newer_trans|]. exists (t2 ++ t1). rewrite E2, E1. by rewrite app_assoc.
Qed.

Definition rely (i : nat) (w w' : World) : Prop := advances w w' /\ pending i (trace w') = pending i (trace w).
Definition guar (i : nat) (w w' : World) : Prop := advances w w' /\ forall j, j <> i -> pending j (trace w') = pending j (trace w).

Lemma network_release_inv i w : inv w -> inv (release i w).
Proof.
  intros []. split; try done. intros p. etrans; [|apply (inv_permits0 p)]. unfold held, len. cbn.
  apply Nat2Z.inj_le, sublist_length, filter_sublist_mono, sublist_filter.
Qed.

Lemma network_laws : Tasks.laws release inv rely guar.
Proof.
  split.
  - split; [apply advances_refl|done].
  - intros i w1 w2 w3 [] []. split; [by eapply advances_trans|congruence].
  - intros i j w w' Hij [Ha Hp]. split; [done|]. apply Hp. congruence.
  - intros i w Hw. split; [by apply network_release_inv|]. split; [split; [apply newer_refl|by exists []]|done].
Qed.

(** *** The cache *)
Definition cache_ok (view : ServiceCache) : Prop :=
  CacheSafety.inv view /\ owner view = tenant /\
  forall c, configured = Some c -> catalogs view !! catalog_manifest_id c = Some c.

Lemma inv_cache_ok w : inv w -> cache_ok (cache w).
Proof. by intros []. Qed.

Lemma authorize_ok c view : cache_ok view -> cache_ok (authorize_catalog c view).1.
Proof.
  intros (Hi & Ho & Hc). destruct (CacheSafety.authorize_cases c view) as [[r ->]|(view' & -> & Hg & Hi' & Hnone)]; [apply Hi|done|].
  cbn [fst]. split_and!; [done|by rewrite (CacheSafety.grown_owner _ _ _ Hg)|]. intros c' Hc'. rewrite (CacheSafety.grown_catalogs _ _ _ Hg).
  apply Hc in Hc'. rewrite lookup_insert_ne; [done|]. congruence.
Qed.

Lemma admit_ok r now older view : cache_ok view -> cache_ok (admit_inner r now older view).1.
Proof.
  intros (Hi & Ho & Hc). split; [by apply CacheSafety.admit_inv|].
  by destruct (CacheSafety.admit_cases r now older view) as [(res & -> & _)|(-> & _)].
Qed.

Lemma candidates_ok key now ex view : cache_ok view -> cache_ok (candidates key now ex view).1.
Proof.
  intros (Hi & Ho & Hc). split; [by apply CacheSafety.candidates_inv|]. unfold candidates. by case_bool_decide.
Qed.

(** Seeding does not change the catalog the workload was deployed with. *)
Lemma seed_ok r now view :
  match configured with
  | Some mine => negb (bool_decide (catalog_manifest_id mine = catalog_manifest_id (catalog r))) || bool_decide (mine = catalog r)
  | None => true
  end = true -> cache_ok view -> cache_ok (Cache.seed r now view).1.
Proof.
  intros Hr (Hi & Ho & Hc). split_and!; [by apply CacheSafety.seed_inv|by rewrite (CacheSafety.keeps_owner _ _ (CacheSafety.seed_keeps r now view Hi))|].
  intros c Hcc. unfold Cache.seed. destruct (verify_record _ _ _); [|by apply Hc].
  assert (Hrep : catalogs (replace_catalog (catalog r) view).1 !! catalog_manifest_id c = Some c).
  { rewrite Hcc in Hr. pose proof (Hc _ Hcc) as Hold. unfold replace_catalog. destruct (verify_catalog _ _); [|done].
    destruct (_ <=? _); [|done]. apply orb_prop in Hr as [Hr|Hr]; bool_props.
    - set (view' := if _ : bool then _ else _).
      assert (Hv : cache_ok view -> CacheSafety.core view' /\ catalogs view' !! catalog_manifest_id c = Some c).
      { intros _. subst view'. destruct (match catalogs view !! _ with Some _ => _ | None => _ end); [|split; [apply Hi|done]].
        split; [apply CacheSafety.forget_core, Hi|]. cbn. by rewrite lookup_delete_ne. }
      destruct Hv as [Hcore Hl]; [done|]. destruct (CacheSafety.authorize_cases (catalog r) view' Hcore) as [[? ->]|(v & -> & Hg & _)]; [done|].
      cbn. rewrite (CacheSafety.grown_catalogs _ _ _ Hg). by rewrite lookup_insert_ne.
    - subst c. rewrite Hold, bool_decide_true by done. cbn. destruct (CacheSafety.authorize_cases (catalog r) view) as [[? ->]|(v & -> & Hg & _)];
        [apply Hi|done|]. cbn. rewrite (CacheSafety.grown_catalogs _ _ _ Hg). apply lookup_insert_eq. }
  destruct (replace_catalog (catalog r) view) as [view1 [[]|]]; [|done]. cbn in Hrep.
  set (differs := match records view1 !! slot_of r with Some _ => _ | None => _ end).
  set (view2 := if differs then _ else _).
  assert (H2 : catalogs view2 !! catalog_manifest_id c = Some c) by (subst view2; by destruct differs).
  unfold admit_record. destruct (CacheSafety.admit_cases r now false view2) as [(res & -> & _)|(-> & _)]; [by destruct res|done].
Qed.

Lemma merge_records_ok l now view n : cache_ok view -> cache_ok (merge_records l now view n).1.
Proof.
  revert view n. induction l as [|r l IH]; intros view n Hv; [done|]. cbn [merge_records].
  pose proof (authorize_ok (catalog r) view Hv) as Ha. destruct (authorize_catalog _ _) as [v1 [[]|]]; [|by apply IH].
  pose proof (admit_ok r now true v1 Ha) as Hm. unfold merge. destruct (admit_inner _ _ _ _) as [v2 res]. by apply IH.
Qed.

(** *** The fields, one at a time *)
Lemma network_inv_log o w : quiet o -> occurrence_ok o -> inv w -> inv (log o w).
Proof.
  intros Hq Ho []. destruct (quiet_numbers o (trace w) Hq) as (Hn & Hp & Hi). split; try done.
  - by apply Forall_cons.
  - by apply numbered_quiet.
  - intros g n Hg. unfold handed. change (trace (log o w)) with (o :: trace w). rewrite Hn. by apply inv_counted0.
Qed.

Lemma inv_set_cache view w : inv w -> cache_ok view -> inv (set_cache view w).
Proof. intros [] (? & ? & ?). by split. Qed.

Lemma network_inv_set_own r w : inv w -> own_ok r -> inv (set_own (Some r) w).
Proof. intros [] Hr. split; try done. by intros ? [= <-]. Qed.

Lemma inv_set_hints l w : inv w -> len l <= MAX_HINTS -> Forall (fun r => verify_record_structure r tenant = Ok tt) l -> inv (set_hints l w).
Proof. intros [] ? ?. by split. Qed.

Lemma network_inv_set_replay st w : inv w -> Replay.state_wf limits st -> inv (set_replay st w).
Proof. intros [] ?. by split. Qed.

Lemma inv_set_connections s w : inv w -> set_len s <= MAX_PEER_SESSIONS -> inv (set_connections s w).
Proof. intros [] ?. by split. Qed.

Lemma inv_set_files f w : inv w -> discovery_sequence f = discovery_sequence (files w) -> inv (set_files f w).
Proof. intros [] Hf. split; try done. intros g n Hg Hn. cbn. rewrite Hf. by apply inv_counted0. Qed.

(** ** Programs *)
Abbreviation M := (Tasks.Prog World Choice).

Definition knows (o : option Z) (i : nat) (w : World) : Prop :=
  match o with Some n => pending i (trace w) = Some n | None => True end.

(** Run among other tasks, [p] keeps the invariant, takes and publishes no
    number, and its answer satisfies [Q]. *)
Definition holds {A} (p : M A) (Q : A -> Prop) : Prop :=
  forall o i, Tasks.triple inv rely guar i (knows o i) p (fun a w => Q a /\ knows o i w).

(** A step that takes and publishes no number. *)
Definition still (w w' : World) : Prop :=
  newer (authorization w) (authorization w') /\ exists t, trace w' = t ++ trace w /\ Forall quiet t.

Lemma quiet_pending t t0 i : Forall quiet t -> pending i (t ++ t0) = pending i t0.
Proof. induction 1 as [|o t Ho _ IH]; [done|]. cbn [app]. destruct (quiet_numbers o (t ++ t0) Ho) as (_ & _ & ->). done. Qed.

Lemma still_guar i w w' : still w w' -> guar i w w' /\ pending i (trace w') = pending i (trace w).
Proof.
  intros [Hn (t & Ht & Hq)]. split; [split|].
  - split; [done|by exists t].
  - intros j _. by rewrite Ht, quiet_pending.
  - by rewrite Ht, quiet_pending.
Qed.

Lemma still_refl w : still w w. Proof. split; [apply newer_refl|by exists []]. Qed.
Lemma still_same w w' : authorization w' = authorization w -> trace w' = trace w -> still w w'.
Proof. intros Ha Ht. split; [rewrite Ha; apply newer_refl|by exists []]. Qed.
Lemma still_log o w : quiet o -> still w (log o w).
Proof. intros Ho. split; [apply newer_refl|]. exists [o]. split; [done|by constructor]. Qed.

Lemma knows_stable o i : Tasks.stable rely i (knows o i).
Proof. intros w w' Hw [_ Hp]. destruct o; [|done]. cbn in *. congruence. Qed.

Lemma net_holds_ret {A} (a : A) (Q : A -> Prop) : Q a -> holds (Tasks.Ret a) Q.
Proof. intros HQ o i. by apply Tasks.triple_ret. Qed.

Lemma net_holds_bind {A C} (p : M A) (g : A -> M C) (S : A -> Prop) (Q : C -> Prop) :
  holds p S -> (forall a, S a -> holds (g a) Q) -> holds (Tasks.prog_bind p g) Q.
Proof. intros Hp Hg o i. eapply Tasks.triple_bind; [apply Hp|]. intros a w [HS Hk] Hw. by apply (Hg a HS o i w). Qed.

Lemma net_holds_step {A} (f : nat -> Choice -> World -> World * A) (Q : A -> Prop) :
  (forall i c w, inv w -> inv (f i c w).1 /\ still w (f i c w).1 /\ Q (f i c w).2) -> holds (Tasks.step f) Q.
Proof.
  intros Hf o i. apply Tasks.triple_step; [apply knows_stable|]. intros c w Hk Hw. destruct (Hf i c w Hw) as (H1 & H2 & H3).
  destruct (still_guar i _ _ H2) as [Hg Hp]. split_and!; [done..|]. destruct o; [|done]. cbn in *. congruence.
Qed.

Lemma net_holds_mono {A} (p : M A) (Q Q' : A -> Prop) : holds p Q -> (forall a, Q a -> Q' a) -> holds p Q'.
Proof. intros Hp HQ o i. eapply Tasks.triple_conseq; [apply Hp|done|]. intros a w []. auto. Qed.

Definition on_ok {A} (S : A -> Prop) (r : Result A) : Prop := match r with Ok a => S a | Err _ => True end.

Create HintDb network.

(** Follows a program: cases and the lemma of each part. *)
Ltac follow :=
  repeat match goal with
  | |- forall _, _ => intro
  | |- holds (mbind _ _) _ => unfold mbind, prog_bind_inst
  | |- holds (Tasks.prog_bind _ _) _ => eapply net_holds_bind; [solve [eauto 2 with network nocore]|]
  | |- holds (Tasks.Ret _) _ => apply net_holds_ret; try exact Logic.I
  | |- holds (match ?r with _ => _ end) _ => destruct r eqn:?
  | |- holds _ (fun _ => True) => solve [eauto 2 with network nocore]
  | H0 : on_ok _ (Ok _) |- _ => cbn [on_ok] in H0
  end.

Lemma net_holds_look {A} (g : Choice -> World -> A) : holds (Tasks.step (fun _ c w => (w, g c w))) (fun _ => True).
Proof. apply net_holds_step. intros. split_and!; [done|apply still_refl|done]. Qed.
#[local] Hint Resolve net_holds_look : network.

Lemma clock_holds : holds clock (fun _ => True).
Proof. apply net_holds_look. Qed.
#[local] Hint Resolve clock_holds : network.

Lemma own_record_holds : holds own_record (on_ok own_ok).
Proof.
  apply net_holds_step. intros i c w Hw. split_and!; [done|apply still_refl|]. cbn.
  destruct (peer w) as [r|] eqn:Hr; [|done]. by apply (inv_peer w Hw).
Qed.
#[local] Hint Resolve own_record_holds : network.

Lemma seal_holds {T} `{Postcard T} `{WorkloadPayload T} remote (value : T) :
  holds (seal id_to_string local signing_public signing_private remote value) (fun _ => True).
Proof. apply net_holds_look. Qed.

Lemma network_accept_payload_holds {T} `{Postcard T} `{WorkloadPayload T} remote b :
  holds (accept_payload (T := T) id_to_string local remote b)
    (on_ok (fun a => received remote (accepted_payload a) (accepted_signing_key a))).
Proof.
  apply net_holds_step. intros i c w Hw.
  pose proof (accept_registry (T := T) b (id_to_string local) (id_to_string remote) (Z.min (clock_secs c * 1000) u64_max) limits (replay w) (instant c)) as Hr.
  destruct (accept_workload_payload _ _ _ _ _ _ _) as [st r] eqn:Ha. cbn in Hr. split_and!.
  - apply network_inv_set_replay; [done|]. destruct Hr as [->|[n ->]]; [apply (inv_replay w Hw)|].
    apply (Replay.serve_all_wf _ _ [_]); [done|apply (inv_replay w Hw)].
  - by apply still_same.
  - destruct r as [a|]; [|done]. cbn. do 6 eexists. split_and!; [exact Ha|done..].
Qed.

Lemma own_tenant r : own_ok r -> catalog_owner (catalog r) = tenant.
Proof.
  intros ([t Hv] & _). apply accepted_replica in Hv as [Hc _ _ _ _ _ _]. unfold verify_catalog in Hc. by Signed.result_steps Hc; bool_props.
Qed.

Lemma verify_remote_holds remote r signer :
  holds (verify_remote id_to_string remote r signer) (on_ok (fun now => authenticated remote now r signer)).
Proof.
  unfold verify_remote. follow. bool_props. destruct a2. rewrite own_tenant in * by done. done.
Qed.
#[local] Hint Resolve network_accept_payload_holds verify_remote_holds : network.

Lemma merge_peer_holds r : holds (merge_peer r) (fun _ => True).
Proof.
  apply net_holds_step. intros i c w Hw. pose proof (authorize_ok (catalog r) (cache w) (inv_cache_ok w Hw)) as Ha.
  destruct (authorize_catalog _ _) as [v1 [[]|]].
  - pose proof (admit_ok r (clock_secs c) true v1 Ha) as Hm. unfold merge. destruct (admit_inner _ _ _ _) as [v2 res].
    split_and!; [by apply inv_set_cache|by apply still_same|done].
  - split_and!; [by apply inv_set_cache|by apply still_same|done].
Qed.

Lemma network_write_frame_holds remote send kind payload : holds (Network.write_frame remote send kind payload) (fun _ => True).
Proof.
  apply net_holds_step. intros i c w Hw. destruct (write_workload_frame _ _ _) as [send' r].
  split_and!; [by apply network_inv_log|by apply still_log|done].
Qed.
#[local] Hint Resolve merge_peer_holds network_write_frame_holds seal_holds : network.

(** The peer is addressed by the endpoint of its record. *)
Definition addressed (r : ReplicaServiceRecord) (op : PeerOperation) (remote : EndpointId) : Prop :=
  match op with
  | Sync _ => True
  | Connect _ _ _ => verified r /\ EndpointRecord.endpoint_id (endpoint r) = id_as_bytes remote
  end.

Lemma peer_address_holds r op : holds (peer_address r op tenant) (on_ok (addressed r op)).
Proof.
  unfold peer_address. destruct op; follow. cbn. match goal with u : unit |- _ => destruct u end. split; [by eexists|]. symmetry. by eapply Identity.endpoint_addr_id.
Qed.

Lemma connection_to_holds remote : holds (connection_to remote) (fun _ => True).
Proof.
  unfold connection_to. follow. apply net_holds_step. intros i c w Hw.
  set (live := filter (fun e => closed c e = false) (connections w)).
  assert (Hlive : set_len live <= MAX_PEER_SESSIONS).
  { etrans; [|apply (inv_connections w Hw)]. unfold set_len. apply Nat2Z.inj_le, subseteq_size. set_solver. }
  case_bool_decide as Hin; [split_and!; [by apply inv_set_connections|by apply still_same|done]|].
  destruct (set_len live <? MAX_PEER_SESSIONS) eqn:Hroom; [|split_and!; [by apply inv_set_connections|by apply still_same|done]].
  bool_props. split_and!; [|by apply still_same|done]. apply (inv_set_connections _ w Hw).
  unfold set_len in *. rewrite size_union by set_solver. rewrite size_singleton. lia.
Qed.
#[local] Hint Resolve connection_to_holds : network.

Definition exchanged (r : ReplicaServiceRecord) (op : PeerOperation) (x : Exchanged) : Prop :=
  addressed r op (ex_remote x) /\ received (ex_remote x) (ex_response x) (ex_signer x) /\
  authenticated (ex_remote x) (ex_at x) (responder (ex_response x)) (ex_signer x).

Lemma exchange_holds r op :
  holds (exchange id_to_string local signing_public signing_private r op) (on_ok (exchanged r op)).
Proof.
  unfold exchange. unfold mbind, prog_bind_inst. eapply net_holds_bind; [apply own_record_holds|]. intros [mine|] Hmine; [|by apply net_holds_ret].
  rewrite (own_tenant mine) by done. eapply net_holds_bind; [apply peer_address_holds|]. follow. done.
Qed.
#[local] Hint Resolve exchange_holds : network.

(** *** Synchronisation *)
Lemma sync_pages_holds pages r cursor changed :
  holds (sync_pages id_to_string local signing_public signing_private pages r cursor changed) (fun _ => True).
Proof.
  revert cursor changed. induction pages as [|pages IH]; intros; cbn [sync_pages]; [by apply net_holds_ret|].
  unfold mbind, prog_bind_inst. eapply net_holds_bind; [apply exchange_holds|]. intros [x|] _; [|by apply net_holds_ret].
  destruct (peer_result (ex_response x)) as [records next| |]; [|by apply net_holds_ret..].
  eapply (net_holds_bind _ _ (fun _ => True)).
  - apply net_holds_step. intros i c w Hw. pose proof (merge_records_ok records (clock_secs c) (cache w) changed (inv_cache_ok w Hw)) as Hm.
    destruct (merge_records _ _ _ _) as [v n]. split_and!; [by apply inv_set_cache|by apply still_same|done].
  - intros n _. destruct next as [next|]; [|by apply net_holds_ret]. destruct (cursor <? next); [apply IH|by apply net_holds_ret].
Qed.

Lemma network_try_acquire_holds p e : holds (try_acquire p e) (fun _ => True).
Proof.
  apply net_holds_step. intros i c w Hw. destruct (held p w <? capacity p) eqn:Hp; [|split_and!; [done|apply still_refl|done]].
  bool_props. split_and!; [|by apply still_same|done]. destruct Hw. split; try done. intros q. unfold held in *. cbn [permits set_permits fst].
  rewrite filter_cons. case_decide as Hq; [|apply inv_permits0]. cbn in Hq. subst q. rewrite len_cons. lia.
Qed.

Lemma network_drop_permits_holds : holds drop_permits (fun _ => True).
Proof. apply net_holds_step. intros i c w Hw. split_and!; [by apply network_release_inv|by apply still_same|done]. Qed.

Lemma dropping_holds {A} (p : M A) Q : holds p Q -> holds (dropping p) Q.
Proof.
  intros Hp. unfold dropping, mbind, prog_bind_inst. eapply net_holds_bind; [exact Hp|]. intros a Ha.
  eapply net_holds_bind; [apply network_drop_permits_holds|]. intros _ _. by apply net_holds_ret.
Qed.
#[local] Hint Resolve sync_pages_holds network_try_acquire_holds network_drop_permits_holds : network.

Lemma sync_with_holds r : holds (sync_with id_to_string local signing_public signing_private r) (fun _ => True).
Proof. unfold sync_with. apply dropping_holds. follow. Qed.

(** *** Tunnels to peers *)
Lemma try_peers_holds peers key port : Forall (fun r => catalog_manifest_id (catalog r) = key_manifest_id key) peers ->
  holds (try_peers id_to_string local signing_public signing_private peers key port) (fun _ => True).
Proof.
  induction 1 as [|r peers Hr _ IH]; cbn [try_peers]; [by apply net_holds_ret|]. unfold mbind, prog_bind_inst.
  eapply net_holds_bind; [apply exchange_holds|]. intros [x|] Hx; [|apply IH].
  destruct (peer_result (ex_response x)) eqn:Hp; [apply IH| |apply IH]. destruct Hx as ((Hv & He) & Hrec & Hauth).
  apply net_holds_step. intros i c w Hw. split_and!; [apply network_inv_log; [done| |done]|by apply still_log|done].
  split_and!; [done..|]. by exists r.
Qed.

Lemma eligible_manifest view key now r : r ∈ eligible view key now -> catalog_manifest_id (catalog r) = key_manifest_id key.
Proof. unfold eligible. rewrite elem_of_list_retain. intros [_ Hr]. unfold is_eligible in Hr. by bool_props. Qed.

Lemma candidates_manifest view key now ex :
  Forall (fun r => catalog_manifest_id (catalog r) = key_manifest_id key) (candidates key now ex view).2.
Proof.
  apply Forall_forall. intros r Hr. apply (eligible_manifest view key now). unfold candidates in Hr. case_bool_decide as Hn; cbn in Hr.
  - rewrite Hn in Hr. set_solver.
  - set (l := list_retain _ _) in *. assert (Hl : r ∈ l).
    { apply elem_of_app in Hr as [Hr|Hr]; eapply elem_of_submseteq; [exact Hr| |exact Hr|];
        apply sublist_submseteq; [apply sublist_drop|apply sublist_take]. }
    subst l. rewrite elem_of_list_retain in Hl. by destruct Hl.
Qed.

Lemma open_service_holds key port remote_only :
  holds (open_service id_to_string local signing_public signing_private key port remote_only) (fun _ => True).
Proof.
  unfold open_service, mbind, prog_bind_inst. eapply (net_holds_bind _ _ (fun _ => True)); [|follow].
  eapply net_holds_bind; [apply network_try_acquire_holds|]. intros [[]|] _; [|by apply net_holds_ret].
  eapply (net_holds_bind _ _ (on_ok (Forall (fun r => catalog_manifest_id (catalog r) = key_manifest_id key)))).
  - apply net_holds_step. intros i c w Hw. case_bool_decide; [|split_and!; [done|apply still_refl|done]].
    pose proof (candidates_ok key (clock_secs c) (if remote_only then Some (id_as_bytes local) else None) (cache w) (inv_cache_ok w Hw)) as Hv.
    pose proof (candidates_manifest (cache w) key (clock_secs c) (if remote_only then Some (id_as_bytes local) else None)) as Hm.
    destruct (candidates _ _ _ _) as [v peers]. split_and!; [by apply inv_set_cache|by apply still_same|done].
  - intros [peers|] Hp; [by apply try_peers_holds|by apply net_holds_ret].
Qed.
#[local] Hint Resolve open_service_holds : network.

Lemma open_address_holds address port remote_only :
  holds (open_address id_to_string local signing_public signing_private address port remote_only) (fun _ => True).
Proof. unfold open_address. follow. Qed.

(** *** Relays and streams of peers *)
Lemma network_relay_loop_holds check n r : holds check (fun _ => True) -> holds (relay_loop check n r) (fun _ => True).
Proof.
  intros Hc. revert r. induction n as [|n IH]; intros r; cbn [relay_loop].
  - destruct (RawRelay.stage r); by apply net_holds_ret.
  - assert (Hgo : holds (mbind (fun e => mbind (fun event => mbind (fun r => relay_loop check n r)
        (Tasks.step (fun _ _ w => let r' := RawRelay.step relay_limits r (e.1, event) in (log (Moved (moved r r')) w, r'))))
        (if asks r e.1 e.2 then mbind (fun answer => Tasks.Ret (RawRelay.AuthorityTick answer)) check else Tasks.Ret e.2))
        (Tasks.step (fun _ c w => (w, (instant c, relay_event c))))) (fun _ => True)); [|destruct (RawRelay.stage r); [exact Hgo..|by apply net_holds_ret]].
    unfold mbind, prog_bind_inst. eapply net_holds_bind; [apply net_holds_look|]. intros [now event] _. cbn [fst snd].
    eapply (net_holds_bind _ _ (fun _ => True)).
    { destruct (asks r now event); [|by apply net_holds_ret]. eapply net_holds_bind; [exact Hc|]. intros. by apply net_holds_ret. }
    intros e _. eapply (net_holds_bind _ _ (fun _ => True)); [|intros r' _; apply IH].
    apply net_holds_step. intros i c w Hw. cbn zeta. split_and!; [by apply network_inv_log|by apply still_log|done].
Qed.

Lemma network_raw_relay_holds check : holds check (fun _ => True) -> holds (raw_relay check) (fun _ => True).
Proof.
  intros Hc. unfold raw_relay. destruct (RawRelay.validate relay_limits); [|by apply net_holds_ret].
  unfold mbind, prog_bind_inst. eapply net_holds_bind; [exact Hc|]. intros [[]|] _; [|by apply net_holds_ret].
  eapply net_holds_bind; [apply net_holds_look|]. intros now _. eapply net_holds_bind; [apply net_holds_look|]. intros n _. by apply network_relay_loop_holds.
Qed.

Lemma identity_live_holds i : holds (identity_live i) (fun _ => True).
Proof. unfold identity_live. follow. Qed.
#[local] Hint Resolve identity_live_holds : network.

Lemma serve_request_holds remote now request signer mine :
  received remote request signer -> authenticated remote now (caller request) signer -> own_ok mine ->
  holds (serve_request remote now request signer mine) (fun _ => True).
Proof.
  intros Hr Ha (_ & Hc & _). unfold serve_request. destruct (operation request) as [cursor|m service port] eqn:Ho; [apply net_holds_look|].
  destruct (service_target (catalog mine) service port) as [target|] eqn:Ht; [|by apply net_holds_ret].
  case_bool_decide as Hm; [|by apply net_holds_ret]. subst m. apply net_holds_step. intros i c w Hw.
  split_and!; [apply network_inv_log; [done| |done]|by apply still_log|done].
  split_and!; [done..|]. by exists (catalog mine), service, port.
Qed.

Lemma serve_stream_holds remote send recv :
  holds (serve_stream id_to_string local signing_public signing_private remote send recv) (fun _ => True).
Proof.
  unfold serve_stream. apply dropping_holds. unfold serve_admitted. follow.
  eapply net_holds_bind; [by apply serve_request_holds|]. intros [result application] _. follow.
  eapply net_holds_bind; [|follow]. apply network_raw_relay_holds. follow.
Qed.

Lemma serve_holds : holds Network.serve (fun _ => True).
Proof. unfold Network.serve. apply dropping_holds. follow. Qed.

(** *** Storing *)
Lemma store_holds f b : (forall b x, discovery_sequence (f b x) = discovery_sequence x) -> holds (store f b) (fun _ => True).
Proof.
  intros Hf. apply net_holds_step. intros i c w Hw.
  destruct (storing c); (split_and!; [first [done|by apply inv_set_files]|by apply still_same|done]).
Qed.

Lemma persist_holds : holds (persist directory) (fun _ => True).
Proof.
  unfold persist. destruct directory; [|by apply net_holds_ret]. unfold mbind, prog_bind_inst.
  eapply (net_holds_bind _ _ (fun _ => True)).
  - apply net_holds_step. intros i c w Hw. destruct (save (cache w)); [|split_and!; [done|apply still_refl|done]].
    destruct (storing c); (split_and!; [first [done|by apply inv_set_files]|by apply still_same|done]).
  - intros [[]|] _; [|by apply net_holds_ret]. eapply net_holds_bind; [apply net_holds_look|]. intros l _.
    destruct (ok_or _ _); [by apply store_holds|by apply net_holds_ret].
Qed.
#[local] Hint Resolve persist_holds : network.

Lemma record_holds : holds record (fun o => forall r, o = Some r -> own_ok r).
Proof.
  unfold record, mbind, prog_bind_inst. eapply net_holds_bind; [apply clock_holds|]. intros now _.
  apply net_holds_step. intros i c w Hw. split_and!; [done|apply still_refl|]. cbn. intros r. destruct (own w) as [x|] eqn:Hx; [|done].
  destruct (is_ok _); [|done]. intros [= <-]. by apply (inv_own w Hw).
Qed.
#[local] Hint Resolve record_holds : network.

(** *** Hints *)
Definition hint_ok (r : ReplicaServiceRecord) : Prop := verify_record_structure r tenant = Ok tt.

Lemma verified_hint r : verified r -> hint_ok r.
Proof. intros [t Hv]. unfold verify_record in Hv. unfold hint_ok. by destruct (verify_record_structure r tenant) as [[]|]. Qed.

Lemma len_app_one {A} (l : list A) x : len (l ++ [x]) = len l + 1.
Proof. unfold len. rewrite length_app. cbn. lia. Qed.

(** Records added one by one while there is room. *)
Lemma fold_hints (test : list ReplicaServiceRecord -> ReplicaServiceRecord -> bool) found l :
  (forall l r, test l r = true -> len l < MAX_HINTS) -> Forall hint_ok found -> Forall hint_ok l -> len l <= MAX_HINTS ->
  let l' := fold_left (fun l r => if test l r then l ++ [r] else l) found l in Forall hint_ok l' /\ len l' <= MAX_HINTS.
Proof.
  intros Ht Hf. revert l. induction Hf as [|r found Hr _ IH]; intros l Hl Hn; [done|]. cbn. destruct (test l r) eqn:E; [|by apply IH].
  apply IH; [apply Forall_app; split; [done|by constructor]|]. rewrite len_app_one. apply Ht in E. lia.
Qed.

Lemma neighbors_ok mine found l : Forall hint_ok found -> Forall hint_ok l -> len l <= MAX_HINTS ->
  Forall hint_ok (add_neighbors mine found l) /\ len (add_neighbors mine found l) <= MAX_HINTS.
Proof.
  intros. apply (fold_hints (fun l r => negb (bool_decide (EndpointRecord.endpoint_id (endpoint r) = mine)) &&
    negb (existsb (fun old => bool_decide (EndpointRecord.endpoint_id (endpoint old) = EndpointRecord.endpoint_id (endpoint r))) l) &&
    (len l <? MAX_HINTS))); [|done..]. intros k r Hk. bool_props. lia.
Qed.

Lemma merge_hints_ok found l : Forall hint_ok found -> Forall hint_ok l -> len l <= MAX_HINTS ->
  Forall hint_ok (merge_hints found l) /\ len (merge_hints found l) <= MAX_HINTS.
Proof.
  intros. apply (fold_hints (fun l r => (len l <? MAX_HINTS) && negb (existsb (fun hint => bool_decide (workload_of hint = workload_of r)) l)));
    [|done..]. intros k r Hk. bool_props. lia.
Qed.

Lemma add_hint_ok r l : hint_ok r -> Forall hint_ok l -> len l <= MAX_HINTS ->
  Forall hint_ok (add_hint r l) /\ len (add_hint r l) <= MAX_HINTS.
Proof.
  intros Hr Hl Hn. unfold add_hint. set (k := list_retain _ l).
  assert (Hk : Forall hint_ok k /\ len k <= MAX_HINTS).
  { split; [|etrans; [|exact Hn]; apply Nat2Z.inj_le, sublist_length, sublist_filter]. rewrite Forall_forall in *. intros x. unfold k. rewrite elem_of_list_retain. intros []. auto. }
  destruct Hk as [Hk Hkn]. destruct (MAX_HINTS <=? len k) eqn:E; bool_props; rewrite len_app_one.
  - destruct k as [|x k]; [done|]. cbn [tail]. rewrite len_cons in Hkn. apply Forall_cons in Hk as [_ Hk].
    split; [apply Forall_app; split; [done|by constructor]|lia].
  - split; [apply Forall_app; split; [done|by constructor]|lia].
Qed.

Lemma freshen_ok fresh l : Forall hint_ok fresh -> Forall hint_ok l -> Forall hint_ok (freshen fresh <$> l).
Proof.
  intros Hf Hl. apply Forall_fmap. eapply Forall_impl; [exact Hl|]. intros r Hr. unfold compose, freshen.
  destruct (List.find _ _) as [x|] eqn:E; [|done]. apply find_some in E as [E _]. rewrite Forall_forall in Hf. apply Hf. by apply list_elem_of_In.
Qed.

Lemma snapshot_ok w now : inv w -> Forall hint_ok (snapshot (cache w) now).
Proof.
  intros Hw. apply Forall_forall. intros r Hr. unfold snapshot in Hr. rewrite elem_of_list_retain in Hr. destruct Hr as [Hr _].
  apply list_elem_of_fmap in Hr as ([slot r'] & -> & Hr). cbn. unfold btree_records in Hr. rewrite RustOrd.sort_perm in Hr.
  apply elem_of_map_to_list in Hr. apply verified_hint. destruct (inv_cache w Hw) as [Hc _].
  destruct (CacheSafety.core_records _ Hc _ _ Hr) as (_ & _ & t & Ht). exists t. by rewrite <- (inv_owner w Hw).
Qed.

Lemma seed_verified r now view : (Cache.seed r now view).2 = Ok tt -> verify_record r (owner view) now = Ok tt.
Proof. unfold Cache.seed. by destruct (verify_record r (owner view) now) as [[]|]. Qed.

Lemma seed_holds r : holds (seed configured directory r) (fun _ => True).
Proof.
  unfold seed, mbind, prog_bind_inst. eapply net_holds_bind; [apply clock_holds|]. intros now _.
  match goal with |- holds (if ?b then _ else _) _ => destruct b eqn:Hr end; [|by apply net_holds_ret].
  eapply (net_holds_bind _ _ (on_ok (fun _ => hint_ok r))).
  - apply net_holds_step. intros i c w Hw. pose proof (seed_ok r now (cache w) Hr (inv_cache_ok w Hw)) as Hs.
    pose proof (seed_verified r now (cache w)) as Hv. destruct (Cache.seed r now (cache w)) as [view res].
    split_and!; [by apply inv_set_cache|by apply still_same|]. destruct res as [[]|]; [|done]. cbn in *.
    apply verified_hint. exists now. rewrite <- (inv_owner w Hw). by apply Hv.
  - intros [[]|] Hh; [|by apply net_holds_ret]. eapply (net_holds_bind _ _ (fun _ => True)); [|follow].
    apply net_holds_step. intros i c w Hw. destruct (add_hint_ok r (hints w) Hh (inv_structure w Hw) (inv_hints w Hw)).
    split_and!; [by apply inv_set_hints|by apply still_same|done].
Qed.

(** *** Tunnels of the application *)
Lemma credential_live_holds : holds credential_live (fun _ => True).
Proof. unfold credential_live. follow. Qed.
#[local] Hint Resolve credential_live_holds seed_holds : network.

Lemma begin_tunnel_holds t : holds (begin_tunnel t) (fun _ => True).
Proof.
  unfold begin_tunnel, mbind, prog_bind_inst. eapply (net_holds_bind _ _ (fun _ => True)); [destruct (send_http_200 t); follow|].
  intros [[]|] _; [|by apply net_holds_ret]. destruct (initial_data t) as [b|]; [|by apply net_holds_ret].
  apply net_holds_step. intros i c w Hw. split_and!; [by apply network_inv_log|by apply still_log|done].
Qed.
#[local] Hint Resolve begin_tunnel_holds : network.

Lemma target_port_catalog view c key port target : catalogs view !! key_manifest_id key = Some c ->
  Cache.target_port view key port = Some target -> service_target c (key_name key) port = Some target.
Proof. intros Hc. unfold Cache.target_port, service_target. by rewrite Hc. Qed.

Lemma forward_local_holds key port e : holds (forward_local key port e) (fun _ => True).
Proof.
  unfold forward_local, mbind, prog_bind_inst. eapply net_holds_bind; [apply record_holds|]. intros [mine|] Hm; [|by apply net_holds_ret].
  cbn [ok_or]. case_bool_decide as Hk; [|by apply net_holds_ret]. destruct (Hm mine eq_refl) as (_ & Hc & _).
  eapply (net_holds_bind _ _ (on_ok (fun target => service_target (catalog mine) (key_name key) port = Some target))).
  - apply net_holds_step. intros i c w Hw. split_and!; [done|apply still_refl|]. cbn.
    destruct (Cache.target_port (cache w) key port) as [target|] eqn:Ht; [|done]. eapply target_port_catalog; [|exact Ht].
    rewrite <- Hk. by apply (inv_configured w Hw).
  - intros [target|] Ht; [|by apply net_holds_ret]. apply net_holds_step. intros i c w Hw.
    split_and!; [apply network_inv_log; [done| |done]|by apply still_log|done]. by exists (catalog mine).
Qed.
#[local] Hint Resolve forward_local_holds : network.

Lemma forward_holds t : holds (forward id_to_string local signing_public signing_private t) (fun _ => True).
Proof.
  unfold forward. apply dropping_holds. follow; (eapply net_holds_bind; [apply network_raw_relay_holds; follow|follow]).
Qed.

(** *** Control *)
Section Control.
Context (control_owner workload_name : string) (replica_count : Z) (has_network require_relay_hint : bool).
Context (transport_private : bytes).
Context {JQ : Json Connector.ConnectorRequest} {JR : Json Connector.ConnectorResponse}.

Lemma inspect_holds request :
  holds (inspect local signing_public signing_private replica control_owner workload_name replica_count has_network
           require_relay_hint transport_private request) (fun _ => True).
Proof.
  unfold inspect. follow. eapply (net_holds_bind _ _ (fun _ => True)); [|follow].
  destruct has_network; [|by apply net_holds_ret]. by eapply net_holds_mono; [apply record_holds|].
Qed.

Lemma install_effect i now a : authority_ok a ->
  authority_ok (Authority.install i now a).1 /\ newer a (Authority.install i now a).1.
Proof.
  intros Ha. unfold Authority.install. case_bool_decide as Hd; [|split; [done|apply newer_refl]].
  destruct (Authority.session_ok a i now) as [[]|] eqn:Hs; [|split; [done|apply newer_refl]].
  match goal with |- context [if ?b then _ else _] => destruct b eqn:Hb end; [|split; [done|apply newer_refl]].
  destruct Ha as [Hg Hc]. split.
  - split; [done|]. cbn. intros j [= <-]. split; [congruence|]. exists (Some now).
    unfold Authority.session_ok, Workload.verify_session in Hs. by repeat (case_bool_decide; [|done]).
  - intros old Ho. rewrite Ho in Hb. exists i. split; [done|]. unfold Authority.regresses in Hb. bool_props.
    apply orb_false_iff in Hb as [? ?]. bool_props. lia.
Qed.

Lemma installation_holds request : holds (installation configured directory has_network request) (fun _ => True).
Proof.
  unfold installation. destruct (Connector.seed_peer request) as [r|]; [destruct has_network; follow|].
  destruct (Connector.install_identity request) as [identity|]; [|by apply net_holds_ret].
  unfold mbind, prog_bind_inst. eapply net_holds_bind; [apply clock_holds|]. intros now _.
  apply net_holds_step. intros i c w Hw. destruct (install_effect identity now (authorization w) (inv_authority w Hw)) as [Ha Hn].
  destruct (Authority.install _ _ _) as [a res]. split_and!; [destruct Hw; by split| |done].
  split; [done|by exists []].
Qed.
#[local] Hint Resolve inspect_holds installation_holds : network.

Lemma control_holds own_uid uid input :
  holds (control local signing_public signing_private configured replica directory control_owner workload_name replica_count
           has_network require_relay_hint transport_private own_uid uid input) (fun _ => True).
Proof.
  unfold control. apply dropping_holds. unfold mbind at 1, prog_bind_inst at 1. eapply net_holds_bind; [apply network_try_acquire_holds|].
  intros [[]|] _; [|by apply net_holds_ret]. destruct (uid =? own_uid); [|by apply net_holds_ret]. destruct (Connector.read_frame input) as [[b rest]|]; [|by apply net_holds_ret].
  unfold mbind, prog_bind_inst. eapply (net_holds_bind _ _ (fun _ => True)); [|follow].
  destruct (Connector.request_from_bytes b); [|by apply net_holds_ret].
  eapply (net_holds_bind _ _ (fun _ => True)); follow.
Qed.
End Control.

(** ** Publishing *)
Lemma sequel {A C} o i (p : M A) (g : A -> M C) S Q : holds p S ->
  (forall a, S a -> Tasks.triple inv rely guar i (knows o i) (g a) Q) ->
  Tasks.triple inv rely guar i (knows o i) (Tasks.prog_bind p g) Q.
Proof. intros Hp Hg. eapply Tasks.triple_bind; [apply Hp|]. intros a w [HS Hk] Hw. by apply (Hg a HS w). Qed.

Lemma holds_triple {A} o i (p : M A) (S : A -> Prop) : holds p S -> Tasks.triple inv rely guar i (knows o i) p (fun a _ => S a).
Proof. intros Hp. eapply Tasks.triple_conseq; [apply (Hp o i)|done|]. by intros a w []. Qed.

(** The counter moved to [s], and the file to [f]. *)
Lemma inv_count s f w : inv w ->
  (forall g n, Workload.digest generation = Ok g -> n ∈ handed before (trace w) -> covers g s n) ->
  (f = files w \/ exists b, discovery_sequence f = Some b /\ from_json b = Some s) ->
  inv (set_files f (set_sequence s w)).
Proof.
  intros [] Hs Hf. split; try done. intros g n Hg Hn. cbn in *. split; [by apply Hs|]. intros Hd.
  destruct Hf as [->|(b & Hb & Hj)]; [by apply (inv_counted0 g n Hg Hn)|]. exists b, s. split_and!; [done..|by apply Hs].
Qed.

Lemma inv_number i g m w : inv w -> Workload.digest generation = Ok g -> sequence_state w = (g, m) ->
  Forall (fun n => n < m) (handed before (trace w)) ->
  (directory = true -> exists b, discovery_sequence (files w) = Some b /\ from_json b = Some (g, m)) ->
  inv (log (Numbered i m) w).
Proof.
  intros [] Hg Hs Hn Hf. split; try done.
  - by apply Forall_cons.
  - by apply numbered_number.
  - intros g' n Hg'. assert (g' = g) as -> by congruence. unfold handed. cbn. rewrite elem_of_cons, Hs.
    intros [->|Hin]; [|split].
    + split; [done|]. intros Hd. destruct (Hf Hd) as (b & ? & ?). by exists b, (g, m).
    + rewrite Forall_forall in Hn. specialize (Hn n Hin). split; [done|cbn; lia].
    + intros Hd. by apply (inv_counted0 g n Hg).
Qed.

Lemma next_sequence_triple i g : Workload.digest generation = Ok g ->
  Tasks.triple inv rely guar i (fun _ => True) (next_sequence directory g)
    (fun r w => match r with Ok n => knows (Some n) i w | Err _ => True end).
Proof.
  intros Hg. apply Tasks.triple_step; [done|]. intros c w _ Hw. cbv beta zeta.
  set (s0 := if bool_decide ((sequence_state w).1 = g) then sequence_state w else (g, 0)).
  assert (Hs0 : s0.1 = g) by (subst s0; by case_bool_decide).
  assert (Hc : forall g' n, Workload.digest generation = Ok g' -> n ∈ handed before (trace w) -> covers g' s0 n).
  { intros g' n Hg' Hn. assert (g' = g) as -> by congruence. destruct (inv_counted w Hw g n Hg Hn) as [[H1 H2] _].
    subst s0. rewrite bool_decide_true by done. done. }
  assert (Hquiet : forall w', authorization w' = authorization w -> trace w' = trace w -> guar i w w').
  { intros w' Ha Ht. by apply still_guar, still_same. }
  destruct (s0.2 + 1 <=? u64_max); cbn [fst snd]. 2:{ split_and!; [|by apply Hquiet|done]; apply (inv_count s0 (files w) w Hw Hc); by left. }
  assert (Hc1 : forall g' n, Workload.digest generation = Ok g' -> n ∈ handed before (trace w) -> covers g' (s0.1, s0.2 + 1) n).
  { intros g' n Hg' Hn. destruct (Hc g' n Hg' Hn). split; [done|cbn; lia]. }
  assert (Hlt : Forall (fun n => n < s0.2 + 1) (handed before (trace w))).
  { apply Forall_forall. intros n Hn. destruct (Hc g n Hg Hn). lia. }
  set (w1 := set_sequence (s0.1, s0.2 + 1) w).
  assert (Hnum : forall f, inv (set_files f w1) -> (directory = true -> exists b, discovery_sequence f = Some b /\ from_json b = Some (s0.1, s0.2 + 1)) ->
    let w2 := log (Numbered i (s0.2 + 1)) (set_files f w1) in inv w2 /\ guar i w w2 /\ knows (Some (s0.2 + 1)) i w2).
  { intros f Hi Hf. split_and!.
    - apply (inv_number i g); [done|done|by rewrite <- Hs0|done|by rewrite <- Hs0].
    - split; [split; [apply newer_refl|by exists [Numbered i (s0.2 + 1)]]|]. intros j Hj. cbn. by rewrite decide_False.
    - cbn. by rewrite decide_True. }
  destruct directory eqn:Hd.
  - destruct (to_json (s0.1, s0.2 + 1)) as [b|] eqn:Hj; cbn [ok_or fst snd].
    2: { split_and!; [|by apply Hquiet|done]. apply (inv_count _ (files w) w Hw Hc1). by left. }
    assert (Hput : inv (set_files (put_sequence b (files w1)) w1)).
    { apply (inv_count _ _ w Hw Hc1). right. exists b. split; [done|]. by apply json_roundtrip. }
    destruct (storing c); cbn [fst snd].
    + apply Hnum; [exact Hput|]. intros _. exists b. split; [done|]. by apply json_roundtrip.
    + split_and!; [exact Hput|by apply Hquiet|done].
    + split_and!; [|by apply Hquiet|done]. apply (inv_count _ (files w) w Hw Hc1). by left.
  - apply (Hnum (files w)); [|done]. apply (inv_count _ (files w) w Hw Hc1). by left.
Qed.

(** What is signed is the record of the workload. *)
Lemma sign_own_inv c identity addr n now r :
  sign_own local signing_public signing_private replica c identity addr n now = Ok r ->
  catalog r = c /\ credential r = identity /\ Discovery.sequence r = n /\ EndpointRecord.endpoint_id (endpoint r) = id_as_bytes local.
Proof.
  unfold sign_own. cbn zeta. intros Hs. Signed.result_steps Hs. unfold sign_record in Hs. Signed.result_steps Hs. injection Hs as <-. cbn.
  split_and!; [done..|]. unfold EndpointRecord.sign in Hx. Signed.result_steps Hx. by injection Hx as <-.
Qed.

Lemma inv_publish i r w : inv w -> own_ok r -> pending i (trace w) = Some (Discovery.sequence r) ->
  inv (log (Published i r) (set_peer (Some r) w)).
Proof.
  intros [] Hr Hp. split; try done.
  - by intros ? [= <-].
  - by apply Forall_cons.
  - by apply numbered_publish.
Qed.

Lemma guar_publish i r w w' : authorization w' = authorization w -> trace w' = Published i r :: trace w -> guar i w w'.
Proof.
  intros Ha Ht. split; [split; [rewrite Ha; apply newer_refl|by exists [Published i r]]|].
  intros j Hj. rewrite Ht. cbn. by rewrite decide_False.
Qed.

Lemma admit_verified r now older view b : (admit_inner r now older view).2 = Ok b -> verify_record r (owner view) now = Ok tt.
Proof. unfold admit_inner. destruct (record_to_bytes r); [|done]. by destruct (verify_record r (owner view) now) as [[]|]. Qed.

(** The record is the workload's; its number is the one the task took. *)
Definition publishable (r : ReplicaServiceRecord) : Prop :=
  configured = Some (catalog r) /\ Workload.delegation (credential r) = generation /\
  EndpointRecord.endpoint_id (endpoint r) = id_as_bytes local.

Definition publish_step (r : ReplicaServiceRecord) (i : nat) (c : Choice) (w : World) : World * Result unit :=
  match peer w with
  | Some mine => update_record i mine r (clock_secs c) w
  | None => start_peer id_to_string local signing_public i r (clock_secs c) w
  end.

Lemma publish_step_effect r i c w : publishable r -> pending i (trace w) = Some (Discovery.sequence r) -> inv w ->
  inv (publish_step r i c w).1 /\ guar i w (publish_step r i c w).1 /\ on_ok (fun _ => own_ok r) (publish_step r i c w).2.
Proof.
  intros Hr Hp Hw.
  assert (Hsame : forall view e, cache_ok view -> inv (set_cache view w) /\ guar i w (set_cache view w) /\ on_ok (fun _ => own_ok r) (Err (A := unit) e)).
  { intros view e Hv. split_and!; [by apply inv_set_cache|by apply still_guar, still_same|done]. }
  assert (Hno : forall e, inv w /\ guar i w w /\ on_ok (fun _ => own_ok r) (Err (A := unit) e)).
  { intros e. split_and!; [done|apply still_guar, still_refl|done]. }
  assert (Hadmit : forall view st, cache_ok view -> Replay.state_wf limits st ->
    let (view', admitted) := admit_record r (clock_secs c) view in
    match admitted with
    | Ok _ => inv (log (Published i r) (set_peer (Some r) (set_replay st (set_cache view' w)))) /\ own_ok r
    | Err _ => True
    end /\ cache_ok view').
  { intros view st Hv Hst. pose proof (admit_ok r (clock_secs c) false view Hv) as Ha.
    pose proof (admit_verified r (clock_secs c) false view) as Hver. unfold admit_record.
    destruct (admit_inner _ _ _ _) as [view' [b|]]; [|done]. cbn in *.
    assert (Hown : own_ok r). { split; [|exact Hr]. exists (clock_secs c). rewrite <- (proj1 (proj2 Hv)). by eapply Hver. }
    split_and!; [|done..]. apply inv_publish; [|done|done]. by apply network_inv_set_replay; [apply inv_set_cache|]. }
  unfold publish_step. destruct (peer w) as [mine|].
  - unfold update_record. match goal with |- context [if ?b then _ else _] => destruct b end; [|apply Hno].
    specialize (Hadmit (cache w) (replay w) (inv_cache_ok w Hw) (inv_replay w Hw)).
    destruct (admit_record _ _ _) as [view [b|e]]; [|apply Hsame, Hadmit]. destruct Hadmit as [[Hi Ho] _].
    split_and!; [exact Hi|by eapply guar_publish|done].
  - unfold start_peer. repeat (case_bool_decide; [|apply Hno]). destruct (verify_record _ _ _); [|apply Hno].
    pose proof (authorize_ok (catalog r) (cache w) (inv_cache_ok w Hw)) as Ha.
    destruct (authorize_catalog _ _) as [v1 [[]|]]; [|by apply Hsame]. cbn in Ha.
    specialize (Hadmit v1 Replay.empty_state Ha (Replay.empty_state_wf limits eq_refl)).
    destruct (admit_record _ _ _) as [view [b|e]]; [|apply Hsame, Hadmit]. destruct Hadmit as [[Hi Ho] _].
    split_and!; [exact Hi|by eapply guar_publish|done].
Qed.

Lemma current_holds : holds (Tasks.step (fun _ _ w => (w, Authority.current (authorization w))))
  (fun o => forall i, o = Some i -> Workload.delegation i = generation).
Proof.
  apply net_holds_step. intros _ c w Hw. split_and!; [done|apply still_refl|]. cbn. intros i Hi. by apply (inv_authority w Hw).
Qed.

Definition neighbors_found (o : option (list ReplicaServiceRecord)) : Prop :=
  match o with Some l => Forall hint_ok l | None => True end.

Lemma publish_triple i :
  Tasks.triple inv rely guar i (fun _ => True) (publish id_to_string local signing_public signing_private configured replica directory)
    (fun r _ => on_ok neighbors_found r).
Proof.
  unfold publish. destruct configured as [c|] eqn:Hc; [|by apply Tasks.triple_ret]. unfold mbind, prog_bind_inst.
  apply (sequel None i _ _ _ _ current_holds). intros [identity|] Hcur; [|by apply Tasks.triple_ret].
  specialize (Hcur _ eq_refl). apply (sequel None i _ _ _ _ clock_holds). intros now _.
  destruct (Workload.verify_identity identity (Some now)); [|by apply Tasks.triple_ret]. rewrite Hcur.
  destruct (Workload.digest generation) as [g|] eqn:Hg; [|by apply Tasks.triple_ret].
  eapply Tasks.triple_bind; [by apply next_sequence_triple|]. intros [n|]; [|by apply Tasks.triple_ret].
  apply (sequel (Some n) i _ _ _ _ (net_holds_look _)). intros addr _.
  destruct (sign_own _ _ _ _ c identity addr n now) as [r|] eqn:Hr; [|by apply Tasks.triple_ret].
  apply sign_own_inv in Hr as (Hrc & Hri & Hrn & Hre).
  eapply (Tasks.triple_bind i _ _ _ (fun res _ => on_ok (fun _ => own_ok r) res)).
  - apply Tasks.triple_step; [apply knows_stable|]. intros ch w Hk Hw. subst n.
    apply (publish_step_effect r i ch w); [|exact Hk|exact Hw]. unfold publishable. rewrite Hrc, Hri, Hc. done.
  - intros [[]|]; [|by apply Tasks.triple_ret]. apply (Tasks.triple_conseq i _ (fun w => True /\ own_ok r) _ _ (fun r _ => on_ok neighbors_found r));
      [|by intros w Hw|done]. apply Tasks.triple_and. intros Hown.
    apply (holds_triple None i _ (on_ok neighbors_found)). eapply (net_holds_bind _ _ (fun _ => True)).
    { apply net_holds_step. intros j ch w Hw. split_and!; [by apply network_inv_set_own|by apply still_same|done]. }
    intros _ _. eapply (net_holds_bind _ _ (fun l => Forall hint_ok l /\ len l <= MAX_HINTS)).
    { apply net_holds_step. intros j ch w Hw. split_and!; [done|apply still_refl|apply (inv_structure w Hw)|apply (inv_hints w Hw)]. }
    intros l [Hl Hn]. eapply (net_holds_bind _ _ (Forall hint_ok)).
    { apply net_holds_step. intros j ch w Hw. split_and!; [done|apply still_refl|by apply snapshot_ok]. }
    intros found Hf. apply net_holds_ret. cbn. by apply neighbors_ok.
Qed.

Lemma remember_holds l : Forall hint_ok l -> holds (remember directory l) (fun _ => True).
Proof.
  intros Hl. unfold remember, mbind, prog_bind_inst. eapply (net_holds_bind _ _ (Forall hint_ok)).
  { apply net_holds_step. intros i c w Hw. split_and!; [done|apply still_refl|by apply snapshot_ok]. }
  intros fresh Hf. eapply (net_holds_bind _ _ (fun _ => True)); [|follow].
  apply net_holds_step. intros i c w Hw.
  destruct (merge_hints_ok (freshen fresh <$> l) (freshen fresh <$> hints w)) as [H1 H2];
    [by apply freshen_ok|apply freshen_ok; [done|apply (inv_structure w Hw)]|rewrite len_map; apply (inv_hints w Hw)|].
  split_and!; [by apply inv_set_hints|by apply still_same|done].
Qed.

Lemma refresh_triple i :
  Tasks.triple inv rely guar i (fun _ => True) (refresh id_to_string local signing_public signing_private configured replica directory)
    (fun _ _ => True).
Proof.
  unfold refresh, mbind, prog_bind_inst. eapply Tasks.triple_bind; [apply publish_triple|].
  intros [[l|]|]; [|by apply Tasks.triple_ret..].
  apply (Tasks.triple_conseq i _ (fun w => True /\ Forall hint_ok l) _ _ (fun _ _ => True)); [|by intros w Hw|done].
  apply Tasks.triple_and. intros Hl. eapply Tasks.triple_conseq; [apply (remember_holds l Hl None i)|done|done].
Qed.

(** ** Runs *)
Definition task {A} (p : M A) : M unit := Tasks.prog_bind p (fun _ => Tasks.Ret tt).

(** The tasks of a sidecar with a network: sessions and streams of its peers,
    tunnels it opens for its application, exchanges with neighbours, publications, saving, and the control
    connections of the agent. *)
Inductive network_task : M unit -> Prop :=
| session_task : network_task (task Network.serve)
| tunnel_task address port remote_only :
    network_task (task (open_address id_to_string local signing_public signing_private address port remote_only))
| stream_task remote send recv :
    network_task (task (serve_stream id_to_string local signing_public signing_private remote send recv))
| forward_task t : network_task (task (forward id_to_string local signing_public signing_private t))
| sync_task r : network_task (task (sync_with id_to_string local signing_public signing_private r))
| refresh_task :
    network_task (task (refresh id_to_string local signing_public signing_private configured replica directory))
| persist_task : network_task (task (persist directory))
| control_task (JQ : Json Connector.ConnectorRequest) (JR : Json Connector.ConnectorResponse)
    control_owner workload_name replica_count has_network require_relay_hint transport_private own_uid uid input :
    network_task (task (control local signing_public signing_private configured replica directory control_owner
      workload_name replica_count has_network require_relay_hint transport_private own_uid uid input)).

Lemma task_triple {A} i (p : M A) Q : Tasks.triple inv rely guar i (fun _ => True) p Q ->
  Tasks.triple inv rely guar i (fun _ => True) (task p) (fun _ _ => True).
Proof. intros Hp. eapply Tasks.triple_bind; [exact Hp|]. intros a. by apply Tasks.triple_ret. Qed.

Lemma network_task_triple i p : network_task p -> Tasks.triple inv rely guar i (fun _ => True) p (fun _ _ => True).
Proof.
  destruct 1; eapply task_triple; try apply refresh_triple; apply (holds_triple None i _ (fun _ => True));
    [apply serve_holds|apply open_address_holds|apply serve_stream_holds|apply forward_holds|apply sync_with_holds|apply persist_holds|apply control_holds].
Qed.

Definition network_event (e : Tasks.Event (World := World) (Choice := Choice)) : Prop :=
  match e with Tasks.Spawn _ p => network_task p | _ => True end.

Definition run (w : World) (events : list (Tasks.Event (World := World) (Choice := Choice)))
    : World * Tasks.Pool (World := World) (Choice := Choice) :=
  Tasks.pool_run release (w, fun _ => None) events.

Lemma network_event_ok e : network_event e -> Tasks.event_ok inv rely guar e.
Proof.
  destruct e as [|i p|]; try done. intros Hp w. eapply Tasks.triple_spawn; [|by apply network_task_triple].
  intros v. apply (Tasks.rely_refl _ _ _ _ network_laws).
Qed.

Lemma pool_advances s events : Tasks.pool_safe inv rely guar s -> Forall network_event events ->
  inv (Tasks.pool_run release s events).1 /\ advances s.1 (Tasks.pool_run release s events).1.
Proof.
  intros Hs Hev. revert s Hs. induction Hev as [|e events He _ IH]; intros s Hs; [split; [apply Hs|apply advances_refl]|].
  cbn. destruct (Tasks.pool_step_ok release inv rely guar network_laws s e Hs (network_event_ok e He)) as [Hs' Hg].
  destruct (IH _ Hs') as [Hi Ha]. split; [exact Hi|]. eapply advances_trans; [|exact Ha].
  destruct Hg as [->|[i [Hg _]]]; [apply advances_refl|exact Hg].
Qed.

Lemma network_run_safe w events : inv w -> Forall network_event events -> Tasks.pool_safe inv rely guar (run w events).
Proof.
  intros Hw Hev. apply (Tasks.pool_run_safe release inv rely guar network_laws); [by split|].
  eapply Forall_impl; [exact Hev|]. apply network_event_ok.
Qed.

Lemma network_run w events : inv w -> Forall network_event events -> inv (run w events).1 /\ advances w (run w events).1.
Proof. intros Hw. by apply (pool_advances (w, fun _ => None)). Qed.

(** ** Starting *)
Lemma authorize_registers c view view' : CacheSafety.core view -> authorize_catalog c view = (view', Ok tt) ->
  catalogs view' !! catalog_manifest_id c = Some c.
Proof.
  intros Hc Ha. destruct (catalogs view !! catalog_manifest_id c) as [old|] eqn:Ho.
  - unfold authorize_catalog in Ha. destruct (verify_catalog _ _); [|done]. rewrite Ho in Ha. case_bool_decide; [|done]. by simplify_eq.
  - destruct (verify_catalog c (owner view)) as [[]|] eqn:Hv; [|unfold authorize_catalog in Ha; by rewrite Hv in Ha].
    destruct (map_len (addresses view) + new_services view c <=? MAX_CACHED_SERVICES) eqn:Hcap.
    + bool_props. destruct (CacheSafety.authorize_new c view) as (v & Heq & Hg & _); [done..|].
      rewrite Heq in Ha. simplify_eq. rewrite (CacheSafety.grown_catalogs _ _ _ Hg). apply lookup_insert_eq.
    + unfold authorize_catalog in Ha. rewrite Hv, Ho, Hcap in Ha. done.
Qed.

Lemma replace_registers c view view' : CacheSafety.inv view -> replace_catalog c view = (view', Ok tt) ->
  catalogs view' !! catalog_manifest_id c = Some c.
Proof.
  intros [Hc _] Hr. unfold replace_catalog in Hr. destruct (verify_catalog _ _); [|done]. destruct (_ <=? _); [|done].
  eapply authorize_registers; [|exact Hr]. destruct (match catalogs view !! _ with Some _ => _ | None => _ end); [|done].
  by apply CacheSafety.forget_core.
Qed.

Lemma verify_seeds_ok l o : verify_seeds l o = Ok tt -> Forall (fun r => verify_record_structure r o = Ok tt) l.
Proof.
  induction l as [|r l IH]; intros Hv; [constructor|]. cbn in Hv. destruct (verify_record_structure r o) as [[]|] eqn:Hr; [|done].
  constructor; [done|by apply IH].
Qed.

Lemma read_state_all limit stored b : read_state limit stored = Ok (Some b) -> stored = Some b.
Proof.
  destruct stored as [content|]; [|done]. cbn. cbv zeta. intros Hr. Signed.result_steps Hr. bool_props. injection Hr as <-. f_equal.
  unfold len in *. rewrite length_take in *. rewrite take_ge by lia. done.
Qed.

(** The numbers of earlier runs: in increasing order, and the file is ahead of
    them. *)
Definition resumes (f : Files) : Prop := StronglySorted (fun a b => b < a) before /\
  forall g n, Workload.digest generation = Ok g -> n ∈ before ->
    directory = true /\ exists b s, discovery_sequence f = Some b /\ from_json b = Some s /\ covers g s n.

Lemma authority_new_ok encoded o manifest workload ep signer a :
  Authority.new encoded o manifest workload ep signer = Ok a -> Authority.auth_delegation a = generation -> authority_ok a.
Proof.
  unfold Authority.new. intros Hn Hg. Signed.result_steps Hn. destruct x as [d initial]. Signed.result_steps Hn. injection Hn as <-. cbn in Hg.
  subst d. split; [done|]. cbn. intros i ->.
  destruct (Workload.identity_from_b64 encoded) as [identity|]; [|by destruct (Workload.delegation_from_b64 encoded)].
  Signed.result_steps Hx. simplify_eq. split; [done|]. by exists None.
Qed.

Lemma network_new_inv a f w : authority_ok a -> resumes f -> new configured directory tenant a f = Ok w -> inv w /\ trace w = [].
Proof.
  intros Ha [Hsorted Hcov] Hn. unfold new in Hn. Signed.result_steps Hn. injection Hn as <-. split; [|done].
  assert (Hview : CacheSafety.inv x /\ owner x = tenant).
  { destruct directory; [by apply CacheSafety.restore_inv in Hx as (? & ? & _)|by apply CacheSafety.new_inv in Hx as (? & _ & _ & ?)]. }
  destruct Hview as [Hi Ho].
  assert (H0 : cache_ok x0).
  { destruct configured as [c|] eqn:Hc; [|simplify_eq; split_and!; [done..|by rewrite Hc]].
    pose proof (CacheSafety.replace_inv c x Hi) as Hri. pose proof (replace_registers c x) as Hreg.
    pose proof (CacheSafety.replace_cases c x Hi) as Hcases.
    destruct (replace_catalog c x) as [v [[]|]] eqn:Hr; [|done]. cbn in *. simplify_eq. split_and!; [done| |].
    - destruct Hcases as [[r Heq]|(c0 & c' & Heq & Hg & _ & Hc0)]; simplify_eq; [done|].
      rewrite (CacheSafety.grown_owner _ _ _ Hg). by destruct Hc0 as [->| ->].
    - rewrite Hc. intros ? [= <-]. by apply Hreg. }
  destruct H0 as (Hi0 & Ho0 & Hc0).
  assert (Hl : len x2 <= MAX_HINTS /\ Forall (fun r => verify_record_structure r tenant = Ok tt) x2).
  { destruct directory; [|by simplify_eq]. Signed.result_steps Hx2. destruct x3 as [b|]; [|by simplify_eq].
    Signed.result_steps Hx2. bool_props. simplify_eq. split; [done|]. by apply verify_seeds_ok. }
  split; cbn [cache authorization own hints peer replay connections permits trace]; try done.
  - apply Hl.
  - apply Hl.
  - by apply (Replay.empty_state_wf limits).
  - by intros [].
  - split; cbn; [done|constructor|set_solver|done].
  - intros g n Hg Hin. change (n ∈ before) in Hin. destruct (Hcov g n Hg Hin) as (Hd & b & s & Hb & Hs & Hcn).
    cbn [sequence_state files]. split; [|by exists b, s]. rewrite Hd in Hx1. Signed.result_steps Hx1.
    destruct x3 as [b'|]; [|rewrite Hb in Hx3; cbn in Hx3; cbv zeta in Hx3; by Signed.result_steps Hx3].
    apply read_state_all in Hx3. rewrite Hb in Hx3. injection Hx3 as <-. rewrite Hs in Hx1. by injection Hx1 as <-.
Qed.
End Safety.

(** ** What the sidecar promises *)
Section Claims.
Context {I : Iroh} {IL : IrohLaws I} {P : Primitives} {B : BiscuitAuth} {H : Blake3} {BH : Blake3Hex H} {B32 : Base32} {L32 : Base32Laws B32}.
Context {CD : PeerCodecs} {JSL : JsonLaws (string * Z) peer_sequence_json}.
Context (id_to_string : EndpointId -> string).
Context (local : EndpointId) (signing_public signing_private : bytes) (tenant : string) (generation : Workload.EnrollmentDelegation).

(** The sidecar starts with the files of its state directory and an enrollment
    of this generation. *)
Definition started (configured : option ServiceCatalog) (directory : bool) (f : Files) (w : World) : Prop :=
  exists encoded owner manifest workload endpoint signer a,
    Authority.new encoded owner manifest workload endpoint signer = Ok a /\ Authority.auth_delegation a = generation /\
    Network.new configured directory tenant a f = Ok w.

Abbreviation events_of configured replica directory :=
  (Forall (network_event id_to_string local signing_public signing_private configured replica directory)).

Lemma network_started_inv configured directory before f w : started configured directory f w -> resumes directory generation before f ->
  inv id_to_string local configured directory tenant generation before w.
Proof.
  intros (encoded & o & manifest & workload & ep & signer & a & Ha & Hg & Hn) Hr.
  eapply network_new_inv; [by eapply authority_new_ok|exact Hr|exact Hn].
Qed.

Lemma resumes_nothing directory f : resumes directory generation [] f.
Proof. split; [constructor|]. intros g n _ Hn. set_solver. Qed.

Lemma started_run configured replica directory f w events :
  started configured directory f w -> events_of configured replica directory events ->
  inv id_to_string local configured directory tenant generation [] (run w events).1.
Proof. intros Hw Hev. eapply network_run; [|exact Hev]. eapply network_started_inv; [exact Hw|apply resumes_nothing]. Qed.

(** The lives of a sidecar with a state directory: each starts with the files the
    one before left, wherever that one ended.  The traces, newest first. *)
Inductive lived : Files -> list (list Occurrence) -> Prop :=
| lived_never f : lived f []
| lived_run f ts configured replica w events :
    lived f ts -> started configured true f w -> events_of configured replica true events ->
    lived (files (run w events).1) (trace (run w events).1 :: ts).

Lemma numbers_app t1 t2 : numbers (t1 ++ t2) = numbers t1 ++ numbers t2.
Proof. apply omap_app. Qed.
Lemma published_app t1 t2 : published (t1 ++ t2) = published t1 ++ published t2.
Proof. apply omap_app. Qed.

Lemma lived_numbers f ts : lived f ts -> resumes true generation (numbers (concat ts)).*2 f /\
  NoDup (Discovery.sequence <$> published (concat ts)) /\
  forall r, r ∈ published (concat ts) -> Discovery.sequence r ∈ (numbers (concat ts)).*2.
Proof.
  induction 1 as [f|f ts configured replica w events _ (Hr & Hn & Hp) Hw Hev].
  { split_and!; [apply resumes_nothing|constructor|set_solver]. }
  pose proof (network_started_inv _ _ _ _ _ Hw Hr) as Hi. destruct (network_run _ _ _ _ _ _ _ _ _ _ w events Hi Hev) as [Hi' _].
  destruct Hi' as [_ _ _ _ _ _ _ _ _ _ _ _ [Hf Ho Ht _] Hc]. set (w' := (run w events).1) in *. cbn [concat].
  rewrite numbers_app, published_app, !fmap_app. change ((numbers (trace w')).*2 ++ (numbers (concat ts)).*2) with
    (handed (numbers (concat ts)).*2 (trace w')). split_and!.
  - split; [exact Hf|]. intros g n Hg Hin. split; [done|]. by apply (Hc g n Hg Hin).
  - apply NoDup_app. split_and!; [done| |done]. intros n (r & -> & Hr1)%list_elem_of_fmap (r2 & Heq & Hr2)%list_elem_of_fmap.
    apply sorted_nodup, NoDup_app in Hf as (_ & Hf & _). apply (Hf (Discovery.sequence r)); [by apply Ht|]. rewrite Heq. by apply Hp.
  - intros r. unfold handed. rewrite !elem_of_app. intros [Hr1|Hr2]; [left; by apply Ht|right; by apply Hp].
Qed.

(** C11. Who reaches what.  However the sidecar's tasks interleave and wherever
    they are cancelled: its application is connected to only for a peer that
    signed the request with the key of a record, verified then, of a workload of
    the same tenant, whose endpoint is the peer's transport, and only on the port
    that the catalog the sidecar was deployed with gives for the service asked
    for; a tunnel leads only to an endpoint that a verified record of the
    service's workload names, after an answer signed by a workload of the tenant
    at that endpoint; a service is served locally only from the sidecar's own
    catalog; and what it publishes are verified records of this workload, with
    the generation of its enrollment and its own endpoint. *)
Theorem peer_traffic_authorised configured replica directory f w events :
  started configured directory f w -> events_of configured replica directory events ->
  let t := trace (run w events).1 in
  (forall remote at_secs request signer target, Served remote at_secs request signer target ∈ t ->
     received id_to_string local remote request signer /\
     verify_record (caller request) tenant at_secs = Ok tt /\ endpoint_hex (endpoint (caller request)) = id_to_string remote /\
     EndpointRecord.signing_pubkey (endpoint (caller request)) = b64_encode signer /\
     exists c service port, configured = Some c /\ operation request = Connect (catalog_manifest_id c) service port /\
       service_target c service port = Some target) /\
  (forall remote at_secs key port response signer, Tunnelled remote at_secs key port response signer ∈ t ->
     received id_to_string local remote response signer /\ peer_result response = Connected /\
     verify_record (responder response) tenant at_secs = Ok tt /\ endpoint_hex (endpoint (responder response)) = id_to_string remote /\
     EndpointRecord.signing_pubkey (endpoint (responder response)) = b64_encode signer /\
     exists r, verified tenant r /\ catalog_manifest_id (catalog r) = key_manifest_id key /\
       EndpointRecord.endpoint_id (endpoint r) = id_as_bytes remote) /\
  (forall key port target, LocalService key port target ∈ t ->
     exists c, configured = Some c /\ catalog_manifest_id c = key_manifest_id key /\ service_target c (key_name key) port = Some target) /\
  (forall task r, Published task r ∈ t ->
     verified tenant r /\ configured = Some (catalog r) /\ Workload.delegation (credential r) = generation /\
     EndpointRecord.endpoint_id (endpoint r) = id_as_bytes local).
Proof.
  intros Hw Hev. pose proof (inv_trace _ _ _ _ _ _ _ _ (started_run _ _ _ _ _ _ Hw Hev)) as Ht. cbv zeta.
  rewrite Forall_forall in Ht. split_and!.
  - intros remote now request signer target Hin. destruct (Ht _ Hin) as (H1 & (H2 & H3 & H4) & H5). auto.
  - intros remote now key port response signer Hin. destruct (Ht _ Hin) as (H1 & (H2 & H3 & H4) & H5 & H6). auto 10.
  - intros key port target Hin. apply (Ht _ Hin).
  - intros task r Hin. apply (Ht _ Hin).
Qed.

(** C12. A sidecar never equivocates.  Over all the lives of a sidecar with a
    state directory and one enrollment generation, cancelled, killed and
    restarted at any point, with any failure to store: the numbers it takes are
    strictly increasing, every record it publishes carries one of them, and no
    two records it ever publishes carry the same. *)
Theorem records_never_equivocate f ts : lived f ts ->
  let t := concat ts in
  StronglySorted (fun newer older => older < newer) (numbers t).*2 /\
  (forall r, r ∈ published t -> Discovery.sequence r ∈ (numbers t).*2) /\
  NoDup (Discovery.sequence <$> published t).
Proof. intros (Hr & Hn & Hp)%lived_numbers. cbv zeta. split_and!; [apply Hr|exact Hp|exact Hn]. Qed.

(** C13. Authority only renews.  The credential a running sidecar holds belongs
    to the generation it was started with and has been verified; once there is
    one it stays, and a later one is issued and expires no earlier. *)
Theorem authority_only_renews configured replica directory f w events more old :
  started configured directory f w -> events_of configured replica directory events -> events_of configured replica directory more ->
  Authority.current (authorization (run w events).1) = Some old ->
  exists i, Authority.current (authorization (Tasks.pool_run release (run w events) more).1) = Some i /\
    Workload.delegation i = generation /\ (exists t, Workload.verify_identity i t = Ok tt) /\
    Workload.claims_issued_at_secs (Workload.claims old) <= Workload.claims_issued_at_secs (Workload.claims i) /\
    Workload.claims_expires_at_secs (Workload.claims old) <= Workload.claims_expires_at_secs (Workload.claims i).
Proof.
  intros Hw Hev Hmore Hold.
  assert (Hi : inv id_to_string local configured directory tenant generation [] w) by (eapply network_started_inv; [exact Hw|apply resumes_nothing]).
  destruct (pool_advances id_to_string local signing_public signing_private configured replica directory tenant generation []
    (run w events) more) as [Hi' [Hn _]]; [by eapply network_run_safe|done|].
  destruct (Hn _ Hold) as (i & Hc & ?). exists i. destruct (inv_authority _ _ _ _ _ _ _ _ Hi') as [_ Ha].
  destruct (Ha _ Hc). auto.
Qed.

(** A sidecar's network state is bounded, whatever its peers and its
    application do: hints, open connections, permits of exchanges and of incoming
    sessions and control connections, and the replay registry stay within their maxima. *)
Theorem network_bounded configured replica directory f w events :
  started configured directory f w -> events_of configured replica directory events ->
  let w' := (run w events).1 in
  len (hints w') <= MAX_HINTS /\ set_len (connections w') <= MAX_PEER_SESSIONS /\
  held SessionSlot w' <= MAX_PEER_SESSIONS /\ held IncomingSlot w' <= MAX_PEER_SESSIONS /\
  held ControlSlot w' <= MAX_CONTROL_CONNECTIONS /\
  Replay.state_wf limits (replay w').
Proof.
  intros Hw Hev. destruct (started_run _ _ _ _ _ _ Hw Hev) as [_ _ _ _ _ _ Hh _ Hr Hc Hp _ _ _]. cbv zeta.
  split_and!; [done|done|apply (Hp SessionSlot)|apply (Hp IncomingSlot)|apply (Hp ControlSlot)|done..].
Qed.
End Claims.
End NetworkSafety.
