(* ===== verification/NetworkSample.v ===== *)
(** * A sidecar at work

    Replica 0 of the workload "web" of ServiceCacheSample.v publishes its record,
    serves its sibling, and forwards a connection of its own application to it;
    then it is killed and starts again.  The theorems of NetworkSafety.v apply to
    these runs. *)

From S2P Require Import Prelude Net Crypto Signed RustOrd ReplayRegistry EndpointRecord MeshProtocol Identity Registration.
From S2P Require Import WorkloadStream WorkloadControl Biscuit WorkloadIdentity AgentIds ServiceDiscovery ServiceCache.
From S2P Require Import ServiceCacheSample WorkloadPayloads Connector Tasks RawRelay HttpConnect WorkloadNetwork NetworkSafety.
From Stdlib Require Import Ascii Sorting.Sorted.

Module NetworkSample.
Import Crypto Io Stream Envelope Control Payloads Discovery Cache Network NetworkSafety.
Import Crypto.Toy.
#[local] Existing Instances prims laws Biscuit.Toy.biscuit ToyIroh.iroh ToyIroh.iroh_laws.
#[local] Existing Instances CacheSample.blake3 CacheSample.blake3_shape CacheSample.base32 CacheSample.base32_laws.
#[local] Existing Instances Workload.delegation_eq_dec Workload.identity_eq_dec Payloads.Sample.envelope_eq_dec CacheSample.Snapshot_eq_dec.
#[local] Existing Instances CacheSample.catalog_codec CacheSample.endpoint_codec CacheSample.delegation_json CacheSample.identity_json.

Definition web : ServiceCatalog := CacheSample.web.
Definition tenant : string := CacheSample.tenant.
Definition local : EndpointId := Byte.x07.
Definition sibling : EndpointId := Byte.x08.
Definition id_to_string (e : EndpointId) : string := Net.hex_lower (id_as_bytes e).
Definition generation : Workload.EnrollmentDelegation := CacheSample.delegation.

(** ** Records *)
Definition unsigned_record (replica sequence : Z) : ReplicaServiceRecord := {|
  record_version := 1; catalog := web; credential := CacheSample.identity replica; endpoint := CacheSample.endpoint_of replica;
  record_replica_index := replica; sequence := sequence; record_issued_at_secs := 2000;
  record_expires_at_secs := 2120; record_signature := "" |}.
Definition signed_record (replica sequence place : Z) : ReplicaServiceRecord :=
  set_record_signature (b64_encode (ed_sign (sample_key 5) (bind Crypto.ReplicaServiceRecord [byte_of_Z place])))
    (unsigned_record replica sequence).
Definition mine : ReplicaServiceRecord := signed_record 0 1 0.
Definition mine_again : ReplicaServiceRecord := signed_record 0 2 1.
Definition theirs : ReplicaServiceRecord := signed_record 1 1 2.

(** ** Messages *)
Definition connect : PeerOperation := Connect (catalog_manifest_id web) "front" 80.
Definition requests : list PeerRequest := [{| caller := theirs; operation := connect |}; {| caller := mine; operation := connect |}].
Definition responses : list PeerResponse :=
  [{| responder := mine; peer_result := Connected |}; {| responder := theirs; peer_result := Connected |}].

Definition parts_of (incoming : bool) (type : WorkloadPayloadType) (payload : byte) (nonce : string) : EnvelopeParts :=
  {| part_payload := [payload]; part_payload_type := wire_name type; part_nonce := nonce; part_ts_millis := 2000000;
     part_sender_id := id_to_string (if incoming then sibling else local);
     part_recipient_id := id_to_string (if incoming then local else sibling);
     part_sender_signing_pubkey := sample_key 5; part_sender_kem_pubkey := None |}.
Definition messages : list EnvelopeParts :=
  [parts_of true Control.PeerRequest Byte.x00 "first"; parts_of false Control.PeerResponse Byte.x00 "mine";
   parts_of false Control.PeerRequest Byte.x01 "mine"; parts_of true Control.PeerResponse Byte.x01 "second"].

(** Each message without and with its signature. *)
Definition envelope_table : list Envelope :=
  concat (imap (fun k m =>
    [unsigned_envelope m;
     set_signature (b64_encode (ed_sign (sample_key 5) (bind WorkloadEnvelope [byte_of_Z (2 * Z.of_nat k)]))) (unsigned_envelope m)])
    messages).

#[local] Instance operation_eq_dec : EqDecision PeerOperation.
Proof. solve_decision. Defined.
#[local] Instance request_eq_dec : EqDecision PeerRequest.
Proof. solve_decision. Defined.
#[local] Instance result_eq_dec : EqDecision PeerResult.
Proof. solve_decision. Defined.
#[local] Instance response_eq_dec : EqDecision PeerResponse.
Proof. solve_decision. Defined.

Definition counters : list (string * Z) := (fun n => (blake3_hex [Byte.x00], n)) <$> [1; 2].

#[local] Instance codecs : PeerCodecs := {|
  peer_envelope := Signed.Table.codec envelope_table;
  peer_endpoint := CacheSample.endpoint_codec;
  peer_catalog := CacheSample.catalog_codec;
  peer_record := Signed.Table.codec [unsigned_record 0 1; unsigned_record 0 2; unsigned_record 1 1];
  peer_request := Signed.Table.codec requests;
  peer_response := Signed.Table.codec responses;
  peer_report := {| to_allocvec := fun _ => None; from_postcard := fun _ => None |};
  peer_delegation_json := CacheSample.delegation_json;
  peer_identity_json := CacheSample.identity_json;
  peer_record_json := Workload.Sample.table_json [mine; mine_again; theirs];
  peer_records_json := Workload.Sample.table_json [[]; [theirs]];
  peer_sequence_json := Workload.Sample.table_json counters;
  peer_snapshot_json := Workload.Sample.table_json [snapshot_of (replace_catalog web CacheSample.empty).1]
|}.

#[local] Instance counters_laws : JsonLaws (string * Z) peer_sequence_json.
Proof. intros a b. apply (Signed.Table.codec_laws counters). Qed.

(** ** The first run *)
Definition quiet_pipe (b : bytes) : Pipe := {| content := b; ios := [] |}.
(** The stream on which a message arrives, by its place among the messages. *)
Definition arriving (kind : WorkloadStreamKind) (place : Z) : Pipe :=
  quiet_pipe (content (write_workload_frame (quiet_pipe []) kind [byte_of_Z (2 * place + 1)]).1).

Definition choice : Choice := {|
  clock_secs := 2000; instant := 0; random_nonce := "mine"; storing := Stored; closed := fun _ => false; dialled := Ok tt;
  opened := Ok (quiet_pipe [], arriving (frame_kind Control.PeerResponse) 3); connected := Ok tt; written := Ok tt; finished := Ok tt;
  relay_length := 3; relay_event := RawRelay.Cancelled; address := (local, ["https://relay.example"], []) |}.

Definition none_stored : Files := {| dns_state := None; peer_seeds := None; discovery_sequence := None |}.
Definition authority : Authority.WorkloadAuthorization := {|
  Authority.auth_delegation := generation; Authority.auth_endpoint := id_to_string local; Authority.auth_signer := sample_key 5;
  Authority.current := Some (CacheSample.identity 0) |}.

Definition begin (f : Files) : Result World := Network.new (Some web) true tenant authority f.
Definition world_of (r : Result World) : World :=
  match r with
  | Ok w => w
  | Err _ => {| cache := CacheSample.empty; authorization := authority; own := None; hints := []; peer := None; sequence_state := ("", 0);
                replay := Replay.empty_state; connections := ∅; permits := []; files := none_stored; trace := [] |}
  end.

Abbreviation Events := (list (Tasks.Event (World := World) (Choice := Choice))).
Definition whole (i : nat) (p : Tasks.Prog World Choice unit) (n : nat) : Events := Tasks.Spawn i p :: replicate n (Tasks.Run i choice).

Abbreviation publishing := (task (refresh id_to_string local (sample_key 5) (sample_key 5) (Some web) 0 true)).
Definition tunnel : HttpConnect.TunnelRequest := {|
  HttpConnect.dest_host := "198.18.0.1"; HttpConnect.dest_port := 80; HttpConnect.protocol := HttpConnect.Tcp; HttpConnect.client_stream := [];
  HttpConnect.send_http_200 := true; HttpConnect.initial_data := Some (as_bytes "hello") |}.

Definition first_life : Events :=
  whole 0 publishing 24 ++
  whole 1 (task (serve_stream id_to_string local (sample_key 5) (sample_key 5) sibling (quiet_pipe [])
                   (arriving (frame_kind Control.PeerRequest) 0))) 40 ++
  whole 2 (task (forward id_to_string local (sample_key 5) (sample_key 5) tunnel)) 60.
Definition second_life : Events := whole 0 publishing 24.

Definition w0 : World := world_of (begin none_stored).
Definition after_first : World := (run w0 first_life).1.
Definition w1 : World := world_of (begin (files after_first)).
Definition after_second : World := (run w1 second_life).1.

Abbreviation event := (network_event id_to_string local (sample_key 5) (sample_key 5) (Some web) 0 true).
Abbreviation started_from := (started tenant generation (Some web) true).

Lemma network_whole_ok i p n : network_task id_to_string local (sample_key 5) (sample_key 5) (Some web) 0 true p -> Forall event (whole i p n).
Proof. intros Hp. apply Forall_cons. split; [exact Hp|]. apply Forall_replicate. exact Logic.I. Qed.

Lemma first_life_ok : Forall event first_life.
Proof. unfold first_life. rewrite !Forall_app. split_and!; apply network_whole_ok; constructor. Qed.
Lemma second_life_ok : Forall event second_life.
Proof. apply network_whole_ok. constructor. Qed.

Lemma authority_new :
  Authority.new (b64_encode [Byte.x00]) tenant (catalog_manifest_id web) (Workload.workload_id (Workload.scope generation))
    (id_to_string local) (sample_key 5) = Ok authority.
Proof. vm_compute. reflexivity. Qed.

Lemma begun f : is_ok (begin f) = true -> started_from f (world_of (begin f)).
Proof.
  intros Hw. do 7 eexists. split_and!; [exact authority_new|reflexivity|]. fold (begin f). by destruct (begin f).
Qed.

Lemma begun_first : started_from none_stored w0.
Proof. apply begun. vm_compute. reflexivity. Qed.
Lemma begun_again : started_from (files after_first) w1.
Proof. apply begun. vm_compute. reflexivity. Qed.

(** ** What the theorems say of it *)
Lemma peer_traffic_authorised_witness :
  (exists signer, received id_to_string local sibling {| caller := theirs; operation := connect |} signer /\
     verify_record theirs tenant 2000 = Ok tt /\ service_target web "front" 80 = Some 8080) /\
  (exists r, verified tenant r /\ catalog_manifest_id (catalog r) = catalog_manifest_id web /\
     EndpointRecord.EndpointRecord.endpoint_id (endpoint r) = id_as_bytes sibling) /\
  Workload.delegation (credential mine) = generation.
Proof.
  destruct (peer_traffic_authorised id_to_string local (sample_key 5) (sample_key 5) tenant generation (Some web) 0 true
    none_stored w0 first_life begun_first first_life_ok) as (Hs & Ht & _ & Hp). split_and!.
  - exists (sample_key 5).
    assert (Hin : Served sibling 2000 {| caller := theirs; operation := connect |} (sample_key 5) 8080 ∈ trace (run w0 first_life).1)
      by (apply (list_elem_of_lookup_2 _ 10); vm_compute; reflexivity).
    destruct (Hs _ _ _ _ _ Hin) as (H1 & H2 & _ & _ & c & service & port & [= <-] & [= <- <-] & H3). exact (conj H1 (conj H2 H3)).
  - assert (Hin : Tunnelled sibling 2000 CacheSample.web_front 80 {| responder := theirs; peer_result := Connected |} (sample_key 5)
      ∈ trace (run w0 first_life).1) by (apply (list_elem_of_lookup_2 _ 4); vm_compute; reflexivity).
    exact (proj2 (proj2 (proj2 (proj2 (proj2 (Ht _ _ _ _ _ _ Hin)))))).
  - assert (Hin : Published 0 mine ∈ trace (run w0 first_life).1) by (apply (list_elem_of_lookup_2 _ 11); vm_compute; reflexivity).
    exact (proj1 (proj2 (proj2 (Hp _ _ Hin)))).
Defined.

Lemma lives : lived id_to_string local (sample_key 5) (sample_key 5) tenant generation (files after_second) [trace after_second; trace after_first].
Proof.
  apply (lived_run _ _ _ _ _ _ (files after_first) _ (Some web) 0 w1 second_life); [|exact begun_again|exact second_life_ok].
  apply (lived_run _ _ _ _ _ _ none_stored _ (Some web) 0 w0 first_life); [apply lived_never|exact begun_first|exact first_life_ok].
Qed.

Lemma records_never_equivocate_witness :
  (Discovery.sequence <$> published (concat [trace after_second; trace after_first])) = [2; 1] /\
  NoDup (Discovery.sequence <$> published (concat [trace after_second; trace after_first])).
Proof.
  split; [vm_compute; reflexivity|].
  exact (proj2 (proj2 (records_never_equivocate id_to_string local (sample_key 5) (sample_key 5) tenant generation _ _ lives))).
Defined.

Lemma authority_only_renews_witness :
  exists i, Authority.current (authorization (Tasks.pool_run release (run w0 first_life) second_life).1) = Some i /\
    Workload.delegation i = generation.
Proof.
  destruct (authority_only_renews id_to_string local (sample_key 5) (sample_key 5) tenant generation (Some web) 0 true
    none_stored w0 first_life second_life (CacheSample.identity 0) begun_first first_life_ok second_life_ok) as (i & H1 & H2 & _);
    [vm_compute; reflexivity|exists i; exact (conj H1 H2)].
Defined.

Lemma network_bounded_witness : set_len (connections after_first) = 1 /\ held SessionSlot after_first <= MAX_PEER_SESSIONS.
Proof.
  split; [vm_compute; reflexivity|].
  exact (proj1 (proj2 (proj2 (network_bounded id_to_string local (sample_key 5) (sample_key 5) tenant generation (Some web) 0 true
    none_stored w0 first_life begun_first first_life_ok)))).
Defined.
End NetworkSample.
