(* ===== verification/Dns.v ===== *)
(** * The workload's resolver (podmesh-sidecar/src/dns.rs)

    A DNS server on the loopback address of a workload.  Names of the mesh are
    answered from the service cache; all others are asked of the resolvers the
    workload was configured with, whose answers are kept for some seconds.
    Handlers are tasks over the shared state; what happens under one lock is one
    step.

    Hickory is an interface: names, the reading and writing of messages, and the
    metadata of a response.  The fields of a message the code reads are records
    here. *)

From S2P Require Import Prelude Net Crypto Signed EndpointRecord Registration Biscuit WorkloadIdentity AgentIds.
From S2P Require Import RustOrd ServiceDiscovery ServiceCache Tasks ProxyRuntime.
From Stdlib Require Import Ascii.

Module Dns.
Import Net Crypto Discovery Cache Biscuit.
Import EgressTarget (is_unspecified, ip_of).

Definition MAX_DNS_PACKET_BYTES : Z := 4096.
Definition MAX_UPSTREAMS : Z := 4.
Definition MAX_FORWARD_CACHE : Z := 256.

Record DnsLimits := { max_handlers : Z; request_timeout : Z }.
Definition default_limits : DnsLimits := {| max_handlers := 32; request_timeout := from_secs 2 |}.

(** ** Messages (hickory_proto) *)
Class DnsNames := {
  Name : Type;
  name_eqb : Name -> Name -> bool;
  name_lower : Name -> Name;
  name_to_string : Name -> string
}.

Inductive MessageType := QueryMessage | ResponseMessage.
Inductive OpCode := QueryOp | OtherOp (n : Z).
Inductive ResponseCode := NoError | FormErr | ServFail | NXDomain | Refused | OtherCode (n : Z).
Inductive RecordType := A | AAAA | AXFR | IXFR | ANY | OtherType (n : Z).
Inductive DNSClass := IN | OtherClass (n : Z).

#[export] Instance MessageType_eq_dec : EqDecision MessageType.
Proof. solve_decision. Defined.
#[export] Instance OpCode_eq_dec : EqDecision OpCode.
Proof. solve_decision. Defined.
#[export] Instance ResponseCode_eq_dec : EqDecision ResponseCode.
Proof. solve_decision. Defined.
#[export] Instance RecordType_eq_dec : EqDecision RecordType.
Proof. solve_decision. Defined.
#[export] Instance DNSClass_eq_dec : EqDecision DNSClass.
Proof. solve_decision. Defined.

Record Metadata := {
  id : Z; message_type : MessageType; op_code : OpCode; response_code : ResponseCode; authoritative : bool; truncation : bool;
  recursion_desired : bool; recursion_available : bool; authentic_data : bool
}.
Definition set_response_code (x : ResponseCode) (m : Metadata) : Metadata :=
  {| id := id m; message_type := message_type m; op_code := op_code m; response_code := x; authoritative := authoritative m;
     truncation := truncation m; recursion_desired := recursion_desired m; recursion_available := recursion_available m;
     authentic_data := authentic_data m |}.
Definition set_authoritative (x : bool) (m : Metadata) : Metadata :=
  {| id := id m; message_type := message_type m; op_code := op_code m; response_code := response_code m; authoritative := x;
     truncation := truncation m; recursion_desired := recursion_desired m; recursion_available := recursion_available m;
     authentic_data := authentic_data m |}.
Definition set_recursion_desired (x : bool) (m : Metadata) : Metadata :=
  {| id := id m; message_type := message_type m; op_code := op_code m; response_code := response_code m; authoritative := authoritative m;
     truncation := truncation m; recursion_desired := x; recursion_available := recursion_available m;
     authentic_data := authentic_data m |}.
Definition as_resolver (m : Metadata) : Metadata :=
  {| id := id m; message_type := message_type m; op_code := op_code m; response_code := response_code m; authoritative := authoritative m;
     truncation := truncation m; recursion_desired := recursion_desired m; recursion_available := true; authentic_data := false |}.

Section Messages.
Context {DN : DnsNames}.

Record Query := { query_name : Name; query_type : RecordType; query_class : DNSClass }.
(** [RData]: an address, or anything else. *)
Inductive RData := AddressData (address : Z) | OtherData (data : bytes).
Record Record_ := { record_name : Name; record_ttl : Z; record_data : RData }.
Record Edns := { max_payload : Z; dnssec_ok : bool; edns_options : bytes }.
Record Message := {
  metadata : Metadata; queries : list Query; answers : list Record_; authorities : list Record_; additionals : list Record_;
  edns : option Edns
}.

Definition query_eqb (a b : Query) : bool :=
  name_eqb (query_name a) (query_name b) && bool_decide (query_type a = query_type b) && bool_decide (query_class a = query_class b).
End Messages.

(** Hickory's reading and writing. [request_info] is the one question of a
    request; [new_metadata] is that of [Message::new]. *)
Class Hickory `{DN : DnsNames} := {
  from_vec : bytes -> Result Message;
  to_vec : Message -> Result bytes;
  request_from_bytes : bytes -> Result Message;
  request_info : Message -> option Query;
  new_metadata : Z -> MessageType -> OpCode -> Metadata;
  response_from_request : Metadata -> Metadata;
  set_max_payload : Z -> Edns -> Edns;
  emit : Z -> Message -> Result bytes;
  type_debug : RecordType -> string;
  class_debug : DNSClass -> string
}.
Arguments Hickory DN : clear implicits.

(** What the code relies on: the question is one of the request's, the encoder
    keeps to its maximum size, and the printed types and classes tell them apart
    and contain no colon. *)
Class HickoryLaws `{DN : DnsNames} (HK : Hickory DN) : Prop := {
  request_info_in m q : request_info m = Some q -> q ∈ queries m;
  emit_bounded maximum m b : emit maximum m = Ok b -> len b <= maximum;
  type_debug_inj a b : type_debug a = type_debug b -> a = b;
  class_debug_inj a b : class_debug a = class_debug b -> a = b;
  type_debug_plain a : all_char (fun c => negb (bool_decide (c = ":"%char))) (type_debug a) = true;
  class_debug_plain a : all_char (fun c => negb (bool_decide (c = ":"%char))) (class_debug a) = true
}.

(** ** State *)
Section Resolver.
Context {DN : DnsNames} {HK : Hickory DN}.
Context {P : Primitives} {B : BiscuitAuth} {H : Blake3} {B32 : Base32}.
Context {JD : Json Workload.EnrollmentDelegation}.

Record CachedAnswer := { cached_message : Message; expires : Z }.

(** What happens, newest first: a name was looked at with the catalogs of
    [view]; a question was sent to a server; a packet was answered.  Around the
    resolver, the clock moves on and the service cache is changed. *)
Inductive Occurrence :=
| Clock (secs : Z)
| Changed (view : ServiceCache)
| Classified (view : ServiceCache) (name : string)
| Asked (server : SocketAddr) (question : Query) (sent : bytes)
| Received (server : SocketAddr) (question : Query) (id : Z) (response : Message)
| Answered (packet : bytes) (request response : Message) (maximum : Z) (sent : bytes).

Record World := {
  clock : Z;                            (* the time of day, in seconds *)
  services : ServiceCache;
  forwarded : gmap string CachedAnswer;
  slots : list nat;
  trace : list Occurrence
}.
Definition set_clock (x : Z) (w : World) : World :=
  {| clock := x; services := services w; forwarded := forwarded w; slots := slots w; trace := trace w |}.
Definition set_services (x : ServiceCache) (w : World) : World :=
  {| clock := clock w; services := x; forwarded := forwarded w; slots := slots w; trace := trace w |}.
Definition set_forwarded (x : gmap string CachedAnswer) (w : World) : World :=
  {| clock := clock w; services := services w; forwarded := x; slots := slots w; trace := trace w |}.
Definition set_slots (x : list nat) (w : World) : World :=
  {| clock := clock w; services := services w; forwarded := forwarded w; slots := x; trace := trace w |}.
Definition log (o : Occurrence) (w : World) : World :=
  {| clock := clock w; services := services w; forwarded := forwarded w; slots := slots w; trace := o :: trace w |}.

(** What the environment supplies: two readings of the monotonic clock, a random
    identifier, how sending to a server ends, the datagram and the stream that
    are received from it, whether the deadline of a lookup or the one of the
    whole request has passed, and how sending to the client ends. *)
Record Choice := {
  instant : Z;
  later : Z;
  random_id : Z;
  sending : Result unit;
  datagram : Result bytes;
  stream : Result bytes;
  elapsed : bool;
  abandoned : bool;
  reply : Result unit
}.

Abbreviation M := (Tasks.Prog World Choice).

(** ** The forwarder *)
Record DnsForwarder := { servers : list SocketAddr; bypass_mark : option Z }.

Definition port_of (a : SocketAddr) : Z := match a with V4 _ p => p | V6 _ _ p => p end.

Definition new_forwarder (l : list SocketAddr) : Result DnsForwarder :=
  ensure! negb (bool_decide (l = [])) && (len l <=? MAX_UPSTREAMS) &&
          forallb (fun server => negb (port_of server =? 0) && negb (is_unspecified (ip_of server))) l
    else Err "invalid upstream DNS configuration" ;;
  Ok {| servers := l; bypass_mark := None |}.
Definition with_bypass_mark (mark : Z) (f : DnsForwarder) : DnsForwarder := {| servers := servers f; bypass_mark := Some mark |}.

(** [SocketAddr::new] *)
Definition socket_addr (ip : IpAddr) (port : Z) : SocketAddr := match ip with IpV4 o => V4 o port | IpV6 g => V6 g 0 port end.

(** [config]: the name servers of the system, each with the ports of its
    connections. *)
Definition from_system (config : list (IpAddr * list Z)) : Result DnsForwarder :=
  new_forwarder (take (Z.to_nat MAX_UPSTREAMS) ((fun server => socket_addr server.1 (default 53 (head server.2))) <$> config)).

Definition cache_key (q : Query) : string :=
  name_to_string (name_lower (query_name q)) +:+ ":" +:+ type_debug (query_type q) +:+ ":" +:+ class_debug (query_class q).

Definition cap_ttl (ttl : Z) (r : Record_) : Record_ :=
  {| record_name := record_name r; record_ttl := Z.min (record_ttl r) ttl; record_data := record_data r |}.
Definition cap_message (ttl : Z) (m : Message) : Message :=
  {| metadata := metadata m; queries := queries m; answers := cap_ttl ttl <$> answers m;
     authorities := cap_ttl ttl <$> authorities m; additionals := cap_ttl ttl <$> additionals m; edns := edns m |}.

Definition check_upstream (response : Message) (request_id : Z) (q : Query) : Result unit :=
  ensure! (id (metadata response) =? request_id) && bool_decide (message_type (metadata response) = ResponseMessage) &&
          bool_decide (op_code (metadata response) = QueryOp) &&
          match queries response with [q'] => query_eqb q' q | _ => false end
    else Err "upstream DNS response does not match query" ;;
  Ok tt.

(** [read_u16] and [read_exact] of a stream. *)
Definition u16_be_bytes (x : Z) : bytes := [byte_of_Z (x / 256); byte_of_Z x].
Definition read_u16 (b : bytes) : Result (Z * bytes) :=
  match b with x :: y :: rest => Ok (byte_to_Z x * 256 + byte_to_Z y, rest) | _ => Err "early eof" end.
Definition read_exact (n : Z) (b : bytes) : Result bytes :=
  ensure! n <=? len b else Err "early eof" ;; Ok (take (Z.to_nat n) b).
Definition read_tcp (b : bytes) (error : string) : Result bytes :=
  '(size, rest) ← read_u16 b;
  ensure! in_range 12 MAX_DNS_PACKET_BYTES size else Err error ;;
  read_exact size rest.

Definition received (server : SocketAddr) (q : Query) (request_id : Z) (b : bytes) : M (Result Message) :=
  response ←! from_vec b;
  _ ←! check_upstream response request_id q;
  Tasks.step (fun _ _ w => (log (Received server q request_id response) w, Ok response)).

(** One server: a datagram, and a stream when its answer is truncated. *)
Definition ask_server (server : SocketAddr) (request_id : Z) (b : bytes) (q : Query) : M (Result Message) :=
  _ ←? Tasks.step (fun _ c w => (log (Asked server q b) w, sending c));
  d ←? Tasks.step (fun _ c w => (w, datagram c));
  let b' := take (Z.to_nat (MAX_DNS_PACKET_BYTES + 1)) d in
  ensure! len b' <=? MAX_DNS_PACKET_BYTES else Tasks.Ret (Err "upstream DNS response exceeds limit") ;;
  response ←? received server q request_id b';
  if truncation (metadata response) then
    _ ←? Tasks.step (fun _ c w => (log (Asked server q (u16_be_bytes (len b mod 65536) ++ b)) w, sending c));
    d ←? Tasks.step (fun _ c w => (w, stream c));
    b' ←! read_tcp d "upstream TCP DNS response exceeds limit";
    response ←? received server q request_id b';
    ensure! negb (truncation (metadata response)) else Tasks.Ret (Err "upstream TCP DNS response is truncated") ;;
    Tasks.Ret (Ok response)
  else Tasks.Ret (Ok response).

Definition cache_ttl (m : Message) : Z :=
  Z.min (default 0 (RustOrd.min_by Z.compare (record_ttl <$> answers m ++ authorities m))) 5.

(** The answer is kept while its records live, at most for five seconds. *)
Definition remember (key : string) (response : Message) : M unit :=
  let ttl := cache_ttl response in
  if (0 <? ttl) && (bool_decide (response_code (metadata response) = NoError) ||
                    bool_decide (response_code (metadata response) = NXDomain)) then
    Tasks.step (fun _ c w =>
      let kept := if MAX_FORWARD_CACHE <=? map_len (forwarded w) then ∅ else forwarded w in
      (set_forwarded (<[key := {| cached_message := response; expires := instant c + from_secs ttl |}]> kept) w, tt))
  else Tasks.Ret tt.

(** Each server in turn; the handler's deadline can end the loop. *)
Fixpoint ask_servers (l : list SocketAddr) (request_id : Z) (b : bytes) (q : Query) : M (Result Message) :=
  match l with
  | [] => Tasks.Ret (Err "no upstream DNS answer available")
  | server :: l =>
      late ← Tasks.step (fun _ c w => (w, elapsed c));
      if late : bool then Tasks.Ret (Err "deadline has elapsed") else
      answer ← ask_server server request_id b q;
      match answer with
      | Ok response => _ ← remember (cache_key q) response; Tasks.Ret (Ok response)
      | Err _ => ask_servers l request_id b q
      end
  end.

Definition upstream_lookup (f : DnsForwarder) (q : Query) : M (Result Message) :=
  hit ← Tasks.step (fun _ c w =>
    let live := filter (fun kv => instant c < expires kv.2) (forwarded w) in
    (set_forwarded live w,
     match live !! cache_key q with
     | Some answer => Some (cap_message (saturating_sub (expires answer) (later c) / 1000000000) (cached_message answer))
     | None => None
     end));
  match hit with
  | Some m => Tasks.Ret (Ok m)
  | None =>
      request_id ← Tasks.step (fun _ c w => (w, random_id c mod 65536));
      b ←! to_vec {| metadata := set_recursion_desired true (new_metadata request_id QueryMessage QueryOp); queries := [q];
                     answers := []; authorities := []; additionals := []; edns := None |};
      ask_servers (servers f) request_id b q
  end.

(** ** The handler *)
Definition refused (packet : bytes) (request : Message) (q : Query) : bool :=
  (MAX_DNS_PACKET_BYTES <? len packet) || negb (bool_decide (message_type (metadata request) = QueryMessage)) ||
  negb (bool_decide (op_code (metadata request) = QueryOp)) || match answers request with [] => false | _ => true end ||
  negb (bool_decide (query_class q = IN)) ||
  bool_decide (query_type q = AXFR) || bool_decide (query_type q = IXFR) || bool_decide (query_type q = ANY).

(** The metadata and the sections of a response. *)
Definition Sections : Type := Metadata * list Record_ * list Record_ * list Record_.
Definition only (m : Metadata) : Sections := (m, [], [], []).

(** A name of the mesh: its address, nothing for other types, or a failure;
    never an answer from outside. *)
Definition answer_internal (m : Metadata) (q : Query) (name : string) : M Sections :=
  Tasks.step (fun _ _ w =>
    (w, match Cache.lookup (services w) name (clock w) with
        | Some answer =>
            let m := set_authoritative true m in
            if bool_decide (query_type q = A)
            then (m, [{| record_name := query_name q; record_ttl := ttl answer; record_data := AddressData (answer_address answer) |}], [], [])
            else only m
        | None => only (set_response_code ServFail m)
        end)).

Definition answer_external (f : DnsForwarder) (m : Metadata) (request : Message) (q : Query) : M Sections :=
  if recursion_desired (metadata request) then
    answer ← upstream_lookup f q;
    Tasks.Ret (match answer with
               | Ok message => (set_response_code (response_code (metadata message)) m, answers message, authorities message, additionals message)
               | Err _ => only (set_response_code ServFail m)
               end)
  else Tasks.Ret (only (set_response_code Refused m)).

Definition sections (f : DnsForwarder) (packet : bytes) (request : Message) : M Sections :=
  let m := as_resolver (response_from_request (metadata request)) in
  match request_info request with
  | None => Tasks.Ret (only (set_response_code FormErr m))
  | Some q =>
      if refused packet request q then Tasks.Ret (only (set_response_code Refused m)) else
      let name := name_to_string (name_lower (query_name q)) in
      internal ← Tasks.step (fun _ _ w => (log (Classified (services w) name) w, classifies_internal (services w) name));
      if internal : bool then answer_internal m q name else answer_external f m request q
  end.

(** [MessageResponseBuilder] with the questions of the request. *)
Definition respond (request : Message) (s : Sections) : Message :=
  let '(m, an, au, ad) := s in
  {| metadata := m; queries := queries request; answers := an; authorities := au; additionals := ad;
     edns := (fun e => let e := set_max_payload (Z.min (max_payload e) 1232) e in
                       {| max_payload := max_payload e; dnssec_ok := false; edns_options := edns_options e |}) <$> edns request |}.

Definition handle_request (f : DnsForwarder) (packet : bytes) (request : Message) : M Message :=
  s ← sections f packet request; Tasks.Ret (respond request s).

Inductive Protocol := Udp | Tcp.

Definition maximum_size (protocol : Protocol) (request : Message) : Z :=
  match protocol with
  | Udp => Z.min (default 512 (max_payload <$> edns request)) 1232
  | Tcp => MAX_DNS_PACKET_BYTES
  end.

Definition handle_packet (f : DnsForwarder) (packet : bytes) (protocol : Protocol) : M (Result bytes) :=
  ensure! len packet <=? MAX_DNS_PACKET_BYTES else Tasks.Ret (Err "DNS packet exceeds limit") ;;
  request ←! request_from_bytes packet;
  response ← handle_request f packet request;
  match emit (maximum_size protocol request) response with
  | Ok b => Tasks.step (fun _ _ w => (log (Answered packet request response (maximum_size protocol request) b) w, Ok b))
  | Err _ => Tasks.Ret (Err "DNS response was not produced")
  end.

(** ** The server *)
Definition is_loopback (ip : IpAddr) : bool :=
  match ip with
  | IpV4 o => bool_decide (head o = Some 127)
  | IpV6 g => bool_decide (g = [0; 0; 0; 0; 0; 0; 0; 1])
  end.

(** What [LocalDns::bind] requires; [bound] is the address the listener got. *)
Definition bind_check (address bound : SocketAddr) (f : DnsForwarder) (limits : DnsLimits) : Result unit :=
  ensure! is_loopback (ip_of address) else Err "local DNS must bind loopback only" ;;
  ensure! in_range 1 128 (max_handlers limits) && negb (request_timeout limits =? 0) && (request_timeout limits <=? from_secs 10)
    else Err "invalid DNS limits" ;;
  ensure! negb (bool_decide (bound ∈ servers f)) else Err "DNS upstream forwarding loop" ;;
  Ok tt.

Definition acquire (limits : DnsLimits) : M bool :=
  Tasks.step (fun i _ w => if len (slots w) <? max_handlers limits then (set_slots (i :: slots w) w, true) else (w, false)).
Definition release (i : nat) (w : World) : World := set_slots (filter (fun j => j <> i) (slots w)) w.

(** The datagrams and the streams the server accepts; what is sent back.  A
    request whose time is over is dropped, with its slot, wherever it is: unless
    the response was sent by then, its client gets none. *)
Definition serve_udp (limits : DnsLimits) (f : DnsForwarder) (packet : bytes) : M (option bytes) :=
  let packet := take (Z.to_nat (MAX_DNS_PACKET_BYTES + 1)) packet in
  if MAX_DNS_PACKET_BYTES <? len packet then Tasks.Ret None else
  free ← acquire limits;
  if free : bool then
    sent ← Tasks.timeout abandoned (
      response ←? handle_packet f packet Udp;
      _ ←? Tasks.step (fun _ c w => (w, reply c));
      Tasks.Ret (Ok response));
    _ ← Tasks.step (fun i _ w => (release i w, tt));
    Tasks.Ret (match sent with Some (Ok b) => Some b | _ => None end)
  else Tasks.Ret None.

Definition serve_tcp (limits : DnsLimits) (f : DnsForwarder) (input : bytes) : M (option bytes) :=
  free ← acquire limits;
  if free : bool then
    sent ← Tasks.timeout abandoned (
      packet ←! read_tcp input "invalid DNS TCP frame size";
      response ←? handle_packet f packet Tcp;
      let frame := u16_be_bytes (len response mod 65536) ++ response in
      _ ←? Tasks.step (fun _ c w => (w, reply c));
      Tasks.Ret (Ok frame));
    _ ← Tasks.step (fun i _ w => (release i w, tt));
    Tasks.Ret (match sent with Some (Ok b) => Some b | _ => None end)
  else Tasks.Ret None.
End Resolver.
End Dns.
