(* ===== verification/DnsSafety.v ===== *)
(** * What the workload's resolver promises

    The boundary between the mesh and the outside holds however the handlers
    interleave with each other and with the changes of the service cache: a name
    of the mesh is never asked outside and never answered from there. *)

From S2P Require Import Prelude Net Text Crypto Signed EndpointRecord Registration Biscuit WorkloadIdentity AgentIds.
From S2P Require Import RustOrd ServiceDiscovery ServiceCache ServiceNames ServiceCacheSafety Tasks ProxyRuntime Dns.
From Stdlib Require Import Ascii.

Module DnsSafety.
Import Net Text Crypto Discovery Cache Biscuit Dns.
Import EndpointRecord (EndpointRecord).

Section Safety.
Context {DN : DnsNames} {HK : Hickory DN} {HL : HickoryLaws HK}.
Context {P : Primitives} {B : BiscuitAuth} {H : Blake3} {BH : Blake3Hex H} {B32 : Base32} {L32 : Base32Laws B32}.
Context {CR : Postcard EndpointRecord} {CC : Postcard ServiceCatalog} {CS : Postcard ReplicaServiceRecord}.
Context {JD : Json Workload.EnrollmentDelegation} {JI : Json Workload.WorkloadIdentity} {JS : Json ReplicaServiceRecord} {JP : Json Snapshot}.
Context (tenant : string) (limits : DnsLimits) (f : DnsForwarder) (w0 : World).

Abbreviation M := (Tasks.Prog World Choice).

(** ** The invariant *)
Definition lowered (q : Query) : string := name_to_string (name_lower (query_name q)).

(** The time and the service cache at a moment: what was set last by then. *)
Fixpoint clock_at (t : list Occurrence) : Z :=
  match t with [] => clock w0 | Clock n :: _ => n | _ :: t => clock_at t end.
Fixpoint cache_at (t : list Occurrence) : ServiceCache :=
  match t with [] => services w0 | Changed view :: _ => view | _ :: t => cache_at t end.

(** A state of the service cache. *)
Definition view_ok (view : ServiceCache) : Prop := CacheSafety.inv view /\ owner view = tenant.

Definition askable (q : Query) : Prop :=
  query_class q = IN /\ query_type q <> AXFR /\ query_type q <> IXFR /\ query_type q <> ANY.

Definition external (t : list Occurrence) (q : Query) : Prop :=
  exists view, Classified view (lowered q) ∈ t /\ classifies_internal view (lowered q) = false.

(** The answer of a server to a question with the same key. *)
Definition answered_outside (t : list Occurrence) (q : Query) (m : Message) : Prop :=
  exists server q' n, cache_key q' = cache_key q /\ Received server q' n m ∈ t.

(** The sections of an answer from the service cache. *)
Definition from_cache (m0 : Metadata) (q : Query) (o : option ServiceAnswer) : Sections :=
  match o with
  | Some a => (set_authoritative true m0,
      if bool_decide (query_type q = A)
      then [{| record_name := query_name q; record_ttl := ttl a; record_data := AddressData (answer_address a) |}] else [], [], [])
  | None => only (set_response_code ServFail m0)
  end.

(** The cache was asked, with the time of that moment, after [view] had
    classified the name. *)
Definition internal_reply (view : ServiceCache) (t : list Occurrence) (m0 : Metadata) (q : Query) (s : Sections) : Prop :=
  exists newer older, t = newer ++ older /\ Classified view (lowered q) ∈ older /\
    s = from_cache m0 q (Cache.lookup (cache_at older) (lowered q) (clock_at older)).

Definition external_reply (t : list Occurrence) (m0 : Metadata) (request : Message) (q : Query) (s : Sections) : Prop :=
  (recursion_desired (metadata request) = false /\ s = only (set_response_code Refused m0)) \/
  s = only (set_response_code ServFail m0) \/
  exists m cap, answered_outside t q m /\
    let m' := match cap with Some n => cap_message n m | None => m end in
    s = (set_response_code (response_code (metadata m)) m0, answers m', authorities m', additionals m').

(** What a request is answered with, by what happened before. *)
Definition reply_ok (t : list Occurrence) (packet : bytes) (request : Message) (s : Sections) : Prop :=
  let m0 := as_resolver (response_from_request (metadata request)) in
  match request_info request with
  | None => s = only (set_response_code FormErr m0)
  | Some q =>
      if refused packet request q then s = only (set_response_code Refused m0) else
      exists view, Classified view (lowered q) ∈ t /\
        if classifies_internal view (lowered q) then internal_reply view t m0 q s else external_reply t m0 request q s
  end.

Definition occurrence_ok (t : list Occurrence) (o : Occurrence) : Prop :=
  match o with
  | Clock _ => True
  | Changed view => view_ok view
  | Classified view _ => view_ok view /\ view = cache_at t
  | Asked server q _ => server ∈ servers f /\ askable q /\ external t q
  | Received server q n m => check_upstream m n q = Ok tt /\ exists sent, Asked server q sent ∈ t
  | Answered packet request response maximum sent =>
      (len sent <= maximum /\ exists protocol, maximum = maximum_size protocol request) /\
      exists s, reply_ok t packet request s /\ response = respond request s
  end.

Fixpoint trace_ok (t : list Occurrence) : Prop :=
  match t with [] => True | o :: t => occurrence_ok t o /\ trace_ok t end.

Record inv (w : World) : Prop := {
  inv_services : view_ok (services w);
  inv_cache : services w = cache_at (trace w);
  inv_clock : clock w = clock_at (trace w);
  inv_slots : len (slots w) <= max_handlers limits;
  inv_size : map_len (forwarded w) <= MAX_FORWARD_CACHE;
  inv_forwarded k a : forwarded w !! k = Some a ->
    exists server q n, cache_key q = k /\ Received server q n (cached_message a) ∈ trace w;
  inv_trace : trace_ok (trace w)
}.

Definition grows (w w' : World) : Prop := exists t, trace w' = t ++ trace w.
Lemma grows_refl w : grows w w. Proof. by exists []. Qed.
Lemma grows_same w w' : trace w' = trace w -> grows w w'. Proof. by exists []. Qed.
Lemma grows_log o w : grows w (log o w). Proof. by exists [o]. Qed.

Lemma dns_release_inv i w : inv w -> inv (release i w).
Proof.
  intros []. split; try done. etrans; [|exact inv_slots0]. apply Nat2Z.inj_le, sublist_length, sublist_filter.
Qed.

Lemma dns_laws : Tasks.laws release inv (fun _ => grows) (fun _ => grows).
Proof.
  split.
  - intros _. apply grows_refl.
  - intros _ w1 w2 w3 [t1 E1] [t2 E2]. exists (t2 ++ t1). by rewrite E2, E1, app_assoc.
  - done.
  - intros i w Hw. split; [by apply dns_release_inv|by apply grows_same].
Qed.

(** ** Programs *)

(** Facts about the past, which stay true. *)
Definition lasting (R : list Occurrence -> Prop) : Prop := forall t t', R t -> R (t' ++ t).

Definition holds {X} (R : list Occurrence -> Prop) (p : M X) (Q : X -> list Occurrence -> Prop) : Prop :=
  forall i, Tasks.triple inv (fun _ => grows) (fun _ => grows) i (fun w => R (trace w)) p (fun a w => Q a (trace w)).

Lemma dns_ret {X} R (a : X) (Q : X -> list Occurrence -> Prop) : (forall t, R t -> Q a t) -> holds R (Tasks.Ret a) Q.
Proof. intros HQ i. apply Tasks.triple_ret. auto. Qed.

Lemma dns_bind {X Y} R (p : M X) (g : X -> M Y) S Q : holds R p S -> (forall a, holds (S a) (g a) Q) -> holds R (Tasks.prog_bind p g) Q.
Proof. intros Hp Hg i. eapply Tasks.triple_bind; [apply Hp|]. intros a. apply Hg. Qed.

Lemma dns_conseq {X} (R R' : list Occurrence -> Prop) (p : M X) (Q Q' : X -> list Occurrence -> Prop) :
  holds R' p Q' -> (forall t, R t -> R' t) -> (forall a t, Q' a t -> Q a t) -> holds R p Q.
Proof. intros Hp HR HQ i. eapply Tasks.triple_conseq; [apply Hp|intros w; apply HR|intros a w; apply HQ]. Qed.

Lemma dns_ex {X Y} (R : Y -> list Occurrence -> Prop) (p : M X) Q :
  (forall y, holds (R y) p Q) -> holds (fun t => exists y, R y t) p Q.
Proof. intros Hp i w [y Hy]. by apply (Hp y i). Qed.

Lemma dns_and {X} (R : list Occurrence -> Prop) (F : Prop) (p : M X) Q : (F -> holds R p Q) -> holds (fun t => R t /\ F) p Q.
Proof. intros Hp i w [Hw HF]. by apply Hp. Qed.

Lemma dns_timeout {X} R (p : M X) : holds R p (fun _ _ => True) -> holds R (Tasks.timeout abandoned p) (fun _ _ => True).
Proof.
  intros Hp i w Hw Hi. eapply Tasks.safe_mono; [apply (Tasks.safe_timeout abandoned); [intros; apply grows_refl|by apply Hp]|done].
Qed.

Lemma dns_step {X} R (g : nat -> Choice -> World -> World * X) Q : lasting R ->
  (forall i c w, R (trace w) -> inv w -> inv (g i c w).1 /\ grows w (g i c w).1 /\ Q (g i c w).2 (trace (g i c w).1)) ->
  holds R (Tasks.step g) Q.
Proof.
  intros HR Hg i. apply Tasks.triple_step; [|intros c w Hw Hi; by apply Hg].
  intros w w' Hw [t ->]. by apply HR.
Qed.

(** A step that only looks. *)
Lemma dns_look {X} R (g : Choice -> World -> X) : lasting R -> holds R (Tasks.step (fun _ c w => (w, g c w))) (fun _ => R).
Proof. intros HR. apply dns_step; [done|]. intros i c w Hw Hi. split_and!; [done|apply grows_refl|done]. Qed.

Lemma lasting_in o : lasting (fun t => o ∈ t).
Proof. intros t t' Ho. apply elem_of_app. by right. Qed.
Lemma lasting_external q : lasting (fun t => external t q).
Proof. intros t t' (view & Hv & Hc). exists view. split; [by apply lasting_in|done]. Qed.
Lemma lasting_and R S : lasting R -> lasting S -> lasting (fun t => R t /\ S t).
Proof. intros HR HS t t' []. split; auto. Qed.
Lemma lasting_true : lasting (fun _ => True). Proof. done. Qed.

(** What the resolver itself does changes neither the clock nor the cache. *)
Definition inside (o : Occurrence) : Prop := match o with Clock _ | Changed _ => False | _ => True end.

Lemma dns_inv_log o w : inside o -> occurrence_ok (trace w) o -> inv w -> inv (log o w).
Proof.
  intros Hin Ho []. split; try done; [by destruct o..|]. intros k a Ha. destruct (inv_forwarded0 k a Ha) as (server & q & n & Hk & Hr).
  exists server, q, n. split; [done|]. by right.
Qed.

(** What is true of the past stays true while a program runs. *)
Lemma dns_frame {X} R F (p : M X) Q : lasting F -> holds R p Q -> holds (fun t => R t /\ F t) p (fun a t => Q a t /\ F t).
Proof.
  intros HF Hp i w [HR Hw] Hi. specialize (Hp i w HR Hi). cbv beta in *. clear HR Hi. revert w Hw Hp.
  induction p as [a|Y g k IH]; intros w Hw Hp; [done|]. intros c w' [t Ht] Hi'.
  destruct (Hp c w' (ex_intro _ t Ht) Hi') as (H1 & [t' H2] & H3). split_and!; [done|by exists t'|].
  apply IH; [|done]. rewrite H2, Ht. by do 2 apply HF.
Qed.

(** ** The forwarder *)
Definition came_from (server : SocketAddr) (q : Query) (m : Message) (t : list Occurrence) : Prop := exists n, Received server q n m ∈ t.
Lemma lasting_came server q m : lasting (came_from server q m).
Proof. intros t t' [n Hn]. exists n. by apply lasting_in. Qed.

Definition asked (server : SocketAddr) (q : Query) (t : list Occurrence) : Prop := exists sent, Asked server q sent ∈ t.
Lemma lasting_asked server q : lasting (asked server q).
Proof. intros t t' [n Hn]. exists n. by apply lasting_in. Qed.

Definition on_ok {X} (S : X -> list Occurrence -> Prop) (r : Result X) (t : list Occurrence) : Prop :=
  match r with Ok a => S a t | Err _ => True end.

Lemma received_holds server q n b : holds (asked server q) (received server q n b) (on_ok (came_from server q)).
Proof.
  unfold received. destruct (from_vec b) as [m|]; [|by apply dns_ret]. destruct (check_upstream m n q) as [[]|] eqn:Hc; [|by apply dns_ret].
  apply dns_step; [apply lasting_asked|]. intros i c w Ha Hw. split_and!; [by apply dns_inv_log|apply grows_log|]. exists n. by left.
Qed.

Lemma ask_step_holds server q b : server ∈ servers f -> askable q ->
  holds (fun t => external t q) (Tasks.step (fun _ c w => (log (Asked server q b) w, sending c))) (fun _ => asked server q).
Proof.
  intros Hs Hq. apply dns_step; [apply lasting_external|]. intros i c w He Hw.
  split_and!; [by apply dns_inv_log|apply grows_log|]. exists b. by left.
Qed.

Lemma ask_server_holds server n b q : server ∈ servers f -> askable q ->
  holds (fun t => external t q) (ask_server server n b q) (on_ok (came_from server q)).
Proof.
  intros Hs Hq.
  assert (Hask : forall b, holds (fun t => external t q) (Tasks.step (fun _ c w => (log (Asked server q b) w, sending c)))
    (fun _ t => asked server q t /\ external t q)).
  { intros b'. eapply dns_conseq; [apply (dns_frame _ _ _ _ (lasting_external q) (ask_step_holds server q b' Hs Hq))|done|done]. }
  assert (Hwait : forall g : Choice -> World -> Result bytes, holds (fun t => asked server q t /\ external t q)
    (Tasks.step (fun _ c w => (w, g c w))) (fun _ t => asked server q t /\ external t q)).
  { intros g. apply dns_look. apply lasting_and; [apply lasting_asked|apply lasting_external]. }
  unfold ask_server. eapply dns_bind; [apply Hask|]. intros [[]|]; [|by apply dns_ret].
  eapply dns_bind; [apply Hwait|]. intros [d|]; [|by apply dns_ret]. cbv zeta. destruct (_ <=? _); [|by apply dns_ret].
  eapply dns_bind; [apply (dns_frame _ _ _ _ (lasting_external q) (received_holds server q n _))|].
  intros [m|]; [|by apply dns_ret]. destruct (truncation (metadata m)); [|apply dns_ret; by intros t []].
  eapply dns_bind; [eapply dns_conseq; [apply Hask|by intros t []|done]|]. intros [[]|]; [|by apply dns_ret].
  eapply dns_bind; [apply Hwait|]. intros [d'|]; [|by apply dns_ret]. destruct (read_tcp d' _) as [b'|]; [|by apply dns_ret].
  eapply dns_bind; [eapply dns_conseq; [apply (received_holds server q n b')|by intros t []|done]|].
  intros [m'|]; [|by apply dns_ret]. destruct (negb _); by apply dns_ret.
Qed.

Lemma dns_remember_holds server q m : holds (came_from server q m) (remember (cache_key q) m) (fun _ => came_from server q m).
Proof.
  unfold remember. cbv zeta. match goal with |- context [if ?b then _ else _] => destruct b end; [|by apply dns_ret].
  apply dns_step; [apply lasting_came|]. intros i c w [n Hm] Hw. split_and!; [|by apply grows_same|by exists n].
  set (kept := if MAX_FORWARD_CACHE <=? map_len (forwarded w) then ∅ else forwarded w).
  assert (Hk : map_len kept + 1 <= MAX_FORWARD_CACHE).
  { subst kept. destruct (_ <=? _) eqn:E; bool_props; [by rewrite map_len_empty|lia]. }
  assert (Hsub : kept ⊆ forwarded w). { subst kept. destruct (_ <=? _); [apply map_empty_subseteq|done]. }
  destruct Hw. split; try done; cbn [forwarded set_forwarded fst].
  - etrans; [apply map_len_insert_le|done].
  - intros k a [[<- <-]|[_ Ha]]%lookup_insert_Some; [by exists server, q, n|]. apply inv_forwarded0. by eapply lookup_weaken.
Qed.

Lemma ask_servers_holds l n b q : (forall server, server ∈ l -> server ∈ servers f) -> askable q ->
  holds (fun t => external t q) (ask_servers l n b q) (on_ok (fun m t => answered_outside t q m)).
Proof.
  intros Hl Hq. induction l as [|server l IH]; cbn [ask_servers]; [by apply dns_ret|]. unfold mbind, prog_bind_inst.
  eapply dns_bind; [apply dns_look, lasting_external|]. intros []; [by apply dns_ret|].
  eapply dns_bind; [eapply dns_conseq; [apply (dns_frame _ _ _ _ (lasting_external q) (ask_server_holds server n b q (Hl _ (list_elem_of_here _ _)) Hq))|done|done]|].
  intros [m|]; [|eapply dns_conseq; [apply IH; intros; apply Hl; by right|by intros t []|done]].
  eapply dns_bind; [eapply dns_conseq; [apply (dns_remember_holds server q m)|by intros t []|done]|].
  intros []. apply dns_ret. intros t [k Hk]. by exists server, q, k.
Qed.

Lemma upstream_lookup_holds q : askable q ->
  holds (fun t => external t q) (upstream_lookup f q)
    (on_ok (fun m t => exists m0 cap, answered_outside t q m0 /\ m = match cap with Some n => cap_message n m0 | None => m0 end)).
Proof.
  intros Hq. unfold upstream_lookup, mbind, prog_bind_inst.
  eapply (dns_bind _ _ _ (fun hit t => external t q /\ match hit with
    | Some m => exists m0 n, answered_outside t q m0 /\ m = cap_message n m0 | None => True end)).
  - apply dns_step; [apply lasting_external|]. intros i c w He Hw. cbn [fst snd].
    set (live := filter (fun kv => instant c < expires kv.2) (forwarded w)).
    assert (Hsub : live ⊆ forwarded w) by apply map_filter_subseteq.
    split_and!; [|by apply grows_same|done|].
    + destruct Hw. split; try done.
      * etrans; [|exact inv_size0]. apply Nat2Z.inj_le, map_subseteq_size, Hsub.
      * intros k a Ha. apply inv_forwarded0. by eapply lookup_weaken.
    + destruct (live !! cache_key q) as [a|] eqn:Ha; [|done].
      destruct (inv_forwarded w Hw (cache_key q) a) as (server & q' & n & Hk & Hr); [by eapply lookup_weaken|].
      do 2 eexists. split; [|reflexivity]. by exists server, q', n.
  - intros [m|].
    + apply dns_ret. intros t (_ & m0 & n & Hm & ->). by exists m0, (Some n).
    + eapply (dns_bind _ _ _ (fun _ t => external t q)); [eapply dns_conseq; [apply dns_look, lasting_external|by intros t []|done]|].
      intros n. destruct (to_vec _) as [b|]; [|by apply dns_ret].
      eapply dns_conseq; [by apply (ask_servers_holds (servers f) n b q)|done|]. intros [m|] t Hm; [|done]. by exists m, None.
Qed.

(** ** The handler *)
Lemma answer_internal_holds view m0 q :
  holds (fun t => Classified view (lowered q) ∈ t) (answer_internal m0 q (lowered q)) (fun s t => internal_reply view t m0 q s).
Proof.
  apply dns_step; [apply lasting_in|]. intros i c w Hw Hi. split_and!; [done|apply grows_refl|]. cbn [snd].
  exists [], (trace w). rewrite <- (inv_cache w Hi), <- (inv_clock w Hi). split_and!; [done..|].
  unfold from_cache. destruct (Cache.lookup _ _ _) as [a|]; [|done]. by case_bool_decide.
Qed.

Lemma answer_external_holds m0 request q : askable q ->
  holds (fun t => external t q) (answer_external f m0 request q) (fun s t => external_reply t m0 request q s).
Proof.
  intros Hq. unfold answer_external. destruct (recursion_desired (metadata request)) eqn:Hr; [|apply dns_ret; by left].
  unfold mbind, prog_bind_inst. eapply dns_bind; [by apply upstream_lookup_holds|]. intros [m|]; apply dns_ret; intros t Ht; [|by right; left].
  right. right. destruct Ht as (m1 & cap & Hm & ->). exists m1, cap. split; [done|]. by destruct cap.
Qed.

Lemma not_refused packet request q : refused packet request q = false -> askable q.
Proof.
  unfold refused. intros Hr. repeat (apply orb_false_iff in Hr as [Hr ?]). bool_props. done.
Qed.

Lemma sections_holds packet request : holds (fun _ => True) (sections f packet request) (fun s t => reply_ok t packet request s).
Proof.
  unfold sections, reply_ok. cbv zeta. destruct (request_info request) as [q|] eqn:Hq; [|by apply dns_ret].
  destruct (refused packet request q) eqn:Hr; [by apply dns_ret|]. fold (lowered q). unfold mbind, prog_bind_inst.
  eapply (dns_bind _ _ _ (fun b t => exists view, Classified view (lowered q) ∈ t /\ classifies_internal view (lowered q) = b)).
  - apply dns_step; [done|]. intros i c w _ Hw. split_and!; [apply dns_inv_log; [done|split; [apply (inv_services w Hw)|apply (inv_cache w Hw)]|done]|apply grows_log|].
    exists (services w). split; [by left|done].
  - intros [].
    + apply dns_ex. intros view. apply dns_and. intros Hc.
      apply (dns_conseq _ (fun t => Classified view (lowered q) ∈ t /\ Classified view (lowered q) ∈ t) _ _
        (fun s t => internal_reply view t (as_resolver (response_from_request (metadata request))) q s /\ Classified view (lowered q) ∈ t));
        [|done|intros s t [Hs Hv]; exists view; by rewrite Hc].
      apply dns_frame; [apply lasting_in|apply answer_internal_holds].
    + eapply dns_conseq; [apply (dns_frame _ _ _ _ (lasting_external q) (answer_external_holds _ request q (not_refused _ _ _ Hr)))|by intros t Ht|].
      intros s t (Hs & view & Hv & Hc). exists view. by rewrite Hc.
Qed.

Lemma lasting_reply packet request s : lasting (fun t => reply_ok t packet request s).
Proof.
  intros t t'. unfold reply_ok. cbv zeta. destruct (request_info request) as [q|]; [|done]. destruct (refused _ _ _); [done|].
  intros (view & Hv & Hs). exists view. split; [by apply lasting_in|]. destruct (classifies_internal _ _).
  { destruct Hs as (newer & older & -> & Hin & Hs). exists (t' ++ newer), older. by rewrite <- app_assoc. }
  destruct Hs as [Hs|[Hs|(m & cap & (server & q' & n & Hk & Hm) & Hs)]]; [by left|by right; left|].
  right. right. exists m, cap. split; [|done]. exists server, q', n. split; [done|by apply lasting_in].
Qed.

Lemma handle_packet_holds packet protocol : holds (fun _ => True) (handle_packet f packet protocol) (fun _ _ => True).
Proof.
  unfold handle_packet. destruct (_ <=? _); [|by apply dns_ret]. destruct (request_from_bytes packet) as [request|]; [|by apply dns_ret].
  unfold handle_request, mbind, prog_bind_inst.
  eapply (dns_bind _ _ _ (fun response t => exists s, reply_ok t packet request s /\ response = respond request s)).
  - eapply dns_bind; [apply sections_holds|]. intros s. apply dns_ret. intros t Ht. by exists s.
  - intros response. destruct (emit _ response) as [b|] eqn:He; [|by apply dns_ret]. apply dns_step.
    + intros t t' (s & Hs & ->). exists s. split; [by apply lasting_reply|done].
    + intros i c w Hs Hw. split_and!; [|apply grows_log|done]. apply dns_inv_log; [done| |done].
      split; [split; [by eapply emit_bounded|by exists protocol]|done].
Qed.

(** ** Runs *)
Lemma dns_acquire_holds : holds (fun _ => True) (acquire limits) (fun _ _ => True).
Proof.
  apply dns_step; [done|]. intros i c w _ Hw. destruct (len (slots w) <? max_handlers limits) eqn:E.
  - bool_props. split_and!; [|by apply grows_same|done]. destruct Hw. split; try done. cbn. rewrite len_cons. lia.
  - split_and!; [done|apply grows_refl|done].
Qed.

Lemma release_holds : holds (fun _ => True) (Tasks.step (fun i _ w => (release i w, tt))) (fun _ _ => True).
Proof. apply dns_step; [done|]. intros i c w _ Hw. split_and!; [by apply dns_release_inv|by apply grows_same|done]. Qed.

(** The client is answered when there is something to send. *)
Lemma reply_holds {X} (p : M (Result X)) (g : X -> X) : holds (fun _ => True) p (fun _ _ => True) ->
  holds (fun _ => True) (x ←? p; _ ←? Tasks.step (fun _ c w => (w, reply c)); Tasks.Ret (Ok (g x))) (fun _ _ => True).
Proof.
  intros Hp. eapply dns_bind; [exact Hp|]. intros [x|]; [|by apply dns_ret].
  eapply dns_bind; [by apply dns_look|]. intros [[]|]; by apply dns_ret.
Qed.

Lemma serve_udp_holds packet : holds (fun _ => True) (serve_udp limits f packet) (fun _ _ => True).
Proof.
  unfold serve_udp, mbind, prog_bind_inst. cbv zeta. destruct (_ <? _); [by apply dns_ret|].
  eapply dns_bind; [apply dns_acquire_holds|]. intros []; [|by apply dns_ret].
  eapply (dns_bind _ _ _ (fun _ _ => True)).
  - apply dns_timeout. apply (reply_holds _ (fun b => b)), handle_packet_holds.
  - intros r. eapply dns_bind; [apply release_holds|]. intros []. by apply dns_ret.
Qed.

Lemma serve_tcp_holds input : holds (fun _ => True) (serve_tcp limits f input) (fun _ _ => True).
Proof.
  unfold serve_tcp, mbind, prog_bind_inst. eapply dns_bind; [apply dns_acquire_holds|]. intros []; [|by apply dns_ret].
  eapply (dns_bind _ _ _ (fun _ _ => True)).
  - apply dns_timeout. destruct (read_tcp input _); [|by apply dns_ret].
    apply (reply_holds _ (fun b => u16_be_bytes (len b mod 65536) ++ b)), handle_packet_holds.
  - intros r. eapply dns_bind; [apply release_holds|]. intros []. by apply dns_ret.
Qed.

(** What others do to the service cache, and the passing of time. *)
Definition change (op : CacheSafety.Op) (file : option bytes) : M unit :=
  Tasks.step (fun _ _ w =>
    let view := (CacheSafety.apply_op (services w, file) op).1 in (log (Changed view) (set_services view w), tt)).
Definition tick (secs : Z) : M unit := Tasks.step (fun _ _ w => (log (Clock secs) (set_clock secs w), tt)).

Lemma change_holds op file : holds (fun _ => True) (change op file) (fun _ _ => True).
Proof.
  apply dns_step; [done|]. intros i c w _ Hw. destruct Hw as [[Hi Ho] ? ? ? ? ? ?].
  assert (view_ok (CacheSafety.apply_op (services w, file) op).1) as Hv.
  { split; [by apply (CacheSafety.cache_run_inv [op] (services w, file))|].
    rewrite <- Ho. by apply (CacheSafety.run_owner [op] (services w, file)). }
  split_and!; [|by exists [Changed (CacheSafety.apply_op (services w, file) op).1]|done].
  split; try done. intros k a Ha. destruct (inv_forwarded0 k a Ha) as (server & q & n & Hk & Hr). exists server, q, n. split; [done|by right].
Qed.

Lemma tick_holds secs : holds (fun _ => True) (tick secs) (fun _ _ => True).
Proof.
  apply dns_step; [done|]. intros i c w _ []. split_and!; [|by exists [Clock secs]|done]. split; try done.
  intros k a Ha. destruct (inv_forwarded0 k a Ha) as (server & q & n & Hk & Hr). exists server, q, n. split; [done|by right].
Qed.

Definition task {X} (p : M X) : M unit := Tasks.prog_bind p (fun _ => Tasks.Ret tt).
Inductive dns_task : M unit -> Prop :=
| udp_task packet : dns_task (task (serve_udp limits f packet))
| tcp_task input : dns_task (task (serve_tcp limits f input))
| change_task op file : dns_task (change op file)
| tick_task secs : dns_task (tick secs).

Definition dns_event (e : Tasks.Event (World := World) (Choice := Choice)) : Prop :=
  match e with Tasks.Spawn _ p => dns_task p | _ => True end.

Lemma dns_task_holds p : dns_task p -> holds (fun _ => True) p (fun _ _ => True).
Proof.
  destruct 1; [..|apply change_holds|apply tick_holds]; (eapply dns_bind; [first [apply serve_udp_holds|apply serve_tcp_holds]|]);
    intros; by apply dns_ret.
Qed.

Definition run (w : World) (events : list (Tasks.Event (World := World) (Choice := Choice)))
    : World * Tasks.Pool (World := World) (Choice := Choice) :=
  Tasks.pool_run release (w, fun _ => None) events.

(** The resolver starts with a cache that was restored, and knows nothing else. *)
Definition started (w : World) : Prop :=
  (exists stored, restore tenant stored = Ok (services w)) /\ forwarded w = ∅ /\ slots w = [] /\ trace w = [].

Lemma started_view w : started w -> view_ok (services w).
Proof. by intros ([stored (Hi & Ho & _)%CacheSafety.restore_inv] & _). Qed.

Lemma dns_run_inv events : 0 <= max_handlers limits -> started w0 -> Forall dns_event events -> inv (run w0 events).1.
Proof.
  intros Hm Hw Hev. pose proof (started_view _ Hw) as Hv. destruct Hw as (_ & Hf & Hs & Ht).
  apply (Tasks.pool_run_safe release inv (fun _ => grows) (fun _ => grows) dns_laws).
  - split; [|done]. split; cbn [fst]; rewrite ?Hf, ?Hs, ?Ht; [done|done|done|exact Hm|by rewrite map_len_empty| |done]. intros k a. by rewrite lookup_empty.
  - eapply Forall_impl; [exact Hev|]. intros [] He; cbn; try done. intros v.
    eapply Tasks.triple_spawn; [intros; apply grows_refl|]. by eapply (dns_task_holds _ He).
Qed.

Lemma trace_ok_at t newer o older : trace_ok t -> t = newer ++ o :: older -> occurrence_ok older o /\ trace_ok older.
Proof. intros Ht ->. induction newer as [|x newer IH]; cbn in Ht; [done|]. by apply IH, Ht. Qed.

Lemma trace_ok_in t o : trace_ok t -> o ∈ t -> exists older, occurrence_ok older o /\ trace_ok older.
Proof. intros Ht (newer & older & ->)%list_elem_of_split. exists older. by eapply trace_ok_at. Qed.

Lemma cache_at_ok t : view_ok (services w0) -> trace_ok t -> view_ok (cache_at t).
Proof. intros Hs. induction t as [|[] t IH]; cbn; [done|..]; intros [Ho Ht]; try by apply IH. done. Qed.

Lemma trace_ok_app newer older : trace_ok (newer ++ older) -> trace_ok older.
Proof. induction newer as [|o newer IH]; [done|]. intros [_ Ht]. by apply IH. Qed.

(** *** The keys of the forwarder's cache *)
Lemma app_last_inj {X} (c : X) a b a' b' : c ∉ b -> c ∉ b' -> a ++ c :: b = a' ++ c :: b' -> a = a' /\ b = b'.
Proof.
  intros Hb Hb'. revert a'. induction a as [|x a IH]; intros [|x' a'] Heq; cbn in Heq; simplify_eq; [done|set_solver..|].
  by destruct (IH a') as [-> ->].
Qed.

Lemma plain_chars s : all_char (fun c => negb (bool_decide (c = ":"%char))) s = true -> ":"%char ∉ chars_of s.
Proof.
  unfold all_char. rewrite forallb_forall. intros Hs Hin%list_elem_of_In. specialize (Hs _ Hin). by bool_props.
Qed.

Lemma cache_key_inj q q' : cache_key q = cache_key q' ->
  lowered q = lowered q' /\ query_type q = query_type q' /\ query_class q = query_class q'.
Proof.
  unfold cache_key. fold (lowered q) (lowered q'). intros Heq. apply (f_equal chars_of) in Heq. rewrite !chars_of_app in Heq. cbn in Heq.
  destruct (app_last_inj ":"%char (chars_of (lowered q) ++ ":"%char :: chars_of (type_debug (query_type q))) (chars_of (class_debug (query_class q)))
    (chars_of (lowered q') ++ ":"%char :: chars_of (type_debug (query_type q'))) (chars_of (class_debug (query_class q')))) as [Hl Hc];
    [apply plain_chars, class_debug_plain..|by rewrite <- !app_assoc|].
  apply app_last_inj in Hl as [Hn Ht]; [|apply plain_chars, type_debug_plain..].
  split_and!; [by apply chars_of_inj|by apply type_debug_inj, chars_of_inj|by apply class_debug_inj, chars_of_inj].
Qed.

(** C18. The resolver keeps the mesh apart from the outside.  However its handlers
    interleave with each other, with changes of the service cache, with the
    passing of time and with cancellations: a name is classified by the service
    cache of that moment.  A question that leaves the workload goes to a
    configured server, is of class IN and no transfer, and is about a name that
    had not been classified as one of the mesh.  A name that had been is answered
    without any record from outside, by the service cache and the clock of one
    moment after it was classified: when a lease of the tenant that is verified
    and alive at that time backs an address, an address query gets that one
    address, for at most five seconds and not beyond the lease, and any other
    query nothing; otherwise the response is a failure.  Any other answer carries
    the records of a configured server's response to the same question, which it
    matches, with lifetimes at most those of the response. *)
Theorem dns_boundary events :
  0 <= max_handlers limits -> started w0 -> Forall dns_event events ->
  let t := trace (run w0 events).1 in
  (forall newer view name older, t = newer ++ Classified view name :: older -> view = cache_at older) /\
  (forall newer server q sent older, t = newer ++ Asked server q sent :: older ->
     server ∈ servers f /\ askable q /\
     exists view, Classified view (lowered q) ∈ older /\ view_ok view /\ classifies_internal view (lowered q) = false) /\
  (forall newer packet request response maximum sent older q, t = newer ++ Answered packet request response maximum sent :: older ->
     request_info request = Some q -> refused packet request q = false ->
     exists view, Classified view (lowered q) ∈ older /\ view_ok view /\
       if classifies_internal view (lowered q) then
         authorities response = [] /\ additionals response = [] /\
         exists since before, older = since ++ before /\ Classified view (lowered q) ∈ before /\
           ((answers response = [] /\ response_code (metadata response) = ServFail /\
             Cache.lookup (cache_at before) (lowered q) (clock_at before) = None) \/
            exists a, CacheSafety.backed (cache_at before) tenant (lowered q) (clock_at before) a /\
              answers response =
                if bool_decide (query_type q = A)
                then [{| record_name := query_name q; record_ttl := ttl a; record_data := AddressData (answer_address a) |}] else [])
       else
         (answers response = [] /\ authorities response = [] /\ additionals response = []) \/
         exists server q' n m cap, server ∈ servers f /\ Received server q' n m ∈ older /\ check_upstream m n q' = Ok tt /\
           lowered q' = lowered q /\ query_type q' = query_type q /\ query_class q' = query_class q /\
           let m' := match cap with Some n => cap_message n m | None => m end in
           answers response = answers m' /\ authorities response = authorities m' /\ additionals response = additionals m').
Proof.
  intros Hm Hw Hev. pose proof (inv_trace _ (dns_run_inv events Hm Hw Hev)) as Ht. cbv zeta. split_and!.
  - intros newer view name older Heq. by destruct (trace_ok_at _ _ _ _ Ht Heq) as [[_ Hview] _].
  - intros newer server q sent older Heq. destruct (trace_ok_at _ _ _ _ Ht Heq) as [(Hs & Hq & view & Hv & Hc) Hok].
    split_and!; [done|apply Hq..|]. exists view. split_and!; [done| |done]. by destruct (trace_ok_in _ _ Hok Hv) as (? & [? _] & _).
  - intros newer packet request response maximum sent older q Heq Hq Hr.
    destruct (trace_ok_at _ _ _ _ Ht Heq) as [(_ & s & Hs & ->) Hok]. unfold reply_ok in Hs. rewrite Hq, Hr in Hs.
    destruct Hs as (view & Hv & Hs). exists view. destruct (trace_ok_in _ _ Hok Hv) as (older' & [Hview _] & _). split_and!; [done|done|].
    destruct (classifies_internal view (lowered q)).
    + destruct Hs as (since & before & -> & Hin & ->).
      assert (view_ok (cache_at before)) as Hcache by (apply cache_at_ok; [by apply started_view|by eapply trace_ok_app]).
      destruct (Cache.lookup (cache_at before) (lowered q) (clock_at before)) as [a|] eqn:Hl; cbn; (split_and!; [done..|]);
        exists since, before; rewrite Hl; (split_and!; [done..|]); [right|by left].
      exists a. split; [|by case_bool_decide]. rewrite <- (proj2 Hcache). apply CacheSafety.lookup_backed; [apply Hcache|done].
    + destruct Hs as [[_ ->]|[->|(m & cap & (server & q' & n & Hk & Hm') & ->)]]; [cbn; auto..|]. right.
      destruct (trace_ok_in _ _ Hok Hm') as (older2 & (Hc & sent' & Ha) & Hok2).
      destruct (trace_ok_in _ _ Hok2 Ha) as (older3 & (Hserver & _) & _). apply cache_key_inj in Hk as (H1 & H2 & H3).
      exists server, q', n, m, cap. cbn. by split_and!.
Qed.

(** *** What a client gets *)
Lemma received_within server q n b : Tasks.within 1 (received server q n b).
Proof. unfold received. destruct (from_vec b) as [m|]; [|done]. by destruct (check_upstream m n q). Qed.

Lemma ask_server_within server n b q : Tasks.within 6 (ask_server server n b q).
Proof.
  unfold ask_server. apply (Tasks.within_bind _ _ 1 5); [done|]. intros [[]|]; [|done].
  apply (Tasks.within_bind _ _ 1 4); [done|]. intros [d|]; [|done]. cbv zeta. destruct (_ <=? _); [|done].
  apply (Tasks.within_bind _ _ 1 3); [apply received_within|]. intros [m|]; [|done]. destruct (truncation _); [|done].
  apply (Tasks.within_bind _ _ 1 2); [done|]. intros [[]|]; [|done].
  apply (Tasks.within_bind _ _ 1 1); [done|]. intros [d'|]; [|done]. destruct (read_tcp d' _) as [b'|]; [|done].
  apply (Tasks.within_bind _ _ 1 0); [apply received_within|]. intros [m'|]; [|done]. by destruct (negb _).
Qed.

Lemma ask_servers_within l n b q : Tasks.within (8 * length l) (ask_servers l n b q).
Proof.
  induction l as [|server l IH]; [done|]. cbn [ask_servers]. unfold mbind, prog_bind_inst.
  replace (8 * length (server :: l))%nat with (1 + (6 + (1 + 8 * length l)))%nat by (cbn; lia).
  apply Tasks.within_bind; [done|]. intros []; [apply Tasks.within_ret|]. apply Tasks.within_bind; [apply ask_server_within|].
  intros [m|]; [|eapply Tasks.within_mono; [exact IH|lia]]. apply Tasks.within_bind; [|intros; apply Tasks.within_ret].
  unfold remember. cbv zeta. by destruct (_ && _).
Qed.

Lemma sections_within packet request : Tasks.within (3 + 8 * length (servers f)) (sections f packet request).
Proof.
  unfold sections. cbv zeta. destruct (request_info request) as [q|]; [|apply Tasks.within_ret]. destruct (refused _ _ _); [apply Tasks.within_ret|].
  unfold mbind, prog_bind_inst. apply (Tasks.within_bind _ _ 1); [done|]. intros [].
  - eapply (Tasks.within_mono _ 1); [done|lia].
  - unfold answer_external. destruct (recursion_desired _); [|apply Tasks.within_ret]. unfold mbind, prog_bind_inst.
    eapply Tasks.within_mono; [apply (Tasks.within_bind _ _ (2 + 8 * length (servers f)) 0); [|intros; apply Tasks.within_ret]|lia].
    unfold upstream_lookup, mbind, prog_bind_inst. apply (Tasks.within_bind _ _ 1); [done|]. intros [m|]; [apply Tasks.within_ret|].
    apply (Tasks.within_bind _ _ 1); [done|]. intros n. destruct (to_vec _); [apply ask_servers_within|apply Tasks.within_ret].
Qed.

(** A program that runs alone ends somewhere. *)
Lemma seq_any {X} i (p : M X) : Tasks.seq i (fun _ => True) p (fun _ _ => True).
Proof. intros w _ _. revert w. induction p as [a|Y g k IH]; intros w; [done|]. intros c w' _ _. split_and!; [done..|apply IH]. Qed.

Lemma handle_packet_within packet protocol : Tasks.within (4 + 8 * length (servers f)) (handle_packet f packet protocol).
Proof.
  unfold handle_packet, mbind, prog_bind_inst. destruct (_ <=? _); [|apply Tasks.within_ret].
  destruct (request_from_bytes packet) as [request|]; [|apply Tasks.within_ret].
  eapply Tasks.within_mono; [apply (Tasks.within_bind _ _ (3 + 8 * length (servers f)) 1)|lia].
  - unfold handle_request, mbind, prog_bind_inst.
    eapply Tasks.within_mono; [apply (Tasks.within_bind _ _ (3 + 8 * length (servers f)) 0); [apply sections_within|done]|lia].
  - intros response. by destruct (emit _ response).
Qed.

(** A packet that can be read and whose response can be written is answered. *)
Lemma handle_packet_answers i packet protocol request choices w w' r :
  len packet <= MAX_DNS_PACKET_BYTES -> request_from_bytes packet = Ok request ->
  (forall m, is_ok (emit (maximum_size protocol request) m) = true) ->
  Tasks.run_alone i (handle_packet f packet protocol) choices w = Some (w', r) ->
  exists b, r = Ok b /\ len b <= maximum_size protocol request.
Proof.
  intros Hl Hr He. apply (Tasks.run_alone_seq i (fun _ => True) _ (fun r _ => exists b, r = Ok b /\ len b <= maximum_size protocol request)); [|done].
  unfold handle_packet, mbind, prog_bind_inst. destruct (Z.leb_spec (len packet) MAX_DNS_PACKET_BYTES); [|lia]. rewrite Hr.
  eapply Tasks.seq_bind; [apply seq_any|]. intros response. pose proof (He response) as Hok.
  destruct (emit _ response) as [b|] eqn:E; [|done]. apply Tasks.seq_step. intros c v _. exists b. split; [done|by eapply emit_bounded].
Qed.

(** Handling a packet does not touch the slots. *)
Lemma handle_packet_slots packet protocol : Tasks.constant slots (handle_packet f packet protocol).
Proof.
  assert (Hrec : forall server q n b, Tasks.constant slots (received server q n b)).
  { intros server q n b. unfold received. destruct (from_vec b) as [m|]; [|done]. by destruct (check_upstream m n q). }
  assert (Hserver : forall server n b q, Tasks.constant slots (ask_server server n b q)).
  { intros server n b q. unfold ask_server. apply Tasks.constant_bind; [by apply Tasks.constant_step|]. intros [[]|]; [|done].
    apply Tasks.constant_bind; [by apply Tasks.constant_step|]. intros [d|]; [|done]. cbv zeta. destruct (_ <=? _); [|done].
    apply Tasks.constant_bind; [apply Hrec|]. intros [m|]; [|done]. destruct (truncation _); [|done].
    apply Tasks.constant_bind; [by apply Tasks.constant_step|]. intros [[]|]; [|done].
    apply Tasks.constant_bind; [by apply Tasks.constant_step|]. intros [d'|]; [|done]. destruct (read_tcp d' _); [|done].
    apply Tasks.constant_bind; [apply Hrec|]. intros [m'|]; [|done]. by destruct (negb _). }
  assert (Hservers : forall l n b q, Tasks.constant slots (ask_servers l n b q)).
  { intros l n b q. induction l as [|server l IH]; [done|]. cbn [ask_servers]. unfold mbind, prog_bind_inst.
    apply Tasks.constant_bind; [by apply Tasks.constant_step|]. intros []; [done|]. apply Tasks.constant_bind; [apply Hserver|].
    intros [m|]; [|done]. apply Tasks.constant_bind; [|done]. unfold remember. cbv zeta. by destruct (_ && _). }
  unfold handle_packet, handle_request, sections, mbind, prog_bind_inst. destruct (_ <=? _); [|done].
  destruct (request_from_bytes packet) as [request|]; [|done]. apply Tasks.constant_bind; [|intros r; by destruct (emit _ r)].
  apply Tasks.constant_bind; [|done]. cbv zeta. destruct (request_info request) as [q|]; [|done]. destruct (refused _ _ _); [done|].
  apply Tasks.constant_bind; [by apply Tasks.constant_step|]. intros []; [by apply Tasks.constant_step|].
  unfold answer_external. destruct (recursion_desired _); [|done]. apply Tasks.constant_bind; [|done].
  unfold upstream_lookup, mbind, prog_bind_inst. apply Tasks.constant_bind; [by apply Tasks.constant_step|]. intros [m|]; [done|].
  apply Tasks.constant_bind; [by apply Tasks.constant_step|]. intros n. by destruct (to_vec _).
Qed.

(** A request in its slot. *)
Definition in_slot (body : M (Result bytes)) : M (option bytes) :=
  free ← acquire limits;
  if free : bool then
    sent ← Tasks.timeout abandoned body;
    _ ← Tasks.step (fun i _ w => (release i w, tt));
    Tasks.Ret (match sent with Some (Ok b) => Some b | _ => None end)
  else Tasks.Ret None.

Lemma in_slot_busy i body choices w : (1 <= length choices)%nat -> max_handlers limits <= len (slots w) ->
  Tasks.run_alone i (in_slot body) choices w = Some (w, None).
Proof.
  intros Hc Hbusy. destruct choices as [|c choices]; [cbn in Hc; lia|]. cbn.
  destruct (Z.ltb_spec (len (slots w)) (max_handlers limits)); [lia|]. by destruct choices.
Qed.

Lemma released i (l : list nat) : i ∉ l -> filter (fun j => j <> i) (i :: l) = l.
Proof.
  intros Hi. rewrite filter_cons_False by (intros Hne; by apply Hne). induction l as [|j l IH]; [done|].
  rewrite filter_cons_True by (intros ->; apply Hi; by left). f_equal. apply IH. intros Hin. apply Hi. by right.
Qed.

(** The slot is given back, and the client gets what the request came to unless
    its time was over. *)
Lemma in_slot_runs i body n choices w :
  Tasks.within n body -> Tasks.constant slots body -> i ∉ slots w -> len (slots w) < max_handlers limits ->
  (2 + n <= length choices)%nat ->
  exists w' o, Tasks.run_alone i (in_slot body) choices w = Some (w', o) /\ slots w' = slots w /\
    ((o = None /\ exists c, c ∈ choices /\ abandoned c = true) \/
     exists used v v' r, (forall c, c ∈ used -> c ∈ choices) /\ Tasks.run_alone i body used v = Some (v', r) /\
       o = match r with Ok b => Some b | Err _ => None end).
Proof.
  intros Hn Hs Hi Hfree Hc. destruct choices as [|c choices]; [cbn in Hc; lia|]. cbn [in_slot acquire mbind prog_bind_inst Tasks.prog_bind Tasks.step Tasks.run_alone].
  destruct (Z.ltb_spec (len (slots w)) (max_handlers limits)); [|lia]. cbv iota beta.
  set (w1 := set_slots (i :: slots w) w).
  destruct (Tasks.within_run i (Tasks.prog_bind (Tasks.timeout abandoned body) (fun sent => Tasks.prog_bind
    (Tasks.step (fun i _ w => (release i w, tt))) (fun _ => Tasks.Ret (match sent with Some (Ok b) => Some b | _ => None end))))
    (n + 1)%nat choices w1) as [[w' o] Hrun].
  { apply Tasks.within_bind; [by apply Tasks.within_timeout|]. intros sent. by intros b. }
  { cbn in Hc. lia. }
  exists w', o. split; [exact Hrun|]. apply Tasks.run_alone_bind in Hrun as (used & rest & w2 & sent & -> & Ht & Hrel).
  pose proof (Tasks.constant_run slots _ _ _ _ _ _ (Tasks.constant_timeout slots abandoned body Hs) Ht) as Hkeep.
  destruct rest as [|c' rest]; [done|]. cbn in Hrel. destruct rest; injection Hrel as <- <-;
    (split; [exact (eq_trans (f_equal (filter (fun j => j <> i)) Hkeep) (released i _ Hi))|]);
    apply Tasks.run_alone_timeout in Ht; (destruct sent as [r|];
      [right; exists used, w1, w2, r; split_and!; [intros; right; apply elem_of_app; by left|done|by destruct r]
      |left; split; [done|]; destruct Ht as (d & Hd & Hab); exists d; split; [right; apply elem_of_app; by left|done]]).
Qed.

(** A packet that is handled and sent, in a frame or as it is. *)
Definition answering (packet : bytes) (protocol : Protocol) (frame : bytes -> bytes) : M (Result bytes) :=
  response ←? handle_packet f packet protocol;
  _ ←? Tasks.step (fun _ c w => (w, reply c));
  Tasks.Ret (Ok (frame response)).

Lemma answering_runs i packet protocol frame request choices w :
  len packet <= MAX_DNS_PACKET_BYTES -> request_from_bytes packet = Ok request ->
  (forall m, is_ok (emit (maximum_size protocol request) m) = true) -> i ∉ slots w -> len (slots w) < max_handlers limits ->
  (7 + 8 * length (servers f) <= length choices)%nat ->
  exists w' o, Tasks.run_alone i (in_slot (answering packet protocol frame)) choices w = Some (w', o) /\ slots w' = slots w /\
    match o with
    | Some sent => exists b, sent = frame b /\ len b <= maximum_size protocol request
    | None => exists c, c ∈ choices /\ (abandoned c = true \/ is_ok (reply c) = false)
    end.
Proof.
  intros Hl Hr He Hi Hfree Hc.
  destruct (in_slot_runs i (answering packet protocol frame) (5 + 8 * length (servers f)) choices w)
    as (w' & o & Hrun & Hs & Ho); try done.
  - replace (5 + 8 * length (servers f))%nat with ((4 + 8 * length (servers f)) + 1)%nat by lia.
    apply Tasks.within_bind; [apply handle_packet_within|]. intros [b|]; [|done]. intros r. by destruct r as [[]|].
  - apply Tasks.constant_bind; [apply handle_packet_slots|]. intros [b|]; [|done].
    apply Tasks.constant_bind; [by apply Tasks.constant_step|]. by intros [[]|].
  - exists w', o. split_and!; [done..|]. destruct Ho as [[-> (c & Hin & Ha)]|(used & v & v' & r & Hsub & Hbody & ->)].
    { exists c. split; [done|by left]. }
    apply Tasks.run_alone_bind in Hbody as (used1 & rest & v1 & r1 & -> & Hp & Hsend).
    destruct (handle_packet_answers _ _ _ _ _ _ _ _ Hl Hr He Hp) as (b & -> & Hb).
    apply Tasks.run_alone_bind in Hsend as (used2 & rest2 & v2 & r2 & -> & Hp2 & Hend).
    destruct used2 as [|c used2]; [done|]. cbn in Hp2. assert (r2 = reply c) as -> by (destruct used2; by injection Hp2).
    destruct (reply c) as [[]|e] eqn:Hreply; cbn in Hend; destruct rest2; injection Hend as <- <-; [by exists b..| |];
      (exists c; split; [apply Hsub; rewrite !elem_of_app; right; left; by left|right; by rewrite Hreply]).
Qed.

Lemma read_tcp_frame packet more error : 12 <= len packet <= MAX_DNS_PACKET_BYTES ->
  read_tcp (u16_be_bytes (len packet) ++ packet ++ more) error = Ok packet.
Proof.
  unfold MAX_DNS_PACKET_BYTES. intros Hl. unfold read_tcp, u16_be_bytes. cbn [app read_u16]. rewrite Signed.bind_eq, !byte_to_of_Z.
  assert (len packet / 256 mod 256 * 256 + len packet mod 256 = len packet) as ->.
  { rewrite (Z.mod_small (len packet / 256)) by (split; [apply Z.div_pos; lia|apply Z.div_lt_upper_bound; lia]).
    rewrite (Z.div_mod (len packet) 256) at 3; lia. }
  unfold in_range, MAX_DNS_PACKET_BYTES. destruct (Z.leb_spec 12 (len packet)), (Z.leb_spec (len packet) 4096); try lia. cbn [andb].
  unfold read_exact. rewrite len_app. pose proof (len_nonneg more). destruct (Z.leb_spec (len packet) (len packet + len more)); [|lia].
  unfold len. by rewrite Nat2Z.id, take_app_length.
Qed.


(** The resolver's memory is bounded: handlers, remembered answers, and the
    size of every response that is sent, which over UDP fits what the client
    announced and 1232 bytes. *)
Theorem dns_bounded events : 0 <= max_handlers limits -> started w0 -> Forall dns_event events ->
  let w' := (run w0 events).1 in
  len (slots w') <= max_handlers limits /\ map_len (forwarded w') <= MAX_FORWARD_CACHE /\
  forall packet request response maximum sent, Answered packet request response maximum sent ∈ trace w' ->
    len sent <= maximum /\ exists protocol, maximum = maximum_size protocol request /\ maximum <= MAX_DNS_PACKET_BYTES.
Proof.
  intros Hm Hw Hev. destruct (dns_run_inv events Hm Hw Hev) as [_ _ _ Hs Hf _ Ht]. cbv zeta. split_and!; [done|done|].
  intros packet request response maximum sent Hin. destruct (trace_ok_in _ _ Ht Hin) as (older & [[Hl [protocol ->]] _] & _).
  split; [done|]. exists protocol. split; [done|]. destruct protocol; unfold maximum_size, MAX_DNS_PACKET_BYTES; lia.
Qed.
End Safety.
End DnsSafety.
