(* ===== verification/DnsSample.v ===== *)
(** * The workload's resolver at work

    A workload of ServiceCacheSample.v asks for its own service and for a name
    outside.  The theorems of DnsSafety.v apply to this run. *)

From S2P Require Import Prelude Net Text Crypto Signed EndpointRecord Registration Biscuit WorkloadIdentity AgentIds.
From S2P Require Import RustOrd ServiceDiscovery ServiceCache ServiceNames ServiceCacheSafety ServiceCacheSample Tasks ProxyRuntime Dns DnsSafety.
From Stdlib Require Import Ascii.

Module DnsSample.
Import Net Text Crypto Discovery Cache Dns DnsSafety.
Import Crypto.Toy.
#[local] Existing Instances prims laws Biscuit.Toy.biscuit Workload.identity_eq_dec Workload.delegation_eq_dec.
#[local] Existing Instances CacheSample.blake3 CacheSample.blake3_shape CacheSample.base32 CacheSample.base32_laws.
#[local] Existing Instances CacheSample.catalog_codec CacheSample.endpoint_codec CacheSample.record_codec CacheSample.record_json.
#[local] Existing Instances CacheSample.delegation_json CacheSample.identity_json CacheSample.snapshot_json.

(** ** Messages *)
#[local] Instance names : DnsNames := {|
  Name := string; name_eqb := eq_ignore_ascii_case; name_lower := to_ascii_lowercase; name_to_string := fun n => n |}.

Definition question (name : string) (type : RecordType) : Query := {| query_name := name; query_type := type; query_class := IN |}.
Definition plain (number : Z) (kind : MessageType) : Metadata := {|
  Dns.id := number; message_type := kind; op_code := QueryOp; response_code := NoError; authoritative := false; truncation := false;
  recursion_desired := true; recursion_available := false; authentic_data := false |}.
Definition asks (name : string) : Message := {|
  metadata := plain 7 QueryMessage; queries := [question name A]; answers := []; authorities := []; additionals := []; edns := None |}.
Definition outside : Message := {|
  metadata := plain 9 ResponseMessage; queries := [question "Example.org." A];
  answers := [{| record_name := "example.org."; record_ttl := 60; record_data := AddressData 1 |}]; authorities := []; additionals := []; edns := None |}.

(** The messages of the run, each written as its place. *)
Definition known : list Message := [asks "WEB."; asks "Example.org."; outside].
Definition read (b : bytes) : Result Message := match b with [x] => ok_or (known !! Z.to_nat (byte_to_Z x)) "no message" | _ => Err "no message" end.

Definition number (n : Z) : chars := (if n <? 0 then "M"%char else "P"%char) :: replicate (Z.to_nat (Z.abs n)) "x"%char.
Definition type_name (t : RecordType) : string :=
  match t with
  | A => "A" | AAAA => "AAAA" | AXFR => "AXFR" | IXFR => "IXFR" | ANY => "ANY"
  | OtherType n => of_chars (number n)
  end.
Definition class_name (c : DNSClass) : string :=
  match c with IN => "IN" | OtherClass n => of_chars (number n) end.

#[local] Instance hickory : Hickory names := {|
  from_vec := read; to_vec := fun _ => Ok [Byte.x00]; request_from_bytes := read;
  request_info := fun m => match queries m with [q] => Some q | _ => None end;
  new_metadata := fun n kind _ => plain n kind;
  response_from_request := fun m => plain (Dns.id m) ResponseMessage;
  set_max_payload := fun n e => {| max_payload := Z.max n 512; dnssec_ok := dnssec_ok e; edns_options := edns_options e |};
  emit := fun maximum m => ensure! 0 <=? maximum else Err "no room" ;; Ok (take (Z.to_nat maximum) ((fun _ => Byte.x00) <$> answers m));
  type_debug := type_name; class_debug := class_name |}.

Lemma number_inj m n : number m = number n -> m = n.
Proof.
  unfold number. intros Heq. injection Heq as Hs Hl. apply (f_equal length) in Hl. rewrite !length_replicate in Hl.
  destruct (Z.ltb_spec m 0), (Z.ltb_spec n 0); try discriminate; lia.
Qed.

Lemma number_plain n : forallb (fun c => negb (bool_decide (c = ":"%char))) (number n) = true.
Proof.
  unfold number. cbn [forallb]. apply andb_true_intro. split; [by destruct (n <? 0)|].
  apply forallb_forall. intros c Hc%list_elem_of_In. by apply elem_of_replicate in Hc as [-> _].
Qed.

Lemma number_head n : head (number n) = Some "M"%char \/ head (number n) = Some "P"%char.
Proof. unfold number. destruct (n <? 0); auto. Qed.

Lemma type_name_inj a b : type_name a = type_name b -> a = b.
Proof.
  intros Heq. apply (f_equal chars_of) in Heq.
  destruct a, b; try done; cbn [type_name] in Heq; rewrite ?chars_of_of_chars in Heq; try (f_equal; by apply number_inj);
    try (destruct (number_head n) as [Hh|Hh]; rewrite <- Heq in Hh || rewrite Heq in Hh; discriminate).
Qed.

Lemma class_name_inj a b : class_name a = class_name b -> a = b.
Proof.
  intros Heq. apply (f_equal chars_of) in Heq.
  destruct a, b; try done; cbn [class_name] in Heq; rewrite ?chars_of_of_chars in Heq; try (f_equal; by apply number_inj);
    (destruct (number_head n) as [Hh|Hh]; rewrite <- Heq in Hh || rewrite Heq in Hh; discriminate).
Qed.

#[local] Instance hickory_laws : HickoryLaws hickory.
Proof.
  split; cbn [request_info emit type_debug class_debug hickory].
  - intros m q. destruct (queries m) as [|q' [|]]; try done. intros [= ->]. by left.
  - intros maximum m b. destruct (Z.leb_spec 0 maximum); [|done]. intros [= <-]. unfold len. rewrite length_take. lia.
  - apply type_name_inj.
  - apply class_name_inj.
  - intros []; try done. unfold all_char. cbn [type_name]. rewrite chars_of_of_chars. apply number_plain.
  - intros []; try done. unfold all_char. cbn [class_name]. rewrite chars_of_of_chars. apply number_plain.
Qed.

(** ** The run *)
Definition resolver : DnsForwarder := {| servers := [V4 [9; 9; 9; 9] 53]; bypass_mark := None |}.
Definition choice : Choice := {|
  instant := 0; later := 0; random_id := 9; sending := Ok tt; datagram := Ok [Byte.x02]; stream := Err "unused"; elapsed := false;
  abandoned := false; reply := Ok tt |}.
Definition w0 : World := {| clock := 2010; services := CacheSample.empty; forwarded := ∅; slots := []; trace := [] |}.

Definition whole (i : nat) (p : Tasks.Prog World Choice unit) (n : nat) : list (Tasks.Event (World := World) (Choice := Choice)) :=
  Tasks.Spawn i p :: replicate n (Tasks.Run i choice).
Definition events : list (Tasks.Event (World := World) (Choice := Choice)) :=
  whole 0 (change (CacheSafety.Seed CacheSample.first 2010) None) 1 ++
  whole 1 (task (serve_udp default_limits resolver [Byte.x00])) 8 ++
  whole 2 (task (serve_udp default_limits resolver [Byte.x01])) 16 ++
  whole 3 (task (serve_udp default_limits resolver [Byte.x01])) 16.
Definition after : World := (run w0 events).1.

Definition web_answer : Message := {|
  metadata := as_resolver (set_authoritative true (plain 7 ResponseMessage)); queries := [question "WEB." A];
  answers := [{| record_name := "WEB."; record_ttl := 5; record_data := AddressData (from_octets 198 18 0 1) |}];
  authorities := []; additionals := []; edns := None |}.

Lemma whole_tasks i p n : dns_task default_limits resolver p -> Forall (dns_event default_limits resolver) (whole i p n).
Proof. intros Hp. apply Forall_cons. split; [exact Hp|]. apply Forall_replicate. exact Logic.I. Qed.

Lemma dns_events_ok : Forall (dns_event default_limits resolver) events.
Proof. unfold events. rewrite !Forall_app. split_and!; apply whole_tasks; constructor. Qed.

Lemma starts : started CacheSample.tenant w0.
Proof. split_and!; [exists None; exact CacheSample.started|reflexivity..]. Qed.

Lemma dns_boundary_witness :
  (exists view, view_ok CacheSample.tenant view /\ classifies_internal view "example.org." = false) /\
  (exists view, Classified view "web." ∈ drop 7 (trace after) /\ view_ok CacheSample.tenant view /\
     if classifies_internal view "web." then
       exists since before, drop 7 (trace after) = since ++ before /\
         (answers web_answer = [] \/
          exists a, CacheSafety.backed (cache_at w0 before) CacheSample.tenant "web." (clock_at w0 before) a /\ ttl a <= 5)
     else True).
Proof.
  destruct (dns_boundary CacheSample.tenant default_limits resolver w0 events ltac:(vm_compute; discriminate) starts dns_events_ok) as (_ & Ha & Hb).
  split.
  - assert (Hl : trace (run w0 events).1 !! 4%nat = Some (Asked (V4 [9; 9; 9; 9] 53) (question "Example.org." A) [Byte.x00]))
      by (vm_compute; reflexivity).
    destruct (Ha _ _ _ _ _ (eq_sym (take_drop_middle _ _ _ Hl))) as (_ & _ & view & _ & Hv & Hc). exists view. exact (conj Hv Hc).
  - assert (Hl : trace (run w0 events).1 !! 6%nat = Some (Answered [Byte.x00] (asks "WEB.") web_answer 512 [Byte.x00]))
      by (vm_compute; reflexivity).
    destruct (Hb _ _ _ _ _ _ _ (question "WEB." A) (eq_sym (take_drop_middle _ _ _ Hl)) eq_refl eq_refl) as (view & Hin & Hv & Hs).
    exists view. split; [exact Hin|split; [exact Hv|]]. change (lowered (question "WEB." A)) with "web." in Hs.
    destruct (classifies_internal view "web."); [|exact Logic.I].
    destruct Hs as (_ & _ & since & before & Heq & _ & Hs). exists since, before. split; [exact Heq|].
    destruct Hs as [[Hs _]|(a & Hs & _)]; [left; exact Hs|right]. exists a. split; [exact Hs|apply Hs].
Defined.


Lemma dns_bounded_witness : len (slots after) <= 32 /\ map_len (forwarded after) = 1 /\ map_len (forwarded after) <= MAX_FORWARD_CACHE.
Proof.
  destruct (dns_bounded CacheSample.tenant default_limits resolver w0 events ltac:(vm_compute; discriminate) starts dns_events_ok) as (H1 & H2 & _).
  split; [exact H1|]. split; [vm_compute; reflexivity|exact H2].
Defined.
End DnsSample.
