(* ===== verification/SidecarSettings.v ===== *)
(** * The configuration of a sidecar (podmesh-sidecar/src/lib.rs)

    What a sidecar checks of its configuration before it starts, with the check
    of its control socket (connector_control.rs) and of overlapping listeners
    (shared/metrics/src/config.rs), and the ports its local proxies take
    (iroh_runtime/mod.rs).  The fields the checks do not read are left out. *)

From S2P Require Import Prelude Net Crypto Signed ReplayRegistry EndpointRecord Registration Biscuit WorkloadIdentity.
From S2P Require Import WorkloadControl AgentIds ServiceDiscovery NetDisplay ProxyRuntime.
From Stdlib Require Import Ascii.

Module SidecarSettings.
Import Net NetDisplay Crypto.
Import EndpointRecord (EndpointRecord, relay_url).
Import EgressTarget (is_unspecified, ip_of).

Definition MAX_PROXY_ENDPOINTS : Z := 32.
Definition MIN_RELAY_AUTH_TOKEN_BYTES : Z := 32.
Definition MAX_RELAY_AUTH_TOKEN_BYTES : Z := 4 * 1024.
Definition EGRESS_PROXY_PORT : Z := 15001.
Definition HTTP_CONNECT_PROXY_PORT : Z := 15080.

Record SidecarConfig := {
  connector_socket : option string;
  service_catalog : option Discovery.ServiceCatalog;
  proxy_endpoints : list EndpointRecord;
  workload_replay_limits : Replay.ReplayLimits;
  workload_relay_auth_token : option string;
  workload_relay_ca_certificates : list bytes;
  iroh_bind_addr : SocketAddr;
  metrics_listen : option SocketAddr;
  workload_name : string;
  replica_index : Z;
  replica_count : Z;
  app_port : Z;
  owner_public_key_b64 : option string;
  enable_egress : bool;
  http_proxy_port : option Z
}.

(** ** The control socket *)

(** [Path::components] of an absolute path, after its root: what is between the
    slashes, without empty and [.] segments. *)
Definition path_components (path : string) : list string :=
  filter (fun s => s <> "" /\ s <> ".") (split "/"%char path).

Definition validate_socket_path (path : string) : Result unit :=
  ensure! bool_decide (head (chars_of path) = Some "/"%char) && (str_len path <? 104)
    else Err "connector socket must be a short absolute path" ;;
  ensure! negb (bool_decide (".." ∈ path_components path)) else Err "invalid connector socket path" ;;
  ensure! negb (bool_decide (path_components path = [])) else Err "connector socket filename is missing" ;;
  Ok tt.

(** ** Listeners *)
Definition listeners_conflict (left right : SocketAddr) : bool :=
  (socket_port left =? socket_port right) &&
  (bool_decide (ip_of left = ip_of right) || is_unspecified (ip_of left) || is_unspecified (ip_of right)).

Definition http_port (config : SidecarConfig) : list Z :=
  match http_proxy_port config with
  | Some port => [if port =? 0 then HTTP_CONNECT_PROXY_PORT else port]
  | None => []
  end.

(** The ports the metrics listener is compared with. *)
Definition occupied_ports (config : SidecarConfig) : list Z :=
  [app_port config] ++ (if enable_egress config then [EGRESS_PROXY_PORT] else []) ++ http_port config.

Definition validate_metrics (config : SidecarConfig) : Result unit :=
  match metrics_listen config with
  | Some listen =>
      ensure! negb (listeners_conflict listen (iroh_bind_addr config))
        else Err "sidecar metrics listener conflicts with the Iroh listener" ;;
      ensure! forallb (fun port => negb (socket_port listen =? port)) (occupied_ports config)
        else Err "sidecar metrics listener conflicts with a local listener" ;;
      Ok tt
  | None => Ok tt
  end.

(** The ports [start_local_proxies] binds; its argument [dns] is whether the
    sidecar has a network, which it has when it has a service catalog. *)
Definition local_proxy_ports (config : SidecarConfig) : list Z :=
  (if enable_egress config || bool_decide (is_Some (service_catalog config)) then [EGRESS_PROXY_PORT] else []) ++
  http_port config.

(** ** The whole configuration *)
Section Validate.
Context {P : Primitives} {CR : Postcard EndpointRecord}.

Fixpoint verify_records (now : Z) (l : list EndpointRecord) : Result unit :=
  match l with
  | [] => Ok tt
  | record :: l => _ ← EndpointRecord.verify record now; verify_records now l
  end.

Definition validate_relay_token (token : option string) : Result unit :=
  token ← ok_or token "workload relay auth token is required";
  ensure! in_range MIN_RELAY_AUTH_TOKEN_BYTES MAX_RELAY_AUTH_TOKEN_BYTES (str_len token)
    else Err "workload relay auth token length is invalid" ;;
  ensure! Workload.is_ascii token && all_char (fun c => negb (is_ascii_whitespace c || is_ascii_control c)) token
    else Err "workload relay auth token contains invalid characters" ;;
  Ok tt.

Definition validate_limits (limits : Replay.ReplayLimits) : Result unit :=
  match Replay.validate limits with Ok _ => Ok tt | Err e => Err (Control.replay_message e) end.

Definition validate (config : SidecarConfig) (now : Z) : Result unit :=
  _ ← validate_limits (workload_replay_limits config);
  _ ← match connector_socket config with Some path => validate_socket_path path | None => Ok tt end;
  ensure! in_range 1 MAX_PROXY_ENDPOINTS (len (proxy_endpoints config))
    else Err "sidecar proxy endpoint count is invalid" ;;
  _ ← verify_records now (proxy_endpoints config);
  _ ← (if existsb (fun r => bool_decide (is_Some (relay_url r))) (proxy_endpoints config)
       then validate_relay_token (workload_relay_auth_token config) else Ok tt);
  ensure! len (workload_relay_ca_certificates config) <=? 8 else Err "too many workload relay CA certificates" ;;
  ensure! forallb (fun certificate => in_range 1 (64 * 1024) (len certificate)) (workload_relay_ca_certificates config)
    else Err "invalid workload relay CA certificate size" ;;
  ensure! in_range 1 253 (str_len (workload_name config)) else Err "sidecar workload name is invalid" ;;
  ensure! (1 <=? replica_count config) && (replica_index config <? replica_count config)
    else Err "sidecar replica identity is invalid" ;;
  _ ← validate_metrics config;
  owner ← ok_or (owner_public_key_b64 config) "sidecar owner public key is required";
  key ← b64_decode owner;
  ensure! len key =? ED25519_PUBLIC_KEY_SIZE else Err "sidecar owner public key must decode to 32 bytes" ;;
  Ok tt.

(** ** What a sidecar starts with *)
Lemma verify_records_ok now l : verify_records now l = Ok tt <-> Forall (fun r => EndpointRecord.verify r now = Ok tt) l.
Proof.
  induction l as [|r l IH]; [by split|]. cbn. rewrite Forall_cons, <- IH.
  destruct (EndpointRecord.verify r now) as [[]|]; cbn; naive_solver.
Qed.

(** A sidecar that starts has a key to verify grants with, proxies to connect to
    whose records verify, at most as many as its queue of candidates holds, and a
    token for the relays they name. *)
Lemma settings_validated config now : validate config now = Ok tt ->
  (exists owner key, owner_public_key_b64 config = Some owner /\ b64_decode owner = Ok key /\ len key = ED25519_PUBLIC_KEY_SIZE) /\
  1 <= len (proxy_endpoints config) <= MAX_PROXY_ENDPOINTS /\
  Forall (fun r => EndpointRecord.verify r now = Ok tt /\
                   (is_Some (relay_url r) -> is_Some (workload_relay_auth_token config))) (proxy_endpoints config).
Proof.
  unfold validate. intros Hv. Signed.result_steps Hv. unfold in_range in *. bool_props. split_and!; [|done..|].
  - exists x, x0. unfold ok_or in Hx4. destruct (owner_public_key_b64 config); simplify_eq. done.
  - apply verify_records_ok in Hx1. rewrite !Forall_forall in *. intros r Hr. split; [by apply Hx1|]. intros Hu.
    assert (He : existsb (fun r => bool_decide (is_Some (relay_url r))) (proxy_endpoints config) = true).
    { apply existsb_exists. exists r. split; [by apply list_elem_of_In|by apply bool_decide_eq_true]. }
    rewrite He in Hx2. destruct (workload_relay_auth_token config); [by eexists|done].
Qed.
End Validate.

(** A control socket is below the root of the file system, whatever its path. *)
Lemma socket_path_ok path : validate_socket_path path = Ok tt ->
  str_len path < 104 /\ path_components path <> [] /\ Forall (fun s => s <> "" /\ s <> "." /\ s <> "..") (path_components path).
Proof.
  unfold validate_socket_path. intros Hv. Signed.result_steps Hv. bool_props. split_and!; [done..|].
  apply Forall_forall. intros s Hs. pose proof Hs as Hf. unfold path_components in Hf. apply list_elem_of_filter in Hf as [[? ?] _].
  split_and!; [done..|]. by intros ->.
Qed.

(** The metrics listener takes no port of a local proxy, when the sidecar
    has no service catalog or intercepts traffic anyway. *)
Lemma metrics_port_free config listen :
  validate_metrics config = Ok tt -> metrics_listen config = Some listen ->
  service_catalog config = None \/ enable_egress config = true -> socket_port listen ∉ local_proxy_ports config.
Proof.
  unfold validate_metrics. intros Hv Hl Hc Hin. rewrite Hl in Hv. Signed.result_steps Hv.
  match goal with Hf : forallb _ _ = true |- _ => rewrite forallb_forall in Hf; specialize (Hf (socket_port listen)) end.
  assert (Hp : socket_port listen ∈ occupied_ports config).
  { unfold occupied_ports, local_proxy_ports in *. destruct Hc as [Hc|Hc]; rewrite Hc in *; [|by apply elem_of_app; right].
    rewrite bool_decide_eq_false_2, orb_false_r in Hin by (by intros []). by apply elem_of_app; right. }
  apply list_elem_of_In in Hp. rewrite Z.eqb_refl in *. naive_solver.
Qed.

(** With a catalog the transparent proxy runs also when traffic is not
    intercepted, and its port is not compared. *)
Lemma egress_port_overlooked config listen catalog :
  metrics_listen config = Some listen -> service_catalog config = Some catalog -> enable_egress config = false ->
  socket_port listen = EGRESS_PROXY_PORT -> listeners_conflict listen (iroh_bind_addr config) = false ->
  app_port config <> EGRESS_PROXY_PORT -> EGRESS_PROXY_PORT ∉ http_port config ->
  validate_metrics config = Ok tt /\ socket_port listen ∈ local_proxy_ports config.
Proof.
  intros Hl Hs He Hp Hb Ha Hh. unfold validate_metrics, local_proxy_ports, occupied_ports. rewrite Hl, Hs, He, Hp, Hb. cbn [negb].
  split; [|by left]. cbn [app forallb]. rewrite (proj2 (Z.eqb_neq _ _)) by done. cbn [negb andb].
  rewrite (proj2 (forallb_forall _ _)); [done|]. intros port Hport%list_elem_of_In.
  apply negb_true_iff, Z.eqb_neq. by intros <-.
Qed.
End SidecarSettings.
