(* ===== verification/Sidecar.v ===== *)
(** * Sidecar injection (podmesh-agent/src/sidecar.rs, shared/protocol/src/sidecar_metadata.rs)

    The agent adds its sidecar to the pod of a manifest, names the pod after the
    workload and hands the sidecar what it needs to know; PodmanRuntime reads
    the name of the pod back from the manifest (podmesh-agent/src/runtime.rs). *)

From S2P Require Import Prelude Net Crypto Signed Quantities RustOrd EndpointRecord Registration Biscuit WorkloadIdentity AgentIds ServiceDiscovery Connector AgentMessages Manifest Rego Policy ServiceManifest NetDisplay.
From Stdlib Require Import Ascii.

(** [SidecarInjection] of sidecar.rs. *)
Record SidecarInjection := {
  inj_workload_id : string;
  inj_workload_name : string;
  inj_replica_index : Z;
  inj_replica_count : Z;
  inj_namespace_id : string;
  inj_sidecar_image : string;
  inj_proxy_endpoints : list EndpointRecord.EndpointRecord;
  inj_service_catalog : option Discovery.ServiceCatalog;
  inj_workload_credential_b64 : string;
  inj_workload_relay_auth_token : string;
  inj_workload_relay_ca_certificates : list bytes;
  inj_metrics_listen : option Net.SocketAddr
}.

Module Sidecar.
Import Crypto Manifest.

(** ** sidecar_metadata.rs *)
Definition METADATA_BLOB_ENV_VAR : string := "PODMESH_SIDECAR_METADATA_B64".
Definition DEFAULT_CONNECTOR_SOCKET : string := "/var/run/podmesh/connector/control.sock".

Record SidecarMetadata := {
  workload_name : string;
  manifest_id : string;
  replica_index : Z;
  replica_count : Z;
  manifest_b64 : string;
  owner_public_key_b64 : string;
  proxy_endpoints : list EndpointRecord.EndpointRecord;
  service_catalog : option Discovery.ServiceCatalog;
  workload_credential_b64 : string;
  workload_relay_auth_token : string;
  workload_relay_ca_certificates : list bytes
}.

#[local] Existing Instance Discovery.ServiceDefinition_eq_dec.

Section Metadata.
Context {P : Primitives} {H : Blake3} {B : Biscuit.BiscuitAuth} {Y : YamlSupport}.
Context {CR : Postcard EndpointRecord.EndpointRecord} {CC : Postcard Discovery.ServiceCatalog}.
Context {JD : Json Workload.EnrollmentDelegation}.

(** The catalog, when there is one, is the owner's and describes this revision. *)
Definition validate_metadata_catalog (m : SidecarMetadata) (revision_id : string) : Result unit :=
  match service_catalog m with
  | None => Ok tt
  | Some catalog =>
      _ ← Discovery.verify_catalog catalog (owner_public_key_b64 m);
      ensure! bool_decide (Discovery.catalog_manifest_id catalog = manifest_id m) &&
              bool_decide (Discovery.catalog_revision_id catalog = revision_id)
        else Err "sidecar service catalog mismatch" ;;
      manifest ← b64_decode (manifest_b64 m);
      services ← ServiceManifest.workload_services manifest;
      ensure! bool_decide (Discovery.services catalog = services) else Err "sidecar service catalog mismatch" ;;
      Ok tt
  end.

Definition validate (m : SidecarMetadata) : Result unit :=
  ensure! AgentIds.bounded 253 (workload_name m) else Err "invalid workload name" ;;
  owner ← b64_decode (owner_public_key_b64 m);
  ensure! len owner =? 32 else Err "owner_public_key_b64 must decode to 32 bytes" ;;
  ensure! bool_decide (manifest_id m = Registration.route_id owner (workload_name m))
    else Err "manifest_id is not derived from the owner key and workload name" ;;
  ensure! (1 <=? replica_count m) && (replica_count m <=? Registration.MAX_WORKLOAD_REPLICAS)
    else Err "replica count must be between 1 and 64" ;;
  ensure! replica_index m <? replica_count m else Err "replica index is outside the deployment" ;;
  ensure! negb (bool_decide (proxy_endpoints m = [])) &&
          (len (proxy_endpoints m) <=? AgentMessages.Spec.MAX_PROXY_ENDPOINTS)
    else Err "invalid proxy endpoint count" ;;
  _ ← AgentMessages.Spec.verify_endpoints (proxy_endpoints m);
  delegation ← Workload.delegation_from_b64 (workload_credential_b64 m);
  _ ← Workload.verify_scope delegation (owner_public_key_b64 m) (manifest_id m)
        (AgentIds.workload_id owner (workload_name m) (replica_index m)) None None;
  manifest ← b64_decode (manifest_b64 m);
  ensure! bool_decide (Workload.revision_id (Workload.scope delegation) = AgentIds.revision_id manifest)
    else Err "sidecar enrollment revision mismatch" ;;
  _ ← validate_metadata_catalog m (Workload.revision_id (Workload.scope delegation));
  ensure! (32 <=? str_len (workload_relay_auth_token m)) && (str_len (workload_relay_auth_token m) <=? 4 * 1024)
    else Err "invalid workload relay auth token length" ;;
  ensure! len (workload_relay_ca_certificates m) <=? 8 else Err "too many workload relay CA certificates" ;;
  AgentMessages.Spec.validate_certificates (workload_relay_ca_certificates m).
End Metadata.

(** ** sidecar.rs *)
Definition SIDECAR_NAME : string := "podmesh-sidecar".
Definition RUNTIME_NAME_PREFIX : string := "podmesh-".
Definition MAX_DNS_LABEL_LEN : Z := 63.
Definition PODMAN_WORKLOAD_SUFFIX_LEN : Z := str_len "-pod".

Definition workload_runtime_name {H : Blake3} (workload_id : string) : string :=
  let digest := blake3_hex (as_bytes workload_id) in
  let digest_len := MAX_DNS_LABEL_LEN - PODMAN_WORKLOAD_SUFFIX_LEN - str_len RUNTIME_NAME_PREFIX in
  RUNTIME_NAME_PREFIX +:+ String.substring 0 (Z.to_nat digest_len) digest.

Section Inject.
Context {P : Primitives} {H : Blake3} {B : Biscuit.BiscuitAuth} {Y : YamlSupport}.
Context {CR : Postcard EndpointRecord.EndpointRecord} {CC : Postcard Discovery.ServiceCatalog}.
Context {JD : Json Workload.EnrollmentDelegation} {JM : Json SidecarMetadata}.

Definition metadata_for (manifest : bytes) (owner : bytes) (i : SidecarInjection) : SidecarMetadata :=
  {| workload_name := inj_workload_name i;
     manifest_id := Registration.route_id owner (inj_workload_name i);
     replica_index := inj_replica_index i;
     replica_count := inj_replica_count i;
     manifest_b64 := b64_encode manifest;
     owner_public_key_b64 := inj_namespace_id i;
     proxy_endpoints := inj_proxy_endpoints i;
     service_catalog := inj_service_catalog i;
     workload_credential_b64 := inj_workload_credential_b64 i;
     workload_relay_auth_token := inj_workload_relay_auth_token i;
     workload_relay_ca_certificates := inj_workload_relay_ca_certificates i |}.

(** [json!({ "name": name, "value": value })]. *)
Definition env_entry (name value : string) : Json.Value :=
  Json.Object [("name", Json.Str name); ("value", Json.Str value)].

Definition environment (metadata_blob : string) (metrics_listen : option Net.SocketAddr) : list Json.Value :=
  [env_entry METADATA_BLOB_ENV_VAR metadata_blob;
   env_entry "PODMESH_CONNECTOR_SOCKET" DEFAULT_CONNECTOR_SOCKET;
   env_entry "PODMESH_CONNECTOR_IDENTITY_DIR" "/var/lib/podmesh-connector/identity";
   env_entry "PODMESH_ENABLE_EGRESS" "true";
   env_entry "RUST_LOG" "info"] ++
  match metrics_listen with
  | Some a => [env_entry "PODMESH_METRICS_LISTEN" (NetDisplay.show_socket_addr a)]
  | None => []
  end.

Definition sidecar_container (image metadata_blob : string) (metrics_listen : option Net.SocketAddr) : Json.Value :=
  Json.Object
    ([("name", Json.Str SIDECAR_NAME); ("image", Json.Str image); ("imagePullPolicy", Json.Str "IfNotPresent");
      ("env", Json.Array (environment metadata_blob metrics_listen));
      ("securityContext", Json.Object
        [("runAsUser", Json.Num (PosInt 0)); ("runAsNonRoot", Json.Bool false);
         ("capabilities", Json.Object [("add", Json.Array [Json.Str "NET_ADMIN"])])])] ++
     match metrics_listen with
     | Some a =>
         [("ports", Json.Array [Json.Object [("containerPort", Json.Num (PosInt (NetDisplay.socket_port a)));
                                             ("protocol", Json.Str "TCP")]])]
     | None => []
     end).

Definition is_pod (value : Json.Value) : bool := ServiceManifest.is_kind "Pod" value.
Definition spec_path (value : Json.Value) : list string :=
  if is_pod value then ["spec"] else ["spec"; "template"; "spec"].
Definition has_pod_spec (value : Json.Value) : bool := Connector.is_some (Json.pointer (spec_path value) value).

Definition is_named (name : string) (container : Json.Value) : bool :=
  bool_decide ((n ← Json.get container "name"; Json.as_str n) = Some name).

(** One document that has a pod specification. *)
Definition inject_document (sidecar : Json.Value) (runtime_name : string) (value : Json.Value) : Result Json.Value :=
  metadata ← ok_or (m ← Json.get value "metadata"; Json.as_object m) "workload metadata must be an object";
  let value :=
    Json.update ["metadata"] (fun _ => Json.Object (Json.object_insert "name" (Json.Str runtime_name) metadata)) value in
  pod_spec ← ok_or (Json.pointer (spec_path value) value) "workload pod spec disappeared during transformation";
  containers ← ok_or (c ← Json.get pod_spec "containers"; Json.as_array c) "pod spec containers must be an array";
  ensure! negb (existsb (is_named SIDECAR_NAME) containers) else Err "manifest already contains a podmesh sidecar" ;;
  Ok (Json.update (spec_path value ++ ["containers"]) (fun _ => Json.Array (containers ++ [sidecar])) value).

Fixpoint inject_loop (sidecar : Json.Value) (runtime_name : string) (documents : list Yaml.Value) : Result (list Yaml.Value) :=
  match documents with
  | [] => Ok []
  | document :: documents =>
      value ← json_of_yaml document;
      if has_pod_spec value then
        value ← inject_document sidecar runtime_name value;
        y ← yaml_of_json value;
        rest ← inject_loop sidecar runtime_name documents;
        Ok (y :: rest)
      else inject_loop sidecar runtime_name documents
  end.

Definition inject (manifest : bytes) (i : SidecarInjection) : Result bytes :=
  owner ← b64_decode (inj_namespace_id i);
  let metadata := metadata_for manifest owner i in
  _ ← validate metadata;
  blob ← ok_or (to_json metadata) "serialize sidecar metadata";
  let sidecar := sidecar_container (inj_sidecar_image i) (b64_encode blob) (inj_metrics_listen i) in
  documents ← parse_yaml_documents_from_slice manifest;
  output ← inject_loop sidecar (workload_runtime_name (inj_workload_id i)) documents;
  ensure! 0 <? len output else Err "manifest does not contain a supported pod spec" ;;
  ensure! len output =? 1 else Err "a workload may contain only one pod-bearing document" ;;
  text ← serialize_yaml_documents output;
  Ok (as_bytes text).
End Inject.

(** ** The name of the pod (runtime.rs, PodmanRuntime::pod_name) *)
Section PodName.
Context {Y : YamlSupport}.

Definition yaml_is_pod (document : Yaml.Value) : bool := bool_decide (Policy.kind_of document = Some "Pod").

Definition yaml_has_pod_spec (document : Yaml.Value) : bool :=
  Connector.is_some (Policy.get_path (if yaml_is_pod document then ["spec"] else ["spec"; "template"; "spec"]) document).

Definition pod_name (manifest : bytes) : Result string :=
  documents ← parse_yaml_documents_from_slice manifest;
  value ← ok_or (List.find yaml_has_pod_spec documents) "manifest does not contain a pod workload";
  name ← ok_or (metadata ← Yaml.get value "metadata"; name ← Yaml.get metadata "name"; Yaml.as_str name)
    "workload metadata.name is required";
  ensure! (str_len name <=? 253) &&
          Net.all_char (fun b => Net.is_ascii_alphanumeric b || bool_decide (b = "-"%char) || bool_decide (b = "."%char)) name
    else Err "invalid workload name" ;;
  Ok (if yaml_is_pod value then name else name +:+ "-pod").
End PodName.

(** ** What is injected *)

(** [v] is [v0] with the pod named [name] and [sidecar] as its last container,
    and with nothing else changed: not at the top of the document, in its
    metadata or in the pod's specification, nor on the way to it when the
    document is not a pod itself. *)
Record injected (sidecar : Json.Value) (name : string) (v0 v : Json.Value) : Prop := {
  inj_top k : k <> "metadata" -> k <> "spec" -> Json.get v k = Json.get v0 k;
  inj_template : is_pod v0 = false ->
    (forall k, k <> "template" -> Json.pointer ["spec"; k] v = Json.pointer ["spec"; k] v0) /\
    (forall k, k <> "spec" -> Json.pointer ["spec"; "template"; k] v = Json.pointer ["spec"; "template"; k] v0);
  inj_name : Json.pointer ["metadata"; "name"] v = Some (Json.Str name);
  inj_metadata k : k <> "name" -> Json.pointer ["metadata"; k] v = Json.pointer ["metadata"; k] v0;
  inj_spec : exists spec0 spec containers,
    Json.pointer (spec_path v0) v0 = Some spec0 /\ Json.pointer (spec_path v) v = Some spec /\
    Json.get spec0 "containers" = Some (Json.Array containers) /\
    existsb (is_named SIDECAR_NAME) containers = false /\
    Json.get spec "containers" = Some (Json.Array (containers ++ [sidecar])) /\
    (forall k, k <> "containers" -> Json.get spec k = Json.get spec0 k)
}.

(** The container the agent adds: its name, its image, what it is told and what
    it may do to the network. *)
Record is_sidecar (image blob : string) (c : Json.Value) : Prop := {
  sidecar_name : Json.pointer ["name"] c = Some (Json.Str "podmesh-sidecar");
  sidecar_runs : Json.pointer ["image"] c = Some (Json.Str image);
  sidecar_environment : exists env, Json.pointer ["env"] c = Some (Json.Array env) /\
    env_entry "PODMESH_SIDECAR_METADATA_B64" blob ∈ env /\
    (forall e, e ∈ env -> Json.get e "name" = Some (Json.Str "PODMESH_SIDECAR_METADATA_B64") ->
      Json.get e "value" = Some (Json.Str blob));
  sidecar_may : Json.pointer ["securityContext"; "capabilities"; "add"] c = Some (Json.Array [Json.Str "NET_ADMIN"])
}.

Lemma spec_path_head v : exists path, spec_path v = "spec" :: path.
Proof. unfold spec_path. destruct (is_pod v); by eexists. Qed.

Lemma spec_path_kind v v' : Json.get v "kind" = Json.get v' "kind" -> spec_path v = spec_path v'.
Proof. unfold spec_path, is_pod, ServiceManifest.is_kind. by intros ->. Qed.

Lemma inject_document_ok sidecar name v0 v :
  inject_document sidecar name v0 = Ok v -> injected sidecar name v0 v.
Proof.
  unfold inject_document. intros H. apply Quantities.bind_result in H as (m & Hm & H). rewrite Quantities.ok_or_ok in Hm.
  destruct (Json.get v0 "metadata") as [[| | | | |m']|] eqn:Hmeta; try done. injection Hm as ->.
  set (v1 := Json.update ["metadata"] _ v0) in H.
  assert (forall k, k <> "metadata" -> Json.get v1 k = Json.get v0 k) as Hother.
  { intros k Hk. unfold v1. by rewrite Json.json_get_update, bool_decide_false. }
  assert (Json.get v1 "metadata" = Some (Json.Object (Json.object_insert "name" (Json.Str name) m))) as Hmeta1.
  { unfold v1. by rewrite Json.json_get_update, Hmeta. }
  assert (spec_path v1 = spec_path v0) as Hpath by (apply spec_path_kind; by apply Hother).
  apply Quantities.bind_result in H as (spec & Hspec & H). rewrite Quantities.ok_or_ok in Hspec.
  apply Quantities.bind_result in H as (containers & Hc & H). rewrite Quantities.ok_or_ok in Hc.
  destruct (existsb (is_named SIDECAR_NAME) containers) eqn:Hn; [done|]. cbn [negb] in H. injection H as <-.
  destruct (Json.get spec "containers") as [[| | | |l|]|] eqn:Hget; try done. injection Hc as ->.
  destruct (spec_path_head v1) as [path Hhead]. rewrite Hhead in *. cbn [app].
  set (v := Json.update _ _ v1).
  assert (forall k, k <> "spec" -> Json.get v k = Json.get v1 k) as Hkeep.
  { intros k Hk. unfold v. by rewrite Json.json_get_update, bool_decide_false. }
  assert (Json.get v "kind" = Json.get v0 "kind") as Hkind by (rewrite Hkeep, Hother; done).
  split.
  - intros k Hm Hs. by rewrite Hkeep, Hother.
  - intros Hpod. unfold spec_path in Hpath. rewrite Hpod in Hpath. injection Hpath as ->.
    assert (forall p, Json.pointer ("spec" :: p) v1 = Json.pointer ("spec" :: p) v0) as Hp
      by (intros p; by apply Json.pointer_update_other).
    split; intros k Hk; rewrite <- Hp; [by apply (Json.pointer_sibling ["spec"])|by apply (Json.pointer_sibling ["spec"; "template"])].
  - cbn [Json.pointer]. rewrite Hkeep, Hmeta1 by done. cbn [Json.get]. by rewrite Json.object_lookup_insert, bool_decide_true.
  - intros k Hk. cbn [Json.pointer]. rewrite Hkeep, Hmeta1, Hmeta by done. cbn [Json.get].
    by rewrite Json.object_lookup_insert, bool_decide_false.
  - assert (Json.pointer ("spec" :: path) v0 = Some spec) as Hspec0.
    { rewrite <- Hspec. cbn. by rewrite Hother. }
    exists spec, (Json.update ["containers"] (fun _ => Json.Array (containers ++ [sidecar])) spec), containers.
    rewrite (spec_path_kind v v0 Hkind), <- Hpath. split_and!; try done.
    + unfold v. change ("spec" :: path ++ ["containers"]) with (("spec" :: path) ++ ["containers"]).
      rewrite Json.update_app. by apply Json.pointer_update.
    + rewrite Json.json_get_update, Hget. done.
    + intros k Hk. by rewrite Json.json_get_update, bool_decide_false.
Qed.

Lemma container_is_sidecar image blob metrics : is_sidecar image blob (sidecar_container image blob metrics).
Proof.
  split; [by destruct metrics..| |by destruct metrics].
  exists (environment blob metrics). split_and!; [by destruct metrics|by left|].
  intros e He. destruct metrics; cbn in He; repeat (apply elem_of_cons in He as [->|He]; [done|]); by apply not_elem_of_nil in He.
Qed.

Section Injection.
Context {P : Primitives} {H : Blake3} {B : Biscuit.BiscuitAuth} {Y : YamlSupport}.
Context {CR : Postcard EndpointRecord.EndpointRecord} {CC : Postcard Discovery.ServiceCatalog}.
Context {JD : Json Workload.EnrollmentDelegation} {JM : Json SidecarMetadata}.

Lemma inject_loop_ok sidecar name docs y :
  inject_loop sidecar name docs = Ok [y] ->
  exists d v0 v, d ∈ docs /\ json_of_yaml d = Ok v0 /\ injected sidecar name v0 v /\ yaml_of_json v = Ok y.
Proof.
  induction docs as [|d docs IH]; [done|]. cbn [inject_loop]. intros Hl.
  apply Quantities.bind_result in Hl as (v0 & Hv0 & Hl). destruct (has_pod_spec v0).
  - apply Quantities.bind_result in Hl as (v & Hv & Hl). apply Quantities.bind_result in Hl as (y' & Hy & Hl).
    apply Quantities.bind_result in Hl as (rest & _ & Hl). injection Hl as <- _.
    exists d, v0, v. split_and!; [by left|done|by apply inject_document_ok|done].
  - destruct (IH Hl) as (d' & v0' & v & Hd & ?). exists d', v0', v. split; [by right|done].
Qed.

(** An injected manifest is one document: that of the pod, with its sidecar. *)
Lemma inject_ok {L : YamlLaws} {K : ConversionLaws} manifest i out :
  inject manifest i = Ok out ->
  exists owner blob docs d v0 v y,
    b64_decode (inj_namespace_id i) = Ok owner /\ validate (metadata_for manifest owner i) = Ok tt /\
    to_json (metadata_for manifest owner i) = Some blob /\
    parse_yaml_documents_from_slice manifest = Ok docs /\ d ∈ docs /\ json_of_yaml d = Ok v0 /\
    injected (sidecar_container (inj_sidecar_image i) (b64_encode blob) (inj_metrics_listen i))
      (workload_runtime_name (inj_workload_id i)) v0 v /\
    yaml_of_json v = Ok y /\ parse_yaml_documents_from_slice out = Ok [y].
Proof.
  unfold inject. intros Hi. apply Quantities.bind_result in Hi as (owner & Ho & Hi).
  apply Quantities.bind_result in Hi as ([] & Hv & Hi). apply Quantities.bind_result in Hi as (blob & Hb & Hi).
  rewrite Quantities.ok_or_ok in Hb. apply Quantities.bind_result in Hi as (docs & Hd & Hi).
  apply Quantities.bind_result in Hi as (output & Hout & Hi). destruct (0 <? len output); [|done].
  destruct (len output =? 1) eqn:H1; [|done]. apply Quantities.bind_result in Hi as (text & Ht & Hi). injection Hi as <-.
  destruct output as [|y [|y' rest]]; try done. 2:{ rewrite !len_cons in H1. pose proof (len_nonneg rest). lia. }
  destruct (inject_loop_ok _ _ _ _ Hout) as (d & v0 & v & Hin & Hv0 & Hinj & Hy).
  exists owner, blob, docs, d, v0, v, y. split_and!; try done.
  apply (parse_serialized [y] text Ht); [done|]. cbn [forallb].
  pose proof (yaml_of_json_get v y "metadata" Hy) as Hg. pose proof (inj_name _ _ _ _ Hinj) as Hn. cbn in Hn.
  destruct (Json.get v "metadata"); [|done]. destruct Hg as (z & _ & Hz). revert Hz.
  unfold Yaml.get, Yaml.as_mapping, Yaml.is_null. by destruct (Yaml.untag y).
Qed.
End Injection.
End Sidecar.
