(* ===== verification/AgentState.v ===== *)
(** * The agent's in-memory state (podmesh-agent/src/service.rs, config.rs)

    The replay cache, the resource accounting, the workload state, and the
    shared state of the service with the world around it: the store, the clock
    and random sources, and the container runtime. *)

From S2P Require Import Prelude Net OrderedMap Crypto Signed EndpointRecord Identity AgentIds ServiceDiscovery AgentMessages AgentStore Connector Tasks.

Module AgentState.
Import Crypto AgentMessages.
Import AgentStore (StoredWorkload, Store, EnrollmentBinding).
Import Reservation (Reservation).

Definition RESERVATION_TTL_SECS : Z := 30.
Definition MAX_RESERVATIONS_PER_NAMESPACE : Z := 16.
Definition MAX_REPLAY_ENTRIES : Z := 16384.
Definition MAX_RESERVATIONS : Z := 1024.
Definition MAX_CONFIGURED_WORKLOADS : Z := 10000.

(** ** The replay cache *)
Record ReplayCache := { seen : gmap string Z; order : list string }.

Definition empty_cache : ReplayCache := {| seen := ∅; order := [] |}.

(** The loop that drops expired entries from the front. *)
Fixpoint drop_expired (seen : gmap string Z) (order : list string) (now_secs : Z) : ReplayCache :=
  match order with
  | [] => {| seen := seen; order := [] |}
  | oldest :: rest =>
      match seen !! oldest with
      | Some expiry =>
          if expiry <? now_secs then drop_expired (delete oldest seen) rest now_secs
          else {| seen := seen; order := order |}
      | None => drop_expired seen rest now_secs
      end
  end.

(** A full cache gives up its oldest entry. *)
Definition evict_oldest (c : ReplayCache) : ReplayCache :=
  if MAX_REPLAY_ENTRIES <=? len (order c) then
    match order c with
    | evicted :: rest => {| seen := delete evicted (seen c); order := rest |}
    | [] => c
    end
  else c.

Definition record (c : ReplayCache) (key : string) (expires_at_secs now_secs : Z) : ReplayCache * Result unit :=
  let c := drop_expired (seen c) (order c) now_secs in
  ensure! negb (contains_key key (seen c)) else (c, Err "replayed request") ;;
  let c := evict_oldest c in
  ({| seen := <[key := expires_at_secs]> (seen c); order := order c ++ [key] |}, Ok tt).

(** ** Resource accounting *)
Record ResourceUsage := { cpu_milli : Z; memory_bytes : Z; storage_bytes : Z }.

Definition no_usage : ResourceUsage := {| cpu_milli := 0; memory_bytes := 0; storage_bytes := 0 |}.

Definition add (u : ResourceUsage) (cpu memory storage : Z) : ResourceUsage :=
  {| cpu_milli := saturating_add u64_max (cpu_milli u) cpu;
     memory_bytes := saturating_add u64_max (memory_bytes u) memory;
     storage_bytes := saturating_add u64_max (storage_bytes u) storage |}.

Definition plus (u : ResourceUsage) (cpu memory storage : Z) : ResourceUsage := add u cpu memory storage.

Definition fits_within (u : ResourceUsage) (cpu memory storage : Z) : bool :=
  (cpu_milli u <=? cpu) && (memory_bytes u <=? memory) && (storage_bytes u <=? storage).

(** ** Workload state *)
Record WorkloadState := {
  active : gmap string StoredWorkload;
  reservations : gmap string Reservation;
  quarantined : gset string
}.

Definition set_active (m : gmap string StoredWorkload) (s : WorkloadState) : WorkloadState :=
  {| active := m; reservations := reservations s; quarantined := quarantined s |}.
Definition set_reservations (m : gmap string Reservation) (s : WorkloadState) : WorkloadState :=
  {| active := active s; reservations := m; quarantined := quarantined s |}.

Definition add_workload (u : ResourceUsage) (w : StoredWorkload) : ResourceUsage :=
  add u (AgentStore.cpu_milli w) (AgentStore.memory_bytes w) (AgentStore.storage_bytes w).
Definition add_reservation (u : ResourceUsage) (r : Reservation) : ResourceUsage :=
  add u (Reservation.cpu_milli r) (Reservation.memory_bytes r) (Reservation.storage_bytes r).

Definition active_usage (s : WorkloadState) : ResourceUsage :=
  map_fold (fun _ w u => add_workload u w) no_usage (active s).
Definition reserved_usage (s : WorkloadState) : ResourceUsage :=
  map_fold (fun _ r u => add_reservation u r) no_usage (reservations s).

(** [u32::try_from(x).unwrap_or(u32::MAX)]. *)
Definition to_u32 (x : Z) : Z := if x <=? u32_max then x else u32_max.

Definition usage (s : WorkloadState) : ResourceUsage :=
  let reserved := reserved_usage s in
  plus (active_usage s) (to_u32 (cpu_milli reserved)) (memory_bytes reserved) (storage_bytes reserved).

Definition usage_without (s : WorkloadState) (workload_id : string) : ResourceUsage :=
  map_fold (fun id w u => if bool_decide (id <> workload_id) then add_workload u w else u)
    (reserved_usage s) (active s).

Definition reservations_for (s : WorkloadState) (namespace_id : string) : Z :=
  map_len (map_retain (fun _ r => bool_decide (Reservation.namespace_id r = namespace_id)) (reservations s)).

Definition contains_workload (s : WorkloadState) (workload_id : string) : bool :=
  contains_key workload_id (active s) || bool_decide (workload_id ∈ quarantined s) ||
  existsb (fun r => bool_decide (Reservation.workload_id r = workload_id)) (map_to_list (reservations s)).*2.

(** ** The service *)
Record Config := {
  capacity_cpu_milli : Z;
  capacity_memory_bytes : Z;
  capacity_storage_bytes : Z;
  max_workloads : Z;
  max_reserved_capacity_percent : Z;
  sidecar_image : string;
  sidecar_metrics_listen : option Net.SocketAddr;
  advertise_addresses : list string;
  service_mesh_required : bool
}.

(** The agent's signing and sealing key pairs. *)
Record Keys := {
  signing_public : bytes;
  signing_private : bytes;
  kem_public : bytes;
  kem_private : bytes
}.

Inductive MutationOwner := Lifecycle | Enrollment.

#[export] Instance MutationOwner_eq_dec : EqDecision MutationOwner.
Proof. solve_decision. Defined.

(** An [anyhow::Error]: what it displays, and the two types handlers look for
    in it. *)
Record Error := {
  message : string;
  outcome_unknown : bool;
  busy : option MutationOwner
}.

Definition err (m : string) : Error := {| message := m; outcome_unknown := false; busy := None |}.
Definition owner_message (o : MutationOwner) : string :=
  match o with
  | Lifecycle => "workload is busy"
  | Enrollment => "workload is busy with endpoint enrollment"
  end.
Definition busy_error (o : MutationOwner) : Error :=
  {| message := owner_message o; outcome_unknown := false; busy := Some o |}.

Abbreviation Outcome A := (result Error A).
Definition lift {A} (r : Result A) : Outcome A := match r with Ok a => Ok a | Err m => Err (err m) end.

(** ** The world *)

(** What the agent asks of the container runtime. *)
Inductive RuntimeCall :=
| CallDeploy (workload_id namespace_id : string) (manifest : bytes)
| CallStatus (runtime_id : string)
| CallLogs (runtime_id : string) (tail : Z)
| CallDelete (runtime_id : string)
| CallCleanup (runtime_id : string) (uncertain : bool)
| CallExchange (runtime_id : string) (request : Connector.ConnectorRequest).

(** What happens outside the agent's memory, newest first: runtime calls with
    the workload and operation they are for, the answers that came back, and
    store writes. *)
Inductive Occurrence :=
| Called (workload_id operation : string) (call : RuntimeCall)
| Answered (workload_id operation : string) (call : RuntimeCall) (succeeded : bool)
| Saved (workload : StoredWorkload)
| Erased (workload_id : string).

Section World.
Context {I : Iroh}.

(** The mutable part of [Inner], with the store and the record of what
    happened outside.  A mutation entry also names the task whose
    [MutationGuard] will remove it. *)
Record World := {
  state : WorkloadState;
  mutations : gmap string (MutationOwner * nat);
  replay : ReplayCache;
  current_endpoint_address : option EndpointAddr;
  store : Store;
  trace : list Occurrence
}.

Definition set_state (s : WorkloadState) (w : World) : World :=
  {| state := s; mutations := mutations w; replay := replay w;
     current_endpoint_address := current_endpoint_address w; store := store w; trace := trace w |}.
Definition set_mutations (m : gmap string (MutationOwner * nat)) (w : World) : World :=
  {| state := state w; mutations := m; replay := replay w;
     current_endpoint_address := current_endpoint_address w; store := store w; trace := trace w |}.
Definition set_replay (r : ReplayCache) (w : World) : World :=
  {| state := state w; mutations := mutations w; replay := r;
     current_endpoint_address := current_endpoint_address w; store := store w; trace := trace w |}.
Definition set_endpoint_address (a : EndpointAddr) (w : World) : World :=
  {| state := state w; mutations := mutations w; replay := replay w;
     current_endpoint_address := Some a; store := store w; trace := trace w |}.
Definition set_store (s : Store) (o : list Occurrence) (w : World) : World :=
  {| state := state w; mutations := mutations w; replay := replay w;
     current_endpoint_address := current_endpoint_address w; store := s; trace := o ++ trace w |}.

Definition insert_active (id : string) (x : StoredWorkload) (w : World) : World :=
  set_state (set_active (<[id := x]> (active (state w))) (state w)) w.
Definition remove_active (id : string) (w : World) : World :=
  set_state (set_active (delete id (active (state w))) (state w)) w.

(** What the environment supplies to a step: the clock, what the random
    sources draw, whether a store operation fails, whether a runtime permit came
    in time, and the runtime's answer, [None] standing for a call that ran into
    the operation's timeout. *)
Record Choice := {
  clock : Z;
  uuid : string;
  ephemeral : bytes;
  seal_nonce : bytes;
  secure_nonce : string;
  io_error : option string;
  permit : bool;
  text_answer : option (Outcome string);
  unit_answer : option (Outcome unit);
  connector_answer : option (Outcome Connector.ConnectorResponse)
}.

Abbreviation M := (Tasks.Prog World Choice).

(** [now_secs]. *)
Definition now_secs : M Z := Tasks.step (fun _ c w => (w, clock c)).

(** A store write that may fail; on failure nothing is written. *)
Definition try_save (c : Choice) (x : StoredWorkload) (w : World) : World * Outcome unit :=
  match io_error c with
  | Some e => (w, Err (err e))
  | None => (set_store (AgentStore.save x (store w)) [Saved x] w, Ok tt)
  end.
Definition try_remove (c : Choice) (id : string) (w : World) : World * Outcome unit :=
  match io_error c with
  | Some e => (w, Err (err e))
  | None => (set_store (AgentStore.remove id (store w)) [Erased id] w, Ok tt)
  end.

Definition store_save (x : StoredWorkload) : M (Outcome unit) := Tasks.step (fun _ c w => try_save c x w).
Definition store_remove (id : string) : M (Outcome unit) := Tasks.step (fun _ c w => try_remove c id w).

(** [runtime_operation]: a call under the timeout, which also covers the wait
    for a permit.  [id] is the workload it is made for, and [answer] selects the
    kind of result the call has. *)
Definition timed_out {A} (operation : string) : Outcome A :=
  Err {| message := operation +:+ " runtime operation timed out"; outcome_unknown := true; busy := None |}.

Definition runtime_operation {A} (id operation : string) (call : RuntimeCall)
    (answer : Choice -> option (Outcome A)) : M (Outcome A) :=
  started ← Tasks.step (fun _ c w =>
    if permit c then (set_store (store w) [Called id operation call] w, true) else (w, false));
  if started : bool then
    Tasks.step (fun _ c w =>
      let r := match answer c with Some r => r | None => timed_out operation end in
      (set_store (store w) [Answered id operation call (is_ok r)] w, r))
  else Tasks.Ret (timed_out operation).

(** ** Mutation guards *)
Definition mutation_with_owner (id : string) (owner : MutationOwner) : M (Outcome unit) :=
  Tasks.step (fun i _ w =>
    ensure! map_len (mutations w) <? MAX_CONFIGURED_WORKLOADS
      else (w, Err (err "workload mutation limit reached")) ;;
    match mutations w !! id with
    | Some (o, _) => (w, Err (busy_error o))
    | None => (set_mutations (<[id := (owner, i)]> (mutations w)) w, Ok tt)
    end).

Definition mutation (id : string) : M (Outcome unit) := mutation_with_owner id Lifecycle.

(** [Drop for MutationGuard]. *)
Definition drop_guard (id : string) : M unit :=
  Tasks.step (fun _ _ w => (set_mutations (delete id (mutations w)) w, tt)).

(** [owner_mutation]: the first poll always runs, and [retries] more fit before
    the timeout. *)
Fixpoint owner_mutation (retries : nat) (id : string) : M (Outcome unit) :=
  r ← mutation id;
  match r with
  | Ok _ => Tasks.Ret (Ok tt)
  | Err e =>
      if bool_decide (busy e = Some Enrollment) then
        match retries with
        | S retries => owner_mutation retries id
        | O => Tasks.Ret (Err (err "timed out waiting for endpoint enrollment to release workload"))
        end
      else Tasks.Ret (Err e)
  end.

(** Dropping a task drops its guards. *)
Definition release (i : nat) (w : World) : World :=
  set_mutations (map_retain (fun _ m => negb (Nat.eqb m.2 i)) (mutations w)) w.

Definition check_replay (operation namespace nonce : string) (expires_at : Z) : M (Outcome unit) :=
  Tasks.step (fun _ c w =>
    let (r, res) := record (replay w) (operation +:+ ":" +:+ namespace +:+ ":" +:+ nonce) expires_at (clock c) in
    (set_replay r w, lift res)).

End World.
End AgentState.
