(* ===== verification/AgentService.v ===== *)
(** * The agent service (podmesh-agent/src/service.rs)

    Admission, deployment, updates, listing, lifecycle commands, restoration
    and enrollment as programs of atomic steps over the shared state of
    AgentState.v.  What one critical section does while it holds the state lock
    is one step; runtime calls and every other wait separate steps. *)

From S2P Require Import Prelude Net OrderedMap Crypto Signed EndpointRecord CapacityProtocol MeshProtocol Identity Registration Biscuit WorkloadIdentity Reconciliation AgentIds ServiceDiscovery Connector AgentMessages AgentControl Tasks AgentStore Policy Sidecar AgentState.

(** What the agent asks of the manifest functions (shared/protocol and
    podmesh-agent/src/sidecar.rs). *)
Class Manifests := {
  validate_and_measure_manifest : bytes -> Result (bytes * ManifestResources);
  inject : bytes -> SidecarInjection -> Result bytes
}.

(** The part of the [WorkloadRuntime] trait that is a plain function: the
    identity a deployment of a workload, namespace and manifest will have. *)
Class WorkloadRuntime := { target_id : string -> string -> bytes -> Result string }.

(** The serializations of everything the agent exchanges. *)
Class AgentCodecs := {
  codec_admission :: Postcard AgentMessages.Admission.AdmissionRequest;
  codec_reservation :: Postcard AgentMessages.Reservation.Reservation;
  codec_spec :: Postcard AgentMessages.Spec.ExecutionSpec;
  codec_grant :: Postcard AgentMessages.Grant.DeploymentGrant;
  codec_receipt :: Postcard AgentMessages.Receipt.DeploymentReceipt;
  codec_update :: Postcard AgentMessages.Update.UpdateRequest;
  codec_update_response :: Postcard AgentMessages.Update.UpdateResponse;
  codec_command :: Postcard AgentMessages.Command.WorkloadCommand;
  codec_command_response :: Postcard AgentMessages.Command.WorkloadCommandResponse;
  codec_list :: Postcard Reconciliation.ListRequest.WorkloadListRequest;
  codec_list_response :: Postcard AgentMessages.Listing.WorkloadListResponse;
  codec_endpoint :: Postcard EndpointRecord.EndpointRecord;
  codec_query :: Postcard Capacity.Query.CapacityQuery;
  codec_offer :: Postcard Capacity.Offer.CapacityOffer;
  codec_hello :: Postcard Mesh.Hello.AgentAttachmentHello;
  codec_catalog :: Postcard Discovery.ServiceCatalog;
  codec_replica :: Postcard Discovery.ReplicaServiceRecord;
  codec_report :: Postcard Connector.ConnectorIdentityReport;
  codec_control :: Postcard AgentControl.AgentControlRequest;
  codec_control_response :: Postcard AgentControl.AgentControlResponse;
  json_delegation :: Json Workload.EnrollmentDelegation;
  json_identity :: Json Workload.WorkloadIdentity;
  json_replica :: Json Discovery.ReplicaServiceRecord;
  json_request :: Json Connector.ConnectorRequest;
  json_response :: Json Connector.ConnectorResponse
}.

Module AgentService.
Import Crypto AgentMessages AgentState.
Import AgentStore (StoredWorkload, StoredWorkloadPhase, Active, Updating, Creating, CleanupPending,
  EnrollmentBinding, STORED_WORKLOAD_VERSION, needs_cleanup, is_updating, is_active_phase,
  set_phase, set_deleting, set_runtime_id, set_resources).
Import AgentIds (AGENT_PROTOCOL_VERSION).
Import EndpointRecord (EndpointRecord, ENDPOINT_RECORD_VERSION, MAX_ENDPOINT_DIRECT_ADDRESSES).
Import Admission (AdmissionRequest).
Import Reservation (Reservation, AdmissionRefusal).
Import Spec (ExecutionSpec).
Import Grant (DeploymentGrant).
Import Receipt (DeploymentReceipt).
Import Update (UpdateRequest, UpdateOutcome, UpdateResponse).
Import Command (WorkloadCommand, WorkloadOperation).

#[local] Existing Instance AgentStore.EnrollmentBinding_eq_dec.
#[local] Existing Instance Workload.delegation_eq_dec.
#[local] Existing Instance Workload.identity_eq_dec.
#[local] Existing Instance Connector.ConnectorError_eq_dec.

Section Service.
Context {I : Iroh} {P : Primitives} {B : Biscuit.BiscuitAuth} {H : Blake3}.
Context {MF : Manifests} {RT : WorkloadRuntime} {CD : AgentCodecs}.
Context (config : Config) (keys : Keys).

Abbreviation M := (Tasks.Prog World Choice).

Definition signing_pubkey_b64 : string := b64_encode (signing_public keys).

(** ** Sealing *)
Definition decrypt {A} `{Postcard A} (body : bytes) : Result A :=
  plaintext ← decrypt_payload_from_recipient_blob body (kem_private keys);
  ok_or (from_postcard plaintext) "postcard".

Definition encrypt {A} `{Postcard A} (value : A) (recipient : string) : M (Outcome bytes) :=
  Tasks.step (fun _ c w =>
    (w, lift (
      recipient ← b64_decode recipient;
      plaintext ← ok_or (to_allocvec value) "postcard";
      encrypt_payload_for_recipient (ephemeral c) (seal_nonce c) recipient plaintext))).

(** ** Records the agent signs *)
Definition signed_endpoint_record (endpoint_address : EndpointAddr) (now expires_at : Z) : Result EndpointRecord :=
  EndpointRecord.sign
    {| EndpointRecord.version := ENDPOINT_RECORD_VERSION;
       EndpointRecord.endpoint_id := id_as_bytes (addr_id endpoint_address);
       EndpointRecord.relay_url := head (addr_relay_urls endpoint_address);
       EndpointRecord.direct_addresses :=
         if bool_decide (advertise_addresses config = [])
         then take (Z.to_nat MAX_ENDPOINT_DIRECT_ADDRESSES) (addr_ip_addrs endpoint_address)
         else take (Z.to_nat MAX_ENDPOINT_DIRECT_ADDRESSES) (advertise_addresses config);
       EndpointRecord.signing_pubkey := "";
       EndpointRecord.issued_at_secs := now;
       EndpointRecord.expires_at_secs := expires_at;
       EndpointRecord.signature := "" |}
    (signing_public keys) (signing_private keys) now.

Definition attachment_hello (endpoint_address : EndpointAddr) (now : Z)
    : M (Outcome Mesh.Hello.AgentAttachmentHello) :=
  let expires_at := now + Mesh.Hello.MAX_AGENT_ATTACHMENT_LIFETIME_SECS in
  agent_endpoint ←! lift (signed_endpoint_record endpoint_address now expires_at);
  Tasks.step (fun _ c w =>
    (set_endpoint_address endpoint_address w,
     lift (Mesh.Hello.sign
       {| Mesh.Hello.version := Mesh.Hello.SCHEDULER_MESH_PROTOCOL_VERSION;
          Mesh.Hello.role := Mesh.Agent;
          Mesh.Hello.agent_endpoint := agent_endpoint;
          Mesh.Hello.nonce := uuid c;
          Mesh.Hello.issued_at_secs := now;
          Mesh.Hello.expires_at_secs := expires_at;
          Mesh.Hello.signing_pubkey := "";
          Mesh.Hello.signature := "" |}
       (signing_public keys) (signing_private keys) now))).

(** ** Capacity offers *)
Definition drop_expired_reservations (now : Z) (s : WorkloadState) : WorkloadState :=
  set_reservations (map_retain (fun _ r => now <=? Reservation.expires_at_secs r) (reservations s)) s.

(** What the agent has left, and whether it can satisfy the query. *)
Definition available (s : WorkloadState) : Z * Z * Z :=
  let u := usage s in
  (saturating_sub (capacity_cpu_milli config) (cpu_milli u),
   saturating_sub (capacity_memory_bytes config) (memory_bytes u),
   saturating_sub (capacity_storage_bytes config) (storage_bytes u)).

Definition can_satisfy (query : Capacity.Query.CapacityQuery) (s : WorkloadState) : bool :=
  let '(available_cpu, available_memory, available_storage) := available s in
  bool_decide (quarantined s = ∅) &&
  (map_len (active s) + map_len (reservations s) <? max_workloads config) &&
  (Capacity.Query.cpu_milli query <=? available_cpu) &&
  (Capacity.Query.memory_bytes query <=? available_memory) &&
  (Capacity.Query.storage_bytes query <=? available_storage).

Definition capabilities : list string := ["multi-workload"].

Definition capacity_offer (query : Capacity.Query.CapacityQuery) (endpoint_address : EndpointAddr) (now : Z)
    : M (Outcome (option Capacity.Offer.CapacityOffer)) :=
  _ ←! lift (Capacity.Query.verify query now);
  if existsb (fun excluded => bool_decide (excluded = id_as_bytes (addr_id endpoint_address)))
       (Capacity.Query.excluded_endpoint_ids query)
  then Tasks.Ret (Ok None) else
  if negb (forallb (fun required => bool_decide (required ∈ capabilities))
       (Capacity.Query.required_capabilities query))
  then Tasks.Ret (Ok None) else
  s ← Tasks.step (fun _ _ w =>
    let s := drop_expired_reservations now (state w) in (set_state s w, s));
  if negb (can_satisfy query s) then Tasks.Ret (Ok None) else
  let '(available_cpu, available_memory, available_storage) := available s in
  let expires_at := now + Capacity.MAX_CAPACITY_OFFER_LIFETIME_SECS in
  agent_endpoint ←! lift (signed_endpoint_record endpoint_address now expires_at);
  offer ←! lift (Capacity.Offer.sign
    {| Capacity.Offer.version := Capacity.CAPACITY_PROTOCOL_VERSION;
       Capacity.Offer.query_id := Capacity.Query.query_id query;
       Capacity.Offer.agent_endpoint := agent_endpoint;
       Capacity.Offer.kem_pubkey := b64_encode (kem_public keys);
       Capacity.Offer.available_cpu_milli :=
         if available_cpu <=? u32_max then available_cpu else capacity_cpu_milli config;
       Capacity.Offer.available_memory_bytes := available_memory;
       Capacity.Offer.available_storage_bytes := available_storage;
       Capacity.Offer.capabilities := capabilities;
       Capacity.Offer.issued_at_secs := now;
       Capacity.Offer.expires_at_secs := expires_at;
       Capacity.Offer.signing_pubkey := "";
       Capacity.Offer.signature := "" |}
    (signing_public keys) (signing_private keys) now);
  Tasks.Ret (Ok (Some offer)).

(** ** Admission *)

(** [u128] arithmetic does not overflow: a capacity is below 2^64 and the share
    at most 100. *)
Definition reserved_capacity_ceiling : ResourceUsage :=
  let share := Z.min (max_reserved_capacity_percent config) 100 in
  let scale := fun capacity => capacity * share / 100 in
  {| cpu_milli := scale (capacity_cpu_milli config);
     memory_bytes := scale (capacity_memory_bytes config);
     storage_bytes := scale (capacity_storage_bytes config) |}.

Definition fits_capacity (u : ResourceUsage) : bool :=
  fits_within u (capacity_cpu_milli config) (capacity_memory_bytes config) (capacity_storage_bytes config).

(** Why an admission is refused: the conditions in the order the reason is
    chosen; [None] when it is accepted. *)
Definition refusal (request : AdmissionRequest) (s : WorkloadState) : option AdmissionRefusal :=
  let cpu := Admission.cpu_milli request in
  let memory := Admission.memory_bytes request in
  let storage := Admission.storage_bytes request in
  let ceiling := reserved_capacity_ceiling in
  if negb (bool_decide (quarantined s = ∅)) then Some Reservation.StateRequiresRepair
  else if contains_workload s (Admission.workload_id request) then Some Reservation.AlreadyActive
  else if negb (map_len (active s) + map_len (reservations s) + set_len (quarantined s) <? max_workloads config)
  then Some Reservation.WorkloadLimit
  else if negb ((map_len (reservations s) <? MAX_RESERVATIONS) &&
                (reservations_for s (Admission.namespace_id request) <? MAX_RESERVATIONS_PER_NAMESPACE))
  then Some Reservation.ReservationLimit
  else if negb (fits_capacity (plus (usage s) cpu memory storage)) then Some Reservation.InsufficientCapacity
  else if negb (fits_within (plus (reserved_usage s) cpu memory storage)
                  (cpu_milli ceiling) (memory_bytes ceiling) (storage_bytes ceiling))
  then Some Reservation.PendingCapacityLimit
  else None.

(** The critical section of [admit_request]. *)
Definition decide_admission (request : AdmissionRequest) (now : Z) (reservation_id : string) (s : WorkloadState)
    : WorkloadState * Outcome Reservation :=
  let s := drop_expired_reservations now s in
  let refused := refusal request s in
  match Reservation.sign
    {| Reservation.version := AGENT_PROTOCOL_VERSION;
       Reservation.reservation_id := reservation_id;
       Reservation.request_id := Admission.request_id request;
       Reservation.namespace_id := Admission.namespace_id request;
       Reservation.workload_id := Admission.workload_id request;
       Reservation.agent_node_id := "";
       Reservation.cpu_milli := Admission.cpu_milli request;
       Reservation.memory_bytes := Admission.memory_bytes request;
       Reservation.storage_bytes := Admission.storage_bytes request;
       Reservation.accepted := negb (Connector.is_some refused);
       Reservation.reason := match refused with Some r => Reservation.as_str r | None => "" end;
       Reservation.expires_at_secs := now + RESERVATION_TTL_SECS;
       Reservation.signature := "" |}
    (signing_public keys) (signing_private keys) with
  | Err e => (s, Err (err e))
  | Ok reservation =>
      (match refused with
       | Some _ => s
       | None => set_reservations (<[Reservation.reservation_id reservation := reservation]> (reservations s)) s
       end, Ok reservation)
  end.

Definition admit_request (request : AdmissionRequest) : M (Outcome bytes) :=
  now ← now_secs;
  _ ←! lift (Admission.verify request now);
  ensure! bool_decide (Admission.target_node_id request = signing_pubkey_b64)
    else Tasks.Ret (Err (err "admission target mismatch")) ;;
  _ ←? check_replay "admission" (Admission.namespace_id request) (Admission.nonce request)
         (Admission.expires_at_secs request);
  reservation ←? Tasks.step (fun _ c w =>
    let (s, r) := decide_admission request now (uuid c) (state w) in (set_state s w, r));
  encrypt reservation (Admission.response_kem_pubkey request).

(** ** Execution specifications and runtime manifests *)
Definition decode_execution (grant : DeploymentGrant) : Result ExecutionSpec :=
  let capsule := Grant.capsule grant in
  dek ← decrypt_payload_from_recipient_blob (Spec.wrapped_dek capsule) (kem_private keys);
  ensure! len dek =? 32 else Err "invalid DEK length" ;;
  plaintext ← decrypt_payload_with_key dek (Spec.capsule_nonce capsule) (Spec.ciphertext capsule);
  spec ← ok_or (from_postcard plaintext : option ExecutionSpec) "postcard";
  _ ← Spec.validate spec;
  namespace ← b64_decode (Grant.namespace_id grant);
  ensure! bool_decide (AgentIds.workload_id namespace (Spec.workload_name spec) (Spec.replica_index spec)
                       = Grant.workload_id grant)
    else Err "workload identity mismatch" ;;
  ensure! bool_decide (AgentIds.revision_id (Spec.manifest spec) = Grant.revision_id grant)
    else Err "revision identity mismatch" ;;
  delegation ← Workload.delegation_from_b64 (Spec.workload_credential_b64 spec);
  _ ← Workload.verify_scope delegation (Grant.namespace_id grant)
        (Registration.route_id namespace (Spec.workload_name spec)) (Grant.workload_id grant)
        (Some signing_pubkey_b64) None;
  ensure! bool_decide (Workload.revision_id (Workload.scope delegation) = Grant.revision_id grant)
    else Err "enrollment revision mismatch" ;;
  Ok spec.

Definition runtime_manifest (workload_id namespace_id : string) (execution : ExecutionSpec)
    : Result (bytes * ManifestResources) :=
  manifest ←
    (if service_mesh_required config then
      inject (Spec.manifest execution)
        {| inj_workload_id := workload_id;
           inj_workload_name := Spec.workload_name execution;
           inj_replica_index := Spec.replica_index execution;
           inj_replica_count := Spec.replica_count execution;
           inj_namespace_id := namespace_id;
           inj_sidecar_image := sidecar_image config;
           inj_proxy_endpoints := Spec.proxy_endpoints execution;
           inj_service_catalog := Spec.service_catalog execution;
           inj_workload_credential_b64 := Spec.workload_credential_b64 execution;
           inj_workload_relay_auth_token := Spec.workload_relay_auth_token execution;
           inj_workload_relay_ca_certificates := Spec.workload_relay_ca_certificates execution;
           inj_metrics_listen := sidecar_metrics_listen config |}
     else Ok (Spec.manifest execution));
  validate_and_measure_manifest manifest.

Definition within (m : ManifestResources) (cpu memory storage : Z) : bool :=
  (res_cpu_milli m <=? cpu) && (res_memory_bytes m <=? memory) && (res_storage_bytes m <=? storage).

Definition receipt (stored : StoredWorkload) (now : Z) : Result DeploymentReceipt :=
  Receipt.sign
    {| Receipt.version := AGENT_PROTOCOL_VERSION;
       Receipt.namespace_id := Grant.namespace_id (AgentStore.grant stored);
       Receipt.workload_id := Grant.workload_id (AgentStore.grant stored);
       Receipt.revision_id := Grant.revision_id (AgentStore.grant stored);
       Receipt.agent_node_id := "";
       Receipt.runtime_id := AgentStore.runtime_id stored;
       Receipt.accepted_at_secs := now;
       Receipt.signature := "" |}
    (signing_public keys) (signing_private keys).

Definition update_response (request : UpdateRequest) (stored : StoredWorkload) (outcome : UpdateOutcome)
    (reason : string) (now : Z) : Result UpdateResponse :=
  rec ← receipt stored now;
  Update.sign_response
    {| Update.response_version := AGENT_PROTOCOL_VERSION;
       Update.response_request_id := Update.request_id request;
       Update.response_expected_revision_id := Update.expected_revision_id request;
       Update.response_requested_revision_id := Update.requested_revision_id request;
       Update.receipt := rec;
       Update.outcome := outcome;
       Update.reason := reason;
       Update.responded_at_secs := now;
       Update.response_signature := "" |}
    (signing_public keys) (signing_private keys).

(** ** Failed deployments *)
Definition uncertain_cleanup (phase : StoredWorkloadPhase) : bool :=
  match phase with CleanupPending false => false | _ => true end.

Definition cleanup_target (stored : StoredWorkload) : Result string :=
  if str_is_empty (AgentStore.runtime_id stored) then
    let grant := AgentStore.grant stored in
    execution ← decode_execution grant;
    '(manifest, _) ← runtime_manifest (Grant.workload_id grant) (Grant.namespace_id grant) execution;
    target_id (Grant.workload_id grant) (Grant.namespace_id grant) manifest
  else Ok (AgentStore.runtime_id stored).

Definition cleanup_pending (stored : StoredWorkload) : M (Outcome unit) :=
  target ←! lift (cleanup_target stored);
  _ ←? runtime_operation (Grant.workload_id (AgentStore.grant stored)) "failed deployment cleanup"
         (CallCleanup target (uncertain_cleanup (AgentStore.phase stored))) unit_answer;
  store_remove (Grant.workload_id (AgentStore.grant stored)).

Definition failed_deploy (stored : StoredWorkload) (uncertain : bool) : M unit :=
  let stored := set_phase (CleanupPending uncertain) stored in
  let id := Grant.workload_id (AgentStore.grant stored) in
  _ ← Tasks.step (fun _ c w => try_save c stored (insert_active id stored w));
  r ← cleanup_pending stored;
  match r with
  | Ok _ => Tasks.step (fun _ _ w => (remove_active id w, tt))
  | Err _ => Tasks.Ret tt
  end.

(** ** Deployment *)

(** The critical section of [deploy]: consume the reservation, plan the
    runtime identity, and persist the workload as being created. *)
Definition begin_deploy (grant : DeploymentGrant) (execution : ExecutionSpec) (now : Z) (c : Choice) (w : World)
    : World * Outcome (StoredWorkload * bytes) :=
  match reservations (state w) !! Grant.reservation_id grant with
  | None => (w, Err (err "reservation not found"))
  | Some reservation =>
      let w := set_state (set_reservations (delete (Grant.reservation_id grant) (reservations (state w))) (state w)) w in
      let planned :=
        _ ← Reservation.verify reservation now;
        ensure! Reservation.accepted reservation &&
                bool_decide (Reservation.namespace_id reservation = Grant.namespace_id grant) &&
                bool_decide (Reservation.workload_id reservation = Grant.workload_id grant)
          else Err "reservation binding mismatch" ;;
        ensure! negb (contains_key (Grant.workload_id grant) (active (state w)))
          else Err "workload is already active" ;;
        '(manifest, measured) ← runtime_manifest (Grant.workload_id grant) (Grant.namespace_id grant) execution;
        ensure! within measured (Reservation.cpu_milli reservation) (Reservation.memory_bytes reservation)
                  (Reservation.storage_bytes reservation)
          else Err "workload resource limits exceed signed reservation" ;;
        planned_id ← target_id (Grant.workload_id grant) (Grant.namespace_id grant) manifest;
        ensure! negb (str_is_empty planned_id) else Err "runtime target is empty" ;;
        Ok ({| AgentStore.version := STORED_WORKLOAD_VERSION;
               AgentStore.phase := Creating;
               AgentStore.grant := grant;
               AgentStore.runtime_id := planned_id;
               AgentStore.deleting := false;
               AgentStore.cpu_milli := Reservation.cpu_milli reservation;
               AgentStore.memory_bytes := Reservation.memory_bytes reservation;
               AgentStore.storage_bytes := Reservation.storage_bytes reservation;
               AgentStore.workload_name := Spec.workload_name execution;
               AgentStore.replica_index := Spec.replica_index execution;
               AgentStore.replica_count := Spec.replica_count execution |}, manifest) in
      match planned with
      | Err e => (w, Err (err e))
      | Ok (stored, manifest) =>
          let (w, saved) := try_save c stored w in
          match saved with
          | Err e => (w, Err e)
          | Ok _ => (insert_active (Grant.workload_id grant) stored w, Ok (stored, manifest))
          end
      end
  end.

(** What [deploy] does under the workload's guard; it answers when the
    deployment was accepted and the runtime's identity of the workload. *)
Definition deploy_guarded (grant : DeploymentGrant) (execution : ExecutionSpec) : M (Outcome (Z * string)) :=
  now ← now_secs;
  _ ←! lift (Grant.verify grant now);
  '(stored, manifest) ←? Tasks.step (fun _ c w => begin_deploy grant execution now c w);
  r ← runtime_operation (Grant.workload_id grant) "deploy"
        (CallDeploy (Grant.workload_id grant) (Grant.namespace_id grant) manifest) text_answer;
  match r with
  | Err e => _ ← failed_deploy stored (outcome_unknown e); Tasks.Ret (Err e)
  | Ok runtime_id =>
      if bool_decide (runtime_id <> AgentStore.runtime_id stored) then
        _ ← failed_deploy stored true;
        Tasks.Ret (Err (err "runtime returned an unexpected workload identity; repair required"))
      else
        let stored := set_phase Active stored in
        saved ← store_save stored;
        match saved with
        | Err e => _ ← failed_deploy stored false; Tasks.Ret (Err e)
        | Ok _ =>
            Tasks.step (fun _ _ w => (insert_active (Grant.workload_id grant) stored w, Ok (now, runtime_id)))
        end
  end.

(** [guarded id p]: [p] under the guard of [id], which is dropped on every way
    out.  [retries] bounds the wait for the guard. *)
Definition guarded {A} (retries : nat) (id : string) (p : M (Outcome A)) : M (Outcome A) :=
  _ ←? owner_mutation retries id;
  r ← p;
  _ ← drop_guard id;
  Tasks.Ret r.

Definition deploy_inner (retries : nat) (grant : DeploymentGrant) : M (Outcome bytes) :=
  now ← now_secs;
  _ ←! lift (Grant.verify grant now);
  ensure! bool_decide (Grant.target_node_id grant = signing_pubkey_b64)
    else Tasks.Ret (Err (err "deployment target mismatch")) ;;
  _ ←? check_replay "deploy" (Grant.namespace_id grant) (Grant.nonce grant) (Grant.expires_at_secs grant);
  execution ←! lift (decode_execution grant);
  _ ←! lift (validate_and_measure_manifest (Spec.manifest execution));
  '(now, runtime_id) ←? guarded retries (Grant.workload_id grant) (deploy_guarded grant execution);
  receipt ←! lift (Receipt.sign
    {| Receipt.version := AGENT_PROTOCOL_VERSION;
       Receipt.namespace_id := Grant.namespace_id grant;
       Receipt.workload_id := Grant.workload_id grant;
       Receipt.revision_id := Grant.revision_id grant;
       Receipt.agent_node_id := "";
       Receipt.runtime_id := runtime_id;
       Receipt.accepted_at_secs := now;
       Receipt.signature := "" |}
    (signing_public keys) (signing_private keys));
  encrypt receipt (Grant.response_kem_pubkey grant).

(** ** Updates *)

(** What the critical section of [update] decides. *)
Inductive UpdatePlan :=
| Answer (response : UpdateResponse)
| Transition (active : StoredWorkload).

Definition owned (id namespace_id : string) (s : WorkloadState) : option StoredWorkload :=
  match active s !! id with
  | Some stored =>
      if bool_decide (Grant.namespace_id (AgentStore.grant stored) = namespace_id) then Some stored else None
  | None => None
  end.

Definition begin_update (request : UpdateRequest) (execution : ExecutionSpec) (now : Z) (c : Choice) (w : World)
    : World * Outcome UpdatePlan :=
  let id := Update.workload_id request in
  match owned id (Update.namespace_id request) (state w) with
  | None => (w, Err (err "workload not found"))
  | Some active =>
      ensure! negb (AgentStore.deleting active) && is_active_phase (AgentStore.phase active) &&
              negb (str_is_empty (AgentStore.runtime_id active))
        else (w, Err (err "workload is not active")) ;;
      if bool_decide (Grant.revision_id (AgentStore.grant active) = Update.requested_revision_id request) &&
         negb (Update.refresh_service_mesh request)
      then (w, lift (response ← update_response request active Update.AlreadyActive "" now; Ok (Answer response))) else
      ensure! bool_decide (Spec.workload_name execution = AgentStore.workload_name active) &&
              (Spec.replica_index execution =? AgentStore.replica_index active) &&
              (Spec.replica_count execution =? AgentStore.replica_count active)
        else (w, Err (err "update cannot change workload identity or replica count")) ;;
      if negb (bool_decide (Grant.revision_id (AgentStore.grant active) = Update.expected_revision_id request)) ||
         negb (is_active_phase (AgentStore.phase active))
      then (w, lift (response ← update_response request active Update.Conflict
                       "stored revision does not match expected revision" now; Ok (Answer response))) else
      ensure! fits_capacity (plus (usage_without (state w) id) (Update.cpu_milli request)
                (Update.memory_bytes request) (Update.storage_bytes request))
        else (w, Err (err "updated workload exceeds agent capacity")) ;;
      let transitioning :=
        set_phase (Updating (AgentStore.grant active) (AgentStore.runtime_id active) request)
          (set_resources (Update.cpu_milli request) (Update.memory_bytes request)
             (Update.storage_bytes request) active) in
      let (w, saved) := try_save c transitioning w in
      match saved with
      | Err e => (w, Err e)
      | Ok _ => (insert_active id transitioning w, Ok (Transition active))
      end
  end.

(** Deploying the previous revision again after a failed update. *)
Definition rollback (active : StoredWorkload) : M (Outcome unit) :=
  let grant := AgentStore.grant active in
  previous ←! lift (decode_execution grant);
  '(manifest, _) ←! lift (runtime_manifest (Grant.workload_id grant) (Grant.namespace_id grant) previous);
  _ ←? runtime_operation (Grant.workload_id grant) "update rollback"
         (CallDeploy (Grant.workload_id grant) (Grant.namespace_id grant) manifest) text_answer;
  _ ←? store_save active;
  Tasks.step (fun _ _ w => (insert_active (Grant.workload_id grant) active w, Ok tt)).

Definition updated_workload (request : UpdateRequest) (execution : ExecutionSpec) (runtime_id : string)
    : StoredWorkload :=
  {| AgentStore.version := STORED_WORKLOAD_VERSION;
     AgentStore.phase := Active;
     AgentStore.grant := Update.grant request;
     AgentStore.runtime_id := runtime_id;
     AgentStore.deleting := false;
     AgentStore.cpu_milli := Update.cpu_milli request;
     AgentStore.memory_bytes := Update.memory_bytes request;
     AgentStore.storage_bytes := Update.storage_bytes request;
     AgentStore.workload_name := Spec.workload_name execution;
     AgentStore.replica_index := Spec.replica_index execution;
     AgentStore.replica_count := Spec.replica_count execution |}.

(** What [update] does under the guard: a sealed answer, or the updated
    workload to answer for once the guard is dropped. *)
Definition update_guarded (request : UpdateRequest) (execution : ExecutionSpec)
    : M (Outcome (bytes + Z * StoredWorkload)) :=
  let id := Update.workload_id request in
  now ← now_secs;
  _ ←! lift (Update.verify request now);
  _ ←! lift (validate_and_measure_manifest (Spec.manifest execution));
  '(manifest, measured) ←! lift (runtime_manifest id (Update.namespace_id request) execution);
  ensure! within measured (Update.cpu_milli request) (Update.memory_bytes request) (Update.storage_bytes request)
    else Tasks.Ret (Err (err "updated workload resource limits exceed signed request")) ;;
  plan ←? Tasks.step (fun _ c w => begin_update request execution now c w);
  match plan with
  | Answer response =>
      sealed ←? encrypt response (Update.response_kem_pubkey request);
      Tasks.Ret (Ok (inl sealed))
  | Transition active =>
      r ← runtime_operation id "update" (CallDeploy id (Update.namespace_id request) manifest) text_answer;
      match r with
      | Err e => _ ← rollback active; Tasks.Ret (Err e)
      | Ok runtime_id =>
          let updated := updated_workload request execution runtime_id in
          _ ←? store_save updated;
          Tasks.step (fun _ _ w => (insert_active id updated w, Ok (inr (now, updated))))
      end
  end.

Definition update_inner (retries : nat) (request : UpdateRequest) : M (Outcome bytes) :=
  now ← now_secs;
  _ ←! lift (Update.verify request now);
  ensure! bool_decide (Update.target_node_id request = signing_pubkey_b64)
    else Tasks.Ret (Err (err "update target mismatch")) ;;
  _ ←? check_replay "update" (Update.namespace_id request) (Update.nonce request) (Update.expires_at_secs request);
  execution ←! lift (decode_execution (Update.grant request));
  answer ←? guarded retries (Update.workload_id request) (update_guarded request execution);
  match answer with
  | inl sealed => Tasks.Ret (Ok sealed)
  | inr (now, updated) =>
      response ←! lift (update_response request updated Update.Applied "" now);
      encrypt response (Update.response_kem_pubkey request)
  end.

(** ** Listing *)
Definition summary_state (stored : StoredWorkload) : string :=
  if needs_cleanup stored then "cleanup-required"
  else if AgentStore.deleting stored then "deleting"
  else if is_updating (AgentStore.phase stored) then "updating"
  else if str_is_empty (AgentStore.runtime_id stored) then "starting"
  else "deployed".

Definition summarize (now : Z) (stored : StoredWorkload) : Result Listing.WorkloadSummary :=
  rec ← receipt stored now;
  let grant := AgentStore.grant stored in
  Ok {| Listing.workload_id := Grant.workload_id grant;
        Listing.workload_name := AgentStore.workload_name stored;
        Listing.revision_id := Grant.revision_id grant;
        Listing.replica_index := AgentStore.replica_index stored;
        Listing.replica_count := AgentStore.replica_count stored;
        Listing.state := summary_state stored;
        Listing.deploying_since_secs := Grant.issued_at_secs grant;
        Listing.receipt := rec |}.

(** [collect::<Result<Vec<_>>>()]. *)
Fixpoint collect {A B} (f : A -> Result B) (l : list A) : Result (list B) :=
  match l with
  | [] => Ok []
  | a :: l => b ← f a; bs ← collect f l; Ok (b :: bs)
  end.

Definition owned_workloads (namespace_id : string) (s : WorkloadState) : list StoredWorkload :=
  List.filter (fun stored => bool_decide (Grant.namespace_id (AgentStore.grant stored) = namespace_id))
    (map_to_list (active s)).*2.

Definition list_inner (request : Reconciliation.ListRequest.WorkloadListRequest) : M (Outcome bytes) :=
  now ← now_secs;
  _ ←! lift (Reconciliation.ListRequest.verify request now);
  _ ←? check_replay "list" (Reconciliation.ListRequest.namespace_id request)
         (Reconciliation.ListRequest.nonce request) (Reconciliation.ListRequest.expires_at_secs request);
  workloads ←? Tasks.step (fun _ _ w =>
    (w, lift (collect (summarize now)
                (owned_workloads (Reconciliation.ListRequest.namespace_id request) (state w)))));
  address ← Tasks.step (fun _ _ w => (w, current_endpoint_address w));
  endpoint_address ←! lift (ok_or address "agent has no active scheduler attachment record");
  agent_endpoint ←! lift (signed_endpoint_record endpoint_address now
                            (now + Mesh.Hello.MAX_AGENT_ATTACHMENT_LIFETIME_SECS));
  response ←! lift (Listing.sign
    {| Listing.version := AGENT_PROTOCOL_VERSION;
       Listing.request_id := Reconciliation.ListRequest.request_id request;
       Listing.agent_node_id := "";
       Listing.agent_endpoint := agent_endpoint;
       Listing.agent_kem_pubkey := b64_encode (kem_public keys);
       Listing.workloads := workloads;
       Listing.responded_at_secs := now;
       Listing.signature := "" |}
    (signing_public keys) (signing_private keys));
  encrypt response (Reconciliation.ListRequest.response_kem_pubkey request).

(** ** Lifecycle commands *)
Definition is_delete (operation : WorkloadOperation) : bool :=
  match operation with Command.Delete => true | _ => false end.

Definition lookup_owned (id namespace_id : string) : M (Outcome StoredWorkload) :=
  Tasks.step (fun _ _ w => (w, lift (ok_or (owned id namespace_id (state w)) "workload not found"))).

(** The report a connector answered, checked, and passed on as text. *)
Definition connector_text (command : WorkloadCommand) (challenge : bytes) (missing : string)
    (response : Connector.ConnectorResponse) (now : Z) : Result string :=
  _ ← Connector.validate_response response;
  identity ← ok_or (Connector.identity response) missing;
  _ ← Connector.verify_report identity (Command.namespace_id command) (Command.workload_id command) challenge now;
  b ← Connector.response_to_bytes response;
  ok_or (Net.from_utf8 b) "invalid utf-8 sequence".

(** Setting [deleting] of the entry in place. *)
Definition mark_deleting (id : string) (d : bool) (w : World) : World * Outcome StoredWorkload :=
  match active (state w) !! id with
  | None => (w, Err (err "workload not found"))
  | Some current => let current := set_deleting d current in (insert_active id current w, Ok current)
  end.

(** Deleting a workload that runs.  The outer outcome is that of the handler,
    the inner one is reported to the owner. *)
Definition delete_running (id : string) (active : StoredWorkload) : M (Outcome (Outcome string)) :=
  deleting ←? Tasks.step (fun _ _ w => mark_deleting id true w);
  saved ← store_save deleting;
  match saved with
  | Err e =>
      _ ← Tasks.step (fun _ _ w => mark_deleting id false w);
      Tasks.Ret (Err e)
  | Ok _ =>
      deleted ← (if str_is_empty (AgentStore.runtime_id active) then Tasks.Ret (Ok tt)
                 else runtime_operation id "delete" (CallDelete (AgentStore.runtime_id active)) unit_answer);
      match deleted with
      | Ok _ =>
          _ ←? store_remove id;
          Tasks.step (fun _ _ w => (remove_active id w, Ok (Ok "deleted")))
      | Err e =>
          _ ←? store_save active;
          Tasks.step (fun _ _ w => (insert_active id active w, Ok (Err e)))
      end
  end.

Definition execute (command : WorkloadCommand) (active : StoredWorkload) : M (Outcome (Outcome string)) :=
  let id := Command.workload_id command in
  let operation := Command.operation command in
  if is_delete operation && needs_cleanup active then
    r ← cleanup_pending active;
    match r with
    | Ok _ => Tasks.step (fun _ _ w => (remove_active id w, Ok (Ok "deleted")))
    | Err e => Tasks.Ret (Ok (Err e))
    end
  else if needs_cleanup active then
    Tasks.Ret (Ok (Err (err "workload requires cleanup; creation may be incomplete")))
  else if AgentStore.deleting active && negb (is_delete operation) then
    Tasks.Ret (Ok (Err (err "workload is deleting")))
  else if is_updating (AgentStore.phase active) then
    Tasks.Ret (Ok (Err (err "workload is updating")))
  else if negb (is_delete operation) && str_is_empty (AgentStore.runtime_id active) then
    Tasks.Ret (Ok (Err (err "workload is starting")))
  else
  match operation with
  | Command.Status =>
      r ← runtime_operation id "status" (CallStatus (AgentStore.runtime_id active)) text_answer;
      Tasks.Ret (Ok r)
  | Command.ConnectorInspect =>
      let challenge := Connector.inspection_challenge (Command.nonce command) in
      r ← runtime_operation id "connector inspect"
            (CallExchange (AgentStore.runtime_id active) (Connector.inspect challenge)) connector_answer;
      match r with
      | Err e => Tasks.Ret (Ok (Err e))
      | Ok response =>
          Tasks.step (fun _ c w =>
            (w, Ok (lift (connector_text command challenge "workload connector is unavailable" response (clock c)))))
      end
  | Command.SeedPeer record =>
      now ← now_secs;
      _ ←! lift (Discovery.verify_record record (Command.namespace_id command) now);
      let challenge := Connector.inspection_challenge (Command.nonce command) in
      response ←? runtime_operation id "peer seed delivery"
        (CallExchange (AgentStore.runtime_id active) (Connector.seed challenge record)) connector_answer;
      now ← now_secs;
      text ←! lift (connector_text command challenge "peer seed delivery was refused" response now);
      Tasks.Ret (Ok (Ok text))
  | Command.Logs =>
      r ← runtime_operation id "logs"
            (CallLogs (AgentStore.runtime_id active) (default 100 (Command.log_tail command))) text_answer;
      Tasks.Ret (Ok r)
  | Command.Delete => delete_running id active
  end.

Definition respond (command : WorkloadCommand) (now : Z) (result : Outcome string) : M (Outcome bytes) :=
  response ←! lift (Command.sign_response
    {| Command.response_version := AGENT_PROTOCOL_VERSION;
       Command.response_request_id := Command.request_id command;
       Command.response_workload_id := Command.workload_id command;
       Command.agent_node_id := "";
       Command.ok := is_ok result;
       Command.payload := match result with Ok payload => payload | Err e => message e end;
       Command.responded_at_secs := now;
       Command.signature := "" |}
    (signing_public keys) (signing_private keys));
  encrypt response (Command.response_kem_pubkey command).

Definition command (retries : nat) (command : WorkloadCommand) : M (Outcome bytes) :=
  let id := Command.workload_id command in
  now ← now_secs;
  _ ←! lift (Command.verify command now);
  ensure! bool_decide (Command.target_node_id command = signing_pubkey_b64)
    else Tasks.Ret (Err (err "command target mismatch")) ;;
  _ ←? check_replay "command" (Command.namespace_id command) (Command.nonce command)
         (Command.expires_at_secs command);
  active ←? lookup_owned id (Command.namespace_id command);
  if is_delete (Command.operation command) then
    guarded retries id (
      t ← now_secs;
      _ ←! lift (Command.verify command t);
      active ←? lookup_owned id (Command.namespace_id command);
      result ←? execute command active;
      respond command now result)
  else
    result ←? execute command active;
    respond command now result.

(** ** Restoration *)

(** [anyhow]'s [context]: what is displayed changes, the causes stay. *)
Definition context {A} (m : string) (r : Outcome A) : Outcome A :=
  match r with
  | Ok a => Ok a
  | Err e => Err {| message := m; outcome_unknown := outcome_unknown e; busy := busy e |}
  end.

Definition set_restored (request : UpdateRequest) (execution : ExecutionSpec) (runtime_id : string)
    (stored : StoredWorkload) : StoredWorkload :=
  {| AgentStore.version := AgentStore.version stored;
     AgentStore.phase := Active;
     AgentStore.grant := Update.grant request;
     AgentStore.runtime_id := runtime_id;
     AgentStore.deleting := AgentStore.deleting stored;
     AgentStore.cpu_milli := Update.cpu_milli request;
     AgentStore.memory_bytes := Update.memory_bytes request;
     AgentStore.storage_bytes := Update.storage_bytes request;
     AgentStore.workload_name := Spec.workload_name execution;
     AgentStore.replica_index := Spec.replica_index execution;
     AgentStore.replica_count := Spec.replica_count execution |}.

(** Completing an update that a restart interrupted. *)
Definition restore_update (stored : StoredWorkload) (request : UpdateRequest) : M (Outcome (option StoredWorkload)) :=
  let id := Grant.workload_id (AgentStore.grant stored) in
  execution ←! context "decrypt interrupted update for restart" (lift (decode_execution (Update.grant request)));
  '(manifest, measured) ←! lift (runtime_manifest id (Update.namespace_id request) execution);
  ensure! within measured (Update.cpu_milli request) (Update.memory_bytes request) (Update.storage_bytes request)
    else Tasks.Ret (Err (err "interrupted update exceeds signed resource limits")) ;;
  runtime_id ←? runtime_operation id "update reconciliation"
                  (CallDeploy id (Update.namespace_id request) manifest) text_answer;
  let stored := set_restored request execution runtime_id stored in
  _ ←? store_save stored;
  Tasks.Ret (Ok (Some stored)).

Definition remove_enrollment_step (id : string) : M (Outcome unit) :=
  Tasks.step (fun _ c w =>
    match io_error c with
    | Some e => (w, Err (err e))
    | None => (set_store (AgentStore.remove_enrollment id (store w)) [] w, Ok tt)
    end).

(** Deploying again a workload the runtime no longer has. *)
Definition restore_missing (stored : StoredWorkload) : M (Outcome (option StoredWorkload)) :=
  let grant := AgentStore.grant stored in
  let id := Grant.workload_id grant in
  execution ←! context "decrypt persisted workload for restart" (lift (decode_execution grant));
  '(manifest, measured) ←! lift (runtime_manifest id (Grant.namespace_id grant) execution);
  ensure! within measured (AgentStore.cpu_milli stored) (AgentStore.memory_bytes stored)
            (AgentStore.storage_bytes stored)
    else Tasks.Ret (Err (err "persisted workload resource limits exceed reservation")) ;;
  _ ←? remove_enrollment_step id;
  runtime_id ←? runtime_operation id "reconciliation deploy"
                  (CallDeploy id (Grant.namespace_id grant) manifest) text_answer;
  let stored := set_runtime_id runtime_id stored in
  saved ← store_save stored;
  match saved with
  | Err e =>
      _ ← runtime_operation id "reconciliation cleanup" (CallDelete runtime_id) unit_answer;
      Tasks.Ret (Err e)
  | Ok _ => Tasks.Ret (Ok (Some stored))
  end.

Definition restore_one (stored : StoredWorkload) : M (Outcome (option StoredWorkload)) :=
  let id := Grant.workload_id (AgentStore.grant stored) in
  let runtime_id := AgentStore.runtime_id stored in
  if needs_cleanup stored then
    _ ←? cleanup_pending stored;
    Tasks.Ret (Ok None)
  else if AgentStore.deleting stored then
    _ ←? (if str_is_empty runtime_id then Tasks.Ret (Ok tt)
          else runtime_operation id "reconciliation delete" (CallDelete runtime_id) unit_answer);
    _ ←? store_remove id;
    Tasks.Ret (Ok None)
  else
  match AgentStore.phase stored with
  | Updating _ _ request => restore_update stored request
  | _ =>
      running ← (if str_is_empty runtime_id then Tasks.Ret (Err (err ""))
                 else runtime_operation id "reconciliation status" (CallStatus runtime_id) text_answer);
      if is_ok running then Tasks.Ret (Ok (Some stored)) else restore_missing stored
  end.

(** The loop of [restore_inner]: what it keeps and what it quarantines. *)
Fixpoint restore_loop (workloads : list (string * Result StoredWorkload))
    (active : gmap string StoredWorkload) (quarantined : gset string)
    : M (gmap string StoredWorkload * gset string) :=
  match workloads with
  | [] => Tasks.Ret (active, quarantined)
  | (id, Err _) :: workloads => restore_loop workloads active ({[id]} ∪ quarantined)
  | (id, Ok stored) :: workloads =>
      r ← restore_one stored;
      match r with
      | Ok (Some restored) => restore_loop workloads (<[id := restored]> active) quarantined
      | Ok None => restore_loop workloads active quarantined
      | Err _ => restore_loop workloads (<[id := stored]> active) quarantined
      end
  end.

Definition restore_inner : M (Outcome unit) :=
  workloads ←? Tasks.step (fun _ c w =>
    (w, match io_error c with Some e => Err (err e) | None => Ok (AgentStore.load_all (store w)) end));
  ensure! len workloads <=? max_workloads config
    else Tasks.Ret (Err (err "persisted workload count exceeds configured maximum")) ;;
  '(active, quarantined) ← restore_loop workloads ∅ ∅;
  let restored := {| active := active; reservations := ∅; quarantined := quarantined |} in
  ensure! fits_capacity (usage restored)
    else Tasks.Ret (Err (err "persisted workloads exceed configured resource capacity")) ;;
  Tasks.step (fun _ _ w => (set_state restored w, Ok tt)).

(** ** Enrollment (service/enrollment.rs) *)

(** The checks on a report's keys against the binding on record. *)
Definition check_binding (existing : option EnrollmentBinding) (binding : EnrollmentBinding) : Result unit :=
  match existing with
  | Some e =>
      if bool_decide (AgentStore.delegation_digest e = AgentStore.delegation_digest binding) then
        ensure! bool_decide (e = binding)
          else Err "enrolled workload keys changed; owner generation update required" ;;
        Ok tt
      else Ok tt
  | None => Ok tt
  end.

Definition load_enrollment_step (id : string) : M (Outcome (option EnrollmentBinding)) :=
  Tasks.step (fun _ c w =>
    (w, match io_error c with
        | Some e => Err (err e)
        | None => lift (AgentStore.load_enrollment id (store w))
        end)).

Definition save_enrollment_step (b : EnrollmentBinding) : M (Outcome unit) :=
  Tasks.step (fun _ c w =>
    match io_error c with
    | Some e => (w, Err (err e))
    | None => (set_store (AgentStore.save_enrollment b (store w)) [] w, Ok tt)
    end).

(** Whether the identity the workload already holds can stay, and if so that it
    is good for this session. *)
Definition renewal_due (report : Connector.ConnectorIdentityReport) (delegation : Workload.EnrollmentDelegation)
    (now : Z) : option Workload.WorkloadIdentity :=
  match Connector.report_credential report with
  | Some current =>
      if bool_decide (Workload.delegation current = delegation) &&
         (saturating_add u64_max now Workload.IDENTITY_RENEWAL_WINDOW_SECS
            <? Workload.claims_expires_at_secs (Workload.claims current))
      then Some current else None
  | None => None
  end.

(** Minting an identity for the bound keys and installing it. *)
Definition install_identity (stored : StoredWorkload) (delegation : Workload.EnrollmentDelegation)
    (binding : EnrollmentBinding) (challenge : bytes) (now : Z) : M (Outcome unit) :=
  let grant := AgentStore.grant stored in
  let lifetime := Z.min Workload.DEFAULT_IDENTITY_LIFETIME_SECS
                    (Workload.max_child_lifetime_secs (Workload.scope delegation)) in
  identity ←! lift (Workload.mint_identity (signing_private keys) delegation
    (AgentStore.binding_endpoint_id binding) (AgentStore.signing_public_key_b64 binding) now lifetime);
  installed ←? runtime_operation (Grant.workload_id grant) "identity installation"
    (CallExchange (AgentStore.runtime_id stored) (Connector.install challenge identity)) connector_answer;
  _ ←! lift (Connector.validate_response installed);
  report ←! lift (ok_or (Connector.identity installed) "identity installation was refused");
  now ← now_secs;
  _ ←! lift (Connector.verify_report report (Grant.namespace_id grant) (Grant.workload_id grant) challenge now);
  ensure! bool_decide (Connector.report_credential report = Some identity)
    else Tasks.Ret (Err (err "identity installation acknowledgement mismatch")) ;;
  Tasks.Ret (Ok tt).

Definition enroll_stored (stored : StoredWorkload) : M (Outcome unit) :=
  let grant := AgentStore.grant stored in
  ensure! is_active_phase (AgentStore.phase stored) && negb (AgentStore.deleting stored) &&
          negb (str_is_empty (AgentStore.runtime_id stored))
    else Tasks.Ret (Err (err "workload is not enrollment-ready")) ;;
  execution ←! lift (decode_execution grant);
  delegation ←! lift (Workload.delegation_from_b64 (Spec.workload_credential_b64 execution));
  namespace ←! lift (b64_decode (Grant.namespace_id grant));
  now ← now_secs;
  _ ←! lift (Workload.verify_scope delegation (Grant.namespace_id grant)
               (Registration.route_id namespace (AgentStore.workload_name stored)) (Grant.workload_id grant)
               (Some signing_pubkey_b64) (Some now));
  challenge ← Tasks.step (fun _ c w => (w, Connector.inspection_challenge (secure_nonce c)));
  response ←? runtime_operation (Grant.workload_id grant) "enrollment inspection"
    (CallExchange (AgentStore.runtime_id stored) (Connector.inspect challenge)) connector_answer;
  _ ←! lift (Connector.validate_response response);
  ensure! negb (bool_decide (Connector.error response = Some Connector.Unsupported))
    else Tasks.Ret (Err (err "connector enrollment unsupported")) ;;
  report ←! lift (ok_or (Connector.identity response) "connector enrollment unavailable");
  now ← now_secs;
  _ ←! lift (Connector.verify_report report (Grant.namespace_id grant) (Grant.workload_id grant) challenge now);
  digest ←! lift (Workload.digest delegation);
  let binding :=
    {| AgentStore.binding_workload_id := Grant.workload_id grant;
       AgentStore.delegation_digest := digest;
       AgentStore.binding_endpoint_id := Discovery.endpoint_hex (Connector.report_endpoint report);
       AgentStore.signing_public_key_b64 := EndpointRecord.signing_pubkey (Connector.report_endpoint report) |} in
  existing ←? load_enrollment_step (Grant.workload_id grant);
  _ ←! lift (check_binding existing binding);
  _ ←? (if bool_decide (existing = Some binding) then Tasks.Ret (Ok tt) else save_enrollment_step binding);
  now ← now_secs;
  match renewal_due report delegation now with
  | Some current =>
      key ←! lift (b64_decode (AgentStore.signing_public_key_b64 binding));
      Tasks.Ret (lift (Workload.verify_session current (Grant.namespace_id grant)
        (Workload.scope_manifest_id (Workload.scope delegation)) (AgentStore.binding_endpoint_id binding) key now))
  | None => install_identity stored delegation binding challenge now
  end.

(** One replica of [refresh_enrollments]: each runs concurrently with the
    others and holds the workload's guard. *)
Definition enroll_one (id : string) : M unit :=
  r ← mutation_with_owner id Enrollment;
  match r with
  | Err _ => Tasks.Ret tt
  | Ok _ =>
      stored ← Tasks.step (fun _ _ w => (w, active (state w) !! id));
      _ ← match stored with
          | Some stored => _ ← enroll_stored stored; Tasks.Ret tt
          | None => Tasks.Ret tt
          end;
      drop_guard id
  end.

(** The replicas a refresh goes through. *)
Definition refresh_ids (w : World) : list string :=
  if service_mesh_required config then (map_to_list (active (state w))).*1 else [].

(** ** Control dispatch (machine/control.rs) *)
Definition dispatch (retries : nat) (frame : bytes) : M (Outcome bytes) :=
  request ←! lift (AgentControl.request_from_bytes frame);
  let payload := AgentControl.request_payload request in
  match AgentControl.operation request with
  | AgentControl.Admission => message ←! lift (decrypt payload); admit_request message
  | AgentControl.Deploy => message ←! lift (decrypt payload); deploy_inner retries message
  | AgentControl.Update => message ←! lift (decrypt payload); update_inner retries message
  | AgentControl.Command => message ←! lift (decrypt payload); command retries message
  | AgentControl.List =>
      now ← now_secs;
      message ←! lift (Reconciliation.ListRequest.from_bytes payload now);
      list_inner message
  end.

(** What [accept_inner] writes back. *)
Definition control_response (r : Outcome bytes) : AgentControl.AgentControlResponse :=
  match r with Ok payload => AgentControl.success payload | Err _ => AgentControl.rejected end.

Definition serve (retries : nat) (frame : bytes) : M (Outcome bytes) :=
  r ← dispatch retries frame;
  Tasks.Ret (lift (AgentControl.response_to_bytes (control_response r))).

End Service.
End AgentService.
