(* ===== verification/Deployed.v ===== *)
(** * What reaches the container runtime

    The manifest functions and the Podman runtime as the instances the agent
    service runs with, and what follows for every manifest it deploys: the
    document comes from the owner, carries the sidecar, breaks no rule of the
    policy, and names a pod that depends on the workload only. *)

From S2P Require Import Prelude Net OrderedMap Crypto Signed Quantities RustOrd EndpointRecord CapacityProtocol MeshProtocol Identity Registration Biscuit WorkloadIdentity Reconciliation AgentIds ServiceDiscovery Connector AgentMessages AgentControl Tasks AgentStore Manifest Rego Policy Confinement ServiceManifest NetDisplay Sidecar AgentState AgentService.

Module Deployed.
Import Crypto Manifest Sidecar.

Section Instances.
Context {P : Primitives} {H : Blake3} {B : Biscuit.BiscuitAuth} {I : Iroh} {Y : YamlSupport} {E : RegoEngine}.
Context {CD : AgentCodecs} {JM : Json SidecarMetadata}.

#[export] Instance manifests : Manifests :=
  {| AgentService.validate_and_measure_manifest := Policy.validate_and_measure_manifest;
     AgentService.inject := Sidecar.inject |}.

(** [PodmanRuntime::target_id]. *)
#[export] Instance podman : WorkloadRuntime := {| target_id _ _ manifest := pod_name manifest |}.

Context {L : YamlLaws} {K : ConversionLaws}.

(** ** The name of the deployed pod *)
Lemma get_mutate_field field d k : k <> "spec" -> Yaml.get (Policy.mutate_field field d) k = Yaml.get d k.
Proof.
  intros Hk. unfold Policy.mutate_field. destruct (_ ≫= Policy.pod_path) as [path|] eqn:Hp; [|done].
  assert (exists rest, path = "spec" :: rest) as [rest ->].
  { destruct (Policy.kind_of d) as [kind|]; [|done]. cbn in Hp. unfold Policy.pod_path in Hp.
    repeat case_bool_decide; try done; injection Hp as <-; by eexists. }
  cbn. by rewrite Yaml.get_update, bool_decide_false.
Qed.

Lemma get_mutate d k : k <> "spec" -> Yaml.get (Policy.mutate_document_defaults d) k = Yaml.get d k.
Proof. intros Hk. cbn. by rewrite !get_mutate_field. Qed.

Lemma yaml_name sidecar name v0 v y : injected sidecar name v0 v -> yaml_of_json v = Ok y ->
  (metadata ← Yaml.get y "metadata"; n ← Yaml.get metadata "name"; Yaml.as_str n) = Some name.
Proof.
  intros Hi Hy. pose proof (inj_name _ _ _ _ Hi) as Hn. cbn in Hn.
  pose proof (yaml_of_json_get v y "metadata" Hy) as Hm. destruct (Json.get v "metadata") as [m|]; [|done].
  destruct Hm as (z & Hz & ->). cbn. pose proof (yaml_of_json_get m z "name" Hz) as Hg.
  destruct (Json.get m "name") as [x|]; [|done]. injection Hn as ->. destruct Hg as (u & Hu & ->). cbn.
  by rewrite (yaml_of_json_str _ _ Hu).
Qed.

Lemma pod_name_ok sidecar name v0 v y out t :
  injected sidecar name v0 v -> yaml_of_json v = Ok y ->
  parse_yaml_documents_from_slice out = Ok [Policy.mutate_document_defaults y] ->
  pod_name out = Ok t -> t = name \/ t = name +:+ "-pod".
Proof.
  intros Hi Hy Hout. unfold pod_name. rewrite Hout, Signed.bind_eq. cbn [List.find].
  destruct (yaml_has_pod_spec _); [|done]. intros Ht. apply Quantities.bind_result in Ht as (x & [= <-] & Ht).
  apply Quantities.bind_result in Ht as (n & Hn & Ht). rewrite Quantities.ok_or_ok, get_mutate in Hn by done.
  rewrite (yaml_name _ _ _ _ _ Hi Hy) in Hn. injection Hn as <-. destruct (_ && _); [|done]. injection Ht as <-.
  destruct (yaml_is_pod _); [by left|by right].
Qed.

(** What the sidecar of a replica is told: the owner's key, the replica, the
    manifest the owner signed for, and the means to enroll. *)
Definition sidecar_told (namespace_id : string) (owner : bytes) (execution : AgentMessages.Spec.ExecutionSpec) : SidecarMetadata :=
  {| workload_name := AgentMessages.Spec.workload_name execution;
     manifest_id := Registration.route_id owner (AgentMessages.Spec.workload_name execution);
     replica_index := AgentMessages.Spec.replica_index execution;
     replica_count := AgentMessages.Spec.replica_count execution;
     manifest_b64 := b64_encode (AgentMessages.Spec.manifest execution);
     owner_public_key_b64 := namespace_id;
     proxy_endpoints := AgentMessages.Spec.proxy_endpoints execution;
     service_catalog := AgentMessages.Spec.service_catalog execution;
     workload_credential_b64 := AgentMessages.Spec.workload_credential_b64 execution;
     workload_relay_auth_token := AgentMessages.Spec.workload_relay_auth_token execution;
     workload_relay_ca_certificates := AgentMessages.Spec.workload_relay_ca_certificates execution |}.

Lemma deployed_spec (config : AgentState.Config) (id namespace_id : string)
    (execution : AgentMessages.Spec.ExecutionSpec) (out : bytes) (r : ManifestResources) :
  AgentState.service_mesh_required config = true ->
  AgentService.runtime_manifest config id namespace_id execution = Ok (out, r) ->
  exists owner blob sidecar docs d v0 v y d',
    parse_yaml_documents_from_slice (AgentMessages.Spec.manifest execution) = Ok docs /\ d ∈ docs /\ json_of_yaml d = Ok v0 /\
    injected sidecar (workload_runtime_name id) v0 v /\
    b64_decode namespace_id = Ok owner /\ validate (sidecar_told namespace_id owner execution) = Ok tt /\
    to_json (sidecar_told namespace_id owner execution) = Some blob /\
    is_sidecar (AgentState.sidecar_image config) (b64_encode blob) sidecar /\
    Confinement.confined_document v /\
    yaml_of_json v = Ok y /\ Policy.is_pod_document y /\
    parse_yaml_documents_from_slice out = Ok [d'] /\ Policy.document_defaulted y d' /\
    forall t, target_id id namespace_id out = Ok t ->
      t = workload_runtime_name id \/ t = workload_runtime_name id +:+ "-pod".
Proof.
  intros Hmesh Hr. unfold AgentService.runtime_manifest in Hr. rewrite Hmesh in Hr.
  apply Quantities.bind_result in Hr as (manifest & Hi & Hr).
  destruct (inject_ok _ _ _ Hi) as (owner & blob & docs & d & v0 & v & y & Ho & Hval & Hblob & Hdocs & Hd & Hv0 & Hinj & Hy & Hparse).
  destruct (Policy.measured_spec _ _ _ Hr) as (docs' & ms & Hdocs' & Hshape & Hrules & Hout & _).
  rewrite Hparse in Hdocs'. injection Hdocs' as <-.
  assert (Policy.is_pod_document y) as Hpod.
  { destruct Hshape as ([|? []] & pod & after & Heq & Hp & _); try done. by injection Heq as -> _. }
  apply Forall_singleton in Hrules as (input & Hinput & Hv). rewrite (json_yaml_roundtrip _ _ Hy) in Hinput. injection Hinput as <-.
  eexists owner, blob, _, docs, d, v0, v, y, _. split_and!; [exact Hdocs|exact Hd|exact Hv0|exact Hinj|exact Ho|exact Hval|exact Hblob
    |apply container_is_sidecar|by apply Confinement.document_confined|exact Hy|exact Hpod|exact Hout
    |apply Policy.document_defaults|]. intros t. by eapply pod_name_ok.
Qed.

Lemma deployed_target config id namespace_id execution out r t :
  AgentState.service_mesh_required config = true ->
  AgentService.runtime_manifest config id namespace_id execution = Ok (out, r) ->
  target_id id namespace_id out = Ok t -> t = workload_runtime_name id \/ t = workload_runtime_name id +:+ "-pod".
Proof. intros Hm Hr. destruct (deployed_spec _ _ _ _ _ _ Hm Hr) as (? & ? & ? & ? & ? & ? & ? & ? & ? & Hall). apply Hall. Qed.

(** C5. What an agent that requires the service mesh deploys.  Every manifest it
    hands to the runtime is one document: a document of the owner's manifest in
    which the pod is named after the workload, the sidecar is added to containers
    none of which has its name, and nothing else is changed but the default
    limits and requests that containers without them are given.  The sidecar runs
    the configured image, may add NET_ADMIN, and is told exactly what the
    execution specification says of this replica, which is valid for it; the
    policy confines the document, and the runtime can only be told to act on the pod with the
    workload's own name. *)
Theorem deployed_pod (config : AgentState.Config) (id namespace_id : string)
    (execution : AgentMessages.Spec.ExecutionSpec) (out : bytes) (r : ManifestResources) :
  AgentState.service_mesh_required config = true ->
  AgentService.runtime_manifest config id namespace_id execution = Ok (out, r) ->
  exists owner blob sidecar docs d v0 v y d',
    parse_yaml_documents_from_slice (AgentMessages.Spec.manifest execution) = Ok docs /\ d ∈ docs /\ json_of_yaml d = Ok v0 /\
    injected sidecar (workload_runtime_name id) v0 v /\
    b64_decode namespace_id = Ok owner /\ validate (sidecar_told namespace_id owner execution) = Ok tt /\
    to_json (sidecar_told namespace_id owner execution) = Some blob /\
    is_sidecar (AgentState.sidecar_image config) (b64_encode blob) sidecar /\
    Confinement.confined_document v /\
    yaml_of_json v = Ok y /\ Policy.is_pod_document y /\
    parse_yaml_documents_from_slice out = Ok [d'] /\ Policy.document_defaulted y d' /\
    forall t, target_id id namespace_id out = Ok t ->
      t = workload_runtime_name id \/ t = workload_runtime_name id +:+ "-pod".
Proof. apply deployed_spec. Qed.

(** ** Pods of different workloads *)
Lemma append_length (a b : string) : String.length (a +:+ b) = (String.length a + String.length b)%nat.
Proof. induction a as [|c a IH]; [done|]. exact (f_equal S IH). Qed.

Lemma append_inj_r (a b s : string) : a +:+ s = b +:+ s -> String.length a = String.length b -> a = b.
Proof.
  revert b. induction a as [|c a IH]; intros [|c' b]; try done. cbn. intros [= -> Heq] [= Hlen]. f_equal. by apply IH.
Qed.

Lemma substring_length n (s : string) : (n <= String.length s)%nat -> String.length (String.substring 0 n s) = n.
Proof. revert s. induction n as [|n IH]; intros [|c s] Hn; cbn in *; try lia. f_equal. apply IH. lia. Qed.

Definition DIGEST_LEN : nat := 51.

Lemma runtime_name_eq id :
  workload_runtime_name id = RUNTIME_NAME_PREFIX +:+ String.substring 0 DIGEST_LEN (blake3_hex (as_bytes id)).
Proof. reflexivity. Qed.

(** C39. No workload takes the target of another, on an agent that requires the
    service mesh.  When the runtime is given the same target for two
    deployments, of any owners and from any manifests, the digests of the two
    workload identities agree in their first 51 digits: a target is the
    workload's name, or that name and [-pod], which cannot be confused because
    all names have the same length. *)
Theorem targets_isolated (config : AgentState.Config) (id1 id2 ns1 ns2 : string)
    (execution1 execution2 : AgentMessages.Spec.ExecutionSpec) (out1 out2 : bytes) (r1 r2 : ManifestResources) (t : string) :
  (forall x, String.length (blake3_hex x) = 64%nat) ->
  AgentState.service_mesh_required config = true ->
  AgentService.runtime_manifest config id1 ns1 execution1 = Ok (out1, r1) ->
  AgentService.runtime_manifest config id2 ns2 execution2 = Ok (out2, r2) ->
  target_id id1 ns1 out1 = Ok t -> target_id id2 ns2 out2 = Ok t ->
  String.substring 0 DIGEST_LEN (blake3_hex (as_bytes id1)) = String.substring 0 DIGEST_LEN (blake3_hex (as_bytes id2)).
Proof.
  intros Hlen Hmesh H1 H2 T1 T2.
  assert (forall id, String.length (workload_runtime_name id) = 59%nat) as Hn.
  { intros id. rewrite runtime_name_eq, append_length, substring_length; [done|rewrite Hlen; unfold DIGEST_LEN; lia]. }
  apply (deployed_target _ _ _ _ _ _ _ Hmesh H1) in T1. apply (deployed_target _ _ _ _ _ _ _ Hmesh H2) in T2.
  assert (workload_runtime_name id1 = workload_runtime_name id2) as Heq.
  { destruct T1 as [->|T1], T2 as [T2|T2]; [done|..].
    - apply (f_equal String.length) in T2. rewrite append_length, !Hn in T2. done.
    - rewrite T2 in T1. apply (f_equal String.length) in T1. rewrite append_length, !Hn in T1. done.
    - rewrite T1 in T2. apply (append_inj_r _ _ "-pod"); [done|by rewrite !Hn]. }
  rewrite !runtime_name_eq in Heq. by injection Heq.
Qed.
End Instances.
End Deployed.
