(* ===== verification/AgentReplay.v ===== *)
(** * The agent's replay cache (podmesh-agent/src/service.rs)

    What [ReplayCache::record] promises: the cache is bounded and consistent, a
    message is refused while the cache remembers it, and how long that is
    compared with how long the message itself stays acceptable. *)

From S2P Require Import Prelude Net OrderedMap Crypto Signed AgentIds AgentMessages AgentState.

Module AgentReplay.
Import AgentState.

(** The queue lists the remembered keys, at most [MAX_REPLAY_ENTRIES] of them. *)
Definition cache_ok (c : ReplayCache) : Prop :=
  ordered (seen c) (order c) /\ len (order c) <= MAX_REPLAY_ENTRIES.

Lemma empty_cache_ok : cache_ok empty_cache.
Proof. split; [apply ordered_empty|done]. Qed.

(** The loop drops a prefix of the queue, keeps the cache consistent and keeps
    what has not expired. *)
Lemma drop_expired_spec m q now :
  ordered m q ->
  exists dropped,
    q = dropped ++ order (drop_expired m q now) /\
    ordered (seen (drop_expired m q now)) (order (drop_expired m q now)) /\
    (forall k e, m !! k = Some e -> now <= e -> seen (drop_expired m q now) !! k = Some e) /\
    (forall k e, seen (drop_expired m q now) !! k = Some e -> m !! k = Some e).
Proof.
  revert m. induction q as [|o q IH]; intros m Ho; cbn [drop_expired].
  { by exists []. }
  destruct (ordered_head _ _ _ Ho) as [x Hx]. rewrite Hx.
  destruct (Z.ltb_spec x now) as [Hlt|Hge]; [|by exists []].
  destruct (IH _ (ordered_pop _ _ _ Ho)) as (d & Hq & Ho' & Hkeep & Hold).
  exists (o :: d). split_and!; [cbn; congruence|done| |].
  - intros k e Hk Hle. apply Hkeep; [|done]. rewrite lookup_delete_ne; [done|]. intros ->. simplify_eq. lia.
  - intros k e Hk. by apply Hold, lookup_delete_Some in Hk as [_ ?].
Qed.

Lemma drop_expired_len m q now : ordered m q -> len (order (drop_expired m q now)) <= len q.
Proof.
  intros Ho. destruct (drop_expired_spec m q now Ho) as (d & Hq & _).
  rewrite Hq at 2. unfold len. rewrite length_app. lia.
Qed.

(** Making room keeps the cache consistent and leaves a free place. *)
Lemma evict_oldest_spec (c : ReplayCache) :
  cache_ok c ->
  ordered (seen (evict_oldest c)) (order (evict_oldest c)) /\ len (order (evict_oldest c)) < MAX_REPLAY_ENTRIES /\
  (forall k, seen c !! k = None -> seen (evict_oldest c) !! k = None).
Proof.
  intros [Ho Hl]. unfold evict_oldest.
  destruct (Z.leb_spec MAX_REPLAY_ENTRIES (len (order c))) as [Hge|Hlt]; [|by split_and!].
  destruct (order c) as [|o q] eqn:Hq; [by unfold len in Hge|]. cbn [order seen].
  split_and!; [by eapply ordered_pop| |].
  - unfold len in *. cbn in *. lia.
  - intros k Hk. rewrite lookup_delete_None. by right.
Qed.

Lemma record_cache_ok c key expires now : cache_ok c -> cache_ok (record c key expires now).1.
Proof.
  intros [Ho Hl]. unfold record.
  destruct (drop_expired_spec _ _ now Ho) as (d & _ & Ho' & _). pose proof (drop_expired_len _ _ now Ho) as Hl'.
  set (c1 := drop_expired (seen c) (order c) now) in *.
  destruct (contains_key key (seen c1)) eqn:Hk; cbn [negb]; [split; [done|cbn; lia]|].
  destruct (evict_oldest_spec c1) as (H1 & H2 & H3); [split; [done|lia]|].
  cbn [fst]. split; cbn [seen order].
  - apply ordered_push; [done|]. apply H3. apply eq_None_not_Some. rewrite <- contains_key_true. congruence.
  - unfold len in *. rewrite length_app. cbn. lia.
Qed.

(** Recording a sequence of messages. *)
Definition record_all (c : ReplayCache) (l : list (string * Z * Z)) : ReplayCache :=
  fold_left (fun c x => (record c x.1.1 x.1.2 x.2).1) l c.

(** A remembered key, with at most [n] younger ones behind it. *)
Definition remembers (c : ReplayCache) (key : string) (expires n : Z) : Prop :=
  cache_ok c /\ seen c !! key = Some expires /\ exists pre post, order c = pre ++ key :: post /\ len post <= n.

Lemma record_refuses c key expires n expires' now :
  remembers c key expires n -> now <= expires -> (record c key expires' now).2 = Err "replayed request".
Proof.
  intros ([Ho _] & Hs & _) Hnow. unfold record.
  destruct (drop_expired_spec _ _ now Ho) as (d & _ & _ & Hkeep & _).
  assert (contains_key key (seen (drop_expired (seen c) (order c) now)) = true) as ->; [|done].
  apply contains_key_true. rewrite (Hkeep _ _ Hs Hnow). by eexists.
Qed.

Lemma drop_expired_remembers c key expires n now :
  remembers c key expires n -> now <= expires ->
  remembers (drop_expired (seen c) (order c) now) key expires n.
Proof.
  intros ([Ho Hl] & Hs & pre & post & Hq & Hn) Hnow.
  destruct (drop_expired_spec _ _ now Ho) as (d & Hd & Ho' & Hkeep & _).
  pose proof (drop_expired_len _ _ now Ho). split; [split; [done|lia]|]. split; [by apply Hkeep|].
  assert (key ∈ order (drop_expired (seen c) (order c) now)) as Hin.
  { apply Ho'. rewrite (Hkeep _ _ Hs Hnow). by eexists. }
  apply list_elem_of_split in Hin as (p & q & Hpq). exists p, q. split; [done|].
  rewrite Hpq, app_assoc, Hq in Hd. apply NoDup_split_unique in Hd as [_ ->]; [done|].
  destruct Ho as [Hnd _]. by rewrite Hq in Hnd.
Qed.

Lemma record_remembers c key expires n key' expires' now :
  remembers c key expires n -> now <= expires -> n + 1 < MAX_REPLAY_ENTRIES ->
  remembers (record c key' expires' now).1 key expires (n + 1).
Proof.
  intros Hr Hnow Hn. pose proof (record_cache_ok c key' expires' now (proj1 Hr)) as Hok.
  apply (drop_expired_remembers _ _ _ _ now) in Hr; [|done]. unfold record in *.
  set (c1 := drop_expired (seen c) (order c) now) in *.
  destruct Hr as (Hok1 & Hs & pre & post & Hq & Hlen).
  destruct (contains_key key' (seen c1)) eqn:Hk; cbn [negb fst] in *.
  { split_and!; [done..|]. exists pre, post. split; [done|lia]. }
  assert (key' <> key) as Hne. { intros ->. assert (contains_key key (seen c1) = true) by (apply contains_key_true; by eexists). congruence. }
  split; [done|]. cbn [seen order]. rewrite lookup_insert_ne by done.
  unfold evict_oldest. destruct (MAX_REPLAY_ENTRIES <=? len (order c1)) eqn:Hfull.
  - apply Z.leb_le in Hfull. destruct pre as [|p pre].
    { rewrite Hq in Hfull. unfold len in *. cbn in Hfull. lia. }
    rewrite Hq. cbn [app seen order]. split.
    + rewrite lookup_delete_ne; [done|]. intros ->. destruct Hok1 as [[Hnd _] _]. rewrite Hq in Hnd. cbn in Hnd.
      apply NoDup_cons in Hnd as [Hni _]. apply Hni, elem_of_app. right. left.
    + exists pre, (post ++ [key']). rewrite <- app_assoc. split; [done|]. unfold len in *. rewrite length_app. cbn. lia.
  - split; [done|]. exists pre, (post ++ [key']). rewrite Hq, <- app_assoc. split; [done|].
    unfold len in *. rewrite length_app. cbn. lia.
Qed.

Lemma record_all_remembers l c key expires n :
  remembers c key expires n -> n + len l < MAX_REPLAY_ENTRIES -> Forall (fun x => x.2 <= expires) l ->
  remembers (record_all c l) key expires (n + len l).
Proof.
  revert c n. induction l as [|x l IH]; intros c n Hr Hn Ht; cbn [record_all fold_left].
  { unfold len. cbn. by rewrite Z.add_0_r. }
  apply Forall_cons in Ht as [Hx Ht].
  assert (len (x :: l) = 1 + len l) as Hl by (unfold len; cbn; lia).
  assert (0 <= len l) by (unfold len; lia). rewrite Hl, Z.add_assoc.
  apply IH; [|lia|done]. apply record_remembers; [done|done|lia].
Qed.

(** An owner's message cannot be acted on twice before it expires: once its
    key is recorded, recording it again is refused at every time up to its
    expiry, whatever other messages come between, as long as they are fewer
    than the cache holds. *)
Theorem recorded_message_refused (c c' : ReplayCache) (key : string) (expires expires' t t' : Z)
    (between : list (string * Z * Z)) :
  cache_ok c -> record c key expires t = (c', Ok tt) -> len between < MAX_REPLAY_ENTRIES ->
  Forall (fun x => x.2 <= expires) between -> t' <= expires ->
  cache_ok (record_all c' between) /\
  (record (record_all c' between) key expires' t').2 = Err "replayed request".
Proof.
  intros Hok Hr Hb Ht Ht'.
  assert (remembers c' key expires 0) as Hm.
  { pose proof (record_cache_ok c key expires t Hok) as Hok'. rewrite Hr in Hok'. split; [done|].
    unfold record in Hr. destruct (contains_key _ _); cbn [negb] in Hr; [done|]. injection Hr as <-. cbn [seen order].
    split; [apply lookup_insert_eq|]. eexists _, []. split; [done|]. by unfold len. }
  apply (record_all_remembers between) in Hm; [|lia|done]. split; [apply Hm|]. by eapply record_refuses.
Qed.

Definition sample_cache : ReplayCache := (record empty_cache "command:a:1" 160 100).1.

Lemma recorded_message_refused_witness :
  (record (record_all sample_cache [("command:a:2", 170, 110)]) "command:a:1" 160 160).2 = Err "replayed request".
Proof.
  apply (recorded_message_refused empty_cache sample_cache "command:a:1" 160 160 100 160 [("command:a:2", 170, 110)]).
  - apply empty_cache_ok.
  - vm_compute. reflexivity.
  - vm_compute. reflexivity.
  - repeat constructor. vm_compute. discriminate.
  - lia.
Defined.

Section Window.
Import Crypto.
Context {P : Primitives} {C : Postcard AgentMessages.Command.WorkloadCommand}.
Import AgentMessages Command.

Definition command_key (r : WorkloadCommand) : string :=
  "command" +:+ ":" +:+ namespace_id r +:+ ":" +:+ nonce r.

(** The cache forgets a command as soon as it has expired: a second delivery
    after that is recorded as a new message. *)
Lemma expired_command_forgotten (r : WorkloadCommand) (t1 t2 : Z) :
  expires_at_secs r < t2 ->
  exists c1 c2,
    record empty_cache (command_key r) (expires_at_secs r) t1 = (c1, Ok tt) /\
    record c1 (command_key r) (expires_at_secs r) t2 = (c2, Ok tt).
Proof.
  intros Hlate.
  exists {| seen := <[command_key r := expires_at_secs r]> ∅; order := [command_key r] |}. eexists.
  split; [reflexivity|].
  unfold record. cbn [seen order app drop_expired]. rewrite lookup_insert_eq.
  apply Z.ltb_lt in Hlate. rewrite Hlate. cbn [drop_expired seen order]. rewrite delete_insert_eq.
  reflexivity.
Qed.
End Window.

Module Sample.
Import Crypto Toy AgentMessages Command.

#[local] Instance command_codec : Postcard WorkloadCommand :=
  {| to_allocvec := fun r => Some (String.list_byte_of_string (nonce r)); from_postcard := fun _ => None |}.

Definition unsigned_command : WorkloadCommand := {|
  version := 1; request_id := "r"; namespace_id := b64_encode (ed_public (sample_key 1));
  workload_id := Net.of_chars (replicate 64 (Ascii.ascii_of_byte Byte.x61)); target_node_id := b64_encode (sample_key 2);
  operation := Delete; log_tail := None; response_kem_pubkey := b64_encode (sample_key 3);
  issued_at_secs := 100; expires_at_secs := 160; nonce := "n"; owner_signature := "" |}.

Definition delete_command : WorkloadCommand :=
  match sign unsigned_command (sample_key 1) with Ok r => r | Err _ => unsigned_command end.

Lemma delete_command_accepted : verify delete_command 120 = Ok tt /\ verify delete_command 200 = Ok tt.
Proof. vm_compute. split; reflexivity. Qed.

(** A command stays acceptable for a minute of clock skew after it expires, so
    that in this minute it passes both the verification and the cache again. *)
Lemma expired_command_replayed :
  verify delete_command 120 = Ok tt /\ verify delete_command 200 = Ok tt /\
  exists c1 c2,
    record empty_cache (command_key delete_command) 160 120 = (c1, Ok tt) /\
    record c1 (command_key delete_command) 160 200 = (c2, Ok tt).
Proof.
  split_and!; [apply delete_command_accepted..|]. apply (expired_command_forgotten delete_command 120 200). by vm_compute.
Qed.
End Sample.
End AgentReplay.
