(* ===== verification/AgentUsage.v ===== *)
(** * Resource accounting of the agent (podmesh-agent/src/service.rs)

    The usage the agent computes with saturating additions is the saturated sum
    of what its workloads and reservations hold.  From this follow the facts the
    capacity invariant needs about each change of the workload state. *)

From S2P Require Import Prelude AgentMessages AgentStore AgentState AgentService.

Module AgentUsage.
Import AgentMessages AgentState.
Import AgentStore (StoredWorkload).
Import Reservation (Reservation).

(** What an entry holds. *)
Record nonneg (cpu memory storage : Z) : Prop := {
  cpu_nonneg : 0 <= cpu;
  memory_nonneg : 0 <= memory;
  storage_nonneg : 0 <= storage
}.
Definition workload_nonneg (x : StoredWorkload) : Prop :=
  nonneg (AgentStore.cpu_milli x) (AgentStore.memory_bytes x) (AgentStore.storage_bytes x).
Definition reservation_nonneg (r : Reservation) : Prop :=
  nonneg (Reservation.cpu_milli r) (Reservation.memory_bytes r) (Reservation.storage_bytes r).

(** The saturated sums of [u] and the measures over a map. *)
Definition plus_sums {V} (c m s : V -> Z) (u : ResourceUsage) (l : gmap string V) : ResourceUsage :=
  {| cpu_milli := Z.min u64_max (cpu_milli u + map_sum c l);
     memory_bytes := Z.min u64_max (memory_bytes u + map_sum m l);
     storage_bytes := Z.min u64_max (storage_bytes u + map_sum s l) |}.

Definition usage_small (u : ResourceUsage) : Prop :=
  cpu_milli u <= u64_max /\ memory_bytes u <= u64_max /\ storage_bytes u <= u64_max.

Lemma usage_eq (u v : ResourceUsage) :
  cpu_milli u = cpu_milli v -> memory_bytes u = memory_bytes v -> storage_bytes u = storage_bytes v -> u = v.
Proof. destruct u, v. cbn. congruence. Qed.

(** Adding up the entries of a map other than [skip]. *)
Lemma fold_add {V} (c m s : V -> Z) (keep : string -> bool) (skip : option string) (u : ResourceUsage)
    (l : gmap string V) :
  (forall k, keep k = bool_decide (Some k <> skip)) ->
  (forall k v, l !! k = Some v -> nonneg (c v) (m v) (s v)) -> usage_small u ->
  map_fold (fun k v u => if keep k then add u (c v) (m v) (s v) else u) u l =
  plus_sums c m s u (match skip with Some k => delete k l | None => l end).
Proof.
  intros Hkeep Hl Hu. induction l as [|k v l Hk IH] using map_ind.
  { rewrite map_fold_empty. assert (match skip with Some k => delete k ∅ | None => ∅ end = (∅ : gmap string V)) as ->
      by (destruct skip; [apply delete_empty|done]).
    destruct Hu as (? & ? & ?). apply usage_eq; cbn; rewrite map_sum_empty; lia. }
  pose proof (Hl k v (lookup_insert_eq _ _ _)) as [].
  assert (forall j x, l !! j = Some x -> nonneg (c x) (m x) (s x)) as Hl'.
  { intros j x Hj. apply (Hl j). rewrite lookup_insert_ne; [done|congruence]. }
  rewrite map_fold_insert_L; [|clear IH|done].
  2:{ intros j1 j2 z1 z2 y _ Hz1 Hz2. apply Hl in Hz1 as [], Hz2 as [].
      destruct (keep j1), (keep j2); try done. unfold add, saturating_add. apply usage_eq; cbn; lia. }
  rewrite (IH Hl'), Hkeep. case_bool_decide as Hs.
  - assert (match skip with Some j => delete j (<[k:=v]> l) | None => <[k:=v]> l end =
            <[k:=v]> match skip with Some j => delete j l | None => l end) as ->.
    { destruct skip; [|done]. rewrite delete_insert_ne; congruence. }
    unfold add, saturating_add, plus_sums.
    apply usage_eq; cbn; (rewrite map_sum_insert_new; [lia|]);
      (destruct skip as [j|]; [rewrite lookup_delete_ne by congruence|]); done.
  - destruct skip as [j|]; [|done]. assert (j = k) as -> by (destruct (decide (k = j)); congruence).
    rewrite delete_insert_eq. by rewrite !delete_id by done.
Qed.

(** ** The sums of a state *)
Definition total (f : StoredWorkload -> Z) (g : Reservation -> Z) (s : WorkloadState) : Z :=
  map_sum f (active s) + map_sum g (reservations s).

Record state_nonneg (s : WorkloadState) : Prop := {
  active_nonneg id x : active s !! id = Some x -> workload_nonneg x;
  reservations_nonneg id r : reservations s !! id = Some r -> reservation_nonneg r
}.

Lemma active_usage_sum (s : WorkloadState) :
  state_nonneg s ->
  active_usage s = plus_sums AgentStore.cpu_milli AgentStore.memory_bytes AgentStore.storage_bytes no_usage (active s).
Proof.
  intros Hs. unfold active_usage. by rewrite <- (fold_add _ _ _ (fun _ => true) None); [|done|apply Hs|by vm_compute].
Qed.

Lemma reserved_usage_sum (s : WorkloadState) :
  state_nonneg s ->
  reserved_usage s =
  plus_sums Reservation.cpu_milli Reservation.memory_bytes Reservation.storage_bytes no_usage (reservations s).
Proof.
  intros Hs. unfold reserved_usage. by rewrite <- (fold_add _ _ _ (fun _ => true) None); [|done|apply Hs|by vm_compute].
Qed.

Lemma usage_without_sum (s : WorkloadState) (id : string) :
  state_nonneg s ->
  usage_without s id =
  plus_sums AgentStore.cpu_milli AgentStore.memory_bytes AgentStore.storage_bytes (reserved_usage s)
    (delete id (active s)).
Proof.
  intros Hs. unfold usage_without, add_workload.
  rewrite <- (fold_add _ _ _ (fun k => bool_decide (k <> id)) (Some id)); [done| |apply Hs|].
  - intros k. repeat case_bool_decide; congruence.
  - rewrite reserved_usage_sum by done. unfold usage_small, plus_sums. cbn. lia.
Qed.

(** The sums of a state after each kind of change. *)
Lemma map_sum_insert_le {V} (f : V -> Z) (l : gmap string V) k v :
  (forall j x, l !! j = Some x -> 0 <= f x) -> map_sum f (<[k:=v]> l) <= map_sum f l + f v.
Proof.
  intros Hf. destruct (l !! k) as [x|] eqn:Hk.
  - rewrite (map_sum_insert_old _ _ _ _ _ Hk). pose proof (Hf _ _ Hk). lia.
  - rewrite map_sum_insert_new by done. lia.
Qed.

Lemma map_sum_delete_le {V} (f : V -> Z) (l : gmap string V) k :
  (forall j x, l !! j = Some x -> 0 <= f x) -> map_sum f (delete k l) <= map_sum f l.
Proof.
  intros Hf. destruct (l !! k) as [x|] eqn:Hk; [|by rewrite delete_id].
  rewrite (map_sum_delete _ _ _ _ Hk). pose proof (Hf _ _ Hk). lia.
Qed.

Lemma map_sum_retain_le {V} (f : V -> Z) (p : string -> V -> bool) (l : gmap string V) :
  (forall j x, l !! j = Some x -> 0 <= f x) -> map_sum f (map_retain p l) <= map_sum f l.
Proof.
  induction l as [|k v l Hk IH] using map_ind; intros Hf.
  { unfold map_retain. by rewrite map_filter_empty. }
  assert (forall j x, l !! j = Some x -> 0 <= f x) as Hf'.
  { intros j x Hj. apply (Hf j). rewrite lookup_insert_ne; [done|congruence]. }
  specialize (IH Hf'). pose proof (Hf k v (lookup_insert_eq _ _ _)).
  rewrite (map_sum_insert_new f l) by done. unfold map_retain in *.
  destruct (p k v) eqn:Hp.
  - rewrite map_filter_insert_True by (cbn; by rewrite Hp). rewrite map_sum_insert_new; [lia|].
    apply map_lookup_filter_None. by left.
  - rewrite map_filter_insert_False by (cbn; by rewrite Hp). rewrite delete_id by done. lia.
Qed.

Section Capacity.
Context (config : Config).

Record config_ok : Prop := {
  cpu_width : 0 <= capacity_cpu_milli config <= u32_max;
  memory_width : 0 <= capacity_memory_bytes config <= u64_max;
  storage_width : 0 <= capacity_storage_bytes config <= u64_max
}.

Definition total_cpu := total AgentStore.cpu_milli Reservation.cpu_milli.
Definition total_memory := total AgentStore.memory_bytes Reservation.memory_bytes.
Definition total_storage := total AgentStore.storage_bytes Reservation.storage_bytes.

(** Everything running or reserved fits the agent's capacity.  Sums at or above
    the largest [u64] count as that number. *)
Record cap_ok (s : WorkloadState) : Prop := {
  cap_cpu : total_cpu s <= capacity_cpu_milli config;
  cap_memory : Z.min u64_max (total_memory s) <= capacity_memory_bytes config;
  cap_storage : Z.min u64_max (total_storage s) <= capacity_storage_bytes config
}.

Lemma cap_mono (s s' : WorkloadState) :
  total_cpu s' <= total_cpu s -> total_memory s' <= total_memory s -> total_storage s' <= total_storage s ->
  cap_ok s -> cap_ok s'.
Proof. intros ? ? ? []. split; lia. Qed.

Context (Hconfig : config_ok).

Lemma u_bounds : 0 < u32_max < u64_max.
Proof. by vm_compute. Qed.

Lemma sums_nonneg (s : WorkloadState) :
  state_nonneg s ->
  (0 <= map_sum AgentStore.cpu_milli (active s) /\ 0 <= map_sum Reservation.cpu_milli (reservations s)) /\
  (0 <= map_sum AgentStore.memory_bytes (active s) /\ 0 <= map_sum Reservation.memory_bytes (reservations s)) /\
  (0 <= map_sum AgentStore.storage_bytes (active s) /\ 0 <= map_sum Reservation.storage_bytes (reservations s)).
Proof.
  intros [Ha Hr]. split_and!; apply map_sum_nonneg; intros k v Hk; first [apply Ha in Hk|apply Hr in Hk]; apply Hk.
Qed.

(** What the checks of [admit_request] and [update] establish. *)
Lemma admission_fits (s : WorkloadState) (c m t : Z) :
  state_nonneg s -> cap_ok s -> nonneg c m t ->
  AgentService.fits_capacity config (plus (usage s) c m t) = true ->
  total_cpu s + c <= capacity_cpu_milli config /\
  Z.min u64_max (total_memory s + m) <= capacity_memory_bytes config /\
  Z.min u64_max (total_storage s + t) <= capacity_storage_bytes config.
Proof.
  intros Hs [Hc Hm Ht] [? ? ?]. pose proof u_bounds. destruct Hconfig as [? ? ?].
  destruct (sums_nonneg s Hs) as ((? & ?) & (? & ?) & (? & ?)).
  unfold AgentService.fits_capacity, fits_within, usage, plus, add, saturating_add.
  rewrite active_usage_sum, reserved_usage_sum by done. unfold plus_sums, to_u32, no_usage. cbn [cpu_milli memory_bytes storage_bytes].
  unfold total_cpu, total_memory, total_storage, total in *.
  remember u64_max as M eqn:HM. remember u32_max as N eqn:HN. clear HM HN.
  rewrite !andb_true_iff, !Z.leb_le. intros [[Fc Fm] Ft].
  split_and!; [clear Fm Ft Hm Ht|clear Fc Ft Hc Ht|clear Fc Fm Hc Hm]; [|lia..].
  case_match eqn:Hb; [apply Z.leb_le in Hb|apply Z.leb_gt in Hb]; lia.
Qed.

Lemma update_fits (s : WorkloadState) (id : string) (c m t : Z) :
  state_nonneg s -> nonneg c m t ->
  AgentService.fits_capacity config (plus (usage_without s id) c m t) = true ->
  map_sum AgentStore.cpu_milli (delete id (active s)) + map_sum Reservation.cpu_milli (reservations s) + c
    <= capacity_cpu_milli config /\
  Z.min u64_max (map_sum AgentStore.memory_bytes (delete id (active s)) +
                 map_sum Reservation.memory_bytes (reservations s) + m) <= capacity_memory_bytes config /\
  Z.min u64_max (map_sum AgentStore.storage_bytes (delete id (active s)) +
                 map_sum Reservation.storage_bytes (reservations s) + t) <= capacity_storage_bytes config.
Proof.
  intros Hs [? ? ?]. pose proof u_bounds. destruct Hconfig as [? ? ?].
  assert (state_nonneg (set_active (delete id (active s)) s)) as Hd.
  { split; cbn; [|apply Hs]. intros k x [_ Hk]%lookup_delete_Some. by eapply Hs. }
  destruct (sums_nonneg _ Hd) as ((? & ?) & (? & ?) & (? & ?)). cbn in *.
  unfold AgentService.fits_capacity, fits_within, plus, add, saturating_add.
  rewrite usage_without_sum, reserved_usage_sum by done. unfold plus_sums, no_usage. cbn [cpu_milli memory_bytes storage_bytes].
  remember u64_max as M eqn:HM. remember u32_max as N eqn:HN. clear HM HN.
  rewrite !andb_true_iff, !Z.leb_le. intros [[Fc Fm] Ft].
  split_and!; [clear Fm Ft|clear Fc Ft|clear Fc Fm]; lia.
Qed.

(** ** Changes that keep the capacity invariant *)
Lemma cap_retain (p : string -> Reservation -> bool) (s : WorkloadState) :
  state_nonneg s -> cap_ok s -> cap_ok (set_reservations (map_retain p (reservations s)) s).
Proof.
  intros Hs. apply cap_mono; unfold total_cpu, total_memory, total_storage, total; cbn;
    apply Z.add_le_mono_l, map_sum_retain_le; intros k r Hk; by apply Hs in Hk as [].
Qed.

Lemma cap_reserve (s : WorkloadState) (k : string) (r : Reservation) :
  state_nonneg s -> reservation_nonneg r -> cap_ok s ->
  AgentService.fits_capacity config
    (plus (usage s) (Reservation.cpu_milli r) (Reservation.memory_bytes r) (Reservation.storage_bytes r)) = true ->
  cap_ok (set_reservations (<[k := r]> (reservations s)) s).
Proof.
  intros Hs Hr Hcap Hfit. destruct (admission_fits s _ _ _ Hs Hcap Hr Hfit) as (Hc & Hm & Ht).
  pose proof (reservations_nonneg s Hs) as Hn. unfold total_cpu, total_memory, total_storage, total in *.
  pose proof (map_sum_insert_le Reservation.cpu_milli _ k r (fun j x Hj => cpu_nonneg _ _ _ (Hn j x Hj))).
  pose proof (map_sum_insert_le Reservation.memory_bytes _ k r (fun j x Hj => memory_nonneg _ _ _ (Hn j x Hj))).
  pose proof (map_sum_insert_le Reservation.storage_bytes _ k r (fun j x Hj => storage_nonneg _ _ _ (Hn j x Hj))).
  split; unfold total_cpu, total_memory, total_storage, total; cbn; lia.
Qed.

Lemma cap_unreserve (s : WorkloadState) (k : string) :
  state_nonneg s -> cap_ok s -> cap_ok (set_reservations (delete k (reservations s)) s).
Proof.
  intros Hs. apply cap_mono; unfold total_cpu, total_memory, total_storage, total; cbn;
    apply Z.add_le_mono_l, map_sum_delete_le; intros j r Hj; by apply Hs in Hj as [].
Qed.

(** A reservation becomes a workload that holds the same. *)
Lemma cap_deploy (s : WorkloadState) (k id : string) (r : Reservation) (x : StoredWorkload) :
  reservations s !! k = Some r -> active s !! id = None ->
  AgentStore.cpu_milli x = Reservation.cpu_milli r -> AgentStore.memory_bytes x = Reservation.memory_bytes r ->
  AgentStore.storage_bytes x = Reservation.storage_bytes r -> cap_ok s ->
  cap_ok (set_active (<[id := x]> (active s)) (set_reservations (delete k (reservations s)) s)).
Proof.
  intros Hr Ha Hc Hm Ht. apply cap_mono; unfold total_cpu, total_memory, total_storage, total; cbn;
    rewrite map_sum_insert_new, (map_sum_delete _ _ _ _ Hr) by done; lia.
Qed.

(** A workload is replaced by one that holds no more, or removed. *)
Definition holds_no_more (x' x : StoredWorkload) : Prop :=
  AgentStore.cpu_milli x' <= AgentStore.cpu_milli x /\ AgentStore.memory_bytes x' <= AgentStore.memory_bytes x /\
  AgentStore.storage_bytes x' <= AgentStore.storage_bytes x.

Lemma cap_replace (s : WorkloadState) (id : string) (x x' : StoredWorkload) :
  active s !! id = Some x -> holds_no_more x' x -> cap_ok s -> cap_ok (set_active (<[id := x']> (active s)) s).
Proof.
  intros Hx (Hc & Hm & Ht). apply cap_mono; unfold total_cpu, total_memory, total_storage, total; cbn;
    rewrite (map_sum_insert_old _ _ _ _ _ Hx); lia.
Qed.

Lemma cap_remove (s : WorkloadState) (id : string) :
  state_nonneg s -> cap_ok s -> cap_ok (set_active (delete id (active s)) s).
Proof.
  intros Hs. apply cap_mono; unfold total_cpu, total_memory, total_storage, total; cbn;
    apply Z.add_le_mono_r, map_sum_delete_le; intros j x Hj; by apply Hs in Hj as [].
Qed.

Lemma cap_update (s : WorkloadState) (id : string) (x : StoredWorkload) :
  state_nonneg s -> workload_nonneg x ->
  AgentService.fits_capacity config
    (plus (usage_without s id) (AgentStore.cpu_milli x) (AgentStore.memory_bytes x) (AgentStore.storage_bytes x)) = true ->
  cap_ok (set_active (<[id := x]> (active s)) s).
Proof.
  intros Hs Hx Hfit. destruct (update_fits s id _ _ _ Hs Hx Hfit) as (Hc & Hm & Ht).
  split; unfold total_cpu, total_memory, total_storage, total; cbn;
    rewrite <- insert_delete_eq, map_sum_insert_new by apply lookup_delete_eq; lia.
Qed.

End Capacity.
End AgentUsage.
