(* ===== verification/AgentInvariant.v ===== *)
(** * The agent under concurrency: invariant and proof rules

    Every request the agent serves is a task; tasks interleave at every wait
    and can be dropped at any of them.  This file states what holds of the
    agent's shared state at every point of every interleaving, what a task may
    rely on while it holds a workload's guard, and the rules by which the steps
    of AgentService.v are shown to keep it. *)

From S2P Require Import Prelude Net OrderedMap Crypto Signed Identity Registration Biscuit WorkloadIdentity AgentIds AgentMessages Tasks AgentStore AgentState AgentReplay AgentUsage AgentService.

Module AgentInvariant.
Import Crypto AgentMessages AgentState AgentReplay AgentUsage.
Import AgentStore (StoredWorkload, records, is_updating).
Import Tasks (triple_ret, triple_bind, triple_step).

(** ** Histories *)

(** Calls that create or remove what the runtime holds for a workload. *)
Definition changes (c : RuntimeCall) : bool :=
  match c with CallDeploy _ _ _ | CallDelete _ | CallCleanup _ _ => true | _ => false end.

Definition concerns (id : string) (o : Occurrence) : bool :=
  match o with
  | Called i _ c => bool_decide (i = id) && changes c
  | Answered i _ c _ => bool_decide (i = id) && changes c
  | Saved x => bool_decide (Grant.workload_id (AgentStore.grant x) = id)
  | Erased i => bool_decide (i = id)
  end.

(** What happened to workload [id], newest first. *)
Definition history (id : string) (t : list Occurrence) : list Occurrence := List.filter (concerns id) t.

(** The record a store that started with [r0] holds after a history. *)
Fixpoint last_record (r0 : option (Result StoredWorkload)) (h : list Occurrence) : option (Result StoredWorkload) :=
  match h with
  | [] => r0
  | Saved x :: _ => Some (Ok x)
  | Erased _ :: _ => None
  | _ :: h => last_record r0 h
  end.

(** A record may be erased once the runtime has confirmed that what the record
    names is gone, or when it names nothing. *)
Definition erase_ok (r0 : option (Result StoredWorkload)) (h : list Occurrence) : Prop :=
  match h with
  | Answered _ _ (CallDelete target) true :: _ | Answered _ _ (CallCleanup target _) true :: _ =>
      forall y, last_record r0 h = Some (Ok y) ->
        AgentStore.runtime_id y = "" \/ AgentStore.runtime_id y = target
  | _ => exists y, last_record r0 h = Some (Ok y) /\ AgentStore.runtime_id y = ""
  end.

(** Every deployment is asked for only after a record of the workload, with its
    owner, is durable; every erasure is permitted. *)
Definition occurrence_ok (r0 : option (Result StoredWorkload)) (o : Occurrence) (h : list Occurrence) : Prop :=
  match o with
  | Called i _ (CallDeploy i' namespace_id _) =>
      i' = i /\ exists y, last_record r0 h = Some (Ok y) /\ Grant.namespace_id (AgentStore.grant y) = namespace_id
  | Erased _ => erase_ok r0 h
  | _ => True
  end.

Fixpoint history_ok (r0 : option (Result StoredWorkload)) (h : list Occurrence) : Prop :=
  match h with
  | [] => True
  | o :: h => occurrence_ok r0 o h /\ history_ok r0 h
  end.

(** The workload's previous revision was deployed again after an update
    failed. *)
Definition rolled_back (t : list Occurrence) : Prop :=
  exists id call, Called id "update rollback" call ∈ t.

Lemma not_rolled_back t :
  existsb (fun o => match o with Called _ op _ => bool_decide (op = "update rollback") | _ => false end) t = false ->
  ~ rolled_back t.
Proof.
  intros Hb (id & call & Hin). apply Is_true_false in Hb. apply Hb. apply Is_true_true, existsb_exists.
  exists (Called id "update rollback" call). split; [by apply list_elem_of_In|done].
Qed.

Section Invariant.
Context {I : Iroh} {P : Primitives} {H : Blake3}.
Context (config : Config).
(** The store when the service started. *)
Context (init : gmap string (Result StoredWorkload)).

(** An entry is filed under the identity its owner, name and index determine. *)
Record sound (id : string) (x : StoredWorkload) : Prop := {
  sound_id : Grant.workload_id (AgentStore.grant x) = id;
  sound_nonneg : workload_nonneg x;
  sound_name : exists namespace,
    b64_decode (Grant.namespace_id (AgentStore.grant x)) = Ok namespace /\
    AgentIds.workload_id namespace (AgentStore.workload_name x) (AgentStore.replica_index x) = id
}.

Record entry_ok (id : string) (a : option StoredWorkload) (r : option (Result StoredWorkload))
    (h : list Occurrence) : Prop := {
  entry_sound x : a = Some x -> sound id x;
  entry_record : r = last_record (init !! id) h;
  entry_aligned x y : a = Some x -> is_updating (AgentStore.phase x) = false -> r = Some (Ok y) ->
    AgentStore.runtime_id y = AgentStore.runtime_id x;
  entry_history : history_ok (init !! id) h
}.

Record inv (w : World) : Prop := {
  inv_entries id : entry_ok id (active (state w) !! id) (records (store w) !! id) (history id (trace w));
  inv_reservations id r : reservations (state w) !! id = Some r -> reservation_nonneg r;
  inv_capacity : rolled_back (trace w) \/ cap_ok config (state w);
  inv_replay : cache_ok (replay w)
}.

(** Task [i] holds the guard of [id]. *)
Definition holds (i : nat) (id : string) (w : World) : Prop :=
  exists o, mutations w !! id = Some (o, i).

(** What a task relies on: the history only grows, and while it holds a
    workload's guard nobody else touches the workload. *)
Record rely (i : nat) (w w' : World) : Prop := {
  rely_trace : exists new, trace w' = new ++ trace w;
  rely_held id : holds i id w ->
    holds i id w' /\ active (state w') !! id = active (state w) !! id /\
    records (store w') !! id = records (store w) !! id /\ history id (trace w') = history id (trace w)
}.

(** A step of task [i] changes an entry only under the guard, and never its
    owner. *)
Definition entries_kept (i : nat) (w w' : World) : Prop :=
  forall id, active (state w') !! id = active (state w) !! id \/
    (holds i id w /\
     forall x x', active (state w) !! id = Some x -> active (state w') !! id = Some x' ->
       Grant.namespace_id (AgentStore.grant x') = Grant.namespace_id (AgentStore.grant x)).

(** What each step of task [i] guarantees. *)
Definition guar (i : nat) (w w' : World) : Prop :=
  (forall j, j <> i -> rely j w w') /\ entries_kept i w w'.

Lemma rely_refl i w : rely i w w.
Proof. split; [by exists []|done]. Qed.

Lemma rely_trans i w1 w2 w3 : rely i w1 w2 -> rely i w2 w3 -> rely i w1 w3.
Proof.
  intros [[n1 H1] K1] [[n2 H2] K2]. split.
  - exists (n2 ++ n1). by rewrite H2, H1, app_assoc.
  - intros id Hid. destruct (K1 id Hid) as (Hid2 & E1 & E2 & E3).
    destruct (K2 id Hid2) as (Hid3 & F1 & F2 & F3). split_and!; congruence.
Qed.

Lemma entries_same i w w' : active (state w') = active (state w) -> entries_kept i w w'.
Proof. intros Ha id. left. by rewrite Ha. Qed.

Lemma inv_nonneg w : inv w -> state_nonneg (state w).
Proof.
  intros Hw. split; [|apply Hw]. intros id x Hx.
  apply (sound_nonneg _ _ (entry_sound _ _ _ _ (inv_entries w Hw id) x Hx)).
Qed.

Lemma rolled_back_app new t : rolled_back t -> rolled_back (new ++ t).
Proof. intros (id & call & Hin). exists id, call. apply elem_of_app. by right. Qed.

Lemma release_keeps i w : inv w -> inv (release i w) /\ guar i w (release i w).
Proof.
  intros Hw. split; [by destruct Hw|]. split; [|by apply entries_same].
  intros j Hj. split; [by exists []|]. intros id [o Ho]. split_and!; try done.
  exists o. unfold release. cbn. apply lookup_map_retain. split; [done|]. cbn. by apply negb_true_iff, Nat.eqb_neq.
Qed.

Lemma laws : Tasks.laws release inv rely guar.
Proof.
  split; [apply rely_refl|apply rely_trans| |by intros; apply release_keeps].
  intros i j w w' Hij [Hg _]. by apply Hg.
Qed.

Abbreviation triple := (Tasks.triple (Choice := Choice) inv rely guar).
Abbreviation stable := (Tasks.stable rely).

Lemma guar_refl i w : guar i w w.
Proof. split; [intros; apply rely_refl|by apply entries_same]. Qed.

Lemma triple_read {A} i R (g : Choice -> World -> A) Q :
  stable i R -> (forall c w, R w -> inv w -> Q (g c w) w) -> triple i R (Tasks.step (fun _ c w => (w, g c w))) Q.
Proof. apply Tasks.triple_look. apply guar_refl. Qed.

(** ** Acting on a workload under its guard *)

(** Task [i] holds the guard of [id] and knows what is recorded of it; [rb] says
    that it knows of a rollback. *)
Record own (i : nat) (id : string) (a : option StoredWorkload) (r : option (Result StoredWorkload))
    (h : list Occurrence) (rb : bool) (w : World) : Prop := {
  own_holds : holds i id w;
  own_active : active (state w) !! id = a;
  own_record : records (store w) !! id = r;
  own_history : history id (trace w) = h;
  own_rolled_back : rb = true -> rolled_back (trace w)
}.

Lemma own_stable i id a r h rb : stable i (own i id a r h rb).
Proof.
  intros w w' [Hh Ha Hr Hhist Hrb] [[new Hnew] Hrely]. destruct (Hrely id Hh) as (? & ? & ? & ?).
  split; try congruence; try done. intros Hb. rewrite Hnew. by apply rolled_back_app, Hrb.
Qed.

Lemma own_entry i id a r h rb w : inv w -> own i id a r h rb w -> entry_ok id a r h.
Proof. intros Hw [_ <- <- <- _]. apply Hw. Qed.

(** Taking stock of a workload whose guard is held. *)
Lemma triple_own {A} i id (p : Tasks.Prog World Choice A) Q :
  (forall a r h, triple i (own i id a r h false) p Q) -> triple i (holds i id) p Q.
Proof. intros Hp w Hw. eapply Hp. by split. Qed.

Lemma holds_stable i id : stable i (holds i id).
Proof. intros w w' Hh [_ Hrely]. by destruct (Hrely id Hh). Qed.

(** Only the workload [id] and what is recorded of it change; reservations may
    go away. *)
Record touched (id : string) (w w' : World) : Prop := {
  touched_trace : exists new, trace w' = new ++ trace w;
  touched_mutations : mutations w' = mutations w;
  touched_reservations k r : reservations (state w') !! k = Some r -> reservations (state w) !! k = Some r;
  touched_replay : replay w' = replay w;
  touched_others id' : id' <> id ->
    active (state w') !! id' = active (state w) !! id' /\
    records (store w') !! id' = records (store w) !! id' /\ history id' (trace w') = history id' (trace w)
}.

Lemma touched_guar i id w w' :
  holds i id w -> touched id w w' ->
  (forall x x', active (state w) !! id = Some x -> active (state w') !! id = Some x' ->
     Grant.namespace_id (AgentStore.grant x') = Grant.namespace_id (AgentStore.grant x)) ->
  guar i w w' /\ holds i id w'.
Proof.
  intros [o Ho] Ht Hown. split; [split|].
  - intros j Hj. split; [apply Ht|]. intros id' [o' Ho'].
    assert (id' <> id) as Hne by (intros ->; congruence).
    destruct (touched_others _ _ _ Ht id' Hne) as (? & ? & ?). split_and!; try done.
    exists o'. by rewrite (touched_mutations _ _ _ Ht).
  - intros id'. destruct (decide (id' = id)) as [->|Hne]; [right; split; [by exists o|done]|].
    left. by apply (touched_others _ _ _ Ht id' Hne).
  - exists o. by rewrite (touched_mutations _ _ _ Ht).
Qed.

Lemma touched_inv id w w' :
  inv w -> touched id w w' ->
  entry_ok id (active (state w') !! id) (records (store w') !! id) (history id (trace w')) ->
  (rolled_back (trace w') \/ (cap_ok config (state w) -> cap_ok config (state w'))) ->
  inv w'.
Proof.
  intros Hw Ht He Hc. split.
  - intros id'. destruct (decide (id' = id)) as [->|Hne]; [done|].
    destruct (touched_others _ _ _ Ht id' Hne) as (-> & -> & ->). apply Hw.
  - intros k r Hr. by eapply (inv_reservations w Hw), (touched_reservations _ _ _ Ht).
  - destruct (inv_capacity w Hw) as [Hr|Hcap].
    + left. destruct (touched_trace _ _ _ Ht) as [new ->]. by apply rolled_back_app.
    + destruct Hc as [Hr|Hc]; [by left|right; by apply Hc].
  - rewrite (touched_replay _ _ _ Ht). apply Hw.
Qed.

(** A step under the guard of [id] that leaves it with [a'], [r'] and [h']. *)
Lemma touch_step i id a r h rb a' r' h' rb' w w' :
  inv w -> own i id a r h rb w -> touched id w w' ->
  active (state w') !! id = a' -> records (store w') !! id = r' -> history id (trace w') = h' ->
  entry_ok id a' r' h' ->
  (forall x x', a = Some x -> a' = Some x' ->
     Grant.namespace_id (AgentStore.grant x') = Grant.namespace_id (AgentStore.grant x)) ->
  (rolled_back (trace w') \/ (cap_ok config (state w) -> cap_ok config (state w'))) ->
  (rb' = true -> rolled_back (trace w')) ->
  inv w' /\ guar i w w' /\ own i id a' r' h' rb' w'.
Proof.
  intros Hi Ho Ht Ha Hr Hh He Hns Hcap Hrb. subst.
  destruct (touched_guar i id _ _ (own_holds _ _ _ _ _ _ _ Ho) Ht) as [Hg Hhold].
  { intros x x' Hx. apply Hns. by rewrite <- (own_active _ _ _ _ _ _ _ Ho). }
  split_and!; [by apply (touched_inv id w)|done|by split].
Qed.

Lemma history_cons id o t : history id (o :: t) = if concerns id o then o :: history id t else history id t.
Proof. done. Qed.

(** Something happens outside that concerns [id] only. *)
Lemma touched_occurrence id (st : AgentStore.Store) (o : Occurrence) w :
  (forall id', id' <> id -> concerns id' o = false) ->
  (forall id', id' <> id -> records st !! id' = records (store w) !! id') ->
  touched id w (set_store st [o] w).
Proof.
  intros Ho Hst. split; cbn; try done; [by exists [o]|]. intros id' Hne. rewrite (Ho id' Hne). split_and!; [done|by apply Hst|done].
Qed.

Lemma concerns_other id id' op call b :
  id' <> id -> concerns id' (Called id op call) = false /\ concerns id' (Answered id op call b) = false.
Proof. intros Hne. cbn. rewrite bool_decide_false by congruence. done. Qed.

Lemma rolled_back_keeps rb rb' (o : list Occurrence) w w' :
  (rb = true -> rolled_back (trace w)) -> trace w' = o ++ trace w ->
  (rb' = true -> rb = true \/ rolled_back o) -> rb' = true -> rolled_back (trace w').
Proof.
  intros Hrb -> Himp Hb. destruct (Himp Hb) as [Hr|(id & call & Hin)]; [by apply rolled_back_app, Hrb|].
  exists id, call. apply elem_of_app. by left.
Qed.

Lemma entry_ok_calls id a r h o :
  entry_ok id a r h -> occurrence_ok (init !! id) o h ->
  match o with Called _ _ _ | Answered _ _ _ _ => True | _ => False end -> entry_ok id a r (o :: h).
Proof. intros [Hs Hr Ha Hh] Ho Hc. split; [done| |done|by split]. by destruct o. Qed.

Definition is_rollback (operation : string) : bool := bool_decide (operation = "update rollback").

(** A call or an answer is noted. *)
Lemma note_step i id a r h rb rb' o w :
  inv w -> own i id a r h rb w -> occurrence_ok (init !! id) o h -> concerns id o = true ->
  match o with Called id' _ _ | Answered id' _ _ _ => id' = id | _ => False end ->
  (rb' = true -> rb = true \/ rolled_back [o]) ->
  inv (set_store (store w) [o] w) /\ guar i w (set_store (store w) [o] w) /\
  own i id a r (o :: h) rb' (set_store (store w) [o] w).
Proof.
  intros Hi Ho Hocc Hc Hid Hrb. pose proof (own_entry _ _ _ _ _ _ _ Hi Ho) as He.
  apply (touch_step i id a r h rb); [done|done| | | | | | | |].
  - apply touched_occurrence; [|done]. intros id' Hne. destruct o; try done; subst; cbn; by rewrite bool_decide_false by congruence.
  - apply Ho.
  - apply Ho.
  - cbn. rewrite Hc. f_equal. apply Ho.
  - apply entry_ok_calls; [done|done|]. by destruct o.
  - congruence.
  - by right.
  - eapply (rolled_back_keeps rb rb' [o] w); [apply Ho|done|done].
Qed.

Lemma triple_runtime {A} i id a r h rb op call (answer : Choice -> option (Outcome A)) :
  changes call = true -> occurrence_ok (init !! id) (Called id op call) h ->
  triple i (own i id a r h rb) (runtime_operation id op call answer)
    (fun res w => (exists e, res = Err e /\ own i id a r h rb w) \/
       own i id a r (Answered id op call (is_ok res) :: Called id op call :: h) (rb || is_rollback op) w).
Proof.
  intros Hch Hocc.
  assert (forall b, concerns id (Called id op call) = true /\ concerns id (Answered id op call b) = true) as Hcon.
  { intros b. cbn. by rewrite bool_decide_true, Hch. }
  unfold runtime_operation.
  eapply (triple_bind i _ _ _ (fun (b : bool) => own i id a r (if b then Called id op call :: h else h)
            (if b then rb || is_rollback op else rb))).
  - apply triple_step; [apply own_stable|]. intros c w Ho Hi. destruct (permit c); cbn [fst snd].
    2:{ split_and!; [done| |done]. apply guar_refl. }
    apply (note_step i id a r h rb); [done|done|done|apply (Hcon true)|done|].
    intros [Hb|Hb]%orb_true_iff; [by left|]. right. exists id, call.
    apply bool_decide_eq_true in Hb. subst. by apply list_elem_of_singleton.
  - intros [|]; [|apply triple_ret; intros w Hw; left; by eexists].
    apply triple_step; [apply own_stable|]. intros c w Ho Hi. cbn [fst snd].
    destruct (note_step i id a r _ _ (rb || is_rollback op)
      (Answered id op call (is_ok (match answer c with Some r => r | None => timed_out op end))) w Hi Ho)
      as (? & ? & ?); [done|apply Hcon|done|by left|].
    split_and!; [done..|by right].
Qed.

(** A call that only asks touches nothing. *)
Lemma triple_ask {A} i R id op call (answer : Choice -> option (Outcome A)) :
  stable i R -> (forall w st o, R w -> R (set_store st o w)) -> changes call = false ->
  triple i R (runtime_operation id op call answer) (fun _ => R).
Proof.
  intros Hs HR Hch.
  assert (forall o w, R w -> inv w -> concerns id o = false -> (forall id', concerns id' o = false) ->
    inv (set_store (store w) [o] w) /\ guar i w (set_store (store w) [o] w) /\ R (set_store (store w) [o] w)) as Hnote.
  { intros o w Hw Hi _ Ho. split_and!; [| |by apply HR].
    - destruct Hi as [He Hr Hc Hp]. split; cbn; try done.
      + intros id'. rewrite Ho. apply He.
      + destruct Hc as [Hc|Hc]; [left; by apply (rolled_back_app [o])|by right].
    - split; [|by apply entries_same]. intros j Hj. split; [by exists [o]|]. intros id' Hh. cbn. by rewrite Ho. }
  unfold runtime_operation. eapply (triple_bind i _ _ _ (fun _ => R)).
  - apply triple_step; [done|]. intros c w Hw Hi. destruct (permit c); cbn [fst snd].
    + apply Hnote; [done|done|..]; intros; cbn; by rewrite Hch, andb_false_r.
    + split_and!; [done| |done]. apply guar_refl.
  - intros [|]; [|by apply triple_ret]. apply triple_step; [done|]. intros c w Hw Hi. cbn [fst snd].
    apply Hnote; [done|done|..]; intros; cbn; by rewrite Hch, andb_false_r.
Qed.

(** ** Store writes and the table of workloads *)
Lemma lookup_save_other id x st : Grant.workload_id (AgentStore.grant x) <> id ->
  records (AgentStore.save x st) !! id = records st !! id.
Proof. intros Hne. cbn. by rewrite lookup_insert_ne. Qed.

Lemma save_step i id a r h rb x w :
  inv w -> own i id a r h rb w -> Grant.workload_id (AgentStore.grant x) = id ->
  (forall y, a = Some y -> is_updating (AgentStore.phase y) = false ->
     AgentStore.runtime_id x = AgentStore.runtime_id y) ->
  inv (set_store (AgentStore.save x (store w)) [Saved x] w) /\
  guar i w (set_store (AgentStore.save x (store w)) [Saved x] w) /\
  own i id a (Some (Ok x)) (Saved x :: h) rb (set_store (AgentStore.save x (store w)) [Saved x] w).
Proof.
  intros Hi Ho Hid Hal. pose proof (own_entry _ _ _ _ _ _ _ Hi Ho) as [Hs _ _ Hhist].
  apply (touch_step i id a r h rb); [done|done| | | | | | | |].
  - apply touched_occurrence.
    + intros id' Hne. cbn. rewrite bool_decide_false by congruence. done.
    + intros id' Hne. rewrite lookup_save_other by congruence. done.
  - apply Ho.
  - cbn. rewrite Hid. apply lookup_insert_eq.
  - cbn. rewrite bool_decide_true by done. f_equal. apply Ho.
  - split; [done|done| |by split]. intros y z Hy Hu [= <-]. by apply Hal.
  - congruence.
  - by right.
  - eapply (rolled_back_keeps rb rb [_] w); [apply Ho|done|by left].
Qed.

Lemma triple_save i id a r h rb x :
  Grant.workload_id (AgentStore.grant x) = id ->
  (forall y, a = Some y -> is_updating (AgentStore.phase y) = false ->
     AgentStore.runtime_id x = AgentStore.runtime_id y) ->
  triple i (own i id a r h rb) (store_save x)
    (fun res w => (exists e, res = Err e /\ own i id a r h rb w) \/
                  (res = Ok tt /\ own i id a (Some (Ok x)) (Saved x :: h) rb w)).
Proof.
  intros Hid Hal. apply triple_step; [apply own_stable|]. intros c w Ho Hi. unfold try_save.
  destruct (io_error c); cbn [fst snd].
  - split_and!; [done| |left; by eexists]. apply guar_refl.
  - destruct (save_step _ _ _ _ _ _ x w Hi Ho Hid Hal) as (? & ? & ?). split_and!; [done..|by right].
Qed.

Lemma triple_erase i id a r h rb :
  erase_ok (init !! id) h ->
  triple i (own i id a r h rb) (store_remove id)
    (fun res w => (exists e, res = Err e /\ own i id a r h rb w) \/
                  (res = Ok tt /\ own i id a None (Erased id :: h) rb w)).
Proof.
  intros Her. apply triple_step; [apply own_stable|]. intros c w Ho Hi. unfold try_remove.
  destruct (io_error c); cbn [fst snd].
  { split_and!; [done| |left; by eexists]. apply guar_refl. }
  assert (inv (set_store (AgentStore.remove id (store w)) [Erased id] w) /\
          guar i w (set_store (AgentStore.remove id (store w)) [Erased id] w) /\
          own i id a None (Erased id :: h) rb (set_store (AgentStore.remove id (store w)) [Erased id] w))
    as (? & ? & ?); [|split_and!; [done..|by right]].
  pose proof (own_entry _ _ _ _ _ _ _ Hi Ho) as [Hs _ _ Hhist].
  apply (touch_step i id a r h rb); [done|done| | | | | | | |].
  - apply touched_occurrence; intros id' Hne; cbn.
    + by rewrite bool_decide_false by congruence.
    + by rewrite lookup_delete_ne by congruence.
  - apply Ho.
  - cbn. apply lookup_delete_eq.
  - cbn. rewrite bool_decide_true by done. f_equal. apply Ho.
  - split; [done|done|done|by split].
  - congruence.
  - by right.
  - eapply (rolled_back_keeps rb rb [_] w); [apply Ho|done|by left].
Qed.

Lemma touched_active id (m : gmap string StoredWorkload) w :
  (forall id', id' <> id -> m !! id' = active (state w) !! id') ->
  touched id w (set_state (set_active m (state w)) w).
Proof. intros Hm. split; cbn; try done; [by exists []|]. intros id' Hne. split_and!; [by apply Hm|done..]. Qed.

Lemma insert_step i id a r h rb x w :
  inv w -> own i id a r h rb w -> sound id x ->
  (forall y, is_updating (AgentStore.phase x) = false -> r = Some (Ok y) ->
     AgentStore.runtime_id y = AgentStore.runtime_id x) ->
  (forall y, a = Some y -> Grant.namespace_id (AgentStore.grant x) = Grant.namespace_id (AgentStore.grant y)) ->
  (rb = true \/ exists y, a = Some y /\ holds_no_more x y) ->
  inv (insert_active id x w) /\ guar i w (insert_active id x w) /\ own i id (Some x) r h rb (insert_active id x w).
Proof.
  intros Hi Ho Hs Hal Hns Hcap. pose proof (own_entry _ _ _ _ _ _ _ Hi Ho) as [_ Hr _ Hhist].
  apply (touch_step i id a r h rb); [done|done| | | | | | | |].
  - apply touched_active. intros id' Hne. by rewrite lookup_insert_ne by congruence.
  - cbn. apply lookup_insert_eq.
  - apply Ho.
  - apply Ho.
  - split; [|done| |done]; [by intros y [= <-]|]. intros y z [= <-]. apply Hal.
  - intros y y' Hy [= <-]. by apply Hns.
  - destruct Hcap as [Hrb|(y & Hy & Hle)]; [left; by apply (own_rolled_back _ _ _ _ _ _ _ Ho)|].
    right. cbn. apply (cap_replace config _ _ y); [|done]. rewrite (own_active _ _ _ _ _ _ _ Ho). done.
  - apply Ho.
Qed.

Lemma triple_insert {A} i id a r h rb x (res : A) :
  sound id x ->
  (forall y, is_updating (AgentStore.phase x) = false -> r = Some (Ok y) ->
     AgentStore.runtime_id y = AgentStore.runtime_id x) ->
  (forall y, a = Some y -> Grant.namespace_id (AgentStore.grant x) = Grant.namespace_id (AgentStore.grant y)) ->
  (rb = true \/ exists y, a = Some y /\ holds_no_more x y) ->
  triple i (own i id a r h rb) (Tasks.step (fun _ _ w => (insert_active id x w, res)))
    (fun b w => b = res /\ own i id (Some x) r h rb w).
Proof.
  intros Hs Hal Hns Hcap. apply triple_step; [apply own_stable|]. intros c w Ho Hi. cbn [fst snd].
  destruct (insert_step _ _ _ _ _ _ x w Hi Ho Hs Hal Hns Hcap) as (? & ? & ?). by split_and!.
Qed.

Lemma triple_drop_entry {A} i id a r h rb (res : A) :
  triple i (own i id a r h rb) (Tasks.step (fun _ _ w => (remove_active id w, res)))
    (fun b w => b = res /\ own i id None r h rb w).
Proof.
  apply triple_step; [apply own_stable|]. intros c w Ho Hi. cbn [fst snd].
  pose proof (own_entry _ _ _ _ _ _ _ Hi Ho) as [_ Hr _ Hhist].
  assert (inv (remove_active id w) /\ guar i w (remove_active id w) /\ own i id None r h rb (remove_active id w))
    as (? & ? & ?); [|by split_and!].
  apply (touch_step i id a r h rb); [done|done| | | | | | | |].
  - apply touched_active. intros id' Hne. by rewrite lookup_delete_ne by congruence.
  - cbn. apply lookup_delete_eq.
  - apply Ho.
  - apply Ho.
  - by split.
  - congruence.
  - right. cbn. apply cap_remove. by apply inv_nonneg.
  - apply Ho.
Qed.

(** Steps on [w] and then on what they leave, as one. *)
Lemma guar_then i w w1 w2 :
  guar i w w1 -> guar i w1 w2 -> active (state w2) = active (state w1) -> guar i w w2.
Proof.
  intros [H1 S1] [H2 _] Ha. split.
  - intros j Hj. eapply rely_trans; [by apply H1|by apply H2].
  - intros id. rewrite Ha. apply S1.
Qed.

(** A step that changes neither the workloads nor what is recorded of them. *)
Lemma apart_step i w w' :
  inv w -> active (state w') = active (state w) -> mutations w' = mutations w ->
  records (store w') = records (store w) ->
  trace w' = trace w ->
  (forall k r, reservations (state w') !! k = Some r -> reservation_nonneg r) ->
  (rolled_back (trace w) \/ cap_ok config (state w')) -> cache_ok (replay w') ->
  inv w' /\ guar i w w'.
Proof.
  intros [He Hr Hc Hp] Ha Hm Hs Ht Hres Hcap Hrep. split.
  - split; [|done|by rewrite Ht|done]. intros id. rewrite Ha, Hs, Ht. apply He.
  - split; [|by apply entries_same]. intros j Hj. split; [exists []; by rewrite Ht|].
    intros id Hh. rewrite Ha, Hs, Ht. split_and!; [|done..]. unfold holds. by rewrite Hm.
Qed.

End Invariant.
#[global] Arguments triple_read {I P H config init A} i R g Q.
End AgentInvariant.
