(* ===== verification/AgentSafety.v ===== *)
(** * The agent keeps its invariant

    Every program of AgentService.v keeps the invariant of AgentInvariant.v in
    every interleaving.  The theorems at the end read off what this means: the
    capacity is respected, deployments can be recovered after a crash, records
    are erased only when the runtime has confirmed the removal, and a workload
    keeps its owner. *)

From S2P Require Import Prelude Net OrderedMap Crypto Signed EndpointRecord Identity Registration Biscuit WorkloadIdentity Reconciliation AgentIds Connector AgentMessages AgentControl Tasks AgentStore AgentState AgentReplay AgentUsage AgentService AgentInvariant.

Module AgentSafety.
Import Crypto AgentMessages AgentState AgentReplay AgentUsage AgentService AgentInvariant.
Import AgentStore (StoredWorkload, records, is_updating, needs_cleanup, set_phase, set_deleting).
Import Tasks (triple_ret, triple_bind, triple_step, triple_conseq, triple_fact, triple_or, triple_ex, triple_and, triple_spawn).

Section Safety.
Context {I : Iroh} {P : Primitives} {B : Biscuit.BiscuitAuth} {H : Blake3}.
Context {MF : Manifests} {RT : WorkloadRuntime} {CD : AgentCodecs}.
Context (config : Config) (keys : Keys) (init : gmap string (Result StoredWorkload)).
Context (Hconfig : config_ok config).

Abbreviation triple := (Tasks.triple (Choice := Choice) (AgentInvariant.inv config init) AgentInvariant.rely AgentInvariant.guar).
Abbreviation stable := (Tasks.stable AgentInvariant.rely).
Abbreviation own := AgentInvariant.own.
Abbreviation inv := (AgentInvariant.inv config init).

Lemma triple_bind' {A C} i R (p : Tasks.Prog World Choice A) (g : A -> Tasks.Prog World Choice C) S Q :
  triple i R p S -> (forall a, triple i (S a) (g a) Q) -> triple i R (x ← p; g x) Q.
Proof. apply triple_bind. Qed.

(** ** Cleaning up *)
Lemma needs_cleanup_not_updating x : needs_cleanup x = true -> is_updating (AgentStore.phase x) = false.
Proof. unfold needs_cleanup. by destruct (AgentStore.phase x). Qed.

Lemma cleanup_triple i id x r h rb :
  Grant.workload_id (AgentStore.grant x) = id -> is_updating (AgentStore.phase x) = false ->
  triple i (own i id (Some x) r h rb) (cleanup_pending config keys x)
    (fun res w => (exists e, res = Err e /\ holds i id w) \/
                  (res = Ok tt /\ exists h', own i id (Some x) None h' rb w)).
Proof.
  intros Hid Hup. unfold cleanup_pending. rewrite Hid.
  destruct (cleanup_target config keys x) as [target|e] eqn:Ht; cbn [lift].
  2:{ apply triple_ret. intros w Hw. left. exists (err e). split; [done|]. apply Hw. }
  apply (triple_fact i _ (entry_ok init id (Some x) r h)); [intros w Ho Hi; by eapply own_entry|].
  intros [_ Hr Hal Hh].
  eapply triple_bind; [by apply triple_runtime|]. intros [[]|e]; cbn [is_ok].
  - apply triple_or; [intros w (e & ? & _); done|].
    eapply triple_conseq; [apply triple_erase|done|].
    + cbn [erase_ok]. intros y Hy. cbn [last_record] in Hy. rewrite <- Hr in Hy.
      specialize (Hal x y eq_refl Hup Hy). unfold cleanup_target in Ht.
      destruct (str_is_empty (AgentStore.runtime_id x)) eqn:He.
      * left. unfold str_is_empty in He. apply bool_decide_eq_true in He. congruence.
      * right. congruence.
    + intros res w [(e & -> & Hw)|[-> Hw]]; [left; exists e; split; [done|apply Hw]|right].
      split; [done|]. rewrite orb_false_r in Hw. by eexists.
  - apply triple_ret. intros w Hw. left. exists e. split; [done|]. by destruct Hw as [(? & _ & [])|[]].
Qed.

(** ** Deployment *)

Lemma sound_phase id p x : sound id x -> sound id (set_phase p x).
Proof. by intros []. Qed.

(** Replacing the entry by another phase of the same workload. *)
Lemma rephase_step i id y r h rb p w :
  inv w -> own i id (Some y) r h rb w ->
  (forall z, is_updating p = false -> r = Some (Ok z) -> AgentStore.runtime_id z = AgentStore.runtime_id y) ->
  inv (insert_active id (set_phase p y) w) /\ guar i w (insert_active id (set_phase p y) w) /\
  own i id (Some (set_phase p y)) r h rb (insert_active id (set_phase p y) w).
Proof.
  intros Hi Ho Hal. destruct (own_entry _ _ _ _ _ _ _ _ _ Hi Ho) as [Hs _ _ _].
  apply (insert_step config init _ _ (Some y)); [done|done|by apply sound_phase, Hs|done| |].
  - by intros z [= <-].
  - right. exists y. split; [done|]. unfold holds_no_more. cbn. lia.
Qed.

Lemma failed_deploy_triple i id y h rb p z (uncertain : bool) :
  Grant.workload_id (AgentStore.grant y) = id -> AgentStore.runtime_id z = AgentStore.runtime_id y ->
  triple i (own i id (Some (set_phase p y)) (Some (Ok z)) h rb) (failed_deploy config keys y uncertain)
    (fun _ w => holds i id w).
Proof.
  intros Hid Hz. unfold failed_deploy. cbn [set_phase AgentStore.grant]. rewrite Hid.
  set (y' := set_phase (AgentStore.CleanupPending uncertain) y).
  eapply (triple_bind' i _ _ _ (fun _ w => exists r' h', own i id (Some y') r' h' rb w)).
  - apply triple_step; [apply own_stable|]. intros c w Ho Hi.
    destruct (rephase_step _ _ _ _ _ _ (AgentStore.CleanupPending uncertain) w Hi Ho) as (Hi1 & Hg1 & Ho1).
    { intros u _ [= <-]. by rewrite Hz. }
    change (set_phase _ (set_phase p y)) with y' in *.
    unfold try_save. destruct (io_error c); cbn [fst snd]; [by eauto|].
    destruct (save_step config init _ _ _ _ _ _ y' _ Hi1 Ho1) as (Hi2 & Hg2 & Ho2); [done|by intros u [= <-] _|].
    split_and!; [done|by apply (guar_then _ _ (insert_active id y' w))|by eauto].
  - intros _. apply triple_ex. intros r'. apply triple_ex. intros h'.
    eapply triple_bind'; [by apply cleanup_triple|]. intros [[]|e].
    + apply triple_or; [by intros w (? & ? & _)|].
      intros w [_ (h2 & Ho)] Hi. eapply triple_conseq; [apply triple_drop_entry|done| |exact Ho|done].
      intros [] w' [_ Hw']. apply Hw'.
    + apply triple_ret. intros w [(? & _ & ?)|[? _]]; done.
Qed.

Lemma decode_execution_name grant execution :
  decode_execution keys grant = Ok execution ->
  exists namespace, b64_decode (Grant.namespace_id grant) = Ok namespace /\
    AgentIds.workload_id namespace (Spec.workload_name execution) (Spec.replica_index execution)
      = Grant.workload_id grant.
Proof. unfold decode_execution. intros Hd. Signed.result_steps Hd. injection Hd as <-. bool_props. by eexists. Qed.

(** What [begin_deploy] plans from a reservation. *)
Definition planned_from (grant : Grant.DeploymentGrant) (reservation : Reservation.Reservation)
    (execution : Spec.ExecutionSpec) (x : StoredWorkload) : Prop :=
  AgentStore.grant x = grant /\ AgentStore.workload_name x = Spec.workload_name execution /\
  AgentStore.replica_index x = Spec.replica_index execution /\
  AgentStore.cpu_milli x = Reservation.cpu_milli reservation /\
  AgentStore.memory_bytes x = Reservation.memory_bytes reservation /\
  AgentStore.storage_bytes x = Reservation.storage_bytes reservation.

Lemma begin_deploy_cases grant execution now c w :
  let k := Grant.reservation_id grant in
  let id := Grant.workload_id grant in
  let w1 := set_state (set_reservations (delete k (reservations (state w))) (state w)) w in
  (exists e, begin_deploy config grant execution now c w = (w, Err e)) \/
  (exists e, begin_deploy config grant execution now c w = (w1, Err e)) \/
  (exists reservation x manifest,
     reservations (state w) !! k = Some reservation /\ active (state w) !! id = None /\
     planned_from grant reservation execution x /\
     begin_deploy config grant execution now c w =
       (insert_active id x (set_store (AgentStore.save x (store w1)) [Saved x] w1), Ok (x, manifest))).
Proof.
  cbn zeta. unfold begin_deploy. destruct (reservations (state w) !! _) as [reservation|] eqn:Hr; [|left; by eexists].
  right. cbn zeta. set (w1 := set_state _ w).
  match goal with |- context [match ?p with Ok _ => _ | Err _ => _ end] => destruct p as [[x manifest]|e] eqn:Hp end;
    [|left; by eexists].
  unfold try_save. destruct (io_error c); [left; by eexists|]. right.
  Signed.result_steps Hp. destruct x0 as [m measured].
  Signed.result_steps Hp. injection Hp as <- <-.
  exists reservation. eexists _, _. split_and!; [done| | |reflexivity]; [|by repeat split].
  bool_props. apply eq_None_not_Some. rewrite <- contains_key_true. cbn in *. congruence.
Qed.

Lemma begin_deploy_triple i id grant execution now a r h :
  Grant.workload_id grant = id -> decode_execution keys grant = Ok execution ->
  triple i (own i id a r h false)
    (Tasks.step (fun _ c w => begin_deploy config grant execution now c w))
    (fun res w => match res with
                  | Err _ => holds i id w
                  | Ok (stored, _) =>
                      own i id (Some stored) (Some (Ok stored)) (Saved stored :: h) false w /\
                      AgentStore.grant stored = grant
                  end).
Proof.
  intros Hid Hdec. apply triple_step; [apply own_stable|]. intros c w Ho Hi.
  pose proof (own_entry _ _ _ _ _ _ _ _ _ Hi Ho) as [_ _ _ Hhist]. pose proof (inv_nonneg _ _ _ Hi) as Hnn.
  destruct (begin_deploy_cases grant execution now c w) as [(e & ->)|[(e & ->)|(reservation & x & m & Hr & Ha & Hx & ->)]];
    cbn [fst snd].
  - split_and!; [done| |apply Ho]. apply guar_refl.
  - destruct (apart_step config init i w (set_state (set_reservations (delete (Grant.reservation_id grant)
      (reservations (state w))) (state w)) w) Hi) as [Hi' Hg']; try done.
    + cbn. intros k y [_ Hk]%lookup_delete_Some. by eapply Hi.
    + destruct (inv_capacity _ _ _ Hi) as [|Hc]; [by left|right]. by apply cap_unreserve.
    + apply Hi.
    + split_and!; [done..|]. apply Ho.
  - rewrite Hid in *. destruct Hx as (Hg & Hn & Hix & Hc & Hm & Hs).
    match goal with |- AgentInvariant.inv _ _ ?w' /\ _ => set (w2 := w') end.
    destruct (touch_step config init i id a r h false (Some x) (Some (Ok x)) (Saved x :: h) false w w2)
      as (? & ? & ?); try done; cbn.
    + split; cbn; [by exists [Saved x]|done| |done|].
      * by intros k y [_ Hk]%lookup_delete_Some.
      * intros id' Hne. rewrite Hg, Hid, bool_decide_false, !lookup_insert_ne by congruence. done.
    + apply lookup_insert_eq.
    + rewrite Hg, Hid. apply lookup_insert_eq.
    + rewrite Hg, Hid, bool_decide_true by done. f_equal. apply Ho.
    + split; [|done|by intros y z [= <-] _ [= <-]|by split].
      intros y [= <-]. split; [congruence| |].
      * pose proof (inv_reservations _ _ _ Hi _ _ Hr) as []. split; congruence.
      * rewrite Hn, Hix, Hg, <- Hid. by apply decode_execution_name.
    + intros y y' Hy. rewrite <- (own_active _ _ _ _ _ _ _ Ho), Ha in Hy. done.
    + right. by apply (cap_deploy config _ _ _ reservation).
Qed.

(** A step that only looks keeps what is known. *)
Lemma triple_skip {A C} i R (g : Choice -> World -> A) (q : A -> Tasks.Prog World Choice C) Q :
  stable i R -> (forall a, triple i R (q a) Q) -> triple i R (x ← Tasks.step (fun _ c w => (w, g c w)); q x) Q.
Proof. intros Hs Hq. eapply triple_bind'; [apply (triple_read i R _ (fun _ => R)); auto|done]. Qed.

Lemma triple_now {C} i R (q : Z -> Tasks.Prog World Choice C) Q :
  stable i R -> (forall a, triple i R (q a) Q) -> triple i R (x ← now_secs; q x) Q.
Proof. apply (triple_skip i R (fun c _ => clock c)). Qed.

Lemma set_phase_id x : set_phase (AgentStore.phase x) x = x.
Proof. by destruct x. Qed.

Lemma failed_deploy_from i id x y z h rb (uncertain : bool) :
  Grant.workload_id (AgentStore.grant y) = id -> x = set_phase (AgentStore.phase x) y ->
  AgentStore.runtime_id z = AgentStore.runtime_id y ->
  triple i (own i id (Some x) (Some (Ok z)) h rb) (failed_deploy config keys y uncertain) (fun _ w => holds i id w).
Proof. intros Hid -> Hz. by apply failed_deploy_triple. Qed.

Lemma deploy_guarded_triple i id grant execution :
  Grant.workload_id grant = id -> decode_execution keys grant = Ok execution ->
  triple i (holds i id) (deploy_guarded config keys grant execution) (fun _ w => holds i id w).
Proof.
  intros Hid Hdec. apply triple_own. intros a r h. unfold deploy_guarded.
  apply triple_now; [apply own_stable|]. intros now.
  destruct (Grant.verify grant now) as [[]|e]; cbn [lift]; [|apply triple_ret; by intros w []].
  eapply triple_bind; [by apply begin_deploy_triple|]. intros [[x m]|e]; [|by apply triple_ret].
  apply triple_and. intros Hg.
  assert (Grant.workload_id (AgentStore.grant x) = id) as Hx by congruence.
  rewrite Hid. eapply triple_bind'; [apply triple_runtime; [done|]|].
  { cbn. split; [done|]. exists x. by rewrite Hg. }
  intros [runtime_id|e]; cbn [is_ok].
  - apply triple_or; [by intros w (? & ? & _)|]. case_bool_decide as Hrt.
    + eapply triple_bind'; [apply (failed_deploy_from i id x x); [done|by rewrite set_phase_id|done]|].
      intros ?. by apply triple_ret.
    + assert (runtime_id = AgentStore.runtime_id x) as -> by (destruct (decide (runtime_id = AgentStore.runtime_id x)); tauto).
      eapply triple_bind'; [apply triple_save; [done|by intros y [= <-]]|]. intros [[]|e].
      * apply triple_or; [by intros w (? & ? & _)|]. intros w [_ Ho] Hi.
        eapply triple_conseq; [apply triple_insert|done| |exact Ho|done].
        -- apply sound_phase. by apply (entry_sound _ _ _ _ _ (own_entry _ _ _ _ _ _ _ _ _ Hi Ho)).
        -- by intros y _ [= <-].
        -- by intros y [= <-].
        -- right. exists x. split; [done|]. unfold holds_no_more. cbn. lia.
        -- intros b w' [_ []]. done.
      * apply triple_or; [|by intros w [? _]]. intros w (e' & [= <-] & Ho) Hi.
        eapply triple_bind'; [apply (failed_deploy_from i id x (set_phase AgentStore.Active x)); [done|by destruct x|done]|
          |exact Ho|done].
        intros ?. by apply triple_ret.
  - eapply (triple_bind' i _ _ _ (fun _ w => holds i id w)); [|intros ?; by apply triple_ret].
    apply triple_or; [|apply (failed_deploy_from i id x x); [done|by rewrite set_phase_id|done]].
    intros w (? & _ & Ho). revert w Ho. apply (failed_deploy_from i id x x); [done|by rewrite set_phase_id|done].
Qed.

(** ** Updates *)
Definition transitioning (request : Update.UpdateRequest) (x : StoredWorkload) : StoredWorkload :=
  set_phase (AgentStore.Updating (AgentStore.grant x) (AgentStore.runtime_id x) request)
    (AgentStore.set_resources (Update.cpu_milli request) (Update.memory_bytes request)
       (Update.storage_bytes request) x).

Lemma owned_inv id namespace_id s x :
  owned id namespace_id s = Some x ->
  active s !! id = Some x /\ Grant.namespace_id (AgentStore.grant x) = namespace_id.
Proof. unfold owned. repeat case_match; try done. intros [= ->]. bool_props. done. Qed.

Lemma begin_update_cases request execution now c w :
  let id := Update.workload_id request in
  (exists res, begin_update config keys request execution now c w = (w, res) /\
     forall x, res <> Ok (Transition x)) \/
  (exists x, owned id (Update.namespace_id request) (state w) = Some x /\
     fits_capacity config (plus (usage_without (state w) id) (Update.cpu_milli request)
       (Update.memory_bytes request) (Update.storage_bytes request)) = true /\
     begin_update config keys request execution now c w =
       (insert_active id (transitioning request x)
          (set_store (AgentStore.save (transitioning request x) (store w)) [Saved (transitioning request x)] w),
        Ok (Transition x))).
Proof.
  cbn zeta. unfold begin_update. cbn zeta. fold (transitioning request).
  destruct (owned _ _ _) as [x|] eqn:Hx; [|left; by eexists].
  repeat match goal with
  | |- context [if ?b then _ else (w, Err _)] => destruct b eqn:?; [|left; by eexists]
  | |- context [if ?b then (w, lift (mbind _ ?r)) else _] =>
      destruct b eqn:?; [left; eexists; split; [reflexivity|]; by destruct r|]
  end.
  fold (transitioning request x). unfold try_save. destruct (io_error c); [left; by eexists|]. right. by exists x.
Qed.

Lemma begin_update_triple i id request execution now a r h :
  Update.workload_id request = id ->
  nonneg (Update.cpu_milli request) (Update.memory_bytes request) (Update.storage_bytes request) ->
  triple i (own i id a r h false)
    (Tasks.step (fun _ c w => begin_update config keys request execution now c w))
    (fun res w => match res with
                  | Ok (Transition x) =>
                      own i id (Some (transitioning request x)) (Some (Ok (transitioning request x)))
                        (Saved (transitioning request x) :: h) false w /\
                      (sound id x /\ Grant.namespace_id (AgentStore.grant x) = Update.namespace_id request)
                  | _ => holds i id w
                  end).
Proof.
  intros Hid Hnn. apply triple_step; [apply own_stable|]. intros c w Ho Hi.
  pose proof (own_entry _ _ _ _ _ _ _ _ _ Hi Ho) as [Hs _ _ Hhist].
  destruct (begin_update_cases request execution now c w) as [(res & -> & Hres)|(x & Hx & Hfit & ->)]; cbn [fst snd].
  { split_and!; [done| |]; [apply guar_refl|].
    destruct res as [[]|]; [apply Ho|by edestruct Hres|apply Ho]. }
  rewrite Hid in *. apply owned_inv in Hx as [Hx Hns]. rewrite (own_active _ _ _ _ _ _ _ Ho) in Hx. subst a.
  specialize (Hs x eq_refl).
  assert (sound id (transitioning request x)) as Hst by (split; apply Hs || apply Hnn).
  assert (Grant.namespace_id (AgentStore.grant (transitioning request x)) = Grant.namespace_id (AgentStore.grant x)) as Hnt
    by done.
  assert (cap_ok config (set_active (<[id := transitioning request x]> (active (state w))) (state w))) as Hcap
    by (apply cap_update; [done|by eapply inv_nonneg|done|done]).
  generalize dependent (transitioning request x). intros t Hst Hnt Hcap.
  assert (Grant.workload_id (AgentStore.grant t) = id) as Ht by apply Hst.
  match goal with |- AgentInvariant.inv _ _ ?w' /\ _ => set (w2 := w') end.
  destruct (touch_step config init i id (Some x) r h false (Some t) (Some (Ok t)) (Saved t :: h) false w w2)
    as (? & ? & ?); try done; cbn.
  - split; cbn; [by exists [Saved t]|done|done|done|].
    intros id' Hne. rewrite Ht, bool_decide_false, !lookup_insert_ne by congruence. done.
  - apply lookup_insert_eq.
  - rewrite Ht. apply lookup_insert_eq.
  - rewrite Ht, bool_decide_true by done. f_equal. apply Ho.
  - split; [by intros y [= <-]|done|by intros y z [= <-] _ [= <-]|by split].
  - by intros y y' [= <-] [= <-].
  - by right.
Qed.

Lemma rollback_triple i id request x h rb :
  sound id x ->
  triple i (own i id (Some (transitioning request x)) (Some (Ok (transitioning request x))) h rb)
    (rollback config keys x) (fun _ w => holds i id w).
Proof.
  intros Hs. pose proof (sound_id _ _ Hs) as Hid. unfold rollback. rewrite Hid.
  destruct (decode_execution keys (AgentStore.grant x)) as [previous|e]; cbn [lift]; [|apply triple_ret; by intros w []].
  destruct (runtime_manifest _ _ _ _) as [[m measured]|e]; cbn [lift]; [|apply triple_ret; by intros w []].
  apply (triple_fact i _ (entry_ok init id (Some (transitioning request x)) (Some (Ok (transitioning request x))) h));
    [intros w Ho Hi; by eapply own_entry|]. intros [_ Hr _ _].
  eapply triple_bind; [apply triple_runtime; [done|]|].
  { cbn. split; [done|]. exists (transitioning request x). by rewrite <- Hr. }
  intros [runtime_id|e]; [|apply triple_ret; by intros w [(? & _ & [])|[]]].
  apply triple_or; [by intros w (? & ? & _)|].
  eapply triple_bind; [apply triple_save; [done|by intros y [= <-]]|].
  intros [[]|e]; [|apply triple_ret; by intros w [(? & _ & [])|[? _]]].
  apply triple_or; [by intros w (? & ? & _)|]. intros w [_ Ho]. revert w Ho.
  eapply triple_conseq; [apply triple_insert; [done| | |]|done|].
  - by intros y _ [= <-].
  - by intros y [= <-].
  - left. by rewrite orb_true_r.
  - by intros b w [_ []].
Qed.

Lemma updated_sound id request execution runtime_id now :
  Update.workload_id request = id -> Update.verify request now = Ok tt ->
  decode_execution keys (Update.grant request) = Ok execution ->
  sound id (updated_workload request execution runtime_id) /\
  Grant.namespace_id (Update.grant request) = Update.namespace_id request.
Proof.
  intros Hid Hv Hdec. apply update_verify_iff in Hv as (_ & _ & _ & _ & (? & ? & ?) & _ & (Hns & Hw & _) & _).
  split; [|done]. split; cbn; [congruence|split; cbn; lia|].
  apply decode_execution_name in Hdec as (ns & ? & ?). exists ns. split; congruence.
Qed.

Lemma update_guarded_triple i id request execution :
  Update.workload_id request = id -> decode_execution keys (Update.grant request) = Ok execution ->
  triple i (holds i id) (update_guarded config keys request execution) (fun _ w => holds i id w).
Proof.
  intros Hid Hdec. apply triple_own. intros a r h. unfold update_guarded. rewrite Hid.
  apply triple_now; [apply own_stable|]. intros now.
  destruct (Update.verify request now) as [[]|e] eqn:Hv; cbn [lift]; [|apply triple_ret; by intros w []].
  destruct (validate_and_measure_manifest _) as [?|e]; cbn [lift]; [|apply triple_ret; by intros w []].
  destruct (runtime_manifest _ _ _ _) as [[m measured]|e]; cbn [lift]; [|apply triple_ret; by intros w []].
  destruct (within _ _ _ _); [|apply triple_ret; by intros w []].
  pose proof Hv as (_ & _ & _ & _ & (? & ? & ?) & _)%update_verify_iff.
  eapply triple_bind; [apply begin_update_triple; [done|split; lia]|].
  intros [[response|x]|e]; [| |by apply triple_ret].
  - eapply triple_bind; [apply (triple_read i _ _ (fun _ w => holds i id w)); [apply holds_stable|done]|].
    intros [?|?]; by apply triple_ret.
  - apply triple_and. intros [Hs Hns]. eapply triple_bind'; [apply triple_runtime; [done|]|].
    { cbn. split; [done|]. by eexists. }
    intros [runtime_id|e].
    + apply triple_or; [by intros w (? & ? & _)|].
      destruct (updated_sound id request execution runtime_id now Hid Hv Hdec) as [Hu Hun].
      eapply triple_bind; [apply triple_save; [apply Hu|by intros y [= <-]]|].
      intros [[]|e]; [|apply triple_ret; by intros w [(? & _ & [])|[? _]]].
      apply triple_or; [by intros w (? & ? & _)|]. intros w [_ Ho]. revert w Ho.
      eapply triple_conseq; [apply triple_insert; [done| | |]|done|].
      * by intros y _ [= <-].
      * intros y [= <-]. cbn. congruence.
      * right. eexists. split; [done|]. unfold holds_no_more. cbn. lia.
      * by intros b w [_ []].
    + eapply (triple_bind' i _ _ _ (fun _ w => holds i id w)); [|intros ?; by apply triple_ret].
      apply triple_or; [|by apply rollback_triple]. intros w (? & _ & Ho). revert w Ho. by apply rollback_triple.
Qed.

(** ** Deletion and other commands *)
Lemma mark_deleting_triple i id x r h rb d :
  triple i (own i id (Some x) r h rb) (Tasks.step (fun _ _ w => mark_deleting id d w))
    (fun res w => own i id (Some (set_deleting d x)) r h rb w /\ res = Ok (set_deleting d x)).
Proof.
  apply triple_step; [apply own_stable|]. intros c w Ho Hi. unfold mark_deleting.
  rewrite (own_active _ _ _ _ _ _ _ Ho). cbn [fst snd].
  destruct (own_entry _ _ _ _ _ _ _ _ _ Hi Ho) as [Hs _ Hal _].
  destruct (insert_step config init i id (Some x) r h rb (set_deleting d x) w) as (? & ? & ?); try done.
  - destruct (Hs x eq_refl). by split.
  - intros y Hy Hr. by apply (Hal x y).
  - by intros y [= <-].
  - right. exists x. split; [done|]. unfold holds_no_more. cbn. lia.
Qed.

(** A workload that is gone from the runtime is forgotten. *)
Lemma forget_triple i id x r h rb :
  erase_ok (init !! id) h ->
  triple i (own i id (Some x) r h rb)
    (_ ←? store_remove id; Tasks.step (fun _ _ w => (remove_active id w, Ok (Ok "deleted") : Outcome (Outcome string))))
    (fun _ w => holds i id w).
Proof.
  intros He. eapply triple_bind; [by apply triple_erase|].
  intros [[]|e]; [|apply triple_ret; by intros w [(? & _ & [])|[? _]]].
  apply triple_or; [by intros w (? & ? & _)|]. intros w [_ Ho]. revert w Ho.
  eapply triple_conseq; [apply triple_drop_entry|done|by intros b w [_ []]].
Qed.

Lemma delete_running_triple i id x r h rb :
  Grant.workload_id (AgentStore.grant x) = id -> is_updating (AgentStore.phase x) = false ->
  triple i (own i id (Some x) r h rb) (delete_running id x) (fun _ w => holds i id w).
Proof.
  intros Hid Hup. unfold delete_running.
  apply (triple_fact i _ (sound id x)).
  { intros w Ho Hi. by apply (entry_sound _ _ _ _ _ (own_entry _ _ _ _ _ _ _ _ _ Hi Ho)). }
  intros Hs. eapply triple_bind; [apply mark_deleting_triple|]. intros res. apply triple_and. intros ->.
  eapply triple_bind'; [apply triple_save; [done|by intros y [= <-]]|].
  intros [[]|e].
  - apply triple_or; [by intros w (? & ? & _)|]. intros w [_ Ho]. revert w Ho.
    destruct (str_is_empty (AgentStore.runtime_id x)) eqn:He.
    { unfold str_is_empty in He. bool_props. apply forget_triple. cbn. by exists (set_deleting true x). }
    eapply triple_bind'; [by apply triple_runtime|]. intros [[]|e]; cbn [is_ok].
    + apply triple_or; [by intros w (? & ? & _)|]. apply forget_triple. cbn. intros y [= <-]. by right.
    + assert (forall r h rb, triple i (own i id (Some (set_deleting true x)) r h rb)
        (_ ←? store_save x; Tasks.step (fun _ _ w => (insert_active id x w, Ok (Err e) : Outcome (Outcome string))))
        (fun _ w => holds i id w)) as Hback.
      { intros r' h' rb'. eapply triple_bind; [apply triple_save; [done|by intros y [= <-]]|].
        intros [[]|e']; [|apply triple_ret; by intros w [(? & _ & [])|[? _]]].
        apply triple_or; [by intros w (? & ? & _)|]. intros w [_ Ho]. revert w Ho.
        eapply triple_conseq; [apply triple_insert; [done| | |]|done|by intros b w [_ []]].
        - by intros y _ [= <-].
        - by intros y [= <-].
        - right. eexists. split; [done|]. unfold holds_no_more. cbn. lia. }
      apply triple_or; [intros w (? & _ & Ho); revert w Ho; apply Hback|apply Hback].
  - apply triple_or; [|by intros w [? _]]. intros w (? & _ & Ho). revert w Ho.
    eapply triple_bind'; [apply mark_deleting_triple|]. intros res. apply triple_ret. by intros w [[] _].
Qed.

Lemma execute_delete_triple i id command x r h rb :
  Command.workload_id command = id -> is_delete (Command.operation command) = true ->
  triple i (own i id (Some x) r h rb) (execute config keys command x) (fun _ w => holds i id w).
Proof.
  intros Hid Hdel. unfold execute. rewrite Hid, Hdel, !andb_false_r. cbn [andb negb].
  apply (triple_fact i _ (sound id x)).
  { intros w Ho Hi. by apply (entry_sound _ _ _ _ _ (own_entry _ _ _ _ _ _ _ _ _ Hi Ho)). }
  intros Hs. destruct (needs_cleanup x) eqn:Hn.
  - eapply triple_bind'; [apply cleanup_triple; [apply Hs|by apply needs_cleanup_not_updating]|]. intros [[]|e].
    + apply triple_or; [by intros w (? & ? & _)|]. intros w [_ (h' & Ho)]. revert w Ho.
      eapply triple_conseq; [apply triple_drop_entry|done|by intros b w [_ []]].
    + apply triple_ret. by intros w [(? & _ & ?)|[? _]].
  - destruct (is_updating (AgentStore.phase x)) eqn:Hup; [apply triple_ret; by intros w []|].
    destruct (Command.operation command); try done. apply delete_running_triple; [apply Hs|done].
Qed.

(** Commands other than deletion only ask. *)
Lemma execute_read_triple i command x :
  is_delete (Command.operation command) = false ->
  triple i (fun _ => True) (execute config keys command x) (fun _ _ => True).
Proof.
  intros Hdel. unfold execute. rewrite Hdel, !andb_true_r. cbn [andb].
  repeat match goal with |- context [if ?b then Tasks.Ret _ else _] => destruct b; [by apply triple_ret|] end.
  destruct (Command.operation command); try done.
  - eapply triple_bind'; [by apply triple_ask|]. intros ?. by apply triple_ret.
  - eapply triple_bind'; [by apply triple_ask|]. intros ?. by apply triple_ret.
  - eapply triple_bind'; [by apply triple_ask|]. intros [response|e]; [|by apply triple_ret].
    by apply triple_read.
  - apply triple_now; [done|]. intros now. destruct (lift _); [|by apply triple_ret].
    eapply triple_bind; [by apply triple_ask|]. intros [response|e]; [|by apply triple_ret].
    apply triple_now; [done|]. intros now'. destruct (lift _); by apply triple_ret.
Qed.

(** ** Guards *)
Lemma mutation_triple i id owner :
  triple i (fun _ => True) (mutation_with_owner id owner)
    (fun res w => match res with Ok _ => holds i id w | Err _ => True end).
Proof.
  apply triple_step; [done|]. intros c w _ Hi.
  assert (guar i w w) by (apply guar_refl).
  destruct (_ <? _); [|done]. destruct (mutations w !! id) as [[o j]|] eqn:Hm; [done|]. cbn [fst snd].
  split_and!; [by destruct Hi| |exists owner; apply lookup_insert_eq].
  split; [|by apply entries_same]. intros j Hj. split; [by exists []|]. intros id' [o Ho].
  split_and!; try done. exists o. cbn. rewrite lookup_insert_ne; [done|congruence].
Qed.

Lemma drop_guard_triple i id : triple i (holds i id) (drop_guard id) (fun _ _ => True).
Proof.
  apply triple_step; [apply holds_stable|]. intros c w [o Ho] Hi. cbn [fst snd].
  split_and!; [by destruct Hi| |done]. split; [|by apply entries_same].
  intros j Hj. split; [by exists []|]. intros id' [o' Ho']. split_and!; try done.
  exists o'. cbn. rewrite lookup_delete_ne; [done|congruence].
Qed.

Lemma owner_mutation_triple i retries id :
  triple i (fun _ => True) (owner_mutation retries id)
    (fun res w => match res with Ok _ => holds i id w | Err _ => True end).
Proof.
  induction retries as [|retries IH]; cbn [owner_mutation];
    (eapply triple_bind'; [apply mutation_triple|]); intros [[]|e].
  1,3: by apply triple_ret.
  - case_bool_decide; by apply triple_ret.
  - case_bool_decide; [done|by apply triple_ret].
Qed.

Lemma guarded_triple {A} i retries id (p : Tasks.Prog World Choice (Outcome A)) :
  triple i (holds i id) p (fun _ w => holds i id w) ->
  triple i (fun _ => True) (guarded retries id p) (fun _ _ => True).
Proof.
  intros Hp. eapply triple_bind; [apply owner_mutation_triple|]. intros [[]|e]; [|by apply triple_ret].
  eapply triple_bind'; [done|]. intros r. eapply triple_bind'; [apply drop_guard_triple|]. intros ?. by apply triple_ret.
Qed.


(** ** Requests *)
Lemma check_replay_triple i op namespace nonce expires :
  triple i (fun _ => True) (check_replay op namespace nonce expires) (fun _ _ => True).
Proof.
  apply triple_step; [done|]. intros c w _ Hi.
  pose proof (record_cache_ok (replay w) (op +:+ ":" +:+ namespace +:+ ":" +:+ nonce) expires (clock c) (inv_replay _ _ _ Hi)) as Hr.
  destruct (record _ _ _ _) as [cache res]. cbn [fst snd] in *.
  destruct (apart_step config init i w (set_replay cache w) Hi); [done|done|done|done|apply Hi|apply Hi|done|by split_and!].
Qed.

Lemma encrypt_triple {A} `{Postcard A} i R (value : A) recipient :
  stable i R -> triple i R (encrypt value recipient) (fun _ => R).
Proof. intros Hs. by apply triple_read. Qed.

(** Dropping expired reservations. *)
Lemma drop_expired_keeps now s :
  state_nonneg s -> state_nonneg (drop_expired_reservations now s) /\
  (cap_ok config s -> cap_ok config (drop_expired_reservations now s)).
Proof.
  intros Hs. split; [|by apply cap_retain]. split; [apply Hs|]. cbn. intros k r [Hk _]%lookup_map_retain. by eapply Hs.
Qed.

Lemma reservation_sign_keeps r public private r' :
  Reservation.sign r public private = Ok r' ->
  Reservation.cpu_milli r' = Reservation.cpu_milli r /\ Reservation.memory_bytes r' = Reservation.memory_bytes r /\
  Reservation.storage_bytes r' = Reservation.storage_bytes r.
Proof. unfold Reservation.sign. intros Hs. Signed.result_steps Hs. by injection Hs as <-. Qed.

Lemma refusal_none request s :
  refusal config request s = None ->
  fits_capacity config (plus (usage s) (Admission.cpu_milli request) (Admission.memory_bytes request)
    (Admission.storage_bytes request)) = true.
Proof.
  unfold refusal. cbn zeta. repeat (case_match; [done|]). intros _. bool_props. done.
Qed.

Lemma decide_admission_keeps request now uuid s :
  state_nonneg s ->
  nonneg (Admission.cpu_milli request) (Admission.memory_bytes request) (Admission.storage_bytes request) ->
  state_nonneg (decide_admission config keys request now uuid s).1 /\
  active (decide_admission config keys request now uuid s).1 = active s /\
  (cap_ok config s -> cap_ok config (decide_admission config keys request now uuid s).1).
Proof.
  intros Hs Hn. destruct (drop_expired_keeps now s Hs) as [Hs' Hcap]. unfold decide_admission. cbn zeta.
  set (s' := drop_expired_reservations now s) in *.
  destruct (Reservation.sign _ _ _) as [r|e] eqn:Hsign; cbn [fst]; [|by split_and!].
  destruct (refusal config request s') eqn:Hr; cbn [fst]; [by split_and!|].
  apply reservation_sign_keeps in Hsign as (H1 & H2 & H3). cbn in H1, H2, H3.
  assert (reservation_nonneg r) as Hrn by (unfold reservation_nonneg; by rewrite H1, H2, H3).
  split_and!; [|done|].
  - split; [apply Hs'|]. cbn. intros k r' [[_ <-]|[_ Hk]]%lookup_insert_Some; [done|by eapply Hs'].
  - intros Hc. apply cap_reserve; [done|done|done|by apply Hcap|]. rewrite H1, H2, H3. by apply refusal_none.
Qed.

Lemma admit_triple i request :
  nonneg (Admission.cpu_milli request) (Admission.memory_bytes request) (Admission.storage_bytes request) ->
  triple i (fun _ => True) (admit_request config keys request) (fun _ _ => True).
Proof.
  intros Hn. unfold admit_request. apply triple_now; [done|]. intros now.
  destruct (lift _); [|by apply triple_ret]. destruct (bool_decide _); [|by apply triple_ret].
  eapply triple_bind; [apply check_replay_triple|]. intros [?|?]; [|by apply triple_ret].
  eapply (triple_bind i _ _ _ (fun _ _ => True)); [|intros [?|?]; [by apply encrypt_triple|by apply triple_ret]].
  apply triple_step; [done|]. intros c w _ Hi. pose proof (inv_nonneg _ _ _ Hi) as Hs.
  pose proof (decide_admission_keeps request now (uuid c) (state w) Hs Hn) as (Hs' & Ha & Hc).
  destruct (decide_admission _ _ _ _ _ _) as [s res]. cbn [fst snd] in *.
  destruct (apart_step config init i w (set_state s w) Hi); [done|done|done|done|apply Hs'| |apply Hi|by split_and!].
  destruct (inv_capacity _ _ _ Hi) as [?|?]; [by left|right; by apply Hc].
Qed.

Lemma deploy_triple i retries grant : triple i (fun _ => True) (deploy_inner config keys retries grant) (fun _ _ => True).
Proof.
  unfold deploy_inner. apply triple_now; [done|]. intros now.
  destruct (lift _); [|by apply triple_ret]. destruct (bool_decide _); [|by apply triple_ret].
  eapply triple_bind; [apply check_replay_triple|]. intros [?|?]; [|by apply triple_ret].
  destruct (decode_execution keys grant) as [execution|] eqn:Hd; cbn [lift]; [|by apply triple_ret].
  destruct (lift _); [|by apply triple_ret].
  eapply triple_bind; [by apply guarded_triple, deploy_guarded_triple|]. intros [[t runtime_id]|?]; [|by apply triple_ret].
  destruct (lift _); [by apply encrypt_triple|by apply triple_ret].
Qed.

Lemma update_triple i retries request :
  triple i (fun _ => True) (update_inner config keys retries request) (fun _ _ => True).
Proof.
  unfold update_inner. apply triple_now; [done|]. intros now.
  destruct (lift _); [|by apply triple_ret]. destruct (bool_decide _); [|by apply triple_ret].
  eapply triple_bind; [apply check_replay_triple|]. intros [?|?]; [|by apply triple_ret].
  destruct (decode_execution keys _) as [execution|] eqn:Hd; cbn [lift]; [|by apply triple_ret].
  eapply triple_bind; [by apply guarded_triple, update_guarded_triple|].
  intros [[sealed|[t updated]]|?]; [by apply triple_ret| |by apply triple_ret].
  destruct (lift _); [by apply encrypt_triple|by apply triple_ret].
Qed.

Lemma list_triple i request : triple i (fun _ => True) (list_inner config keys request) (fun _ _ => True).
Proof.
  unfold list_inner. apply triple_now; [done|]. intros now. destruct (lift _); [|by apply triple_ret].
  eapply triple_bind; [apply check_replay_triple|]. intros [?|?]; [|by apply triple_ret].
  eapply triple_bind; [by apply (triple_read i _ _ (fun _ _ => True))|]. intros [?|?]; [|by apply triple_ret].
  apply (triple_skip i _ (fun _ w => current_endpoint_address w)); [done|]. intros address.
  destruct (lift _); [|by apply triple_ret]. destruct (lift _); [|by apply triple_ret].
  destruct (lift _); [by apply encrypt_triple|by apply triple_ret].
Qed.

Lemma respond_triple i R command now result : stable i R -> triple i R (respond keys command now result) (fun _ => R).
Proof. intros Hs. unfold respond. destruct (lift _); [by apply encrypt_triple|by apply triple_ret]. Qed.

Lemma lookup_owned_triple i id namespace_id a r h rb :
  triple i (own i id a r h rb) (lookup_owned id namespace_id)
    (fun res w => own i id a r h rb w /\ match res with Ok x => a = Some x | Err _ => True end).
Proof.
  apply triple_read; [apply own_stable|]. intros c w Ho Hi. split; [done|].
  destruct (owned id namespace_id (state w)) as [x|] eqn:Hx; cbn; [|done].
  apply owned_inv in Hx as [Hx _]. by rewrite <- (own_active _ _ _ _ _ _ _ Ho).
Qed.

Lemma command_triple i retries cmd : triple i (fun _ => True) (command config keys retries cmd) (fun _ _ => True).
Proof.
  unfold command. apply triple_now; [done|]. intros now.
  destruct (lift _); [|by apply triple_ret]. destruct (bool_decide _); [|by apply triple_ret].
  eapply triple_bind; [apply check_replay_triple|]. intros [?|?]; [|by apply triple_ret].
  eapply triple_bind; [by apply (triple_read i _ _ (fun _ _ => True))|]. intros [x|?]; [|by apply triple_ret].
  destruct (is_delete (Command.operation cmd)) eqn:Hd.
  - apply guarded_triple, triple_own. intros e0 r h. apply triple_now; [apply own_stable|]. intros t.
    destruct (lift _); [|apply triple_ret; by intros w []].
    eapply triple_bind; [apply lookup_owned_triple|]. intros [y|?]; [|apply triple_ret; by intros w [[] _]].
    apply triple_and. intros ->. eapply triple_bind; [by apply execute_delete_triple|].
    intros [?|?]; [apply respond_triple, holds_stable|by apply triple_ret].
  - eapply triple_bind; [by apply execute_read_triple|]. intros [?|?]; [by apply respond_triple|by apply triple_ret].
Qed.


(** ** Enrollment and offers *)
Lemma save_enrollment_triple i id b :
  triple i (holds i id) (save_enrollment_step b) (fun _ w => holds i id w).
Proof.
  apply triple_step; [apply holds_stable|]. intros c w Hh Hi.
  destruct (io_error c); cbn [fst snd].
  { split_and!; [done| |done]. apply guar_refl. }
  destruct (apart_step config init i w (set_store (AgentStore.save_enrollment b (store w)) [] w) Hi);
    [done|done|done|done|apply Hi|apply Hi|apply Hi|by split_and!].
Qed.

Lemma install_identity_triple i id x delegation binding challenge now :
  triple i (holds i id) (install_identity keys x delegation binding challenge now) (fun _ w => holds i id w).
Proof.
  unfold install_identity. destruct (lift _); [|by apply triple_ret].
  eapply triple_bind; [apply triple_ask; [apply holds_stable|done|done]|]. intros [?|?]; [|by apply triple_ret].
  destruct (lift _); [|by apply triple_ret]. destruct (lift _); [|by apply triple_ret].
  apply triple_now; [apply holds_stable|]. intros t. destruct (lift _); [|by apply triple_ret].
  destruct (bool_decide _); by apply triple_ret.
Qed.

Lemma enroll_stored_triple i id x :
  triple i (holds i id) (enroll_stored keys x) (fun _ w => holds i id w).
Proof.
  unfold enroll_stored. destruct (_ && _); [|by apply triple_ret].
  do 3 (destruct (lift _); [|by apply triple_ret]).
  apply triple_now; [apply holds_stable|]. intros t. destruct (lift _); [|by apply triple_ret].
  apply (triple_skip i _ (fun c _ => Connector.inspection_challenge (secure_nonce c))); [apply holds_stable|]. intros challenge.
  eapply triple_bind; [apply triple_ask; [apply holds_stable|done|done]|]. intros [response|?]; [|by apply triple_ret].
  destruct (lift _); [|by apply triple_ret]. destruct (negb _); [|by apply triple_ret].
  destruct (lift _); [|by apply triple_ret].
  apply triple_now; [apply holds_stable|]. intros t'. do 2 (destruct (lift _); [|by apply triple_ret]).
  eapply triple_bind; [apply (triple_read i _ _ (fun _ w => holds i id w)); [apply holds_stable|done]|].
  intros [existing|?]; [|by apply triple_ret]. destruct (lift _); [|by apply triple_ret].
  eapply (triple_bind i _ _ _ (fun _ w => holds i id w));
    [case_bool_decide; [by apply triple_ret|apply save_enrollment_triple]|].
  intros [?|?]; [|by apply triple_ret]. apply triple_now; [apply holds_stable|]. intros t''.
  destruct (renewal_due _ _ _); [|apply install_identity_triple]. destruct (lift _); by apply triple_ret.
Qed.

Lemma enroll_one_triple i id : triple i (fun _ => True) (enroll_one keys id) (fun _ _ => True).
Proof.
  unfold enroll_one. eapply triple_bind'; [apply mutation_triple|]. intros [?|?]; [|by apply triple_ret].
  apply (triple_skip i _ (fun _ w => active (state w) !! id)); [apply holds_stable|]. intros stored.
  eapply (triple_bind' i _ _ _ (fun _ w => holds i id w)); [|intros ?; apply drop_guard_triple].
  destruct stored; [|by apply triple_ret].
  eapply triple_bind'; [apply enroll_stored_triple|]. intros ?. by apply triple_ret.
Qed.

Lemma capacity_offer_triple i query address now :
  triple i (fun _ => True) (capacity_offer config keys query address now) (fun _ _ => True).
Proof.
  unfold capacity_offer. destruct (lift _); [|by apply triple_ret].
  do 2 (match goal with |- context [if ?b then Tasks.Ret _ else _] => destruct b; [by apply triple_ret|] end).
  eapply (triple_bind' i _ _ _ (fun _ _ => True)).
  - apply triple_step; [done|]. intros c w _ Hi. cbn [fst snd].
    destruct (drop_expired_keeps now (state w) (inv_nonneg _ _ _ Hi)) as [Hs Hc].
    destruct (apart_step config init i w (set_state (drop_expired_reservations now (state w)) w) Hi);
      [done|done|done|done|apply Hs| |apply Hi|by split_and!].
    destruct (inv_capacity _ _ _ Hi); [by left|right; by apply Hc].
  - intros s. destruct (negb _); [by apply triple_ret|]. destruct (available config s) as [[? ?] ?].
    do 2 (destruct (lift _); [|by apply triple_ret]). by apply triple_ret.
Qed.

Lemma attachment_hello_triple i address now :
  triple i (fun _ => True) (attachment_hello config keys address now) (fun _ _ => True).
Proof.
  unfold attachment_hello. destruct (lift _); [|by apply triple_ret].
  apply triple_step; [done|]. intros c w _ Hi. cbn [fst snd].
  destruct (apart_step config init i w (set_endpoint_address address w) Hi);
    [done|done|done|done|apply Hi|apply Hi|apply Hi|by split_and!].
Qed.

(** ** Every task *)

(** Integers arrive at their Rust width. *)
Definition decodes_unsigned : Prop :=
  forall b (r : Admission.AdmissionRequest), from_postcard b = Some r ->
    nonneg (Admission.cpu_milli r) (Admission.memory_bytes r) (Admission.storage_bytes r).

Context (Hwidth : decodes_unsigned).

Lemma serve_triple i retries frame : triple i (fun _ => True) (serve config keys retries frame) (fun _ _ => True).
Proof.
  eapply (triple_bind' i _ _ _ (fun _ _ => True)); [|intros ?; by apply triple_ret]. unfold dispatch.
  destruct (lift _) as [request|]; [|by apply triple_ret]. destruct (AgentControl.operation request).
  - destruct (decrypt keys _) as [message|] eqn:Hd; cbn [lift]; [|by apply triple_ret]. apply admit_triple.
    unfold decrypt in Hd. Signed.result_steps Hd. eapply Hwidth.
    destruct (from_postcard x) eqn:Hf; [|done]. injection Hd as <-. exact Hf.
  - destruct (lift _); [apply deploy_triple|by apply triple_ret].
  - destruct (lift _); [apply update_triple|by apply triple_ret].
  - destruct (lift _); [apply command_triple|by apply triple_ret].
  - apply triple_now; [done|]. intros now. destruct (lift _); [apply list_triple|by apply triple_ret].
Qed.

(** The tasks the agent runs: serving a control frame, refreshing the enrollment
    of a workload, answering a capacity query, attaching to a scheduler. *)
Inductive agent_task : Tasks.Prog World Choice unit -> Prop :=
| serve_task retries frame : agent_task (_ ← serve config keys retries frame; Tasks.Ret tt)
| enroll_task id : agent_task (enroll_one keys id)
| offer_task query address now : agent_task (_ ← capacity_offer config keys query address now; Tasks.Ret tt)
| attach_task address now : agent_task (_ ← attachment_hello config keys address now; Tasks.Ret tt).

Lemma agent_task_triple i p : agent_task p -> triple i (fun _ => True) p (fun _ _ => True).
Proof.
  destruct 1; [|apply enroll_one_triple|..]; eapply triple_bind';
    [apply serve_triple| |apply capacity_offer_triple| |apply attachment_hello_triple|]; intros ?; by apply triple_ret.
Qed.

Definition agent_event (e : Tasks.Event (World := World) (Choice := Choice)) : Prop :=
  match e with Tasks.Spawn _ p => agent_task p | _ => True end.

(** The agent when it starts serving: what it knows of each workload fits its
    record, nothing is in progress. *)
Record started (w : World) : Prop := {
  started_trace : trace w = [];
  started_store : records (store w) = init;
  started_reservations : reservations (state w) = ∅;
  started_capacity : cap_ok config (state w);
  started_cache : cache_ok (replay w);
  started_sound id x : active (state w) !! id = Some x -> sound id x;
  started_aligned id x y : active (state w) !! id = Some x -> is_updating (AgentStore.phase x) = false ->
    init !! id = Some (Ok y) -> AgentStore.runtime_id y = AgentStore.runtime_id x
}.

Lemma started_inv w : started w -> inv w.
Proof.
  intros [Ht Hs Hr Hc Hp Hx Ha]. split.
  - intros id. rewrite Ht, Hs. cbn. split; cbn; [apply Hx|done|apply Ha|done].
  - intros id r. by rewrite Hr.
  - by right.
  - done.
Qed.

Definition run (w : World) (events : list (Tasks.Event (World := World) (Choice := Choice)))
    : World * Tasks.Pool (World := World) (Choice := Choice) :=
  Tasks.pool_run release (w, fun _ => None) events.

Lemma run_safe w events :
  started w -> Forall agent_event events ->
  Tasks.pool_safe inv (AgentInvariant.rely) (AgentInvariant.guar) (run w events).
Proof.
  intros Hw Hev. apply Tasks.pool_run_safe; [apply laws|split; [by apply started_inv|done]|].
  eapply Forall_impl; [done|]. intros [] He; cbn; try done. intros w'. eapply triple_spawn; [apply rely_refl|by apply agent_task_triple].
Qed.

Lemma run_filed w events id y :
  started w -> Forall agent_event events -> active (state (run w events).1) !! id = Some y ->
  Grant.workload_id (AgentStore.grant y) = id.
Proof.
  intros Hw Hev Hy. destruct (run_safe w events Hw Hev) as [Hi _].
  apply (sound_id _ _ (entry_sound _ _ _ _ _ (inv_entries _ _ _ Hi id) y Hy)).
Qed.

(** C3. The agent never promises more than it has: however its tasks interleave
    and wherever they are cancelled, the CPU, memory and storage held by its
    workloads and reservations together stay within its capacity, as long as no
    failed update was rolled back. *)
Theorem capacity_respected (w : World) events :
  started w -> Forall agent_event events -> ~ rolled_back (trace (run w events).1) ->
  let s := state (run w events).1 in
  total_cpu s <= capacity_cpu_milli config /\
  Z.min u64_max (total_memory s) <= capacity_memory_bytes config /\
  Z.min u64_max (total_storage s) <= capacity_storage_bytes config.
Proof.
  intros Hw Hev Hrb. destruct (run_safe w events Hw Hev) as [Hi _].
  destruct (inv_capacity _ _ _ Hi) as [?|[]]; done.
Qed.

(** C10. Nothing the agent deploys is forgotten in a crash: at every point of
    every run the store holds what the history of a workload says, a deployment
    was asked of the runtime only after a record naming the workload's owner was
    durable, and a record was erased only after the runtime confirmed that what
    it names is gone, or when it names nothing. *)
Theorem deployments_recoverable (w : World) events (id : string) :
  started w -> Forall agent_event events ->
  let h := history id (trace (run w events).1) in
  records (store (run w events).1) !! id = last_record (init !! id) h /\ history_ok (init !! id) h.
Proof.
  intros Hw Hev. destruct (run_safe w events Hw Hev) as [Hi _].
  destruct (inv_entries _ _ _ Hi id) as [_ Hr _ Hh]. done.
Qed.

(** C9. A workload keeps its owner and its place: in every run, each entry is
    filed under the identity its owner, name and index determine; an event
    changes the entry of a workload only when one task holds the workload's
    guard, and never changes its owner. *)
Theorem workloads_guarded (w : World) events event (id : string) :
  started w -> Forall agent_event events -> agent_event event ->
  let before := run w events in
  let after := Tasks.pool_step release before event in
  (forall x, active (state after.1) !! id = Some x -> sound id x) /\
  (active (state after.1) !! id = active (state before.1) !! id \/
   exists i, holds i id before.1 /\
     forall x x', active (state before.1) !! id = Some x -> active (state after.1) !! id = Some x' ->
       Grant.namespace_id (AgentStore.grant x') = Grant.namespace_id (AgentStore.grant x)).
Proof.
  intros Hw Hev He. cbn zeta. pose proof (run_safe w events Hw Hev) as Hs.
  destruct (Tasks.pool_step_ok release inv AgentInvariant.rely AgentInvariant.guar (laws config init) (run w events) event Hs)
    as [[Hi _] Hg].
  { destruct event; try done. cbn. intros w'. eapply triple_spawn; [apply rely_refl|by apply agent_task_triple]. }
  split; [intros x; apply (entry_sound _ _ _ _ _ (inv_entries _ _ _ Hi id))|].
  destruct Hg as [->|(i & _ & Hk)]; [by left|]. destruct (Hk id) as [?|?]; [by left|right; by exists i].
Qed.

End Safety.
End AgentSafety.
