(* ===== verification/AgentInterrupted.v ===== *)
(** * Interrupted updates (podmesh-agent/src/service.rs)

    An update that was recorded but neither completed nor rolled back stays in
    the updating phase.  This file shows that no task of the running agent ever
    moves such a workload: only a restart does. *)

From S2P Require Import Prelude Net Crypto Signed Identity Registration Biscuit WorkloadIdentity AgentIds Connector AgentMessages AgentControl Tasks AgentStore AgentState AgentUsage AgentService AgentInvariant AgentSafety.

Module AgentInterrupted.
Import Crypto AgentMessages AgentState AgentService.
Import AgentStore (StoredWorkload, is_updating, needs_cleanup, set_phase, set_deleting).
Import Tasks (triple_ret, triple_bind, triple_step, triple_conseq).

Section Interrupted.
Context {I : Iroh} {P : Primitives} {B : Biscuit.BiscuitAuth} {H : Blake3}.
Context {MF : Manifests} {RT : WorkloadRuntime} {CD : AgentCodecs}.
Context (config : Config) (keys : Keys).
Context (id : string) (x : StoredWorkload) (Hup : is_updating (AgentStore.phase x) = true).

(** Entries are filed under their workload identity, and the interrupted one is
    in place. *)
Definition parked (w : World) : Prop :=
  active (state w) !! id = Some x /\
  forall id' y, active (state w) !! id' = Some y -> Grant.workload_id (AgentStore.grant y) = id'.

(** Whatever others do, [p] leaves the workload in place and ends in [Q]. *)
Definition parks {A} (i : nat) (p : Tasks.Prog World Choice A) (Q : A -> Prop) : Prop :=
  Tasks.triple parked (fun _ _ _ => True) (fun _ _ _ => True) i (fun _ => True) p (fun a _ => Q a).

Lemma parks_ret {A} i (a : A) (Q : A -> Prop) : Q a -> parks i (Tasks.Ret a) Q.
Proof. intros HQ. by apply triple_ret. Qed.

Lemma parks_bind {A C} i (p : Tasks.Prog World Choice A) (g : A -> Tasks.Prog World Choice C) (S : A -> Prop) Q :
  parks i p S -> (forall a, S a -> parks i (g a) Q) -> parks i (Tasks.prog_bind p g) Q.
Proof.
  intros Hp Hg. eapply triple_bind; [exact Hp|]. intros a w Ha Hi. by apply Hg.
Qed.

Lemma parks_any {A C} i (p : Tasks.Prog World Choice A) (g : A -> Tasks.Prog World Choice C) Q :
  parks i p (fun _ => True) -> (forall a, parks i (g a) Q) -> parks i (Tasks.prog_bind p g) Q.
Proof. intros Hp Hg. eapply parks_bind; [done|]. intros a _. apply Hg. Qed.

Lemma parks_step {A} i (f : nat -> Choice -> World -> World * A) (Q : A -> Prop) :
  (forall c w, parked w -> parked (f i c w).1 /\ Q (f i c w).2) -> parks i (Tasks.step f) Q.
Proof. intros Hf. apply triple_step; [done|]. intros c w _ Hi. destruct (Hf c w Hi). done. Qed.

(** A step that leaves the table of workloads alone. *)
Lemma parks_same {A} i (f : nat -> Choice -> World -> World * A) :
  (forall c w, active (state (f i c w).1) = active (state w)) -> parks i (Tasks.step f) (fun _ => True).
Proof. intros Hf. apply parks_step. intros c w [Hx Hfiled]. split; [|done]. unfold parked. by rewrite Hf. Qed.

Lemma parks_weaken {A} i (p : Tasks.Prog World Choice A) (Q : A -> Prop) : parks i p Q -> parks i p (fun _ => True).
Proof. intros Hp. eapply triple_conseq; [exact Hp|done|done]. Qed.

Lemma parked_insert id' y w :
  id' <> id -> Grant.workload_id (AgentStore.grant y) = id' -> parked w -> parked (insert_active id' y w).
Proof.
  intros Hne Hy [Hx Hf]. split; cbn; [by rewrite lookup_insert_ne|].
  intros k z [[<- <-]|[_ Hk]]%lookup_insert_Some; [done|by apply Hf].
Qed.

Lemma parked_remove id' w : id' <> id -> parked w -> parked (remove_active id' w).
Proof.
  intros Hne [Hx Hf]. split; cbn; [by rewrite lookup_delete_ne|]. intros k z [_ Hk]%lookup_delete_Some. by apply Hf.
Qed.

Lemma parks_insert {A} i id' y (a : A) (Q : A -> Prop) :
  id' <> id -> Grant.workload_id (AgentStore.grant y) = id' -> Q a ->
  parks i (Tasks.step (fun _ _ w => (insert_active id' y w, a))) Q.
Proof. intros Hne Hy HQ. apply parks_step. intros c w Hw. split; [by apply parked_insert|done]. Qed.

Lemma parks_remove {A} i id' (a : A) :
  id' <> id -> parks i (Tasks.step (fun _ _ w => (remove_active id' w, a))) (fun _ => True).
Proof. intros Hne. apply parks_step. intros c w Hw. split; [by apply parked_remove|done]. Qed.

(** ** Operations that do not touch the table *)
Lemma runtime_parks {A} i id' op call (answer : Choice -> option (Outcome A)) :
  parks i (runtime_operation id' op call answer) (fun _ => True).
Proof.
  eapply (parks_any i); [apply parks_same; intros c w; by destruct (permit c)|].
  intros [|]; [by apply parks_same|by apply parks_ret].
Qed.

Lemma save_parks i y : parks i (store_save y) (fun _ => True).
Proof. apply parks_same. intros c w. unfold try_save. by destruct (io_error c). Qed.

Lemma erase_parks i id' : parks i (store_remove id') (fun _ => True).
Proof. apply parks_same. intros c w. unfold try_remove. by destruct (io_error c). Qed.

Lemma now_parks i : parks i now_secs (fun _ => True).
Proof. by apply parks_same. Qed.

Lemma replay_parks i op namespace nonce expires : parks i (check_replay op namespace nonce expires) (fun _ => True).
Proof. apply parks_same. intros c w. by destruct (record _ _ _ _). Qed.

Lemma encrypt_parks {A} `{Postcard A} i (value : A) recipient : parks i (encrypt value recipient) (fun _ => True).
Proof. by apply parks_same. Qed.

Lemma guard_parks i id' owner : parks i (mutation_with_owner id' owner) (fun _ => True).
Proof. apply parks_same. intros c w. destruct (_ <? _); [|done]. by destruct (mutations w !! id') as [[]|]. Qed.

Lemma drop_guard_parks i id' : parks i (drop_guard id') (fun _ => True).
Proof. by apply parks_same. Qed.

Lemma owner_mutation_parks i retries id' : parks i (owner_mutation retries id') (fun _ => True).
Proof.
  induction retries; cbn [owner_mutation]; (eapply (parks_any i); [apply guard_parks|]);
    intros [?|?]; try case_bool_decide; done || by apply parks_ret.
Qed.

Lemma guarded_parks {A} i retries id' (p : Tasks.Prog World Choice (Outcome A)) :
  parks i p (fun _ => True) -> parks i (guarded retries id' p) (fun _ => True).
Proof.
  intros Hp. eapply (parks_any i); [apply owner_mutation_parks|]. intros [?|?]; [|by apply parks_ret].
  eapply (parks_any i); [done|]. intros r. eapply (parks_any i); [apply drop_guard_parks|]. intros ?. by apply parks_ret.
Qed.

Lemma cleanup_parks i y : parks i (cleanup_pending config keys y) (fun _ => True).
Proof.
  unfold cleanup_pending. destruct (lift _); [|by apply parks_ret].
  eapply (parks_any i); [apply runtime_parks|]. intros [?|?]; [apply erase_parks|by apply parks_ret].
Qed.

(** ** Requests *)
Lemma failed_deploy_parks i y uncertain :
  Grant.workload_id (AgentStore.grant y) <> id -> parks i (failed_deploy config keys y uncertain) (fun _ => True).
Proof.
  intros Hne. unfold failed_deploy. cbn [AgentStore.grant set_phase].
  eapply (parks_any i).
  - apply parks_step. intros c w Hw. split; [|done].
    apply (parked_insert (Grant.workload_id (AgentStore.grant y)) (set_phase (AgentStore.CleanupPending uncertain) y)) in Hw;
      [|done|done].
    unfold try_save. by destruct (io_error c).
  - intros _. eapply (parks_any i); [apply cleanup_parks|]. intros [?|?]; [by apply parks_remove|by apply parks_ret].
Qed.

(** A deployment of the interrupted workload is refused. *)
Lemma begin_deploy_parks i grant execution now :
  parks i (Tasks.step (fun _ c w => begin_deploy config grant execution now c w))
    (fun r => match r with
              | Ok (y, _) => Grant.workload_id grant <> id /\ AgentStore.grant y = grant
              | Err _ => True
              end).
Proof.
  apply parks_step. intros c w Hw.
  destruct (AgentSafety.begin_deploy_cases config grant execution now c w)
    as [(e & ->)|[(e & ->)|(r & y & m & _ & Ha & (Hg & _) & ->)]]; cbn [fst snd]; [done|done|].
  assert (Grant.workload_id grant <> id) as Hne. { intros Heq. destruct Hw as [Hx _]. congruence. }
  split; [|done]. apply parked_insert; [done|congruence|exact Hw].
Qed.

Lemma deploy_guarded_parks i grant execution : parks i (deploy_guarded config keys grant execution) (fun _ => True).
Proof.
  unfold deploy_guarded. eapply (parks_any i); [apply now_parks|]. intros now.
  destruct (lift _); [|by apply parks_ret].
  eapply parks_bind; [apply begin_deploy_parks|]. intros [[y m]|e]; [|intros _; by apply parks_ret]. intros [Hne Hg].
  assert (Grant.workload_id (AgentStore.grant y) <> id) as Hy by congruence.
  eapply (parks_any i); [apply runtime_parks|]. intros [runtime_id|e].
  - case_bool_decide.
    + eapply (parks_any i); [by apply failed_deploy_parks|]. intros ?. by apply parks_ret.
    + eapply (parks_any i); [apply save_parks|]. intros [?|?].
      * apply parks_insert; [done|cbn; congruence|done].
      * eapply (parks_any i); [by apply failed_deploy_parks|]. intros ?. by apply parks_ret.
  - eapply (parks_any i); [by apply failed_deploy_parks|]. intros ?. by apply parks_ret.
Qed.

(** An update of the interrupted workload is refused. *)
Lemma begin_update_parks i request execution now :
  parks i (Tasks.step (fun _ c w => begin_update config keys request execution now c w))
    (fun r => match r with
              | Ok (Transition y) =>
                  Update.workload_id request <> id /\ Grant.workload_id (AgentStore.grant y) = Update.workload_id request
              | _ => True
              end).
Proof.
  apply parks_step. intros c w Hw. pose proof Hw as [Hx Hf].
  destruct (decide (Update.workload_id request = id)) as [Heq|Hne].
  - assert (exists e, begin_update config keys request execution now c w = (w, Err e)) as (e & ->); [|done].
    unfold begin_update. destruct (owned _ _ _) as [y|] eqn:Hy; [|by eexists].
    apply AgentSafety.owned_inv in Hy as [Hy _]. rewrite Heq, Hx in Hy. injection Hy as <-.
    destruct (AgentStore.phase x); try done. cbn [AgentStore.is_active_phase]. rewrite andb_false_r. cbn. by eexists.
  - destruct (AgentSafety.begin_update_cases config keys request execution now c w) as [(res & -> & Hres)|(y & Hy & _ & ->)];
      cbn [fst snd]; [split; [done|]; by destruct res as [[]|]; [|edestruct Hres|]|].
    apply AgentSafety.owned_inv in Hy as [Hy _]. apply Hf in Hy. split; [|done].
    by apply parked_insert.
Qed.

Lemma rollback_parks i y :
  Grant.workload_id (AgentStore.grant y) <> id -> parks i (rollback config keys y) (fun _ => True).
Proof.
  intros Hne. unfold rollback. destruct (lift _); [|by apply parks_ret].
  destruct (lift _) as [[m measured]|]; [|by apply parks_ret].
  eapply (parks_any i); [apply runtime_parks|]. intros [?|?]; [|by apply parks_ret].
  eapply (parks_any i); [apply save_parks|]. intros [?|?]; [by apply parks_insert|by apply parks_ret].
Qed.

Lemma update_guarded_parks i request execution : parks i (update_guarded config keys request execution) (fun _ => True).
Proof.
  unfold update_guarded. eapply (parks_any i); [apply now_parks|]. intros now.
  destruct (Update.verify request now) as [[]|] eqn:Hv; cbn [lift]; [|by apply parks_ret].
  destruct (lift _); [|by apply parks_ret]. destruct (lift _) as [[m measured]|]; [|by apply parks_ret].
  destruct (within _ _ _ _); [|by apply parks_ret].
  eapply parks_bind; [apply begin_update_parks|]. intros [[response|y]|e].
  - intros _. eapply (parks_any i); [apply encrypt_parks|]. intros [?|?]; by apply parks_ret.
  - intros [Hne Hy]. eapply (parks_any i); [apply runtime_parks|]. intros [runtime_id|e].
    + eapply (parks_any i); [apply save_parks|]. intros [?|?]; [|by apply parks_ret].
      apply parks_insert; [done| |done]. cbn.
      by apply update_verify_iff in Hv as (_ & _ & _ & _ & _ & _ & (_ & ? & _) & _).
    + eapply (parks_any i); [apply rollback_parks; congruence|]. intros ?. by apply parks_ret.
  - intros _. by apply parks_ret.
Qed.

Lemma mark_deleting_parks i id' d :
  id' <> id -> parks i (Tasks.step (fun _ _ w => mark_deleting id' d w))
    (fun r => match r with Ok y => Grant.workload_id (AgentStore.grant y) = id' | Err _ => True end).
Proof.
  intros Hne. apply parks_step. intros c w Hw. unfold mark_deleting.
  destruct (active (state w) !! id') as [y|] eqn:Hy; [|done]. apply Hw in Hy as Hid. cbn [fst snd].
  split; [by apply parked_insert|done].
Qed.

Lemma delete_running_parks i id' y :
  id' <> id -> Grant.workload_id (AgentStore.grant y) = id' -> parks i (delete_running id' y) (fun _ => True).
Proof.
  intros Hne Hy. unfold delete_running. eapply parks_bind; [by apply mark_deleting_parks|].
  intros [deleting|e]; [intros Hd|intros _; by apply parks_ret].
  eapply (parks_any i); [apply save_parks|]. intros [?|?].
  - eapply (parks_any i); [destruct (str_is_empty _); [by apply parks_ret|apply runtime_parks]|]. intros [?|?].
    + eapply (parks_any i); [apply erase_parks|]. intros [?|?]; [by apply parks_remove|by apply parks_ret].
    + eapply (parks_any i); [apply save_parks|]. intros [?|?]; [by apply parks_insert|by apply parks_ret].
  - eapply (parks_any i); [eapply parks_weaken; by apply mark_deleting_parks|]. intros ?. by apply parks_ret.
Qed.

(** Every command on the interrupted workload is refused. *)
Lemma execute_updating cmd :
  exists e, execute config keys cmd x = Tasks.Ret (Ok (Err e)).
Proof.
  assert (needs_cleanup x = false) as Hn by (unfold needs_cleanup; by destruct (AgentStore.phase x)).
  unfold execute. rewrite Hn, andb_false_r. destruct (_ && _); [by eexists|]. rewrite Hup. by eexists.
Qed.

Lemma execute_parks i cmd y :
  (Command.workload_id cmd = id -> y = x) ->
  Grant.workload_id (AgentStore.grant y) = Command.workload_id cmd ->
  parks i (execute config keys cmd y) (fun _ => True).
Proof.
  intros Hx Hy. destruct (decide (Command.workload_id cmd = id)) as [Heq|Hne].
  { rewrite (Hx Heq). destruct (execute_updating cmd) as [e ->]. by apply parks_ret. }
  unfold execute. destruct (_ && _).
  { eapply (parks_any i); [apply cleanup_parks|]. intros [?|?]; [by apply parks_remove|by apply parks_ret]. }
  repeat (match goal with |- context [if ?b then Tasks.Ret _ else _] => destruct b; [by apply parks_ret|] end).
  destruct (Command.operation cmd); [| |by apply delete_running_parks| |].
  - eapply (parks_any i); [apply runtime_parks|]. intros ?. by apply parks_ret.
  - eapply (parks_any i); [apply runtime_parks|]. intros ?. by apply parks_ret.
  - eapply (parks_any i); [apply runtime_parks|]. intros [?|?]; [by apply parks_same|by apply parks_ret].
  - eapply (parks_any i); [apply now_parks|]. intros t. destruct (lift _); [|by apply parks_ret].
    eapply (parks_any i); [apply runtime_parks|]. intros [?|?]; [|by apply parks_ret].
    eapply (parks_any i); [apply now_parks|]. intros t'. destruct (lift _); by apply parks_ret.
Qed.

Lemma lookup_parks i cmd :
  parks i (lookup_owned (Command.workload_id cmd) (Command.namespace_id cmd))
    (fun r => match r with
              | Ok y => (Command.workload_id cmd = id -> y = x) /\
                        Grant.workload_id (AgentStore.grant y) = Command.workload_id cmd
              | Err _ => True
              end).
Proof.
  apply parks_step. intros c w Hw. cbn [fst snd]. split; [done|]. destruct (owned _ _ _) as [y|] eqn:Hy; [|done].
  apply AgentSafety.owned_inv in Hy as [Hy _]. cbn. destruct Hw as [Hx Hf]. split; [|by apply Hf].
  intros Heq. congruence.
Qed.

Lemma respond_parks i cmd now result : parks i (respond keys cmd now result) (fun _ => True).
Proof. unfold respond. destruct (lift _); [apply encrypt_parks|by apply parks_ret]. Qed.

Lemma command_parks i retries cmd : parks i (command config keys retries cmd) (fun _ => True).
Proof.
  unfold command. eapply (parks_any i); [apply now_parks|]. intros now.
  destruct (lift _); [|by apply parks_ret]. destruct (bool_decide _); [|by apply parks_ret].
  eapply (parks_any i); [apply replay_parks|]. intros [?|?]; [|by apply parks_ret].
  eapply parks_bind; [apply lookup_parks|]. intros [y|e]; [intros [Hx Hy]|intros _; by apply parks_ret].
  destruct (is_delete _).
  - apply guarded_parks. eapply (parks_any i); [apply now_parks|]. intros t. destruct (lift _); [|by apply parks_ret].
    eapply parks_bind; [apply lookup_parks|]. intros [z|e]; [intros [Hzx Hz]|intros _; by apply parks_ret].
    eapply (parks_any i); [by apply execute_parks|]. intros [?|?]; [apply respond_parks|by apply parks_ret].
  - eapply (parks_any i); [by apply execute_parks|]. intros [?|?]; [apply respond_parks|by apply parks_ret].
Qed.

Lemma admit_parks i request : parks i (admit_request config keys request) (fun _ => True).
Proof.
  unfold admit_request. eapply (parks_any i); [apply now_parks|]. intros now.
  destruct (lift _); [|by apply parks_ret]. destruct (bool_decide _); [|by apply parks_ret].
  eapply (parks_any i); [apply replay_parks|]. intros [?|?]; [|by apply parks_ret].
  eapply (parks_any i); [|intros [?|?]; [apply encrypt_parks|by apply parks_ret]].
  apply parks_same. intros c w. unfold decide_admission. cbn zeta.
  destruct (Reservation.sign _ _ _); [|done]. by destruct (refusal _ _ _).
Qed.

Lemma deploy_parks i retries grant : parks i (deploy_inner config keys retries grant) (fun _ => True).
Proof.
  unfold deploy_inner. eapply (parks_any i); [apply now_parks|]. intros now.
  destruct (lift _); [|by apply parks_ret]. destruct (bool_decide _); [|by apply parks_ret].
  eapply (parks_any i); [apply replay_parks|]. intros [?|?]; [|by apply parks_ret].
  do 2 (destruct (lift _); [|by apply parks_ret]).
  eapply (parks_any i); [apply guarded_parks, deploy_guarded_parks|]. intros [[t runtime_id]|?]; [|by apply parks_ret].
  destruct (lift _); [apply encrypt_parks|by apply parks_ret].
Qed.

Lemma update_parks i retries request : parks i (update_inner config keys retries request) (fun _ => True).
Proof.
  unfold update_inner. eapply (parks_any i); [apply now_parks|]. intros now.
  destruct (lift _); [|by apply parks_ret]. destruct (bool_decide _); [|by apply parks_ret].
  eapply (parks_any i); [apply replay_parks|]. intros [?|?]; [|by apply parks_ret].
  destruct (lift _); [|by apply parks_ret].
  eapply (parks_any i); [apply guarded_parks, update_guarded_parks|].
  intros [[sealed|[t updated]]|?]; [by apply parks_ret| |by apply parks_ret].
  destruct (lift _); [apply encrypt_parks|by apply parks_ret].
Qed.

Lemma list_parks i request : parks i (list_inner config keys request) (fun _ => True).
Proof.
  unfold list_inner. eapply (parks_any i); [apply now_parks|]. intros now. destruct (lift _); [|by apply parks_ret].
  eapply (parks_any i); [apply replay_parks|]. intros [?|?]; [|by apply parks_ret].
  eapply (parks_any i); [by apply parks_same|]. intros [?|?]; [|by apply parks_ret].
  eapply (parks_any i); [by apply parks_same|]. intros address.
  do 3 (destruct (lift _); [|by apply parks_ret]). apply encrypt_parks.
Qed.

Lemma enroll_parks i id' : parks i (enroll_one keys id') (fun _ => True).
Proof.
  unfold enroll_one. eapply (parks_any i); [apply guard_parks|]. intros [?|?]; [|by apply parks_ret].
  eapply (parks_any i); [by apply parks_same|]. intros stored.
  eapply (parks_any i); [|intros ?; apply drop_guard_parks]. destruct stored as [y|]; [|by apply parks_ret].
  eapply (parks_any i); [|intros ?; by apply parks_ret]. unfold enroll_stored.
  destruct (_ && _); [|by apply parks_ret]. do 3 (destruct (lift _); [|by apply parks_ret]).
  eapply (parks_any i); [apply now_parks|]. intros t. destruct (lift _); [|by apply parks_ret].
  eapply (parks_any i); [by apply parks_same|]. intros challenge.
  eapply (parks_any i); [apply runtime_parks|]. intros [response|?]; [|by apply parks_ret].
  destruct (lift _); [|by apply parks_ret]. destruct (negb _); [|by apply parks_ret].
  destruct (lift _); [|by apply parks_ret].
  eapply (parks_any i); [apply now_parks|]. intros t'. do 2 (destruct (lift _); [|by apply parks_ret]).
  eapply (parks_any i); [by apply parks_same|]. intros [existing|?]; [|by apply parks_ret].
  destruct (lift _); [|by apply parks_ret].
  eapply (parks_any i).
  { case_bool_decide; [by apply parks_ret|]. apply parks_same. intros c w. by destruct (io_error c). }
  intros [?|?]; [|by apply parks_ret]. eapply (parks_any i); [apply now_parks|]. intros t''.
  destruct (renewal_due _ _ _); [destruct (lift _); by apply parks_ret|].
  unfold install_identity. destruct (lift _); [|by apply parks_ret].
  eapply (parks_any i); [apply runtime_parks|]. intros [?|?]; [|by apply parks_ret].
  do 2 (destruct (lift _); [|by apply parks_ret]).
  eapply (parks_any i); [apply now_parks|]. intros t3. destruct (lift _); [|by apply parks_ret].
  destruct (bool_decide _); by apply parks_ret.
Qed.

Lemma offer_parks i query address now : parks i (capacity_offer config keys query address now) (fun _ => True).
Proof.
  unfold capacity_offer. destruct (lift _); [|by apply parks_ret].
  do 2 (match goal with |- context [if ?b then Tasks.Ret _ else _] => destruct b; [by apply parks_ret|] end).
  eapply (parks_any i); [by apply parks_same|]. intros s. destruct (negb _); [by apply parks_ret|].
  destruct (available config s) as [[? ?] ?]. do 2 (destruct (lift _); [|by apply parks_ret]). by apply parks_ret.
Qed.

Lemma task_parks i p : AgentSafety.agent_task config keys p -> parks i p (fun _ => True).
Proof.
  destruct 1; [|apply enroll_parks|..].
  - eapply (parks_any i); [|intros ?; by apply parks_ret]. eapply (parks_any i); [|intros ?; by apply parks_ret].
    unfold dispatch. destruct (lift _) as [request|]; [|by apply parks_ret].
    destruct (AgentControl.operation request).
    + destruct (lift _); [apply admit_parks|by apply parks_ret].
    + destruct (lift _); [apply deploy_parks|by apply parks_ret].
    + destruct (lift _); [apply update_parks|by apply parks_ret].
    + destruct (lift _); [apply command_parks|by apply parks_ret].
    + eapply (parks_any i); [apply now_parks|]. intros now. destruct (lift _); [apply list_parks|by apply parks_ret].
  - eapply (parks_any i); [apply offer_parks|]. intros ?. by apply parks_ret.
  - eapply (parks_any i); [|intros ?; by apply parks_ret]. unfold attachment_hello.
    destruct (lift _); [by apply parks_same|by apply parks_ret].
Qed.

(** An update that is interrupted between its record and its result is
    never finished and never undone while the agent runs: no deployment, update
    or command, deletion included, moves the workload out of the updating
    phase, whatever the owner sends and however the tasks interleave. *)
Theorem interrupted_update_stays (w : World) events :
  active (state w) !! id = Some x ->
  (forall id' y, active (state w) !! id' = Some y -> Grant.workload_id (AgentStore.grant y) = id') ->
  Forall (AgentSafety.agent_event config keys) events ->
  active (state (AgentSafety.run w events).1) !! id = Some x.
Proof.
  intros Hx Hf Hev.
  assert (Tasks.laws release parked (fun _ _ _ => True) (fun _ _ _ => True)) as Hl by by split.
  apply (Tasks.pool_run_safe release parked (fun _ _ _ => True) (fun _ _ _ => True) Hl (w, fun _ => None) events).
  - by split; [split|].
  - eapply Forall_impl; [done|]. intros [] He; cbn; try done. intros w'.
    eapply Tasks.triple_spawn; [done|]. by apply task_parks.
Qed.

End Interrupted.
End AgentInterrupted.
