(* ===== verification/AgentRequests.v ===== *)
(** * Serving requests (podmesh-agent/src/service.rs)

    How long a request can take, what an owner can learn about workloads that
    are not theirs, and for which keys the agent issues identities. *)

From S2P Require Import Prelude Net Crypto Signed Identity Registration Biscuit WorkloadIdentity Reconciliation AgentIds ServiceDiscovery Connector AgentMessages AgentControl Tasks AgentStore AgentState AgentService AgentSafety.

Module AgentRequests.
Import Crypto AgentMessages AgentState AgentService.
Import AgentStore (StoredWorkload, EnrollmentBinding, bindings).
Import Tasks (within, within_ret, within_mono, within_bind, seq, seq_ret, seq_bind, seq_step, seq_look).

#[local] Existing Instance AgentStore.EnrollmentBinding_eq_dec.

Section Requests.
Context {I : Iroh} {P : Primitives} {B : Biscuit.BiscuitAuth} {H : Blake3}.
Context {MF : Manifests} {RT : WorkloadRuntime} {CD : AgentCodecs}.
Context (config : Config) (keys : Keys).

(** ** Bounds on the number of steps *)
Lemma within_step {A} n (f : nat -> Choice -> World -> World * A) : within (S n) (Tasks.step f).
Proof. intros b. apply within_ret. Qed.

Lemma within_bind_step {A C} n (f : nat -> Choice -> World -> World * A) (g : A -> Tasks.Prog World Choice C) :
  (forall a, within n (g a)) -> within (S n) (Tasks.prog_bind (Tasks.step f) g).
Proof. intros Hg. apply (within_bind _ _ 1); [apply within_step|done]. Qed.

Lemma within_runtime {A} n id op call (answer : Choice -> option (Outcome A)) :
  within (S (S n)) (runtime_operation id op call answer).
Proof. intros [|]; [apply within_step|apply within_ret]. Qed.

Lemma within_bind_runtime {A C} n id op call (answer : Choice -> option (Outcome A)) (g : Outcome A -> Tasks.Prog World Choice C) :
  (forall a, within n (g a)) -> within (S (S n)) (Tasks.prog_bind (runtime_operation id op call answer) g).
Proof. intros Hg. apply (within_bind _ _ 2); [apply within_runtime|done]. Qed.

(** Peels off the steps of a program one by one; [sub] deals with calls of other
    programs. *)
Ltac bounded_with sub :=
  repeat first
    [ sub | apply within_ret | apply within_step | apply within_runtime
    | apply within_bind_step; intros ? | apply within_bind_runtime; intros ?
    | match goal with |- within _ (match ?x with _ => _ end) => destruct x end ].
Ltac bounded := bounded_with fail.

Lemma cleanup_within stored : within 3 (cleanup_pending config keys stored).
Proof. unfold cleanup_pending. bounded. Qed.

Lemma failed_deploy_within stored uncertain : within 5 (failed_deploy config keys stored uncertain).
Proof.
  apply (within_bind _ _ 1); [apply within_step|]. intros _.
  apply (within_bind _ _ 3); [apply cleanup_within|]. intros r. bounded.
Qed.

Lemma then_failed {C} n stored uncertain (g : unit -> Tasks.Prog World Choice C) :
  (forall a, within n (g a)) -> within (5 + n) (Tasks.prog_bind (failed_deploy config keys stored uncertain) g).
Proof. intros Hg. by apply within_bind; [apply failed_deploy_within|]. Qed.

Lemma deploy_guarded_within grant execution : within 10 (deploy_guarded config keys grant execution).
Proof.
  unfold deploy_guarded. bounded_with ltac:(apply then_failed; intros ?).
Qed.

Lemma rollback_within active : within 4 (rollback config keys active).
Proof. unfold rollback. bounded. Qed.

Lemma then_rollback {C} n active (g : Outcome unit -> Tasks.Prog World Choice C) :
  (forall a, within n (g a)) -> within (4 + n) (Tasks.prog_bind (rollback config keys active) g).
Proof. intros Hg. by apply within_bind; [apply rollback_within|]. Qed.

Lemma update_guarded_within request execution : within 8 (update_guarded config keys request execution).
Proof. unfold update_guarded. bounded_with ltac:(apply then_rollback; intros ?). Qed.

Lemma owner_mutation_within retries id : within (S retries) (owner_mutation retries id).
Proof.
  induction retries as [|retries IH]; cbn [owner_mutation]; apply within_bind_step; intros [|];
    try case_bool_decide; done || apply within_ret.
Qed.

Lemma guarded_within {A} n retries id (p : Tasks.Prog World Choice (Outcome A)) :
  within n p -> within (S retries + (n + 1)) (guarded retries id p).
Proof.
  intros Hp. apply within_bind; [apply owner_mutation_within|]. intros [?|?]; [|apply within_ret].
  apply within_bind; [done|]. intros r. apply (within_bind _ _ 1 0); [apply within_step|]. intros ?. apply within_ret.
Qed.

Lemma execute_within command active : within 6 (execute config keys command active).
Proof.
  unfold execute, delete_running. destruct (_ && _).
  - apply (within_mono _ 4); [|lia]. apply (within_bind _ _ 3); [apply cleanup_within|]. intros r. bounded.
  - bounded. apply (within_bind _ _ 2 2); [bounded|]. intros r. bounded.
Qed.

Lemma admit_within request : within 4 (admit_request config keys request).
Proof. unfold admit_request. bounded. Qed.

Lemma list_within request : within 5 (list_inner config keys request).
Proof. unfold list_inner. bounded. Qed.

Lemma deploy_within retries grant : within (15 + retries) (deploy_inner config keys retries grant).
Proof.
  unfold deploy_inner. apply within_bind_step. intros now. destruct (lift _); [|apply within_ret].
  destruct (bool_decide _); [|apply within_ret]. apply within_bind_step. intros [?|?]; [|apply within_ret].
  do 2 (destruct (lift _); [|apply within_ret]).
  eapply within_mono; [apply within_bind; [apply guarded_within, deploy_guarded_within|]|].
  - intros [[t runtime_id]|?]; [|apply (within_ret 1)]. destruct (lift _); [apply within_step|apply (within_ret 1)].
  - lia.
Qed.

Lemma update_within retries request : within (15 + retries) (update_inner config keys retries request).
Proof.
  unfold update_inner. apply within_bind_step. intros now. destruct (lift _); [|apply within_ret].
  destruct (bool_decide _); [|apply within_ret]. apply within_bind_step. intros [?|?]; [|apply within_ret].
  destruct (lift _); [|apply within_ret].
  eapply within_mono; [apply within_bind; [apply guarded_within, update_guarded_within|]|].
  - intros [[sealed|[t updated]]|?]; [apply (within_ret 1)| |apply (within_ret 1)].
    destruct (lift _); [apply within_step|apply (within_ret 1)].
  - lia.
Qed.

Lemma respond_within command now result : within 1 (respond keys command now result).
Proof. unfold respond. bounded. Qed.

Lemma execute_respond_within command now active :
  within 7 (Tasks.prog_bind (execute config keys command active)
    (fun r => match r with Ok result => respond keys command now result | Err e => Tasks.Ret (Err e) end)).
Proof.
  apply (within_bind _ _ 6 1); [apply execute_within|]. intros [?|?]; [apply respond_within|apply within_ret].
Qed.

Lemma command_within retries cmd : within (15 + retries) (command config keys retries cmd).
Proof.
  unfold command. apply within_bind_step. intros now. destruct (lift _); [|apply within_ret].
  destruct (bool_decide _); [|apply within_ret]. apply within_bind_step. intros [?|?]; [|apply within_ret].
  apply within_bind_step. intros [active|?]; [|apply within_ret]. destruct (is_delete _).
  - eapply within_mono; [apply (guarded_within 9)|lia]. apply within_bind_step. intros t.
    destruct (lift _); [|apply within_ret]. apply within_bind_step. intros [?|?]; [|apply within_ret].
    apply execute_respond_within.
  - eapply within_mono; [apply execute_respond_within|lia].
Qed.

(** Every request comes to an end: serving a control frame takes at most
    fifteen steps and the polls spent waiting for a workload's guard, whatever
    the frame holds and however the runtime, the store and the clock answer. *)
Theorem serve_terminates (i retries : nat) (frame : bytes) (choices : list Choice) (w : World) :
  (15 + retries <= length choices)%nat -> is_Some (Tasks.run_alone i (serve config keys retries frame) choices w).
Proof.
  intros Hlen. eapply Tasks.within_run; [|exact Hlen].
  eapply within_mono; [apply (within_bind _ _ (15 + retries) 0)|lia]; [|intros r; apply within_ret].
  unfold dispatch. destruct (lift _) as [request|]; [|apply within_ret]. destruct (AgentControl.operation request).
  - destruct (lift _); [|apply within_ret]. eapply within_mono; [apply admit_within|lia].
  - destruct (lift _); [apply deploy_within|apply within_ret].
  - destruct (lift _); [apply update_within|apply within_ret].
  - destruct (lift _); [apply command_within|apply within_ret].
  - eapply within_mono; [apply (within_bind_step 5)|lia]. intros now.
    destruct (lift _); [apply list_within|apply within_ret].
Qed.

(** ** What an owner can learn *)

(** C34. A command cannot be used to find out about workloads of others: when the
    sender does not own a workload of that name here, the answer is the same
    whether somebody else runs one or nobody does, and nothing but the replay
    cache changes. *)
Theorem foreign_commands_blind (i retries : nat) (cmd : Command.WorkloadCommand) (choices : list Choice) (w1 w2 : World) :
  owned (Command.workload_id cmd) (Command.namespace_id cmd) (state w1) = None ->
  owned (Command.workload_id cmd) (Command.namespace_id cmd) (state w2) = None ->
  replay w1 = replay w2 ->
  let answer w := snd <$> Tasks.run_alone i (command config keys retries cmd) choices w in
  answer w1 = answer w2 /\
  (forall w' r, Tasks.run_alone i (command config keys retries cmd) choices w1 = Some (w', r) ->
     w' = set_replay (replay w') w1 /\ exists e, r = Err e).
Proof.
  intros H1 H2 Hr. cbn zeta. destruct choices as [|c1 choices]; [done|]. cbn.
  assert (w1 = set_replay (replay w1) w1) as Hw by by destruct w1.
  destruct (lift (Command.verify cmd (clock c1))) as [?|e]; cbn; [|split; [done|intros w' r [= <- <-]; eauto]].
  destruct (bool_decide _); cbn; [|split; [done|intros w' r [= <- <-]; eauto]].
  destruct choices as [|c2 choices]; [done|]. cbn. rewrite <- Hr.
  destruct (record _ _ _ _) as [cache [[]|e]]; cbn; [|split; [done|intros w' r [= <- <-]; eauto]].
  destruct choices as [|c3 choices]; [done|]. cbn. rewrite H1, H2. cbn.
  split; [done|]. intros w' r [= <- <-]. eauto.
Qed.

Lemma collect_spec {A C} (f : A -> Result C) l l' : collect f l = Ok l' -> Forall2 (fun a c => f a = Ok c) l l'.
Proof.
  revert l'. induction l as [|a l IH]; intros l'; cbn; [by intros [= <-]; constructor|].
  intros Hc. Signed.result_steps Hc. injection Hc as <-. constructor; [done|by apply IH].
Qed.

Lemma owned_workloads_iff namespace_id s x :
  x ∈ owned_workloads namespace_id s <->
  exists id, active s !! id = Some x /\ Grant.namespace_id (AgentStore.grant x) = namespace_id.
Proof.
  unfold owned_workloads. rewrite list_elem_of_In, filter_In, <- list_elem_of_In, bool_decide_eq_true.
  rewrite list_elem_of_fmap. split.
  - intros [([id y] & -> & Hy%elem_of_map_to_list) Hns]. by exists id.
  - intros (id & Hx & Hns). split; [|done]. exists (id, x). split; [done|]. by apply elem_of_map_to_list.
Qed.

Lemma receipt_inv x now r :
  receipt keys x now = Ok r ->
  Receipt.namespace_id r = Grant.namespace_id (AgentStore.grant x) /\
  Receipt.workload_id r = Grant.workload_id (AgentStore.grant x).
Proof. unfold receipt, Receipt.sign. intros Hr. Signed.result_steps Hr. by injection Hr as <-. Qed.

(** A listing shows an owner all of their workloads and nobody else's: each
    entry comes from a workload of the owner's namespace, with a receipt that
    names this namespace, and each workload of the namespace has its entry. *)
Theorem listing_exact (namespace_id : string) (s : WorkloadState) (now : Z) (l : list Listing.WorkloadSummary) :
  collect (summarize keys now) (owned_workloads namespace_id s) = Ok l ->
  (forall summary, summary ∈ l ->
     Receipt.namespace_id (Listing.receipt summary) = namespace_id /\
     exists id x, active s !! id = Some x /\ Grant.namespace_id (AgentStore.grant x) = namespace_id /\
       Listing.workload_id summary = Grant.workload_id (AgentStore.grant x)) /\
  (forall id x, active s !! id = Some x -> Grant.namespace_id (AgentStore.grant x) = namespace_id ->
     exists summary, summary ∈ l /\ Listing.workload_id summary = Grant.workload_id (AgentStore.grant x)).
Proof.
  intros Hc%collect_spec.
  assert (forall x summary, summarize keys now x = Ok summary ->
    Receipt.namespace_id (Listing.receipt summary) = Grant.namespace_id (AgentStore.grant x) /\
    Listing.workload_id summary = Grant.workload_id (AgentStore.grant x)) as Hsum.
  { intros x summary Hs. unfold summarize in Hs. Signed.result_steps Hs. injection Hs as <-. cbn.
    split; [|done]. by apply (receipt_inv _ _ _ Hx). }
  split.
  - intros summary [k Hk]%list_elem_of_lookup.
    destruct (Forall2_lookup_r _ _ _ _ _ Hc Hk) as (x & Hx%list_elem_of_lookup_2 & Hs).
    apply owned_workloads_iff in Hx as (id & Hx & Hns). apply Hsum in Hs as [Hr Hid]. split; [congruence|eauto].
  - intros id x Hx Hns. assert (x ∈ owned_workloads namespace_id s) as Hin by (apply owned_workloads_iff; eauto).
    apply list_elem_of_lookup in Hin as [k Hk]. destruct (Forall2_lookup_l _ _ _ _ _ Hc Hk) as (summary & Hl & Hs).
    exists summary. split; [by eapply list_elem_of_lookup_2|by apply Hsum].
Qed.

(** ** Whom identities are issued to *)

Definition is_install (id : string) (identity : Workload.WorkloadIdentity) (o : Occurrence) : Prop :=
  exists target challenge,
    o = Called id "identity installation" (CallExchange target (Connector.install challenge identity)).

(** So far no identity was sent and the binding is [e]. *)
Definition not_yet (id : string) (t : list Occurrence) (e : option (Result EnrollmentBinding)) (w : World) : Prop :=
  bindings (store w) !! id = e /\
  (forall identity o, o ∈ trace w -> is_install id identity o -> o ∈ t).

(** Whatever identity was sent since [t] is for the keys of the binding on
    record, and a binding under the same delegation was not replaced. *)
Definition issued_bound (id : string) (t : list Occurrence) (e : option (Result EnrollmentBinding)) (w : World) : Prop :=
  forall identity o, o ∈ trace w -> is_install id identity o -> o ∉ t ->
    exists b, bindings (store w) !! id = Some (Ok b) /\
      Workload.claim_endpoint_id (Workload.claims identity) = AgentStore.binding_endpoint_id b /\
      Workload.signing_public_key_b64 (Workload.claims identity) = AgentStore.signing_public_key_b64 b /\
      Workload.digest (Workload.delegation identity) = Ok (AgentStore.delegation_digest b) /\
      (forall e', e = Some (Ok e') -> AgentStore.delegation_digest e' = AgentStore.delegation_digest b -> e' = b).

(** A call that keeps what is known whichever way it is noted. *)
Lemma seq_runtime {A} i (R : World -> Prop) id op call (answer : Choice -> option (Outcome A)) :
  (forall w, R w -> R (set_store (store w) [Called id op call] w)) ->
  (forall w b, R w -> R (set_store (store w) [Answered id op call b] w)) ->
  seq i R (runtime_operation id op call answer) (fun _ => R).
Proof.
  intros Hc Ha. eapply (seq_bind i _ _ _ (fun _ => R)); [apply seq_step; intros c w Hw; destruct (permit c); cbn; auto|].
  intros [|]; [apply seq_step; intros c w Hw; cbn; auto|by apply seq_ret].
Qed.

Lemma not_yet_note id t e o w :
  (forall identity, ~ is_install id identity o) -> not_yet id t e w -> not_yet id t e (set_store (store w) [o] w).
Proof.
  intros Ho [Hb Ht]. split; [done|]. intros identity o' [->|Hin]%elem_of_cons Hi; [by destruct (Ho identity)|by eapply Ht].
Qed.

Lemma issued_note id t e o w :
  (forall identity, ~ is_install id identity o) -> issued_bound id t e w -> issued_bound id t e (set_store (store w) [o] w).
Proof. intros Ho Hb identity o' [->|Hin]%elem_of_cons Hi Hn; [by destruct (Ho identity)|by eapply Hb]. Qed.

Lemma not_yet_bound id t e e' w : not_yet id t e w -> issued_bound id t e' w.
Proof. intros [_ Ht] identity o Hin Hi Hn. destruct Hn. by eapply Ht. Qed.

Lemma answered_not_install id op call b identity : ~ is_install id identity (Answered id op call b).
Proof. by intros (? & ? & ?). Qed.

Lemma install_issues i stored delegation binding challenge now t e :
  let id := Grant.workload_id (AgentStore.grant stored) in
  Workload.digest delegation = Ok (AgentStore.delegation_digest binding) ->
  (forall e', e = Some (Ok e') -> AgentStore.delegation_digest e' = AgentStore.delegation_digest binding -> e' = binding) ->
  seq i (not_yet id t (Some (Ok binding))) (install_identity keys stored delegation binding challenge now)
    (fun _ => issued_bound id t e).
Proof.
  cbn zeta. set (id := Grant.workload_id (AgentStore.grant stored)). intros Hd He. unfold install_identity.
  destruct (Workload.mint_identity _ _ _ _ _ _) as [identity|] eqn:Hm; cbn [lift];
    [|apply seq_ret; intros w; apply not_yet_bound].
  apply Workload.minted_identity_inv in Hm as (Hdel & Hep & Hsig & _).
  eapply (seq_bind i _ _ _ (fun _ => issued_bound id t e)).
  - eapply (seq_bind i _ _ _ (fun _ => issued_bound id t e)).
    + apply seq_step. intros c w [Hb Ht]. destruct (permit c); cbn [fst snd]; [|by eapply not_yet_bound].
      intros identity' o [->|Hin]%elem_of_cons Hi Hn; [|destruct Hn; by eapply Ht].
      destruct Hi as (target & ch & [= <- <- <-]). exists binding. split_and!; [done|done|done|by rewrite Hdel|done].
    + intros [|]; [|by apply seq_ret]. apply seq_step. intros c w Hw. by apply issued_note; [apply answered_not_install|].
  - intros [?|?]; [|by apply seq_ret]. do 2 (destruct (lift _); [|by apply seq_ret]).
    eapply (seq_bind i _ _ _ (fun _ => issued_bound id t e)); [by apply seq_step|]. intros t'.
    destruct (lift _); [|by apply seq_ret]. destruct (bool_decide _); by apply seq_ret.
Qed.

Lemma load_enrollment_spec i id t e :
  seq i (not_yet id t e) (load_enrollment_step id)
    (fun r w => not_yet id t e w /\ match r with
                | Ok existing => e = match existing with Some b => Some (Ok b) | None => None end
                | Err _ => True
                end).
Proof.
  apply seq_step. intros c w Hw. cbn [fst snd]. split; [done|]. destruct (io_error c); [done|].
  unfold AgentStore.load_enrollment. destruct Hw as [-> _]. by destruct e as [[]|].
Qed.

Lemma save_enrollment_spec i id t e b :
  AgentStore.binding_workload_id b = id ->
  seq i (not_yet id t e) (save_enrollment_step b)
    (fun r w => match r with Ok _ => not_yet id t (Some (Ok b)) w | Err _ => not_yet id t e w end).
Proof.
  intros Hid. apply seq_step. intros c w [Hb Ht]. destruct (io_error c); cbn [fst snd]; [done|].
  split; [|done]. cbn. rewrite Hid. apply lookup_insert_eq.
Qed.

Lemma check_binding_inv existing b e' :
  check_binding existing b = Ok tt -> existing = Some e' ->
  AgentStore.delegation_digest e' = AgentStore.delegation_digest b -> e' = b.
Proof. intros Hc -> Hd. unfold check_binding in Hc. rewrite bool_decide_true in Hc by done. by case_bool_decide. Qed.

(** The last part of [enroll_stored], once the binding of the reported keys is
    made up. *)
Lemma bind_and_issue i stored delegation report binding challenge t e :
  let grant := AgentStore.grant stored in
  let id := Grant.workload_id grant in
  AgentStore.binding_workload_id binding = id ->
  Workload.digest delegation = Ok (AgentStore.delegation_digest binding) ->
  seq i (not_yet id t e)
    (existing ←? load_enrollment_step id;
     _ ←! lift (check_binding existing binding);
     _ ←? (if bool_decide (existing = Some binding) then Tasks.Ret (Ok tt) else save_enrollment_step binding);
     now ← now_secs;
     match renewal_due report delegation now with
     | Some current =>
         key ←! lift (b64_decode (AgentStore.signing_public_key_b64 binding));
         Tasks.Ret (lift (Workload.verify_session current (Grant.namespace_id grant)
           (Workload.scope_manifest_id (Workload.scope delegation)) (AgentStore.binding_endpoint_id binding) key now))
     | None => install_identity keys stored delegation binding challenge now
     end)
    (fun _ => issued_bound id t e).
Proof.
  cbn zeta. set (id := Grant.workload_id (AgentStore.grant stored)). intros Hid Hd.
  eapply seq_bind; [apply load_enrollment_spec|]. intros [existing|err];
    [|apply seq_ret; intros w [Hw _]; by eapply not_yet_bound].
  apply Tasks.triple_and. intros ->. destruct (check_binding existing binding) as [[]|err] eqn:Hc; cbn [lift];
    [|apply seq_ret; intros w Hw; by eapply not_yet_bound].
  eapply (seq_bind i _ _ _ (fun r w => match r with
    | Ok _ => not_yet id t (Some (Ok binding)) w
    | Err _ => not_yet id t (match existing with Some b => Some (Ok b) | None => None end) w
    end)).
  - case_bool_decide as Heq; [|by apply save_enrollment_spec]. rewrite Heq. by apply seq_ret.
  - intros [[]|err]; [|apply seq_ret; intros w Hw; by eapply not_yet_bound].
    apply seq_look. intros now. destruct (renewal_due _ _ _) as [current|].
    + destruct (lift _); apply seq_ret; intros w Hw; by eapply not_yet_bound.
    + apply install_issues; [done|]. intros e' He'. apply (check_binding_inv existing); [done|].
      destruct existing; congruence.
Qed.

(** The agent issues identities only for keys it has bound: when enrolling a
    workload sends it an identity, the identity is for the endpoint and signing
    key of a binding that is already durable, under the digest of the delegation
    the identity carries, and a binding the store held for that delegation is
    not replaced by other keys. *)
Theorem issued_identity_bound (i : nat) (stored : StoredWorkload) (choices : list Choice) (w w' : World) (r : Outcome unit) :
  let id := Grant.workload_id (AgentStore.grant stored) in
  Tasks.run_alone i (enroll_stored keys stored) choices w = Some (w', r) ->
  issued_bound id (trace w) (bindings (store w) !! id) w'.
Proof.
  cbn zeta. set (id := Grant.workload_id (AgentStore.grant stored)). intros Hrun.
  assert (seq i (not_yet id (trace w) (bindings (store w) !! id)) (enroll_stored keys stored)
    (fun _ => issued_bound id (trace w) (bindings (store w) !! id))) as Hseq.
  2:{ by apply (Tasks.run_alone_seq i _ _ _ _ _ _ r Hseq (conj eq_refl (fun _ _ Hin _ => Hin)) Hrun). }
  clear Hrun. generalize (trace w) (bindings (store w) !! id). intros t e. clear w w'.
  assert (forall w, not_yet id t e w -> issued_bound id t e w) as Hno by (intros w; apply not_yet_bound).
  unfold enroll_stored. fold id. destruct (_ && _); [|by apply seq_ret].
  do 3 (destruct (lift _); [|by apply seq_ret]). apply seq_look. intros t1. destruct (lift _); [|by apply seq_ret].
  apply seq_look. intros challenge.
  eapply (seq_bind i _ _ _ (fun _ => not_yet id t e)).
  { apply seq_runtime; intros; apply not_yet_note; try done; [|apply answered_not_install]. by intros identity (? & ? & ?). }
  intros [response|?]; [|by apply seq_ret]. destruct (lift _); [|by apply seq_ret].
  destruct (negb _); [|by apply seq_ret]. destruct (lift _) as [report|]; [|by apply seq_ret].
  apply seq_look. intros t2. destruct (lift _); [|by apply seq_ret].
  destruct (Workload.digest _) as [d|] eqn:Hd; cbn [lift]; [|by apply seq_ret].
  by apply bind_and_issue.
Qed.

End Requests.
End AgentRequests.
