(* ===== verification/AgentRestart.v ===== *)
(** * Restarting the agent (podmesh-agent/src/service.rs, restore)

    What becomes of the persisted workloads when the agent starts: each is
    running or retained, quarantined, or was removed because it was on its way
    out. *)

From S2P Require Import Prelude Net Crypto Signed Identity Registration Biscuit WorkloadIdentity AgentMessages Tasks AgentStore AgentState AgentService.

Module AgentRestart.
Import Crypto AgentMessages AgentState AgentService.
Import AgentStore (StoredWorkload, records, needs_cleanup, Updating, Active).
Import Tasks (seq, seq_ret, seq_bind, seq_step, seq_look, seq_conseq).

Section Restart.
Context {I : Iroh} {P : Primitives} {B : Biscuit.BiscuitAuth} {H : Blake3}.
Context {MF : Manifests} {RT : WorkloadRuntime} {CD : AgentCodecs}.
Context (config : Config) (keys : Keys).

Section Since.
(** What happened before the restart. *)
Context (t0 : list Occurrence).

(** What happened since. *)
Definition news (w : World) : list Occurrence := take (length (trace w) - length t0) (trace w).

Lemma news_app n w : trace w = n ++ t0 -> news w = n.
Proof. intros Ht. unfold news. rewrite Ht, length_app. by rewrite Nat.add_sub, take_app_length. Qed.

(** [t] is part of it. *)
Definition grown (t : list Occurrence) (w : World) : Prop :=
  (exists n, trace w = n ++ t0) /\ forall o, o ∈ t -> o ∈ news w.

Lemma news_more st o w : (exists n, trace w = n ++ t0) -> news (set_store st o w) = o ++ news w.
Proof. intros [n Hn]. rewrite (news_app n w Hn). apply news_app. cbn. by rewrite Hn, app_assoc. Qed.

Lemma grown_more t st o w : grown t w -> grown t (set_store st o w).
Proof.
  intros [[n Hn] Hg]. split; [exists (o ++ n); cbn; by rewrite Hn, app_assoc|]. intros x Hx.
  rewrite news_more by (by exists n). apply elem_of_app. right. by apply Hg.
Qed.

Lemma runtime_grown {A} i t id op call (answer : Choice -> option (Outcome A)) :
  seq i (grown t) (runtime_operation id op call answer) (fun _ => grown t).
Proof.
  eapply (seq_bind i _ _ _ (fun _ => grown t)).
  - apply seq_step. intros c w Hw. destruct (permit c); [by apply grown_more|done].
  - intros [|]; [|by apply seq_ret]. apply seq_step. intros c w Hw. by apply grown_more.
Qed.

Lemma save_grown i t x : seq i (grown t) (store_save x) (fun r w => grown t w /\ (is_ok r = true -> Saved x ∈ news w)).
Proof.
  apply seq_step. intros c w Hw. unfold try_save. destruct (io_error c); [done|]. split; [by apply grown_more|].
  intros _. cbn [fst]. rewrite news_more by apply Hw. by left.
Qed.

Lemma unenroll_grown i t id : seq i (grown t) (remove_enrollment_step id) (fun _ => grown t).
Proof. apply seq_step. intros c w Hw. destruct (io_error c); [done|by apply grown_more]. Qed.

Lemma erase_grown i t id :
  seq i (grown t) (store_remove id) (fun r w => grown t w /\ (is_ok r = true -> Erased id ∈ news w)).
Proof.
  apply seq_step. intros c w Hw. unfold try_remove. destruct (io_error c); [done|]. split; [by apply grown_more|].
  intros _. cbn [fst]. rewrite news_more by apply Hw. by left.
Qed.

(** A workload is given up only when it was being created, cleaned up or
    deleted, and then its record is erased. *)
Definition given_up (x : StoredWorkload) (t : list Occurrence) : Prop :=
  Erased (Grant.workload_id (AgentStore.grant x)) ∈ t /\ (needs_cleanup x = true \/ AgentStore.deleting x = true).

(** A workload is kept as its record has it; with another runtime identifier,
    when it had to be deployed again; or as its interrupted update has it.  What
    is not in its record has been saved. *)
Definition kept_as (x y : StoredWorkload) (t : list Occurrence) : Prop :=
  y = x \/
  (exists runtime_id, y = AgentStore.set_runtime_id runtime_id x /\ Saved y ∈ t /\
     forall a b request, AgentStore.phase x <> Updating a b request) \/
  (exists a b request execution, AgentStore.phase x = Updating a b request /\ Saved y ∈ t /\
     decode_execution keys (Update.grant request) = Ok execution /\
     AgentStore.phase y = Active /\ AgentStore.grant y = Update.grant request /\
     AgentStore.version y = AgentStore.version x /\ AgentStore.deleting y = false /\
     AgentStore.cpu_milli y = Update.cpu_milli request /\ AgentStore.memory_bytes y = Update.memory_bytes request /\
     AgentStore.storage_bytes y = Update.storage_bytes request /\
     AgentStore.workload_name y = Spec.workload_name execution /\
     AgentStore.replica_index y = Spec.replica_index execution /\ AgentStore.replica_count y = Spec.replica_count execution).

Definition outcome_ok (x : StoredWorkload) (r : Outcome (option StoredWorkload)) (t : list Occurrence) : Prop :=
  match r with Ok None => given_up x t | Ok (Some y) => kept_as x y t | Err _ => True end.

Lemma outcome_more x r t t' : (forall o, o ∈ t -> o ∈ t') -> outcome_ok x r t -> outcome_ok x r t'.
Proof.
  intros Ht. destruct r as [[y|]|]; cbn; [|by intros [He Hwhy]; split; [apply Ht|]|done].
  intros [->|[(rid & -> & Hs & Hp)|(a & b & request & execution & Hp & Hs & Hrest)]]; [by left|right; left|right; right].
  - exists rid. split_and!; [done|by apply Ht|done].
  - exists a, b, request, execution. split_and!; try apply Hrest; [done|by apply Ht].
Qed.

Abbreviation ends t x := (fun r w => grown t w /\ outcome_ok x r (news w)) (only parsing).

Lemma restore_update_spec i t x a b request : AgentStore.phase x = Updating a b request -> AgentStore.deleting x = false ->
  seq i (grown t) (restore_update config keys x request) (ends t x).
Proof.
  intros Hp Hd. unfold restore_update. destruct (decode_execution keys (Update.grant request)) as [execution|e] eqn:Hx; [|by apply seq_ret].
  cbn [lift context]. destruct (lift _) as [[m measured]|]; [|by apply seq_ret]. destruct (within _ _ _ _); [|by apply seq_ret].
  eapply seq_bind; [apply runtime_grown|]. intros [rid|?]; [|by apply seq_ret].
  eapply seq_bind; [apply save_grown|]. intros [?|?]; apply seq_ret; intros w [Hg Hs]; [|done]. split; [done|].
  right. right. exists a, b, request, execution. split_and!; try done. by apply Hs.
Qed.

Lemma restore_missing_spec i t x : (forall a b request, AgentStore.phase x <> Updating a b request) ->
  seq i (grown t) (restore_missing config keys x) (ends t x).
Proof.
  intros Hp. unfold restore_missing. destruct (context _ _); [|by apply seq_ret].
  destruct (lift _) as [[m measured]|]; [|by apply seq_ret]. destruct (within _ _ _ _); [|by apply seq_ret].
  eapply seq_bind; [apply unenroll_grown|]. intros [?|?]; [|by apply seq_ret].
  eapply seq_bind; [apply runtime_grown|]. intros [rid|?]; [|by apply seq_ret].
  eapply seq_bind; [apply save_grown|]. intros [?|?].
  - apply seq_ret. intros w [Hg Hs]. split; [done|]. right. left. exists rid. split_and!; [done|by apply Hs|done].
  - eapply (seq_bind i _ _ _ (fun _ => grown t)); [|by intros ?; apply seq_ret].
    eapply Tasks.triple_conseq; [apply runtime_grown|by intros w []|done].
Qed.

Lemma restore_one_spec i t x : seq i (grown t) (restore_one config keys x) (ends t x).
Proof.
  unfold restore_one. destruct (needs_cleanup x) eqn:Hn; [|destruct (AgentStore.deleting x) eqn:Hd].
  - eapply (seq_bind i _ _ _ (fun r w => grown t w /\
      (is_ok r = true -> Erased (Grant.workload_id (AgentStore.grant x)) ∈ news w))).
    + unfold cleanup_pending. destruct (lift _); [|by apply seq_ret].
      eapply seq_bind; [apply runtime_grown|]. intros [?|?]; [apply erase_grown|by apply seq_ret].
    + intros [?|?]; apply seq_ret; intros w [Hg He]; split; try done. split; [by apply He|by left].
  - eapply (seq_bind i _ _ _ (fun _ => grown t)); [destruct (str_is_empty _); [by apply seq_ret|apply runtime_grown]|].
    intros [?|?]; [|by apply seq_ret]. eapply seq_bind; [apply erase_grown|].
    intros [?|?]; apply seq_ret; intros w [Hg He]; split; try done. split; [by apply He|by right].
  - assert ((forall a b request, AgentStore.phase x <> Updating a b request) ->
      seq i (grown t)
      (running ← (if str_is_empty (AgentStore.runtime_id x) then Tasks.Ret (Err (err ""))
                  else runtime_operation (Grant.workload_id (AgentStore.grant x)) "reconciliation status"
                         (CallStatus (AgentStore.runtime_id x)) text_answer);
       if is_ok running then Tasks.Ret (Ok (Some x)) else restore_missing config keys x) (ends t x)) as Hrunning.
    { intros Hp. eapply (seq_bind i _ _ _ (fun _ => grown t)); [destruct (str_is_empty _); [by apply seq_ret|apply runtime_grown]|].
      intros [?|?]; [|by apply restore_missing_spec]. apply seq_ret. intros w Hg. split; [done|by left]. }
    destruct (AgentStore.phase x) as [| ? ? request| |] eqn:Hp; [by apply Hrunning|by eapply restore_update_spec|by apply Hrunning..].
Qed.

(** ** All of them *)

(** What became of the record [r] of [id]. *)
Definition accounted (a : gmap string StoredWorkload) (q : gset string) (t : list Occurrence) (id : string)
    (r : Result StoredWorkload) : Prop :=
  match r with
  | Err _ => id ∈ q /\ a !! id = None
  | Ok x => id ∉ q /\ match a !! id with Some y => kept_as x y t | None => given_up x t end
  end.

Definition loop_done (l : list (string * Result StoredWorkload)) (a a' : gmap string StoredWorkload) (q q' : gset string)
    (t : list Occurrence) : Prop :=
  (forall id, id ∉ l.*1 -> a' !! id = a !! id /\ (id ∈ q' <-> id ∈ q)) /\
  (forall id r, (id, r) ∈ l -> accounted a' q' t id r).

Lemma loop_done_cons l a a1 a' q q1 q' t id r :
  id ∉ l.*1 -> (forall k, k <> id -> a1 !! k = a !! k /\ (k ∈ q1 <-> k ∈ q)) -> accounted a1 q1 t id r ->
  loop_done l a1 a' q1 q' t -> loop_done ((id, r) :: l) a a' q q' t.
Proof.
  intros Hid Hstep Hr [Hother Hin]. split.
  - intros k Hk. cbn in Hk. apply not_elem_of_cons in Hk as [Hne Hk]. destruct (Hother k Hk) as [-> ->]. by apply Hstep.
  - intros k r' [[= -> ->]|Hk]%elem_of_cons; [|by apply Hin]. destruct (Hother id Hid) as [Ha Hq].
    unfold accounted in *. rewrite Ha. destruct r; by rewrite Hq.
Qed.

Lemma restore_loop_spec i l : NoDup l.*1 -> forall t a q,
  (forall id, id ∈ l.*1 -> a !! id = None /\ id ∉ q) ->
  seq i (grown t) (restore_loop config keys l a q) (fun aq w => grown t w /\ loop_done l a aq.1 q aq.2 (news w)).
Proof.
  induction l as [|[id [x|e]] l IH]; intros Hd t a q Hfree; cbn [restore_loop].
  - apply seq_ret. intros w Hg. split; [done|]. split; [done|]. by intros id r Hin%not_elem_of_nil.
  - cbn in Hd. apply NoDup_cons in Hd as [Hid Hd]. destruct (Hfree id) as [Ha Hq]; [by left|].
    eapply (seq_bind i _ _ _ (fun r w => exists t', (forall o, o ∈ t -> o ∈ t') /\ grown t' w /\ outcome_ok x r t')).
    { eapply seq_conseq; [apply (restore_one_spec i t x)|]. intros r w [Hg Ho]. exists (news w). split_and!; [apply Hg|split; [apply Hg|done]|done]. }
    assert (forall (a1 : gmap string StoredWorkload) r, (forall k, k <> id -> a1 !! k = a !! k) ->
      (forall t', outcome_ok x r t' -> match a1 !! id with Some y => kept_as x y t' | None => given_up x t' end) ->
      seq i (fun w => exists t', (forall o, o ∈ t -> o ∈ t') /\ grown t' w /\ outcome_ok x r t')
        (restore_loop config keys l a1 q)
        (fun aq w => grown t w /\ loop_done ((id, Ok x) :: l) a aq.1 q aq.2 (news w))) as Hnext.
    { intros a1 r Ha1 Hx. apply Tasks.triple_ex. intros t' w (Ht & Hg & Ho) Hi.
      eapply (seq_conseq i (grown t')); [apply (IH Hd t' a1 q)| |exact Hg|exact Hi].
      - intros k Hk. rewrite Ha1 by (intros ->; done). apply Hfree. by right.
      - intros [a' q'] w' [Hg' Hdone]. cbn [fst snd] in *. split; [split; [apply Hg'|intros o Hin; apply Hg', Ht, Hin]|].
        eapply loop_done_cons; [done| | |exact Hdone]; [intros k Hk; by rewrite Ha1|]. split; [done|]. apply Hx.
        eapply outcome_more; [|exact Ho]. apply Hg'. }
    intros [[y|]|err]; apply Hnext.
    + intros k Hk. by rewrite lookup_insert_ne.
    + intros t' Ho. by rewrite lookup_insert_eq.
    + done.
    + intros t' Ho. by rewrite Ha.
    + intros k Hk. by rewrite lookup_insert_ne.
    + intros t' _. rewrite lookup_insert_eq. by left.
  - cbn in Hd. apply NoDup_cons in Hd as [Hid Hd]. destruct (Hfree id) as [Ha Hq]; [by left|].
    eapply seq_conseq; [apply (IH Hd t a ({[id]} ∪ q))|].
    + intros k Hk. destruct (Hfree k) as [? ?]; [by right|]. split; [done|]. set_solver.
    + intros [a' q'] w [Hg Hdone]. cbn [fst snd] in *. split; [done|]. eapply loop_done_cons; [done| | |exact Hdone]; [|set_solver].
      intros k Hk. split; [done|]. set_solver.
Qed.
End Since.

Lemma restore_inner_spec i w : let l := map_to_list (records (store w)) in
  seq i (fun v => store v = store w /\ trace v = trace w) (restore_inner config keys)
    (fun r v => r = Ok tt -> (exists n, trace v = n ++ trace w) /\
       loop_done l ∅ (active (state v)) ∅ (quarantined (state v)) (news (trace w) v) /\
       reservations (state v) = ∅ /\ fits_capacity config (usage (state v)) = true).
Proof.
  intros l. unfold restore_inner.
  eapply (seq_bind i _ _ _ (fun r v => trace v = trace w /\ match r with Ok workloads => workloads = l | Err _ => True end)).
  { apply seq_step. intros c v [Hv Ht]. cbn [fst snd]. destruct (io_error c); [done|]. unfold AgentStore.load_all. by rewrite Hv. }
  intros [workloads|e]; [|by apply seq_ret].
  eapply Tasks.triple_fact with (F := workloads = l); [by intros v [_ Hv] _|]. intros ->.
  destruct (len l <=? max_workloads config); [|by apply seq_ret].
  eapply (seq_bind i _ _ _ (fun aq v => grown (trace w) [] v /\ loop_done l ∅ aq.1 ∅ aq.2 (news (trace w) v))).
  { eapply Tasks.triple_conseq with (R' := grown (trace w) []); [apply (restore_loop_spec (trace w))| |done].
    - apply NoDup_fst_map_to_list.
    - intros id _. split; [apply lookup_empty|set_solver].
    - intros v [Ht _]. split; [by exists []|by intros o Ho%not_elem_of_nil]. }
  intros [a q]. destruct (fits_capacity _ _) eqn:Hfits; [|by apply seq_ret].
  apply seq_step. intros c v [[Hg _] Hdone] _. done.
Qed.


End Restart.
End AgentRestart.
