(* ===== verification/AgentSample.v ===== *)
(** * A run of the agent

    Concrete instances of everything the agent service is parameterised over,
    and runs of it: an owner's workload is admitted, deployed and updated while
    another admission goes on.  The witnesses of AgentSafety.v's theorems
    evaluate it, and so does the run in which a failed update leaves the agent
    with more promised than it has. *)

From S2P Require Import Prelude Net OrderedMap Crypto Signed EndpointRecord CapacityProtocol MeshProtocol Identity Registration Biscuit WorkloadIdentity Reconciliation AgentIds ServiceDiscovery Connector AgentMessages AgentControl Tasks AgentStore Policy AgentState AgentReplay AgentUsage AgentService AgentInvariant AgentSafety AgentInterrupted AgentRequests AgentRestart.

Module AgentSample.
Import Crypto Toy AgentMessages AgentState AgentUsage AgentService AgentInvariant AgentSafety.

#[local] Existing Instances Toy.prims Biscuit.Toy.biscuit ToyIroh.iroh.
#[local] Instance blake3 : Blake3 := {| blake3_hex := fun _ => Net.of_chars (replicate 64 (Ascii.ascii_of_byte Byte.x30)) |}.

(** Messages are told apart by their place in a list; what is signed is the same
    byte for all of them. *)
Definition numbered {A} (l : list A) : Postcard A :=
  {| to_allocvec := fun _ => Some [Byte.x01];
     from_postcard := fun b => match b with [x] => l !! Z.to_nat (byte_to_Z x) | _ => None end |}.
Definition no_codec {A} : Postcard A := {| to_allocvec := fun _ => None; from_postcard := fun _ => None |}.
Definition numbered_json {A} (l : list A) : Json A :=
  {| to_json := fun _ => Some [Byte.x01];
     from_json := fun b => match b with [x] => l !! Z.to_nat (byte_to_Z x) | _ => None end |}.

Definition zeros : string := blake3_hex [].
Definition owner : string := b64_encode (sample_key 3).
Definition agent : string := b64_encode (sample_key 4).
Definition answer_key : string := b64_encode (sample_key 5).

Definition signature (d : SignatureDomain) (sk : bytes) : string := b64_encode (ed_sign sk (bind d [Byte.x01])).
Definition seal (payload : bytes) : bytes :=
  match encrypt_payload_for_recipient (sample_key 7) sample_nonce (sample_key 6) payload with
  | Ok blob => blob
  | Err _ => []
  end.

Definition admission (workload_id nonce : string) (cpu : Z) : Admission.AdmissionRequest := {|
  Admission.version := 1; Admission.request_id := nonce; Admission.namespace_id := owner;
  Admission.workload_id := workload_id; Admission.target_node_id := agent;
  Admission.response_kem_pubkey := answer_key; Admission.cpu_milli := cpu; Admission.memory_bytes := 10;
  Admission.storage_bytes := 10; Admission.issued_at_secs := 100; Admission.expires_at_secs := 200;
  Admission.nonce := nonce; Admission.owner_signature := signature Crypto.AdmissionRequest (sample_key 3) |}.

Definition grant (nonce : string) : Grant.DeploymentGrant := {|
  Grant.version := 1; Grant.namespace_id := owner; Grant.workload_id := zeros; Grant.revision_id := zeros;
  Grant.target_node_id := agent; Grant.response_kem_pubkey := answer_key; Grant.reservation_id := "reservation-1";
  Grant.capsule := {| Spec.ciphertext := Byte.x00 :: replicate 16 Byte.x00; Spec.capsule_nonce := sample_nonce;
                      Spec.wrapped_dek := seal (sample_key 8) |};
  Grant.issued_at_secs := 100; Grant.expires_at_secs := 200; Grant.nonce := nonce;
  Grant.owner_signature := signature Crypto.DeploymentGrant (sample_key 3) |}.

Definition update (cpu : Z) : Update.UpdateRequest := {|
  Update.version := 1; Update.request_id := "update-1"; Update.namespace_id := owner; Update.workload_id := zeros;
  Update.target_node_id := agent; Update.response_kem_pubkey := answer_key; Update.expected_revision_id := zeros;
  Update.requested_revision_id := zeros; Update.refresh_service_mesh := true; Update.cpu_milli := cpu;
  Update.memory_bytes := 10; Update.storage_bytes := 10; Update.grant := grant "grant-2";
  Update.issued_at_secs := 100; Update.expires_at_secs := 200; Update.nonce := "update-1";
  Update.owner_signature := signature Crypto.UpdateRequest (sample_key 3) |}.

Definition delete_command : Command.WorkloadCommand := {|
  Command.version := 1; Command.request_id := "delete-1"; Command.namespace_id := owner; Command.workload_id := zeros;
  Command.target_node_id := agent; Command.operation := Command.Delete; Command.log_tail := None;
  Command.response_kem_pubkey := answer_key; Command.issued_at_secs := 100; Command.expires_at_secs := 200;
  Command.nonce := "delete-1"; Command.owner_signature := signature Crypto.WorkloadCommand (sample_key 3) |}.

Definition endpoint : EndpointRecord.EndpointRecord := {|
  EndpointRecord.version := 1; EndpointRecord.endpoint_id := sample_key 7;
  EndpointRecord.relay_url := Some "https://relay.example"; EndpointRecord.direct_addresses := ["127.0.0.1:4000"];
  EndpointRecord.signing_pubkey := owner; EndpointRecord.issued_at_secs := 100; EndpointRecord.expires_at_secs := 200;
  EndpointRecord.signature := signature Crypto.EndpointRecord (sample_key 3) |}.

Definition execution : Spec.ExecutionSpec := {|
  Spec.workload_name := "web"; Spec.replica_index := 0; Spec.replica_count := 1; Spec.manifest := [Byte.x01];
  Spec.proxy_endpoints := [endpoint]; Spec.service_catalog := None;
  Spec.workload_credential_b64 := b64_encode [Byte.x00]; Spec.workload_relay_auth_token := zeros;
  Spec.workload_relay_ca_certificates := [] |}.

Definition delegation : Workload.EnrollmentDelegation := {|
  Workload.delegation_version := 1;
  Workload.scope := {|
    Workload.tenant_owner := owner; Workload.scope_manifest_id := zeros; Workload.workload_id := zeros;
    Workload.revision_id := zeros; Workload.issuer_public_key_b64 := agent; Workload.token_id := "gen-1";
    Workload.scope_issued_at_secs := 100; Workload.scope_expires_at_secs := None;
    Workload.max_child_lifetime_secs := 1800 |};
  Workload.delegation_biscuit_b64 := owner |}.

Definition frame (operation : AgentControl.AgentControlOperation) (message : byte) : AgentControl.AgentControlRequest := {|
  AgentControl.request_version := 1; AgentControl.operation := operation;
  AgentControl.request_payload := seal [message] |}.

#[local] Instance codecs : AgentCodecs := {|
  codec_admission := numbered [admission zeros "admission-1" 400; admission (Net.of_chars (replicate 64 (Ascii.ascii_of_byte Byte.x31))) "admission-2" 400];
  codec_reservation := numbered []; codec_spec := numbered [execution]; codec_grant := numbered [grant "grant-1"];
  codec_receipt := numbered []; codec_update := numbered [update 100]; codec_update_response := numbered [];
  codec_command := numbered [delete_command]; codec_command_response := numbered []; codec_list := no_codec;
  codec_list_response := no_codec; codec_endpoint := numbered [endpoint]; codec_query := no_codec;
  codec_offer := no_codec; codec_hello := no_codec; codec_catalog := no_codec; codec_replica := no_codec;
  codec_report := numbered [];
  codec_control := numbered [frame AgentControl.Admission Byte.x00; frame AgentControl.Deploy Byte.x00;
                             frame AgentControl.Update Byte.x00; frame AgentControl.Admission Byte.x01;
                             frame AgentControl.Command Byte.x00];
  codec_control_response := numbered []; json_delegation := numbered_json [delegation];
  json_identity := numbered_json []; json_replica := numbered_json []; json_request := numbered_json [];
  json_response := numbered_json [] |}.

#[local] Instance manifests : Manifests := {|
  validate_and_measure_manifest := fun m =>
    Ok (m, {| res_cpu_milli := 100; res_memory_bytes := 10; res_storage_bytes := 10 |});
  inject := fun m _ => Ok m |}.
#[local] Instance runtime : WorkloadRuntime := {| target_id := fun _ _ _ => Ok "pod" |}.

Definition config : Config := {|
  capacity_cpu_milli := 500; capacity_memory_bytes := 1000; capacity_storage_bytes := 1000; max_workloads := 10;
  max_reserved_capacity_percent := 100; sidecar_image := "sidecar"; sidecar_metrics_listen := None;
  advertise_addresses := []; service_mesh_required := true |}.
Definition keys : Keys := {|
  signing_public := sample_key 4; signing_private := sample_key 4; kem_public := sample_key 6;
  kem_private := sample_key 6 |}.

Definition idle : World := {|
  state := {| active := ∅; reservations := ∅; quarantined := ∅ |}; mutations := ∅; replay := empty_cache;
  current_endpoint_address := None; store := AgentStore.empty_store; trace := [] |}.

Definition choice (uuid : string) (answer : option (Outcome string)) : Choice := {|
  clock := 120; uuid := uuid; ephemeral := sample_key 7; seal_nonce := sample_nonce; secure_nonce := "nonce";
  io_error := None; permit := true; text_answer := answer; unit_answer := Some (Ok tt); connector_answer := None |}.

(** Serving the control frame of the given number as task [i]. *)
Definition serve_frame (i : nat) (b : byte) : Tasks.Event (World := World) (Choice := Choice) :=
  Tasks.Spawn i (_ ← serve config keys 0 [b]; Tasks.Ret tt).
Definition steps (n i : nat) (c : Choice) : list (Tasks.Event (World := World) (Choice := Choice)) :=
  replicate n (Tasks.Run i c).

(** The first workload is admitted and deployed. *)
Definition deployed : list (Tasks.Event (World := World) (Choice := Choice)) :=
  serve_frame 0 Byte.x00 :: steps 6 0 (choice "reservation-1" None) ++
  serve_frame 1 Byte.x01 :: steps 12 1 (choice "" (Some (Ok "pod"))).

(** While an update that needs less is being deployed, another workload is
    admitted; then the update fails and the first revision comes back. *)
Definition overcommitted : list (Tasks.Event (World := World) (Choice := Choice)) :=
  deployed ++
  serve_frame 2 Byte.x02 :: steps 6 2 (choice "" None) ++
  serve_frame 3 Byte.x03 :: steps 6 3 (choice "reservation-2" None) ++
  steps 1 2 (choice "" (Some (Err (err "image pull failed")))) ++ steps 5 2 (choice "" (Some (Ok "pod"))).

Lemma sample_config_ok : config_ok config.
Proof. split; vm_compute; split; discriminate. Qed.

Lemma sample_decodes_unsigned : decodes_unsigned.
Proof.
  intros [|b [|]] r Hr; try done. cbn in Hr. apply list_elem_of_lookup_2 in Hr.
  assert (forall id nonce, nonneg (Admission.cpu_milli (admission id nonce 400)) 10 10) as Hn by (split; cbn; lia).
  repeat (apply elem_of_cons in Hr as [->|Hr]; [apply Hn|]). by apply not_elem_of_nil in Hr.
Qed.

Lemma idle_started : started config ∅ idle.
Proof.
  split; try done. apply AgentReplay.empty_cache_ok.
Qed.

Lemma serve_steps_ok i b n c events :
  Forall (agent_event config keys) events ->
  Forall (agent_event config keys) (serve_frame i b :: steps n i c ++ events).
Proof.
  intros He. constructor; [constructor|]. apply Forall_app. split; [|done]. by apply Forall_replicate.
Qed.

Lemma deployed_events : Forall (agent_event config keys) deployed.
Proof. apply serve_steps_ok. rewrite <- (app_nil_r (steps 12 _ _)). by apply serve_steps_ok. Qed.

Lemma overcommitted_events : Forall (agent_event config keys) overcommitted.
Proof.
  apply Forall_app. split; [apply deployed_events|]. do 2 apply serve_steps_ok.
  apply Forall_app. split; by apply Forall_replicate.
Qed.

Lemma deployed_cpu : total_cpu (state (run idle deployed).1) = 400.
Proof. vm_compute. reflexivity. Qed.

(** A failed update can leave the agent with more promised than it has: an
    update that shrinks a workload frees capacity before the new revision runs,
    another admission takes it, and rolling the failed update back puts the old
    reservation on top. *)
Theorem rollback_overcommits :
  started config ∅ idle /\ Forall (agent_event config keys) overcommitted /\
  total_cpu (state (run idle overcommitted).1) > capacity_cpu_milli config.
Proof. split_and!; [apply idle_started|apply overcommitted_events|vm_compute; reflexivity]. Qed.

Lemma deployed_not_rolled_back : ~ rolled_back (trace (run idle deployed).1).
Proof. apply not_rolled_back. vm_compute. reflexivity. Qed.

Lemma capacity_respected_witness : total_cpu (state (run idle deployed).1) <= 500.
Proof.
  apply (capacity_respected config keys ∅ sample_config_ok sample_decodes_unsigned idle deployed
    idle_started deployed_events deployed_not_rolled_back).
Defined.

Lemma deployments_recoverable_witness :
  history_ok None (history zeros (trace (run idle deployed).1)).
Proof.
  apply (deployments_recoverable config keys ∅ sample_config_ok sample_decodes_unsigned idle deployed zeros
    idle_started deployed_events).
Defined.

Definition deployed_world : World := (Tasks.pool_step release (run idle deployed) (serve_frame 2 Byte.x02)).1.

Lemma deployed_entry_present : active (state deployed_world) !! zeros <> None.
Proof. vm_compute. discriminate. Qed.

Lemma present_ok {A} (o : option A) (Q : A -> Prop) :
  o <> None -> (forall x, o = Some x -> Q x) -> exists x, o = Some x /\ Q x.
Proof. destruct o as [x|]; [|done]. intros _ HQ. exists x. split; [done|by apply HQ]. Qed.

Lemma workloads_guarded_witness : exists x, active (state deployed_world) !! zeros = Some x /\ sound zeros x.
Proof.
  apply present_ok; [exact deployed_entry_present|].
  exact (proj1 (workloads_guarded config keys ∅ sample_config_ok sample_decodes_unsigned idle deployed
    (serve_frame 2 Byte.x02) zeros idle_started deployed_events (serve_task config keys 0 [Byte.x02]))).
Defined.

(** The task that deploys an update is dropped while the runtime works on it. *)
Definition interrupted : list (Tasks.Event (World := World) (Choice := Choice)) :=
  deployed ++ serve_frame 2 Byte.x02 :: steps 6 2 (choice "" None) ++ [Tasks.Cancel 2].
Definition interrupted_world : World := (run idle interrupted).1.

Lemma interrupted_events : Forall (agent_event config keys) interrupted.
Proof. apply Forall_app. split; [apply deployed_events|]. apply serve_steps_ok. by repeat constructor. Qed.

Definition interrupted_entry : AgentStore.StoredWorkload :=
  AgentSafety.transitioning (update 100)
    {| AgentStore.version := 1; AgentStore.phase := AgentStore.Active; AgentStore.grant := grant "grant-1";
       AgentStore.runtime_id := "pod"; AgentStore.deleting := false; AgentStore.cpu_milli := 400;
       AgentStore.memory_bytes := 10; AgentStore.storage_bytes := 10; AgentStore.workload_name := "web";
       AgentStore.replica_index := 0; AgentStore.replica_count := 1 |}.

Lemma interrupted_entry_present : active (state interrupted_world) !! zeros = Some interrupted_entry.
Proof. vm_compute. reflexivity. Qed.

Lemma interrupted_filed id y :
  active (state interrupted_world) !! id = Some y -> Grant.workload_id (AgentStore.grant y) = id.
Proof.
  unfold interrupted_world. apply (run_filed config keys ∅ sample_config_ok sample_decodes_unsigned idle interrupted);
    [apply idle_started|apply interrupted_events].
Qed.

Lemma interrupted_update_stays_witness :
  active (state (run interrupted_world (serve_frame 4 Byte.x04 :: steps 12 4 (choice "" None) ++ [])).1) !! zeros
  = Some interrupted_entry.
Proof.
  apply (AgentInterrupted.interrupted_update_stays config keys zeros interrupted_entry).
  - reflexivity.
  - exact interrupted_entry_present.
  - exact interrupted_filed.
  - apply serve_steps_ok. constructor.
Defined.

(** ** Requests *)
Lemma serve_terminates_witness :
  is_Some (Tasks.run_alone 0 (serve config keys 0 [Byte.x00]) (replicate 15 (choice "r" None)) idle).
Proof. apply (AgentRequests.serve_terminates config keys 0 0 [Byte.x00] (replicate 15 (choice "r" None)) idle). reflexivity. Defined.

(** Another owner names the workload that runs. *)
Definition foreign_command : Command.WorkloadCommand := {|
  Command.version := 1; Command.request_id := "probe-1"; Command.namespace_id := b64_encode (sample_key 9);
  Command.workload_id := zeros; Command.target_node_id := agent; Command.operation := Command.Delete;
  Command.log_tail := None; Command.response_kem_pubkey := answer_key; Command.issued_at_secs := 100;
  Command.expires_at_secs := 200; Command.nonce := "probe-1";
  Command.owner_signature := signature Crypto.WorkloadCommand (sample_key 9) |}.

Lemma probe_not_owned :
  owned zeros (b64_encode (sample_key 9)) (state deployed_world) = None /\
  owned zeros (b64_encode (sample_key 9)) (state (remove_active zeros deployed_world)) = None.
Proof. vm_compute. split; reflexivity. Qed.

Lemma replay_remove id (w : World) : replay w = replay (remove_active id w).
Proof. reflexivity. Qed.

Lemma foreign_commands_blind_witness :
  snd <$> Tasks.run_alone 5 (command config keys 0 foreign_command) (replicate 20 (choice "" None)) deployed_world =
  snd <$> Tasks.run_alone 5 (command config keys 0 foreign_command) (replicate 20 (choice "" None))
            (remove_active zeros deployed_world).
Proof.
  exact (proj1 (AgentRequests.foreign_commands_blind config keys 5 0 foreign_command (replicate 20 (choice "" None))
    deployed_world (remove_active zeros deployed_world) (proj1 probe_not_owned) (proj2 probe_not_owned)
    (replay_remove zeros deployed_world))).
Defined.

Definition listed : list Listing.WorkloadSummary :=
  match collect (summarize keys 120) (owned_workloads owner (state deployed_world)) with Ok l => l | Err _ => [] end.

Lemma listed_eq : collect (summarize keys 120) (owned_workloads owner (state deployed_world)) = Ok listed.
Proof. vm_compute. reflexivity. Qed.

Lemma listing_exact_witness :
  Forall (fun summary => Receipt.namespace_id (Listing.receipt summary) = owner) listed.
Proof.
  apply Forall_forall. intros summary Hin.
  apply (AgentRequests.listing_exact keys owner (state deployed_world) 120 listed listed_eq). exact Hin.
Defined.

(** The connector of the running workload answers an inspection. *)
Definition report : Connector.ConnectorIdentityReport := {|
  Connector.owner_public_key_b64 := owner; Connector.report_workload_name := "web"; Connector.report_workload_id := zeros;
  Connector.report_manifest_id := zeros; Connector.report_replica_index := 0; Connector.report_replica_count := 1;
  Connector.challenge := Connector.inspection_challenge "nonce"; Connector.report_endpoint := endpoint;
  Connector.credential_expires_at_secs := None; Connector.report_credential := None; Connector.service_record := None;
  Connector.transport_signature := signature Crypto.ConnectorIdentity (sample_key 7) |}.

Definition connector_choice : Choice := {|
  clock := 120; uuid := ""; ephemeral := sample_key 7; seal_nonce := sample_nonce; secure_nonce := "nonce";
  io_error := None; permit := true; text_answer := None; unit_answer := None;
  connector_answer := Some (Ok (Connector.identity_response report)) |}.

Definition running_entry : AgentStore.StoredWorkload :=
  {| AgentStore.version := 1; AgentStore.phase := AgentStore.Active; AgentStore.grant := grant "grant-1";
     AgentStore.runtime_id := "pod"; AgentStore.deleting := false; AgentStore.cpu_milli := 400;
     AgentStore.memory_bytes := 10; AgentStore.storage_bytes := 10; AgentStore.workload_name := "web";
     AgentStore.replica_index := 0; AgentStore.replica_count := 1 |}.

Definition enrollment : World * Outcome unit :=
  default (idle, Err (err "")) (Tasks.run_alone 5 (enroll_stored keys running_entry) (replicate 15 connector_choice) idle).

Lemma enrollment_eq :
  Tasks.run_alone 5 (enroll_stored keys running_entry) (replicate 15 connector_choice) idle =
  Some (enrollment.1, enrollment.2).
Proof. vm_compute. reflexivity. Qed.

Lemma issued_identity_bound_witness :
  AgentRequests.issued_bound (Grant.workload_id (AgentStore.grant running_entry)) (trace idle)
    (AgentStore.bindings (store idle) !! Grant.workload_id (AgentStore.grant running_entry)) enrollment.1.
Proof.
  exact (AgentRequests.issued_identity_bound keys 5 running_entry (replicate 15 connector_choice) idle
    enrollment.1 enrollment.2 enrollment_eq).
Defined.

(** ** A restart *)
Definition stopped : World := {|
  state := state idle; mutations := ∅; replay := empty_cache; current_endpoint_address := None;
  store := {| AgentStore.records := <["unreadable" := Err "decode local workload state for unreadable"]>
                (AgentStore.records (AgentStore.save running_entry AgentStore.empty_store));
              AgentStore.bindings := ∅ |};
  trace := [] |}.

Definition restarted : World :=
  default idle (fst <$> Tasks.run_alone 0 (restore_inner config keys) (replicate 12 (choice "" (Some (Ok "Running")))) stopped).

Lemma restarted_eq :
  Tasks.run_alone 0 (restore_inner config keys) (replicate 12 (choice "" (Some (Ok "Running")))) stopped =
  Some (restarted, Ok tt).
Proof. vm_compute. reflexivity. Qed.


End AgentSample.
