(* ===== verification/DeployedSample.v ===== *)
(** * Deployments of a concrete agent

    Manifests that pass from the owner to the runtime: a pod and a deployment,
    and a pod whose init container takes the sidecar's name. *)

From S2P Require Import Prelude Net OrderedMap Crypto Signed Quantities RustOrd EndpointRecord CapacityProtocol MeshProtocol Identity Registration Biscuit WorkloadIdentity Reconciliation AgentIds ServiceDiscovery Connector AgentMessages AgentControl Tasks AgentStore Manifest Rego Policy Confinement ServiceManifest NetDisplay Sidecar AgentState AgentService Deployed AgentSample.

Module DeployedSample.
Import Crypto Manifest Sidecar Deployed.
Import AgentMessages (Spec.ExecutionSpec).

#[local] Existing Instances Toy.prims Biscuit.Toy.biscuit ToyIroh.iroh AgentSample.blake3 AgentSample.codecs Policy.Sample.engine.
#[local] Instance metadata_json : Json SidecarMetadata := AgentSample.numbered_json [].

Definition obj := ServiceManifest.Sample.obj.
Definition str (s : string) : Yaml.Value := Yaml.Str s.

Definition document (kind : string) (spec : Yaml.Value) : Yaml.Value :=
  obj [("kind", str kind); ("metadata", obj [("name", str "demo")]); ("spec", spec)].
Definition app : Yaml.Value := obj [("name", str "app"); ("image", str "nginx")].
Definition pod : Yaml.Value := document "Pod" (obj [("containers", Yaml.Sequence [app])]).
Definition deployment : Yaml.Value :=
  document "Deployment" (obj [("template", obj [("spec", obj [("containers", Yaml.Sequence [app])])])]).

(** A tenant's init container that calls itself the sidecar. *)
Definition impostor : Yaml.Value :=
  obj [("name", str "podmesh-sidecar"); ("image", str "tenant");
       ("securityContext", obj [("runAsUser", Yaml.Num (PosInt 0));
                                ("capabilities", obj [("add", Yaml.Sequence [str "NET_ADMIN"])])])].
Definition posing_pod : Yaml.Value :=
  document "Pod" (obj [("containers", Yaml.Sequence [app]); ("initContainers", Yaml.Sequence [impostor])]).

(** The documents and what becomes of them. *)
Definition sidecar : Json.Value := sidecar_container "sidecar" (b64_encode [Byte.x01]) None.
Definition injected_doc (d : Yaml.Value) : Yaml.Value :=
  match (v ← YamlTable.to_json d; inject_document sidecar (workload_runtime_name AgentSample.zeros) v) with
  | Ok v => YamlTable.of_json v
  | Err _ => Yaml.Null
  end.
Definition stages (d : Yaml.Value) : list Yaml.Value :=
  [d; injected_doc d; Policy.mutate_document_defaults (injected_doc d)].
#[local] Instance yaml : YamlSupport := YamlTable.support (stages pod ++ stages deployment ++ stages posing_pod).

Definition execution (manifest : string) : Spec.ExecutionSpec := {|
  AgentMessages.Spec.workload_name := "web"; AgentMessages.Spec.replica_index := 0; AgentMessages.Spec.replica_count := 1;
  AgentMessages.Spec.manifest := as_bytes manifest; AgentMessages.Spec.proxy_endpoints := [AgentSample.endpoint];
  AgentMessages.Spec.service_catalog := None; AgentMessages.Spec.workload_credential_b64 := b64_encode [Byte.x00];
  AgentMessages.Spec.workload_relay_auth_token := AgentSample.zeros;
  AgentMessages.Spec.workload_relay_ca_certificates := [] |}.

Definition deploy (manifest : string) : Result (bytes * ManifestResources) :=
  AgentService.runtime_manifest AgentSample.config AgentSample.zeros AgentSample.owner (execution manifest).

Definition measured (cpu memory storage : Z) : ManifestResources :=
  {| res_cpu_milli := cpu; res_memory_bytes := memory; res_storage_bytes := storage |}.

Lemma pod_deployed :
  deploy "A" = Ok (as_bytes ("C" +:+ NEWLINE), measured 200 268435456 2147483648) /\
  target_id AgentSample.zeros AgentSample.owner (as_bytes ("C" +:+ NEWLINE)) = Ok (workload_runtime_name AgentSample.zeros).
Proof. by vm_compute. Qed.

Lemma deployment_deployed :
  deploy "D" = Ok (as_bytes ("F" +:+ NEWLINE), measured 200 268435456 2147483648) /\
  target_id AgentSample.zeros AgentSample.owner (as_bytes ("F" +:+ NEWLINE)) =
    Ok (workload_runtime_name AgentSample.zeros +:+ "-pod").
Proof. by vm_compute. Qed.

Lemma deployed_pod_witness :
  exists docs v y, parse_yaml_documents_from_slice (as_bytes "A") = Ok docs /\ Confinement.confined_document v /\
    yaml_of_json v = Ok y /\ Policy.is_pod_document y.
Proof.
  destruct (deployed_pod (L := YamlTable.laws _) (K := YamlTable.conversions _) AgentSample.config _ _ _ _ _ eq_refl (proj1 pod_deployed))
    as (owner & blob & sidecar & docs & d & v0 & v & y & d' & Hdocs & _ & _ & _ & _ & _ & _ & _ & Hc & Hy & Hp & _).
  exists docs, v, y. split_and!; [exact Hdocs|exact Hc|exact Hy|exact Hp].
Defined.

Lemma targets_isolated_witness :
  String.substring 0 DIGEST_LEN (blake3_hex (as_bytes AgentSample.zeros)) =
  String.substring 0 DIGEST_LEN (blake3_hex (as_bytes AgentSample.zeros)).
Proof.
  exact (targets_isolated (L := YamlTable.laws _) (K := YamlTable.conversions _) AgentSample.config _ _ _ _ _ _ _ _ _ _ _ (fun _ => eq_refl) eq_refl
    (proj1 pod_deployed) (proj1 pod_deployed) (proj2 pod_deployed) (proj2 pod_deployed)).
Defined.

(** A tenant's container can pose as the sidecar.  The injection refuses the
    sidecar's name among the containers only; an init container with that name
    is injected beside, accepted by the policy and deployed, as root and with
    NET_ADMIN. *)
Theorem init_container_poses_as_sidecar :
  exists y, deploy "G" = Ok (as_bytes ("I" +:+ NEWLINE), measured 300 402653184 3221225472) /\
    parse_yaml_documents_from_slice (as_bytes ("I" +:+ NEWLINE)) = Ok [y] /\
    Policy.containers y "initContainers" = Some [Policy.inject_resource_defaults impostor].
Proof. eexists. split_and!; [by vm_compute|by vm_compute|by vm_compute]. Qed.
End DeployedSample.
